(* ===== verification/_CoqProject ===== *)
-Q . S2P
Prelude.v
Strings.v
Bytes.v
Datum.v
Varint.v
MemComparable.v
Compact.v
Schema.v
RowCodec.v
Contiguous.v
Time.v
Sampler.v
Skiplist.v
Projection.v
RecordBatch.v
MemKey.v
Memtable.v
Merge.v
Dedup.v
BTree.v
SstFile.v
Version.v
IdAllocator.v
WriteSplit.v
FlushScheduler.v
TableData.v
Durability.v
Picker.v
Compaction.v
CompactionScheduler.v
Manifest.v
TableKv.v
KvEncoder.v
TableUnit.v
UnitLog.v
WalUnits.v
WalNamespace.v
NamespaceBuckets.v
WalReplayer.v
ShardOpen.v
PartitionedLock.v
DiskCache.v
DiskCacheReads.v
MqRegion.v
MqLog.v
MqWal.v
Partition.v
PartitionSql.v
