(* ===== verification/Prelude.v ===== *)
(** * CeresDB: a verification development of its storage core

    CeresDB is a time series database.  A write is logged and put into a memtable;
    memtables are flushed to files, files are compacted; a read merges memtables and
    files; the manifest records which files a table has.  This library models these
    parts of the Rust sources (under [src/]) as Rocq functions and step relations
    and proves what each promises to the next.

    ** How code is modelled

    A function that returns [Result] gives [Ok], [Err] or [Panic] ([res], below); the
    last is a call that unwinds: a failed assertion, an [unwrap] of [None], an index
    out of range, and an arithmetic overflow, since the build profile has
    [overflow-checks] on.  Integers are [Z] kept at their width: [u64_op] and
    [i64_op] unwind outside the range, [as_u] and [as_s] are the casts.  A method
    that changes its object gives the changed object.  Shared objects (memtables,
    file handles) are addresses into a store, so that their copies share state.
    Where several tasks interleave, the steps between which another task may run
    are definitions of their own and a relation puts them together.  Code outside
    the repository is a class of operations with the laws that its documentation
    gives, and a witness instantiates it.  Logging, metrics and tracing are left out.

    ** Files, in the order of their dependencies

    [Strings]: characters and decimal numbers in names.

    Encodings.  [Bytes] ([components/bytes_ext]): readers, writers, big-endian
    integers, the order of byte strings.  [Datum] ([common_types/src/datum.rs]).
    [Varint], [MemComparable], [Compact], [RowCodec] ([common_util/src/codec]): the
    encodings of integers, of keys and of rows in the log.  [Contiguous]
    ([common_types/src/row/contiguous.rs], [bitset.rs]): rows in a memtable.
    Shown: encodings come back; encoded keys compare as the keys do; decoding
    arbitrary bytes gives values of the type asked for; where decoding panics.

    Schemas and batches.  [Schema], [Projection], [RecordBatch] ([common_types/src]:
    [schema.rs], [column_schema.rs], [row/mod.rs], [projected_schema.rs],
    [column.rs], [record_batch.rs]).  Shown: what the builder accepts is well
    formed; which writers a table accepts and where their columns go; what a
    projection reads; the timestamps of a row group.

    Time.  [Time] ([common_types/src/time.rs]), [Sampler]
    ([analytic_engine/src/sampler.rs]).  Shown: buckets partition time; the ranges
    of a sampler are disjoint and cover what it collected.

    Memtable.  [Skiplist] ([components/skiplist]) refines a sorted map behind the
    interface [OrderedIndex]; [MemKey] and [Memtable] ([analytic_engine/src/memtable])
    use that interface.  Shown: a scan gives the newest visible version of every key.

    Reading.  [Merge] and [Dedup] ([analytic_engine/src/row_iter]) over the interface
    [RecordBatchIterator].  Shown: merging sorts, dedup keeps the newest row.

    The version of a table.  [BTree] (the standard library's ordered map), [SstFile]
    ([sst/file.rs], [sst/manager.rs]), [Version] ([table/version.rs],
    [table/version_edit.rs]), [IdAllocator] ([common_util/src/id_allocator.rs]).
    Shown: file sets refine maps; a read view is complete; replaying edits gives the
    version they were applied to; file ids are never reused.

    Writing and flushing.  [WriteSplit] and [TableData] ([instance/write.rs],
    [instance/flush_compaction.rs], [table/data.rs]), [FlushScheduler]
    ([instance/serial_executor.rs]), [Durability], which interleaves a writer, a
    flush, crashes and recovery.  Shown: one flush at a time, every call returns,
    no acknowledged write is lost if flushes begin between writes, and a run of the
    code, which does not require that, that loses one.

    Compaction.  [Picker] ([compaction/picker.rs], [compaction/mod.rs]), [Compaction]
    ([instance/flush_compaction.rs], [sst/writer.rs]), [CompactionScheduler]
    ([compaction/scheduler.rs]).  Shown: what is picked; that reads are unchanged
    when the files holding a key are comparable, and a run in which they are not;
    tasks are disjoint and within the limits; how the worker can block itself.

    The manifest.  [Manifest] ([manifest/], [table_meta_set_impl.rs]).  Shown: recovery
    from the log and a snapshot gives the table in memory; a race that loses an edit;
    when an edit fails.

    The write-ahead log in a key-value service.  [TableKv] ([components/table_kv]) is
    the interface [TableKv] of the service, its laws [TableKvLaws], under which any
    operation may fail, and the implementation in memory, which keeps them;
    [KvEncoder] ([wal/src/kv_encoder.rs], [manager.rs]) the keys; [TableUnit]
    ([table_kv_impl/table_unit.rs]) the log of a table over the buckets of its region;
    [UnitLog] and [WalUnits] what it promises; [WalNamespace] and [NamespaceBuckets]
    ([namespace.rs], [model.rs], [encoding.rs]) the buckets by day, created, found
    again and purged.  Shown: for any tables over the same buckets, any failures and
    restarts, reading gives what was acknowledged and not deleted, and nothing that was
    not written; buckets are ordered, apart and found again; runs in which a failed
    write makes a log unreadable, and in which tables are leaked.

    Opening.  [WalReplayer] ([instance/wal_replayer.rs]) over the interface
    [ReplayTable], [ShardOpen] ([instance/open.rs], [engine.rs], [create.rs],
    [drop.rs], [close.rs], [space.rs]).  Shown: both modes of replay give the same
    tables; with the log above a table gets each acknowledged entry after its flushed
    sequence; tables open or fail each by itself; runs in which replaying by region
    misses an entry, and in which a table that failed to open is opened without its
    log the next time.

    The write-ahead log in a message queue.  [MqRegion] ([wal/src/message_queue_impl],
    [components/message_queue]) over the interface [MessageQueue]; [MqLog] the
    invariants of a region's topic and its meta data; [MqWal] what the log promises
    under [MessageQueueLaws].  Shown: for any failures, cleanings and restarts, reading
    gives what was acknowledged and not deleted; sequences increase; the assertions of
    snapshots hold; a run after which a region can no longer be opened.

    The disk cache of objects.  [PartitionedLock]
    ([common_util/src/partitioned_lock.rs]), [DiskCache] and [DiskCacheReads]
    ([components/object_store/src/disk_cache.rs]) over the interfaces [Lru],
    [CacheDir] and [ObjectStore].  Shown: a read with calls interleaved, failures
    and restarts gives the bytes of the object; every call returns; a run in which a
    write that failed makes a later read shorter.

    Partitioned tables.  [Partition] ([table_engine/src/partition],
    [partition_table_engine/src/partition.rs]) over [DfEval], the meaning of filters,
    and [RemoteEngine]; [PartitionSql] ([query_frontend/src/parser.rs],
    [query_frontend/src/partition.rs]) the clause that makes them.  Shown: a read asks
    the partition of every row that its filters are true of; the partitions of a table
    have tables of their own; a filter whose partitions miss a row.

    ** Bounds and fuel

    Loops whose number of turns the data determine are structural.  The others take
    fuel and give [Panic] without it; each theorem about such a loop shows that the
    fuel its definition gives is enough: ten turns for a varint of 64 bits
    ([Varint]), the number of nodes for a walk in the skiplist ([Skiplist]), the
    number of rows left for the merge iterator and the memtable scan ([Merge],
    [Memtable]), more than the entries written for reading a log ([TableUnit]), the
    number of entries for splitting a batch ([WalReplayer]), the number of queued
    requests for the queue of the scheduler, where the source loops for ever without
    room ([CompactionScheduler]), the high watermark for recovering a region and more
    than the messages of its topic for reading it ([MqRegion]).  A consumer that waits for a message that nobody
    will write gives [Blocks].

    ** Not modelled

    Reading and writing parquet files, arrow arrays and the object store, which are
    calls of other crates; the SQL and PromQL frontends but for the partition clause,
    the planner and the executor, which translate to DataFusion; the network services,
    clients and the cluster metadata; the log in RocksDB; configuration, logging and
    metrics.  Of the modelled files, what is
    left out is said at the top of each file and in the manifest of components. *)

From Stdlib Require Import ZArith Lia.
From stdpp Require Import base tactics option list sorting numbers.

#[local] Open Scope Z_scope.

(** ** Outcomes of fallible Rust code *)

(** What a call of a Rust function that returns [Result<A, E>] can do: return
    [Ok], return [Err], or unwind ([panic!], [assert!], [unwrap] of [None],
    arithmetic overflow: the workspace builds with [overflow-checks = true]). *)
Inductive res (E A : Type) : Type :=
| Ok (a : A)
| Err (e : E)
| Panic.
Arguments Ok {E A} a.
Arguments Err {E A} e.
Arguments Panic {E A}.

(** The [?] operator, sequencing of fallible calls. *)
Definition rbind {E A B : Type} (r : res E A) (k : A -> res E B) : res E B :=
  match r with
  | Ok a => k a
  | Err e => Err e
  | Panic => Panic
  end.

(** snafu's [.context(..)]: the error of a callee wrapped into the caller's. *)
Definition rcontext {E F A : Type} (f : E -> F) (r : res E A) : res F A :=
  match r with
  | Ok a => Ok a
  | Err e => Err (f e)
  | Panic => Panic
  end.

(** snafu's [ensure!]. *)
Definition ensure {E : Type} (b : bool) (e : E) : res E unit :=
  if b then Ok tt else Err e.

(** [assert!]. *)
Definition rassert {E : Type} (b : bool) : res E unit :=
  if b then Ok tt else Panic.

(** [Option::unwrap]. *)
Definition unwrap {E A : Type} (o : option A) : res E A :=
  match o with Some a => Ok a | None => Panic end.

Declare Scope res_scope.
Delimit Scope res_scope with res.
Notation "'let?' x := e 'in' k" := (rbind e (fun x => k))
  (at level 10, x pattern, e at level 100, k at level 200) : res_scope.
#[global] Open Scope res_scope.

(** A call that neither fails nor unwinds. *)
Definition is_ok {E A : Type} (r : res E A) : Prop := exists a, r = Ok a.
(** A call that returns, with a value or an error. *)
Definition no_panic {E A : Type} (r : res E A) : Prop := r <> Panic.

Lemma rbind_ok {E A B} (r : res E A) (k : A -> res E B) b :
  rbind r k = Ok b <-> exists a, r = Ok a /\ k a = Ok b.
Proof. destruct r; simpl; naive_solver. Qed.

Lemma rbind_assoc {E A B C} (r : res E A) (f : A -> res E B) (g : B -> res E C) :
  rbind (rbind r f) g = rbind r (fun a => rbind (f a) g).
Proof. by destruct r. Qed.

Lemma rcontext_ok {E F A} (f : E -> F) (r : res E A) a :
  rcontext f r = Ok a <-> r = Ok a.
Proof. destruct r; simpl; naive_solver. Qed.

(** A [for] loop whose body can fail, over the items it iterates. *)
Fixpoint rfold {E S A : Type} (f : S -> A -> res E S) (l : list A) (s : S) : res E S :=
  match l with
  | [] => Ok s
  | a :: l => let? s := f s a in rfold f l s
  end.

Lemma rfold_app {E S A} (f : S -> A -> res E S) l1 l2 s :
  rfold f (l1 ++ l2) s = let? s := rfold f l1 s in rfold f l2 s.
Proof.
  revert s. induction l1 as [|a l1 IH]; intros s; simpl; [done|].
  rewrite rbind_assoc. by destruct (f s a); simpl.
Qed.

(** A loop over the indexes of a list is a loop over the list. *)
Lemma rfold_seq {E T A} (f : T -> nat -> res E T) (g : T -> A -> res E T) l k s :
  (forall i a, l !! i = Some a -> forall s, f s (k + i)%nat = g s a) ->
  rfold f (seq k (length l)) s = rfold g l s.
Proof.
  revert k s. induction l as [|a l IH]; intros k s H; simpl; [done|].
  rewrite <- (Nat.add_0_r k), (H 0%nat a eq_refl), Nat.add_0_r.
  destruct (g s a); simpl; [|done|done]. apply IH. intros i a' Hi s'.
  rewrite <- (H (S i) a' Hi). f_equal. lia.
Qed.

(** ** Machine integers

    An integer of the source is a [Z]; its width is a predicate, and what the
    source does at the border of the width is written out at each use. *)
Definition uint (w : Z) (x : Z) : Prop := 0 <= x < 2 ^ w.
Definition sint (w : Z) (x : Z) : Prop := - 2 ^ (w - 1) <= x < 2 ^ (w - 1).

Definition uintb (w x : Z) : bool := (0 <=? x) && (x <? 2 ^ w).
Definition sintb (w x : Z) : bool := (- 2 ^ (w - 1) <=? x) && (x <? 2 ^ (w - 1)).

(** [as u<w>] and [as i<w>] casts from any integer type. *)
Definition as_u (w x : Z) : Z := x mod 2 ^ w.
Definition as_s (w x : Z) : Z := (x + 2 ^ (w - 1)) mod 2 ^ w - 2 ^ (w - 1).

Definition i64_min : Z := - 2 ^ 63.
Definition i64_max : Z := 2 ^ 63 - 1.
Definition u64_max : Z := 2 ^ 64 - 1.
Definition u32_max : Z := 2 ^ 32 - 1.

(** [checked_*] on [i64]. *)
Definition i64_checked (x : Z) : option Z := if sintb 64 x then Some x else None.
Definition u64_checked (x : Z) : option Z := if uintb 64 x then Some x else None.

(** [+], [-], [*] under [overflow-checks]. *)
Definition i64_op {E} (x : Z) : res E Z := if sintb 64 x then Ok x else Panic.
Definition u64_op {E} (x : Z) : res E Z := if uintb 64 x then Ok x else Panic.

Lemma uintb_spec w x : uintb w x = true <-> uint w x.
Proof. unfold uintb, uint. lia. Qed.

Lemma sintb_spec w x : sintb w x = true <-> sint w x.
Proof. unfold sintb, sint. lia. Qed.

Lemma i64_checked_some x y : i64_checked x = Some y <-> y = x /\ sint 64 x.
Proof.
  unfold i64_checked. destruct (sintb 64 x) eqn:E.
  - apply sintb_spec in E. naive_solver.
  - split; [done|]. intros [_ H]. apply sintb_spec in H. congruence.
Qed.

Lemma i64_checked_none x : i64_checked x = None <-> ~ sint 64 x.
Proof.
  unfold i64_checked. destruct (sintb 64 x) eqn:E.
  - apply sintb_spec in E. naive_solver.
  - split; [|done]. intros _ H. apply sintb_spec in H. congruence.
Qed.

Lemma u64_op_ok {E} x : uint 64 x -> @u64_op E x = Ok x.
Proof. unfold u64_op. intros H. apply uintb_spec in H. by rewrite H. Qed.

Lemma i64_op_ok {E} x : sint 64 x -> @i64_op E x = Ok x.
Proof. unfold i64_op. intros H. apply sintb_spec in H. by rewrite H. Qed.

Lemma pow2_double_pred w : 0 < w -> 2 ^ w = 2 * 2 ^ (w - 1).
Proof. intros H. replace w with (Z.succ (w - 1)) at 1 by lia. rewrite Z.pow_succ_r; lia. Qed.

Lemma as_u_range w x : 0 <= w -> uint w (as_u w x).
Proof. intros H. unfold uint, as_u. apply Z.mod_pos_bound. by apply Z.pow_pos_nonneg. Qed.

Lemma as_u_id w x : uint w x -> as_u w x = x.
Proof. intros H. by apply Z.mod_small. Qed.

Lemma as_s_range w x : 0 < w -> sint w (as_s w x).
Proof.
  intros H. unfold sint, as_s.
  pose proof (Z.mod_pos_bound (x + 2 ^ (w - 1)) (2 ^ w) ltac:(apply Z.pow_pos_nonneg; lia)).
  rewrite (pow2_double_pred w) in * by lia. lia.
Qed.

Lemma as_s_id w x : 0 < w -> sint w x -> as_s w x = x.
Proof.
  intros Hw H. unfold sint, as_s in *. rewrite Z.mod_small; [lia|].
  rewrite (pow2_double_pred w) by lia. lia.
Qed.

(** A cast to unsigned and back is the identity, and conversely. *)
Lemma as_s_as_u w x : 0 < w -> sint w x -> as_s w (as_u w x) = x.
Proof.
  intros Hw H. unfold as_s, as_u. rewrite Zplus_mod_idemp_l.
  by apply as_s_id.
Qed.

Lemma as_u_as_s w x : 0 < w -> uint w x -> as_u w (as_s w x) = x.
Proof.
  intros Hw H. unfold as_s, as_u. rewrite Zminus_mod_idemp_l.
  replace (x + 2 ^ (w - 1) - 2 ^ (w - 1)) with x by lia. by apply Z.mod_small.
Qed.

Lemma Z_leb_true x y : x <= y -> (x <=? y) = true.
Proof. lia. Qed.
Lemma Z_leb_false x y : y < x -> (x <=? y) = false.
Proof. lia. Qed.
Lemma Z_ltb_true x y : x < y -> (x <? y) = true.
Proof. lia. Qed.
Lemma Z_ltb_false x y : y <= x -> (x <? y) = false.
Proof. lia. Qed.
Lemma Z_eqb_false x y : x <> y -> (x =? y) = false.
Proof. lia. Qed.

(** ** Orders as comparison functions *)

(** Lexicographic combination, [Ordering::then]. *)
Definition cmp_then (c d : comparison) : comparison :=
  match c with Eq => d | _ => c end.

(** A comparison function that decides a total order ([Ord] of the source). *)
Class TotalCmp {A : Type} (cmp : A -> A -> comparison) : Prop := {
  cmp_eq : forall a b, cmp a b = Eq <-> a = b;
  cmp_antisym : forall a b, cmp b a = CompOpp (cmp a b);
  cmp_lt_trans : forall a b c, cmp a b = Lt -> cmp b c = Lt -> cmp a c = Lt
}.

#[export] Instance Z_compare_total : TotalCmp Z.compare.
Proof.
  split.
  - apply Z.compare_eq_iff.
  - intros a b. apply Z.compare_antisym.
  - intros a b c. rewrite !Z.compare_lt_iff. lia.
Qed.

Section total_cmp.
Context {A : Type} (cmp : A -> A -> comparison) {HC : TotalCmp cmp}.

Lemma cmp_refl a : cmp a a = Eq.
Proof. by apply cmp_eq. Qed.

Lemma cmp_gt_lt a b : cmp a b = Gt <-> cmp b a = Lt.
Proof. rewrite (cmp_antisym (cmp:=cmp) a b). by destruct (cmp a b). Qed.

Lemma cmp_lt_irrefl a : cmp a a <> Lt.
Proof. by rewrite cmp_refl. Qed.
End total_cmp.

(** ** The hint databases of the development *)
Create HintDb ceres discriminated.
#[export] Hint Resolve as_u_range as_u_id as_s_range as_s_id : ceres.

(** Splits hypotheses that say a fallible computation returned [Ok]. *)
Ltac inv_ok :=
  repeat match goal with
  | H : rbind _ _ = Ok _ |- _ => apply rbind_ok in H; destruct H as (? & ? & ?)
  | H : rcontext _ _ = Ok _ |- _ => apply rcontext_ok in H
  | H : Ok _ = Ok _ |- _ => injection H as H; subst
  | H : Err _ = Ok _ |- _ => discriminate H
  | H : Panic = Ok _ |- _ => discriminate H
  | H : bool_decide _ = true |- _ => apply bool_decide_eq_true in H
  | H : ensure ?b _ = Ok _ |- _ => unfold ensure in H; destruct b eqn:?; [|discriminate H]
  | H : rassert ?b = Ok _ |- _ => unfold rassert in H; destruct b eqn:?; [|discriminate H]
  end.

(** ** Filters *)
Lemma filter_all {A} (P : A -> Prop) `{!forall x, Decision (P x)} (l : list A) :
  (forall x, x ∈ l -> P x) -> filter P l = l.
Proof.
  induction l as [|a l IH]; intros Hall; [done|].
  rewrite filter_cons_True by (apply Hall; by left).
  f_equal. apply IH. intros x Hx. apply Hall. by right.
Qed.
Lemma filter_fmap_iff {A B} (f : A -> B) (P : B -> Prop) (Q : A -> Prop) `{!forall x, Decision (P x)} `{!forall x, Decision (Q x)} (l : list A) :
  (forall x, x ∈ l -> P (f x) <-> Q x) -> filter P (f <$> l) = f <$> filter Q l.
Proof.
  induction l as [|x l IH]; intros Hpq; [done|]. cbn [fmap list_fmap]. rewrite !filter_cons. fold (f <$> l).
  rewrite IH by (intros y Hy; apply Hpq; by right). destruct (Hpq x) as [H1 H2]; [by left|]. by repeat case_decide; try tauto.
Qed.
Lemma filter_iff_in {A} (P Q : A -> Prop) `{!forall x, Decision (P x)} `{!forall x, Decision (Q x)} (l : list A) :
  (forall x, x ∈ l -> P x <-> Q x) -> filter P l = filter Q l.
Proof. intros Hpq. pose proof (filter_fmap_iff id P Q l Hpq) as Hf. by rewrite !list_fmap_id in Hf. Qed.
Lemma ssorted_filter {A} (R : A -> A -> Prop) (P : A -> Prop) `{!forall x, Decision (P x)} l :
  StronglySorted R l -> StronglySorted R (filter P l).
Proof.
  induction 1 as [|x l Hl IH Hx]; [constructor|]. rewrite filter_cons. destruct (decide (P x)); [|done]. constructor; [done|].
  apply list.Forall_forall. intros y [_ Hy]%list_elem_of_filter. by eapply list.Forall_forall in Hx.
Qed.
