(* ===== verification/Strings.v ===== *)
(** * Strings as lists of characters

    The names of files, tables and records are formatted from numbers and separators;
    these lemmas recover the parts of such a name. *)

From Stdlib Require Import ZArith Lia String Ascii.
From stdpp Require Import base tactics option list numbers strings pretty.
From S2P Require Import Prelude.

Abbreviation chars := list_ascii_of_string.
Lemma chars_app s1 s2 : chars (s1 +:+ s2) = chars s1 ++ chars s2.
Proof. induction s1 as [|c s1 IH]; [done|]. change (c :: chars (s1 +:+ s2) = c :: chars s1 ++ chars s2). by rewrite IH. Qed.
Lemma chars_inj s1 s2 : chars s1 = chars s2 -> s1 = s2.
Proof. intros H. rewrite <- (string_of_list_ascii_of_string s1), <- (string_of_list_ascii_of_string s2). by rewrite H. Qed.
Lemma last_sep {A} (c : A) l1 a1 l2 a2 : c ∉ a1 -> c ∉ a2 -> l1 ++ c :: a1 = l2 ++ c :: a2 -> l1 = l2 /\ a1 = a2.
Proof.
  intros H1 H2 Heq. apply app_eq_inv in Heq as [(k & -> & Hk)|(k & -> & Hk)]; destruct k as [|x k]; cbn in Hk.
  - injection Hk as ->. by rewrite app_nil_r.
  - injection Hk as -> ->. exfalso. apply H2. apply elem_of_app. right. by left.
  - injection Hk as ->. by rewrite app_nil_r.
  - injection Hk as -> ->. exfalso. apply H1. apply elem_of_app. right. by left.
Qed.
Lemma digits_pretty_go n s : Forall (fun c => (48 <= N_of_ascii c <= 57)%N) (chars s) ->
  Forall (fun c => (48 <= N_of_ascii c <= 57)%N) (chars (pretty_N_go n s)).
Proof.
  revert s. induction n as [n IH] using (well_founded_induction N.lt_wf_0). intros s Hs. destruct (decide (n = 0%N)) as [->|Hn]; [by rewrite pretty_N_go_0|].
  rewrite pretty_N_go_step by lia. apply IH; [apply N.div_lt; lia|]. cbn. constructor; [|done].
  assert (n `mod` 10 < 10)%N as Hd by (by apply N.mod_lt). generalize dependent (n `mod` 10)%N. intros d Hd.
  assert (d = 0 \/ d = 1 \/ d = 2 \/ d = 3 \/ d = 4 \/ d = 5 \/ d = 6 \/ d = 7 \/ d = 8 \/ d = 9)%N as Hcase by lia.
  repeat (destruct Hcase as [->|Hcase]; [by vm_compute|]). subst. by vm_compute.
Qed.
Lemma digits_pretty (n : N) : Forall (fun c => (48 <= N_of_ascii c <= 57)%N) (chars (pretty n)).
Proof. unfold pretty, pretty_N. case_decide; [by repeat constructor|]. apply digits_pretty_go. constructor. Qed.
Lemma digits_avoid (c : ascii) l : ~ (48 <= N_of_ascii c <= 57)%N -> Forall (fun c => (48 <= N_of_ascii c <= 57)%N) l -> c ∉ l.
Proof. intros Hc Hl Hin. rewrite Forall_forall in Hl. by apply Hc, Hl. Qed.
