(* ===== verification/Bytes.v ===== *)
(** * Byte buffers: [components/bytes_ext]

    The [SafeBuf] / [SafeBufMut] traits over [bytes::Buf] / [bytes::BufMut],
    the big-endian integers they read and write, and the byte order the
    storage engine compares encoded keys with.

    A byte is a [Z] in [0, 256).  A reader is the list of its remaining bytes
    (the codecs of the repository read from contiguous buffers, whose
    [chunk()] is everything that remains); a writer is what was written so far
    together with the number of bytes it can hold.  What a buffer holds after
    a failed call is not modelled: every caller returns the error. *)

From Stdlib Require Import ZArith Lia.
From stdpp Require Import base tactics option list numbers.
From S2P Require Import Prelude.

#[local] Open Scope Z_scope.

Abbreviation bytes := (list Z).
Definition bytes_ok (bs : bytes) : Prop := Forall (uint 8) bs.

Abbreviation len bs := (Z.of_nat (length bs)).

(** [bytes_ext::Error]. *)
Inductive BytesError := UnexpectedEof | WouldOverflow.

(** ** Big-endian integers ([to_be_bytes], [from_be_bytes]) *)
Fixpoint be_bytes (n : nat) (v : Z) : bytes :=
  match n with
  | O => []
  | S m => (v / 2 ^ (8 * Z.of_nat m)) mod 2 ^ 8 :: be_bytes m v
  end.

Definition be_val (bs : bytes) : Z := fold_left (fun acc b => acc * 2 ^ 8 + b) bs 0.

(** ** Readers: [SafeBuf] *)
Definition try_copy_to_slice (n : nat) (buf : bytes) : res BytesError (bytes * bytes) :=
  let? _ := ensure (Z.of_nat n <=? len buf) UnexpectedEof in
  Ok (take n buf, drop n buf).

Definition try_advance (cnt : nat) (buf : bytes) : res BytesError bytes :=
  let? _ := ensure (Z.of_nat cnt <=? len buf) UnexpectedEof in
  Ok (drop cnt buf).

Definition try_get_u8 (buf : bytes) : res BytesError (Z * bytes) :=
  let? (dst, buf) := try_copy_to_slice 1 buf in Ok (be_val dst, buf).

Definition try_get_u32 (buf : bytes) : res BytesError (Z * bytes) :=
  let? (dst, buf) := try_copy_to_slice 4 buf in Ok (be_val dst, buf).

Definition try_get_u64 (buf : bytes) : res BytesError (Z * bytes) :=
  let? (dst, buf) := try_copy_to_slice 8 buf in Ok (be_val dst, buf).

(** A float is its bit pattern: [from_be_bytes] of [f64] is [from_bits] of
    the [u64] with the same bytes. *)
Definition try_get_f64 (buf : bytes) : res BytesError (Z * bytes) :=
  let? (dst, buf) := try_copy_to_slice 8 buf in Ok (be_val dst, buf).

Definition try_get_f32 (buf : bytes) : res BytesError (Z * bytes) :=
  let? (dst, buf) := try_copy_to_slice 4 buf in Ok (be_val dst, buf).

(** ** Writers: [SafeBufMut] *)
Record wbuf := Wbuf { wb_data : bytes; wb_max : Z }.

Definition remaining_mut (b : wbuf) : Z := wb_max b - len (wb_data b).

(** [BufMut::put] of a slice. *)
Definition put (b : wbuf) (src : bytes) : wbuf := Wbuf (wb_data b ++ src) (wb_max b).

Definition try_put (b : wbuf) (src : bytes) : res BytesError wbuf :=
  let? _ := ensure (len src <=? remaining_mut b) WouldOverflow in
  Ok (put b src).

Definition try_put_u8 (b : wbuf) (n : Z) : res BytesError wbuf := try_put b [n].
Definition try_put_u32 (b : wbuf) (n : Z) : res BytesError wbuf := try_put b (be_bytes 4 n).
Definition try_put_u64 (b : wbuf) (n : Z) : res BytesError wbuf := try_put b (be_bytes 8 n).
Definition try_put_f64 (b : wbuf) (n : Z) : res BytesError wbuf := try_put b (be_bytes 8 n).
Definition try_put_f32 (b : wbuf) (n : Z) : res BytesError wbuf := try_put b (be_bytes 4 n).

(** ** Specifications of encoders and decoders *)

(** [writes f bs]: the encoder [f] appends exactly [bs] when the buffer has
    room for them, returns an error when it has not, and never unwinds. *)
Definition writes {E} (f : wbuf -> res E wbuf) (bs : bytes) : Prop :=
  forall b, if len bs <=? remaining_mut b
            then f b = Ok (put b bs)
            else exists e, f b = Err e.

(** [reads g bs a]: the decoder [g] consumes exactly [bs], whatever follows,
    and returns [a]. *)
Definition reads {E A} (g : bytes -> res E (A * bytes)) (bs : bytes) (a : A) : Prop :=
  forall rest, g (bs ++ rest) = Ok (a, rest).

(** ** Lemmas on big-endian integers *)
Lemma length_be_bytes n v : length (be_bytes n v) = n.
Proof. induction n; simpl; congruence. Qed.

Lemma be_bytes_ok n v : bytes_ok (be_bytes n v).
Proof.
  induction n; simpl; constructor; [|done]. apply (as_u_range 8). lia.
Qed.

Lemma be_val_snoc bs x : be_val (bs ++ [x]) = be_val bs * 2 ^ 8 + x.
Proof. unfold be_val. by rewrite fold_left_app. Qed.

Lemma be_val_acc bs a :
  fold_left (fun acc b => acc * 2 ^ 8 + b) bs a = a * 2 ^ (8 * len bs) + be_val bs.
Proof.
  unfold be_val. revert a. induction bs as [|x bs IH]; intros a; cbn [length fold_left].
  - rewrite Z.mul_0_r. simpl. lia.
  - rewrite IH, (IH (0 * 2 ^ 8 + x)). replace (8 * Z.of_nat (S (length bs))) with (8 + 8 * len bs) by lia.
    rewrite Z.pow_add_r by lia. lia.
Qed.

Lemma be_val_cons x bs : be_val (x :: bs) = x * 2 ^ (8 * len bs) + be_val bs.
Proof. unfold be_val at 1. simpl. apply be_val_acc. Qed.

Lemma be_val_range bs : bytes_ok bs -> 0 <= be_val bs < 2 ^ (8 * len bs).
Proof.
  induction 1 as [|x bs Hx _ IH]; [by cbn|].
  rewrite be_val_cons. simpl length. unfold uint in Hx.
  replace (8 * Z.of_nat (S (length bs))) with (8 + 8 * len bs) by lia.
  rewrite Z.pow_add_r by lia. nia.
Qed.

Lemma be_val_be_bytes_mod n v : be_val (be_bytes n v) = v mod 2 ^ (8 * Z.of_nat n).
Proof.
  induction n as [|n IH]; [by rewrite Z.mod_1_r|].
  cbn [be_bytes]. rewrite be_val_cons, IH, length_be_bytes.
  replace (8 * Z.of_nat (S n)) with (8 * Z.of_nat n + 8) by lia.
  rewrite Z.pow_add_r by lia.
  assert (0 < 2 ^ (8 * Z.of_nat n)) by (apply Z.pow_pos_nonneg; lia).
  rewrite (Z.rem_mul_r v (2 ^ (8 * Z.of_nat n)) (2 ^ 8)) by lia. lia.
Qed.

Lemma be_val_be_bytes n v : uint (8 * Z.of_nat n) v -> be_val (be_bytes n v) = v.
Proof. intros H. rewrite be_val_be_bytes_mod. by apply Z.mod_small. Qed.

(** ** Composition of encoders and decoders *)
Lemma remaining_put b bs : remaining_mut (put b bs) = remaining_mut b - len bs.
Proof. unfold remaining_mut, put. simpl. rewrite length_app. lia. Qed.

Lemma put_put b bs1 bs2 : put (put b bs1) bs2 = put b (bs1 ++ bs2).
Proof. unfold put. simpl. by rewrite <- app_assoc. Qed.

Lemma put_nil b : put b [] = b.
Proof. destruct b. unfold put. simpl. by rewrite app_nil_r. Qed.

Section specs.
Context {E : Type}.

Lemma writes_try_put (bs : bytes) : writes (fun b => try_put b bs) bs.
Proof. intros b. unfold try_put, ensure. destruct (_ <=? _) eqn:H; simpl; eauto. Qed.

Lemma writes_context {F} (c : E -> F) f bs :
  writes f bs -> writes (fun b => rcontext c (f b)) bs.
Proof.
  intros H b. specialize (H b). destruct (_ <=? _); [by rewrite H|].
  destruct H as [e ->]. simpl. eauto.
Qed.

Lemma writes_bind (f g : wbuf -> res E wbuf) bs1 bs2 :
  writes f bs1 -> writes g bs2 -> writes (fun b => rbind (f b) g) (bs1 ++ bs2).
Proof.
  intros Hf Hg b. specialize (Hf b). rewrite length_app.
  destruct (len bs1 <=? remaining_mut b) eqn:H1.
  - rewrite Hf. simpl. specialize (Hg (put b bs1)).
    rewrite remaining_put in Hg.
    destruct (len bs2 <=? remaining_mut b - len bs1) eqn:H2.
    + rewrite Z_leb_true by lia. by rewrite Hg, put_put.
    + rewrite Z_leb_false by lia. done.
  - rewrite Z_leb_false by lia.
    destruct Hf as [e ->]. simpl. eauto.
Qed.

Lemma writes_ext (f g : wbuf -> res E wbuf) bs :
  (forall b, f b = g b) -> writes f bs -> writes g bs.
Proof. intros H Hf b. specialize (Hf b). by rewrite <- H. Qed.

Lemma writes_room (f : wbuf -> res E wbuf) bs b :
  writes f bs -> len bs <= remaining_mut b -> f b = Ok (put b bs).
Proof. intros H Hr. specialize (H b). by rewrite Z_leb_true in H by lia. Qed.

Lemma writes_ok_inv (f : wbuf -> res E wbuf) bs b b' :
  writes f bs -> f b = Ok b' -> b' = put b bs.
Proof.
  intros H Hb. specialize (H b). destruct (_ <=? _); [congruence|].
  destruct H; congruence.
Qed.

Lemma writes_no_panic (f : wbuf -> res E wbuf) bs b : writes f bs -> no_panic (f b).
Proof.
  intros H Hp. specialize (H b). destruct (_ <=? _); [congruence|].
  destruct H; congruence.
Qed.

Lemma reads_context {F A} (c : E -> F) (g : bytes -> res E (A * bytes)) bs a :
  reads g bs a -> reads (fun b => rcontext c (g b)) bs a.
Proof. intros H rest. by rewrite H. Qed.

Lemma reads_ret {A} (a : A) : reads (fun b => @Ok E _ (a, b)) [] a.
Proof. done. Qed.

Lemma reads_bind {A B} (g : bytes -> res E (A * bytes)) (h : A -> bytes -> res E (B * bytes))
    bs1 bs2 a c :
  reads g bs1 a -> reads (h a) bs2 c ->
  reads (fun b => rbind (g b) (fun '(x, b) => h x b)) (bs1 ++ bs2) c.
Proof. intros Hg Hh rest. rewrite <- app_assoc, Hg. simpl. apply Hh. Qed.
End specs.

Lemma reads_copy n bs : length bs = n -> reads (try_copy_to_slice n) bs bs.
Proof.
  intros <- rest. unfold try_copy_to_slice, ensure. rewrite length_app.
  rewrite Z_leb_true by lia. simpl. by rewrite take_app_length, drop_app_length.
Qed.

Lemma reads_u8 v : uint 8 v -> reads try_get_u8 [v] v.
Proof.
  intros H rest. unfold try_get_u8. rewrite (reads_copy 1 [v] eq_refl). reflexivity.
Qed.

Lemma reads_be n v (g : bytes -> res BytesError (Z * bytes)) :
  (forall buf, g buf = let? (dst, buf) := try_copy_to_slice n buf in Ok (be_val dst, buf)) ->
  uint (8 * Z.of_nat n) v -> reads g (be_bytes n v) v.
Proof.
  intros Hg H rest. rewrite Hg, (reads_copy n) by apply length_be_bytes. simpl.
  by rewrite be_val_be_bytes.
Qed.

Lemma reads_u32 v : uint 32 v -> reads try_get_u32 (be_bytes 4 v) v.
Proof. intros H. by apply (reads_be 4). Qed.
Lemma reads_u64 v : uint 64 v -> reads try_get_u64 (be_bytes 8 v) v.
Proof. intros H. by apply (reads_be 8). Qed.
Lemma reads_f64 v : uint 64 v -> reads try_get_f64 (be_bytes 8 v) v.
Proof. intros H. by apply (reads_be 8). Qed.
Lemma reads_f32 v : uint 32 v -> reads try_get_f32 (be_bytes 4 v) v.
Proof. intros H. by apply (reads_be 4). Qed.

Create HintDb codec discriminated.
#[export] Hint Resolve writes_try_put writes_context writes_bind reads_context reads_bind
  reads_u8 reads_u32 reads_u64 reads_f64 reads_f32 reads_ret : codec.

(** ** The order of byte strings *)

(** [Ord] of [[u8]]: lexicographic. *)
Fixpoint bytes_cmp (a b : bytes) : comparison :=
  match a, b with
  | [], [] => Eq
  | [], _ => Lt
  | _, [] => Gt
  | x :: a, y :: b => cmp_then (x ?= y) (bytes_cmp a b)
  end.

#[export] Instance bytes_cmp_total : TotalCmp bytes_cmp.
Proof.
  split.
  - induction a as [|x a IH]; intros [|y b]; simpl; try done.
    destruct (Z.compare_spec x y) as [->|H|H]; simpl.
    + rewrite IH. naive_solver.
    + split; [done|]. intros [=]. lia.
    + split; [done|]. intros [=]. lia.
  - induction a as [|x a IH]; intros [|y b]; simpl; try done.
    rewrite (Z.compare_antisym x y). destruct (x ?= y); simpl; [apply IH|done|done].
  - induction a as [|x a IH]; intros [|y b] [|z c]; simpl; try done.
    destruct (Z.compare_spec x y), (Z.compare_spec y z), (Z.compare_spec x z);
      simpl; try done; first [lia|apply IH].
Qed.

(** An encoding that preserves the order of the values and in which no code
    word is a proper prefix of another: comparing two encodings, whatever
    follows them, compares the values first and what follows next. *)
Class OrderCode {A : Type} (dom : A -> Prop) (cmp : A -> A -> comparison)
    (enc : A -> bytes) : Prop :=
  order_code : forall a b r s, dom a -> dom b ->
    bytes_cmp (enc a ++ r) (enc b ++ s) = cmp_then (cmp a b) (bytes_cmp r s).

Lemma order_code_nil {A} (dom : A -> Prop) cmp enc `{!OrderCode dom cmp enc} a b :
  dom a -> dom b -> bytes_cmp (enc a) (enc b) = cmp a b.
Proof.
  intros Ha Hb. rewrite <- (app_nil_r (enc a)), <- (app_nil_r (enc b)), order_code by done.
  by destruct (cmp a b).
Qed.

Lemma be_bytes_cons n v :
  be_bytes (S n) v = (v / 2 ^ (8 * Z.of_nat n)) mod 2 ^ 8 :: be_bytes n v.
Proof. done. Qed.

Lemma be_bytes_mod n v : be_bytes n (v mod 2 ^ (8 * Z.of_nat n)) = be_bytes n v.
Proof.
  assert (forall m : nat, (m <= n)%nat ->
    be_bytes m (v mod 2 ^ (8 * Z.of_nat n)) = be_bytes m v) as H; [|by apply H].
  induction m as [|m IH]; intros Hm; [done|]. cbn [be_bytes]. rewrite IH by lia. f_equal.
  replace (8 * Z.of_nat n) with (8 * Z.of_nat m + 8 + (8 * (Z.of_nat n - Z.of_nat m - 1))) by lia.
  rewrite 2!Z.pow_add_r by lia.
  set (p := 2 ^ (8 * Z.of_nat m)). set (q := 2 ^ (8 * (Z.of_nat n - Z.of_nat m - 1))).
  assert (0 < p) by (apply Z.pow_pos_nonneg; lia).
  assert (0 < q) by (apply Z.pow_pos_nonneg; lia).
  rewrite <- Z.mul_assoc, Z.rem_mul_r by lia.
  rewrite (Z.mul_comm p), Z.div_add by lia.
  rewrite (Z.div_small (v mod p)) by (apply Z.mod_pos_bound; lia). rewrite Z.add_0_l.
  rewrite Z.mod_mod_divide; [done|]. apply Z.divide_mul_l, Z.divide_refl.
Qed.

#[export] Instance be_bytes_order n :
  OrderCode (uint (8 * Z.of_nat n)) Z.compare (be_bytes n).
Proof.
  induction n as [|n IH]; intros a b r s Ha Hb.
  - unfold uint in *. simpl in *. assert (a = b) as -> by lia. by rewrite Z.compare_refl.
  - rewrite !be_bytes_cons, <- (be_bytes_mod n a), <- (be_bytes_mod n b).
    cbn [app bytes_cmp].
    unfold uint in *. replace (8 * Z.of_nat (S n)) with (8 * Z.of_nat n + 8) in * by lia.
    rewrite Z.pow_add_r in * by lia. set (p := 2 ^ (8 * Z.of_nat n)) in *.
    assert (0 < p) by (apply Z.pow_pos_nonneg; lia).
    pose proof (Z.mod_pos_bound a p ltac:(lia)). pose proof (Z.mod_pos_bound b p ltac:(lia)).
    pose proof (Z.div_mod a p ltac:(lia)). pose proof (Z.div_mod b p ltac:(lia)).
    rewrite (Z.mod_small (a / p)) by (split; [apply Z.div_pos|apply Z.div_lt_upper_bound]; lia).
    rewrite (Z.mod_small (b / p)) by (split; [apply Z.div_pos|apply Z.div_lt_upper_bound]; lia).
    rewrite IH by done.
    destruct (Z.compare_spec (a / p) (b / p)) as [Hq|Hq|Hq]; simpl.
    + rewrite Hq in *. destruct (Z.compare_spec (a mod p) (b mod p));
      destruct (Z.compare_spec a b); simpl; first [done|nia].
    + by rewrite (proj2 (Z.compare_lt_iff a b)) by nia.
    + by rewrite (proj2 (Z.compare_gt_iff a b)) by nia.
Qed.

(** An order code after a constant prefix. *)
Lemma order_code_prefix {A} (dom : A -> Prop) cmp enc p :
  OrderCode dom cmp enc -> OrderCode dom cmp (fun a => p ++ enc a).
Proof.
  intros H a b r s Ha Hb. rewrite <- !app_assoc.
  induction p as [|x p IH]; simpl; [by apply H|]. by rewrite Z.compare_refl.
Qed.

Lemma order_code_weaken {A} (dom dom' : A -> Prop) cmp enc :
  OrderCode dom cmp enc -> (forall a, dom' a -> dom a) -> OrderCode dom' cmp enc.
Proof. intros H Hd a b r s Ha Hb. apply H; auto. Qed.

Lemma order_code_map {A B} (dom : A -> Prop) cmp enc (dom' : B -> Prop) cmp' enc' (f : B -> A) :
  OrderCode dom cmp enc ->
  (forall b, dom' b -> dom (f b)) ->
  (forall a b, dom' a -> dom' b -> cmp' a b = cmp (f a) (f b)) ->
  (forall b, dom' b -> enc' b = enc (f b)) ->
  OrderCode dom' cmp' enc'.
Proof. intros H Hd Hc He a b r s Ha Hb. rewrite !He, Hc by done. apply H; auto. Qed.
