(* ===== verification/Datum.v ===== *)
(** * Data values: [common_types/src/datum.rs]

    [DatumKind], [Datum] and the operations on them that the storage engine
    uses: kinds and their byte, casts, little-endian images, sizes, and the
    derived order.  A float is its IEEE 754 bit pattern; a string is its
    bytes. *)

From Stdlib Require Import ZArith Lia.
From stdpp Require Import base tactics option list numbers.
From S2P Require Import Prelude Bytes.

#[local] Open Scope Z_scope.

(** ** [DatumKind] *)
Module DatumKind.
Inductive t :=
| Null | Timestamp | Double | Float | Varbinary | String
| UInt64 | UInt32 | UInt16 | UInt8 | Int64 | Int32 | Int16 | Int8
| Boolean | Date | Time.

#[global] Instance kind_eq_dec : EqDecision t.
Proof. solve_decision. Defined.

Definition VALUES : list t :=
  [Null; Timestamp; Double; Float; Varbinary; String;
   UInt64; UInt32; UInt16; UInt8; Int64; Int32; Int16; Int8;
   Boolean; Date; Time].

Definition is_timestamp (k : t) : bool :=
  match k with Timestamp => true | _ => false end.

Definition is_f64_castable (k : t) : bool :=
  match k with
  | Double | Float | UInt64 | UInt32 | UInt16 | UInt8
  | Int64 | Int32 | Int16 | Int8 => true
  | _ => false
  end.

Definition is_key_kind (k : t) : bool :=
  match k with
  | Timestamp | Varbinary | String | UInt64 | UInt32 | UInt16 | UInt8
  | Int64 | Int32 | Int16 | Int8 | Boolean | Date | Time => true
  | _ => false
  end.

Definition is_dictionary_kind (k : t) : bool :=
  match k with String => true | _ => false end.

Definition unsign_kind (k : t) : option t :=
  match k with
  | Int64 | UInt64 => Some UInt64
  | Int32 | UInt32 => Some UInt32
  | Int16 | UInt16 => Some UInt16
  | Int8 | UInt8 => Some UInt8
  | _ => None
  end.

(** The discriminant: variants are numbered from 0 in declaration order. *)
Definition into_u8 (k : t) : Z :=
  match k with
  | Null => 0 | Timestamp => 1 | Double => 2 | Float => 3 | Varbinary => 4
  | String => 5 | UInt64 => 6 | UInt32 => 7 | UInt16 => 8 | UInt8 => 9
  | Int64 => 10 | Int32 => 11 | Int16 => 12 | Int8 => 13 | Boolean => 14
  | Date => 15 | Time => 16
  end.

Definition size (k : t) : option Z :=
  match k with
  | Null => Some 0
  | Timestamp => Some 8
  | Double => Some 8
  | Float => Some 4
  | Varbinary => None
  | String => None
  | UInt64 => Some 8
  | UInt32 => Some 4
  | UInt16 => Some 2
  | UInt8 => Some 1
  | Int64 => Some 8
  | Int32 => Some 4
  | Int16 => Some 2
  | Int8 => Some 1
  | Boolean => Some 1
  | Date => Some 4
  | Time => Some 8
  end.

(** [InvalidDatumByte]. *)
Inductive KindError := InvalidDatumByte (value : Z).

(** The chain of guarded arms of [TryFrom<u8>], tried in order. *)
Definition try_from_u8 (v : Z) : res KindError t :=
  if into_u8 Null =? v then Ok Null
  else if into_u8 Timestamp =? v then Ok Timestamp
  else if into_u8 Double =? v then Ok Double
  else if into_u8 Float =? v then Ok Float
  else if into_u8 Varbinary =? v then Ok Varbinary
  else if into_u8 String =? v then Ok String
  else if into_u8 UInt64 =? v then Ok UInt64
  else if into_u8 UInt32 =? v then Ok UInt32
  else if into_u8 UInt16 =? v then Ok UInt16
  else if into_u8 UInt8 =? v then Ok UInt8
  else if into_u8 Int64 =? v then Ok Int64
  else if into_u8 Int32 =? v then Ok Int32
  else if into_u8 Int16 =? v then Ok Int16
  else if into_u8 Int8 =? v then Ok Int8
  else if into_u8 Boolean =? v then Ok Boolean
  else if into_u8 Date =? v then Ok Date
  else if into_u8 Time =? v then Ok Time
  else Err (InvalidDatumByte v).

Lemma try_from_into k : try_from_u8 (into_u8 k) = Ok k.
Proof. by destruct k. Qed.

Lemma try_from_u8_inv v k : try_from_u8 v = Ok k -> v = into_u8 k.
Proof.
  unfold try_from_u8. intros H.
  repeat match goal with
  | H : (if ?b then _ else _) = Ok _ |- _ =>
      destruct b eqn:?; [injection H as <-; lia|]
  end.
  discriminate H.
Qed.
End DatumKind.

(** ** [Datum] *)
Module Datum.
Inductive t :=
| Null
| Timestamp (ts : Z)
| Double (bits : Z)
| Float (bits : Z)
| Varbinary (v : bytes)
| String (v : bytes)
| UInt64 (v : Z)
| UInt32 (v : Z)
| UInt16 (v : Z)
| UInt8 (v : Z)
| Int64 (v : Z)
| Int32 (v : Z)
| Int16 (v : Z)
| Int8 (v : Z)
| Boolean (v : bool)
| Date (v : Z)
| Time (v : Z).

#[global] Instance datum_eq_dec : EqDecision t.
Proof. solve_decision. Defined.

(** The values the Rust type holds: each payload within its type. *)
Definition ok (d : t) : Prop :=
  match d with
  | Null | Boolean _ => True
  | Timestamp v | Int64 v | Time v => sint 64 v
  | Double v | UInt64 v => uint 64 v
  | Float v | UInt32 v => uint 32 v
  | Varbinary v | String v => bytes_ok v /\ len v < 2 ^ 63
  | UInt16 v => uint 16 v
  | UInt8 v => uint 8 v
  | Int32 v | Date v => sint 32 v
  | Int16 v => sint 16 v
  | Int8 v => sint 8 v
  end.

Definition empty (k : DatumKind.t) : t :=
  match k with
  | DatumKind.Null => Null
  | DatumKind.Timestamp => Timestamp 0
  | DatumKind.Double => Double 0
  | DatumKind.Float => Float 0
  | DatumKind.Varbinary => Varbinary []
  | DatumKind.String => String []
  | DatumKind.UInt64 => UInt64 0
  | DatumKind.UInt32 => UInt32 0
  | DatumKind.UInt16 => UInt16 0
  | DatumKind.UInt8 => UInt8 0
  | DatumKind.Int64 => Int64 0
  | DatumKind.Int32 => Int32 0
  | DatumKind.Int16 => Int16 0
  | DatumKind.Int8 => Int8 0
  | DatumKind.Boolean => Boolean false
  | DatumKind.Date => Date 0
  | DatumKind.Time => Time 0
  end.

Definition kind (d : t) : DatumKind.t :=
  match d with
  | Null => DatumKind.Null
  | Timestamp _ => DatumKind.Timestamp
  | Double _ => DatumKind.Double
  | Float _ => DatumKind.Float
  | Varbinary _ => DatumKind.Varbinary
  | String _ => DatumKind.String
  | UInt64 _ => DatumKind.UInt64
  | UInt32 _ => DatumKind.UInt32
  | UInt16 _ => DatumKind.UInt16
  | UInt8 _ => DatumKind.UInt8
  | Int64 _ => DatumKind.Int64
  | Int32 _ => DatumKind.Int32
  | Int16 _ => DatumKind.Int16
  | Int8 _ => DatumKind.Int8
  | Boolean _ => DatumKind.Boolean
  | Date _ => DatumKind.Date
  | Time _ => DatumKind.Time
  end.

Definition is_null (d : t) : bool := match d with Null => true | _ => false end.

Definition as_timestamp (d : t) : option Z :=
  match d with Timestamp v => Some v | _ => None end.

Definition as_str (d : t) : option bytes :=
  match d with String v => Some v | _ => None end.

Definition as_varbinary (d : t) : option bytes :=
  match d with Varbinary v => Some v | _ => None end.

Definition as_u64 (d : t) : option Z :=
  match d with
  | UInt64 v => Some v
  | UInt32 v => Some (as_u 64 v)
  | UInt16 v => Some (as_u 64 v)
  | UInt8 v => Some (as_u 64 v)
  | Int64 v => Some (as_u 64 v)
  | Int32 v => Some (as_u 64 v)
  | Int16 v => Some (as_u 64 v)
  | Int8 v => Some (as_u 64 v)
  | Boolean v => Some (if v then 1 else 0)
  | _ => None
  end.

Definition as_i64 (d : t) : option Z :=
  match d with
  | UInt64 v => Some (as_s 64 v)
  | UInt32 v => Some (as_s 64 v)
  | UInt16 v => Some (as_s 64 v)
  | UInt8 v => Some (as_s 64 v)
  | Int64 v => Some v
  | Int32 v => Some (as_s 64 v)
  | Int16 v => Some (as_s 64 v)
  | Int8 v => Some (as_s 64 v)
  | Boolean v => Some (if v then 1 else 0)
  | Date v => Some (as_s 64 v)
  | Time v => Some v
  | _ => None
  end.

(** [to_le_bytes]: the big-endian bytes of the two's complement, reversed. *)
Definition le_bytes (n : nat) (v : Z) : bytes := rev (be_bytes n v).

Definition to_bytes (d : t) : bytes :=
  match d with
  | Double v => le_bytes 8 v
  | Float v => le_bytes 4 v
  | UInt64 v => le_bytes 8 v
  | UInt32 v => le_bytes 4 v
  | UInt16 v => le_bytes 2 v
  | UInt8 v => le_bytes 1 v
  | Int64 v => le_bytes 8 v
  | Int32 v => le_bytes 4 v
  | Int16 v => le_bytes 2 v
  | Int8 v => le_bytes 1 v
  | Boolean v => if v then [1] else [0]
  | Null => [0]
  | Timestamp v => le_bytes 8 v
  | Varbinary v => v
  | String v => v
  | Date v => le_bytes 4 v
  | Time v => le_bytes 8 v
  end.

Definition checked_neg (w v : Z) : option Z := if sintb w (0 - v) then Some (0 - v) else None.

(** [-v] of a float flips the sign bit. *)
Definition to_negative (d : t) : option t :=
  match d with
  | Null => None
  | Timestamp _ => None
  | Double v => Some (Double (Z.lxor v (2 ^ 63)))
  | Float v => Some (Float (Z.lxor v (2 ^ 31)))
  | Varbinary _ => None
  | String _ => None
  | UInt64 _ => None
  | UInt32 _ => None
  | UInt16 _ => None
  | UInt8 _ => None
  | Int64 v => Int64 <$> checked_neg 64 v
  | Int32 v => Int32 <$> checked_neg 32 v
  | Int16 v => Int16 <$> checked_neg 16 v
  | Int8 v => Int8 <$> checked_neg 8 v
  | Boolean v => Some (Boolean (negb v))
  | Date _ => None
  | Time _ => None
  end.

Definition is_fixed_sized (d : t) : bool :=
  match d with Varbinary _ | String _ => false | _ => true end.

Definition size (d : t) : Z :=
  match d with
  | Null => 1
  | Timestamp _ => 8
  | Double _ => 8
  | Float _ => 4
  | Varbinary v => len v
  | String v => len v
  | UInt64 _ => 8
  | UInt32 _ => 4
  | UInt16 _ => 2
  | UInt8 _ => 1
  | Int64 _ => 8
  | Int32 _ => 4
  | Int16 _ => 2
  | Int8 _ => 1
  | Boolean _ => 1
  | Date _ => 4
  | Time _ => 8
  end.

(** [partial_cmp] of IEEE 754 numbers given by their bits, [w] bits wide with
    [m] bits of mantissa: a NaN compares with nothing, the two zeros are
    equal, everything else is ordered by sign and magnitude. *)
Definition float_is_nan (w m bits : Z) : bool :=
  2 ^ (w - 1) - 2 ^ m <? bits mod 2 ^ (w - 1).
Definition float_magnitude (w bits : Z) : Z :=
  if bits <? 2 ^ (w - 1) then bits else - (bits mod 2 ^ (w - 1)).
Definition float_partial_cmp (w m a b : Z) : option comparison :=
  if float_is_nan w m a || float_is_nan w m b then None
  else Some (float_magnitude w a ?= float_magnitude w b).

Definition bool_cmp (a b : bool) : comparison :=
  match a, b with
  | false, true => Lt
  | true, false => Gt
  | _, _ => Eq
  end.

(** The derived [PartialOrd]: payloads of the same variant are compared,
    different variants are ordered by their position in the declaration. *)
Definition partial_cmp (a b : t) : option comparison :=
  match a, b with
  | Null, Null => Some Eq
  | Timestamp x, Timestamp y => Some (x ?= y)
  | Double x, Double y => float_partial_cmp 64 52 x y
  | Float x, Float y => float_partial_cmp 32 23 x y
  | Varbinary x, Varbinary y => Some (bytes_cmp x y)
  | String x, String y => Some (bytes_cmp x y)
  | UInt64 x, UInt64 y => Some (x ?= y)
  | UInt32 x, UInt32 y => Some (x ?= y)
  | UInt16 x, UInt16 y => Some (x ?= y)
  | UInt8 x, UInt8 y => Some (x ?= y)
  | Int64 x, Int64 y => Some (x ?= y)
  | Int32 x, Int32 y => Some (x ?= y)
  | Int16 x, Int16 y => Some (x ?= y)
  | Int8 x, Int8 y => Some (x ?= y)
  | Boolean x, Boolean y => Some (bool_cmp x y)
  | Date x, Date y => Some (x ?= y)
  | Time x, Time y => Some (x ?= y)
  | _, _ => Some (DatumKind.into_u8 (kind a) ?= DatumKind.into_u8 (kind b))
  end.

Lemma kind_empty k : kind (empty k) = k.
Proof. by destruct k. Qed.

Lemma length_le_bytes n v : length (le_bytes n v) = n.
Proof. unfold le_bytes. by rewrite length_rev, length_be_bytes. Qed.

(** Negation, where it is defined, is an involution and keeps the kind. *)
Lemma to_negative_kind d d' : to_negative d = Some d' -> kind d' = kind d.
Proof.
  unfold to_negative, checked_neg.
  destruct d; intros; repeat case_match; simplify_eq/=; done.
Qed.
End Datum.
