(* ===== verification/Varint.v ===== *)
(** * Variable-length integers: [common_util/src/codec/varint.rs]

    The Go-style base-128 encoding of [u64] and the zigzag encoding of [i64].
    The loops of the source are fixpoints: the writer's on a fuel of ten
    iterations, which a 64-bit value never exceeds ([encode_uvarint_writes]),
    the reader's on the number of remaining bytes, as in the source. *)

From Stdlib Require Import ZArith Lia.
From stdpp Require Import base tactics option list numbers.
From S2P Require Import Prelude Bytes.

#[local] Open Scope Z_scope.

(** [varint::Error]. *)
Inductive VarintError :=
| EncodeVarint (source : BytesError)
| DecodeEmptyValue
| DecodeValue (source : BytesError)
| UvarintOverflow.

(** [consts.rs]. *)
Definition MAX_VARINT_BYTES : Z := 10.
Definition MAX_UVARINT_BYTES : Z := 10.

(** [u64 << s]: the bits shifted out are lost, a shift of 64 or more unwinds. *)
Definition shl64 {E} (x s : Z) : res E Z :=
  if s <? 64 then Ok (as_u 64 (Z.shiftl x s)) else Panic.

(** The [while x >= 0x80] loop. *)
Fixpoint encode_uvarint_loop (fuel : nat) (buf : wbuf) (x : Z) : res VarintError wbuf :=
  match fuel with
  | O => Panic
  | S fuel =>
      if 128 <=? x then
        let? buf := rcontext EncodeVarint (try_put_u8 buf (Z.lor (as_u 8 x) 128)) in
        encode_uvarint_loop fuel buf (Z.shiftr x 7)
      else
        let? buf := rcontext EncodeVarint (try_put_u8 buf (as_u 8 x)) in
        Ok buf
  end.

Definition encode_uvarint (buf : wbuf) (x : Z) : res VarintError wbuf :=
  encode_uvarint_loop 10 buf x.

Definition encode_varint (buf : wbuf) (value : Z) : res VarintError wbuf :=
  let x := as_u 64 (Z.shiftl (as_u 64 value) 1) in
  let x := if value <? 0 then u64_max - x else x in
  encode_uvarint buf x.

(** [for i in 0..len]; [n] counts the iterations that remain. *)
Fixpoint decode_uvarint_loop (n : nat) (i s x : Z) (buf : bytes)
    : res VarintError (Z * bytes) :=
  match n with
  | O => Err DecodeEmptyValue
  | S n =>
      let? (b, buf) := rcontext DecodeValue (try_get_u8 buf) in
      if b <? 128 then
        if (9 <? i) || ((i =? 9) && (1 <? b)) then Err UvarintOverflow
        else let? sh := shl64 b s in Ok (Z.lor x sh, buf)
      else
        let? sh := shl64 (Z.land b 127) s in
        decode_uvarint_loop n (i + 1) (s + 7) (Z.lor x sh) buf
  end.

Definition decode_uvarint (buf : bytes) : res VarintError (Z * bytes) :=
  decode_uvarint_loop (length buf) 0 0 0 buf.

Definition decode_varint (buf : bytes) : res VarintError (Z * bytes) :=
  let? (ux, buf) := decode_uvarint buf in
  let x := as_s 64 (Z.shiftr ux 1) in
  let x := if Z.land ux 1 =? 0 then x else - x - 1 in
  Ok (x, buf).

(** ** What the writer writes *)
Fixpoint uvarint_bytes (fuel : nat) (x : Z) : bytes :=
  match fuel with
  | O => []
  | S fuel => if 128 <=? x then (x mod 128 + 128) :: uvarint_bytes fuel (x / 128) else [x]
  end.

Definition zigzag (v : Z) : Z := if v <? 0 then - 2 * v - 1 else 2 * v.

Lemma lor_128 x : Z.lor (as_u 8 x) 128 = x mod 128 + 128.
Proof.
  unfold as_u. pose proof (Z.mod_pos_bound x (2 ^ 8) eq_refl) as H.
  rewrite <- (Z.mod_mod_divide x (2 ^ 8) 128) by (by exists 2).
  revert H. generalize (x mod 2 ^ 8). intros r H.
  assert (forallb (fun r => Z.lor r 128 =? r mod 128 + 128) (map Z.of_nat (seq 0 256)) = true)
    as Hall by (by vm_compute).
  rewrite forallb_forall in Hall. apply Z.eqb_eq, Hall.
  apply in_map_iff. exists (Z.to_nat r). rewrite in_seq. lia.
Qed.

Lemma encode_uvarint_loop_writes fuel x :
  (0 < fuel)%nat -> 0 <= x < 128 ^ Z.of_nat fuel ->
  writes (fun buf => encode_uvarint_loop fuel buf x) (uvarint_bytes fuel x).
Proof.
  revert x. induction fuel as [|fuel IH]; intros x Hf Hx; [lia|].
  cbn [encode_uvarint_loop uvarint_bytes]. destruct (128 <=? x) eqn:Hge.
  - rewrite lor_128. apply (writes_bind _ _ [_] (uvarint_bytes fuel (x / 128))).
    + apply writes_context, writes_try_put.
    + rewrite Nat2Z.inj_succ, Z.pow_succ_r in Hx by lia.
      rewrite Z.shiftr_div_pow2 by lia. apply IH; [destruct fuel; simpl in Hx; lia|].
      split; [apply Z.div_pos; lia|]. apply Z.div_lt_upper_bound; lia.
  - rewrite as_u_id by (unfold uint; lia).
    apply (writes_ext (fun b => rcontext EncodeVarint (try_put b [x]))).
    + intros b. unfold try_put_u8. by destruct (try_put b [x]).
    + apply writes_context, writes_try_put.
Qed.

Lemma uvarint_loop_length fuel x : (length (uvarint_bytes fuel x) <= fuel)%nat.
Proof.
  revert x. induction fuel as [|fuel IH]; intros x; simpl; [lia|].
  case_match; simpl; [specialize (IH (x / 128))|]; lia.
Qed.

Lemma encode_uvarint_writes x :
  uint 64 x -> writes (fun buf => encode_uvarint buf x) (uvarint_bytes 10 x).
Proof. intros H. apply encode_uvarint_loop_writes; [lia|]. unfold uint in H. lia. Qed.

Lemma zigzag_range v : sint 64 v -> uint 64 (zigzag v).
Proof. unfold sint, uint, zigzag. simpl. case_match; lia. Qed.

Lemma encode_varint_zigzag buf v : sint 64 v -> encode_varint buf v = encode_uvarint buf (zigzag v).
Proof.
  intros H. unfold encode_varint. f_equal. unfold zigzag, u64_max, as_u, sint in *.
  rewrite Z.shiftl_mul_pow2 by lia. change (2 ^ 1) with 2.
  destruct (v <? 0) eqn:Hneg.
  - rewrite <- (Z.mod_unique v (2 ^ 64) (-1) (v + 2 ^ 64)) by lia.
    rewrite <- (Z.mod_unique ((v + 2 ^ 64) * 2) (2 ^ 64) 1 (2 * v + 2 ^ 64)) by lia. lia.
  - rewrite (Z.mod_small v), Z.mod_small by lia. lia.
Qed.

Lemma encode_varint_writes v :
  sint 64 v -> writes (fun buf => encode_varint buf v) (uvarint_bytes 10 (zigzag v)).
Proof.
  intros H. eapply writes_ext; [|by apply encode_uvarint_writes, zigzag_range].
  intros b. by rewrite encode_varint_zigzag.
Qed.

(** ** What the reader reads back *)
Lemma lor_disjoint a b s : 0 <= s -> 0 <= a < 2 ^ s -> Z.lor a (b * 2 ^ s) = a + b * 2 ^ s.
Proof.
  intros Hs Ha. rewrite <- Z.lxor_lor, Z.add_nocarry_lxor; [done| |];
  (rewrite <- Z.shiftl_mul_pow2 by lia; apply Z.bits_inj'; intros n Hn;
   rewrite Z.land_spec, Z.bits_0; destruct (decide (n < s)) as [Hlt|Hge];
   [by rewrite (Z.shiftl_spec_low b s n Hlt), andb_false_r
   |by rewrite <- (Z.mod_small a (2 ^ s) Ha), Z.mod_pow2_bits_high by lia]).
Qed.

Lemma land_127 b : Z.land b 127 = b mod 128.
Proof. change 127 with (Z.ones 7). by rewrite Z.land_ones. Qed.

Lemma land_1 b : Z.land b 1 = b mod 2.
Proof. change 1 with (Z.ones 1) at 1. by rewrite Z.land_ones. Qed.

Lemma try_get_u8_cons b buf : try_get_u8 (b :: buf) = Ok (b, buf).
Proof.
  unfold try_get_u8, try_copy_to_slice, ensure. cbn [length].
  rewrite Z_leb_true by lia. simpl. by rewrite drop_0.
Qed.

Lemma decode_uvarint_loop_reads fuel n i x acc rest :
  (length (uvarint_bytes fuel x) <= n)%nat ->
  0 <= i -> (i + Z.of_nat fuel = 10)%Z ->
  0 <= acc < 2 ^ (7 * i) -> 0 <= x -> x * 2 ^ (7 * i) + acc < 2 ^ 64 ->
  (0 < fuel)%nat ->
  decode_uvarint_loop n i (7 * i) acc (uvarint_bytes fuel x ++ rest)
  = Ok (acc + x * 2 ^ (7 * i), rest).
Proof.
  revert n i x acc. induction fuel as [|fuel IH]; intros n i x acc Hn Hi Hf Hacc Hx Hlt Hpos; [lia|].
  assert (0 < 2 ^ (7 * i)) as Hp by (apply Z.pow_pos_nonneg; lia).
  cbn [uvarint_bytes] in *. destruct (128 <=? x) eqn:Hge; cbn [length app] in *;
    (destruct n as [|n]; [lia|]); cbn [decode_uvarint_loop];
    rewrite try_get_u8_cons; cbn [rcontext rbind].
  - pose proof (Z.mod_pos_bound x 128 eq_refl) as Hmod.
    pose proof (Z.div_mod x 128 ltac:(lia)) as Hdm.
    rewrite Z_ltb_false by lia. unfold shl64.
    assert (Hi9 : i < 9).
    { destruct (decide (i < 9)) as [|Hi9]; [done|]. assert (i = 9) as -> by lia. simpl in Hlt. lia. }
    rewrite Z_ltb_true by lia. cbn [rbind].
    rewrite land_127, Z.shiftl_mul_pow2 by lia.
    rewrite <- (Z.mod_unique (x mod 128 + 128) 128 1 (x mod 128)) by lia.
    rewrite as_u_id by (unfold uint; nia).
    rewrite lor_disjoint by lia.
    replace (7 * i + 7) with (7 * (i + 1)) by lia.
    assert (Hp' : 2 ^ (7 * (i + 1)) = 128 * 2 ^ (7 * i)).
    { replace (7 * (i + 1)) with (7 + 7 * i) by lia. by rewrite Z.pow_add_r by lia. }
    rewrite IH; try (rewrite ?Hp'; nia).
    f_equal. f_equal. rewrite Hp'. nia.
  - rewrite Z_ltb_true by lia.
    assert ((9 <? i) = false) as -> by lia.
    assert ((i =? 9) && (1 <? x) = false) as Hov.
    { destruct (Z.eqb_spec i 9) as [->|]; [simpl in Hlt|done]. simpl. lia. }
    rewrite Hov. cbn [orb]. unfold shl64. rewrite Z_ltb_true by lia. cbn [rbind].
    rewrite Z.shiftl_mul_pow2 by lia. rewrite as_u_id by (unfold uint; nia).
    by rewrite lor_disjoint by lia.
Qed.

Lemma decode_uvarint_reads x : uint 64 x -> reads decode_uvarint (uvarint_bytes 10 x) x.
Proof.
  intros H rest. unfold uint, decode_uvarint in *.
  rewrite (decode_uvarint_loop_reads 10 _ 0 x 0 rest); rewrite ?length_app; try lia.
  f_equal. f_equal. simpl. lia.
Qed.

Lemma decode_varint_reads v : sint 64 v -> reads decode_varint (uvarint_bytes 10 (zigzag v)) v.
Proof.
  intros H rest. unfold decode_varint.
  rewrite (decode_uvarint_reads (zigzag v) (zigzag_range v H)). cbn [rbind].
  rewrite Z.shiftr_div_pow2, land_1 by lia. change (2 ^ 1) with 2.
  unfold zigzag, sint in *. simpl in H. destruct (v <? 0) eqn:Hneg.
  - rewrite <- (Z.mod_unique (-2 * v - 1) 2 (- v - 1) 1) by lia. simpl.
    rewrite <- (Z.div_unique (-2 * v - 1) 2 (- v - 1) 1) by lia.
    rewrite as_s_id by (unfold sint; simpl; lia). f_equal. f_equal. lia.
  - rewrite <- (Z.mod_unique (2 * v) 2 v 0) by lia. simpl.
    rewrite <- (Z.div_unique (2 * v) 2 v 0) by lia.
    by rewrite as_s_id by (unfold sint; simpl; lia).
Qed.

#[export] Hint Resolve encode_uvarint_writes encode_varint_writes
  decode_uvarint_reads decode_varint_reads : codec.

(** Encoding a [u64] with [encode_uvarint], or an [i64] with
    [encode_varint], appends between one and ten bytes when the buffer has
    room for them and fails otherwise; the matching decoder consumes exactly
    those bytes, whatever follows them, and returns the value. *)
Theorem varint_roundtrip :
  (forall x, uint 64 x -> exists bs,
      1 <= len bs <= MAX_UVARINT_BYTES /\
      writes (fun buf => encode_uvarint buf x) bs /\ reads decode_uvarint bs x) /\
  (forall v, sint 64 v -> exists bs,
      1 <= len bs <= MAX_VARINT_BYTES /\
      writes (fun buf => encode_varint buf v) bs /\ reads decode_varint bs v).
Proof.
  assert (forall x, 1 <= len (uvarint_bytes 10 x) <= 10) as Hlen.
  { intros x. pose proof (uvarint_loop_length 10 x).
    assert (0 < length (uvarint_bytes 10 x))%nat; [|lia].
    cbn [uvarint_bytes]. case_match; simpl; lia. }
  split; intros x Hx; eexists; (split; [apply Hlen|]); auto with codec.
Qed.

(** ** When the reader unwinds *)

(** Every byte of [bs] has its continuation bit set. *)
Definition all_continue (bs : bytes) : Prop := Forall (fun b => 128 <= b) bs.

Lemma decode_uvarint_loop_panic n i x buf :
  n = length buf -> 0 <= i <= 10 ->
  decode_uvarint_loop n i (7 * i) x buf = Panic <->
  11 - i <= len buf /\ all_continue (take (Z.to_nat (11 - i)) buf).
Proof.
  revert i x n. induction buf as [|b buf IH]; intros i x n -> Hi.
  { simpl. split; [done|]. lia. }
  cbn [length decode_uvarint_loop]. rewrite try_get_u8_cons. cbn [rcontext rbind].
  unfold shl64, all_continue.
  replace (Z.to_nat (11 - i)) with (S (Z.to_nat (10 - i))) by lia.
  cbn [take]. rewrite Forall_cons_iff.
  destruct (Z.ltb_spec b 128) as [Hb|Hb].
  - split; [|lia].
    destruct ((9 <? i) || ((i =? 9) && (1 <? b))) eqn:Hov; [done|].
    rewrite Z_ltb_true by lia. done.
  - destruct (Z.ltb_spec (7 * i) 64) as [Hs|Hs]; cbn [rbind].
    + replace (7 * i + 7) with (7 * (i + 1)) by lia. rewrite IH by lia.
      unfold all_continue. replace (11 - (i + 1)) with (10 - i) by lia.
      rewrite Nat2Z.inj_succ. split; intros; (split; [lia|naive_solver]).
    + assert (i = 10) as -> by lia. simpl. rewrite take_0.
      split; [intros _|done]. split; [lia|]. split; [done|constructor].
Qed.

(** [decode_uvarint] unwinds ("attempt to shift left with overflow")
    exactly on the inputs whose first eleven bytes all have the continuation
    bit set, where its documentation promises the [UvarintOverflow] error:
    the shift amount reaches 70 before the overflow test is made. *)
Theorem decode_uvarint_panics_iff buf :
  decode_uvarint buf = Panic <-> 11 <= len buf /\ all_continue (take 11 buf).
Proof. apply (decode_uvarint_loop_panic _ 0); lia. Qed.

(** ** Decoding any bytes *)
(** [g] reads values of [P] off any bytes and leaves a rest of them; it fails or,
    where eleven bytes in a row continue a varint, unwinds. *)
Definition typed_read {E A} (P : A -> Prop) (g : bytes -> res E (A * bytes)) : Prop :=
  forall buf, bytes_ok buf ->
  match g buf with
  | Ok (a, rest) => P a /\ rest `suffix_of` buf
  | Err _ => True
  | Panic => exists p, p `suffix_of` buf /\ 11 <= len p /\ all_continue (take 11 p)
  end.

Section typed.
Context {E : Type}.

Lemma suffix_bytes_ok p buf : p `suffix_of` buf -> bytes_ok buf -> bytes_ok p.
Proof. intros [q ->]. unfold bytes_ok. rewrite Forall_app. tauto. Qed.
Lemma typed_bind {A B} (P : A -> Prop) (Q : B -> Prop) (g : bytes -> res E (A * bytes)) (h : A -> bytes -> res E (B * bytes)) :
  typed_read P g -> (forall a, P a -> typed_read Q (h a)) -> typed_read Q (fun buf => let? (a, buf) := g buf in h a buf).
Proof.
  intros Hg Hh buf Hb. specialize (Hg buf Hb). destruct (g buf) as [[a rest]| |]; cbn [rbind]; [|done|done].
  destruct Hg as [Ha Hs]. specialize (Hh a Ha rest (suffix_bytes_ok _ _ Hs Hb)). destruct (h a rest) as [[b rest']| |]; [|done|].
  - destruct Hh as [Hq Hs']. split; [done|]. by trans rest.
  - destruct Hh as (p & Hp & Hc). exists p. split; [by trans rest|done].
Qed.
Lemma typed_ret {A} (P : A -> Prop) a : P a -> typed_read P (fun buf => @Ok E _ (a, buf)).
Proof. by split. Qed.
Lemma typed_map {A B} (P : A -> Prop) (Q : B -> Prop) (g : bytes -> res E (A * bytes)) (f : A -> B) :
  typed_read P g -> (forall a, P a -> Q (f a)) -> typed_read Q (fun buf => let? (a, buf) := g buf in Ok (f a, buf)).
Proof. intros Hg Hf. apply (typed_bind P Q g (fun a buf => Ok (f a, buf)) Hg). intros a Ha. by apply typed_ret, Hf. Qed.
Lemma typed_context {F A} (c : E -> F) (P : A -> Prop) (g : bytes -> res E (A * bytes)) :
  typed_read P g -> typed_read P (fun buf => rcontext c (g buf)).
Proof. intros Hg buf Hb. specialize (Hg buf Hb). by destruct (g buf) as [[a rest]| |]. Qed.
Lemma typed_ensure {A} (P : A -> Prop) (b : bool) (e : E) (g : bytes -> res E (A * bytes)) :
  typed_read P g -> typed_read P (fun buf => let? _ := ensure b e in g buf).
Proof. intros Hg buf Hb. destruct b; [by apply Hg|done]. Qed.
Lemma typed_weaken {A} (P Q : A -> Prop) (g : bytes -> res E (A * bytes)) :
  typed_read P g -> (forall a, P a -> Q a) -> typed_read Q g.
Proof. intros Hg Hpq buf Hb. specialize (Hg buf Hb). destruct (g buf) as [[a rest]| |]; [|done|done]. destruct Hg. eauto. Qed.
End typed.

Lemma typed_be n (f : bytes -> res BytesError (Z * bytes)) :
  (forall buf, f buf = let? (dst, buf) := try_copy_to_slice n buf in Ok (be_val dst, buf)) -> typed_read (uint (8 * Z.of_nat n)) f.
Proof.
  intros Hf buf Hb. rewrite Hf. unfold try_copy_to_slice, ensure. destruct (Z.leb_spec (Z.of_nat n) (len buf)); cbn [rbind]; [|done].
  rewrite <- (take_drop n buf) in Hb at 1. apply Forall_app in Hb as [Hb _]. apply be_val_range in Hb. rewrite length_take, Nat.min_l in Hb by lia.
  split; [done|]. exists (take n buf). by rewrite take_drop.
Qed.
Lemma uint_lor w a b : 0 <= w -> uint w a -> uint w b -> uint w (Z.lor a b).
Proof.
  unfold uint. intros Hw [Ha Ha'] [Hb Hb']. split; [by apply Z.lor_nonneg|].
  destruct (Z.eq_dec (Z.lor a b) 0) as [->|Hn]; [by apply Z.pow_pos_nonneg|].
  assert (0 <= Z.lor a b) by by apply Z.lor_nonneg.
  apply Z.log2_lt_pow2; [lia|]. rewrite Z.log2_lor by done.
  destruct (Z.eq_dec a 0) as [->|]; destruct (Z.eq_dec b 0) as [->|]; cbn [Z.log2] in *.
  - by cbn in Hn.
  - assert (Z.log2 b < w) by (apply Z.log2_lt_pow2; lia). pose proof (Z.log2_nonneg b). lia.
  - assert (Z.log2 a < w) by (apply Z.log2_lt_pow2; lia). pose proof (Z.log2_nonneg a). lia.
  - assert (Z.log2 a < w) by (apply Z.log2_lt_pow2; lia). assert (Z.log2 b < w) by (apply Z.log2_lt_pow2; lia). lia.
Qed.
Lemma shl64_uint {E} x s y : shl64 (E:=E) x s = Ok y -> uint 64 y.
Proof. unfold shl64. destruct (s <? 64); [|done]. intros [= <-]. by apply as_u_range. Qed.
Lemma typed_uvarint_loop n i s x buf v rest : uint 64 x -> decode_uvarint_loop n i s x buf = Ok (v, rest) ->
  uint 64 v /\ rest `suffix_of` buf.
Proof.
  revert i s x buf. induction n as [|n IH]; intros i s x buf Hx H; [done|]. cbn [decode_uvarint_loop] in H.
  destruct buf as [|b buf]; [done|]. rewrite try_get_u8_cons in H. cbn [rcontext rbind] in H. destruct (b <? 128).
  - destruct (_ || _); [done|]. apply rbind_ok in H as (sh & Hsh & [= <- <-]). split; [apply uint_lor; [done|done|by eapply shl64_uint]|].
    by apply suffix_cons_r.
  - apply rbind_ok in H as (sh & Hsh & H). apply IH in H as [Hv Hs]; [|apply uint_lor; [done|done|by eapply shl64_uint]].
    split; [done|by apply suffix_cons_r].
Qed.
Lemma typed_uvarint : typed_read (uint 64) decode_uvarint.
Proof.
  intros buf Hb. destruct (decode_uvarint buf) as [[v rest]| |] eqn:Hd; [|done|].
  - by eapply typed_uvarint_loop; [|exact Hd].
  - exists buf. split; [done|]. apply (decode_uvarint_loop_panic _ 0) in Hd; [done|done|lia].
Qed.
Lemma typed_varint : typed_read (sint 64) decode_varint.
Proof.
  apply (typed_map (uint 64) (sint 64) decode_uvarint
           (fun ux => let x := as_s 64 (Z.shiftr ux 1) in if Z.land ux 1 =? 0 then x else - x - 1) typed_uvarint).
  intros ux Hux. pose proof (as_s_range 64 (Z.shiftr ux 1) ltac:(lia)) as Hr. cbn zeta.
  destruct (_ =? _); [done|]. unfold sint in *. lia.
Qed.
