(* ===== verification/MemComparable.v ===== *)
(** * The mem-comparable codec: [common_util/src/codec/memcomparable]

    The encoding of key columns.  Its purpose is that comparing encodings
    byte by byte compares the values; [mod.rs], [number.rs], [bytes.rs] and
    [datum.rs] are modelled in full. *)

From Stdlib Require Import ZArith Lia.
From stdpp Require Import base tactics option list numbers.
From S2P Require Import Prelude Bytes Datum.

#[local] Open Scope Z_scope.

(** [consts.rs]. *)
Definition NULL_FLAG : Z := 0.
Definition BYTES_FLAG : Z := 1.
Definition COMPACT_BYTES_FLAG : Z := 2.
Definition INT_FLAG : Z := 3.
Definition UINT_FLAG : Z := 4.
Definition FLOAT_FLAG : Z := 5.
Definition VARINT_FLAG : Z := 8.
Definition UVARINT_FLAG : Z := 9.
Definition SIGN_MASK : Z := 0x8000000000000000.

(** [memcomparable::Error]; its [DecodeString] is never built. *)
Inductive MemComparableError :=
| EncodeKey (source : BytesError)
| EncodeValue (source : BytesError)
| DecodeKey (source : BytesError)
| InvalidKeyFlag (expect actual : Z)
| UnsupportedKind (kind : DatumKind.t)
| DecodeValue (source : BytesError)
| DecodeValueGroup
| DecodeValueMarker (group_bytes : bytes)
| DecodeValuePadding (group_bytes : bytes)
| SkipPadding (source : BytesError).

(** [MemComparable::ensure_flag]. *)
Definition ensure_flag (buf : bytes) (flag : Z) : res MemComparableError bytes :=
  let? (actual, buf) := rcontext DecodeKey (try_get_u8 buf) in
  let? _ := ensure (flag =? actual) (InvalidKeyFlag flag actual) in
  Ok buf.

(** ** [number.rs] *)
Definition encode_int_to_cmp_uint (v : Z) : Z := Z.lxor (as_u 64 v) SIGN_MASK.
Definition decode_cmp_uint_to_int (u : Z) : Z := as_s 64 (Z.lxor u SIGN_MASK).

Definition encode_i64 (buf : wbuf) (value : Z) : res MemComparableError wbuf :=
  rcontext EncodeValue (try_put_u64 buf (encode_int_to_cmp_uint value)).
Definition decode_i64 (buf : bytes) : res MemComparableError (Z * bytes) :=
  let? (u, buf) := rcontext DecodeValue (try_get_u64 buf) in
  Ok (decode_cmp_uint_to_int u, buf).
Definition encode_u64 (buf : wbuf) (value : Z) : res MemComparableError wbuf :=
  rcontext EncodeValue (try_put_u64 buf value).
Definition decode_u64 (buf : bytes) : res MemComparableError (Z * bytes) :=
  rcontext DecodeValue (try_get_u64 buf).
Definition estimate_encoded_size_number : Z := 9.

(** ** [bytes.rs] *)
Definition ENC_GROUP_SIZE : nat := 8.
Definition ENC_MARKER : Z := 0xFF.
Definition ENC_PAD : Z := 0x0.
Definition PADS : bytes := replicate ENC_GROUP_SIZE 0.

(** One iteration of the encoder's loop. *)
Definition encode_group (value : bytes) (buf : wbuf) (idx : nat) : res MemComparableError wbuf :=
  let remain := (length value - idx)%nat in
  let? (buf, pad_count) :=
    if (ENC_GROUP_SIZE <=? remain)%nat then
      let? buf := rcontext EncodeValue (try_put buf (take ENC_GROUP_SIZE (drop idx value))) in
      Ok (buf, 0%nat)
    else
      let pad_count := (ENC_GROUP_SIZE - remain)%nat in
      let? buf := rcontext EncodeValue (try_put buf (drop idx value)) in
      let? buf := rcontext EncodeValue (try_put buf (take pad_count PADS)) in
      Ok (buf, pad_count) in
  let marker := ENC_MARKER - Z.of_nat pad_count in
  rcontext EncodeValue (try_put_u8 buf marker).

(** [(0..=n).step_by(ENC_GROUP_SIZE)]. *)
Definition group_starts (n : nat) : list nat :=
  map (fun k => k * ENC_GROUP_SIZE)%nat (seq 0 (n / ENC_GROUP_SIZE + 1)).

Definition encode_bytes (buf : wbuf) (value : bytes) : res MemComparableError wbuf :=
  rfold (encode_group value) (group_starts (length value)) buf.

Definition estimate_encoded_size_bytes (value : bytes) : Z :=
  (len value / Z.of_nat ENC_GROUP_SIZE + 1) * (Z.of_nat ENC_GROUP_SIZE + 1).

(** The decoder's [loop]; each iteration consumes nine bytes, so the number
    of remaining bytes bounds the iterations. *)
Fixpoint decode_bytes_loop (fuel : nat) (buf : bytes) (value : wbuf)
    : res MemComparableError (wbuf * bytes) :=
  match fuel with
  | O => Panic
  | S fuel =>
      let? _ := ensure (Z.of_nat ENC_GROUP_SIZE <? len buf) DecodeValueGroup in
      let group_bytes := take (ENC_GROUP_SIZE + 1) buf in
      let group := take ENC_GROUP_SIZE group_bytes in
      let marker := nth ENC_GROUP_SIZE group_bytes 0 in
      let pad_count := ENC_MARKER - marker in
      let? _ := ensure (pad_count <=? Z.of_nat ENC_GROUP_SIZE) (DecodeValueMarker group_bytes) in
      let real_group_size := (ENC_GROUP_SIZE - Z.to_nat pad_count)%nat in
      let? value := rcontext EncodeValue (try_put value (take real_group_size group)) in
      if pad_count =? 0 then
        let? buf := rcontext SkipPadding (try_advance (ENC_GROUP_SIZE + 1) buf) in
        decode_bytes_loop fuel buf value
      else
        let? _ := ensure (forallb (fun v => v =? ENC_PAD) (drop real_group_size group))
                    (DecodeValuePadding group_bytes) in
        let? buf := rcontext SkipPadding (try_advance (ENC_GROUP_SIZE + 1) buf) in
        Ok (value, buf)
  end.

Definition decode_bytes_to (buf : bytes) (value : wbuf) : res MemComparableError (wbuf * bytes) :=
  decode_bytes_loop (S (length buf)) buf value.

(** [BytesMut::new()], and [freeze] of what was decoded into it. *)
Definition bytes_mut_new : wbuf := Wbuf [] u64_max.
Definition decode_bytes (buf : bytes) : res MemComparableError (bytes * bytes) :=
  let? (value, buf) := decode_bytes_to buf bytes_mut_new in
  Ok (wb_data value, buf).

(** ** [datum.rs] *)
Definition put_flag (buf : wbuf) (flag : Z) : res MemComparableError wbuf :=
  rcontext EncodeKey (try_put_u8 buf flag).

Definition encode_datum (buf : wbuf) (value : Datum.t) : res MemComparableError wbuf :=
  match value with
  | Datum.Null => put_flag buf NULL_FLAG
  | Datum.Timestamp ts => let? buf := put_flag buf INT_FLAG in encode_i64 buf ts
  | Datum.Varbinary v => let? buf := put_flag buf BYTES_FLAG in encode_bytes buf v
  | Datum.String v => let? buf := put_flag buf BYTES_FLAG in encode_bytes buf v
  | Datum.UInt64 v => let? buf := put_flag buf UINT_FLAG in encode_u64 buf v
  | Datum.UInt32 v => let? buf := put_flag buf UINT_FLAG in encode_u64 buf v
  | Datum.UInt16 v => let? buf := put_flag buf UINT_FLAG in encode_u64 buf v
  | Datum.UInt8 v => let? buf := put_flag buf UINT_FLAG in encode_u64 buf v
  | Datum.Int64 v => let? buf := put_flag buf INT_FLAG in encode_i64 buf v
  | Datum.Int32 v => let? buf := put_flag buf INT_FLAG in encode_i64 buf v
  | Datum.Int16 v => let? buf := put_flag buf INT_FLAG in encode_i64 buf v
  | Datum.Int8 v => let? buf := put_flag buf INT_FLAG in encode_i64 buf v
  | Datum.Boolean v => let? buf := put_flag buf UINT_FLAG in encode_u64 buf (if v then 1 else 0)
  | Datum.Date v => let? buf := put_flag buf INT_FLAG in encode_i64 buf v
  | Datum.Time v => let? buf := put_flag buf INT_FLAG in encode_i64 buf v
  | Datum.Double _ => Err (UnsupportedKind DatumKind.Double)
  | Datum.Float _ => Err (UnsupportedKind DatumKind.Float)
  end.

Definition estimate_encoded_size (value : Datum.t) : Z :=
  match value with
  | Datum.Null => 1
  | Datum.Varbinary v | Datum.String v => estimate_encoded_size_bytes v
  | Datum.Double _ | Datum.Float _ => 1
  | _ => estimate_encoded_size_number
  end.

(** The [decode_u64_into!] and [decode_i64_into!] macros. *)
Definition decode_u64_into (buf : bytes) (w : Z) : res MemComparableError (Z * bytes) :=
  let? buf := ensure_flag buf UINT_FLAG in
  let? (data, buf) := decode_u64 buf in
  Ok (as_u w data, buf).
Definition decode_u64_into_bool (buf : bytes) : res MemComparableError (bool * bytes) :=
  let? buf := ensure_flag buf UINT_FLAG in
  let? (data, buf) := decode_u64 buf in
  Ok (negb (data =? 0), buf).
Definition decode_i64_into (buf : bytes) (w : Z) : res MemComparableError (Z * bytes) :=
  let? buf := ensure_flag buf INT_FLAG in
  let? (data, buf) := decode_i64 buf in
  Ok (as_s w data, buf).

(** [decode_to] overwrites a datum that only tells the kind to decode. *)
Definition decode_datum_to (buf : bytes) (value : Datum.t)
    : res MemComparableError (Datum.t * bytes) :=
  match value with
  | Datum.Null => let? buf := ensure_flag buf NULL_FLAG in Ok (Datum.Null, buf)
  | Datum.Timestamp _ =>
      let? buf := ensure_flag buf INT_FLAG in
      let? (data, buf) := decode_i64 buf in Ok (Datum.Timestamp data, buf)
  | Datum.Varbinary _ =>
      let? buf := ensure_flag buf BYTES_FLAG in
      let? (data, buf) := decode_bytes buf in Ok (Datum.Varbinary data, buf)
  | Datum.String _ =>
      let? buf := ensure_flag buf BYTES_FLAG in
      let? (data, buf) := decode_bytes buf in Ok (Datum.String data, buf)
  | Datum.UInt64 _ =>
      let? buf := ensure_flag buf UINT_FLAG in
      let? (v, buf) := decode_u64 buf in Ok (Datum.UInt64 v, buf)
  | Datum.UInt32 _ => let? (v, buf) := decode_u64_into buf 32 in Ok (Datum.UInt32 v, buf)
  | Datum.UInt16 _ => let? (v, buf) := decode_u64_into buf 16 in Ok (Datum.UInt16 v, buf)
  | Datum.UInt8 _ => let? (v, buf) := decode_u64_into buf 8 in Ok (Datum.UInt8 v, buf)
  | Datum.Int64 _ =>
      let? buf := ensure_flag buf INT_FLAG in
      let? (v, buf) := decode_i64 buf in Ok (Datum.Int64 v, buf)
  | Datum.Int32 _ => let? (v, buf) := decode_i64_into buf 32 in Ok (Datum.Int32 v, buf)
  | Datum.Date _ => let? (v, buf) := decode_i64_into buf 32 in Ok (Datum.Date v, buf)
  | Datum.Time _ =>
      let? buf := ensure_flag buf INT_FLAG in
      let? (v, buf) := decode_i64 buf in Ok (Datum.Time v, buf)
  | Datum.Int16 _ => let? (v, buf) := decode_i64_into buf 16 in Ok (Datum.Int16 v, buf)
  | Datum.Int8 _ => let? (v, buf) := decode_i64_into buf 8 in Ok (Datum.Int8 v, buf)
  | Datum.Boolean _ => let? (v, buf) := decode_u64_into_bool buf in Ok (Datum.Boolean v, buf)
  | Datum.Double _ => Err (UnsupportedKind DatumKind.Double)
  | Datum.Float _ => Err (UnsupportedKind DatumKind.Float)
  end.

(** ** Numbers *)
Lemma sign_mask_lxor_low x : uint 63 x -> Z.lxor x SIGN_MASK = x + 2 ^ 63.
Proof.
  intros H. unfold SIGN_MASK. rewrite <- Z.add_nocarry_lxor; [reflexivity|].
  change 0x8000000000000000 with (2 ^ 63). apply Z.bits_inj'. intros n Hn.
  rewrite Z.land_spec, Z.bits_0, (Z.pow2_bits_eqb 63 n) by lia.
  destruct (Z.eqb_spec 63 n) as [<-|]; [|apply andb_false_r].
  rewrite Z.testbit_odd, Z.shiftr_div_pow2, Z.div_small by (exact H || lia). done.
Qed.

Lemma sign_mask_lxor_high x : uint 63 x -> Z.lxor (x + 2 ^ 63) SIGN_MASK = x.
Proof.
  intros H. rewrite <- (sign_mask_lxor_low x) by done.
  by rewrite Z.lxor_assoc, Z.lxor_nilpotent, Z.lxor_0_r.
Qed.

(** The sign flip shifts the signed range onto the unsigned one. *)
Lemma encode_int_to_cmp_uint_spec v : sint 64 v -> encode_int_to_cmp_uint v = v + 2 ^ 63.
Proof.
  unfold sint. change (64 - 1) with 63. intros H. unfold encode_int_to_cmp_uint, as_u.
  destruct (Z.lt_ge_cases v 0).
  - replace (v mod 2 ^ 64) with (v + 2 ^ 63 + 2 ^ 63); [apply sign_mask_lxor_high; unfold uint; lia|].
    rewrite <- (Z.mod_add v 1), Z.mod_small by lia. lia.
  - rewrite Z.mod_small by lia. apply sign_mask_lxor_low. unfold uint. lia.
Qed.

Lemma decode_cmp_uint_to_int_encode v :
  sint 64 v -> decode_cmp_uint_to_int (encode_int_to_cmp_uint v) = v.
Proof.
  intros H. unfold decode_cmp_uint_to_int, encode_int_to_cmp_uint.
  rewrite Z.lxor_assoc, Z.lxor_nilpotent, Z.lxor_0_r. by apply as_s_as_u.
Qed.

Definition i64_bytes (v : Z) : bytes := be_bytes 8 (encode_int_to_cmp_uint v).

Lemma encode_i64_writes v : writes (fun b => encode_i64 b v) (i64_bytes v).
Proof. apply writes_context, writes_try_put. Qed.

Lemma encode_u64_writes v : writes (fun b => encode_u64 b v) (be_bytes 8 v).
Proof. apply writes_context, writes_try_put. Qed.

Lemma decode_u64_reads v : uint 64 v -> reads decode_u64 (be_bytes 8 v) v.
Proof. intros H. by apply reads_context, reads_u64. Qed.

Lemma decode_i64_reads v : sint 64 v -> reads decode_i64 (i64_bytes v) v.
Proof.
  intros H rest. unfold decode_i64, i64_bytes. rewrite (reads_u64 (encode_int_to_cmp_uint v)).
  - simpl. by rewrite decode_cmp_uint_to_int_encode.
  - rewrite encode_int_to_cmp_uint_spec by done. unfold sint, uint in *.
    change (64 - 1) with 63 in H. lia.
Qed.

#[export] Instance i64_bytes_order : OrderCode (sint 64) Z.compare i64_bytes.
Proof.
  apply (order_code_map (uint (8 * Z.of_nat 8)) Z.compare (be_bytes 8) _ _ _ (fun v => v + 2 ^ 63)).
  - apply be_bytes_order.
  - intros v. unfold sint, uint. change (64 - 1) with 63. change (8 * Z.of_nat 8) with 64. lia.
  - intros a b _ _. symmetry. rewrite !(Z.add_comm _ (2 ^ 63)). apply Zcompare_plus_compat.
  - intros v H. unfold i64_bytes. by rewrite encode_int_to_cmp_uint_spec.
Qed.

(** ** Byte strings *)

(** The encoding as a function of the value: groups of eight, the last one
    padded, each with its marker. *)
Definition pad (n : nat) (g : bytes) : bytes := g ++ replicate (n - length g) 0.
Definition group (g : bytes) : bytes := pad 8 g ++ [247 + len g].

Fixpoint group_bytes (fuel : nat) (value : bytes) : bytes :=
  match fuel with
  | O => []
  | S fuel =>
      group (take 8 value) ++
      (if (8 <=? length value)%nat then group_bytes fuel (drop 8 value) else [])
  end.
Lemma group_bytes_S fuel value :
  group_bytes (S fuel) value =
  group (take 8 value) ++
  (if (8 <=? length value)%nat then group_bytes fuel (drop 8 value) else []).
Proof. done. Qed.

Definition mem_bytes (value : bytes) : bytes := group_bytes (length value / 8 + 1) value.

Lemma encode_group_writes value idx :
  writes (fun b => encode_group value b idx) (group (take 8 (drop idx value))).
Proof.
  unfold encode_group, group, pad, ENC_GROUP_SIZE, ENC_MARKER.
  rewrite length_take, length_drop. destruct (Nat.leb_spec 8 (length value - idx)).
  - eapply writes_ext; [intros b; symmetry; apply rbind_assoc|].
    apply (writes_bind _ (fun b => rcontext EncodeValue (try_put_u8 b 255))).
    + replace (8 - _)%nat with 0%nat by lia. rewrite app_nil_r. auto with codec.
    + replace (247 + _) with 255 by lia. apply writes_context, writes_try_put.
  - rewrite Nat.min_r by lia. set (r := (length value - idx)%nat) in *.
    rewrite (take_ge (drop idx value)) by (rewrite length_drop; lia).
    eapply writes_ext; [intros b; symmetry; rewrite !rbind_assoc; reflexivity|].
    rewrite <- app_assoc. apply (writes_bind (fun b => rcontext EncodeValue (try_put b (drop idx value)))
      (fun b => let? (b, n) := let? b := rcontext EncodeValue (try_put b (take (8 - r) PADS)) in Ok (b, (8 - r)%nat) in
        rcontext EncodeValue (try_put_u8 b (255 - Z.of_nat n)))); [auto with codec|].
    eapply writes_ext; [intros b; symmetry; rewrite !rbind_assoc; reflexivity|].
    replace (replicate (8 - r) 0) with (take (8 - r) PADS).
    2:{ unfold PADS, ENC_GROUP_SIZE. rewrite take_replicate. f_equal. lia. }
    apply (writes_bind (fun b => rcontext EncodeValue (try_put b (take (8 - r) PADS)))
      (fun b => rcontext EncodeValue (try_put_u8 b (255 - Z.of_nat (8 - r))))); [auto with codec|].
    replace (247 + _) with (255 - Z.of_nat (8 - r)) by lia. apply writes_context, writes_try_put.
Qed.

(** The loop from its [k]-th iteration on. *)
Lemma encode_loop_writes value n k :
  (length value / 8 = k + n)%nat ->
  writes (rfold (encode_group value) (map (fun i => i * 8)%nat (seq k (S n))))
    (group_bytes (S n) (drop (k * 8) value)).
Proof.
  pose proof (Nat.div_mod_eq (length value) 8). pose proof (Nat.mod_upper_bound (length value) 8).
  revert k. induction n as [|n IH]; intros k Hk.
  - cbn [seq map rfold group_bytes]. replace (if _ : bool then [] else []) with (@nil Z) by by case_match.
    rewrite app_nil_r.
    eapply writes_ext; [|apply (encode_group_writes value (k * 8))].
    intros b. by destruct (encode_group value b (k * 8)).
  - specialize (IH (S k) ltac:(lia)). cbn [seq map rfold]. rewrite group_bytes_S.
    apply (writes_bind (fun b => encode_group value b (k * 8))); [apply encode_group_writes|].
    rewrite drop_drop, length_drop. destruct (Nat.leb_spec 8 (length value - k * 8)); [|lia].
    replace (k * 8 + 8)%nat with (S k * 8)%nat by lia. exact IH.
Qed.

Lemma encode_bytes_writes value : writes (fun b => encode_bytes b value) (mem_bytes value).
Proof.
  unfold encode_bytes, mem_bytes, group_starts, ENC_GROUP_SIZE. rewrite Nat.add_1_r.
  apply (encode_loop_writes value _ 0). lia.
Qed.

(** The encoded length is what [estimate_encoded_size] says. *)
Lemma length_group g : (length g <= 8)%nat -> length (group g) = 9%nat.
Proof.
  intros H. unfold group, pad. rewrite !length_app, length_replicate. simpl. lia.
Qed.

Lemma length_drop_group (value : bytes) n :
  (length value / 8 = S n)%nat -> (length (drop 8 value) / 8 = n)%nat.
Proof.
  intros H. pose proof (Nat.div_mod_eq (length value) 8). rewrite length_drop. symmetry.
  apply (Nat.div_unique _ _ _ (length value mod 8)); [by apply Nat.mod_upper_bound|lia].
Qed.

Lemma length_group_bytes n value :
  (length value / 8 = n)%nat -> length (group_bytes (S n) value) = (9 * (n + 1))%nat.
Proof.
  revert value. induction n as [|n IH]; intros value Hn; rewrite group_bytes_S;
    rewrite length_app, length_group by (rewrite length_take; lia).
  - apply Nat.div_small_iff in Hn; [|done]. destruct (Nat.leb_spec 8 (length value)); simpl; lia.
  - pose proof (Nat.div_mod_eq (length value) 8).
    destruct (Nat.leb_spec 8 (length value)); [|lia].
    rewrite IH by by apply length_drop_group. lia.
Qed.

Lemma len_mem_bytes value : len (mem_bytes value) = estimate_encoded_size_bytes value.
Proof.
  unfold mem_bytes, estimate_encoded_size_bytes, ENC_GROUP_SIZE.
  rewrite Nat.add_1_r, (length_group_bytes _ value) by done.
  rewrite <- (Nat2Z.inj_div (length value) 8). lia.
Qed.

(** *** Decoding *)

(** Runs one iteration of the decoder on a group whose length is known. *)
Ltac run_group Hr :=
  cbn [length decode_bytes_loop group pad app take drop nth ENC_GROUP_SIZE Nat.add Nat.sub replicate] in *;
  unfold try_put, try_advance, ensure, ENC_GROUP_SIZE, ENC_MARKER, ENC_PAD;
  cbn [length Nat.add];
  repeat match goal with
  | |- context [255 - (247 + Z.of_nat ?k)] =>
      let v := eval vm_compute in (255 - (247 + Z.of_nat k)) in
      change (255 - (247 + Z.of_nat k)) with v
  | |- context [Z.to_nat ?k] =>
      let v := eval vm_compute in (Z.to_nat k) in change (Z.to_nat k) with v
  end;
  cbn [take drop nth Nat.sub length Nat.add app replicate forallb];
  rewrite Z_ltb_true by lia; cbn [rbind rcontext];
  rewrite Z_leb_true by lia; cbn [rbind rcontext];
  rewrite Z_leb_true by (exact Hr); cbn [rbind rcontext];
  rewrite Z_leb_true by lia; cbn [rbind rcontext Z.eqb Pos.eqb andb drop].

Lemma decode_group_full fuel g rest value :
  length g = 8%nat -> len g <= remaining_mut value ->
  decode_bytes_loop (S fuel) (group g ++ rest) value = decode_bytes_loop fuel rest (put value g).
Proof.
  intros Hg Hr. do 8 (destruct g as [|? g]; [done|]). destruct g; [|done].
  run_group Hr. reflexivity.
Qed.

Lemma decode_group_last fuel g rest value :
  (length g < 8)%nat -> len g <= remaining_mut value ->
  decode_bytes_loop (S fuel) (group g ++ rest) value = Ok (put value g, rest).
Proof.
  intros Hg Hr. do 8 (destruct g as [|? g]; [run_group Hr; reflexivity|]).
  simpl in Hg. lia.
Qed.

Lemma decode_bytes_loop_reads n fuel value rest out :
  (length value / 8 = n)%nat -> (n < fuel)%nat -> len value <= remaining_mut out ->
  decode_bytes_loop fuel (group_bytes (S n) value ++ rest) out = Ok (put out value, rest).
Proof.
  revert fuel value out. induction n as [|n IH]; intros [|fuel] value out Hn Hf Hr; try lia.
  - apply Nat.div_small_iff in Hn; [|done]. cbn [group_bytes].
    destruct (Nat.leb_spec 8 (length value)); [lia|].
    rewrite app_nil_r, take_ge by lia. by apply decode_group_last.
  - pose proof (Nat.div_mod_eq (length value) 8). rewrite group_bytes_S.
    destruct (Nat.leb_spec 8 (length value)); [|lia].
    rewrite <- app_assoc. pose proof (length_take value 8). pose proof (length_drop value 8).
    rewrite decode_group_full by lia.
    rewrite IH; [by rewrite put_put, take_drop| |lia|rewrite remaining_put; lia].
    by apply length_drop_group.
Qed.

Lemma decode_bytes_reads value : len value < 2 ^ 63 -> reads decode_bytes (mem_bytes value) value.
Proof.
  intros Hl rest. unfold decode_bytes, decode_bytes_to, mem_bytes. rewrite Nat.add_1_r.
  rewrite (decode_bytes_loop_reads (length value / 8)); [done|done| |].
  - rewrite length_app, length_group_bytes by done. lia.
  - unfold remaining_mut, bytes_mut_new, u64_max. cbn [wb_max wb_data length]. lia.
Qed.

(** Whatever the input, the decoder's loop ends before its fuel does. *)
Lemma decode_bytes_loop_total fuel buf value :
  (length buf < fuel)%nat -> no_panic (decode_bytes_loop fuel buf value).
Proof.
  unfold no_panic. revert buf value. induction fuel as [|fuel IH]; intros buf value Hf; [lia|].
  cbn [decode_bytes_loop]. unfold try_put, try_advance, ensure.
  repeat (case_match; cbn [rbind rcontext]; try done). apply IH.
  rewrite length_drop. unfold ENC_GROUP_SIZE in *. lia.
Qed.

(** *** The order *)
Lemma bytes_cmp_take_drop n a b :
  bytes_cmp a b = cmp_then (bytes_cmp (take n a) (take n b)) (bytes_cmp (drop n a) (drop n b)).
Proof.
  revert a b. induction n as [|n IH]; intros a b; [done|].
  destruct a as [|x a], b as [|y b]; simpl; try done.
  destruct (x ?= y); simpl; [apply IH|done|done].
Qed.

Lemma bytes_cmp_app_same_length a b r s :
  length a = length b ->
  bytes_cmp (a ++ r) (b ++ s) = cmp_then (bytes_cmp a b) (bytes_cmp r s).
Proof.
  intros H. rewrite (bytes_cmp_take_drop (length a)).
  rewrite take_app_length, drop_app_length, H, take_app_length, drop_app_length. done.
Qed.

(** A string of zeros is the least of its length. *)
Lemma bytes_cmp_zeros b : bytes_ok b ->
  bytes_cmp (replicate (length b) 0) b <> Gt /\ bytes_cmp b (replicate (length b) 0) <> Lt.
Proof.
  induction 1 as [|x b Hx Hb [IH1 IH2]]; [done|]. unfold uint in Hx.
  cbn [length replicate bytes_cmp]. rewrite (Z.compare_antisym 0 x).
  destruct (Z.compare_spec 0 x); cbn [cmp_then CompOpp]; [done|done|lia].
Qed.

Lemma pad_zeros n b : bytes_ok b -> (length b <= n)%nat ->
  bytes_cmp (pad n []) (pad n b) <> Gt /\ bytes_cmp (pad n b) (pad n []) <> Lt.
Proof.
  intros Hb Hl. assert (length (pad n b) = n) as Hn.
  { unfold pad. rewrite length_app, length_replicate. lia. }
  replace (pad n []) with (replicate (length (pad n b)) 0).
  - apply bytes_cmp_zeros. apply Forall_app. split; [done|]. by apply Forall_replicate.
  - rewrite Hn. unfold pad. cbn [app length]. by rewrite Nat.sub_0_r.
Qed.

Lemma pad_cons n x a : pad (S n) (x :: a) = x :: pad n a.
Proof. done. Qed.

(** Padding with zeros, and then comparing the lengths, is the order. *)
Lemma pad_order n a b :
  bytes_ok a -> bytes_ok b -> (length a <= n)%nat -> (length b <= n)%nat ->
  cmp_then (bytes_cmp (pad n a) (pad n b)) (len a ?= len b) = bytes_cmp a b.
Proof.
  revert a b. induction n as [|n IH]; intros [|x a] [|y b] Ha Hb Hla Hlb; try (simpl in *; lia).
  - done.
  - by rewrite (cmp_refl bytes_cmp).
  - pose proof (proj1 (pad_zeros _ _ Hb Hlb)). destruct (bytes_cmp (pad _ _) _); cbn; [|done|done].
    by apply Z.compare_lt_iff; lia.
  - pose proof (proj2 (pad_zeros _ _ Ha Hla)). destruct (bytes_cmp (pad _ _) _); cbn; [|done|done].
    by apply Z.compare_gt_iff; lia.
  - inversion Ha; inversion Hb; subst. simpl in Hla, Hlb.
    specialize (IH a b ltac:(done) ltac:(done) ltac:(lia) ltac:(lia)).
    rewrite !pad_cons. cbn [bytes_cmp length]. destruct (x ?= y); [|done|done].
    cbn [cmp_then]. rewrite <- IH. f_equal. rewrite !Nat2Z.inj_succ. apply Zcompare_succ_compat.
Qed.

Lemma group_order a b r s :
  bytes_ok a -> bytes_ok b -> (length a <= 8)%nat -> (length b <= 8)%nat ->
  bytes_cmp (group a ++ r) (group b ++ s) = cmp_then (bytes_cmp a b) (bytes_cmp r s).
Proof.
  intros Ha Hb Hla Hlb.
  rewrite bytes_cmp_app_same_length by (rewrite !length_group; lia).
  f_equal. unfold group. rewrite bytes_cmp_app_same_length.
  - rewrite <- (pad_order 8 a b) by done. f_equal. cbn [bytes_cmp].
    rewrite Zcompare_plus_compat. by destruct (_ ?= _).
  - unfold pad. rewrite !length_app, !length_replicate. lia.
Qed.

Lemma group_bytes_order n m a b r s :
  bytes_ok a -> bytes_ok b -> (length a / 8 = n)%nat -> (length b / 8 = m)%nat ->
  bytes_cmp (group_bytes (S n) a ++ r) (group_bytes (S m) b ++ s)
  = cmp_then (bytes_cmp a b) (bytes_cmp r s).
Proof.
  revert m a b. induction n as [|n IH]; intros m a b Ha Hb Hn Hm.
  all: rewrite (group_bytes_S _ a), (group_bytes_S _ b), <- !app_assoc, group_order
      by first [by apply Forall_take|rewrite length_take; lia].
  all: rewrite (bytes_cmp_take_drop 8 a b).
  all: destruct (bytes_cmp (take 8 a) (take 8 b)) eqn:E; [|done|done].
  all: apply (cmp_eq (cmp:=bytes_cmp)) in E; apply (f_equal length) in E.
  all: rewrite !length_take in E; pose proof (Nat.div_mod_eq (length a) 8);
       pose proof (Nat.div_mod_eq (length b) 8);
       pose proof (Nat.mod_upper_bound (length a) 8); pose proof (Nat.mod_upper_bound (length b) 8).
  - destruct (Nat.leb_spec 8 (length a)), (Nat.leb_spec 8 (length b)); try lia.
    by rewrite !drop_ge by lia.
  - destruct (Nat.leb_spec 8 (length a)), (Nat.leb_spec 8 (length b)); try lia.
    destruct m as [|m]; [lia|]. simpl. apply IH; first [by apply Forall_drop|by apply length_drop_group].
Qed.

#[export] Instance mem_bytes_order : OrderCode bytes_ok bytes_cmp mem_bytes.
Proof.
  intros a b r s Ha Hb. unfold mem_bytes. rewrite !Nat.add_1_r. by apply group_bytes_order.
Qed.

(** ** Data values *)

(** The bytes of a datum's encoding. *)
Definition datum_bytes (d : Datum.t) : bytes :=
  match d with
  | Datum.Null => [NULL_FLAG]
  | Datum.Timestamp v | Datum.Int64 v | Datum.Int32 v | Datum.Int16 v | Datum.Int8 v
  | Datum.Date v | Datum.Time v => [INT_FLAG] ++ i64_bytes v
  | Datum.Varbinary v | Datum.String v => [BYTES_FLAG] ++ mem_bytes v
  | Datum.UInt64 v | Datum.UInt32 v | Datum.UInt16 v | Datum.UInt8 v => [UINT_FLAG] ++ be_bytes 8 v
  | Datum.Boolean v => [UINT_FLAG] ++ be_bytes 8 (if v then 1 else 0)
  | Datum.Double _ | Datum.Float _ => []
  end.

Lemma put_flag_writes flag : writes (fun b => put_flag b flag) [flag].
Proof. apply writes_context, writes_try_put. Qed.

Lemma ensure_flag_app flag rest : uint 8 flag -> ensure_flag (flag :: rest) flag = Ok rest.
Proof.
  intros H. unfold ensure_flag. change (flag :: rest) with ([flag] ++ rest).
  rewrite (reads_u8 flag H rest). cbn [rcontext rbind].
  unfold ensure. by rewrite Z.eqb_refl.
Qed.

(** The kinds the codec supports; [DatumKind::is_key_kind] and null. *)
Definition supported (d : Datum.t) : bool :=
  match d with Datum.Double _ | Datum.Float _ => false | _ => true end.

Lemma encode_datum_writes d : supported d -> writes (fun b => encode_datum b d) (datum_bytes d).
Proof.
  destruct d; cbn [supported encode_datum datum_bytes]; try done; intros _.
  all: try (apply (writes_bind (fun b => put_flag b _));
            [apply put_flag_writes|auto using encode_i64_writes, encode_u64_writes, encode_bytes_writes]).
  apply put_flag_writes.
Qed.

Lemma sint_mono w w' v : 0 < w <= w' -> sint w v -> sint w' v.
Proof.
  unfold sint. intros Hw H. pose proof (Z.pow_le_mono_r 2 (w - 1) (w' - 1)). lia.
Qed.

Lemma uint_mono w w' v : 0 <= w <= w' -> uint w v -> uint w' v.
Proof. unfold uint. intros Hw H. pose proof (Z.pow_le_mono_r 2 w w'). lia. Qed.

Lemma decode_datum_reads d : supported d -> Datum.ok d ->
  reads (fun b => decode_datum_to b (Datum.empty (Datum.kind d))) (datum_bytes d) d.
Proof.
  intros Hs Hok rest. destruct d; try done;
    cbn [Datum.kind Datum.empty decode_datum_to datum_bytes app] in *;
    unfold decode_i64_into, decode_u64_into, decode_u64_into_bool;
    rewrite ensure_flag_app by done; cbn [rbind]; try done.
  all: cbn [Datum.ok] in Hok.
  all: try (rewrite decode_i64_reads by first [exact Hok|revert Hok; apply sint_mono; lia]).
  all: try (rewrite decode_u64_reads by first [exact Hok|revert Hok; apply uint_mono; lia]).
  all: try (rewrite decode_bytes_reads by apply Hok).
  all: cbn [rbind]; rewrite ?as_s_id, ?as_u_id by first [exact Hok|lia]; try done.
  rewrite decode_u64_reads by by destruct v. by destruct v.
Qed.

(** What may stand in a key column of kind [k]. *)
Definition key_datum (k : DatumKind.t) (d : Datum.t) : Prop :=
  Datum.ok d /\ supported d /\ (d = Datum.Null \/ Datum.kind d = k).

(** [partial_cmp(..).unwrap()] on values that always compare. *)
Definition datum_cmp (a b : Datum.t) : comparison := default Eq (Datum.partial_cmp a b).

Lemma flag_cmp (f g : Z) (a b r s : bytes) :
  f <> g -> bytes_cmp (([f] ++ a) ++ r) (([g] ++ b) ++ s) = (f ?= g).
Proof. intros H. simpl. destruct (Z.compare_spec f g); done. Qed.

#[export] Instance bool_bytes_order :
  OrderCode (fun _ => True) Datum.bool_cmp (fun v : bool => be_bytes 8 (if v then 1 else 0)).
Proof.
  apply (order_code_map (uint (8 * Z.of_nat 8)) Z.compare (be_bytes 8) _ _ _
           (fun v : bool => if v then 1 else 0)); [apply be_bytes_order| | |done].
  - by intros [].
  - by intros [] [].
Qed.

Lemma same_kind_order a b r s :
  Datum.ok a -> Datum.ok b -> supported a -> Datum.kind a = Datum.kind b ->
  bytes_cmp (datum_bytes a ++ r) (datum_bytes b ++ s)
  = cmp_then (datum_cmp a b) (bytes_cmp r s).
Proof.
  intros Ha Hb Hs Hk.
  destruct a, b; try discriminate Hk; try done; unfold datum_cmp;
    cbn [datum_bytes Datum.partial_cmp default Datum.ok] in *.
  all: first
    [ apply (order_code_prefix (sint 64) Z.compare i64_bytes [INT_FLAG] _);
        first [done|revert Ha; apply sint_mono; lia|revert Hb; apply sint_mono; lia]
    | apply (order_code_prefix (uint 64) Z.compare (be_bytes 8) [UINT_FLAG] (be_bytes_order 8));
        first [done|revert Ha; apply uint_mono; lia|revert Hb; apply uint_mono; lia]
    | apply (order_code_prefix bytes_ok bytes_cmp mem_bytes [BYTES_FLAG] _); naive_solver
    | apply (order_code_prefix _ _ _ [UINT_FLAG] bool_bytes_order); done ].
Qed.

#[export] Instance datum_bytes_order k : OrderCode (key_datum k) datum_cmp datum_bytes.
Proof.
  intros a b r s (Ha & Hsa & Hka) (Hb & Hsb & Hkb).
  destruct (decide (a = Datum.Null)) as [->|Hna], (decide (b = Datum.Null)) as [->|Hnb].
  - done.
  - destruct b; done.
  - destruct a; done.
  - apply same_kind_order; try done. naive_solver.
Qed.

(** On key columns [partial_cmp] always answers, so [unwrap] does not panic. *)
Lemma key_datum_comparable k a b :
  key_datum k a -> key_datum k b -> Datum.partial_cmp a b = Some (datum_cmp a b).
Proof. intros (_ & Ha & _) (_ & Hb & _). by destruct a, b. Qed.

(** An encoding is never empty. *)
Lemma datum_bytes_nonempty d : supported d -> datum_bytes d <> [].
Proof. by destruct d. Qed.

#[export] Hint Resolve encode_i64_writes encode_u64_writes encode_bytes_writes encode_datum_writes
  decode_i64_reads decode_u64_reads decode_bytes_reads decode_datum_reads : codec.

(** ** Properties *)

(** C14. The mem-comparable codec of data values round trips and orders: for
    two values that can stand in the same key column (null, or any kind but
    the floats), encoding succeeds whenever the buffer has room, decoding
    with a datum of the value's kind gives the value back and leaves what
    follows, and comparing the encodings byte by byte, with anything after
    them, gives the order of the values. *)
Theorem memcomparable_order_roundtrip k a b :
  key_datum k a -> key_datum k b ->
  exists ea eb,
    (forall out, len ea <= remaining_mut out -> encode_datum out a = Ok (put out ea)) /\
    (forall out, len eb <= remaining_mut out -> encode_datum out b = Ok (put out eb)) /\
    (forall rest, decode_datum_to (ea ++ rest) (Datum.empty (Datum.kind a)) = Ok (a, rest)) /\
    (forall r s c, Datum.partial_cmp a b = Some c ->
       bytes_cmp (ea ++ r) (eb ++ s) = cmp_then c (bytes_cmp r s)).
Proof.
  intros Ha Hb. exists (datum_bytes a), (datum_bytes b).
  pose proof Ha as (Hoa & Hsa & _). pose proof Hb as (_ & Hsb & _).
  split_and!.
  - intros out. apply (writes_room (fun o => encode_datum o a)). by apply encode_datum_writes.
  - intros out. apply (writes_room (fun o => encode_datum o b)). by apply encode_datum_writes.
  - by apply decode_datum_reads.
  - intros r s c Hc. rewrite (key_datum_comparable k) in Hc by done. injection Hc as <-.
    by apply (order_code (enc:=datum_bytes) (dom:=key_datum k)).
Qed.

Lemma memcomparable_order_roundtrip_witness :
  bytes_cmp (datum_bytes (Datum.Int32 (-5))) (datum_bytes (Datum.Int32 7)) = Lt /\
  exists ea eb,
    (forall out, len ea <= remaining_mut out ->
       encode_datum out (Datum.Int32 (-5)) = Ok (put out ea)) /\
    (forall out, len eb <= remaining_mut out ->
       encode_datum out (Datum.Int32 7) = Ok (put out eb)) /\
    (forall rest, decode_datum_to (ea ++ rest) (Datum.Int32 0) = Ok (Datum.Int32 (-5), rest)) /\
    (forall r s c, Datum.partial_cmp (Datum.Int32 (-5)) (Datum.Int32 7) = Some c ->
       bytes_cmp (ea ++ r) (eb ++ s) = cmp_then c (bytes_cmp r s)).
Proof.
  split; [reflexivity|].
  apply (memcomparable_order_roundtrip DatumKind.Int32);
    (split; [unfold Datum.ok, sint; lia|split; [exact I|right; reflexivity]]).
Defined.
