(* ===== verification/Compact.v ===== *)
(** * The compact codec: [common_util/src/codec/compact]

    The encoding of rows in the write-ahead log: a flag, then a varint, a
    float, or a length and bytes.  [mod.rs], [number.rs], [bytes.rs],
    [float.rs] and [datum.rs]. *)

From Stdlib Require Import ZArith Lia.
From stdpp Require Import base tactics option list numbers.
From S2P Require Import Prelude Bytes Datum Varint MemComparable.

#[local] Open Scope Z_scope.

(** [compact::Error]; its [DecodeString] and [NullDatum] are never built. *)
Inductive CompactError :=
| CompactEncodeKey (source : BytesError)
| CompactEncodeValue (source : BytesError)
| EncodeVarint (source : VarintError)
| DecodeVarint (source : VarintError)
| CompactDecodeKey (source : BytesError)
| DecodeEmptyValue
| CompactInvalidKeyFlag (expect actual : Z)
| CompactDecodeValue (source : BytesError)
| SkipDecodedValue (source : BytesError)
| TryIntoUsize.

(** ** [MemCompactEncoder] *)
Module MemCompactEncoder.
Definition encode_i64 (buf : wbuf) (value : Z) : res CompactError wbuf :=
  rcontext EncodeVarint (encode_varint buf value).
Definition encode_u64 (buf : wbuf) (value : Z) : res CompactError wbuf :=
  rcontext EncodeVarint (encode_uvarint buf value).
Definition encode_f64 (buf : wbuf) (value : Z) : res CompactError wbuf :=
  rcontext CompactEncodeValue (try_put_f64 buf value).
Definition encode_f32 (buf : wbuf) (value : Z) : res CompactError wbuf :=
  rcontext CompactEncodeValue (try_put_f32 buf value).
Definition encode_bytes (buf : wbuf) (value : bytes) : res CompactError wbuf :=
  let? buf := rcontext EncodeVarint (encode_varint buf (as_s 64 (len value))) in
  rcontext CompactEncodeValue (try_put buf value).

Definition estimate_encoded_size_bytes (value : bytes) : Z := MAX_VARINT_BYTES + len value.

Definition put_key (buf : wbuf) (flag : Z) : res CompactError wbuf :=
  rcontext CompactEncodeKey (try_put_u8 buf flag).

Definition encode (buf : wbuf) (value : Datum.t) : res CompactError wbuf :=
  match value with
  | Datum.Null => put_key buf NULL_FLAG
  | Datum.Timestamp ts => let? buf := put_key buf VARINT_FLAG in encode_i64 buf ts
  | Datum.Double v => let? buf := put_key buf FLOAT_FLAG in encode_f64 buf v
  | Datum.Float v => let? buf := put_key buf FLOAT_FLAG in encode_f32 buf v
  | Datum.Varbinary v => let? buf := put_key buf COMPACT_BYTES_FLAG in encode_bytes buf v
  | Datum.String v => let? buf := put_key buf COMPACT_BYTES_FLAG in encode_bytes buf v
  | Datum.UInt64 v => let? buf := put_key buf UVARINT_FLAG in encode_u64 buf v
  | Datum.UInt32 v => let? buf := put_key buf UVARINT_FLAG in encode_u64 buf v
  | Datum.UInt16 v => let? buf := put_key buf UVARINT_FLAG in encode_u64 buf v
  | Datum.UInt8 v => let? buf := put_key buf UVARINT_FLAG in encode_u64 buf v
  | Datum.Int64 v => let? buf := put_key buf VARINT_FLAG in encode_i64 buf v
  | Datum.Int32 v => let? buf := put_key buf VARINT_FLAG in encode_i64 buf v
  | Datum.Int16 v => let? buf := put_key buf VARINT_FLAG in encode_i64 buf v
  | Datum.Int8 v => let? buf := put_key buf VARINT_FLAG in encode_i64 buf v
  | Datum.Boolean v => let? buf := put_key buf UVARINT_FLAG in encode_u64 buf (if v then 1 else 0)
  | Datum.Date v => let? buf := put_key buf VARINT_FLAG in encode_i64 buf v
  | Datum.Time v => let? buf := put_key buf VARINT_FLAG in encode_i64 buf v
  end.

Definition estimate_encoded_size (value : Datum.t) : Z :=
  match value with
  | Datum.Null => 1
  | Datum.Double _ => 8
  | Datum.Float _ => 4
  | Datum.Varbinary v | Datum.String v => estimate_encoded_size_bytes v
  | Datum.Timestamp _ | Datum.Int64 _ | Datum.Int32 _ | Datum.Int16 _ | Datum.Int8 _
  | Datum.Date _ | Datum.Time _ => MAX_VARINT_BYTES
  | Datum.UInt64 _ | Datum.UInt32 _ | Datum.UInt16 _ | Datum.UInt8 _
  | Datum.Boolean _ => MAX_UVARINT_BYTES
  end.
End MemCompactEncoder.

(** ** [MemCompactDecoder] *)
Module MemCompactDecoder.
Definition maybe_read_null (buf : bytes) : res CompactError (option Z * bytes) :=
  let? (actual, buf) := rcontext CompactDecodeKey (try_get_u8 buf) in
  if actual =? NULL_FLAG then Ok (None, buf) else Ok (Some actual, buf).

Definition ensure_flag (expect actual : Z) : res CompactError unit :=
  ensure (expect =? actual) (CompactInvalidKeyFlag expect actual).

Definition decode_i64 (buf : bytes) : res CompactError (Z * bytes) :=
  rcontext DecodeVarint (decode_varint buf).
Definition decode_u64 (buf : bytes) : res CompactError (Z * bytes) :=
  rcontext DecodeVarint (decode_uvarint buf).
Definition decode_f64 (buf : bytes) : res CompactError (Z * bytes) :=
  rcontext CompactDecodeValue (try_get_f64 buf).
Definition decode_f32 (buf : bytes) : res CompactError (Z * bytes) :=
  rcontext CompactDecodeValue (try_get_f32 buf).

(** [DecodeTo<BytesMut>], into an empty [BytesMut]. *)
Definition decode_bytes (buf : bytes) : res CompactError (bytes * bytes) :=
  let? (v, buf) := rcontext DecodeVarint (decode_varint buf) in
  let? _ := ensure (0 <=? v) TryIntoUsize in
  let? _ := ensure (v <=? len buf) DecodeEmptyValue in
  let v := Z.to_nat v in
  let? value := rcontext CompactDecodeValue (try_put bytes_mut_new (take v buf)) in
  let? buf := rcontext SkipDecodedValue (try_advance v buf) in
  Ok (wb_data value, buf).

Definition decode_var_u64_into (buf : bytes) (actual w : Z) : res CompactError (Z * bytes) :=
  let? _ := ensure_flag UVARINT_FLAG actual in
  let? (data, buf) := decode_u64 buf in Ok (as_u w data, buf).
Definition decode_var_u64_into_bool (buf : bytes) (actual : Z) : res CompactError (bool * bytes) :=
  let? _ := ensure_flag UVARINT_FLAG actual in
  let? (data, buf) := decode_u64 buf in Ok (negb (data =? 0), buf).
Definition decode_var_i64_into (buf : bytes) (actual w : Z) : res CompactError (Z * bytes) :=
  let? _ := ensure_flag VARINT_FLAG actual in
  let? (data, buf) := decode_i64 buf in Ok (as_s w data, buf).

Definition decode_to (buf : bytes) (value : Datum.t) : res CompactError (Datum.t * bytes) :=
  let? (actual, buf) := maybe_read_null buf in
  match actual with
  | None => Ok (Datum.Null, buf)
  | Some actual =>
      match value with
      | Datum.Null => let? _ := ensure_flag NULL_FLAG actual in Ok (Datum.Null, buf)
      | Datum.Timestamp _ =>
          let? _ := ensure_flag VARINT_FLAG actual in
          let? (data, buf) := decode_i64 buf in Ok (Datum.Timestamp data, buf)
      | Datum.Double _ =>
          let? _ := ensure_flag FLOAT_FLAG actual in
          let? (v, buf) := decode_f64 buf in Ok (Datum.Double v, buf)
      | Datum.Float _ =>
          let? _ := ensure_flag FLOAT_FLAG actual in
          let? (v, buf) := decode_f32 buf in Ok (Datum.Float v, buf)
      | Datum.Varbinary _ =>
          let? _ := ensure_flag COMPACT_BYTES_FLAG actual in
          let? (data, buf) := decode_bytes buf in Ok (Datum.Varbinary data, buf)
      | Datum.String _ =>
          let? _ := ensure_flag COMPACT_BYTES_FLAG actual in
          let? (data, buf) := decode_bytes buf in Ok (Datum.String data, buf)
      | Datum.UInt64 _ =>
          let? _ := ensure_flag UVARINT_FLAG actual in
          let? (v, buf) := decode_u64 buf in Ok (Datum.UInt64 v, buf)
      | Datum.UInt32 _ => let? (v, buf) := decode_var_u64_into buf actual 32 in Ok (Datum.UInt32 v, buf)
      | Datum.UInt16 _ => let? (v, buf) := decode_var_u64_into buf actual 16 in Ok (Datum.UInt16 v, buf)
      | Datum.UInt8 _ => let? (v, buf) := decode_var_u64_into buf actual 8 in Ok (Datum.UInt8 v, buf)
      | Datum.Int64 _ =>
          let? _ := ensure_flag VARINT_FLAG actual in
          let? (v, buf) := decode_i64 buf in Ok (Datum.Int64 v, buf)
      | Datum.Int32 _ => let? (v, buf) := decode_var_i64_into buf actual 32 in Ok (Datum.Int32 v, buf)
      | Datum.Int16 _ => let? (v, buf) := decode_var_i64_into buf actual 16 in Ok (Datum.Int16 v, buf)
      | Datum.Int8 _ => let? (v, buf) := decode_var_i64_into buf actual 8 in Ok (Datum.Int8 v, buf)
      | Datum.Boolean _ =>
          let? (v, buf) := decode_var_u64_into_bool buf actual in Ok (Datum.Boolean v, buf)
      | Datum.Date _ => let? (v, buf) := decode_var_i64_into buf actual 32 in Ok (Datum.Date v, buf)
      | Datum.Time _ =>
          let? _ := ensure_flag VARINT_FLAG actual in
          let? (v, buf) := decode_i64 buf in Ok (Datum.Time v, buf)
      end
  end.
End MemCompactDecoder.

(** ** Round trip *)
Definition varint_bytes (v : Z) : bytes := uvarint_bytes 10 (zigzag v).
Definition compact_string (v : bytes) : bytes := varint_bytes (len v) ++ v.

Definition compact_bytes (d : Datum.t) : bytes :=
  match d with
  | Datum.Null => [NULL_FLAG]
  | Datum.Timestamp v | Datum.Int64 v | Datum.Int32 v | Datum.Int16 v | Datum.Int8 v
  | Datum.Date v | Datum.Time v => [VARINT_FLAG] ++ varint_bytes v
  | Datum.Double v => [FLOAT_FLAG] ++ be_bytes 8 v
  | Datum.Float v => [FLOAT_FLAG] ++ be_bytes 4 v
  | Datum.Varbinary v | Datum.String v => [COMPACT_BYTES_FLAG] ++ compact_string v
  | Datum.UInt64 v | Datum.UInt32 v | Datum.UInt16 v | Datum.UInt8 v =>
      [UVARINT_FLAG] ++ uvarint_bytes 10 v
  | Datum.Boolean v => [UVARINT_FLAG] ++ uvarint_bytes 10 (if v then 1 else 0)
  end.

Lemma sint64_len (v : bytes) : len v < 2 ^ 63 -> sint 64 (len v).
Proof. unfold sint. change (64 - 1) with 63. lia. Qed.

Lemma compact_string_writes v : len v < 2 ^ 63 ->
  writes (fun b => MemCompactEncoder.encode_bytes b v) (compact_string v).
Proof.
  intros H. apply sint64_len in H. unfold MemCompactEncoder.encode_bytes.
  rewrite as_s_id by (done || lia).
  apply (writes_bind (fun b => rcontext EncodeVarint (encode_varint b (len v)))
           (fun b => rcontext CompactEncodeValue (try_put b v))).
  - by apply writes_context, encode_varint_writes.
  - apply writes_context, writes_try_put.
Qed.

Lemma compact_string_reads v : len v < 2 ^ 63 ->
  reads MemCompactDecoder.decode_bytes (compact_string v) v.
Proof.
  intros H rest. unfold MemCompactDecoder.decode_bytes, compact_string. rewrite <- app_assoc.
  rewrite (decode_varint_reads (len v)) by by apply sint64_len. cbn [rcontext rbind].
  unfold ensure. rewrite !Z_leb_true by (rewrite ?length_app; lia). cbn [rbind].
  rewrite Nat2Z.id, take_app_length. unfold try_put, try_advance, ensure, remaining_mut, bytes_mut_new, u64_max.
  cbn [wb_max wb_data length].
  rewrite Z_leb_true by lia. cbn [rcontext rbind]. rewrite Z_leb_true by (rewrite ?length_app; lia).
  cbn [rcontext rbind put wb_data app]. by rewrite drop_app_length.
Qed.

Lemma put_key_writes flag : writes (fun b => MemCompactEncoder.put_key b flag) [flag].
Proof. apply writes_context, writes_try_put. Qed.

Lemma compact_writes d : Datum.ok d ->
  writes (fun b => MemCompactEncoder.encode b d) (compact_bytes d).
Proof.
  intros Hok. destruct d; cbn [MemCompactEncoder.encode compact_bytes Datum.ok] in *;
    try apply (writes_bind (fun b => MemCompactEncoder.put_key b _)); try apply put_key_writes.
  all: first
    [ apply writes_context, writes_try_put
    | apply compact_string_writes, Hok
    | apply writes_context, encode_varint_writes; first [exact Hok|revert Hok; apply sint_mono; lia]
    | apply writes_context, encode_uvarint_writes; first [exact Hok|revert Hok; apply uint_mono; lia] 
    | by apply writes_context, encode_uvarint_writes; destruct v ].
Qed.

Lemma compact_reads d k : Datum.ok d -> d = Datum.Null \/ Datum.kind d = k ->
  reads (fun b => MemCompactDecoder.decode_to b (Datum.empty k)) (compact_bytes d) d.
Proof.
  intros Hok Hk rest. unfold MemCompactDecoder.decode_to, MemCompactDecoder.maybe_read_null.
  destruct Hk as [->| <-]; [cbn [compact_bytes app]; by rewrite try_get_u8_cons|].
  destruct d; cbn [Datum.kind Datum.empty compact_bytes app]; rewrite try_get_u8_cons;
    cbn [rcontext rbind]; try done.
  all: unfold MemCompactDecoder.decode_var_u64_into, MemCompactDecoder.decode_var_u64_into_bool,
         MemCompactDecoder.decode_var_i64_into, MemCompactDecoder.decode_u64, MemCompactDecoder.decode_i64,
         MemCompactDecoder.decode_f64, MemCompactDecoder.decode_f32, varint_bytes.
  all: cbn -[decode_varint decode_uvarint uvarint_bytes be_bytes as_s as_u].
  all: cbn [Datum.ok] in Hok.
  all: try (rewrite decode_varint_reads by first [exact Hok|revert Hok; apply sint_mono; lia]).
  all: try (rewrite decode_uvarint_reads
              by first [exact Hok|revert Hok; apply uint_mono; lia|by destruct v]).
  all: try (rewrite reads_f64 by done); try (rewrite reads_f32 by done).
  all: try (rewrite compact_string_reads by apply Hok).
  all: cbn [rcontext rbind]; rewrite ?as_s_id, ?as_u_id by first [exact Hok|lia]; try done.
  by destruct v.
Qed.

(** The estimate is at most one byte, the flag, short of the encoding. *)
Lemma compact_estimate d :
  len (compact_bytes d) <= MemCompactEncoder.estimate_encoded_size d + 1.
Proof.
  pose proof (fun x => inj_le _ _ (uvarint_loop_length 10 x)) as Hu.
  destruct d; cbn [compact_bytes MemCompactEncoder.estimate_encoded_size];
    unfold MemCompactEncoder.estimate_encoded_size_bytes, MAX_VARINT_BYTES, MAX_UVARINT_BYTES,
      compact_string, varint_bytes;
    rewrite ?length_app, ?length_be_bytes; cbn [length];
    match goal with
    | |- context [uvarint_bytes 10 ?x] => specialize (Hu x); lia
    | _ => lia
    end.
Qed.

#[export] Hint Resolve compact_writes compact_reads : codec.

(** ** Decoding any bytes *)
Lemma typed_bytes : typed_read (fun v => bytes_ok v /\ len v < 2 ^ 63) MemCompactDecoder.decode_bytes.
Proof.
  unfold MemCompactDecoder.decode_bytes.
  apply (typed_bind (sint 64) _ (fun buf => rcontext DecodeVarint (decode_varint buf))
    (fun v buf => let? _ := ensure (0 <=? v) TryIntoUsize in let? _ := ensure (v <=? len buf) DecodeEmptyValue in
      let? value := rcontext CompactDecodeValue (try_put bytes_mut_new (take (Z.to_nat v) buf)) in
      let? buf := rcontext SkipDecodedValue (try_advance (Z.to_nat v) buf) in Ok (wb_data value, buf))); [apply typed_context, typed_varint|].
  intros v Hv buf Hb. unfold ensure, try_put, try_advance, ensure. destruct (Z.leb_spec 0 v) as [H0|]; cbn [rbind]; [|done].
  destruct (Z.leb_spec v (len buf)) as [Hl|]; cbn [rbind]; [|done]. destruct (_ <=? remaining_mut _); cbn [rcontext rbind]; [|done].
  destruct (_ <=? len buf); cbn [rcontext rbind]; [|done]. cbn [put wb_data bytes_mut_new app]. unfold sint in Hv.
  split; [split; [by apply Forall_take|rewrite length_take; lia]|]. exists (take (Z.to_nat v) buf). by rewrite take_drop.
Qed.

(** A decoded datum has the kind that was asked for, or is null, and its value is in range. *)
Definition datum_typed (k : DatumKind.t) (d : Datum.t) : Prop := Datum.ok d /\ (d = Datum.Null \/ Datum.kind d = k).
Lemma typed_flag {A} (P : A -> Prop) expect actual (g : bytes -> res CompactError (A * bytes)) :
  typed_read P g -> typed_read P (fun buf => let? _ := MemCompactDecoder.ensure_flag expect actual in g buf).
Proof. apply typed_ensure. Qed.
Lemma typed_flag_map {A B} (P : A -> Prop) (Q : B -> Prop) expect actual (g : bytes -> res CompactError (A * bytes)) (f : A -> B) :
  typed_read P g -> (forall a, P a -> Q (f a)) ->
  typed_read Q (fun buf => let? _ := MemCompactDecoder.ensure_flag expect actual in let? (a, buf) := g buf in Ok (f a, buf)).
Proof. intros Hg Hf. apply typed_flag. by eapply typed_map. Qed.
Lemma typed_var_u64 actual w : 0 <= w -> typed_read (uint w) (fun buf => MemCompactDecoder.decode_var_u64_into buf actual w).
Proof.
  intros Hw. apply (typed_flag_map (uint 64) _ UVARINT_FLAG actual MemCompactDecoder.decode_u64 (as_u w)); [apply typed_context, typed_uvarint|].
  intros a _. by apply as_u_range.
Qed.
Lemma typed_var_i64 actual w : 0 < w -> typed_read (sint w) (fun buf => MemCompactDecoder.decode_var_i64_into buf actual w).
Proof.
  intros Hw. apply (typed_flag_map (sint 64) _ VARINT_FLAG actual MemCompactDecoder.decode_i64 (as_s w)); [apply typed_context, typed_varint|].
  intros a _. by apply as_s_range.
Qed.
Lemma typed_var_bool actual : typed_read (fun _ => True) (fun buf => MemCompactDecoder.decode_var_u64_into_bool buf actual).
Proof.
  apply (typed_flag_map (uint 64) _ UVARINT_FLAG actual MemCompactDecoder.decode_u64 (fun data => negb (data =? 0))); [|done].
  apply typed_context, typed_uvarint.
Qed.
Lemma typed_f64 : typed_read (uint 64) MemCompactDecoder.decode_f64.
Proof. by apply typed_context, (typed_be 8). Qed.
Lemma typed_f32 : typed_read (uint 32) MemCompactDecoder.decode_f32.
Proof. by apply typed_context, (typed_be 4). Qed.

Lemma typed_datum k : typed_read (datum_typed k) (fun buf => MemCompactDecoder.decode_to buf (Datum.empty k)).
Proof.
  unfold MemCompactDecoder.decode_to, MemCompactDecoder.maybe_read_null.
  assert (typed_read (uint 8) try_get_u8) as Hu8 by by apply (typed_be 1).
  assert (typed_read (fun _ => True) MemCompactDecoder.maybe_read_null) as Hnull.
  { apply (typed_bind (uint 8) _ (fun buf => rcontext CompactDecodeKey (try_get_u8 buf))
      (fun actual buf => if actual =? NULL_FLAG then Ok (None, buf) else Ok (Some actual, buf))); [by apply typed_context|].
    intros a _. destruct (_ =? _); by apply typed_ret. }
  eapply typed_bind; [exact Hnull|]. intros [actual|] _; [|apply typed_ret; by split; [|left]].
  destruct k; cbn [Datum.empty].
  all: first
    [ apply typed_flag, typed_ret; split; [done|by left]
    | eapply typed_flag_map; [first [apply typed_context, typed_varint|apply typed_context, typed_uvarint|apply typed_f64|apply typed_f32|apply typed_bytes]|]
    | eapply typed_map; [first [apply typed_var_u64; lia|apply typed_var_i64; lia|apply typed_var_bool]|] ].
  all: intros a Ha; split; [exact Ha|by right].
Qed.
