(* ===== verification/Schema.v ===== *)
(** * Schemas and rows: [common_types/src/{column_schema,schema,row/mod}.rs]

    Column schemas and their compatibility, the schema builder, the index
    mapping between a table and a writer, rows, row groups and the comparison
    of rows.

    The arrow schema a [Schema] also carries, the escaped name and the default
    value expression of a column are data of other crates that the operations
    here only pass along; they are left out. *)

From Stdlib Require Import ZArith Lia Sorted.
From stdpp Require Import base tactics option list numbers strings gmap sets.
From S2P Require Import Prelude Bytes Datum.

#[local] Open Scope Z_scope.

(** ** [ColumnSchema] *)
Module ColumnSchema.
Record t := Mk {
  id : Z;
  name : string;
  data_type : DatumKind.t;
  is_nullable : bool;
  is_tag : bool;
  is_dictionary : bool;
  comment : string
}.

#[global] Instance column_eq_dec : EqDecision t.
Proof. solve_decision. Defined.

Definition COLUMN_ID_UNINIT : Z := 0.

Inductive CompatError :=
| IncompatDataType (name : string) (expect given : DatumKind.t)
| NotNullable (name : string).

Inductive ReadOp := Exact | FillNull.

Definition is_valid_tag_type (typ : DatumKind.t) : bool :=
  match typ with
  | DatumKind.Null | DatumKind.Double | DatumKind.Float => false
  | _ => true
  end.

Definition is_valid_dictionary_type (typ : DatumKind.t) : bool :=
  match typ with DatumKind.String => true | _ => false end.

Definition compatible_for_write (self writer_schema : t) : res CompatError unit :=
  let? _ := ensure (bool_decide (data_type self = data_type writer_schema))
              (IncompatDataType (name self) (data_type writer_schema) (data_type self)) in
  let? _ := ensure (is_nullable self || negb (is_nullable writer_schema)) (NotNullable (name self)) in
  Ok tt.

Definition compatible_for_read (self source_schema : t) : res CompatError ReadOp :=
  if is_nullable self then
    if id self =? id source_schema then Ok Exact else Ok FillNull
  else
    let? _ := ensure ((id self =? id source_schema) && negb (is_nullable source_schema))
                (NotNullable (name source_schema)) in
    Ok Exact.

(** [column_schema::Builder::validate]. *)
Inductive BuildError := InvalidTagType (k : DatumKind.t) | InvalidDictionaryType (k : DatumKind.t).
Definition validate (self : t) : res BuildError unit :=
  let? _ := (if is_tag self
             then ensure (is_valid_tag_type (data_type self)) (InvalidTagType (data_type self))
             else Ok tt) in
  if is_dictionary self
  then ensure (is_valid_dictionary_type (data_type self)) (InvalidDictionaryType (data_type self))
  else Ok tt.
End ColumnSchema.

Abbreviation column := ColumnSchema.t.

(** ** [ColumnSchemas] *)

(** [contiguous::byte_size_of_datum]: the header byte and the fixed part. *)
Definition byte_size_of_datum (kind : DatumKind.t) : nat :=
  let datum_size :=
    match kind with
    | DatumKind.Null => 1
    | DatumKind.Timestamp => 8
    | DatumKind.Double => 8
    | DatumKind.Float => 4
    | DatumKind.Varbinary | DatumKind.String => 4
    | DatumKind.UInt64 => 8
    | DatumKind.UInt32 => 4
    | DatumKind.UInt16 => 2
    | DatumKind.UInt8 => 1
    | DatumKind.Int64 => 8
    | DatumKind.Int32 => 4
    | DatumKind.Int16 => 2
    | DatumKind.Int8 => 1
    | DatumKind.Boolean => 1
    | DatumKind.Date => 4
    | DatumKind.Time => 8
    end%nat in
  (datum_size + 1)%nat.

Record ColumnSchemas := MkColumnSchemas {
  cs_columns : list column;
  name_to_index : gmap string nat;
  cs_byte_offsets : list nat;
  cs_string_buffer_offset : nat
}.

(** [.enumerate().map(|(idx, c)| (name, idx)).collect()]: a later column of
    the same name replaces an earlier one. *)
Definition index_names (columns : list column) : gmap string nat :=
  foldl (fun m ic => <[ColumnSchema.name ic.2 := ic.1]> m) ∅ (zip (seq 0 (length columns)) columns).

(** The offset loop: the offset of each column, and the end of the last. *)
Fixpoint offsets_from (current_offset : nat) (columns : list column) : list nat * nat :=
  match columns with
  | [] => ([], current_offset)
  | c :: columns =>
      let '(os, last) :=
        offsets_from (current_offset + byte_size_of_datum (ColumnSchema.data_type c)) columns in
      (current_offset :: os, last)
  end.

Definition column_schemas_new (columns : list column) : ColumnSchemas :=
  let '(byte_offsets, current_offset) := offsets_from 0 columns in
  MkColumnSchemas columns (index_names columns) byte_offsets current_offset.

(** ** [Schema] *)
Definition TSID_COLUMN : string := "tsid".
Definition DEFAULT_SCHEMA_VERSION : Z := 1.

Record Schema := MkSchema {
  primary_key_indexes : list nat;
  timestamp_index : nat;
  tsid_index : option nat;
  column_schemas : ColumnSchemas;
  schema_version : Z
}.

Definition columns (s : Schema) : list column := cs_columns (column_schemas s).
Definition num_columns (s : Schema) : nat := length (columns s).
Definition index_of (s : Schema) (name : string) : option nat :=
  name_to_index (column_schemas s) !! name.
Definition byte_offsets (s : Schema) : list nat := cs_byte_offsets (column_schemas s).
Definition string_buffer_offset (s : Schema) : nat := cs_string_buffer_offset (column_schemas s).
Definition column_with_name (s : Schema) (name : string) : option column :=
  i ← index_of s name; columns s !! i.
Definition is_primary_key_index (s : Schema) (idx : nat) : bool :=
  bool_decide (idx ∈ primary_key_indexes s).

Definition enumerate {A} (l : list A) : list (nat * A) := zip (seq 0 (length l)) l.

Definition key_columns (s : Schema) : list column :=
  (filter (fun ic => ic.1 = timestamp_index s \/ ic.1 ∈ primary_key_indexes s)
     (enumerate (columns s))).*2.
Definition normal_columns (s : Schema) : list column :=
  (filter (fun ic => ic.1 <> timestamp_index s /\ ic.1 ∉ primary_key_indexes s)
     (enumerate (columns s))).*2.

Definition is_collapsible_column (s : Schema) (i : nat) : res unit bool :=
  if Nat.eqb (timestamp_index s) i then Ok true
  else
    let? c := unwrap (columns s !! i) in
    if ColumnSchema.is_tag c then Ok false
    else Ok (match tsid_index s with None => true | Some tsid_idx => negb (Nat.eqb tsid_idx i) end).

(** ** The schema builder *)
Inductive SchemaError :=
| ColumnNameExists (name : string)
| ColumnIdExists (name : string) (id : Z)
| KeyColumnType (name : string) (kind : DatumKind.t)
| TimestampKeyExists (given_column : string)
| TimestampNotInPrimaryKey
| NullKeyColumn (name : string)
| InvalidPrimaryKeyWithTsid.

Record Builder := MkBuilder {
  b_columns : list column;
  b_primary_key_indexes : list nat;
  b_timestamp_index : option nat;
  b_column_names : gset string;
  b_column_ids : gset Z;
  b_version : Z;
  b_auto_increment_column_id : bool;
  b_max_column_id : Z
}.

Definition builder_new : Builder :=
  MkBuilder [] [] None ∅ ∅ DEFAULT_SCHEMA_VERSION false ColumnSchema.COLUMN_ID_UNINIT.

Definition set_column_id (c : column) (id : Z) : column :=
  ColumnSchema.Mk id (ColumnSchema.name c) (ColumnSchema.data_type c) (ColumnSchema.is_nullable c)
    (ColumnSchema.is_tag c) (ColumnSchema.is_dictionary c) (ColumnSchema.comment c).

(** [max_column_id + 1] is a [u32] addition. *)
Definition may_alloc_column_id (b : Builder) (c : column) : res SchemaError (Builder * column) :=
  let? c :=
    if b_auto_increment_column_id b && (ColumnSchema.id c =? ColumnSchema.COLUMN_ID_UNINIT)
    then let? next := (if uintb 32 (b_max_column_id b + 1) then Ok (b_max_column_id b + 1) else Panic) in
         Ok (set_column_id c next)
    else Ok c in
  Ok (MkBuilder (b_columns b) (b_primary_key_indexes b) (b_timestamp_index b) (b_column_names b)
        (b_column_ids b) (b_version b) (b_auto_increment_column_id b)
        (Z.max (b_max_column_id b) (ColumnSchema.id c)), c).

Definition validate_column (b : Builder) (c : column) (is_key : bool) : res SchemaError unit :=
  let? _ := ensure (bool_decide (ColumnSchema.name c ∉ b_column_names b))
              (ColumnNameExists (ColumnSchema.name c)) in
  let? _ := (if is_key
             then ensure (DatumKind.is_key_kind (ColumnSchema.data_type c))
                    (KeyColumnType (ColumnSchema.name c) (ColumnSchema.data_type c))
             else Ok tt) in
  let? _ := ensure (bool_decide (ColumnSchema.id c ∉ b_column_ids b))
              (ColumnIdExists (ColumnSchema.name c) (ColumnSchema.id c)) in
  Ok tt.

Definition insert_new_column (b : Builder) (c : column) : Builder :=
  MkBuilder (b_columns b ++ [c]) (b_primary_key_indexes b) (b_timestamp_index b)
    ({[ColumnSchema.name c]} ∪ b_column_names b) ({[ColumnSchema.id c]} ∪ b_column_ids b)
    (b_version b) (b_auto_increment_column_id b) (b_max_column_id b).

Definition set_timestamp_index (b : Builder) (i : nat) : Builder :=
  MkBuilder (b_columns b) (b_primary_key_indexes b) (Some i) (b_column_names b) (b_column_ids b)
    (b_version b) (b_auto_increment_column_id b) (b_max_column_id b).

Definition push_primary_key (b : Builder) (i : nat) : Builder :=
  MkBuilder (b_columns b) (b_primary_key_indexes b ++ [i]) (b_timestamp_index b) (b_column_names b)
    (b_column_ids b) (b_version b) (b_auto_increment_column_id b) (b_max_column_id b).

Definition add_key_column (b : Builder) (c : column) : res SchemaError Builder :=
  let? (b, c) := may_alloc_column_id b c in
  let? _ := validate_column b c true in
  let? _ := ensure (negb (ColumnSchema.is_nullable c)) (NullKeyColumn (ColumnSchema.name c)) in
  let? b :=
    if bool_decide (DatumKind.Timestamp = ColumnSchema.data_type c) then
      let? _ := ensure (bool_decide (b_timestamp_index b = None))
                  (TimestampKeyExists (ColumnSchema.name c)) in
      Ok (set_timestamp_index b (length (b_columns b)))
    else Ok b in
  let b := push_primary_key b (length (b_columns b)) in
  Ok (insert_new_column b c).

Definition add_normal_column (b : Builder) (c : column) : res SchemaError Builder :=
  let? (b, c) := may_alloc_column_id b c in
  let? _ := validate_column b c false in
  Ok (insert_new_column b c).

Definition builder_version (b : Builder) (v : Z) : Builder :=
  MkBuilder (b_columns b) (b_primary_key_indexes b) (b_timestamp_index b) (b_column_names b)
    (b_column_ids b) v (b_auto_increment_column_id b) (b_max_column_id b).

Definition auto_increment_column_id (b : Builder) (auto : bool) : Builder :=
  MkBuilder (b_columns b) (b_primary_key_indexes b) (b_timestamp_index b) (b_column_names b)
    (b_column_ids b) (b_version b) auto (b_max_column_id b).

Fixpoint find_index_from (i : nat) (cols : list column) (name : string) : option nat :=
  match cols with
  | [] => None
  | c :: cols => if bool_decide (ColumnSchema.name c = name) then Some i else find_index_from (S i) cols name
  end.
Definition find_tsid_index (cols : list column) : option nat := find_index_from 0 cols TSID_COLUMN.

Definition build (b : Builder) : res SchemaError Schema :=
  let? timestamp_index := (match b_timestamp_index b with
                           | Some i => Ok i | None => Err TimestampNotInPrimaryKey end) in
  let? _ := rassert (negb (bool_decide (b_primary_key_indexes b = []))) in
  let tsid_index := find_tsid_index (b_columns b) in
  let? _ := (match tsid_index with
             | Some _ => ensure (Nat.eqb (length (b_primary_key_indexes b)) 2) InvalidPrimaryKeyWithTsid
             | None => Ok tt end) in
  Ok (MkSchema (b_primary_key_indexes b) timestamp_index tsid_index
        (column_schemas_new (b_columns b)) (b_version b)).

(** The builders that calls of the builder's methods reach. *)
Inductive built : Builder -> Prop :=
| built_new : built builder_new
| built_key b c b' : built b -> add_key_column b c = Ok b' -> built b'
| built_normal b c b' : built b -> add_normal_column b c = Ok b' -> built b'
| built_version b v : built b -> built (builder_version b v)
| built_auto b a : built b -> built (auto_increment_column_id b a).

(** ** Compatibility of a writer's schema *)
Inductive SchemaCompatError :=
| IncompatWriteColumn (source : ColumnSchema.CompatError)
| MissingWriteColumn (name : string)
| WriteMoreColumn (names : list string).

(** [IndexInWriterSchema]. *)
Abbreviation IndexInWriterSchema := (list (option nat)).
Definition for_same_schema (n : nat) : IndexInWriterSchema := map Some (seq 0 n).
Definition column_index_in_writer (idx : IndexInWriterSchema) (index_in_table : nat)
    : res unit (option nat) := unwrap (idx !! index_in_table).

(** The body of the loop over the table's columns: the mapping so far and
    the number of columns found in the writer. *)
Definition compat_step (writer : Schema) (st : IndexInWriterSchema * nat) (c : column)
    : res SchemaCompatError (IndexInWriterSchema * nat) :=
  let '(idx, n) := st in
  match index_of writer (ColumnSchema.name c) with
  | Some writer_index =>
      let? writer_column := unwrap (columns writer !! writer_index) in
      let? _ := rcontext IncompatWriteColumn (ColumnSchema.compatible_for_write c writer_column) in
      Ok (idx ++ [Some writer_index], S n)
  | None =>
      let? _ := ensure (ColumnSchema.is_nullable c) (MissingWriteColumn (ColumnSchema.name c)) in
      Ok (idx ++ [None], n)
  end.

Definition compatible_for_write (self writer : Schema) (index_in_writer : IndexInWriterSchema)
    : res SchemaCompatError IndexInWriterSchema :=
  let? (idx, num_col_in_writer) := rfold (compat_step writer) (columns self) (index_in_writer, 0%nat) in
  let? _ := ensure (Nat.eqb num_col_in_writer (num_columns writer))
              (WriteMoreColumn (ColumnSchema.name <$>
                 filter (fun c => column_with_name self (ColumnSchema.name c) = None) (columns writer))) in
  Ok idx.

(** ** Rows *)
Abbreviation row := (list Datum.t).

Inductive RowError :=
| ColumnOutOfBound (len given : nat)
| InvalidColumnNum (expect given : nat)
| NullColumn (column : string)
| TypeMismatch (column : string) (expect given : DatumKind.t)
| MissingColumns.

Definition check_datum_type (d : Datum.t) (c : column) : res RowError unit :=
  match d with
  | Datum.Null => ensure (ColumnSchema.is_nullable c) (NullColumn (ColumnSchema.name c))
  | _ => ensure (bool_decide (Datum.kind d = ColumnSchema.data_type c))
           (TypeMismatch (ColumnSchema.name c) (ColumnSchema.data_type c) (Datum.kind d))
  end.

Definition check_row_schema (r : row) (s : Schema) : res RowError unit :=
  let? _ := ensure (Nat.eqb (num_columns s) (length r)) (InvalidColumnNum (num_columns s) (length r)) in
  rfold (fun _ '(index, d) =>
           let? c := unwrap (columns s !! index) in
           check_datum_type d c) (enumerate r) tt.

(** [Row::timestamp]: the index panics when out of bound. *)
Definition row_timestamp {E} (s : Schema) (r : row) : res E (option Z) :=
  let? d := unwrap (r !! timestamp_index s) in
  Ok (Datum.as_timestamp d).
Definition row_size (r : row) : Z := foldr (fun d acc => Datum.size d + acc) 0 r.

Record RowGroup := MkRowGroup {
  rg_schema : Schema;
  rg_rows : list row;
  rg_min_timestamp : Z;
  rg_max_timestamp : Z
}.

Record RowGroupBuilder := MkRowGroupBuilder {
  rgb_schema : Schema;
  rgb_rows : list row;
  rgb_min_timestamp : option Z;
  rgb_max_timestamp : Z
}.

Definition row_group_builder_new (s : Schema) : RowGroupBuilder := MkRowGroupBuilder s [] None 0.

Definition update_timestamps {E} (b : RowGroupBuilder) (r : row) : res E RowGroupBuilder :=
  let? ts := row_timestamp (rgb_schema b) r in
  let? row_timestamp := unwrap ts in
  let min_timestamp := match rgb_min_timestamp b with
                       | Some m => Some (Z.min m row_timestamp)
                       | None => Some row_timestamp end in
  Ok (MkRowGroupBuilder (rgb_schema b) (rgb_rows b) min_timestamp
        (Z.max (rgb_max_timestamp b) row_timestamp)).

Definition with_rows (s : Schema) (rows : list row) : res RowError RowGroupBuilder :=
  let? b := rfold (fun b r => let? _ := check_row_schema r (rgb_schema b) in update_timestamps b r)
              rows (row_group_builder_new s) in
  Ok (MkRowGroupBuilder (rgb_schema b) rows (rgb_min_timestamp b) (rgb_max_timestamp b)).

Definition push_checked_row {E} (b : RowGroupBuilder) (r : row) : res E RowGroupBuilder :=
  let? b := update_timestamps b r in
  Ok (MkRowGroupBuilder (rgb_schema b) (rgb_rows b ++ [r]) (rgb_min_timestamp b) (rgb_max_timestamp b)).

Definition row_group_build (b : RowGroupBuilder) : RowGroup :=
  MkRowGroup (rgb_schema b) (rgb_rows b) (default 0 (rgb_min_timestamp b)) (rgb_max_timestamp b).

(** [RowBuilder]: the datums appended so far, checked one by one. *)
Definition check_datum (b : RowGroupBuilder) (cols : row) (d : Datum.t) : res RowError unit :=
  let index := length cols in
  let s := rgb_schema b in
  let? _ := ensure (Nat.ltb index (num_columns s)) (ColumnOutOfBound (num_columns s) index) in
  let? c := unwrap (columns s !! index) in
  check_datum_type d c.
Definition append_datum (b : RowGroupBuilder) (cols : row) (d : Datum.t) : res RowError row :=
  let? _ := check_datum b cols d in Ok (cols ++ [d]).
Definition row_builder_finish (b : RowGroupBuilder) (cols : row) : res RowError RowGroupBuilder :=
  let? _ := ensure (Nat.eqb (length cols) (num_columns (rgb_schema b))) MissingColumns in
  push_checked_row b cols.

(** [RowGroupSlicer::iter]: [rows[start..end]], which panics out of range. *)
Definition slice_rows {A E} (rows : list A) (start stop : nat) : res E (list A) :=
  if (start <=? stop)%nat && (stop <=? length rows)%nat
  then Ok (take (stop - start) (drop start rows)) else Panic.

(** [compare_row]: the key columns in order; [partial_cmp(..).unwrap()]. *)
Fixpoint compare_row (primary_key_idx : list nat) (lhs rhs : row) : res unit comparison :=
  match primary_key_idx with
  | [] => Ok Eq
  | column_idx :: rest =>
      let? left_datum := unwrap (lhs !! column_idx) in
      let? right_datum := unwrap (rhs !! column_idx) in
      let? c := unwrap (Datum.partial_cmp left_datum right_datum) in
      match c with
      | Eq => compare_row rest lhs rhs
      | v => Ok v
      end
  end.

(** ** Lemmas on the maps of a schema *)
Lemma enumerate_app {A} (l : list A) x : enumerate (l ++ [x]) = enumerate l ++ [(length l, x)].
Proof.
  unfold enumerate. rewrite length_app, Nat.add_1_r, seq_S, zip_with_app by by rewrite length_seq.
  done.
Qed.

Lemma index_names_app cols c :
  index_names (cols ++ [c]) = <[ColumnSchema.name c := length cols]> (index_names cols).
Proof.
  unfold index_names. fold (enumerate (cols ++ [c])) (enumerate cols).
  by rewrite enumerate_app, foldl_app.
Qed.

Lemma index_names_sound cols name i :
  index_names cols !! name = Some i -> exists c, cols !! i = Some c /\ ColumnSchema.name c = name.
Proof.
  induction cols as [|c cols IH] using rev_ind; [done|].
  rewrite index_names_app. destruct (decide (ColumnSchema.name c = name)) as [<-|Hne].
  - rewrite lookup_insert_eq. intros [= <-]. exists c.
    by rewrite lookup_app_r, Nat.sub_diag by lia.
  - rewrite lookup_insert_ne by done. intros H. destruct (IH H) as (d & Hd & Hn).
    exists d. split; [|done]. by apply lookup_app_l_Some.
Qed.

Lemma index_names_complete cols i c :
  NoDup (ColumnSchema.name <$> cols) -> cols !! i = Some c ->
  index_names cols !! ColumnSchema.name c = Some i.
Proof.
  induction cols as [|d cols IH] using rev_ind; [done|].
  rewrite fmap_app, index_names_app, NoDup_app. intros (Hnd & Hdis & _) Hi.
  destruct (decide (i < length cols)%nat) as [Hlt|Hge].
  - rewrite lookup_app_l in Hi by done. rewrite lookup_insert_ne; [by apply IH|].
    intros Heq. apply (Hdis (ColumnSchema.name c)).
    + apply list_elem_of_fmap. exists c. split; [done|]. by eapply list_elem_of_lookup_2.
    + rewrite <- Heq. simpl. set_solver.
  - rewrite lookup_app_r in Hi by lia.
    destruct (i - length cols)%nat as [|k] eqn:E; [|destruct k; done]. injection Hi as ->.
    rewrite lookup_insert_eq. f_equal. lia.
Qed.

Lemma index_names_none cols name :
  index_names cols !! name = None -> name ∉ (ColumnSchema.name <$> cols).
Proof.
  induction cols as [|c cols IH] using rev_ind; [intros _; apply not_elem_of_nil|].
  rewrite index_names_app, fmap_app. destruct (decide (ColumnSchema.name c = name)) as [<-|Hne].
  - by rewrite lookup_insert_eq.
  - rewrite lookup_insert_ne by done. intros H. set_solver.
Qed.

(** ** Well-formed schemas *)
Definition key_column_at (cols : list column) (i : nat) : Prop :=
  exists c, cols !! i = Some c /\ DatumKind.is_key_kind (ColumnSchema.data_type c) = true /\
            ColumnSchema.is_nullable c = false.

Definition is_timestamp_at (cols : list column) (i : nat) : Prop :=
  exists c, cols !! i = Some c /\ ColumnSchema.data_type c = DatumKind.Timestamp.

(** What [Builder::build] promises of a schema. *)
Record schema_wf (s : Schema) : Prop := {
  wf_ids : NoDup (ColumnSchema.id <$> columns s);
  wf_names : NoDup (ColumnSchema.name <$> columns s);
  wf_index_of name i :
    index_of s name = Some i <-> exists c, columns s !! i = Some c /\ ColumnSchema.name c = name;
  wf_offsets : offsets_from 0 (columns s) = (byte_offsets s, string_buffer_offset s);
  wf_keys_sorted : StronglySorted lt (primary_key_indexes s);
  wf_keys i : i ∈ primary_key_indexes s -> key_column_at (columns s) i;
  wf_timestamp i :
    i = timestamp_index s <-> i ∈ primary_key_indexes s /\ is_timestamp_at (columns s) i;
  wf_tsid : match tsid_index s with
            | Some i => length (primary_key_indexes s) = 2%nat /\
                        ColumnSchema.name <$> columns s !! i = Some TSID_COLUMN
            | None => TSID_COLUMN ∉ (ColumnSchema.name <$> columns s)
            end
}.

(** The invariant of the builder. *)
Record builder_wf (b : Builder) : Prop := {
  bwf_name_set : b_column_names b = list_to_set (ColumnSchema.name <$> b_columns b);
  bwf_id_set : b_column_ids b = list_to_set (ColumnSchema.id <$> b_columns b);
  bwf_names : NoDup (ColumnSchema.name <$> b_columns b);
  bwf_ids : NoDup (ColumnSchema.id <$> b_columns b);
  bwf_keys_sorted : StronglySorted lt (b_primary_key_indexes b);
  bwf_keys i : i ∈ b_primary_key_indexes b -> key_column_at (b_columns b) i;
  bwf_timestamp i :
    b_timestamp_index b = Some i <->
    i ∈ b_primary_key_indexes b /\ is_timestamp_at (b_columns b) i
}.

Lemma StronglySorted_lt_snoc l (n : nat) :
  StronglySorted lt l -> (forall i, i ∈ l -> (i < n)%nat) -> StronglySorted lt (l ++ [n]).
Proof.
  induction 1 as [|i l Hl IH Hi]; intros H; simpl; [repeat constructor|].
  constructor.
  - apply IH. intros j Hj. apply H. by apply list_elem_of_further.
  - apply Forall_app. split; [done|]. constructor; [|done]. apply H. by apply list_elem_of_here.
Qed.

Lemma may_alloc_spec b c b' c' :
  may_alloc_column_id b c = Ok (b', c') ->
  builder_wf b ->
  builder_wf b' /\ b_columns b' = b_columns b /\
  b_primary_key_indexes b' = b_primary_key_indexes b /\ b_timestamp_index b' = b_timestamp_index b /\
  ColumnSchema.name c' = ColumnSchema.name c /\ ColumnSchema.data_type c' = ColumnSchema.data_type c /\
  ColumnSchema.is_nullable c' = ColumnSchema.is_nullable c.
Proof.
  unfold may_alloc_column_id. intros H [].
  destruct (_ && _); [destruct (uintb _ _)|]; simpl in H; try done; injection H as <- <-;
    (split; [constructor; done|done]).
Qed.

Lemma validate_column_fresh b c k :
  builder_wf b -> validate_column b c k = Ok tt ->
  ColumnSchema.name c ∉ (ColumnSchema.name <$> b_columns b) /\
  ColumnSchema.id c ∉ (ColumnSchema.id <$> b_columns b) /\
  (k = true -> DatumKind.is_key_kind (ColumnSchema.data_type c) = true).
Proof.
  intros Hwf H. unfold validate_column in H. inv_ok.
  rewrite (bwf_name_set _ Hwf) in *. rewrite (bwf_id_set _ Hwf) in *.
  rewrite !elem_of_list_to_set in *. split_and!; try done.
  intros ->. inv_ok. done.
Qed.

Lemma key_column_at_app cols c i : key_column_at cols i -> key_column_at (cols ++ [c]) i.
Proof. intros (d & Hd & H). exists d. split; [by apply lookup_app_l_Some|done]. Qed.

Lemma lookup_snoc_inv {A} (l : list A) x i y :
  (l ++ [x]) !! i = Some y -> (l !! i = Some y) \/ (i = length l /\ y = x).
Proof.
  intros H. apply lookup_app_Some in H as [H|[Hi H]]; [by left|]. right.
  destruct (i - length l)%nat as [|k] eqn:E; [|by destruct k]. injection H as ->. split; [lia|done].
Qed.

Lemma is_timestamp_at_app cols c i :
  (i < length cols)%nat -> is_timestamp_at (cols ++ [c]) i <-> is_timestamp_at cols i.
Proof. intros H. unfold is_timestamp_at. by rewrite lookup_app_l. Qed.

Lemma is_timestamp_at_last cols c :
  is_timestamp_at (cols ++ [c]) (length cols) <-> ColumnSchema.data_type c = DatumKind.Timestamp.
Proof.
  unfold is_timestamp_at. rewrite list_lookup_middle by done.
  split; [intros (d & [= <-] & H); done|eauto].
Qed.

Lemma key_indexes_bound b i :
  builder_wf b -> i ∈ b_primary_key_indexes b -> (i < length (b_columns b))%nat.
Proof. intros Hwf Hi. destruct (bwf_keys _ Hwf i Hi) as (c & Hc & _). by eapply lookup_lt_Some. Qed.

(** Adding a fresh normal column keeps the invariant. *)
Lemma insert_new_column_wf b c :
  builder_wf b ->
  ColumnSchema.name c ∉ (ColumnSchema.name <$> b_columns b) ->
  ColumnSchema.id c ∉ (ColumnSchema.id <$> b_columns b) ->
  builder_wf (insert_new_column b c).
Proof.
  intros Hwf Hn Hi. split; simpl; rewrite ?fmap_app; simpl.
  - rewrite (bwf_name_set _ Hwf), list_to_set_app_L. set_solver.
  - rewrite (bwf_id_set _ Hwf), list_to_set_app_L. set_solver.
  - apply NoDup_app. split_and!; [apply Hwf|set_solver|apply NoDup_singleton].
  - apply NoDup_app. split_and!; [apply Hwf|set_solver|apply NoDup_singleton].
  - apply Hwf.
  - intros i Hk. by apply key_column_at_app, Hwf.
  - intros i. rewrite (bwf_timestamp _ Hwf). split.
    + intros [Hk Ht]. split; [done|]. apply is_timestamp_at_app; [by apply key_indexes_bound|done].
    + intros [Hk Ht]. split; [done|]. apply is_timestamp_at_app in Ht; [done|by apply key_indexes_bound].
Qed.

Lemma push_primary_key_wf b c (ts : bool) :
  builder_wf b ->
  ColumnSchema.name c ∉ (ColumnSchema.name <$> b_columns b) ->
  ColumnSchema.id c ∉ (ColumnSchema.id <$> b_columns b) ->
  DatumKind.is_key_kind (ColumnSchema.data_type c) = true -> ColumnSchema.is_nullable c = false ->
  (if ts then ColumnSchema.data_type c = DatumKind.Timestamp /\ b_timestamp_index b = None
   else ColumnSchema.data_type c <> DatumKind.Timestamp) ->
  let b1 := if ts then set_timestamp_index b (length (b_columns b)) else b in
  builder_wf (insert_new_column (push_primary_key b1 (length (b_columns b))) c).
Proof.
  intros Hwf Hn Hi Hk Hnull Hts b1.
  assert (builder_wf (insert_new_column b c)) as Hwf' by by apply insert_new_column_wf.
  assert (b_columns b1 = b_columns b /\ b_column_names b1 = b_column_names b /\
          b_column_ids b1 = b_column_ids b /\ b_primary_key_indexes b1 = b_primary_key_indexes b)
    as (E1 & E2 & E3 & E4) by by destruct ts.
  destruct Hwf' as [W1 W2 W3 W4 W5 W6 W7]. simpl in *.
  split; simpl; rewrite ?E1, ?E2, ?E3, ?E4; try done.
  - apply StronglySorted_lt_snoc; [apply Hwf|]. intros i. by apply key_indexes_bound.
  - intros i [Hi'|Hi']%elem_of_app; [by apply W6|].
    apply list_elem_of_singleton in Hi' as ->. exists c. by rewrite list_lookup_middle.
  - intros i. rewrite elem_of_app, list_elem_of_singleton. destruct ts; simpl in *.
    + destruct Hts as [Hts Hnone]. split.
      * intros [= <-]. split; [by right|]. by apply is_timestamp_at_last.
      * intros [[Hin| ->] Ht]; [|done]. exfalso.
        assert (b_timestamp_index b = Some i); [|congruence]. by apply W7.
    + subst b1. rewrite W7. split; [naive_solver|]. intros [[Hin| ->] Ht]; [done|].
      by apply is_timestamp_at_last in Ht.
Qed.

Lemma add_key_column_wf b c b' : builder_wf b -> add_key_column b c = Ok b' -> builder_wf b'.
Proof.
  intros Hwf H. unfold add_key_column in H. inv_ok. destruct x as [b1 c1]. inv_ok.
  destruct (may_alloc_spec _ _ _ _ H Hwf) as (Hwf1 & _ & _ & _ & _ & _ & _).
  destruct x; destruct (validate_column_fresh _ _ _ Hwf1 H0) as (Hn & Hi & Hk).
  apply negb_true_iff in Heqb0. case_bool_decide as Hts; inv_ok.
  - by apply (push_primary_key_wf b1 c1 true); auto.
  - apply (push_primary_key_wf x1 c1 false); auto.
Qed.

Lemma built_wf b : built b -> builder_wf b.
Proof.
  induction 1 as [|b c b' _ IH H|b c b' _ IH H|b v _ IH|b a _ IH].
  - split; simpl; try done; [constructor|constructor|constructor|set_solver|].
    intros i. split; [done|]. set_solver.
  - by eapply add_key_column_wf.
  - unfold add_normal_column in H. inv_ok. destruct x as [b1 c1]. inv_ok.
    destruct (may_alloc_spec _ _ _ _ H IH) as (Hwf1 & _).
    destruct x; destruct (validate_column_fresh _ _ _ Hwf1 H0) as (Hn & Hi & _).
    by apply insert_new_column_wf.
  - destruct IH. by split.
  - destruct IH. by split.
Qed.

Lemma find_index_from_spec k cols name :
  match find_index_from k cols name with
  | Some i => (k <= i)%nat /\ ColumnSchema.name <$> cols !! (i - k)%nat = Some name
  | None => name ∉ (ColumnSchema.name <$> cols)
  end.
Proof.
  revert k. induction cols as [|c cols IH]; intros k; simpl; [apply not_elem_of_nil|].
  case_bool_decide as Hn.
  - split; [lia|]. rewrite Nat.sub_diag. simpl. congruence.
  - specialize (IH (S k)). destruct (find_index_from _ _ _) as [i|].
    + destruct IH as [Hle H]. split; [lia|]. by replace (i - k)%nat with (S (i - S k)) by lia.
    + set_solver.
Qed.

Lemma columns_of_new cols : cs_columns (column_schemas_new cols) = cols.
Proof. unfold column_schemas_new. by destruct (offsets_from 0 cols). Qed.

Lemma names_of_new cols : name_to_index (column_schemas_new cols) = index_names cols.
Proof. unfold column_schemas_new. by destruct (offsets_from 0 cols). Qed.

Lemma built_schema_wf_aux b s : builder_wf b -> build b = Ok s -> schema_wf s.
Proof.
  intros Hwf H. unfold build in H.
  destruct (b_timestamp_index b) as [ti|] eqn:Hti; [|done]. simpl in H. inv_ok.
  pose proof (find_index_from_spec 0 (b_columns b) TSID_COLUMN) as Hts.
  split; unfold columns, index_of, byte_offsets, string_buffer_offset; simpl;
    rewrite ?columns_of_new, ?names_of_new; try apply Hwf.
  - intros name i. split; [apply index_names_sound|].
    intros (c & Hc & <-). by apply index_names_complete; [apply Hwf|].
  - unfold column_schemas_new. by destruct (offsets_from 0 (b_columns b)).
  - intros i. rewrite <- (bwf_timestamp _ Hwf i), Hti. naive_solver.
  - unfold find_tsid_index in *. destruct (find_index_from _ _ _) as [i|]; [|done].
    rewrite Nat.sub_0_r in Hts. inv_ok. split; [by apply Nat.eqb_eq|apply Hts].
Qed.

(** ** The mapping between a table and a writer *)

(** Where the value of a table's column comes from: the writer's column of
    the same name, of the same kind and nullable only if the table's is, or,
    for a nullable column the writer does not have, nowhere. *)
Definition column_source (writer : Schema) (c : column) (o : option nat) : Prop :=
  match o with
  | Some j => exists w, columns writer !! j = Some w /\
      ColumnSchema.name w = ColumnSchema.name c /\
      ColumnSchema.data_type w = ColumnSchema.data_type c /\
      (ColumnSchema.is_nullable c = true \/ ColumnSchema.is_nullable w = false)
  | None => ColumnSchema.is_nullable c = true /\
      ColumnSchema.name c ∉ (ColumnSchema.name <$> columns writer)
  end.

Record index_mapping (self writer : Schema) (idx : IndexInWriterSchema) : Prop := {
  im_sources : Forall2 (column_source writer) (columns self) idx;
  im_all_used j : (j < num_columns writer)%nat -> Some j ∈ idx
}.

Lemma index_of_none s name :
  schema_wf s -> index_of s name = None <-> name ∉ (ColumnSchema.name <$> columns s).
Proof.
  intros Hwf. split.
  - intros H (c & -> & Hc)%list_elem_of_fmap. apply list_elem_of_lookup_1 in Hc as [i Hi].
    assert (index_of s (ColumnSchema.name c) = Some i) by (apply Hwf; eauto). congruence.
  - intros H. destruct (index_of s name) as [i|] eqn:E; [|done].
    apply Hwf in E as (c & Hc & <-). destruct H. apply list_elem_of_fmap.
    exists c. split; [done|]. by eapply list_elem_of_lookup_2.
Qed.

Lemma column_source_index_of writer c o :
  schema_wf writer -> column_source writer c o -> index_of writer (ColumnSchema.name c) = o.
Proof.
  intros Hwf. destruct o as [j|]; simpl.
  - intros (w & Hw & Hn & _). apply Hwf. eauto.
  - intros [_ H]. by apply index_of_none.
Qed.

Lemma compat_step_spec writer idx n c st :
  schema_wf writer ->
  compat_step writer (idx, n) c = Ok st <->
  exists o, column_source writer c o /\ st = (idx ++ [o], match o with Some _ => S n | None => n end).
Proof.
  intros Hwf. unfold compat_step. split.
  - destruct (index_of writer (ColumnSchema.name c)) as [j|] eqn:E; intros H.
    + apply Hwf in E as (w & Hw & Hn). rewrite Hw in H. simpl in H. inv_ok.
      unfold ColumnSchema.compatible_for_write in *. inv_ok.
      exists (Some j). split; [|done].
      exists w. destruct (ColumnSchema.is_nullable c), (ColumnSchema.is_nullable w); naive_solver.
    + inv_ok. exists None. split; [|done]. split; [done|]. by apply index_of_none.
  - intros (o & Ho & ->). rewrite (column_source_index_of _ _ _ Hwf Ho).
    destruct o as [j|]; simpl in Ho.
    + destruct Ho as (w & Hw & _ & Hk & Hnull). rewrite Hw. simpl.
      unfold ColumnSchema.compatible_for_write, ensure.
      rewrite bool_decide_eq_true_2 by done. simpl.
      destruct Hnull as [-> | ->]; [done|]. by rewrite orb_true_r.
    + destruct Ho as [-> _]. done.
Qed.

Lemma omap_id_cons (o : option nat) os :
  length (omap id (o :: os)) =
  (match o with Some _ => 1 | None => 0 end + length (omap id os))%nat.
Proof. by destruct o. Qed.

Lemma compat_fold_spec writer cols idx n st :
  schema_wf writer ->
  rfold (compat_step writer) cols (idx, n) = Ok st <->
  exists os, Forall2 (column_source writer) cols os /\
             st = (idx ++ os, (n + length (omap id os))%nat).
Proof.
  intros Hwf. revert idx n. induction cols as [|c cols IH]; intros idx n; simpl.
  - split.
    + intros [= <-]. exists []. split; [constructor|]. by rewrite app_nil_r, Nat.add_0_r.
    + intros (os & Ho & ->). inversion Ho; subst. by rewrite app_nil_r, Nat.add_0_r.
  - rewrite rbind_ok. split.
    + intros ([idx1 n1] & H1 & H2). apply compat_step_spec in H1 as (o & Ho & [= -> ->]); [|done].
      apply IH in H2 as (os & Hos & ->). exists (o :: os). split; [by constructor|].
      rewrite <- app_assoc, omap_id_cons. simpl. f_equal. destruct o; lia.
    + intros (os & Ho & ->). inversion Ho as [|? o ? os' Ho' Hos]; subst.
      exists (idx ++ [o], match o with Some _ => S n | None => n end). split.
      * apply compat_step_spec; [done|]. eauto.
      * apply IH. exists os'. split; [done|]. rewrite <- app_assoc, omap_id_cons. simpl. f_equal.
        destruct o; lia.
Qed.

(** Distinct columns of the table come from distinct columns of the writer. *)
Lemma sources_nodup writer cols os :
  schema_wf writer -> NoDup (ColumnSchema.name <$> cols) ->
  Forall2 (column_source writer) cols os -> NoDup (omap id os).
Proof.
  intros Hwf Hnd H. induction H as [|c o cols os Ho Hos IH]; simpl in *; [constructor|].
  apply NoDup_cons in Hnd as [Hc Hnd]. specialize (IH Hnd).
  destruct o as [j|]; simpl; [|done]. apply NoDup_cons. split; [|done].
  intros (o & Hin & Ho')%list_elem_of_omap. simpl in Ho'. subst o.
  apply list_elem_of_lookup_1 in Hin as [i Hi].
  destruct (Forall2_lookup_r _ _ _ _ _ Hos Hi) as (c' & Hc' & (w' & Hw' & Hn' & _)).
  destruct Ho as (w & Hw & Hn & _). apply Hc.
  assert (w = w') as -> by congruence. rewrite <- Hn, Hn'.
  apply list_elem_of_fmap. exists c'. split; [done|]. by eapply list_elem_of_lookup_2.
Qed.

Lemma omap_id_elem (os : list (option nat)) j : j ∈ omap id os <-> Some j ∈ os.
Proof.
  rewrite list_elem_of_omap. split; [intros (o & Ho & Hj); simpl in Hj; congruence|eauto].
Qed.

(** A duplicate-free list of numbers below [n] has length [n] iff it has
    all of them. *)
Lemma nodup_covers (l : list nat) n :
  NoDup l -> (forall j, j ∈ l -> (j < n)%nat) ->
  length l = n <-> (forall j, (j < n)%nat -> j ∈ l).
Proof.
  intros Hnd Hlt.
  assert (l ⊆+ seq 0 n) as Hsub.
  { apply NoDup_submseteq; [done|]. intros j Hj. apply elem_of_seq. specialize (Hlt j Hj). lia. }
  split.
  - intros Hlen j Hj. assert (l ≡ₚ seq 0 n) as ->; [|apply elem_of_seq; lia].
    apply submseteq_length_Permutation; [done|]. rewrite length_seq. lia.
  - intros Hall. apply submseteq_length in Hsub. rewrite length_seq in Hsub.
    assert (seq 0 n ⊆+ l) as Hsub'.
    { apply NoDup_submseteq; [apply NoDup_seq|]. intros j Hj%elem_of_seq. apply Hall. lia. }
    apply submseteq_length in Hsub'. rewrite length_seq in Hsub'. lia.
Qed.

Lemma sources_bound writer cols os j :
  Forall2 (column_source writer) cols os -> Some j ∈ os -> (j < num_columns writer)%nat.
Proof.
  intros H Hj. apply list_elem_of_lookup_1 in Hj as [i Hi].
  destruct (Forall2_lookup_r _ _ _ _ _ H Hi) as (c & _ & (w & Hw & _)). by eapply lookup_lt_Some.
Qed.

Lemma compatible_for_write_iff self writer idx :
  schema_wf self -> schema_wf writer ->
  compatible_for_write self writer [] = Ok idx <-> index_mapping self writer idx.
Proof.
  intros Hs Hw. unfold compatible_for_write. rewrite rbind_ok.
  assert (forall os, Forall2 (column_source writer) (columns self) os ->
    length (omap id os) = num_columns writer <->
    (forall j, (j < num_columns writer)%nat -> Some j ∈ os)) as Hcov.
  { intros os Hos. rewrite nodup_covers.
    - by setoid_rewrite omap_id_elem.
    - eapply sources_nodup; [done|apply Hs|done].
    - intros j Hj%omap_id_elem. by eapply sources_bound. }
  split.
  - intros ([os n] & Hf & H). apply compat_fold_spec in Hf as (os' & Hos & [= -> ->]); [|done].
    simpl in *. inv_ok. apply Nat.eqb_eq in Heqb. split; [done|]. by apply Hcov.
  - intros [Hos Hall]. exists (idx, length (omap id idx)). split.
    + apply compat_fold_spec; [done|]. exists idx. done.
    + unfold ensure. rewrite (proj2 (Nat.eqb_eq _ _)); [done|]. by apply Hcov.
Qed.

(** ** Rows that fit a schema *)
Definition datum_fits (d : Datum.t) (c : column) : Prop :=
  if Datum.is_null d then ColumnSchema.is_nullable c = true
  else Datum.kind d = ColumnSchema.data_type c.

Definition row_ok (s : Schema) (r : row) : Prop := Forall2 datum_fits r (columns s).

Lemma check_datum_type_ok d c : check_datum_type d c = Ok tt <-> datum_fits d c.
Proof.
  unfold datum_fits. destruct d; cbn [check_datum_type Datum.is_null]; unfold ensure;
    try case_bool_decide; try destruct (ColumnSchema.is_nullable c); naive_solver.
Qed.

(** The check of one datum never unwinds. *)
Lemma check_datum_type_total d c : no_panic (check_datum_type d c).
Proof. unfold no_panic. destruct d; cbn [check_datum_type]; unfold ensure; by case_match. Qed.

Lemma check_row_fold_aux (cols : list column) k (r : row) :
  rfold (fun _ '(index, d) =>
           let? c := unwrap (cols !! index) in check_datum_type d c) (zip (seq k (length r)) r) tt = Ok tt
  <-> forall i d, r !! i = Some d -> exists c, cols !! (k + i)%nat = Some c /\ datum_fits d c.
Proof.
  revert k. induction r as [|d r IH]; intros k; simpl; [naive_solver|].
  rewrite rbind_ok. split.
  - intros ([] & Hd & Hr) [|i] d' Hi; simpl in Hi.
    + injection Hi as <-. rewrite Nat.add_0_r. destruct (cols !! k) as [c|]; [|done].
      exists c. split; [done|]. by apply check_datum_type_ok.
    + replace (k + S i)%nat with (S k + i)%nat by lia. by apply (proj1 (IH (S k)) Hr).
  - intros H. exists tt. split.
    + destruct (H 0%nat d eq_refl) as (c & Hc & Hd). rewrite Nat.add_0_r in Hc. rewrite Hc. simpl.
      by apply check_datum_type_ok.
    + apply IH. intros i d' Hi. replace (S k + i)%nat with (k + S i)%nat by lia. by apply H.
Qed.

(** [check_row_schema] accepts exactly the rows that fit. *)
Lemma check_row_schema_ok s r : check_row_schema r s = Ok tt <-> row_ok s r.
Proof.
  unfold check_row_schema, row_ok, num_columns. rewrite rbind_ok. split.
  - intros ([] & Hlen & H). inv_ok. apply Nat.eqb_eq in Heqb.
    apply Forall2_same_length_lookup. split; [done|]. intros i d c Hd Hc.
    destruct (proj1 (check_row_fold_aux _ _ _) H i d Hd) as (c' & Hc' & Hfit).
    simpl in Hc'. congruence.
  - intros H. exists tt. pose proof (Forall2_length _ _ _ H) as Hlen.
    unfold ensure. rewrite (proj2 (Nat.eqb_eq _ _)) by done. split; [done|].
    apply check_row_fold_aux. intros i d Hd. simpl.
    destruct (Forall2_lookup_l _ _ _ _ _ H Hd) as (c & Hc & Hfit). eauto.
Qed.

Lemma check_row_fold_total (cols : list column) k (r : row) :
  (k + length r <= length cols)%nat ->
  no_panic (rfold (fun _ '(index, d) =>
    let? c := unwrap (cols !! index) in check_datum_type d c) (zip (seq k (length r)) r) tt).
Proof.
  revert k. induction r as [|d r IH]; intros k Hk; [done|]. cbn [length seq zip zip_with rfold] in *.
  destruct (lookup_lt_is_Some_2 cols k) as [c ->]; [lia|]. cbn [unwrap rbind].
  pose proof (check_datum_type_total d c). destruct (check_datum_type d c) as [[]| |]; try done.
  apply IH. lia.
Qed.

Lemma check_row_schema_total r s : no_panic (check_row_schema r s).
Proof.
  unfold check_row_schema, ensure, num_columns. destruct (Nat.eqb_spec (length (columns s)) (length r)); [|done].
  apply check_row_fold_total. lia.
Qed.

(** The row of the table that a writer's row stands for. *)
Definition table_datum (r : row) (o : option nat) : Datum.t :=
  match o with Some j => default Datum.Null (r !! j) | None => Datum.Null end.
Definition table_row (idx : IndexInWriterSchema) (r : row) : row := table_datum r <$> idx.

(** A row that fits a compatible writer fits the table. *)
Lemma table_row_ok self writer idx r :
  index_mapping self writer idx -> row_ok writer r -> row_ok self (table_row idx r).
Proof.
  intros [Hsrc _] Hr. unfold row_ok, table_row. apply Forall2_fmap_l.
  apply Forall2_flip. eapply Forall2_impl; [exact Hsrc|]. intros c [j|]; simpl.
  - intros (w & Hw & _ & Hk & Hnull).
    destruct (Forall2_lookup_r _ _ _ _ _ Hr Hw) as (d & Hd & Hfit). rewrite Hd. simpl.
    unfold datum_fits in *. destruct (Datum.is_null d); [destruct Hnull; congruence|congruence].
  - intros [Hn _]. done.
Qed.

Lemma table_row_datums_ok idx r : Forall Datum.ok r -> Forall Datum.ok (table_row idx r).
Proof.
  intros Hr. apply Forall_fmap, Forall_forall. intros [j|] _; simpl; [|done].
  destruct (r !! j) as [d|] eqn:E; simpl; [|done].
  by eapply (Forall_lookup_1 Datum.ok r).
Qed.

(** A fitting row has a timestamp. *)
Lemma row_ok_timestamp s r :
  schema_wf s -> row_ok s r -> exists ts, r !! timestamp_index s = Some (Datum.Timestamp ts).
Proof.
  intros Hwf Hr. destruct (proj1 (wf_timestamp _ Hwf _) eq_refl) as [Hin (c & Hc & Hk)].
  destruct (wf_keys _ Hwf _ Hin) as (c' & Hc' & _ & Hnull). simplify_eq.
  destruct (Forall2_lookup_r _ _ _ _ _ Hr Hc) as (d & Hd & Hfit).
  unfold datum_fits in Hfit. rewrite Hnull, Hk in Hfit. destruct d; try done. eauto.
Qed.

Definition timestamp_of (s : Schema) (r : row) : Z :=
  match r !! timestamp_index s with Some (Datum.Timestamp ts) => ts | _ => 0 end.

Lemma update_timestamps_ok {E} b r :
  schema_wf (rgb_schema b) -> row_ok (rgb_schema b) r ->
  @update_timestamps E b r =
  Ok (MkRowGroupBuilder (rgb_schema b) (rgb_rows b)
        (Some (match rgb_min_timestamp b with
               | Some m => Z.min m (timestamp_of (rgb_schema b) r)
               | None => timestamp_of (rgb_schema b) r end))
        (Z.max (rgb_max_timestamp b) (timestamp_of (rgb_schema b) r))).
Proof.
  intros Hwf Hr. destruct (row_ok_timestamp _ _ Hwf Hr) as [ts Hts].
  unfold update_timestamps, row_timestamp, timestamp_of. rewrite Hts. simpl.
  by destruct (rgb_min_timestamp b).
Qed.

Lemma with_rows_fold s rows mn mx :
  schema_wf s -> Forall (row_ok s) rows ->
  rfold (fun b r => let? _ := check_row_schema r (rgb_schema b) in update_timestamps b r)
    rows (MkRowGroupBuilder s [] mn mx)
  = Ok (MkRowGroupBuilder s []
          (foldl (fun m r => Some (match m with
                                   | Some m => Z.min m (timestamp_of s r)
                                   | None => timestamp_of s r end)) mn rows)
          (foldl (fun m r => Z.max m (timestamp_of s r)) mx rows)).
Proof.
  intros Hwf H. revert mn mx. induction H as [|r rows Hr _ IH]; intros mn mx; cbn [rfold]; [done|].
  cbn [rgb_schema]. rewrite (proj2 (check_row_schema_ok s r) Hr). cbn [rbind].
  rewrite update_timestamps_ok by done. cbn [rbind rgb_schema rgb_rows rgb_min_timestamp rgb_max_timestamp].
  by rewrite IH.
Qed.

Lemma with_rows_total s rows : schema_wf s -> no_panic (with_rows s rows).
Proof.
  intros Hwf. unfold with_rows, row_group_builder_new.
  assert (forall mn mx, no_panic (rfold
    (fun b r => let? _ := check_row_schema r (rgb_schema b) in update_timestamps b r)
    rows (MkRowGroupBuilder s [] mn mx) : res RowError _)) as H.
  { induction rows as [|r rows IH]; intros mn mx; [done|]. cbn [rfold rgb_schema].
    pose proof (check_row_schema_total r s). destruct (check_row_schema r s) as [[]| |] eqn:E; try done.
    apply check_row_schema_ok in E. cbn [rbind]. rewrite update_timestamps_ok by done. apply IH. }
  specialize (H None 0). by destruct (rfold _ rows _).
Qed.

(** The converse: a row group is only built from rows that fit. *)
Lemma with_rows_ok_inv s rows b :
  with_rows s rows = Ok b -> Forall (row_ok s) rows /\ rgb_rows b = rows /\ rgb_schema b = s.
Proof.
  unfold with_rows. intros H. inv_ok.
  assert (forall b0, rgb_schema b0 = s ->
    rfold (fun b r => let? _ := check_row_schema r (rgb_schema b) in update_timestamps b r) rows b0 = Ok x ->
    Forall (row_ok s) rows /\ rgb_schema x = s) as Haux; [|by destruct (Haux (row_group_builder_new s) eq_refl H)].
  clear H. induction rows as [|r rows IH]; intros b0 Hs Hf; simpl in Hf;
    [injection Hf as <-; by split; [constructor|]|].
  apply rbind_ok in Hf as (b1 & Hb1 & Hf). apply rbind_ok in Hb1 as ([] & Hc & Hu).
  rewrite Hs in Hc. apply check_row_schema_ok in Hc.
  destruct (IH b1) as [Hall Hx]; [|done|by split; [constructor|]].
  unfold update_timestamps in Hu. inv_ok. done.
Qed.

(** ** Properties *)

(** C40. Every schema the builder produces, by any sequence of its methods, is
    well formed: column names and ids are unique, [index_of] finds exactly
    the column of the name, the byte offsets are those of the columns, the
    primary key indexes are increasing and name non-null columns of key kinds,
    the timestamp index is the one key column of kind timestamp, and a tsid
    column forces a primary key of two columns. *)
Theorem built_schema_wf b s : built b -> build b = Ok s -> schema_wf s.
Proof. intros Hb. apply built_schema_wf_aux. by apply built_wf. Qed.

(** A table with a tag, a timestamp and a nullable value. *)
Definition demo_columns : list (bool * column) :=
  [ (true, ColumnSchema.Mk 1 "host" DatumKind.String false true false "");
    (true, ColumnSchema.Mk 2 "ts" DatumKind.Timestamp false false false "");
    (false, ColumnSchema.Mk 3 "value" DatumKind.Double true false false "") ].
Definition demo_add (b : Builder) (kc : bool * column) : res SchemaError Builder :=
  if kc.1 then add_key_column b kc.2 else add_normal_column b kc.2.
Definition demo_schema : res SchemaError Schema :=
  let? b := rfold demo_add demo_columns builder_new in build b.

Lemma demo_built b0 b l : built b0 -> rfold demo_add l b0 = Ok b -> built b.
Proof.
  revert b0. induction l as [|[[] c] l IH]; intros b0 Hb H; simpl in H.
  - by injection H as <-.
  - apply rbind_ok in H as (b1 & H1 & H). eapply IH; [|done]. exact (built_key _ _ _ Hb H1).
  - apply rbind_ok in H as (b1 & H1 & H). eapply IH; [|done]. exact (built_normal _ _ _ Hb H1).
Qed.

(** The schema itself, by evaluation. *)
Definition the_demo : Schema :=
  match demo_schema with Ok s => s | _ => MkSchema [] 0 None (column_schemas_new []) 0 end.

Lemma built_schema_wf_witness : schema_wf the_demo.
Proof.
  apply (built_schema_wf
    (match rfold demo_add demo_columns builder_new with Ok b => b | _ => builder_new end)).
  - apply (demo_built builder_new _ demo_columns); [apply built_new|vm_compute; reflexivity].
  - vm_compute. reflexivity.
Defined.

(** [compatible_for_write] is right and complete: for well-formed schemas
    it returns a mapping exactly when that mapping gives every column of the
    table either the writer's column of the same name, of the same kind and
    nullable only if the table's is, or null when the writer lacks it and it
    is nullable, and every column of the writer is used. *)
Theorem compatible_for_write_spec self writer idx :
  schema_wf self -> schema_wf writer ->
  compatible_for_write self writer [] = Ok idx <-> index_mapping self writer idx.
Proof. apply compatible_for_write_iff. Qed.

Lemma demo_wf_of cols b s :
  rfold demo_add cols builder_new = Ok b -> build b = Ok s -> schema_wf s.
Proof.
  intros H. apply built_schema_wf_aux, built_wf. eapply demo_built; [apply built_new|done].
Qed.

Lemma the_demo_wf : schema_wf the_demo.
Proof.
  apply (demo_wf_of demo_columns
    (match rfold demo_add demo_columns builder_new with Ok b => b | _ => builder_new end));
    vm_compute; reflexivity.
Qed.

(** A writer that only has the key columns. *)
Definition demo_writer : Schema :=
  match rfold demo_add (take 2 demo_columns) builder_new with
  | Ok b => match build b with Ok s => s | _ => the_demo end
  | _ => the_demo
  end.

Lemma demo_writer_wf : schema_wf demo_writer.
Proof.
  apply (demo_wf_of (take 2 demo_columns)
    (match rfold demo_add (take 2 demo_columns) builder_new with Ok b => b | _ => builder_new end));
    vm_compute; reflexivity.
Qed.

Lemma compatible_for_write_spec_witness :
  compatible_for_write the_demo demo_writer [] = Ok [Some 0%nat; Some 1%nat; None] /\
  index_mapping the_demo demo_writer [Some 0%nat; Some 1%nat; None].
Proof.
  assert (compatible_for_write the_demo demo_writer [] = Ok [Some 0%nat; Some 1%nat; None]) as H
    by (vm_compute; reflexivity).
  split; [exact H|].
  apply (compatible_for_write_spec the_demo demo_writer _ the_demo_wf demo_writer_wf), H.
Defined.

Lemma foldl_max_spec (f : row -> Z) rows m :
  m <= foldl (fun m r => Z.max m (f r)) m rows /\
  (forall r, r ∈ rows -> f r <= foldl (fun m r => Z.max m (f r)) m rows) /\
  (foldl (fun m r => Z.max m (f r)) m rows = m \/
   exists r, r ∈ rows /\ foldl (fun m r => Z.max m (f r)) m rows = f r).
Proof.
  revert m. induction rows as [|r rows IH]; intros m; simpl; [set_solver by lia|].
  destruct (IH (Z.max m (f r))) as (H1 & H2 & H3). split_and!; [lia| |].
  - intros r' [->|Hr]%elem_of_cons; [lia|auto].
  - destruct H3 as [->|(r' & Hr' & ->)].
    + destruct (Z.max_spec m (f r)) as [[_ ->]|[_ ->]]; [right; exists r; set_solver|by left].
    + right. exists r'. set_solver.
Qed.

Lemma foldl_min_spec (f : row -> Z) rows o :
  rows <> [] \/ o <> None ->
  exists m, foldl (fun m r => Some (match m with Some m => Z.min m (f r) | None => f r end)) o rows = Some m /\
    (forall r, r ∈ rows -> m <= f r) /\ (forall m', o = Some m' -> m <= m') /\
    (o = Some m \/ exists r, r ∈ rows /\ m = f r).
Proof.
  revert o. induction rows as [|r rows IH]; intros o Ho; simpl.
  - destruct o as [m|]; [|naive_solver]. exists m. split_and!; [done|set_solver|naive_solver lia|by left].
  - destruct (IH (Some (match o with Some m => Z.min m (f r) | None => f r end))) as (m & Hm & H1 & H2 & H3);
      [by right|].
    specialize (H2 _ eq_refl). exists m. split_and!; [done| | |].
    + intros r' [->|Hr]%elem_of_cons; [destruct o; lia|auto].
    + intros m' ->. lia.
    + destruct H3 as [[= H3]|(r' & Hr' & ->)]; [|right; exists r'; set_solver].
      destruct o as [m'|]; [|right; exists r; set_solver].
      destruct (Z.min_spec m' (f r)) as [[_ Hmin]|[_ Hmin]]; rewrite Hmin in H3; subst.
      * by left.
      * right. exists r. set_solver.
Qed.

(** A row group built from rows that fit the schema keeps the rows and
    bounds their timestamps: the minimum is the least timestamp of a row; the
    maximum is an upper bound, and it is the greatest timestamp of a row
    unless every row lies before the epoch, when it is zero.  Rows that do
    not fit are refused with an error, never a panic. *)
Theorem row_group_timestamps s rows :
  schema_wf s ->
  no_panic (with_rows s rows) /\
  (forall b, with_rows s rows = Ok b -> Forall (row_ok s) rows) /\
  (Forall (row_ok s) rows ->
   exists b, with_rows s rows = Ok b /\
     let g := row_group_build b in
     rg_rows g = rows /\ rg_schema g = s /\
     (forall r, r ∈ rows ->
        rg_min_timestamp g <= timestamp_of s r <= rg_max_timestamp g) /\
     (rows <> [] -> exists r, r ∈ rows /\ rg_min_timestamp g = timestamp_of s r) /\
     ((exists r, r ∈ rows /\ rg_max_timestamp g = timestamp_of s r) \/
      (rg_max_timestamp g = 0 /\ forall r, r ∈ rows -> timestamp_of s r <= 0))).
Proof.
  intros Hwf. split; [by apply with_rows_total|]. split; [intros b H; by apply with_rows_ok_inv in H as []|].
  intros Hall. unfold with_rows, row_group_builder_new. rewrite with_rows_fold by done.
  eexists. split; [reflexivity|]. simpl.
  destruct (foldl_max_spec (timestamp_of s) rows 0) as (M1 & M2 & M3).
  split_and!; [done|done| | |].
  - intros r Hr. destruct (foldl_min_spec (timestamp_of s) rows None) as (m & -> & H1 & _).
    + left. intros ->. set_solver.
    + simpl. auto.
  - intros Hne. destruct (foldl_min_spec (timestamp_of s) rows None) as (m & -> & _ & _ & H3); [by left|].
    destruct H3 as [|(r & Hr & ->)]; [done|]. exists r. done.
  - destruct M3 as [M3|(r & Hr & M3)]; [right|left; eauto].
    split; [done|]. intros r Hr. rewrite <- M3. auto.
Qed.

Lemma row_group_timestamps_witness :
  let rows := [[Datum.String [104]; Datum.Timestamp (-5); Datum.Null];
               [Datum.String [105]; Datum.Timestamp (-9); Datum.Double 0]] in
  exists b, with_rows the_demo rows = Ok b /\
    forall r, r ∈ rows ->
      rg_min_timestamp (row_group_build b) <= timestamp_of the_demo r
      <= rg_max_timestamp (row_group_build b).
Proof.
  intros rows.
  assert (Forall (row_ok the_demo) rows) as Hrows
    by (repeat constructor; apply check_row_schema_ok; vm_compute; reflexivity).
  destruct (proj2 (proj2 (row_group_timestamps the_demo rows the_demo_wf)) Hrows)
    as (b & Hb & _ & _ & Hr & _).
  exists b. split; [exact Hb|exact Hr].
Defined.
