(* ===== verification/RowCodec.v ===== *)
(** * Rows in the write-ahead log: [common_util/src/codec/row.rs]

    [WalRowEncoder], [WalRowDecoder], [encode_row_group_for_wal] and
    [key_prefix_next]. *)

From Stdlib Require Import ZArith Lia.
From stdpp Require Import base tactics option list numbers strings gmap.
From S2P Require Import Prelude Bytes Datum Varint MemComparable Compact Schema.

#[local] Open Scope Z_scope.

Inductive RowCodecError :=
| EncodeRowDatum (source : CompactError)
| DecodeRowDatum (source : CompactError).

(** [value[writer_index]]: indexing panics out of bound. *)
Definition row_index {E} (value : row) (i : nat) : res E Datum.t := unwrap (value !! i).

(** A call that only returns or unwinds, used where errors of any type flow. *)
Definition lift {E A} (r : res unit A) : res E A :=
  match r with Ok a => Ok a | Err _ => Panic | Panic => Panic end.

(** ** [WalRowEncoder] *)
Definition wal_encode_column (index_in_writer : IndexInWriterSchema) (value : row) (buf : wbuf)
    (index_in_table : nat) : res RowCodecError wbuf :=
  let? o := lift (column_index_in_writer index_in_writer index_in_table) in
  match o with
  | Some writer_index =>
      let? d := row_index value writer_index in
      rcontext EncodeRowDatum (MemCompactEncoder.encode buf d)
  | None => rcontext EncodeRowDatum (MemCompactEncoder.encode buf Datum.Null)
  end.

Definition wal_encode_row (table_schema : Schema) (index_in_writer : IndexInWriterSchema)
    (buf : wbuf) (value : row) : res RowCodecError wbuf :=
  rfold (wal_encode_column index_in_writer value) (seq 0 (num_columns table_schema)) buf.

Definition wal_estimate_row (table_schema : Schema) (index_in_writer : IndexInWriterSchema)
    (value : row) : res RowCodecError Z :=
  rfold (fun total_len index_in_table =>
           let? o := lift (column_index_in_writer index_in_writer index_in_table) in
           match o with
           | Some writer_index =>
               let? d := row_index value writer_index in
               u64_op (total_len + MemCompactEncoder.estimate_encoded_size d)
           | None => u64_op (total_len + MemCompactEncoder.estimate_encoded_size Datum.Null)
           end) (seq 0 (num_columns table_schema)) 0.

(** ** [WalRowDecoder] *)
Definition wal_decode_column (s : Schema) (st : row * bytes) (idx : nat)
    : res RowCodecError (row * bytes) :=
  let '(datums, buf) := st in
  let? column_schema := unwrap (columns s !! idx) in
  let datum := Datum.empty (ColumnSchema.data_type column_schema) in
  let? (datum, buf) := rcontext DecodeRowDatum (MemCompactDecoder.decode_to buf datum) in
  Ok (datums ++ [datum], buf).

Definition wal_decode_row (s : Schema) (buf : bytes) : res RowCodecError (row * bytes) :=
  rfold (wal_decode_column s) (seq 0 (num_columns s)) ([], buf).

(** ** [encode_row_group_for_wal] *)

(** A [Vec<u8>] grows up to [isize::MAX] bytes. *)
Definition vec_new : wbuf := Wbuf [] i64_max.

Definition encode_row_group_for_wal (rows : list row) (table_schema : Schema)
    (index_in_writer : IndexInWriterSchema) (encoded_rows : list bytes)
    : res RowCodecError (list bytes) :=
  match head rows with
  | None => Ok encoded_rows
  | Some first_row =>
      let? _ := wal_estimate_row table_schema index_in_writer first_row in
      rfold (fun encoded_rows r =>
               let? buf := wal_encode_row table_schema index_in_writer vec_new r in
               Ok (encoded_rows ++ [wb_data buf])) rows encoded_rows
  end.

(** ** [key_prefix_next] *)

(** The loop from index [n - 1] down; the flag says that it left with
    [idx == -1].  [buf[i] += 1] is a [u8] addition. *)
Fixpoint key_prefix_next_loop (n : nat) (buf : bytes) : res unit (bytes * bool) :=
  match n with
  | O => Ok (buf, true)
  | S i =>
      let? b := unwrap (buf !! i) in
      let? b := (if uintb 8 (b + 1) then Ok (b + 1) else Panic) in
      let buf := <[i := b]> buf in
      if b =? 0 then key_prefix_next_loop i buf else Ok (buf, false)
  end.

Definition key_prefix_next (key : bytes) : res unit bytes :=
  let? idx := u64_op (len key - 1) in
  let? (buf, wrapped) := key_prefix_next_loop (S (Z.to_nat idx)) key in
  if wrapped then Ok (key ++ [0]) else Ok buf.

(** ** Round trip *)
Definition wal_row_bytes (r : row) : bytes := concat (compact_bytes <$> r).

Lemma wal_encode_from (idx : IndexInWriterSchema) value k os buf :
  (forall i o, os !! i = Some o -> idx !! (k + i)%nat = Some o) ->
  (forall j, Some j ∈ os -> (j < length value)%nat) ->
  Forall Datum.ok (table_datum value <$> os) ->
  len (wal_row_bytes (table_datum value <$> os)) <= remaining_mut buf ->
  rfold (wal_encode_column idx value) (seq k (length os)) buf
  = Ok (put buf (wal_row_bytes (table_datum value <$> os))).
Proof.
  revert k buf. induction os as [|o os IH]; intros k buf Hidx Hb Hok Hlen.
  - simpl. unfold wal_row_bytes. simpl. by rewrite put_nil.
  - cbn [length seq rfold]. apply Forall_cons in Hok as [Ho Hok].
    unfold wal_row_bytes in Hlen. cbn [fmap list_fmap concat] in Hlen. rewrite length_app in Hlen.
    assert (wal_encode_column idx value buf k = Ok (put buf (compact_bytes (table_datum value o)))) as ->.
    { unfold wal_encode_column, column_index_in_writer.
      rewrite <- (Nat.add_0_r k), (Hidx 0%nat o eq_refl). cbn [unwrap lift rbind].
      destruct o as [j|]; cbn [table_datum] in *.
      - destruct (lookup_lt_is_Some_2 value j) as [d Hd]; [apply Hb; set_solver|].
        unfold row_index. rewrite Hd in *. cbn [unwrap rbind default from_option id] in *.
        rewrite (writes_room _ _ _ (compact_writes d Ho)); [done|lia].
      - rewrite (writes_room _ _ _ (compact_writes Datum.Null Ho)); [done|lia]. }
    cbn [rbind]. rewrite IH; [| |set_solver|done|rewrite remaining_put; unfold wal_row_bytes; lia].
    + by rewrite put_put.
    + intros i o' Hi. rewrite <- (Hidx (S i) o' Hi). f_equal. lia.
Qed.

Lemma wal_decode_from s k (r : row) datums rest :
  (forall i d, r !! i = Some d -> exists c, columns s !! (k + i)%nat = Some c /\ datum_fits d c) ->
  Forall Datum.ok r ->
  rfold (wal_decode_column s) (seq k (length r)) (datums, wal_row_bytes r ++ rest)
  = Ok (datums ++ r, rest).
Proof.
  revert k datums. induction r as [|d r IH]; intros k datums Hfit Hok; simpl.
  - by rewrite app_nil_r.
  - apply Forall_cons in Hok as [Hd Hok]. destruct (Hfit 0%nat d eq_refl) as (c & Hc & Hf).
    rewrite Nat.add_0_r in Hc. rewrite Hc. cbn [unwrap rbind].
    unfold wal_row_bytes. cbn [fmap list_fmap concat]. rewrite <- app_assoc.
    rewrite (compact_reads d) by (first [done|unfold datum_fits in Hf; destruct d; auto]).
    cbn [rcontext rbind]. fold (wal_row_bytes r). rewrite IH; [by rewrite <- app_assoc| |done].
    intros i d' Hi. replace (S k + i)%nat with (k + S i)%nat by lia. by apply Hfit.
Qed.

Definition row_estimate (r : row) : Z :=
  foldr (fun d acc => MemCompactEncoder.estimate_encoded_size d + acc) 0 r.

Lemma estimate_nonneg d : 0 <= MemCompactEncoder.estimate_encoded_size d.
Proof. pose proof (compact_estimate d). destruct d; simpl in *; unfold MemCompactEncoder.estimate_encoded_size_bytes, MAX_VARINT_BYTES, MAX_UVARINT_BYTES; lia. Qed.

Lemma row_estimate_nonneg r : 0 <= row_estimate r.
Proof. induction r as [|d r IH]; simpl; [lia|]. pose proof (estimate_nonneg d). lia. Qed.

Lemma len_wal_row_bytes r : len (wal_row_bytes r) <= row_estimate r + len r.
Proof.
  induction r as [|d r IH]; [done|]. unfold wal_row_bytes in *.
  cbn [fmap list_fmap concat row_estimate foldr length]. rewrite length_app.
  pose proof (compact_estimate d). unfold row_estimate in IH. lia.
Qed.

Lemma wal_estimate_from (idx : IndexInWriterSchema) value k os total :
  (forall i o, os !! i = Some o -> idx !! (k + i)%nat = Some o) ->
  (forall j, Some j ∈ os -> (j < length value)%nat) ->
  0 <= total -> total + row_estimate (table_datum value <$> os) <= u64_max ->
  rfold (fun total_len index_in_table =>
           let? o := lift (column_index_in_writer idx index_in_table) in
           match o with
           | Some writer_index =>
               let? d := row_index value writer_index in
               u64_op (total_len + MemCompactEncoder.estimate_encoded_size d)
           | None => u64_op (total_len + MemCompactEncoder.estimate_encoded_size Datum.Null)
           end) (seq k (length os)) total
  = @Ok RowCodecError _ (total + row_estimate (table_datum value <$> os)).
Proof.
  revert k total. induction os as [|o os IH]; intros k total Hidx Hb Ht Hlen.
  - simpl. f_equal. lia.
  - cbn [length seq rfold fmap list_fmap row_estimate foldr] in *. fold (row_estimate (table_datum value <$> os)) in *.
    unfold column_index_in_writer. rewrite <- (Nat.add_0_r k), (Hidx 0%nat o eq_refl). cbn [unwrap lift rbind].
    pose proof (estimate_nonneg (table_datum value o)).
    pose proof (row_estimate_nonneg (table_datum value <$> os)).
    assert (uint 64 (total + MemCompactEncoder.estimate_encoded_size (table_datum value o))) as Hu.
    { unfold uint, u64_max in *. lia. }
    assert (match o with
            | Some j => let? d := row_index value j in u64_op (total + MemCompactEncoder.estimate_encoded_size d)
            | None => u64_op (total + MemCompactEncoder.estimate_encoded_size Datum.Null)
            end = @Ok RowCodecError _ (total + MemCompactEncoder.estimate_encoded_size (table_datum value o))) as ->.
    { destruct o as [j|]; cbn [table_datum] in *; [|by apply u64_op_ok].
      destruct (lookup_lt_is_Some_2 value j) as [d Hd]; [apply Hb; set_solver|].
      unfold row_index. rewrite Hd in *. cbn [unwrap rbind default from_option id] in *. by apply u64_op_ok. }
    cbn [rbind]. rewrite Nat.add_0_r, IH; [f_equal; lia| |set_solver|lia|lia].
    intros i o' Hi. rewrite <- (Hidx (S i) o' Hi). f_equal. lia.
Qed.

(** A row of the writer, with the mapping of a compatible table, is written
    as the compact encoding of the table's row, and read back as that row. *)
Lemma wal_encode_row_ok self writer idx r buf :
  index_mapping self writer idx -> row_ok writer r -> Forall Datum.ok r ->
  len (wal_row_bytes (table_row idx r)) <= remaining_mut buf ->
  wal_encode_row self idx buf r = Ok (put buf (wal_row_bytes (table_row idx r))).
Proof.
  intros [Hsrc Hall] Hr Hok Hlen. unfold wal_encode_row, num_columns.
  rewrite (Forall2_length _ _ _ Hsrc). pose proof (Forall2_length _ _ _ Hr) as Hl.
  apply wal_encode_from; [done| |by apply table_row_datums_ok|done].
  intros j Hj. rewrite Hl. by eapply sources_bound.
Qed.

Lemma wal_decode_row_ok s r rest :
  row_ok s r -> Forall Datum.ok r -> wal_decode_row s (wal_row_bytes r ++ rest) = Ok (r, rest).
Proof.
  intros Hr Hok. unfold wal_decode_row, num_columns. rewrite <- (Forall2_length _ _ _ Hr).
  rewrite wal_decode_from; [done| |done]. intros i d Hd.
  destruct (Forall2_lookup_l _ _ _ _ _ Hr Hd) as (c & Hc & Hf). eauto.
Qed.

Lemma wal_encode_rows_fold self writer idx rows encoded :
  index_mapping self writer idx -> Forall (row_ok writer) rows -> Forall (Forall Datum.ok) rows ->
  Forall (fun r => row_estimate (table_row idx r) + Z.of_nat (num_columns self) <= i64_max) rows ->
  rfold (fun encoded_rows r =>
           let? buf := wal_encode_row self idx vec_new r in
           Ok (encoded_rows ++ [wb_data buf])) rows encoded
  = Ok (encoded ++ ((fun r => wal_row_bytes (table_row idx r)) <$> rows)).
Proof.
  intros Him. revert encoded. induction rows as [|r rows IH]; intros encoded Hr Hok Hlen; simpl.
  - by rewrite app_nil_r.
  - apply Forall_cons in Hr as [Hr Hrs]. apply Forall_cons in Hok as [Hok Hoks].
    apply Forall_cons in Hlen as [Hl Hls].
    rewrite (wal_encode_row_ok self writer) by (try done;
      pose proof (len_wal_row_bytes (table_row idx r));
      assert (length (table_row idx r) = num_columns self)
        by (unfold table_row, num_columns; rewrite length_fmap, (Forall2_length _ _ _ (im_sources _ _ _ Him)); done);
      unfold remaining_mut, vec_new; cbn [wb_max wb_data length]; lia).
    cbn [rbind wb_data put vec_new app]. rewrite IH by done. by rewrite <- app_assoc.
Qed.

(** *** The next prefix *)
Lemma key_prefix_next_snoc key b :
  uint 8 b -> len key < 2 ^ 63 ->
  key_prefix_next (key ++ [b]) = if b =? 255 then Panic else Ok (key ++ [b + 1]).
Proof.
  intros Hb Hl. unfold key_prefix_next. rewrite length_app. cbn [length].
  rewrite u64_op_ok by (unfold uint; lia). cbn [rbind].
  replace (Z.to_nat _) with (length key) by lia. cbn [key_prefix_next_loop].
  rewrite list_lookup_middle by done. cbn [unwrap rbind]. unfold uint in Hb.
  destruct (Z.eqb_spec b 255) as [->|Hne]; [done|].
  assert (uintb 8 (b + 1) = true) as -> by (apply uintb_spec; unfold uint; lia). cbn [rbind].
  rewrite Z_eqb_false by lia. rewrite insert_app_r_alt, Nat.sub_diag by lia. done.
Qed.

Lemma bytes_cmp_prefix_next key b k :
  bytes_ok k -> uint 8 b ->
  bytes_cmp k (key ++ [b + 1]) = Lt <->
  bytes_cmp k (key ++ [b]) = Lt \/ (key ++ [b]) `prefix_of` k.
Proof.
  intros Hk Hb. revert k Hk. induction key as [|x key IH]; intros k Hk; simpl.
  - destruct k as [|y k]; simpl; [naive_solver|]. apply Forall_cons in Hk as [Hy _].
    assert ([b] `prefix_of` y :: k <-> y = b) as ->.
    { split; [by intros (? & [= ? _])|intros ->; by exists k]. }
    assert (forall c, cmp_then (y ?= c) (bytes_cmp k []) = Lt <-> y < c) as Hc.
    { intros c. destruct (Z.compare_spec y c); simpl; [destruct k; simpl| |]; naive_solver lia. }
    rewrite !Hc. lia.
  - destruct k as [|y k]; simpl; [naive_solver|]. apply Forall_cons in Hk as [_ Hk].
    specialize (IH k Hk).
    assert (x :: key ++ [b] `prefix_of` y :: k <-> x = y /\ key ++ [b] `prefix_of` k) as ->.
    { split; [intros H; split; [by apply prefix_cons_inv_1 in H|by apply prefix_cons_inv_2 in H]|intros [-> H]; by apply prefix_cons]. }
    destruct (Z.compare_spec y x); simpl; naive_solver lia.
Qed.

(** ** Properties *)

(** C19. Rows written to the log come back: when a writer's schema is
    compatible with the table's, encoding a group of the writer's rows
    succeeds, each row separately, and decoding with the table's schema gives
    each row in the table's columns, the missing ones null, consuming exactly
    the bytes that were written. *)
Theorem wal_row_group_roundtrip self writer idx rows :
  schema_wf self -> schema_wf writer ->
  compatible_for_write self writer [] = Ok idx ->
  Forall (row_ok writer) rows -> Forall (Forall Datum.ok) rows ->
  Forall (fun r => row_estimate (table_row idx r) + Z.of_nat (num_columns self) <= i64_max) rows ->
  exists encoded,
    encode_row_group_for_wal rows self idx [] = Ok encoded /\
    Forall2 (fun r e => row_ok self (table_row idx r) /\
               forall rest, wal_decode_row self (e ++ rest) = Ok (table_row idx r, rest)) rows encoded.
Proof.
  intros Hs Hw Hc Hr Hok Hlen. apply compatible_for_write_iff in Hc as Him; [|done|done].
  exists ((fun r => wal_row_bytes (table_row idx r)) <$> rows). split.
  - unfold encode_row_group_for_wal. destruct rows as [|r rows]; [done|]. cbn [head].
    assert (wal_estimate_row self idx r = Ok (0 + row_estimate (table_row idx r))) as ->.
    { unfold wal_estimate_row, num_columns. rewrite (Forall2_length _ _ _ (im_sources _ _ _ Him)).
      apply Forall_cons in Hr as [Hr _]. apply Forall_cons in Hlen as [Hl _].
      apply wal_estimate_from; [done| |lia|unfold u64_max, i64_max in *; unfold table_row in Hl; lia].
      intros j Hj. rewrite (Forall2_length _ _ _ Hr). by eapply sources_bound, Hj; apply Him. }
    cbn [rbind]. by rewrite (wal_encode_rows_fold self writer).
  - apply Forall2_fmap_r, Forall_Forall2_diag, Forall_forall. intros r Hin.
    rewrite Forall_forall in Hr, Hok. pose proof (table_row_ok _ _ _ _ Him (Hr r Hin)).
    split; [done|]. intros rest. apply wal_decode_row_ok; [done|]. apply table_row_datums_ok; auto.
Qed.

Lemma wal_row_group_roundtrip_witness :
  let rows := [[Datum.String [104; 105]; Datum.Timestamp 7]] in
  let idx := [Some 0%nat; Some 1%nat; None] in
  exists encoded,
    encode_row_group_for_wal rows the_demo idx [] = Ok encoded /\
    Forall2 (fun r e => row_ok the_demo (table_row idx r) /\
               forall rest, wal_decode_row the_demo (e ++ rest) = Ok (table_row idx r, rest)) rows encoded.
Proof.
  intros rows idx.
  apply (wal_row_group_roundtrip the_demo demo_writer idx rows the_demo_wf demo_writer_wf).
  - vm_compute. reflexivity.
  - apply Forall_cons. split; [apply check_row_schema_ok; vm_compute; reflexivity|apply Forall_nil; exact I].
  - repeat constructor; try (vm_compute; intros; discriminate).
  - repeat constructor; try (vm_compute; intros; discriminate).
Defined.

(** [key_prefix_next] of a key whose last byte is not [0xFF] is the least
    upper bound of the keys that start with it: a key is below it exactly when
    it is below the argument or starts with it.  On an empty key, and on any
    key that ends in [0xFF], it panics: the carry that the loop is written for
    overflows the byte first. *)
Theorem key_prefix_next_bound key :
  bytes_ok key -> len key < 2 ^ 63 ->
  match last key with
  | Some b =>
      if b =? 255 then key_prefix_next key = Panic
      else exists next, key_prefix_next key = Ok next /\
           forall k, bytes_ok k ->
             bytes_cmp k next = Lt <-> bytes_cmp k key = Lt \/ key `prefix_of` k
  | None => key_prefix_next key = Panic
  end.
Proof.
  intros Hk Hl. destruct key as [|b key _] using rev_ind; [done|].
  rewrite last_snoc. apply Forall_app in Hk as [_ Hb]. apply Forall_cons in Hb as [Hb _].
  rewrite length_app in Hl. rewrite key_prefix_next_snoc by (done || lia).
  destruct (b =? 255); [done|]. exists (key ++ [b + 1]). split; [done|].
  intros k Hok. by apply bytes_cmp_prefix_next.
Qed.

Lemma key_prefix_next_bound_witness :
  key_prefix_next [1; 255] = Panic /\ key_prefix_next [1; 254] = Ok [1; 255].
Proof.
  split.
  - apply (key_prefix_next_bound [1; 255]); [repeat constructor; lia|vm_compute; reflexivity].
  - vm_compute. reflexivity.
Defined.

(** ** Decoding any bytes *)
Lemma wal_decode_typed_from s cs k datums :
  (forall i c, cs !! i = Some c -> columns s !! (k + i)%nat = Some c) ->
  typed_read (fun r => exists r', r = datums ++ r' /\ Forall2 (fun d c => datum_typed (ColumnSchema.data_type c) d) r' cs)
    (fun buf => rfold (wal_decode_column s) (seq k (length cs)) (datums, buf)).
Proof.
  revert k datums. induction cs as [|c cs IH]; intros k datums Hc.
  { apply typed_ret. exists []. rewrite app_nil_r. split; [done|constructor]. }
  cbn [length seq rfold wal_decode_column]. specialize (Hc 0%nat c eq_refl) as Hc0. rewrite Nat.add_0_r in Hc0. rewrite Hc0. cbn [unwrap rbind].
  intros buf Hb. pose proof (typed_context DecodeRowDatum _ _ (typed_datum (ColumnSchema.data_type c)) buf Hb) as Hd. cbn beta in Hd.
  destruct (rcontext DecodeRowDatum _) as [[d rest]| |]; cbn [rbind]; [|done|done]. destruct Hd as [Hd Hs].
  assert (forall i c', cs !! i = Some c' -> columns s !! (S k + i)%nat = Some c') as Hc'.
  { intros i c' Hi. rewrite <- (Hc (S i) c' Hi). f_equal. lia. }
  specialize (IH (S k) (datums ++ [d]) Hc' rest (suffix_bytes_ok _ _ Hs Hb)). cbn beta in IH.
  destruct (rfold _ _ _) as [[r rest']| |]; [|done|].
  - destruct IH as [(r' & -> & Hr') Hs']. split; [|by trans rest]. exists (d :: r'). rewrite <- app_assoc. split; [done|by constructor].
  - destruct IH as (p & Hp & Hp'). exists p. split; [by trans rest|done].
Qed.

(** Whatever bytes a log entry has, decoding a row gives one datum per column of
    the schema, of the kind of its column or null and with its value in the range
    of the kind, and leaves a rest of the bytes; else it fails, or unwinds at a
    place where eleven bytes in a row continue a varint. *)
Theorem wal_decode_row_typed s buf : bytes_ok buf ->
  match wal_decode_row s buf with
  | Ok (r, rest) => Forall2 (fun d c => datum_typed (ColumnSchema.data_type c) d) r (columns s) /\ rest `suffix_of` buf
  | Err _ => True
  | Panic => exists p, p `suffix_of` buf /\ 11 <= len p /\ all_continue (take 11 p)
  end.
Proof.
  intros Hb. pose proof (wal_decode_typed_from s (columns s) 0 [] (fun i c H => H) buf Hb) as H. cbn beta in H. unfold wal_decode_row, num_columns.
  destruct (rfold _ _ _) as [[r rest]| |]; [|done|done]. destruct H as [(r' & -> & Hr) Hs]. done.
Qed.
Lemma wal_decode_row_typed_witness :
  let buf := [2; 4; 104; 105; 8; 14; 0; 9] in
  exists r rest, wal_decode_row the_demo buf = Ok (r, rest) /\
    Forall2 (fun d c => datum_typed (ColumnSchema.data_type c) d) r (columns the_demo) /\ rest `suffix_of` buf.
Proof.
  intros buf. pose proof (wal_decode_row_typed the_demo buf ltac:(repeat constructor; lia)) as H.
  destruct (wal_decode_row the_demo buf) as [[r rest]| |] eqn:Hd; [by exists r, rest|vm_compute in Hd; discriminate|vm_compute in Hd; discriminate].
Defined.
