(* ===== verification/Contiguous.v ===== *)
(** * Rows in a contiguous buffer: [common_types/src/{bitset,row/contiguous}.rs]

    The in-memory row format of the memtable: the number of null bits, the
    bit set of non-null columns, a block of fixed-size cells and a block of
    variable-length payloads.  [BitSet], [ContiguousRowWriter] and
    [ContiguousRowReader] are modelled in full.

    [to_ne_bytes] is little endian, as on the platforms the repository builds
    for.  A [DatumView] borrows the datum it shows and is the datum here. *)

From Stdlib Require Import ZArith Lia.
From stdpp Require Import base tactics option list numbers strings gmap.
From S2P Require Import Prelude Bytes Datum Schema.

#[local] Open Scope Z_scope.

(** ** [BitSet] *)
Module BitSet.
Definition BIT_MASK : list Z := [1; 2; 4; 8; 16; 32; 64; 128].
Definition UNSET_BIT_MASK : list Z :=
  [255 - 1; 255 - 2; 255 - 4; 255 - 8; 255 - 16; 255 - 32; 255 - 64; 255 - 128].

Record t := Mk { buffer : bytes; num_bits : nat }.

(** [(num_bits + 7) >> 3]. *)
Definition num_bytes (num_bits : nat) : nat := ((num_bits + 7) / 8)%nat.

Definition new (num_bits : nat) : t := Mk (replicate (num_bytes num_bits) 0) num_bits.
Definition all_set (num_bits : nat) : t := Mk (replicate (num_bytes num_bits) 0xFF) num_bits.

Definition try_from_raw (buffer : bytes) (num_bits : nat) : option t :=
  if (length buffer <? num_bytes num_bits)%nat then None else Some (Mk buffer num_bits).

(** [(index >> 3, index & 7)]. *)
Definition compute_byte_bit_index (index : nat) : nat * nat := ((index / 8)%nat, (index mod 8)%nat).

Definition update {E} (b : t) (index : nat) (f : Z -> Z -> Z) (masks : list Z) : res E t :=
  let '(byte_index, bit_index) := compute_byte_bit_index index in
  let? byte := unwrap (buffer b !! byte_index) in
  let? mask := unwrap (masks !! bit_index) in
  Ok (Mk (<[byte_index := f byte mask]> (buffer b)) (num_bits b)).

(** [set] and [unset] return [false] and do nothing out of range. *)
Definition set {E} (b : t) (index : nat) : res E (t * bool) :=
  if (num_bits b <=? index)%nat then Ok (b, false)
  else let? b := update b index Z.lor BIT_MASK in Ok (b, true).
Definition unset {E} (b : t) (index : nat) : res E (t * bool) :=
  if (num_bits b <=? index)%nat then Ok (b, false)
  else let? b := update b index Z.land UNSET_BIT_MASK in Ok (b, true).

Definition is_set {E} (b : t) (index : nat) : res E (option bool) :=
  if (num_bits b <=? index)%nat then Ok None
  else
    let '(byte_index, bit_index) := compute_byte_bit_index index in
    let? byte := unwrap (buffer b !! byte_index) in
    Ok (Some (negb (Z.land byte (Z.shiftl 1 (Z.of_nat bit_index)) =? 0))).
Definition is_unset {E} (b : t) (index : nat) : res E (option bool) :=
  let? o := is_set b index in Ok (negb <$> o).
End BitSet.

(** ** Errors and limits *)
Inductive ContiguousError :=
| StringTooLong (len : Z)
| RowTooLong (len : Z)
| NumNullColsMissing
| InvalidBitSetBytes (expect_len given_len : nat).

Definition MAX_STRING_LEN : Z := 1024 * 1024 * 16.
Definition MAX_ROW_LEN : Z := 1024 * 1024 * 1024.
Definition size_of_offset : nat := 4.
Definition size_of_num_bits : nat := 4.
Definition size_of_var_len : nat := 4.

(** Little-endian reading; slicing panics when out of range. *)
Definition le_val (bs : bytes) : Z := be_val (rev bs).
Definition slice_to {E} (n : nat) (buf : bytes) : res E bytes :=
  if (n <=? length buf)%nat then Ok (take n buf) else Panic.
Definition slice_from {E} (n : nat) (buf : bytes) : res E bytes :=
  if (n <=? length buf)%nat then Ok (drop n buf) else Panic.

(** ** [ContiguousRowWriter] *)
Definition write_slice_to_offset {E} (inner : bytes) (offset : nat) (value_buf : bytes)
    : res E (bytes * nat) :=
  if (offset + length value_buf <=? length inner)%nat
  then Ok (take offset inner ++ value_buf ++ drop (offset + length value_buf) inner,
           (offset + length value_buf)%nat)
  else Panic.
Definition write_byte_to_offset {E} (inner : bytes) (offset : nat) (value : Z) : res E (bytes * nat) :=
  if (offset <? length inner)%nat then Ok (<[offset := value]> inner, S offset) else Panic.

(** The writer's buffer, the next cell and the next payload. *)
Record cursor := Cursor { cur_inner : bytes; cur_offset : nat; cur_next_string_offset : nat }.

(** A cell of a fixed-size kind. *)
Definition write_fixed (c : cursor) (kind : DatumKind.t) (value_buf : bytes)
    : res ContiguousError cursor :=
  let? (inner, offset) := write_byte_to_offset (cur_inner c) (cur_offset c) (DatumKind.into_u8 kind) in
  let? (inner, offset) := write_slice_to_offset inner offset value_buf in
  Ok (Cursor inner offset (cur_next_string_offset c)).

(** A cell that points to its payload, and the payload. *)
Definition write_var (c : cursor) (kind : DatumKind.t) (v : bytes) : res ContiguousError cursor :=
  let? (inner, offset) := write_byte_to_offset (cur_inner c) (cur_offset c) (DatumKind.into_u8 kind) in
  let next_string_offset := cur_next_string_offset c in
  let? _ := ensure (Z.of_nat next_string_offset <=? MAX_ROW_LEN)
              (StringTooLong (Z.of_nat next_string_offset)) in
  let value_buf := Datum.le_bytes 4 (as_u 32 (Z.of_nat next_string_offset)) in
  let? (inner, offset) := write_slice_to_offset inner offset value_buf in
  let? _ := ensure (len v <=? MAX_STRING_LEN) (StringTooLong (len v)) in
  let? (inner, next_string_offset) :=
    write_slice_to_offset inner next_string_offset (Datum.le_bytes 4 (as_u 32 (len v))) in
  let? (inner, next_string_offset) := write_slice_to_offset inner next_string_offset v in
  Ok (Cursor inner offset next_string_offset).

Definition write_datum (c : cursor) (datum : Datum.t) : res ContiguousError cursor :=
  match datum with
  | Datum.Null => Ok c
  | Datum.Timestamp v => write_fixed c DatumKind.Timestamp (Datum.le_bytes 8 v)
  | Datum.Double v => write_fixed c DatumKind.Double (Datum.le_bytes 8 v)
  | Datum.Float v => write_fixed c DatumKind.Float (Datum.le_bytes 4 v)
  | Datum.Varbinary v => write_var c DatumKind.Varbinary v
  | Datum.String v => write_var c DatumKind.String v
  | Datum.UInt64 v => write_fixed c DatumKind.UInt64 (Datum.le_bytes 8 v)
  | Datum.UInt32 v => write_fixed c DatumKind.UInt32 (Datum.le_bytes 4 v)
  | Datum.UInt16 v => write_fixed c DatumKind.UInt16 (Datum.le_bytes 2 v)
  | Datum.UInt8 v => write_fixed c DatumKind.UInt8 [v]
  | Datum.Int64 v => write_fixed c DatumKind.Int64 (Datum.le_bytes 8 v)
  | Datum.Int32 v => write_fixed c DatumKind.Int32 (Datum.le_bytes 4 v)
  | Datum.Int16 v => write_fixed c DatumKind.Int16 (Datum.le_bytes 2 v)
  | Datum.Int8 v => write_fixed c DatumKind.Int8 [as_u 8 v]
  | Datum.Boolean v => write_fixed c DatumKind.Boolean [if v then 1 else 0]
  | Datum.Date v => write_fixed c DatumKind.Date (Datum.le_bytes 4 v)
  | Datum.Time v => write_fixed c DatumKind.Time (Datum.le_bytes 8 v)
  end.

(** The column of the writer's row that a column of the table takes, with the
    panics of both indexings. *)
Definition writer_datum {E} (index_in_writer : IndexInWriterSchema) (r : row) (index_in_table : nat)
    : res E (option (nat * Datum.t)) :=
  let? o := unwrap (index_in_writer !! index_in_table) in
  match o with
  | Some writer_index => let? d := unwrap (r !! writer_index) in Ok (Some (writer_index, d))
  | None => Ok None
  end.

Section writer.
Context (table_schema : Schema) (index_in_writer : IndexInWriterSchema).

(** [RowBuffer::reset] of a [Vec<u8>]. *)
Definition reset (new_len : nat) (value : Z) : bytes := replicate new_len value.

(** The first loop of [write_row_with_nulls]: the encoded length and the
    bytes of the variable-length columns. *)
Definition with_nulls_len (r : row) (st : nat * nat) (index_in_table : nat)
    : res ContiguousError (nat * nat) :=
  let '(encoded_len, num_bytes_of_variable_col) := st in
  let? o := writer_datum index_in_writer r index_in_table in
  match o with
  | None => Ok st
  | Some (_, datum) =>
      let encoded_len := if Datum.is_null datum then encoded_len
                         else (encoded_len + byte_size_of_datum (Datum.kind datum))%nat in
      if Datum.is_fixed_sized datum then Ok (encoded_len, num_bytes_of_variable_col)
      else
        let size := (Z.to_nat (Datum.size datum) + size_of_offset)%nat in
        Ok ((encoded_len + size)%nat, (num_bytes_of_variable_col + size)%nat)
  end.

(** The second loop: writes the datums, and clears the bit of a null one. *)
Definition with_nulls_step (r : row) (st : cursor * BitSet.t) (index_in_table : nat)
    : res ContiguousError (cursor * BitSet.t) :=
  let '(c, nulls_bit_set) := st in
  let? o := writer_datum index_in_writer r index_in_table in
  match o with
  | None => Ok st
  | Some (writer_index, datum) =>
      let? c := write_datum c datum in
      if Datum.is_null datum
      then let? (nulls_bit_set, _) := BitSet.unset nulls_bit_set writer_index in Ok (c, nulls_bit_set)
      else Ok (c, nulls_bit_set)
  end.

Definition write_row_with_nulls (r : row) : res ContiguousError bytes :=
  let indexes := seq 0 (num_columns table_schema) in
  let? (encoded_len, num_bytes_of_variable_col) := rfold (with_nulls_len r) indexes (0, 0)%nat in
  let num_bits := num_columns table_schema in
  let nulls_bit_set := BitSet.all_set num_bits in
  let bit_set_len := length (BitSet.buffer nulls_bit_set) in
  let encoded_len := (encoded_len + (size_of_num_bits + bit_set_len))%nat in
  let inner := reset encoded_len 0 in
  let next_string_offset := (encoded_len - num_bytes_of_variable_col)%nat in
  let datum_offset := (size_of_num_bits + bit_set_len)%nat in
  let? (c, nulls_bit_set) :=
    rfold (with_nulls_step r) indexes (Cursor inner datum_offset next_string_offset, nulls_bit_set) in
  let? (inner, _) := write_slice_to_offset (cur_inner c) 0
                       (Datum.le_bytes 4 (as_u 32 (Z.of_nat num_bits))) in
  let? (inner, _) := write_slice_to_offset inner size_of_num_bits (BitSet.buffer nulls_bit_set) in
  Ok inner.

Definition without_nulls_len (r : row) (encoded_len : nat) (index_in_table : nat)
    : res ContiguousError nat :=
  let? o := writer_datum index_in_writer r index_in_table in
  match o with
  | None => Ok encoded_len
  | Some (_, datum) =>
      if Datum.is_fixed_sized datum then Ok encoded_len
      else Ok (encoded_len + (size_of_var_len + Z.to_nat (Datum.size datum)))%nat
  end.

Definition without_nulls_step (r : row) (c : cursor) (index_in_table : nat)
    : res ContiguousError cursor :=
  let? o := writer_datum index_in_writer r index_in_table in
  match o with
  | Some (_, datum) => write_datum c datum
  | None =>
      let? column := unwrap (columns table_schema !! index_in_table) in
      Ok (Cursor (cur_inner c) (cur_offset c + byte_size_of_datum (ColumnSchema.data_type column))
            (cur_next_string_offset c))
  end.

Definition write_row_without_nulls (r : row) : res ContiguousError bytes :=
  let indexes := seq 0 (num_columns table_schema) in
  let datum_buffer_len := (string_buffer_offset table_schema + size_of_num_bits)%nat in
  let? encoded_len := rfold (without_nulls_len r) indexes datum_buffer_len in
  let inner := reset encoded_len (DatumKind.into_u8 DatumKind.Null) in
  let? c := rfold (without_nulls_step r) indexes (Cursor inner size_of_num_bits datum_buffer_len) in
  Ok (cur_inner c).

(** [write_row]: counts the null columns, then takes one of the formats. *)
Definition count_nulls (r : row) (num_null_cols : nat) (index_in_table : nat)
    : res ContiguousError nat :=
  let? o := writer_datum index_in_writer r index_in_table in
  match o with
  | Some (_, datum) => Ok (if Datum.is_null datum then S num_null_cols else num_null_cols)
  | None => Ok (S num_null_cols)
  end.

Definition write_row (r : row) : res ContiguousError bytes :=
  let? num_null_cols := rfold (count_nulls r) (seq 0 (num_columns table_schema)) 0%nat in
  if (0 <? num_null_cols)%nat then write_row_with_nulls r else write_row_without_nulls r.
End writer.

(** ** [ContiguousRowReader] *)
Definition must_read_bytes {E} (datum_buf string_buf : bytes) : res E bytes :=
  let? value_buf := slice_to 4 datum_buf in
  let offset := Z.to_nat (le_val value_buf) in
  let? string_buf := slice_from offset string_buf in
  let? len_buf := slice_to 4 string_buf in
  let string_len := Z.to_nat (le_val len_buf) in
  let? string_buf := slice_from 4 string_buf in
  slice_to string_len string_buf.

Definition read_uint {E} (n : nat) (buf : bytes) : res E Z :=
  let? value_buf := slice_to n buf in Ok (le_val value_buf).
Definition read_sint {E} (n : nat) (buf : bytes) : res E Z :=
  let? value_buf := slice_to n buf in Ok (as_s (8 * Z.of_nat n) (le_val value_buf)).
(** [datum_buf[0]]. *)
Definition read_byte {E} (buf : bytes) : res E Z := unwrap (buf !! 0%nat).

Definition must_read_view {E} (datum_kind : DatumKind.t) (datum_buf string_buf : bytes)
    : res E Datum.t :=
  match datum_kind with
  | DatumKind.Null => Ok Datum.Null
  | DatumKind.Timestamp => let? v := read_sint 8 datum_buf in Ok (Datum.Timestamp v)
  | DatumKind.Double => let? v := read_uint 8 datum_buf in Ok (Datum.Double v)
  | DatumKind.Float => let? v := read_uint 4 datum_buf in Ok (Datum.Float v)
  | DatumKind.Varbinary => let? v := must_read_bytes datum_buf string_buf in Ok (Datum.Varbinary v)
  | DatumKind.String => let? v := must_read_bytes datum_buf string_buf in Ok (Datum.String v)
  | DatumKind.UInt64 => let? v := read_uint 8 datum_buf in Ok (Datum.UInt64 v)
  | DatumKind.UInt32 => let? v := read_uint 4 datum_buf in Ok (Datum.UInt32 v)
  | DatumKind.UInt16 => let? v := read_uint 2 datum_buf in Ok (Datum.UInt16 v)
  | DatumKind.UInt8 => let? v := read_byte datum_buf in Ok (Datum.UInt8 v)
  | DatumKind.Int64 => let? v := read_sint 8 datum_buf in Ok (Datum.Int64 v)
  | DatumKind.Int32 => let? v := read_sint 4 datum_buf in Ok (Datum.Int32 v)
  | DatumKind.Int16 => let? v := read_sint 2 datum_buf in Ok (Datum.Int16 v)
  | DatumKind.Int8 => let? v := read_byte datum_buf in Ok (Datum.Int8 (as_s 8 v))
  | DatumKind.Boolean => let? v := read_byte datum_buf in Ok (Datum.Boolean (negb (v =? 0)))
  | DatumKind.Date => let? v := read_sint 4 datum_buf in Ok (Datum.Date v)
  | DatumKind.Time => let? v := read_sint 8 datum_buf in Ok (Datum.Time v)
  end.

(** An unknown kind byte reads as null. *)
Definition datum_view_at {E} (datum_buf string_buf : bytes) : res E Datum.t :=
  let? kind_byte := read_byte datum_buf in
  match DatumKind.try_from_u8 kind_byte with
  | Ok datum_kind => let? datum_buf := slice_from 1 datum_buf in must_read_view datum_kind datum_buf string_buf
  | _ => Ok Datum.Null
  end.

Inductive ContiguousRowReader :=
| NoNulls (inner : bytes) (byte_offsets : list nat) (datum_offset : nat)
| WithNulls (buf : bytes) (byte_offsets : list Z) (datum_offset : nat).

(** The loop of [ContiguousRowReaderWithNulls::try_new]: the offsets so far
    and the bytes of the null columns before. *)
Definition fix_offset (s : Schema) (nulls_bit_set : BitSet.t) (st : list Z * nat) (io : nat * nat)
    : res ContiguousError (list Z * nat) :=
  let '(fixed_byte_offsets, acc_null_bytes) := st in
  let '(index, expect_offset) := io in
  let? o := BitSet.is_set nulls_bit_set index in
  match o with
  | Some true =>
      let? off := u64_op (Z.of_nat expect_offset - Z.of_nat acc_null_bytes) in
      Ok (fixed_byte_offsets ++ [off], acc_null_bytes)
  | Some false =>
      let? column := unwrap (columns s !! index) in
      Ok (fixed_byte_offsets ++ [-1],
          (acc_null_bytes + byte_size_of_datum (ColumnSchema.data_type column))%nat)
  | None => Ok (fixed_byte_offsets ++ [-1], acc_null_bytes)
  end.

Definition with_nulls_try_new (buf : bytes) (s : Schema) (num_bits : nat)
    : res ContiguousError ContiguousRowReader :=
  let? _ := rassert (0 <? num_bits)%nat in
  let bit_set_size := BitSet.num_bytes num_bits in
  let? bit_set_buf := slice_from size_of_num_bits buf in
  let? _ := ensure (bit_set_size <=? length bit_set_buf)%nat
              (InvalidBitSetBytes bit_set_size (length bit_set_buf)) in
  let? raw := slice_to bit_set_size bit_set_buf in
  let? nulls_bit_set := unwrap (BitSet.try_from_raw raw num_bits) in
  let? (fixed_byte_offsets, _) :=
    rfold (fix_offset s nulls_bit_set) (enumerate (byte_offsets s)) ([], 0%nat) in
  Ok (WithNulls buf fixed_byte_offsets (size_of_num_bits + bit_set_size)).

Definition reader_try_new (buf : bytes) (s : Schema) : res ContiguousError ContiguousRowReader :=
  let? _ := ensure (size_of_num_bits <=? length buf)%nat NumNullColsMissing in
  let? raw := slice_to size_of_num_bits buf in
  let num_bits := Z.to_nat (le_val raw) in
  if (0 <? num_bits)%nat then with_nulls_try_new buf s num_bits
  else Ok (NoNulls buf (byte_offsets s) size_of_num_bits).

Definition num_datum_views (r : ContiguousRowReader) : nat :=
  match r with NoNulls _ offs _ => length offs | WithNulls _ offs _ => length offs end.

Definition reader_datum_view_at {E} (r : ContiguousRowReader) (index : nat) : res E Datum.t :=
  match r with
  | NoNulls inner offs datum_offset =>
      let? offset := unwrap (offs !! index) in
      let? datum_buf := slice_from (datum_offset + offset) inner in
      datum_view_at datum_buf inner
  | WithNulls buf offs datum_offset =>
      let? offset := unwrap (offs !! index) in
      if offset <? 0 then Ok Datum.Null
      else
        let? datum_buf := slice_from (datum_offset + Z.to_nat offset) buf in
        datum_view_at datum_buf buf
  end.

(** [ProjectedContiguousRow]. *)
Definition projected_datum_view_at {E} (source_row : ContiguousRowReader)
    (source_projection : list (option nat)) (index : nat) : res E Datum.t :=
  let? p := unwrap (source_projection !! index) in
  match p with
  | Some index_in_source => reader_datum_view_at source_row index_in_source
  | None => Ok Datum.Null
  end.

(** ** Bit sets *)
Module BitSetFacts.
Definition wf (b : BitSet.t) : Prop :=
  length (BitSet.buffer b) = BitSet.num_bytes (BitSet.num_bits b) /\ bytes_ok (BitSet.buffer b).

(** The bit at an index, as a function. *)
Definition bit (b : BitSet.t) (i : nat) : bool :=
  Z.testbit (nth (i / 8) (BitSet.buffer b) 0) (Z.of_nat (i mod 8)).

Lemma byte_in_range n i : (i < n)%nat -> (i / 8 < BitSet.num_bytes n)%nat.
Proof.
  intros H. unfold BitSet.num_bytes. pose proof (Nat.div_mod_eq i 8).
  apply Nat.div_le_lower_bound; [done|]. lia.
Qed.

Lemma land_pow2_testbit x k : 0 <= k -> negb (Z.land x (Z.shiftl 1 k) =? 0) = Z.testbit x k.
Proof.
  intros Hk. rewrite Z.shiftl_1_l. destruct (Z.testbit x k) eqn:E.
  - apply negb_true_iff, Z.eqb_neq. intros H0.
    assert (Z.testbit (Z.land x (2 ^ k)) k = true) as Ht.
    { by rewrite Z.land_spec, E, Z.pow2_bits_true. }
    by rewrite H0, Z.bits_0 in Ht.
  - apply negb_false_iff, Z.eqb_eq, Z.bits_inj'. intros n Hn.
    rewrite Z.land_spec, Z.bits_0, Z.pow2_bits_eqb by lia.
    destruct (Z.eqb_spec k n) as [<-|]; [by rewrite E|apply andb_false_r].
Qed.

Lemma is_set_spec {E} b i : wf b ->
  @BitSet.is_set E b i = Ok (if (i <? BitSet.num_bits b)%nat then Some (bit b i) else None).
Proof.
  intros [Hl _]. unfold BitSet.is_set. destruct (Nat.leb_spec (BitSet.num_bits b) i).
  - by rewrite (proj2 (Nat.ltb_ge _ _)).
  - rewrite (proj2 (Nat.ltb_lt _ _)) by done. unfold BitSet.compute_byte_bit_index.
    destruct (lookup_lt_is_Some_2 (BitSet.buffer b) (i / 8)) as [x Hx].
    { rewrite Hl. by apply byte_in_range. }
    rewrite Hx. cbn [unwrap rbind]. unfold bit. rewrite (nth_lookup_Some _ _ _ _ Hx).
    by rewrite land_pow2_testbit by lia.
Qed.

Lemma unset_mask k : (k < 8)%nat ->
  BitSet.UNSET_BIT_MASK !! k = Some (Z.lxor 255 (2 ^ Z.of_nat k)).
Proof. intros H. do 8 (destruct k as [|k]; [reflexivity|]). lia. Qed.

Lemma land_unset_testbit x k n :
  uint 8 x -> 0 <= k < 8 -> 0 <= n ->
  Z.testbit (Z.land x (Z.lxor 255 (2 ^ k))) n = Z.testbit x n && negb (k =? n).
Proof.
  intros Hx Hk Hn. rewrite Z.land_spec, Z.lxor_spec, Z.pow2_bits_eqb by lia.
  destruct (Z.lt_ge_cases n 8).
  - assert (Z.testbit 255 n = true) as -> by (change 255 with (Z.ones 8); apply Z.ones_spec_low; lia).
    by rewrite xorb_true_l.
  - assert (Z.testbit x n = false) as ->; [|done].
    rewrite Z.testbit_odd, Z.shiftr_div_pow2, Z.div_small; [done| |lia].
    unfold uint in Hx. pose proof (Z.pow_le_mono_r 2 8 n). lia.
Qed.

Lemma land_byte x y : uint 8 x -> 0 <= y -> uint 8 (Z.land x y).
Proof.
  intros Hx Hy. assert (0 <= Z.land x y) by (apply Z.land_nonneg; left; apply Hx).
  split; [done|]. destruct (Z.eq_dec (Z.land x y) 0) as [->|Hne]; [lia|].
  apply Z.log2_lt_pow2; [lia|].
  pose proof (Z.log2_land x y ltac:(apply Hx) Hy).
  assert (Z.log2 x < 8); [|lia].
  destruct (Z.eq_dec x 0) as [->|]; [done|]. apply Z.log2_lt_pow2; unfold uint in Hx; lia.
Qed.

Lemma unset_spec {E} b j : wf b -> (j < BitSet.num_bits b)%nat ->
  exists b', @BitSet.unset E b j = Ok (b', true) /\ wf b' /\ BitSet.num_bits b' = BitSet.num_bits b /\
    forall i, bit b' i = bit b i && negb (Nat.eqb j i).
Proof.
  intros [Hl Hok] Hj. unfold BitSet.unset. rewrite (proj2 (Nat.leb_gt _ _)) by done.
  unfold BitSet.update, BitSet.compute_byte_bit_index.
  destruct (lookup_lt_is_Some_2 (BitSet.buffer b) (j / 8)) as [x Hx].
  { rewrite Hl. by apply byte_in_range. }
  pose proof (Nat.mod_upper_bound j 8 ltac:(lia)) as Hm.
  rewrite Hx, (unset_mask (j mod 8)) by done. cbn [unwrap rbind].
  eexists. split; [reflexivity|]. assert (uint 8 x) as Hxu by by eapply (Forall_lookup_1 _ _ _ _ Hok).
  assert (0 <= Z.lxor 255 (2 ^ Z.of_nat (j mod 8))) by (apply Z.lxor_nonneg; split; lia).
  split_and!; [split|done|].
  - cbn [BitSet.buffer BitSet.num_bits]. by rewrite length_insert.
  - cbn [BitSet.buffer]. apply Forall_insert; [done|]. by apply land_byte.
  - intros i. unfold bit. cbn [BitSet.buffer].
    destruct (Nat.eq_dec (i / 8)%nat (j / 8)%nat) as [E'|E'].
    + rewrite E'. rewrite (nth_lookup_Some _ _ _ _ (list_lookup_insert_eq _ _ _ (lookup_lt_Some _ _ _ Hx))).
      rewrite (nth_lookup_Some _ _ _ _ Hx), land_unset_testbit by lia || done. f_equal. f_equal.
      pose proof (Nat.div_mod_eq i 8). pose proof (Nat.div_mod_eq j 8).
      destruct (Nat.eqb_spec j i), (Z.eqb_spec (Z.of_nat (j mod 8)) (Z.of_nat (i mod 8))); try done; subst; lia.
    + destruct (Nat.eqb_spec j i) as [->|]; [done|]. rewrite andb_true_r.
      f_equal. rewrite !nth_lookup. f_equal. by rewrite list_lookup_insert_ne by congruence.
Qed.

Lemma all_set_wf n : wf (BitSet.all_set n).
Proof.
  split; cbn; [by rewrite length_replicate|]. apply Forall_replicate. unfold uint. lia.
Qed.

Lemma all_set_bit n i : (i < n)%nat -> bit (BitSet.all_set n) i = true.
Proof.
  intros H. unfold bit. cbn [BitSet.buffer BitSet.all_set].
  rewrite (nth_lookup_Some _ _ _ 255) by (apply lookup_replicate; split; [done|by apply byte_in_range]).
  change 255 with (Z.ones 8). apply Z.ones_spec_low.
  pose proof (Nat.mod_upper_bound i 8 ltac:(lia)). lia.
Qed.
End BitSetFacts.

(** ** The layout as a function of the row *)

(** The payload of a fixed-size cell. *)
Definition payload (d : Datum.t) : bytes :=
  match d with
  | Datum.Null | Datum.Varbinary _ | Datum.String _ => []
  | Datum.Timestamp v | Datum.Double v | Datum.UInt64 v | Datum.Int64 v | Datum.Time v => Datum.le_bytes 8 v
  | Datum.Float v | Datum.UInt32 v | Datum.Int32 v | Datum.Date v => Datum.le_bytes 4 v
  | Datum.UInt16 v | Datum.Int16 v => Datum.le_bytes 2 v
  | Datum.UInt8 v => [v]
  | Datum.Int8 v => [as_u 8 v]
  | Datum.Boolean v => [if v then 1 else 0]
  end.

Definition var_payload (d : Datum.t) : option bytes :=
  match d with Datum.Varbinary v | Datum.String v => Some v | _ => None end.

(** The cell of a datum whose payload, if it has one, goes to [soff]. *)
Definition cell (d : Datum.t) (soff : nat) : bytes :=
  if Datum.is_null d then []
  else DatumKind.into_u8 (Datum.kind d) ::
       match var_payload d with
       | Some _ => Datum.le_bytes 4 (Z.of_nat soff)
       | None => payload d
       end.
Definition var_cell (d : Datum.t) : bytes :=
  match var_payload d with Some v => Datum.le_bytes 4 (len v) ++ v | None => [] end.

Fixpoint cells (ds : row) (soff : nat) : bytes :=
  match ds with
  | [] => []
  | d :: ds => cell d soff ++ cells ds (soff + length (var_cell d))
  end.
Definition var_cells (ds : row) : bytes := concat (var_cell <$> ds).

(** The sizes the writer computes in advance. *)
Definition cell_size (d : Datum.t) : nat :=
  if Datum.is_null d then 0%nat else byte_size_of_datum (Datum.kind d).
Definition cells_size (ds : row) : nat := sum_list_with cell_size ds.

Lemma length_cell d soff : length (cell d soff) = cell_size d.
Proof.
  destruct d; unfold cell, cell_size; cbn; rewrite ?Datum.length_le_bytes; done.
Qed.

Lemma length_cells ds soff : length (cells ds soff) = cells_size ds.
Proof.
  revert soff. induction ds as [|d ds IH]; intros soff; [done|].
  unfold cells_size in *. cbn [cells sum_list_with]. by rewrite length_app, length_cell, IH.
Qed.

(** The limits on strings. *)
Definition small_var (d : Datum.t) : Prop :=
  match var_payload d with Some v => len v <= MAX_STRING_LEN | None => True end.

Lemma write_slice_middle {E} A x B v :
  length x = length v ->
  @write_slice_to_offset E (A ++ x ++ B) (length A) v = Ok (A ++ v ++ B, (length A + length v)%nat).
Proof.
  intros H. unfold write_slice_to_offset. rewrite !length_app.
  rewrite (proj2 (Nat.leb_le _ _)) by lia.
  rewrite take_app_length, <- H, <- drop_drop, drop_app_length, drop_app_length. done.
Qed.

Lemma write_slice_head {E} x B v :
  length x = length v -> @write_slice_to_offset E (x ++ B) 0 v = Ok (v ++ B, length v).
Proof. apply (write_slice_middle []). Qed.

Lemma write_byte_middle {E} A x B v :
  @write_byte_to_offset E (A ++ x :: B) (length A) v = Ok (A ++ v :: B, S (length A)).
Proof.
  unfold write_byte_to_offset. rewrite length_app. cbn [length].
  rewrite (proj2 (Nat.ltb_lt _ _)) by lia. by rewrite insert_app_r_alt, Nat.sub_diag by lia.
Qed.

Lemma write_fixed_ok P fz rest k v soff :
  length fz = S (length v) ->
  write_fixed (Cursor (P ++ fz ++ rest) (length P) soff) k v =
  Ok (Cursor (P ++ (DatumKind.into_u8 k :: v) ++ rest) (length P + length fz) soff).
Proof.
  intros H. destruct fz as [|z fz]; [done|]. injection H as H. unfold write_fixed.
  cbn [cur_inner cur_offset cur_next_string_offset app]. rewrite write_byte_middle. cbn [rbind].
  replace (P ++ DatumKind.into_u8 k :: fz ++ rest) with ((P ++ [DatumKind.into_u8 k]) ++ fz ++ rest)
    by by rewrite <- app_assoc.
  replace (S (length P)) with (length (P ++ [DatumKind.into_u8 k])) by (rewrite length_app; simpl; lia).
  rewrite write_slice_middle by done. cbn [rbind]. rewrite <- app_assoc, length_app. cbn [length app].
  f_equal. f_equal. lia.
Qed.

Lemma write_var_ok P fz M vz R k v soff :
  length fz = 5%nat -> length vz = (4 + length v)%nat ->
  soff = length (P ++ fz ++ M) ->
  Z.of_nat soff <= MAX_ROW_LEN -> len v <= MAX_STRING_LEN ->
  write_var (Cursor (P ++ fz ++ M ++ vz ++ R) (length P) soff) k v =
  Ok (Cursor (P ++ (DatumKind.into_u8 k :: Datum.le_bytes 4 (Z.of_nat soff)) ++ M ++
                (Datum.le_bytes 4 (len v) ++ v) ++ R)
        (length P + length fz) (soff + length vz)).
Proof.
  intros Hf Hv Hs Hm1 Hm2. destruct fz as [|z fz]; [done|]. injection Hf as Hf. unfold write_var.
  cbn [cur_inner cur_offset cur_next_string_offset app].
  rewrite write_byte_middle. cbn [rbind]. unfold ensure. rewrite Z_leb_true by done. cbn [rbind].
  unfold MAX_ROW_LEN, MAX_STRING_LEN in *.
  rewrite !as_u_id by (unfold uint; lia).
  set (h := DatumKind.into_u8 k). set (ob := Datum.le_bytes 4 (Z.of_nat soff)).
  replace (P ++ h :: fz ++ M ++ vz ++ R) with ((P ++ [h]) ++ fz ++ M ++ vz ++ R) by by rewrite <- app_assoc.
  replace (S (length P)) with (length (P ++ [h])) by (rewrite length_app; simpl; lia).
  rewrite write_slice_middle by (unfold ob; by rewrite Datum.length_le_bytes, Hf).
  cbn [rbind]. rewrite Z_leb_true by lia. cbn [rbind].
  assert (length (P ++ [h] ++ ob ++ M) = soff) as Hlen.
  { subst soff. rewrite !length_app. unfold ob. rewrite Datum.length_le_bytes. cbn [length]. lia. }
  replace ((P ++ [h]) ++ ob ++ M ++ vz ++ R)
    with ((P ++ [h] ++ ob ++ M) ++ take 4 vz ++ (drop 4 vz ++ R))
    by (rewrite (assoc_L (++) (take 4 vz)), take_drop, <- !app_assoc; done).
  rewrite <- Hlen at 1. rewrite write_slice_middle
    by (rewrite Datum.length_le_bytes, length_take; lia). cbn [rbind].
  replace ((P ++ [h] ++ ob ++ M) ++ Datum.le_bytes 4 (len v) ++ drop 4 vz ++ R)
    with ((P ++ [h] ++ ob ++ M ++ Datum.le_bytes 4 (len v)) ++ drop 4 vz ++ R)
    by by rewrite <- !app_assoc.
  replace (length (P ++ [h] ++ ob ++ M) + length (Datum.le_bytes 4 (len v)))%nat
    with (length (P ++ [h] ++ ob ++ M ++ Datum.le_bytes 4 (len v)))
    by (rewrite !length_app; lia).
  rewrite write_slice_middle by (rewrite length_drop; lia). cbn [rbind].
  rewrite <- !app_assoc. cbn [app]. f_equal. f_equal.
  - rewrite !length_app. unfold ob. rewrite Datum.length_le_bytes. cbn [length]. lia.
  - rewrite <- Hlen, Hv. cbn [app]. repeat first [rewrite length_app|progress cbn [length]].
    rewrite !Datum.length_le_bytes. lia.
Qed.

(** *** Writing one datum, and a list of them *)
Lemma write_datum_ok P fz M vz R d soff :
  length fz = cell_size d -> length vz = length (var_cell d) ->
  soff = length (P ++ fz ++ M) -> Z.of_nat soff <= MAX_ROW_LEN -> small_var d ->
  write_datum (Cursor (P ++ fz ++ M ++ vz ++ R) (length P) soff) d =
  Ok (Cursor (P ++ cell d soff ++ M ++ var_cell d ++ R) (length P + length fz) (soff + length vz)).
Proof.
  intros Hf Hv Hs Hm Hd. destruct d; unfold cell_size in Hf; cbn [Datum.is_null Datum.kind] in Hf;
    unfold small_var in Hd; cbn [var_payload] in Hd; unfold var_cell in *; cbn [var_payload] in *;
    rewrite ?length_app, ?Datum.length_le_bytes in Hv;
    unfold cell; cbn [Datum.is_null Datum.kind var_payload payload write_datum].
  all: try (apply write_var_ok; first [done|lia]).
  all: destruct vz; [|done]; cbn [app length] in *; rewrite ?Nat.add_0_r.
  all: try (rewrite write_fixed_ok by (rewrite ?Datum.length_le_bytes; exact Hf); done).
  destruct fz; [|done]. cbn [app length]. by rewrite Nat.add_0_r.
Qed.

Lemma split_at {A} n (l : list A) :
  (n <= length l)%nat -> exists l1 l2, l = l1 ++ l2 /\ length l1 = n.
Proof.
  intros H. exists (take n l), (drop n l). rewrite take_drop, length_take. split; [done|lia].
Qed.

Lemma write_datums_ok ds P fz M vz R soff :
  length fz = cells_size ds -> length vz = length (var_cells ds) ->
  soff = length (P ++ fz ++ M) -> Z.of_nat (soff + length vz) <= MAX_ROW_LEN -> Forall small_var ds ->
  rfold write_datum ds (Cursor (P ++ fz ++ M ++ vz ++ R) (length P) soff) =
  Ok (Cursor (P ++ cells ds soff ++ M ++ var_cells ds ++ R) (length P + length fz) (soff + length vz)).
Proof.
  revert P fz M vz soff. induction ds as [|d ds IH]; intros P fz M vz soff Hf Hv Hs Hm Hds.
  - destruct fz; [|done]. destruct vz; [|done]. cbn. by rewrite !Nat.add_0_r.
  - apply Forall_cons in Hds as [Hd Hds]. unfold cells_size, var_cells in *.
    cbn [rfold fmap list_fmap sum_list_with concat] in *. rewrite length_app in Hv.
    destruct (split_at (cell_size d) fz) as (f1 & f2 & -> & Hf1); [lia|].
    destruct (split_at (length (var_cell d)) vz) as (v1 & v2 & -> & Hv1); [lia|].
    rewrite !length_app in *.
    replace (P ++ (f1 ++ f2) ++ M ++ (v1 ++ v2) ++ R)
      with (P ++ f1 ++ (f2 ++ M) ++ v1 ++ (v2 ++ R)) by by rewrite <- !app_assoc.
    rewrite write_datum_ok; [|done|done|rewrite !length_app; lia|lia|done]. cbn [rbind].
    replace (P ++ cell d soff ++ (f2 ++ M) ++ var_cell d ++ v2 ++ R)
      with ((P ++ cell d soff) ++ f2 ++ (M ++ var_cell d) ++ v2 ++ R) by by rewrite <- !app_assoc.
    replace (length P + length f1)%nat with (length (P ++ cell d soff))
      by (rewrite length_app, length_cell; lia).
    rewrite IH; [|lia|lia|rewrite !length_app, length_cell; lia|lia|done].
    cbn [cells]. rewrite Hv1, <- !app_assoc. f_equal. f_equal.
    + rewrite length_app, length_cell. lia.
    + lia.
Qed.

(** *** Reading a cell *)
Lemma le_val_le_bytes n v : le_val (Datum.le_bytes n v) = v mod 2 ^ (8 * Z.of_nat n).
Proof. unfold le_val, Datum.le_bytes. rewrite rev_involutive. apply be_val_be_bytes_mod. Qed.

Lemma slice_to_app {E} a rest : @slice_to E (length a) (a ++ rest) = Ok a.
Proof.
  unfold slice_to. rewrite length_app, (proj2 (Nat.leb_le _ _)) by lia. by rewrite take_app_length.
Qed.

Lemma slice_from_app {E} a rest : @slice_from E (length a) (a ++ rest) = Ok rest.
Proof.
  unfold slice_from. rewrite length_app, (proj2 (Nat.leb_le _ _)) by lia. by rewrite drop_app_length.
Qed.

Lemma slice_from_1 {E} x rest : @slice_from E 1 (x :: rest) = Ok rest.
Proof. done. Qed.

Lemma slice_to_le {E} n v rest : @slice_to E n (Datum.le_bytes n v ++ rest) = Ok (Datum.le_bytes n v).
Proof. rewrite <- (Datum.length_le_bytes n v) at 1. apply slice_to_app. Qed.

Lemma read_uint_le {E} n v rest :
  uint (8 * Z.of_nat n) v -> @read_uint E n (Datum.le_bytes n v ++ rest) = Ok v.
Proof.
  intros H. unfold read_uint. rewrite slice_to_le. cbn [rbind].
  rewrite le_val_le_bytes, Z.mod_small by exact H. done.
Qed.

Lemma read_sint_le {E} n v rest :
  (0 < n)%nat -> sint (8 * Z.of_nat n) v -> @read_sint E n (Datum.le_bytes n v ++ rest) = Ok v.
Proof.
  intros Hn H. unfold read_sint. rewrite slice_to_le. cbn [rbind].
  rewrite le_val_le_bytes. fold (as_u (8 * Z.of_nat n) v). rewrite as_s_as_u by (done || lia). done.
Qed.

Lemma must_read_bytes_ok {E} soff v rest buf pre post :
  buf = pre ++ (Datum.le_bytes 4 (len v) ++ v) ++ post -> length pre = soff ->
  Z.of_nat soff < 2 ^ 32 -> len v < 2 ^ 32 ->
  @must_read_bytes E (Datum.le_bytes 4 (Z.of_nat soff) ++ rest) buf = Ok v.
Proof.
  intros -> Hpre Hs Hv. unfold must_read_bytes. rewrite slice_to_le. cbn [rbind].
  rewrite le_val_le_bytes, Z.mod_small, Nat2Z.id, <- Hpre, slice_from_app by lia. cbn [rbind].
  rewrite <- app_assoc, slice_to_le. cbn [rbind].
  rewrite le_val_le_bytes, Z.mod_small, Nat2Z.id by lia.
  rewrite <- (Datum.length_le_bytes 4 (len v)) at 1. rewrite slice_from_app. cbn [rbind].
  apply slice_to_app.
Qed.

(** The place of a variable-length payload in the buffer. *)
Definition payload_at (buf : bytes) (soff : nat) (d : Datum.t) : Prop :=
  match var_payload d with
  | Some v => exists pre post, buf = pre ++ var_cell d ++ post /\ length pre = soff /\
                Z.of_nat soff < 2 ^ 32 /\ len v < 2 ^ 32
  | None => True
  end.

Lemma view_cell {E} d soff rest buf :
  Datum.ok d -> Datum.is_null d = false -> payload_at buf soff d ->
  @datum_view_at E (cell d soff ++ rest) buf = Ok d.
Proof.
  intros Hok Hn Hp. unfold datum_view_at, cell. rewrite Hn. cbn [app read_byte lookup list_lookup unwrap rbind].
  unfold read_byte. cbn [lookup list_lookup unwrap rbind]. rewrite DatumKind.try_from_into.
  rewrite slice_from_1. cbn [rbind].
  destruct d; try done; cbn [Datum.kind var_payload payload must_read_view Datum.ok] in *.
  all: try (rewrite read_sint_le by (exact Hok || lia); done).
  all: try (rewrite read_uint_le by exact Hok; done).
  all: unfold payload_at in Hp; cbn [var_payload] in Hp.
  all: try (destruct Hp as (pre & post & Hb & Hpre & Hs & Hv); unfold var_cell in Hb; cbn [var_payload] in Hb;
            rewrite (must_read_bytes_ok soff v rest buf pre post) by done; done).
  all: unfold read_byte; cbn [app lookup list_lookup unwrap rbind].
  - by rewrite as_s_as_u by (done || lia).
  - by destruct v.
Qed.

(** *** Finding a cell *)
Lemma cells_app ds1 ds2 soff :
  cells (ds1 ++ ds2) soff = cells ds1 soff ++ cells ds2 (soff + length (var_cells ds1)).
Proof.
  revert soff. induction ds1 as [|d ds1 IH]; intros soff; cbn [cells app].
  - unfold var_cells. cbn. by rewrite Nat.add_0_r.
  - rewrite IH, <- app_assoc. unfold var_cells. cbn [fmap list_fmap concat]. rewrite length_app.
    do 2 f_equal. f_equal. lia.
Qed.

Lemma var_cells_app ds1 ds2 : var_cells (ds1 ++ ds2) = var_cells ds1 ++ var_cells ds2.
Proof. unfold var_cells. by rewrite fmap_app, concat_app. Qed.

(** The encoded row after a header [H]. *)
Definition image (H : bytes) (ds : row) : bytes :=
  H ++ cells ds (length H + cells_size ds) ++ var_cells ds.

Lemma view_image {E} H ds i d :
  Forall Datum.ok ds -> Forall small_var ds -> Z.of_nat (length (image H ds)) <= MAX_ROW_LEN ->
  ds !! i = Some d -> Datum.is_null d = false ->
  (let? b := slice_from (length H + cells_size (take i ds)) (image H ds) in
   @datum_view_at E b (image H ds)) = Ok d.
Proof.
  intros Hok Hsm Hlen Hi Hn.
  assert (ds = take i ds ++ d :: drop (S i) ds) as Hsplit by (symmetry; by apply take_drop_middle).
  set (soff := (length H + cells_size ds)%nat).
  assert (image H ds = (H ++ cells (take i ds) soff) ++
            (cell d (soff + length (var_cells (take i ds))) ++
             cells (drop (S i) ds) (soff + length (var_cells (take i ds)) + length (var_cell d))) ++
            var_cells ds) as Himg.
  { unfold image. fold soff. rewrite Hsplit at 1. rewrite cells_app. cbn [cells]. by rewrite <- !app_assoc. }
  rewrite Himg at 1.
  replace (length H + cells_size (take i ds))%nat with (length (H ++ cells (take i ds) soff))
    by by rewrite length_app, length_cells.
  rewrite slice_from_app. cbn [rbind]. rewrite <- app_assoc.
  apply view_cell; [by eapply (Forall_lookup_1 _ _ _ _ Hok)|done|].
  pose proof (Forall_lookup_1 _ _ _ _ Hsm Hi) as Hs.
  unfold payload_at, small_var in *. destruct (var_payload d) as [v|] eqn:Ev; [|done].
  exists (H ++ cells ds soff ++ var_cells (take i ds)), (var_cells (drop (S i) ds)).
  unfold MAX_ROW_LEN, MAX_STRING_LEN in *.
  assert (length (H ++ cells ds soff ++ var_cells (take i ds))
          = (soff + length (var_cells (take i ds)))%nat) as Hpre
    by (rewrite !length_app, length_cells; unfold soff; lia).
  assert (image H ds = (H ++ cells ds soff ++ var_cells (take i ds)) ++ var_cell d ++ var_cells (drop (S i) ds)) as Himg2.
  { unfold image. fold soff. rewrite Hsplit at 2. rewrite var_cells_app.
    unfold var_cells at 2. cbn [fmap list_fmap concat]. by rewrite <- !app_assoc. }
  split_and!; [done|done| |lia].
  rewrite Himg2 in Hlen. rewrite length_app, Hpre in Hlen. lia.
Qed.

(** *** The writer on a whole row *)
Section whole_row.
Context (s : Schema) (idx : IndexInWriterSchema) (r : row).
Hypothesis Hlen : length idx = num_columns s.
Hypothesis Hrange : forall j, Some j ∈ idx -> (j < length r)%nat.

#[local] Abbreviation ds := (table_row idx r).

Lemma writer_datum_ok {E} i o :
  idx !! i = Some o ->
  @writer_datum E idx r i =
  Ok (match o with Some j => Some (j, table_datum r (Some j)) | None => None end).
Proof.
  intros Hi. unfold writer_datum. rewrite Hi. cbn [unwrap rbind]. destruct o as [j|]; [|done].
  destruct (lookup_lt_is_Some_2 r j) as [d Hd]; [apply Hrange; by eapply list_elem_of_lookup_2|].
  cbn [table_datum]. by rewrite Hd.
Qed.

Lemma rfold_columns {E S} (f : S -> nat -> res E S) (g : S -> option nat -> res E S) st :
  (forall i o st, idx !! i = Some o -> f st i = g st o) ->
  rfold f (seq 0 (num_columns s)) st = rfold g idx st.
Proof. intros H. rewrite <- Hlen. apply rfold_seq. intros i o Hi st'. by apply H. Qed.

Lemma count_nulls_ok :
  rfold (count_nulls idx r) (seq 0 (num_columns s)) 0%nat
  = Ok (length (filter (fun d => Datum.is_null d = true) ds)).
Proof.
  rewrite (rfold_columns _ (fun n o => Ok (if Datum.is_null (table_datum r o) then S n else n))).
  - unfold table_row. clear Hlen Hrange. rewrite <- (Nat.add_0_l (length _)). generalize 0%nat.
    induction idx as [|o os IH]; intros n; cbn [rfold fmap list_fmap rbind]; [cbn; f_equal; lia|].
    rewrite IH. destruct (Datum.is_null (table_datum r o)) eqn:E.
    + rewrite filter_cons_True by done. cbn [length]. f_equal. lia.
    + rewrite filter_cons_False by congruence. done.
  - intros i o n Hi. unfold count_nulls. rewrite (writer_datum_ok i o Hi). by destruct o.
Qed.

Lemma var_size d : Datum.is_fixed_sized d = false ->
  (Z.to_nat (Datum.size d) + size_of_offset)%nat = length (var_cell d).
Proof.
  destruct d; try done; intros _; unfold var_cell, size_of_offset;
    cbn [var_payload Datum.size]; rewrite Nat2Z.id, length_app, Datum.length_le_bytes; lia.
Qed.

Lemma fixed_var_cell d : Datum.is_fixed_sized d = true -> var_cell d = [].
Proof. by destruct d. Qed.

Lemma var_cells_cons d l : var_cells (d :: l) = var_cell d ++ var_cells l.
Proof. done. Qed.

Lemma length_var_cells_cons d l :
  length (var_cells (d :: l)) = (length (var_cell d) + length (var_cells l))%nat.
Proof. unfold var_cells. cbn [fmap list_fmap concat]. by rewrite length_app. Qed.

Lemma with_nulls_len_ok :
  rfold (with_nulls_len idx r) (seq 0 (num_columns s)) (0, 0)%nat
  = Ok ((cells_size ds + length (var_cells ds))%nat, length (var_cells ds)).
Proof.
  rewrite (rfold_columns _ (fun st o => let d := table_datum r o in
     Ok ((st.1 + cell_size d + length (var_cell d))%nat, (st.2 + length (var_cell d))%nat))).
  - unfold table_row. clear Hlen Hrange.
    replace (cells_size (table_datum r <$> idx) + length (var_cells (table_datum r <$> idx)))%nat
      with (0 + cells_size (table_datum r <$> idx) + length (var_cells (table_datum r <$> idx)))%nat by lia.
    rewrite <- (Nat.add_0_l (length (var_cells _))) at 2.
    generalize 0%nat at 1 3. generalize 0%nat.
    induction idx as [|o os IH]; intros m n; cbn [rfold fmap list_fmap].
    + cbn. f_equal. f_equal; lia.
    + cbn [rbind fst snd]. rewrite IH. unfold cells_size. cbn [sum_list_with].
      rewrite length_var_cells_cons. f_equal. f_equal; lia.
  - intros i o [a b] Hi. unfold with_nulls_len. rewrite (writer_datum_ok i o Hi).
    destruct o as [j|]; cbn [rbind fst snd].
    + set (d := table_datum r (Some j)). unfold cell_size.
      destruct (Datum.is_fixed_sized d) eqn:Hfx.
      * rewrite (fixed_var_cell d Hfx). cbn [length]. destruct (Datum.is_null d); f_equal; f_equal; lia.
      * rewrite (var_size d Hfx). destruct (Datum.is_null d); f_equal; f_equal; lia.
    + cbn. f_equal. f_equal; lia.
Qed.

Lemma without_nulls_len_ok n :
  rfold (without_nulls_len idx r) (seq 0 (num_columns s)) n = Ok (n + length (var_cells ds))%nat.
Proof.
  rewrite (rfold_columns _ (fun n o => Ok (n + length (var_cell (table_datum r o)))%nat)).
  - unfold table_row. clear Hlen Hrange. revert n.
    induction idx as [|o os IH]; intros n; cbn [rfold fmap list_fmap].
    + cbn. f_equal. lia.
    + cbn [rbind]. rewrite IH, length_var_cells_cons. f_equal. lia.
  - intros i o m Hi. unfold without_nulls_len. rewrite (writer_datum_ok i o Hi).
    destruct o as [j|]; cbn [rbind].
    + set (d := table_datum r (Some j)). destruct (Datum.is_fixed_sized d) eqn:Hfx.
      * rewrite (fixed_var_cell d Hfx). cbn [length]. f_equal. lia.
      * rewrite <- (var_size d Hfx). unfold size_of_var_len, size_of_offset. f_equal. lia.
    + cbn. f_equal. lia.
Qed.

Lemma without_nulls_step_ok c :
  Forall (fun d => Datum.is_null d = false) ds ->
  rfold (without_nulls_step s idx r) (seq 0 (num_columns s)) c = rfold write_datum ds c.
Proof.
  intros Hnn. rewrite (rfold_columns _ (fun c o => write_datum c (table_datum r o))).
  - unfold table_row. clear Hlen Hrange Hnn. revert c. induction idx as [|o os IH]; intros c; simpl; [done|].
    destruct (write_datum c (table_datum r o)); simpl; auto.
  - intros i o c' Hi. unfold without_nulls_step. rewrite (writer_datum_ok i o Hi).
    destruct o as [j|]; [done|]. exfalso.
    assert (ds !! i = Some Datum.Null) as Hd by (unfold table_row; by rewrite list_lookup_fmap, Hi).
    by pose proof (Forall_lookup_1 _ _ _ _ Hnn Hd).
Qed.
End whole_row.

(** *** The null bits *)
Definition null_source (r : row) (os : IndexInWriterSchema) (i : nat) : bool :=
  bool_decide (Some i ∈ os) && Datum.is_null (table_datum r (Some i)).

(** What the second loop of [write_row_with_nulls] does with an index. *)
Definition with_nulls_source (r : row) (st : cursor * BitSet.t) (o : option nat)
    : res ContiguousError (cursor * BitSet.t) :=
  let? c := write_datum st.1 (table_datum r o) in
  match o with
  | Some j => if Datum.is_null (table_datum r o)
              then let? (b, _) := BitSet.unset st.2 j in Ok (c, b) else Ok (c, st.2)
  | None => Ok (c, st.2)
  end.

Lemma with_nulls_fold r os c b c' :
  rfold write_datum (table_datum r <$> os) c = Ok c' ->
  BitSetFacts.wf b -> (forall j, Some j ∈ os -> (j < BitSet.num_bits b)%nat) ->
  exists b', rfold (with_nulls_source r) os (c, b) = Ok (c', b') /\ BitSetFacts.wf b' /\
    BitSet.num_bits b' = BitSet.num_bits b /\
    forall i, BitSetFacts.bit b' i = BitSetFacts.bit b i && negb (null_source r os i).
Proof.
  revert c b. induction os as [|o os IH]; intros c b Hw Hwf Hj; cbn [fmap list_fmap rfold] in *.
  - injection Hw as <-. exists b. split_and!; try done. intros i. unfold null_source.
    rewrite bool_decide_eq_false_2 by set_solver. by rewrite andb_true_r.
  - apply rbind_ok in Hw as (c1 & Hc1 & Hw).
    assert (exists b1, with_nulls_source r (c, b) o = Ok (c1, b1) /\ BitSetFacts.wf b1 /\
      BitSet.num_bits b1 = BitSet.num_bits b /\
      forall i, BitSetFacts.bit b1 i = BitSetFacts.bit b i && negb (null_source r [o] i))
      as (b1 & Hs & Hwf1 & Hn1 & Hb1).
    { unfold with_nulls_source. cbn [fst snd]. rewrite Hc1. cbn [rbind].
      assert (forall i, null_source r [o] i = match o with
        | Some j => Nat.eqb j i && Datum.is_null (table_datum r o) | None => false end) as Hns.
      { intros i. unfold null_source. case_bool_decide as Hin; rewrite list_elem_of_singleton in Hin.
        - subst o. by rewrite Nat.eqb_refl.
        - destruct o as [j|]; [|done]. by rewrite (proj2 (Nat.eqb_neq j i)) by congruence. }
      destruct o as [j|].
      - destruct (Datum.is_null _) eqn:En.
        + destruct (BitSetFacts.unset_spec (E:=ContiguousError) b j Hwf) as (b' & Hu & Hwf' & Hnb & Hbit); [apply Hj; set_solver|].
          exists b'. rewrite Hu. split_and!; try done. intros i. rewrite Hbit, Hns, andb_true_r. done.
        + exists b. split_and!; try done. intros i. by rewrite Hns, andb_false_r, andb_true_r.
      - exists b. split_and!; try done. intros i. by rewrite Hns, andb_true_r. }
    rewrite Hs. cbn [rbind].
    destruct (IH c1 b1 Hw Hwf1) as (b' & Hf & Hwf' & Hnb & Hbit).
    { intros j Hin. rewrite Hn1. apply Hj. set_solver. }
    exists b'. split_and!; [done|done|congruence|]. intros i. rewrite Hbit, Hb1, <- andb_assoc. f_equal.
    unfold null_source. rewrite <- negb_orb. f_equal. rewrite <- andb_orb_distrib_l. f_equal.
    apply eq_true_iff_eq. rewrite orb_true_iff, !bool_decide_eq_true. set_solver.
Qed.

(** *** Offsets in the presence of nulls *)
Fixpoint null_offsets (ds : row) (cur : nat) : list Z :=
  match ds with
  | [] => []
  | d :: ds => (if Datum.is_null d then -1 else Z.of_nat cur) :: null_offsets ds (cur + cell_size d)
  end.

Lemma null_offsets_lookup ds cur i d :
  ds !! i = Some d ->
  null_offsets ds cur !! i = Some (if Datum.is_null d then -1 else Z.of_nat (cur + cells_size (take i ds))).
Proof.
  revert ds cur. induction i as [|i IH]; intros [|x ds] cur Hi; try done; cbn [null_offsets] in *.
  - injection Hi as ->. cbn. by rewrite Nat.add_0_r.
  - cbn [lookup list_lookup] in *. rewrite (IH ds _ Hi). f_equal.
    destruct (Datum.is_null d); [done|]. unfold cells_size. cbn [take sum_list_with]. f_equal. lia.
Qed.

Lemma offsets_from_lookup cols e i :
  (i < length cols)%nat ->
  (offsets_from e cols).1 !! i =
  Some (e + sum_list_with (fun c => byte_size_of_datum (ColumnSchema.data_type c)) (take i cols))%nat.
Proof.
  revert cols e. induction i as [|i IH]; intros [|c cols] e Hi; cbn [length] in Hi; try lia; cbn [offsets_from].
  - destruct (offsets_from _ cols). cbn. by rewrite Nat.add_0_r.
  - specialize (IH cols (e + byte_size_of_datum (ColumnSchema.data_type c))%nat ltac:(lia)).
    destruct (offsets_from _ cols) as [os l]. cbn [fst take sum_list_with] in *.
    change ((e :: os) !! S i) with (os !! i). rewrite IH. f_equal. lia.
Qed.

Lemma length_offsets_from cols e : length (offsets_from e cols).1 = length cols.
Proof.
  revert e. induction cols as [|c cols IH]; intros e; [done|]. cbn [offsets_from].
  specialize (IH (e + byte_size_of_datum (ColumnSchema.data_type c))%nat).
  destruct (offsets_from _ cols). cbn in *. lia.
Qed.

Lemma fits_cell_size d c : datum_fits d c -> Datum.is_null d = false ->
  cell_size d = byte_size_of_datum (ColumnSchema.data_type c).
Proof. intros Hf Hn. unfold datum_fits, cell_size in *. rewrite Hn in *. by rewrite Hf. Qed.

Lemma byte_size_bound k : (2 <= byte_size_of_datum k <= 9)%nat.
Proof. destruct k; cbn; lia. Qed.

Lemma fix_offsets_ok s b k e acc offs cols ds :
  BitSetFacts.wf b -> (k + length cols <= BitSet.num_bits b)%nat ->
  (forall i c, cols !! i = Some c -> columns s !! (k + i)%nat = Some c) ->
  Forall2 datum_fits ds cols ->
  (forall i d, ds !! i = Some d -> BitSetFacts.bit b (k + i) = negb (Datum.is_null d)) ->
  (acc <= e)%nat -> Z.of_nat (e + 9 * length cols) < 2 ^ 64 ->
  exists acc', rfold (fix_offset s b) (zip (seq k (length cols)) (offsets_from e cols).1) (offs, acc)
    = Ok (offs ++ null_offsets ds (e - acc), acc').
Proof.
  intros Hwf Hnb Hc Hfit. revert k e acc offs Hnb Hc.
  induction Hfit as [|d c ds cols Hd Hfit IH]; intros k e acc offs Hnb Hc Hbit Hacc He.
  - exists acc. cbn. by rewrite app_nil_r.
  - cbn [length offsets_from] in *.
    destruct (offsets_from (e + _) cols) as [os l] eqn:Eo. cbn [fst seq zip zip_with rfold fix_offset].
    rewrite BitSetFacts.is_set_spec, (proj2 (Nat.ltb_lt _ _)) by (done || lia). cbn [rbind].
    pose proof (Hbit 0%nat d eq_refl) as Hb. rewrite Nat.add_0_r in Hb. rewrite Hb.
    pose proof (Hc 0%nat c eq_refl) as Hcc. rewrite Nat.add_0_r in Hcc.
    pose proof (byte_size_bound (ColumnSchema.data_type c)) as Hbs.
    set (e' := (e + byte_size_of_datum (ColumnSchema.data_type c))%nat) in *.
    assert (forall acc1 offs1, (acc1 <= e')%nat -> exists acc',
      rfold (fix_offset s b) (zip (seq (S k) (length cols)) os) (offs1, acc1)
      = Ok (offs1 ++ null_offsets ds (e' - acc1), acc')) as IH'.
    { intros acc1 offs1 Hle. replace os with (offsets_from e' cols).1 by by rewrite Eo.
      apply IH; [lia| | |done|unfold e'; lia].
      - intros i c' Hi. rewrite <- (Hc (S i) c' Hi). f_equal. lia.
      - intros i d' Hi. rewrite <- (Hbit (S i) d' Hi). f_equal. lia. }
    destruct (Datum.is_null d) eqn:En; cbn [negb].
    + rewrite Hcc. cbn [unwrap rbind].
      destruct (IH' (acc + byte_size_of_datum (ColumnSchema.data_type c))%nat (offs ++ [-1])) as [acc' ->]; [unfold e'; lia|].
      exists acc'. cbn [null_offsets]. rewrite En, <- app_assoc. cbn [app]. unfold cell_size. rewrite En.
      do 5 f_equal. unfold e'. lia.
    + rewrite u64_op_ok by (unfold uint; lia). cbn [rbind].
      destruct (IH' acc (offs ++ [Z.of_nat e - Z.of_nat acc])) as [acc' ->]; [unfold e'; lia|].
      exists acc'. cbn [null_offsets]. rewrite En, <- app_assoc. cbn [app].
      rewrite (fits_cell_size d c Hd En). do 3 f_equal. f_equal; [lia|]. f_equal. unfold e'. lia.
Qed.

(** *** The encoded row *)
Definition header_size (s : Schema) : nat := (size_of_num_bits + BitSet.num_bytes (num_columns s))%nat.
(** An upper bound of the encoded length, with the bit set. *)
Definition encoded_size (s : Schema) (ds : row) : Z :=
  Z.of_nat (header_size s + cells_size ds + length (var_cells ds)).

Lemma length_image H ds : length (image H ds) = (length H + cells_size ds + length (var_cells ds))%nat.
Proof. unfold image. rewrite !length_app, length_cells. lia. Qed.

Section encoded_row.
Context (s : Schema) (idx : IndexInWriterSchema) (r : row).
Hypothesis Hlen : length idx = num_columns s.
Hypothesis Hrange : forall j, Some j ∈ idx -> (j < length r)%nat.
Hypothesis Hsmall : Forall small_var (table_row idx r).
Hypothesis Hsize : encoded_size s (table_row idx r) <= MAX_ROW_LEN.

#[local] Abbreviation ds := (table_row idx r).

Lemma write_zeros H f v :
  f = cells_size ds -> v = length (var_cells ds) ->
  Z.of_nat (length H + f + v) <= MAX_ROW_LEN ->
  rfold write_datum ds (Cursor (H ++ replicate f 0 ++ replicate v 0) (length H) (length H + f))
  = Ok (Cursor (image H ds) (length H + f) (length H + f + v)).
Proof.
  intros -> -> Hm.
  pose proof (write_datums_ok ds H (replicate (cells_size ds) 0) [] (replicate (length (var_cells ds)) 0) []
    (length H + cells_size ds)) as Hw.
  cbn [app] in Hw. rewrite !app_nil_r in Hw. rewrite !length_replicate in Hw.
  rewrite Hw; [done|done|done|by rewrite length_app, length_replicate|done|done].
Qed.

Lemma write_with_nulls_ok :
  (forall j, Some j ∈ idx -> (j < num_columns s)%nat) ->
  exists b, write_row_with_nulls s idx r
      = Ok (image (Datum.le_bytes 4 (as_u 32 (Z.of_nat (num_columns s))) ++ BitSet.buffer b) ds) /\
    BitSetFacts.wf b /\ BitSet.num_bits b = num_columns s /\
    forall i, (i < num_columns s)%nat -> BitSetFacts.bit b i = negb (null_source r idx i).
Proof.
  intros Hj. unfold write_row_with_nulls. rewrite (with_nulls_len_ok s idx r Hlen Hrange). cbn [rbind].
  set (n := num_columns s) in *.
  change (length (BitSet.buffer (BitSet.all_set n))) with (length (replicate (BitSet.num_bytes n) 255)).
  rewrite length_replicate.
  assert (header_size s = (size_of_num_bits + BitSet.num_bytes n)%nat) as Hh by done.
  rewrite <- Hh. unfold encoded_size in Hsize.
  replace (cells_size ds + length (var_cells ds) + header_size s - length (var_cells ds))%nat
    with (header_size s + cells_size ds)%nat by lia.
  assert (reset (cells_size ds + length (var_cells ds) + header_size s) 0
    = replicate (header_size s) 0 ++ replicate (cells_size ds) 0 ++ replicate (length (var_cells ds)) 0) as ->.
  { unfold reset. rewrite <- !replicate_add. f_equal. lia. }
  pose proof (write_zeros (replicate (header_size s) 0) (cells_size ds) (length (var_cells ds))
 eq_refl eq_refl) as Hw.
  rewrite length_replicate in Hw. specialize (Hw Hsize).
  rewrite (rfold_columns s idx Hlen _ (with_nulls_source r)).
  - destruct (with_nulls_fold r idx _ (BitSet.all_set n) _ Hw (BitSetFacts.all_set_wf n) Hj)
      as (b & -> & Hwf & Hnb & Hbit). cbn [rbind cur_inner].
    exists b. assert (length (BitSet.buffer b) = BitSet.num_bytes n) as Hbl by (rewrite (proj1 Hwf), Hnb; done).
    split_and!; [|done|done|].
    + unfold image. rewrite length_replicate.
      assert (replicate (header_size s) 0 = replicate 4 0 ++ replicate (BitSet.num_bytes n) 0) as ->
        by (rewrite <- replicate_add; done).
      rewrite <- app_assoc.
      rewrite write_slice_head by (rewrite length_replicate, Datum.length_le_bytes; done).
      cbn [rbind app]. set (nb := Datum.le_bytes 4 _).
      replace size_of_num_bits with (length nb) by (unfold nb; by rewrite Datum.length_le_bytes).
      rewrite write_slice_middle by (by rewrite length_replicate). cbn [rbind].
      rewrite <- !app_assoc. do 4 f_equal. rewrite length_app, Hbl. unfold nb. rewrite Datum.length_le_bytes. done.
    + intros i Hi. rewrite Hbit, BitSetFacts.all_set_bit by done. done.
  - intros i o [c b] Hi. unfold with_nulls_step, with_nulls_source. rewrite (writer_datum_ok idx r Hrange i o Hi).
    destruct o as [j|]; [done|]. done.
Qed.

Lemma write_without_nulls_ok :
  schema_wf s -> row_ok s ds -> Forall (fun d => Datum.is_null d = false) ds ->
  write_row_without_nulls s idx r = Ok (image (replicate 4 0) ds).
Proof.
  intros Hwf Hok Hnn. unfold write_row_without_nulls.
  rewrite (without_nulls_len_ok s idx r Hlen Hrange). cbn [rbind].
  rewrite (without_nulls_step_ok s idx r Hlen Hrange) by done.
  assert (string_buffer_offset s = cells_size ds) as ->.
  { pose proof (wf_offsets _ Hwf) as Ho. apply (f_equal snd) in Ho. cbn [snd] in Ho. rewrite <- Ho.
    rewrite <- (Nat.add_0_l (cells_size ds)). unfold row_ok in Hok. generalize 0%nat.
    clear Ho Hsize Hsmall. induction Hok as [|d c l cols Hd _ IH]; intros e; [cbn; lia|].
    apply Forall_cons in Hnn as [Hn Hnn]. cbn [offsets_from cells_size sum_list_with].
    specialize (IH Hnn (e + byte_size_of_datum (ColumnSchema.data_type c))%nat).
    destruct (offsets_from _ cols). cbn [snd] in *. rewrite IH. unfold cells_size. cbn [sum_list_with].
    rewrite (fits_cell_size d c Hd Hn). lia. }
  unfold size_of_num_bits, reset. cbn [DatumKind.into_u8].
  assert (replicate (cells_size ds + 4 + length (var_cells ds)) 0
    = replicate 4 0 ++ replicate (cells_size ds) 0 ++ replicate (length (var_cells ds)) 0) as ->.
  { rewrite <- !replicate_add. f_equal. lia. }
  rewrite (Nat.add_comm _ 4).
  pose proof (write_zeros (replicate 4 0) (cells_size ds) (length (var_cells ds)) eq_refl eq_refl) as Hw.
  rewrite length_replicate in Hw. rewrite Hw; [done|].
  unfold encoded_size, header_size, size_of_num_bits in Hsize. lia.
Qed.
End encoded_row.

(** *** The reader on an encoded row *)
Lemma cells_size_offsets s ds i :
  schema_wf s -> row_ok s ds -> Forall (fun d => Datum.is_null d = false) ds -> (i < length ds)%nat ->
  byte_offsets s !! i = Some (cells_size (take i ds)).
Proof.
  intros Hwf Hok Hnn Hi. pose proof (wf_offsets _ Hwf) as Ho. apply (f_equal fst) in Ho. cbn [fst] in Ho.
  rewrite <- Ho, offsets_from_lookup by (unfold row_ok in Hok; by rewrite <- (Forall2_length _ _ _ Hok)).
  f_equal. cbn [Nat.add]. clear Ho Hwf. unfold row_ok in Hok. revert i Hi.
  induction Hok as [|d c ds cols Hd _ IH]; intros [|i] Hi; cbn [length] in *; try done; try lia.
  apply Forall_cons in Hnn as [Hn Hnn]. unfold cells_size in *. cbn [take sum_list_with].
  rewrite (IH Hnn i) by lia. by rewrite (fits_cell_size d c Hd Hn).
Qed.

Lemma schema_nonempty s : schema_wf s -> (0 < num_columns s)%nat.
Proof.
  intros Hwf. destruct (proj1 (wf_timestamp _ Hwf _) eq_refl) as [_ (c & Hc & _)].
  apply lookup_lt_Some in Hc. unfold num_columns. lia.
Qed.

Lemma reader_no_nulls_ok {E} s ds :
  schema_wf s -> row_ok s ds -> Forall Datum.ok ds -> Forall small_var ds ->
  Forall (fun d => Datum.is_null d = false) ds -> encoded_size s ds <= MAX_ROW_LEN ->
  exists rd, reader_try_new (image (replicate 4 0) ds) s = Ok rd /\
    num_datum_views rd = num_columns s /\
    forall i d, ds !! i = Some d -> @reader_datum_view_at E rd i = Ok d.
Proof.
  intros Hwf Hok Hd Hsm Hnn Hsz. exists (NoNulls (image (replicate 4 0) ds) (byte_offsets s) 4). split_and!.
  - unfold reader_try_new, ensure, size_of_num_bits. rewrite length_image, length_replicate.
    rewrite (proj2 (Nat.leb_le _ _)) by lia. cbn [rbind]. unfold image.
    pose proof (@slice_to_app ContiguousError (replicate 4 0)
      (cells ds (length (replicate 4 0) + cells_size ds) ++ var_cells ds)) as Hs.
    rewrite length_replicate in Hs. rewrite length_replicate, Hs. cbn [rbind]. done.
  - cbn [num_datum_views]. pose proof (wf_offsets _ Hwf) as Ho. apply (f_equal fst) in Ho. cbn [fst] in Ho.
    rewrite <- Ho. apply length_offsets_from.
  - intros i d Hi. cbn [reader_datum_view_at].
    rewrite (cells_size_offsets s ds i) by (done || by eapply lookup_lt_Some). cbn [unwrap rbind].
    pose proof (view_image (E:=E) (replicate 4 0) ds i d Hd Hsm) as Hv.
    rewrite length_replicate in Hv. apply Hv; [|done|].
    + rewrite length_image, length_replicate. unfold encoded_size, header_size, size_of_num_bits in Hsz. lia.
    + by eapply (Forall_lookup_1 _ _ _ _ Hnn).
Qed.

(** Opening a buffer that starts with the null bits of a row. *)
Lemma reader_with_nulls_new s ds b rest :
  schema_wf s -> row_ok s ds -> Z.of_nat (num_columns s) < 2 ^ 32 ->
  BitSetFacts.wf b -> BitSet.num_bits b = num_columns s ->
  (forall i d, ds !! i = Some d -> BitSetFacts.bit b i = negb (Datum.is_null d)) ->
  let buf := (Datum.le_bytes 4 (as_u 32 (Z.of_nat (num_columns s))) ++ BitSet.buffer b) ++ rest in
  reader_try_new buf s = Ok (WithNulls buf (null_offsets ds 0) (header_size s)).
Proof.
  intros Hwf Hok Hn Hb Hnb Hbit. rewrite as_u_id by (unfold uint; lia). intros buf.
  assert (length (BitSet.buffer b) = BitSet.num_bytes (num_columns s)) as Hbl by (rewrite (proj1 Hb), Hnb; done).
  set (nb := Datum.le_bytes 4 (Z.of_nat (num_columns s))) in *.
  assert (length nb = 4%nat) as Hnbl by apply Datum.length_le_bytes.
  destruct (fix_offsets_ok s b 0 0 0 [] (columns s) ds) as [acc Hfix]; try done.
  { rewrite Hnb. done. }
  { unfold num_columns in Hn. lia. }
  assert (buf = nb ++ BitSet.buffer b ++ rest) as Ebuf by (unfold buf; by rewrite <- app_assoc).
  pose proof (schema_nonempty s Hwf) as Hpos.
  unfold reader_try_new, ensure, size_of_num_bits.
  rewrite (proj2 (Nat.leb_le _ _)) by (rewrite Ebuf, length_app; lia). cbn [rbind].
  rewrite Ebuf at 1. unfold nb at 1. rewrite slice_to_le. cbn [rbind].
  rewrite le_val_le_bytes, Z.mod_small, Nat2Z.id, (proj2 (Nat.ltb_lt _ _)) by (done || lia).
  unfold with_nulls_try_new, rassert. rewrite (proj2 (Nat.ltb_lt _ _)) by done. cbn [rbind].
  unfold size_of_num_bits at 1. rewrite Ebuf at 1. rewrite <- Hnbl, slice_from_app. cbn [rbind].
  unfold ensure. rewrite length_app, Hbl, (proj2 (Nat.leb_le _ _)) by lia. cbn [rbind]. rewrite <- Hbl at 1.
  rewrite slice_to_app. cbn [rbind]. unfold BitSet.try_from_raw.
  rewrite Hbl, (proj2 (Nat.ltb_ge _ _)) by lia. cbn [unwrap rbind].
  assert (BitSet.Mk (BitSet.buffer b) (num_columns s) = b) as -> by (destruct b; cbn in *; congruence).
  assert (enumerate (byte_offsets s) = zip (seq 0 (length (columns s))) (offsets_from 0 (columns s)).1) as ->.
  { rewrite (wf_offsets _ Hwf). unfold enumerate. do 2 f_equal. cbn [fst].
    pose proof (length_offsets_from (columns s) 0) as Hlo. by rewrite (wf_offsets _ Hwf) in Hlo. }
  rewrite Hfix. cbn [rbind app]. done.
Qed.

Lemma reader_with_nulls_ok {E} s ds b :
  schema_wf s -> row_ok s ds -> Forall Datum.ok ds -> Forall small_var ds ->
  encoded_size s ds <= MAX_ROW_LEN -> Z.of_nat (num_columns s) < 2 ^ 32 ->
  BitSetFacts.wf b -> BitSet.num_bits b = num_columns s ->
  (forall i d, ds !! i = Some d -> BitSetFacts.bit b i = negb (Datum.is_null d)) ->
  exists rd,
    reader_try_new (image (Datum.le_bytes 4 (as_u 32 (Z.of_nat (num_columns s))) ++ BitSet.buffer b) ds) s = Ok rd /\
    num_datum_views rd = num_columns s /\
    forall i d, ds !! i = Some d -> @reader_datum_view_at E rd i = Ok d.
Proof.
  intros Hwf Hok Hd Hsm Hsz Hn Hb Hnb Hbit. unfold image.
  rewrite (reader_with_nulls_new s ds b) by done. eexists. split; [reflexivity|].
  set (H := Datum.le_bytes 4 _ ++ _). fold (image H ds).
  assert (length H = header_size s) as HH.
  { unfold H. rewrite length_app, Datum.length_le_bytes, (proj1 Hb), Hnb. done. }
  split.
  - cbn [num_datum_views]. unfold num_columns. rewrite <- (Forall2_length _ _ _ Hok). generalize 0%nat.
    clear. induction ds as [|d ds IH]; intros c; cbn; [done|]. by rewrite IH.
  - intros i d Hi. cbn [reader_datum_view_at]. rewrite (null_offsets_lookup ds 0 i d Hi). cbn [unwrap rbind].
    destruct (Datum.is_null d) eqn:En; [by destruct d|].
    rewrite Z_ltb_false by lia. rewrite Nat2Z.id, <- HH. cbn [Nat.add].
    apply view_image; try done. rewrite length_image, HH. exact Hsz.
Qed.

(** *** The mapping of a writer with the table's own schema *)
Lemma for_same_schema_elem n i : Some i ∈ for_same_schema n <-> (i < n)%nat.
Proof.
  unfold for_same_schema. rewrite list_elem_of_fmap. split.
  - intros (j & [= ->] & Hj%elem_of_seq). lia.
  - intros H. exists i. split; [done|]. apply elem_of_seq. lia.
Qed.

Lemma table_row_same n r : length r = n -> table_row (for_same_schema n) r = r.
Proof.
  intros <-. unfold table_row, for_same_schema. apply list_eq. intros i.
  rewrite !list_lookup_fmap. destruct (decide (i < length r)%nat) as [Hi|Hi].
  - rewrite lookup_seq_lt by done. cbn. destruct (lookup_lt_is_Some_2 r i Hi) as [d ->]. done.
  - rewrite lookup_seq_ge by lia. cbn. symmetry. apply lookup_ge_None. lia.
Qed.

Lemma filter_nil_nonnull (ds : row) :
  length (filter (fun d => Datum.is_null d = true) ds) = 0%nat <->
  Forall (fun d => Datum.is_null d = false) ds.
Proof.
  induction ds as [|d ds IH]; [done|]. rewrite Forall_cons.
  destruct (Datum.is_null d) eqn:E.
  - rewrite filter_cons_True by done. cbn [length]. naive_solver.
  - rewrite filter_cons_False by congruence. rewrite IH. naive_solver.
Qed.

(** *** Writing and reading a row *)
Lemma row_roundtrip {E} s writer idx r :
  schema_wf s -> index_mapping s writer idx -> row_ok writer r ->
  Forall Datum.ok r -> Forall small_var r ->
  encoded_size s (table_row idx r) <= MAX_ROW_LEN -> Z.of_nat (num_columns s) < 2 ^ 32 ->
  idx = for_same_schema (num_columns s) \/ Forall (fun d => Datum.is_null d = false) (table_row idx r) ->
  exists buf rd,
    write_row s idx r = Ok buf /\ len buf <= MAX_ROW_LEN /\
    reader_try_new buf s = Ok rd /\ num_datum_views rd = num_columns s /\
    forall i d, table_row idx r !! i = Some d -> @reader_datum_view_at E rd i = Ok d.
Proof.
  intros Hwf Him Hr Hok Hsm Hsz Hn Hcase.
  pose proof (table_row_ok _ _ _ _ Him Hr) as Htr. pose proof (table_row_datums_ok idx r Hok) as Htok.
  assert (Forall small_var (table_row idx r)) as Htsm.
  { apply Forall_fmap, Forall_forall. intros [j|] _; [|done]. cbn.
    destruct (r !! j) as [d|] eqn:Erj; [|done]. by eapply (Forall_lookup_1 _ _ _ _ Hsm). }
  assert (length idx = num_columns s) as Hl by (symmetry; apply (Forall2_length _ _ _ (im_sources _ _ _ Him))).
  assert (forall j, Some j ∈ idx -> (j < length r)%nat) as Hrange.
  { intros j Hj. rewrite (Forall2_length _ _ _ Hr). eapply sources_bound; [apply Him|done]. }
  unfold write_row. rewrite (count_nulls_ok s idx r Hl Hrange). cbn [rbind].
  destruct (Nat.ltb_spec 0 (length (filter (fun d => Datum.is_null d = true) (table_row idx r)))) as [Hc|Hc].
  - destruct Hcase as [->|Hnn]; [|apply filter_nil_nonnull in Hnn; lia].
    destruct (write_with_nulls_ok s _ r Hl Hrange Htsm Hsz) as (b & -> & Hbwf & Hnb & Hbit).
    { intros j. apply for_same_schema_elem. }
    destruct (reader_with_nulls_ok (E:=E) s _ b Hwf Htr Htok Htsm Hsz Hn Hbwf Hnb) as (rd & H1 & H2 & H3).
    { intros i d Hi. pose proof (lookup_lt_Some _ _ _ Hi) as Hlt.
      unfold table_row in Hi, Hlt. rewrite length_fmap, Hl in Hlt.
      rewrite Hbit by done. unfold null_source.
      rewrite bool_decide_eq_true_2 by by apply for_same_schema_elem.
      unfold for_same_schema in Hi. rewrite !list_lookup_fmap, lookup_seq_lt in Hi by done.
      injection Hi as <-. done. }
    eexists _, rd. split; [done|]. split; [|done]. rewrite length_image, length_app, Datum.length_le_bytes.
    unfold encoded_size, header_size, size_of_num_bits in Hsz. destruct Hbwf as [Hbl _]. rewrite Hbl, Hnb. lia.
  - assert (Forall (fun d => Datum.is_null d = false) (table_row idx r)) as Hnn by (apply filter_nil_nonnull; lia).
    rewrite (write_without_nulls_ok s idx r Hl Hrange Htsm Hsz Hwf Htr Hnn).
    destruct (reader_no_nulls_ok (E:=E) s (table_row idx r) Hwf Htr Htok Htsm Hnn Hsz) as (rd & H1 & H2 & H3).
    exists (image (replicate 4 0) (table_row idx r)), rd. split; [done|]. split; [|done].
    rewrite length_image, length_replicate. unfold encoded_size, header_size, size_of_num_bits in Hsz. lia.
Qed.

(** ** Properties *)

(** C39. A contiguous row reads back: for a row of a compatible writer whose
    strings and total size are within the limits, writing succeeds, the buffer
    opens as a row of the table, and every column reads as the table's value,
    provided the writer uses the table's own schema or no column of the table
    is null. *)
Theorem contiguous_row_roundtrip s writer idx r :
  schema_wf s -> index_mapping s writer idx -> row_ok writer r ->
  Forall Datum.ok r -> Forall small_var r ->
  encoded_size s (table_row idx r) <= MAX_ROW_LEN -> Z.of_nat (num_columns s) < 2 ^ 32 ->
  idx = for_same_schema (num_columns s) \/ Forall (fun d => Datum.is_null d = false) (table_row idx r) ->
  exists buf rd,
    write_row s idx r = Ok buf /\ reader_try_new buf s = Ok rd /\ num_datum_views rd = num_columns s /\
    forall i d, table_row idx r !! i = Some d -> @reader_datum_view_at unit rd i = Ok d.
Proof.
  intros Hwf Him Hr Hok Hsm Hsz Hn Hcase.
  destruct (row_roundtrip (E:=unit) s writer idx r) as (buf & rd & ? & _ & ? & ? & ?); auto.
  by exists buf, rd.
Qed.

Lemma contiguous_row_roundtrip_witness :
  let r := [Datum.String [104; 105]; Datum.Timestamp (-7); Datum.Null] in
  let idx := for_same_schema 3 in
  exists buf rd,
    write_row the_demo idx r = Ok buf /\ reader_try_new buf the_demo = Ok rd /\
    num_datum_views rd = num_columns the_demo /\
    forall i d, table_row idx r !! i = Some d -> @reader_datum_view_at unit rd i = Ok d.
Proof.
  intros r idx. apply (contiguous_row_roundtrip the_demo the_demo idx r the_demo_wf).
  - apply compatible_for_write_iff; [apply the_demo_wf|apply the_demo_wf|vm_compute; reflexivity].
  - apply check_row_schema_ok. vm_compute. reflexivity.
  - repeat constructor; vm_compute; intros; discriminate.
  - repeat constructor; vm_compute; intros; discriminate.
  - vm_compute. intros; discriminate.
  - vm_compute. reflexivity.
  - left. reflexivity.
Defined.

(** *** A writer that lacks the last column *)
Lemma missing_layout l :
  Forall (fun d => Datum.is_null d = false /\ var_payload d = None) l ->
  var_cells (l ++ [Datum.Null]) = [] /\ cells_size (l ++ [Datum.Null]) = cells_size l /\
  Forall small_var (l ++ [Datum.Null]) /\ var_cells l = [].
Proof.
  induction 1 as [|d l [_ Hv] _ (IH1 & IH2 & IH3 & IH4)].
  - split_and!; try done. by apply Forall_singleton.
  - assert (var_cell d = []) as Hvc by (unfold var_cell; by rewrite Hv).
    cbn [app]. rewrite !var_cells_cons, Hvc. unfold cells_size in *. cbn [sum_list_with app].
    split_and!; [done|by rewrite IH2| |done]. constructor; [|done]. unfold small_var. by rewrite Hv.
Qed.

Section missing_column.
Context (s : Schema) (r : row) (c : column).
Hypothesis Hwf : schema_wf s.
Hypothesis Hnum : num_columns s = S (length r).
Hypothesis Hc : columns s !! length r = Some c.
Hypothesis Hk : ColumnSchema.data_type c <> DatumKind.Null.
Hypothesis Hfit : Forall2 datum_fits r (take (length r) (columns s)).
Hypothesis Hfix : Forall (fun d => Datum.is_null d = false /\ var_payload d = None) r.

#[local] Abbreviation idx := (for_same_schema (length r) ++ [None]).
(** The row the reader's offsets are computed for: no column is null. *)
#[local] Abbreviation full := (r ++ [Datum.empty (ColumnSchema.data_type c)]).

Lemma missing_table_row : table_row idx r = r ++ [Datum.Null].
Proof.
  unfold table_row. rewrite fmap_app. fold (table_row (for_same_schema (length r)) r).
  by rewrite table_row_same.
Qed.

Lemma missing_length : length idx = num_columns s.
Proof. unfold for_same_schema. rewrite length_app, length_map, length_seq. simpl. lia. Qed.

Lemma missing_range j : Some j ∈ idx -> (j < length r)%nat.
Proof. intros [Hj|Hj%list_elem_of_singleton]%elem_of_app; [|done]. by apply for_same_schema_elem. Qed.

Lemma missing_not_null : Datum.is_null (Datum.empty (ColumnSchema.data_type c)) = false.
Proof. by destruct (ColumnSchema.data_type c). Qed.

Lemma missing_full_ok : row_ok s full.
Proof.
  unfold row_ok. rewrite <- (take_drop (length r) (columns s)). apply Forall2_app; [done|].
  rewrite (drop_S _ c) by done. rewrite drop_ge by (unfold num_columns in Hnum; lia).
  constructor; [|constructor]. unfold datum_fits. rewrite missing_not_null. apply Datum.kind_empty.
Qed.

(** All bits stay set, as for the row without nulls. *)
Lemma missing_bits i d : full !! i = Some d -> null_source r idx i = Datum.is_null d.
Proof.
  intros Hi. transitivity false.
  - unfold null_source. case_bool_decide as Hin; [|done]. apply missing_range in Hin.
    destruct (lookup_lt_is_Some_2 r i Hin) as [d' Hd']. cbn. rewrite Hd'.
    by apply (Forall_lookup_1 _ _ _ _ Hfix Hd').
  - symmetry. apply lookup_snoc_inv in Hi as [Hi|[_ ->]]; [|apply missing_not_null].
    by apply (Forall_lookup_1 _ _ _ _ Hfix Hi).
Qed.
End missing_column.

(** The null bits are kept by the writer's column order, and a column
    the writer lacks has none cleared: when the writer lacks the table's last
    column, here for rows of fixed-size non-null values, the row is written
    and opens, and reading the missing column panics instead of giving null. *)
Theorem contiguous_missing_column_panics s r c :
  schema_wf s -> num_columns s = S (length r) -> columns s !! length r = Some c ->
  ColumnSchema.is_nullable c = true -> ColumnSchema.data_type c <> DatumKind.Null ->
  Forall2 datum_fits r (take (length r) (columns s)) ->
  Forall (fun d => Datum.is_null d = false /\ var_payload d = None) r ->
  encoded_size s r <= MAX_ROW_LEN -> Z.of_nat (num_columns s) < 2 ^ 32 ->
  let idx := for_same_schema (length r) ++ [None] in
  exists buf rd,
    write_row s idx r = Ok buf /\ reader_try_new buf s = Ok rd /\
    table_row idx r !! length r = Some Datum.Null /\
    @reader_datum_view_at unit rd (length r) = Panic.
Proof.
  intros Hwf Hnum Hc _ Hk Hfit Hfix Hsz Hn idx.
  pose proof (missing_table_row r : table_row idx r = _) as Etr.
  pose proof (missing_length s r Hnum : length idx = _) as Hl.
  pose proof (missing_range r : forall j, Some j ∈ idx -> _) as Hrange.
  destruct (missing_layout r Hfix) as (Evar & Esz & Hsm & Evar').
  assert (encoded_size s (table_row idx r) <= MAX_ROW_LEN) as Hsz'.
  { unfold encoded_size in *. rewrite Etr, Esz, Evar. by rewrite Evar' in Hsz. }
  unfold write_row. rewrite (count_nulls_ok s idx r Hl Hrange), Etr. cbn [rbind].
  rewrite filter_app, filter_cons_True, length_app, (proj2 (Nat.ltb_lt _ _)) by (done || (cbn; lia)).
  destruct (write_with_nulls_ok s idx r Hl Hrange) as (b & -> & Hbwf & Hnb & Hbit).
  { by rewrite Etr. } { done. } { intros j Hj. specialize (Hrange j Hj). lia. }
  set (H := Datum.le_bytes 4 _ ++ _).
  assert (length H = header_size s) as HH.
  { unfold H. rewrite length_app, Datum.length_le_bytes, (proj1 Hbwf), Hnb. done. }
  pose proof (reader_with_nulls_new s (r ++ [Datum.empty (ColumnSchema.data_type c)]) b
    (cells (r ++ [Datum.Null]) (length H + cells_size (r ++ [Datum.Null])) ++ var_cells (r ++ [Datum.Null])) Hwf) as Hnew.
  fold H in Hnew. rewrite Etr. eexists _, _. split; [reflexivity|]. split.
  { apply Hnew; try done; [by apply missing_full_ok|]. intros i d Hi.
    rewrite Hbit by (apply lookup_lt_Some in Hi; rewrite length_app in Hi; simpl in Hi; lia).
    f_equal. by apply (missing_bits r c). }
  split; [by rewrite list_lookup_middle|].
  cbn [reader_datum_view_at].
  rewrite (null_offsets_lookup _ 0 (length r) (Datum.empty (ColumnSchema.data_type c)))
    by by rewrite list_lookup_middle.
  rewrite missing_not_null by done. cbn [unwrap rbind]. rewrite Z_ltb_false, Nat2Z.id by lia.
  rewrite take_app_length, Evar, app_nil_r. unfold slice_from.
  rewrite length_app, length_cells, Esz, HH, (proj2 (Nat.leb_le _ _)) by lia. cbn [rbind].
  rewrite drop_ge; [done|]. rewrite length_app, length_cells, Esz, HH. lia.
Qed.

(** A table of a timestamp and a nullable value. *)
Definition narrow_schema : Schema :=
  match rfold demo_add (drop 1 demo_columns) builder_new with
  | Ok b => match build b with Ok s => s | _ => the_demo end
  | _ => the_demo
  end.

Lemma narrow_schema_wf : schema_wf narrow_schema.
Proof.
  apply (demo_wf_of (drop 1 demo_columns)
    (match rfold demo_add (drop 1 demo_columns) builder_new with Ok b => b | _ => builder_new end));
    vm_compute; reflexivity.
Qed.

Lemma contiguous_missing_column_panics_witness :
  exists buf rd,
    write_row narrow_schema [Some 0%nat; None] [Datum.Timestamp 7] = Ok buf /\
    reader_try_new buf narrow_schema = Ok rd /\
    table_row [Some 0%nat; None] [Datum.Timestamp 7] !! 1%nat = Some Datum.Null /\
    @reader_datum_view_at unit rd 1 = Panic.
Proof.
  apply (contiguous_missing_column_panics narrow_schema [Datum.Timestamp 7]
    (ColumnSchema.Mk 3 "value" DatumKind.Double true false false "") narrow_schema_wf).
  - vm_compute. reflexivity.
  - vm_compute. reflexivity.
  - reflexivity.
  - discriminate.
  - repeat constructor.
  - repeat constructor.
  - vm_compute. intros; discriminate.
  - vm_compute. reflexivity.
Defined.
