(* ===== verification/Time.v ===== *)
(** * Timestamps and time ranges: [common_types/src/time.rs]

    A timestamp is an [i64] of milliseconds, a [Duration] is its whole
    milliseconds (what [as_millis] gives, a non-negative number).
    [Timestamp::now] and [expire_time], which read the clock, take the time as
    an argument. *)

From Stdlib Require Import ZArith Lia.
From stdpp Require Import base tactics option list numbers.
From S2P Require Import Prelude.

#[local] Open Scope Z_scope.

(** ** [Timestamp] *)
Module Timestamp.
Definition MAX : Z := i64_max.
Definition MIN : Z := i64_min.
Definition ZERO : Z := 0.

(** [as_millis().try_into::<i64>().ok()]. *)
Definition millis_i64 (duration : Z) : option Z := if duration <=? i64_max then Some duration else None.

(** [self.0 / duration_millis * duration_millis]; division by zero panics. *)
Definition truncate_by {E} (self duration : Z) : res E Z :=
  let duration_millis := as_s 64 duration in
  if duration_millis =? 0 then Panic
  else let? q := i64_op (Z.quot self duration_millis) in i64_op (q * duration_millis).

(** [checked_div] by a positive number always answers. *)
Definition checked_floor_by_i64 {E} (self duration_ms : Z) : res E (option Z) :=
  let? _ := rassert (0 <? duration_ms) in
  let normalized_ts := if 0 <=? self then Some self else i64_checked (self - (duration_ms - 1)) in
  Ok (match normalized_ts with
      | None => None
      | Some n => i64_checked (Z.quot n duration_ms * duration_ms)
      end).

Definition checked_add_i64 (self offset_ms : Z) : option Z := i64_checked (self + offset_ms).
Definition checked_add (self other : Z) : option Z := i64_checked (self + other).
Definition checked_sub (self other : Z) : option Z := i64_checked (self - other).
Definition checked_sub_duration (self duration : Z) : option Z :=
  match millis_i64 duration with
  | Some duration_millis => i64_checked (self - duration_millis)
  | None => None
  end.
Definition sub_duration_or_min (self duration : Z) : Z := default MIN (checked_sub_duration self duration).
Definition expire_time (now ttl : Z) : Z := sub_duration_or_min now ttl.
Definition is_expired (self expired_time : Z) : bool := self <? expired_time.
End Timestamp.

(** ** [TimeRange] *)
Module TimeRange.
Record t := Mk { inclusive_start : Z; exclusive_end : Z }.

#[global] Instance time_range_eq_dec : EqDecision t.
Proof. solve_decision. Defined.

Definition new (inclusive_start exclusive_end : Z) : option t :=
  if inclusive_start <=? exclusive_end then Some (Mk inclusive_start exclusive_end) else None.
Definition new_unchecked {E} (inclusive_start exclusive_end : Z) : res E t :=
  unwrap (new inclusive_start exclusive_end).
Definition from_timestamp {E} (ts : Z) : res E t :=
  let stop := default ts (Timestamp.checked_add_i64 ts 1) in
  unwrap (new ts stop).
Definition min_to_max : t := Mk Timestamp.MIN Timestamp.MAX.
Definition empty : t := Mk Timestamp.ZERO Timestamp.ZERO.

Definition contains (self : t) (ts : Z) : bool :=
  (inclusive_start self <=? ts) && (ts <? exclusive_end self).

Definition bucket_of {E} (timestamp bucket_duration : Z) : res E (option t) :=
  match Timestamp.millis_i64 bucket_duration with
  | None => Ok None
  | Some bucket_duration_ms =>
      if bucket_duration_ms <=? 0 then Ok None
      else
        let? o := Timestamp.checked_floor_by_i64 timestamp bucket_duration_ms in
        match o with
        | None => Ok None
        | Some inclusive_start =>
            Ok (match Timestamp.checked_add_i64 inclusive_start bucket_duration_ms with
                | None => None
                | Some exclusive_end => Some (Mk inclusive_start exclusive_end)
                end)
        end
  end.

Definition not_intersecting (self other : t) : bool :=
  (exclusive_end other <=? inclusive_start self) || (exclusive_end self <=? inclusive_start other).
Definition intersect_with (self other : t) : bool := negb (not_intersecting self other).

Definition is_expired (self : t) (expire_time : option Z) : bool :=
  match expire_time with Some e => exclusive_end self <=? e | None => false end.

Definition intersected_range (self other : t) : option t :=
  new (Z.max (inclusive_start self) (inclusive_start other))
      (Z.min (exclusive_end self) (exclusive_end other)).

(** The ranges the type holds. *)
Definition ok (r : t) : Prop :=
  sint 64 (inclusive_start r) /\ sint 64 (exclusive_end r) /\ inclusive_start r <= exclusive_end r.
End TimeRange.

(** ** Flooring *)

(** The division towards zero of the shifted value is the floor. *)
Lemma quot_floor ts d : 0 < d ->
  Z.quot (if 0 <=? ts then ts else ts - (d - 1)) d = ts / d.
Proof.
  intros Hd. destruct (Z.leb_spec 0 ts).
  - by apply Z.quot_div_nonneg.
  - assert (ts - (d - 1) = - (d - 1 - ts)) as -> by lia.
    rewrite Z.quot_opp_l, Z.quot_div_nonneg by lia.
    pose proof (Z.div_mod ts d ltac:(lia)). pose proof (Z.mod_pos_bound ts d Hd).
    enough ((d - 1 - ts) / d = - (ts / d)) by lia.
    symmetry. apply (Z.div_unique_pos _ _ _ (d - 1 - ts mod d)); lia.
Qed.

Lemma checked_floor_spec {E} ts d :
  0 < d -> sint 64 ts -> sint 64 d ->
  @Timestamp.checked_floor_by_i64 E ts d =
  Ok (if (0 <=? ts) || (i64_min <=? ts - (d - 1)) then Some (d * (ts / d)) else None).
Proof.
  intros Hd Hts Hds. unfold Timestamp.checked_floor_by_i64, rassert. rewrite Z_ltb_true by done. cbn [rbind].
  f_equal. pose proof (quot_floor ts d Hd) as Hq.
  unfold sint in *. change (64 - 1) with 63 in *.
  pose proof (Z.div_mod ts d ltac:(lia)). pose proof (Z.mod_pos_bound ts d Hd).
  assert (forall x, - 2 ^ 63 <= x < 2 ^ 63 -> i64_checked x = Some x) as Hck.
  { intros x Hx. apply i64_checked_some. done. }
  destruct (Z.leb_spec 0 ts) as [Hp|Hn]; cbn [orb].
  - rewrite Hq, Z.mul_comm. apply Hck. lia.
  - destruct (Z.leb_spec i64_min (ts - (d - 1))) as [Hl|Hl]; unfold i64_min in *.
    + rewrite Hck by lia. rewrite Hq, Z.mul_comm. apply Hck. lia.
    + assert (i64_checked (ts - (d - 1)) = None) as ->; [|done].
      apply i64_checked_none. unfold sint. change (64 - 1) with 63. lia.
Qed.

(** The bucket of a timestamp, when the arithmetic does not overflow. *)
Lemma bucket_of_spec {E} ts d :
  sint 64 ts -> 0 <= d ->
  @TimeRange.bucket_of E ts d =
  Ok (if (0 <? d) && (d <=? i64_max) && ((0 <=? ts) || (i64_min <=? ts - (d - 1)))
         && (d * (ts / d) + d <=? i64_max)
      then Some (TimeRange.Mk (d * (ts / d)) (d * (ts / d) + d)) else None).
Proof.
  intros Hts Hd. unfold TimeRange.bucket_of, Timestamp.millis_i64.
  destruct (Z.leb_spec d i64_max) as [Hm|Hm]; [|by rewrite andb_false_r].
  destruct (Z.leb_spec d 0) as [H0|H0]; [by rewrite Z_ltb_false by lia|].
  rewrite Z_ltb_true by lia. cbn [andb].
  assert (sint 64 d) by (unfold sint, i64_max in *; change (64 - 1) with 63; lia).
  rewrite checked_floor_spec by done. cbn [rbind].
  destruct ((0 <=? ts) || _) eqn:E1; cbn [andb]; [|done].
  unfold Timestamp.checked_add_i64. pose proof (Z.div_mod ts d ltac:(lia)).
  pose proof (Z.mod_pos_bound ts d H0).
  destruct (Z.leb_spec (d * (ts / d) + d) i64_max) as [Hl|Hl].
  - rewrite (proj2 (i64_checked_some _ (d * (ts / d) + d))); [done|]. split; [done|].
    unfold sint, i64_max, i64_min in *. change (64 - 1) with 63 in *. lia.
  - rewrite (proj2 (i64_checked_none (d * (ts / d) + d))); [done|].
    unfold sint, i64_max in *. change (64 - 1) with 63 in *. lia.
Qed.

Lemma contains_spec r ts :
  TimeRange.contains r ts = true <->
  TimeRange.inclusive_start r <= ts < TimeRange.exclusive_end r.
Proof. unfold TimeRange.contains. lia. Qed.

(** A bucket contains its timestamp and is aligned. *)
Lemma bucket_of_some {E} ts d r :
  sint 64 ts -> 0 <= d -> @TimeRange.bucket_of E ts d = Ok (Some r) ->
  0 < d /\ d <= i64_max /\ TimeRange.inclusive_start r = d * (ts / d) /\
  TimeRange.exclusive_end r = TimeRange.inclusive_start r + d /\
  TimeRange.contains r ts = true /\ TimeRange.exclusive_end r <= i64_max /\
  i64_min <= TimeRange.inclusive_start r.
Proof.
  intros Hts Hd. rewrite bucket_of_spec by done. intros H.
  destruct (_ && _) eqn:E1 in H; [|done]. injection H as <-.
  apply andb_true_iff in E1 as [[[H1 H2]%andb_true_iff H3]%andb_true_iff H4].
  pose proof (Z.div_mod ts d ltac:(lia)). pose proof (Z.mod_pos_bound ts d ltac:(lia)).
  rewrite contains_spec. cbn [TimeRange.inclusive_start TimeRange.exclusive_end].
  assert (0 <= ts -> ts mod d <= ts) by (intros; apply Z.mod_le; lia).
  unfold sint in Hts. change (64 - 1) with 63 in Hts. unfold i64_min in *. lia.
Qed.

Lemma floor_in_bucket d s ts : 0 < d -> d * (s / d) <= ts < d * (s / d) + d -> ts / d = s / d.
Proof.
  intros Hd H. symmetry. apply (Z.div_unique_pos _ _ _ (ts - d * (s / d))); lia.
Qed.

(** ** Properties *)

(** The buckets of a duration partition time: a bucket has the length of
    the duration, starts at a multiple of it, contains its timestamp, and a
    timestamp that lies in the bucket of another has the same bucket, unless
    the arithmetic on it overflows, when the answer is none. *)
Theorem bucket_of_partition ts ts' d r :
  sint 64 ts -> sint 64 ts' -> 0 <= d ->
  @TimeRange.bucket_of unit ts d = Ok (Some r) ->
  TimeRange.contains r ts = true /\
  TimeRange.exclusive_end r = TimeRange.inclusive_start r + d /\
  (d | TimeRange.inclusive_start r) /\
  (TimeRange.contains r ts' = true ->
   @TimeRange.bucket_of unit ts' d = Ok (Some r) \/ @TimeRange.bucket_of unit ts' d = Ok None).
Proof.
  intros Hts Hts' Hd H. pose proof (bucket_of_some _ _ _ Hts Hd H) as (H0 & Hm & Hs & He & Hc & Hle & Hge).
  split_and!; [done|done|rewrite Hs; apply Z.divide_factor_l|].
  intros Hc'. apply contains_spec in Hc'. rewrite Hs in *.
  assert (ts' / d = ts / d) as Eq by (apply floor_in_bucket; lia).
  rewrite bucket_of_spec, Eq by done. destruct (_ && _); [left|by right].
  do 2 f_equal. destruct r as [a b]. cbn in *. congruence.
Qed.

Lemma bucket_of_partition_witness :
  @TimeRange.bucket_of unit (-1) 10 = Ok (Some (TimeRange.Mk (-10) 0)) /\
  TimeRange.contains (TimeRange.Mk (-10) 0) (-1) = true.
Proof.
  assert (@TimeRange.bucket_of unit (-1) 10 = Ok (Some (TimeRange.Mk (-10) 0))) as H
    by (vm_compute; reflexivity).
  split; [exact H|].
  apply (bucket_of_partition (-1) (-7) 10 (TimeRange.Mk (-10) 0)).
  - unfold sint. lia.
  - unfold sint. lia.
  - lia.
  - exact H.
Defined.

(** Two ranges that are not empty intersect exactly when some timestamp
    lies in both, and the intersected range contains exactly the timestamps of
    both; a range expires when its exclusive end is at most the expire time,
    that is when every timestamp of a non-empty range is expired. *)
Theorem time_range_intersection a b e :
  TimeRange.inclusive_start a < TimeRange.exclusive_end a ->
  TimeRange.inclusive_start b < TimeRange.exclusive_end b ->
  (TimeRange.intersect_with a b = true <->
   exists ts, TimeRange.contains a ts = true /\ TimeRange.contains b ts = true) /\
  (forall ts, match TimeRange.intersected_range a b with
              | Some r => TimeRange.contains r ts = TimeRange.contains a ts && TimeRange.contains b ts
              | None => TimeRange.contains a ts && TimeRange.contains b ts = false
              end) /\
  (TimeRange.is_expired a (Some e) = true <->
   forall ts, TimeRange.contains a ts = true -> Timestamp.is_expired ts e = true).
Proof.
  intros Ha Hb. split_and!.
  - unfold TimeRange.intersect_with, TimeRange.not_intersecting. split.
    + intros H. exists (Z.max (TimeRange.inclusive_start a) (TimeRange.inclusive_start b)).
      rewrite !contains_spec. lia.
    + intros (ts & H1 & H2). rewrite contains_spec in H1, H2. lia.
  - intros ts. unfold TimeRange.intersected_range, TimeRange.new, TimeRange.contains.
    destruct (_ <=? Z.min _ _) eqn:Hle; cbn [TimeRange.inclusive_start TimeRange.exclusive_end]; lia.
  - unfold TimeRange.is_expired, Timestamp.is_expired. split.
    + intros H ts Hts. rewrite contains_spec in Hts. lia.
    + intros H. specialize (H (TimeRange.exclusive_end a - 1)). rewrite contains_spec in H.
      specialize (H ltac:(lia)). lia.
Qed.

Lemma time_range_intersection_witness :
  TimeRange.intersect_with (TimeRange.Mk 0 10) (TimeRange.Mk 5 20) = true /\
  (TimeRange.is_expired (TimeRange.Mk 0 10) (Some 10) = true <->
   forall ts, TimeRange.contains (TimeRange.Mk 0 10) ts = true -> Timestamp.is_expired ts 10 = true).
Proof.
  split; [reflexivity|].
  apply (time_range_intersection (TimeRange.Mk 0 10) (TimeRange.Mk 5 20) 10); simpl; lia.
Defined.
