(* ===== verification/Sampler.v ===== *)
(** * The segment duration sampler: [analytic_engine/src/sampler.rs]

    [DefaultSampler]: the state behind its mutex, one definition per method.
    The [HashSet] of timestamps is a [gset]; sorting it gives the one sorted
    list of its elements, whatever the iteration order. *)

From Stdlib Require Import ZArith Lia Sorted.
From stdpp Require Import base tactics option list numbers gmap sorting.
From S2P Require Import Prelude Time.

#[local] Open Scope Z_scope.

Definition HOUR_MS : Z := 3600 * 1000.
Definition DAY_MS : Z := 24 * HOUR_MS.
Definition AVAILABLE_DURATIONS : list Z :=
  [2 * HOUR_MS; DAY_MS; 7 * DAY_MS; 30 * DAY_MS; 180 * DAY_MS; 360 * DAY_MS;
   5 * 360 * DAY_MS; 10 * 360 * DAY_MS].
Definition POINTS_PER_SERIES : Z := 100.
Definition MAX_DURATION : Z := 10 * 360 * DAY_MS.
Definition MAX_TIMESTAMP_MS_FOR_DURATION : Z := i64_max - 2 * MAX_DURATION.
Definition MIN_SAMPLES : nat := 2.
(** [table_options::DEFAULT_SEGMENT_DURATION], two hours. *)
Definition DEFAULT_SEGMENT_DURATION : Z := 60 * 60 * 2 * 1000.

Inductive SamplerError := InvalidTimestamp (timestamp : Z).

Record State := MkState {
  deduped_timestamps : gset Z;
  duration : option Z;
  sorted_timestamps : list Z
}.

Definition sampler_default : State := MkState ∅ None [].
Definition clear_cache (s : State) : State := MkState (deduped_timestamps s) None [].

Definition collect (s : State) (timestamp : Z) : res SamplerError State :=
  let? _ := ensure (timestamp <? MAX_TIMESTAMP_MS_FOR_DURATION) (InvalidTimestamp timestamp) in
  Ok (clear_cache (MkState ({[timestamp]} ∪ deduped_timestamps s) (duration s) (sorted_timestamps s))).

Definition compute_sorted_timestamps (s : State) : list Z :=
  merge_sort Z.le (elements (deduped_timestamps s)).

(** [(n as f64 * 0.9) as usize] for [n] below [2^53]: the product of [n] with
    the double nearest to 0.9, [8106479329266893 / 2^53], rounded to the 53
    bits of a double, ties to even, and truncated. *)
Definition RATIO_MANTISSA : Z := 8106479329266893.
Definition round_to_53 (p : Z) : Z :=
  let k := Z.log2 p + 1 - 53 in
  if k <=? 0 then p
  else
    let q := p / 2 ^ k in
    let r := p mod 2 ^ k in
    let half := 2 ^ (k - 1) in
    (if (half <? r) || ((r =? half) && Z.odd q) then q + 1 else q) * 2 ^ k.
Definition scale_index (n : Z) : Z := round_to_53 (n * RATIO_MANTISSA) / 2 ^ 53.

(** The differences of neighbours; [next - current] is an [i64] subtraction. *)
Fixpoint compute_intervals (sorted : list Z) : res SamplerError (list Z) :=
  match sorted with
  | current :: (next :: _) as rest =>
      let? interval := i64_op (next - current) in
      let? intervals := compute_intervals rest in
      Ok (interval :: intervals)
  | _ => Ok []
  end.

Definition evaluate_interval (sorted : list Z) : res SamplerError (option Z) :=
  if (length sorted <? MIN_SAMPLES)%nat then Ok None
  else
    let? intervals := compute_intervals sorted in
    let intervals := merge_sort Z.le intervals in
    let index := scale_index (Z.of_nat (length intervals)) in
    let index := if 1 <? index then index - 1 else index in
    let? selected := unwrap (intervals !! Z.to_nat index) in
    let? _ := rassert (0 <? selected) in
    Ok (Some selected).

(** The first available duration above the scaled interval, else the largest. *)
Definition pick_duration (interval : Z) : Z :=
  let scaled_interval := default u64_max (u64_checked (interval * POINTS_PER_SERIES)) in
  match list_find (fun du_ms => scaled_interval < du_ms) AVAILABLE_DURATIONS with
  | Some (_, du_ms) => du_ms
  | None => MAX_DURATION
  end.

Definition suggest_duration (s : State) : res SamplerError (Z * State) :=
  match duration s with
  | Some v => Ok (v, s)
  | None =>
      let timestamps := compute_sorted_timestamps s in
      let? o := evaluate_interval timestamps in
      let picked := match o with
                    | Some interval => pick_duration interval
                    | None => DEFAULT_SEGMENT_DURATION end in
      Ok (picked, MkState (deduped_timestamps s) (Some picked) timestamps)
  end.

(** The loop over the sorted timestamps, with the last range pushed. *)
Definition ranges_step (duration : Z) (ranges : list TimeRange.t) (ts : Z)
    : res SamplerError (list TimeRange.t) :=
  let covered := match last ranges with Some range => TimeRange.contains range ts | None => false end in
  if covered then Ok ranges
  else
    let? o := TimeRange.bucket_of ts duration in
    let? range := unwrap o in
    Ok (ranges ++ [range]).

Definition ranges (s : State) : res SamplerError (list TimeRange.t * State) :=
  let? (duration, s) := suggest_duration s in
  let? rs := rfold (ranges_step duration) (sorted_timestamps s) [] in
  Ok (rs, s).

(** ** The interval *)
Lemma round_to_53_bound p : 1 <= p -> 0 <= round_to_53 p /\ 2 ^ 53 * round_to_53 p <= (2 ^ 53 + 1) * p.
Proof.
  intros Hp. unfold round_to_53. set (k := Z.log2 p + 1 - 53).
  destruct (Z.leb_spec k 0) as [Hk|Hk]; [lia|].
  assert (2 ^ (k - 1) * 2 ^ 53 <= p) as Hlog.
  { rewrite <- Z.pow_add_r by lia. replace (k - 1 + 53) with (Z.log2 p) by lia.
    pose proof (Z.log2_spec p ltac:(lia)). lia. }
  assert (2 ^ k = 2 * 2 ^ (k - 1)) as Hpow by (apply pow2_double_pred; lia).
  assert (0 < 2 ^ (k - 1)) by (apply Z.pow_pos_nonneg; lia).
  pose proof (Z.div_mod p (2 ^ k) ltac:(lia)). pose proof (Z.mod_pos_bound p (2 ^ k) ltac:(lia)).
  assert (0 <= p / 2 ^ k) by (apply Z.div_pos; lia).
  set (q := p / 2 ^ k) in *. set (r := p mod 2 ^ k) in *.
  destruct ((2 ^ (k - 1) <? r) || _) eqn:E; [|nia].
  assert (2 ^ (k - 1) <= r) as Hr by lia. clear E. split; [nia|].
  assert ((q + 1) * 2 ^ k <= p + 2 ^ (k - 1)) by lia. nia.
Qed.

(** The scaled index is an index of the intervals. *)
Lemma scale_index_bound n : 1 <= n -> 0 <= scale_index n < n.
Proof.
  intros Hn. unfold scale_index.
  destruct (round_to_53_bound (n * RATIO_MANTISSA)) as [H0 H1]; [unfold RATIO_MANTISSA; lia|].
  split; [by apply Z.div_pos|]. apply Z.div_lt_upper_bound; [lia|].
  assert (2 ^ 53 * round_to_53 (n * RATIO_MANTISSA) < 2 ^ 53 * (2 ^ 53 * n)); [|lia].
  eapply Z.le_lt_trans; [exact H1|]. unfold RATIO_MANTISSA. lia.
Qed.

Lemma compute_intervals_ok l :
  StronglySorted Z.lt l -> (forall a b, a ∈ l -> b ∈ l -> b - a <= i64_max) ->
  exists ivs, compute_intervals l = Ok ivs /\ Forall (fun i => 0 < i) ivs /\ length ivs = pred (length l).
Proof.
  induction 1 as [|a l Hl IH Ha]; intros Hb; [by exists []|].
  destruct l as [|b l]; [by exists []|].
  destruct IH as (ivs & His & Hpos & Hlen).
  { intros x y Hx Hy. apply Hb; by apply list_elem_of_further. }
  apply Forall_cons in Ha as [Hab _].
  cbn [compute_intervals].
  rewrite i64_op_ok.
  - cbn [rbind]. cbn [compute_intervals] in His. rewrite His. cbn [rbind].
    exists (b - a :: ivs). split_and!; [done|constructor; [lia|done]|]. cbn [length] in *. lia.
  - assert (b - a <= i64_max) by (apply Hb; set_solver).
    unfold sint, i64_max in *. change (64 - 1) with 63. lia.
Qed.

Lemma merge_sort_positive (l : list Z) : Forall (fun i => 0 < i) l -> Forall (fun i => 0 < i) (merge_sort Z.le l).
Proof. intros H. by rewrite merge_sort_Permutation. Qed.

Lemma evaluate_interval_ok l :
  StronglySorted Z.lt l -> (forall a b, a ∈ l -> b ∈ l -> b - a <= i64_max) ->
  exists o, evaluate_interval l = Ok o /\ match o with Some i => 0 < i | None => (length l < 2)%nat end.
Proof.
  intros Hs Hb. unfold evaluate_interval, MIN_SAMPLES. destruct (Nat.ltb_spec (length l) 2); [by exists None|].
  destruct (compute_intervals_ok l Hs Hb) as (ivs & -> & Hpos & Hlen). cbn [rbind].
  assert (length (merge_sort Z.le ivs) = length ivs) as Hl by by rewrite merge_sort_Permutation.
  rewrite Hl. pose proof (scale_index_bound (Z.of_nat (length ivs)) ltac:(lia)) as Hi.
  set (ix := if 1 <? scale_index (Z.of_nat (length ivs)) then _ else _).
  assert (0 <= ix < Z.of_nat (length ivs)) as Hix by (unfold ix; case_match; lia).
  destruct (lookup_lt_is_Some_2 (merge_sort Z.le ivs) (Z.to_nat ix)) as [x Hx]; [lia|].
  rewrite Hx. cbn [unwrap rbind].
  pose proof (Forall_lookup_1 _ _ _ _ (merge_sort_positive ivs Hpos) Hx) as Hxp. cbn in Hxp.
  unfold rassert. rewrite Z_ltb_true by done. by exists (Some x).
Qed.

Lemma pick_duration_available i : pick_duration i ∈ AVAILABLE_DURATIONS.
Proof.
  unfold pick_duration. destruct (list_find _ _) as [[n du]|] eqn:E.
  - apply list_find_Some in E as (Hl & _). by eapply list_elem_of_lookup_2.
  - unfold AVAILABLE_DURATIONS, MAX_DURATION. set_solver.
Qed.

Lemma available_bound d : d ∈ AVAILABLE_DURATIONS -> 0 < d <= MAX_DURATION.
Proof.
  intros H. assert (Forall (fun d => 0 < d <= MAX_DURATION) AVAILABLE_DURATIONS) as Hf.
  { repeat constructor; vm_compute; congruence. }
  rewrite Forall_forall in Hf. by apply Hf.
Qed.

(** ** The sorted timestamps *)
Lemma compute_sorted_strict s : StronglySorted Z.lt (compute_sorted_timestamps s).
Proof.
  unfold compute_sorted_timestamps. set (l := elements _).
  assert (NoDup (merge_sort Z.le l)) as Hnd by (rewrite merge_sort_Permutation; apply NoDup_elements).
  pose proof (StronglySorted_merge_sort Z.le l) as Hs.
  induction Hs as [|a m Hm IH Ha]; [constructor|]. apply NoDup_cons in Hnd as [Hna Hnd].
  constructor; [by apply IH|]. rewrite Forall_forall in *. intros b Hb. specialize (Ha b Hb).
  assert (a <> b) by (intros ->; done). lia.
Qed.

Lemma compute_sorted_elem s ts : ts ∈ compute_sorted_timestamps s <-> ts ∈ deduped_timestamps s.
Proof. unfold compute_sorted_timestamps. rewrite merge_sort_Permutation. apply elem_of_elements. Qed.

(** The cache, when there is one, is what would be computed now. *)
Definition cache_ok (s : State) : Prop :=
  forall v, duration s = Some v -> suggest_duration (clear_cache s) = Ok (v, s).

Lemma collect_cache_ok s ts s' : collect s ts = Ok s' -> cache_ok s'.
Proof. unfold collect, cache_ok. intros H v Hv. inv_ok. done. Qed.

Lemma suggest_cache_ok s v s' : cache_ok s -> suggest_duration s = Ok (v, s') -> cache_ok s'.
Proof.
  unfold suggest_duration. destruct (duration s) as [v0|] eqn:Ed.
  - intros H [= <- <-]. done.
  - intros _ H v1 Hv1. apply rbind_ok in H as (o & Ho & H). injection H as <- <-.
    simpl in Hv1. injection Hv1 as <-. unfold suggest_duration. cbn [clear_cache duration].
    change (compute_sorted_timestamps (clear_cache _)) with (compute_sorted_timestamps s).
    by rewrite Ho.
Qed.

(** With a valid cache, what [suggest_duration] answers is always computed
    from the collected timestamps. *)
Lemma suggest_fresh s : cache_ok s ->
  suggest_duration s =
  let? o := evaluate_interval (compute_sorted_timestamps s) in
  let picked := match o with Some interval => pick_duration interval | None => DEFAULT_SEGMENT_DURATION end in
  Ok (picked, MkState (deduped_timestamps s) (Some picked) (compute_sorted_timestamps s)).
Proof.
  intros H. destruct (duration s) as [v|] eqn:Ed.
  - specialize (H v Ed). unfold suggest_duration at 1. rewrite Ed, <- H. done.
  - unfold suggest_duration. by rewrite Ed.
Qed.

(** The timestamps on which the arithmetic of the sampler stays in range. *)
Definition in_range (s : State) : Prop :=
  (forall ts, ts ∈ deduped_timestamps s -> i64_min + MAX_DURATION <= ts < MAX_TIMESTAMP_MS_FOR_DURATION) /\
  (forall a b, a ∈ deduped_timestamps s -> b ∈ deduped_timestamps s -> b - a <= i64_max).

Lemma suggest_duration_ok s : cache_ok s -> in_range s ->
  exists d, suggest_duration s
      = Ok (d, MkState (deduped_timestamps s) (Some d) (compute_sorted_timestamps s)) /\
    d ∈ AVAILABLE_DURATIONS.
Proof.
  intros Hc [_ Hb]. rewrite suggest_fresh by done.
  destruct (evaluate_interval_ok (compute_sorted_timestamps s) (compute_sorted_strict s)) as (o & -> & Ho).
  { intros a b Ha Hb'. apply Hb; by apply compute_sorted_elem. }
  cbn [rbind]. eexists. split; [reflexivity|]. destruct o as [i|]; [apply pick_duration_available|].
  apply list_elem_of_lookup. by exists 0%nat.
Qed.

(** ** The ranges *)

(** Consecutive ranges do not overlap. *)
Definition disjoint_sorted (rs : list TimeRange.t) : Prop :=
  StronglySorted (fun a b => TimeRange.exclusive_end a <= TimeRange.inclusive_start b) rs.

(** What the loop has built after the timestamps [done]. *)
Record ranges_inv (d : Z) (past : list Z) (rs : list TimeRange.t) : Prop := {
  ri_cover ts : ts ∈ past -> exists r, r ∈ rs /\ TimeRange.contains r ts = true;
  ri_bucket r : r ∈ rs -> exists ts, ts ∈ past /\ TimeRange.bucket_of (E:=SamplerError) ts d = Ok (Some r);
  ri_disjoint : disjoint_sorted rs
}.

Lemma bucket_in_range d ts : 0 < d <= MAX_DURATION ->
  i64_min + MAX_DURATION <= ts < MAX_TIMESTAMP_MS_FOR_DURATION ->
  TimeRange.bucket_of (E:=SamplerError) ts d = Ok (Some (TimeRange.Mk (d * (ts / d)) (d * (ts / d) + d))).
Proof.
  intros Hd Hts. pose proof (Z.div_mod ts d ltac:(lia)). pose proof (Z.mod_pos_bound ts d ltac:(lia)).
  assert (MAX_DURATION = 311040000000) as EM by done.
  unfold MAX_TIMESTAMP_MS_FOR_DURATION, i64_min, i64_max in *.
  rewrite bucket_of_spec by (unfold sint; change (64 - 1) with 63; lia).
  unfold i64_min, i64_max. rewrite Z_ltb_true, Z_leb_true by lia. cbn [andb].
  rewrite (Z_leb_true (- 2 ^ 63)) by lia. rewrite orb_true_r. cbn [andb]. by rewrite Z_leb_true by lia.
Qed.

Lemma last_elem_sorted rs r x :
  disjoint_sorted rs -> last rs = Some r -> x ∈ rs ->
  x = r \/ TimeRange.exclusive_end x <= TimeRange.inclusive_start r.
Proof.
  induction 1 as [|a rs Hrs IH Ha]; [done|]. destruct rs as [|b rs].
  - intros [= ->] ->%list_elem_of_singleton. by left.
  - intros Hl [->|Hx]%elem_of_cons; [|by apply IH].
    right. rewrite Forall_forall in Ha. apply Ha. by apply last_Some_elem_of.
Qed.

Lemma ranges_step_inv d past rs ts :
  0 < d <= MAX_DURATION -> i64_min + MAX_DURATION <= ts < MAX_TIMESTAMP_MS_FOR_DURATION ->
  (forall x, x ∈ past -> i64_min + MAX_DURATION <= x < ts) ->
  ranges_inv d past rs ->
  exists rs', ranges_step d rs ts = Ok rs' /\ ranges_inv d (past ++ [ts]) rs'.
Proof.
  intros Hd Hts Hpast [Hcov Hbuck Hdis]. unfold ranges_step.
  pose proof (bucket_in_range d ts Hd Hts) as Hb.
  set (r := TimeRange.Mk _ _) in Hb.
  destruct (match last rs with Some range => TimeRange.contains range ts | None => false end) eqn:Ec.
  - exists rs. split; [done|]. split; [| |done].
    + intros x [Hx| ->%list_elem_of_singleton]%elem_of_app; [by apply Hcov|].
      destruct (last rs) as [l|] eqn:El; [|done]. exists l. split; [by apply last_Some_elem_of|done].
    + intros x Hx. destruct (Hbuck x Hx) as (t & Ht & Hbt). exists t. split; [set_solver|done].
  - rewrite Hb. cbn [rbind unwrap]. exists (rs ++ [r]). split; [done|].
    assert (sint 64 ts) as Hs.
    { unfold sint, MAX_TIMESTAMP_MS_FOR_DURATION, i64_min, i64_max, MAX_DURATION, DAY_MS, HOUR_MS in *.
      change (64 - 1) with 63. lia. }
    assert (TimeRange.contains r ts = true) as Hc by by apply (bucket_of_some (E:=SamplerError) ts d r Hs ltac:(lia)).
    split.
    + intros x [Hx| ->%list_elem_of_singleton]%elem_of_app.
      * destruct (Hcov x Hx) as (y & Hy & Hyc). exists y. set_solver.
      * exists r. set_solver.
    + intros x [Hx| ->%list_elem_of_singleton]%elem_of_app.
      * destruct (Hbuck x Hx) as (t & Ht & Hbt). exists t. set_solver.
      * exists ts. set_solver.
    + apply StronglySorted_app_2; [|done|by repeat constructor].
      intros x y Hx ->%list_elem_of_singleton. cbn [TimeRange.inclusive_start r].
      destruct (Hbuck x Hx) as (t & Ht & Hbt). pose proof (Hpast t Ht).
      rewrite bucket_in_range in Hbt by lia. injection Hbt as <-. cbn [TimeRange.exclusive_end].
      assert (t / d < ts / d); [|nia].
      assert (t / d <= ts / d) by (apply Z.div_le_mono; lia).
      destruct (Z.eq_dec (t / d) (ts / d)) as [Eq|]; [exfalso|lia].
      destruct (last rs) as [l|] eqn:El; [|by apply last_None in El as ->; set_solver].
      destruct (last_elem_sorted rs l _ Hdis El Hx) as [<-|Hle].
      * assert (TimeRange.contains (TimeRange.Mk (d * (t / d)) (d * (t / d) + d)) ts = true); [|congruence].
        rewrite Eq. exact Hc.
      * cbn [TimeRange.exclusive_end] in Hle.
        destruct (Hbuck l) as (t2 & Ht2 & Hbt2); [by apply last_Some_elem_of|].
        pose proof (Hpast t2 Ht2). rewrite bucket_in_range in Hbt2 by lia. injection Hbt2 as <-.
        cbn [TimeRange.inclusive_start] in Hle.
        assert (t2 / d <= ts / d) by (apply Z.div_le_mono; lia). nia.
Qed.

Lemma ranges_fold_inv d l past rs :
  0 < d <= MAX_DURATION -> StronglySorted Z.lt (past ++ l) ->
  (forall ts, ts ∈ past ++ l -> i64_min + MAX_DURATION <= ts < MAX_TIMESTAMP_MS_FOR_DURATION) ->
  ranges_inv d past rs ->
  exists rs', rfold (ranges_step d) l rs = Ok rs' /\ ranges_inv d (past ++ l) rs'.
Proof.
  intros Hd. revert past rs. induction l as [|ts l IH]; intros past rs Hs Hr Hinv; cbn [rfold].
  - exists rs. by rewrite app_nil_r.
  - destruct (ranges_step_inv d past rs ts Hd) as (rs1 & -> & Hinv1).
    + apply Hr. set_solver.
    + intros x Hx. split; [apply Hr; set_solver|].
      eapply StronglySorted_app_1_elem_of; [exact Hs|done|set_solver].
    + done.
    + cbn [rbind]. replace (past ++ ts :: l) with ((past ++ [ts]) ++ l) in * by by rewrite <- app_assoc.
      by apply IH.
Qed.

(** The states that calls of the sampler's methods reach. *)
Inductive sampled : State -> Prop :=
| sampled_default : sampled sampler_default
| sampled_collect s ts s' : sampled s -> collect s ts = Ok s' -> sampled s'
| sampled_suggest s d s' : sampled s -> suggest_duration s = Ok (d, s') -> sampled s'
| sampled_ranges s rs s' : sampled s -> ranges s = Ok (rs, s') -> sampled s'.

Lemma sampled_cache_ok s : sampled s -> cache_ok s.
Proof.
  induction 1 as [|s ts s' _ IH H|s d s' _ IH H|s rs s' _ IH H].
  - done.
  - by eapply collect_cache_ok.
  - by eapply suggest_cache_ok.
  - unfold ranges in H. apply rbind_ok in H as ([d s1] & Hs & H). apply rbind_ok in H as (rs1 & _ & H).
    injection H as _ <-. by eapply suggest_cache_ok.
Qed.

(** ** Properties *)

(** The ranges the sampler returns hold every collected timestamp: in
    any state its methods reach, as long as the timestamps keep the arithmetic
    in range, [ranges] returns buckets of one of the available durations, each
    the bucket of a collected timestamp, in order and without overlap, and
    every collected timestamp lies in one of them. *)
Theorem sampler_ranges_cover s :
  sampled s -> in_range s ->
  exists d rs s', ranges s = Ok (rs, s') /\ d ∈ AVAILABLE_DURATIONS /\
    (forall ts, ts ∈ deduped_timestamps s -> exists r, r ∈ rs /\ TimeRange.contains r ts = true) /\
    (forall r, r ∈ rs -> exists ts, ts ∈ deduped_timestamps s /\
       TimeRange.bucket_of (E:=SamplerError) ts d = Ok (Some r)) /\
    disjoint_sorted rs.
Proof.
  intros Hs Hr. apply sampled_cache_ok in Hs.
  destruct (suggest_duration_ok s Hs Hr) as (d & Hd & Hav). unfold ranges. rewrite Hd. cbn [rbind sorted_timestamps].
  destruct (ranges_fold_inv d (compute_sorted_timestamps s) [] []) as (rs & -> & [Hc Hb Hds]).
  - by apply available_bound.
  - apply compute_sorted_strict.
  - intros ts Hts. apply Hr. by apply compute_sorted_elem.
  - split; [set_solver|set_solver|constructor].
  - cbn [rbind]. exists d, rs. eexists. split_and!; [done|done| | |done].
    + intros ts Hts. apply Hc. by apply compute_sorted_elem.
    + intros r Hin. destruct (Hb r Hin) as (ts & Hts & Hbt). exists ts. split; [by apply compute_sorted_elem|done].
Qed.

Definition demo_state : State :=
  match rfold collect [-5; 100; 7200001] sampler_default with Ok s => s | _ => sampler_default end.

Lemma sampler_ranges_cover_witness :
  exists d rs s', ranges demo_state = Ok (rs, s') /\ d ∈ AVAILABLE_DURATIONS /\
    (forall ts, ts ∈ deduped_timestamps demo_state -> exists r, r ∈ rs /\ TimeRange.contains r ts = true) /\
    (forall r, r ∈ rs -> exists ts, ts ∈ deduped_timestamps demo_state /\
       TimeRange.bucket_of (E:=SamplerError) ts d = Ok (Some r)) /\
    disjoint_sorted rs.
Proof.
  assert (demo_state = MkState {[7200001; 100; -5]} None []) as E by (vm_compute; reflexivity).
  apply sampler_ranges_cover.
  - apply (sampled_collect (match rfold collect [-5; 100] sampler_default with Ok s => s | _ => sampler_default end) 7200001).
    + apply (sampled_collect (match rfold collect [-5] sampler_default with Ok s => s | _ => sampler_default end) 100).
      * apply (sampled_collect sampler_default (-5)); [apply sampled_default|vm_compute; reflexivity].
      * vm_compute. reflexivity.
    + vm_compute. reflexivity.
  - rewrite E. unfold in_range. cbn [deduped_timestamps].
    assert (forall ts, ts ∈ ({[7200001; 100; -5]} : gset Z) -> -5 <= ts <= 7200001) as H.
    { intros ts. rewrite !elem_of_union, !elem_of_singleton. lia. }
    split.
    + intros ts Hts%H. unfold MAX_TIMESTAMP_MS_FOR_DURATION, MAX_DURATION, DAY_MS, HOUR_MS, i64_min, i64_max. lia.
    + intros a b Ha%H Hb%H. unfold i64_max. lia.
Defined.

(** [collect] only bounds timestamps from above: it accepts a timestamp
    so close to [i64::MIN] that flooring it overflows, and [ranges] then
    panics, although the comment there relies on [collect] to rule that out. *)
Theorem sampler_low_timestamp_panics ts :
  sint 64 ts -> ts - (DEFAULT_SEGMENT_DURATION - 1) < i64_min ->
  exists s, collect sampler_default ts = Ok s /\ ranges s = Panic.
Proof.
  intros Hs Hlow. assert (DEFAULT_SEGMENT_DURATION = 7200000) as ED by done.
  assert (MAX_TIMESTAMP_MS_FOR_DURATION = i64_max - 622080000000) as EM by done.
  unfold i64_min, i64_max in *. unfold sint in Hs. change (64 - 1) with 63 in Hs.
  unfold collect, ensure. rewrite Z_ltb_true by lia. cbn [rbind]. eexists. split; [done|].
  unfold ranges, suggest_duration. cbn [clear_cache duration deduped_timestamps sampler_default].
  assert (forall s, deduped_timestamps s = {[ts]} ∪ ∅ -> compute_sorted_timestamps s = [ts]) as Hone.
  { intros s Hd. unfold compute_sorted_timestamps.
    by rewrite Hd, (right_id_L ∅ (∪)), elements_singleton. }
  rewrite Hone by done.
  cbn [evaluate_interval length Nat.ltb Nat.leb MIN_SAMPLES rbind sorted_timestamps rfold].
  unfold ranges_step. cbn [last].
  rewrite bucket_of_spec by (rewrite ?ED; unfold sint; change (64 - 1) with 63; lia).
  rewrite (Z_leb_false 0 ts), (Z_leb_false i64_min) by (unfold i64_min; lia). cbn [orb andb].
  rewrite andb_false_r. done.
Qed.

Lemma sampler_low_timestamp_panics_witness :
  exists s, collect sampler_default i64_min = Ok s /\ ranges s = Panic.
Proof.
  apply sampler_low_timestamp_panics; [unfold sint, i64_min; lia|vm_compute; reflexivity].
Defined.
