(* ===== verification/Skiplist.v ===== *)
(** * The skiplist of the memtable

    Models [components/skiplist/src/list.rs] (and the bytewise comparator of
    [analytic_engine/src/memtable/skiplist/mod.rs]) at the level of its nodes
    and tower pointers: the arena is the list of the nodes allocated so far, a
    pointer is an index into it, the null pointer is [None].  The memtable has
    one writer at a time, so a compare-and-swap compares and then stores; the
    random height of a new node is an argument of [put].  An access outside a
    tower or through a dangling pointer is a [Panic], as is running out of the
    fuel of a loop; the theorems show that neither happens.

    The file proves that the linked structure refines a sorted list of
    key-value pairs, behind the interface [OrderedIndex] that the memtable's
    proofs use. *)

From Stdlib Require Import ZArith Lia Sorted.
From stdpp Require Import base tactics option list numbers sets sorting.
From S2P Require Import Prelude Bytes.

#[local] Open Scope Z_scope.

(** [MAX_HEIGHT]. *)
Definition MAX_HEIGHT : nat := 20.

Abbreviation ptr := nat.
(** The [prev] and [next] arrays of [put]. *)
Abbreviation ptrs := (list (option ptr)).
(** The cursor of an iterator. *)
Abbreviation cursor := (option ptr).

(** [Node]: of the tower only the slots [0..=height] are allocated. *)
Record Node := MkNode {
  nd_height : nat;
  nd_tower : list (option ptr);
  nd_key : bytes;
  nd_value : bytes
}.

(** [SkiplistCore]; the head is the first node of the arena. *)
Record Skiplist := MkSkiplist { sl_height : nat; sl_arena : list Node }.
Definition sl_head : ptr := 0%nat.

(** The [KeyComparator] trait. *)
Class KeyComparator := {
  compare_key : bytes -> bytes -> comparison;
  same_key : bytes -> bytes -> bool
}.

(** [BytewiseComparator]. *)
Definition BytewiseComparator : KeyComparator := {|
  compare_key := bytes_cmp;
  same_key := fun a b => bool_decide (a = b)
|}.

(** [Node::alloc] with [init_key_value]: the sizes of key and value are stored
    as [u16] and [u32], and [try_into().unwrap()] panics on longer ones. *)
Definition node_alloc {E} (arena : list Node) (key value : bytes) (height : nat)
  : res E (list Node * ptr) :=
  let? _ := rassert (len key <? 2 ^ 16) in
  let? _ := rassert (len value <? 2 ^ 32) in
  Ok (arena ++ [MkNode height (replicate (height + 1) None) key value], length arena).

(** [Skiplist::with_arena]. *)
Definition with_arena {E} : res E Skiplist :=
  let? (arena, _) := node_alloc [] [] [] (MAX_HEIGHT - 1) in
  Ok (MkSkiplist 0 arena).

Section skiplist.
Context {KC : KeyComparator} {E : Type}.

Definition deref (s : Skiplist) (p : ptr) : res E Node := unwrap (sl_arena s !! p).

(** [Node::next_ptr]. *)
Definition next_ptr (s : Skiplist) (p : ptr) (level : nat) : res E (option ptr) :=
  let? n := deref s p in unwrap (nd_tower n !! level).

(** [tower[level].store(..)]. *)
Definition store_tower (s : Skiplist) (p : ptr) (level : nat) (q : option ptr) : res E Skiplist :=
  let? n := deref s p in
  let? _ := unwrap (nd_tower n !! level) in
  Ok (MkSkiplist (sl_height s)
        (<[p := MkNode (nd_height n) (<[level := q]> (nd_tower n)) (nd_key n) (nd_value n)]>
           (sl_arena s))).

(** [Skiplist::find_near]. *)
Fixpoint find_near_loop (fuel : nat) (s : Skiplist) (key : bytes) (less allow_equal : bool)
    (cursor : ptr) (level : nat) : res E (option ptr) :=
  match fuel with
  | O => Panic
  | S fuel =>
      let? next := next_ptr s cursor level in
      let at_base := if (cursor =? sl_head)%nat then Ok None else Ok (Some cursor) in
      match next with
      | None =>
          if (0 <? level)%nat then find_near_loop fuel s key less allow_equal cursor (level - 1)
          else if negb less then Ok None
          else at_base
      | Some next_ptr' =>
          let? next := deref s next_ptr' in
          match compare_key key (nd_key next) with
          | Gt => find_near_loop fuel s key less allow_equal next_ptr' level
          | Eq =>
              if allow_equal then Ok (Some next_ptr')
              else if negb less then next_ptr s next_ptr' 0
              else if (0 <? level)%nat then
                find_near_loop fuel s key less allow_equal cursor (level - 1)
              else at_base
          | Lt =>
              if (0 <? level)%nat then find_near_loop fuel s key less allow_equal cursor (level - 1)
              else if negb less then Ok (Some next_ptr')
              else at_base
          end
      end
  end.
Definition find_near (s : Skiplist) (key : bytes) (less allow_equal : bool) : res E (option ptr) :=
  find_near_loop (length (sl_arena s) + sl_height s + 1) s key less allow_equal
    sl_head (sl_height s).

(** [Skiplist::find_splice_for_level]. *)
Fixpoint find_splice_loop (fuel : nat) (s : Skiplist) (key : bytes) (before : ptr) (level : nat)
  : res E (ptr * option ptr) :=
  match fuel with
  | O => Panic
  | S fuel =>
      let? next := next_ptr s before level in
      match next with
      | None => Ok (before, None)
      | Some next_ptr' =>
          let? next_node := deref s next_ptr' in
          match compare_key key (nd_key next_node) with
          | Eq => Ok (next_ptr', Some next_ptr')
          | Lt => Ok (before, Some next_ptr')
          | Gt => find_splice_loop fuel s key next_ptr' level
          end
      end
  end.
Definition find_splice_for_level (s : Skiplist) (key : bytes) (before : ptr) (level : nat)
  : res E (ptr * option ptr) :=
  find_splice_loop (length (sl_arena s)) s key before level.

(** [put], the loop over [(0..=list_height).rev()]: [None] when the key is
    already there. *)
Fixpoint put_splices (s : Skiplist) (key : bytes) (levels : nat) (prev next : ptrs)
  : res E (option (ptrs * ptrs)) :=
  match levels with
  | O => Ok (Some (prev, next))
  | S i =>
      let? slot := unwrap (prev !! S i) in
      let? before := unwrap slot in
      let? (p, n) := find_splice_for_level s key before i in
      if bool_decide (Some p = n) then Ok None
      else put_splices s key i (<[i := Some p]> prev) (<[i := n]> next)
  end.

(** [put], the loop that links the node [x] at level [i]; a failed
    compare-and-swap searches again.  [None] when the key turned up. *)
Fixpoint put_link (fuel : nat) (s : Skiplist) (x : ptr) (i : nat) (prev next : ptrs)
  : res E (option (Skiplist * (ptrs * ptrs))) :=
  match fuel with
  | O => Panic
  | S fuel =>
      let? xn := deref s x in
      let? slot := unwrap (prev !! i) in
      let? (prev, next) :=
        match slot with
        | Some _ => Ok (prev, next)
        | None =>
            let? _ := rassert (1 <? i)%nat in
            let? (p, n) := find_splice_for_level s (nd_key xn) sl_head i in
            let? _ := rassert (negb (bool_decide (Some p = n))) in
            Ok (<[i := Some p]> prev, <[i := n]> next)
        end in
      let? slot := unwrap (prev !! i) in
      let? p := unwrap slot in
      let? n := unwrap (next !! i) in
      let? s := store_tower s x i n in
      let? cur := next_ptr s p i in
      if bool_decide (cur = n) then
        let? s := store_tower s p i (Some x) in
        Ok (Some (s, (prev, next)))
      else
        let? (p, n) := find_splice_for_level s (nd_key xn) p i in
        if bool_decide (Some p = n) then let? _ := rassert (i =? 0)%nat in Ok None
        else put_link fuel s x i (<[i := Some p]> prev) (<[i := n]> next)
  end.

(** [put], the loop over [0..=height], from level [i] up. *)
Fixpoint put_levels (s : Skiplist) (x : ptr) (i todo : nat) (prev next : ptrs)
  : res E (option Skiplist) :=
  match todo with
  | O => Ok (Some s)
  | S todo =>
      let? linked := put_link 2 s x i prev next in
      match linked with
      | None => Ok None
      | Some (s, (prev, next)) => put_levels s x (S i) todo prev next
      end
  end.

(** [Skiplist::put]: the list, and whether the node was inserted. *)
Definition put (s : Skiplist) (key value : bytes) (random_height : nat)
  : res E (Skiplist * bool) :=
  let list_height := sl_height s in
  let prev := <[S list_height := Some sl_head]> (replicate (MAX_HEIGHT + 1) None) in
  let next := replicate (MAX_HEIGHT + 1) None in
  let? spliced := put_splices s key (S list_height) prev next in
  match spliced with
  | None => Ok (s, false)
  | Some (prev, next) =>
      let? (arena, node) := node_alloc (sl_arena s) key value random_height in
      let s := MkSkiplist (if (list_height <? random_height)%nat then random_height
                           else list_height) arena in
      let? linked := put_levels s node 0 (S random_height) prev next in
      match linked with
      | None => Ok (s, false)
      | Some s => Ok (s, true)
      end
  end.

(** [Skiplist::is_empty]. *)
Definition is_empty (s : Skiplist) : res E bool :=
  let? n := next_ptr s sl_head 0 in Ok (bool_decide (n = None)).

(** [Skiplist::len]. *)
Fixpoint len_loop (fuel : nat) (s : Skiplist) (node : ptr) (count : nat) : res E nat :=
  match fuel with
  | O => Panic
  | S fuel =>
      let? next := next_ptr s node 0 in
      match next with
      | Some n => len_loop fuel s n (S count)
      | None => Ok count
      end
  end.
Definition sl_len (s : Skiplist) : res E nat := len_loop (length (sl_arena s)) s sl_head 0.

(** [Skiplist::find_last]. *)
Fixpoint find_last_loop (fuel : nat) (s : Skiplist) (node : ptr) (level : nat)
  : res E (option ptr) :=
  match fuel with
  | O => Panic
  | S fuel =>
      let? next := next_ptr s node level in
      match next with
      | Some n => find_last_loop fuel s n level
      | None =>
          if (level =? 0)%nat then
            if (node =? sl_head)%nat then Ok None else Ok (Some node)
          else find_last_loop fuel s node (level - 1)
      end
  end.
Definition find_last (s : Skiplist) : res E (option ptr) :=
  find_last_loop (length (sl_arena s) + sl_height s + 1) s sl_head (sl_height s).

(** [Skiplist::get_with_key] and [get]. *)
Definition get_with_key (s : Skiplist) (key : bytes) : res E (option (bytes * bytes)) :=
  let? node := find_near s key false true in
  match node with
  | None => Ok None
  | Some p =>
      let? n := deref s p in
      Ok (if same_key (nd_key n) key then Some (nd_key n, nd_value n) else None)
  end.
Definition get (s : Skiplist) (key : bytes) : res E (option bytes) :=
  let? r := get_with_key s key in Ok (snd <$> r).

(** The iterator [IterRef]. *)
Definition iter_valid (c : cursor) : bool := bool_decide (c <> None).
Definition iter_key (s : Skiplist) (c : cursor) : res E bytes :=
  let? p := unwrap c in let? n := deref s p in Ok (nd_key n).
Definition iter_value (s : Skiplist) (c : cursor) : res E bytes :=
  let? p := unwrap c in let? n := deref s p in Ok (nd_value n).
Definition iter_next (s : Skiplist) (c : cursor) : res E cursor :=
  let? p := unwrap c in next_ptr s p 0.
Definition iter_prev (s : Skiplist) (c : cursor) : res E cursor :=
  let? k := iter_key s c in find_near s k true false.
Definition iter_seek (s : Skiplist) (target : bytes) : res E cursor :=
  find_near s target false true.
Definition iter_seek_for_prev (s : Skiplist) (target : bytes) : res E cursor :=
  find_near s target true true.
Definition iter_seek_to_first (s : Skiplist) : res E cursor := next_ptr s sl_head 0.
Definition iter_seek_to_last (s : Skiplist) : res E cursor := find_last s.
End skiplist.

(** ** The representation *)

(** What the proofs need of a comparator. *)
Class LawfulComparator (KC : KeyComparator) : Prop := {
  lawful_total :: TotalCmp (@compare_key KC);
  lawful_same : forall a b, @same_key KC a b = true <-> a = b
}.

#[export] Instance bytewise_lawful : LawfulComparator BytewiseComparator.
Proof. split; [apply bytes_cmp_total|]. intros a b. apply bool_decide_eq_true. Qed.

Section representation.
Context {KC : KeyComparator}.

Definition key_of (s : Skiplist) (p : ptr) : bytes := from_option nd_key [] (sl_arena s !! p).
Definition value_of (s : Skiplist) (p : ptr) : bytes := from_option nd_value [] (sl_arena s !! p).
Definition height_of (s : Skiplist) (p : ptr) : nat := from_option nd_height 0%nat (sl_arena s !! p).
Definition slot (s : Skiplist) (p : ptr) (i : nat) : option (option ptr) :=
  n ← sl_arena s !! p; nd_tower n !! i.

(** From [p], the pointers of level [i] lead through [l] to the end. *)
Fixpoint chain (s : Skiplist) (i : nat) (p : ptr) (l : list ptr) : Prop :=
  match l with
  | [] => slot s p i = Some None
  | q :: l => slot s p i = Some (Some q) /\ chain s i q l
  end.

(** The nodes of [l] that reach level [i]. *)
Definition level_nodes (s : Skiplist) (i : nat) (l : list ptr) : list ptr :=
  filter (fun p => (i <= height_of s p)%nat) l.

Definition key_lt (s : Skiplist) (p q : ptr) : Prop := compare_key (key_of s p) (key_of s q) = Lt.

(** [order] lists the nodes of [s] in the order of their keys, and every level
    links exactly the nodes that reach it. *)
Record rep (s : Skiplist) (order : list ptr) : Prop := {
  rep_nodup : NoDup (sl_head :: order);
  rep_bound : forall p, p ∈ sl_head :: order -> (p < length (sl_arena s))%nat;
  rep_chain : forall i, (i < MAX_HEIGHT)%nat -> chain s i sl_head (level_nodes s i order);
  rep_height : forall p, p ∈ order -> (height_of s p <= sl_height s)%nat;
  rep_max : (sl_height s < MAX_HEIGHT)%nat;
  rep_sorted : StronglySorted (key_lt s) order
}.

(** The key-value pairs of [s] in order. *)
Definition entry_of (s : Skiplist) (p : ptr) : bytes * bytes := (key_of s p, value_of s p).
Definition holds (s : Skiplist) (kvs : list (bytes * bytes)) : Prop :=
  exists order, rep s order /\ kvs = entry_of s <$> order.

(** ** Chains *)
Lemma chain_app s i p l1 q l2 : chain s i p (l1 ++ q :: l2) -> chain s i q l2.
Proof. revert p. induction l1 as [|a l1 IH]; intros p; simpl; [naive_solver|]. intros [_ H]. eauto. Qed.

Lemma chain_slot s i p l : chain s i p l -> slot s p i = Some (head l).
Proof. destruct l; simpl; naive_solver. Qed.

Lemma chain_frame s s' i p l :
  (forall q, q ∈ p :: l -> slot s' q i = slot s q i) -> chain s i p l -> chain s' i p l.
Proof.
  revert p. induction l as [|a l IH]; intros p H; simpl.
  - rewrite H by set_solver. done.
  - intros [Hp Hc]. split; [rewrite H by set_solver; done|]. apply IH; [|done]. set_solver.
Qed.

Lemma last_cons_default {A} (l : list A) a d : List.last (a :: l) d = List.last l a.
Proof.
  revert a d. induction l as [|b l IH]; intros a d; [done|].
  change (List.last (a :: b :: l) d) with (List.last (b :: l) d). by rewrite !IH.
Qed.

(** Linking [x] between [pre] and [suf]. *)
Lemma chain_insert s s' i p pre x suf :
  NoDup (p :: pre ++ suf) -> x ∉ p :: pre ++ suf ->
  chain s i p (pre ++ suf) ->
  slot s' (List.last pre p) i = Some (Some x) -> slot s' x i = Some (head suf) ->
  (forall q, q ∈ p :: pre ++ suf -> q <> List.last pre p -> slot s' q i = slot s q i) ->
  chain s' i p (pre ++ x :: suf).
Proof.
  revert p. induction pre as [|a pre IH]; intros p Hnd Hx Hc Hp Hxs Hf.
  - simpl in *. split; [done|]. destruct suf as [|b suf]; simpl in *; [done|].
    split; [done|]. destruct Hc as [_ Hc]. revert Hc. apply chain_frame. intros q Hq.
    apply Hf; [set_solver|]. apply NoDup_cons in Hnd as [Hnd _]. set_solver.
  - cbn [app chain] in *. apply NoDup_cons in Hnd as [Hpn Hnd]. destruct Hc as [Hpa Hc].
    pose proof (last_cons_default pre a p) as Hlast.
    rewrite Hlast in Hp, Hf. split.
    + rewrite Hf; [done|set_solver|]. intros Heq. apply Hpn. rewrite Heq.
      destruct (exists_last (l:=a :: pre)) as (l' & z & Hz); [done|].
      change (a :: pre ++ suf) with ((a :: pre) ++ suf).
      assert (List.last pre a = z) as ->.
      { rewrite <- Hlast, Hz. by rewrite List.last_last. }
      rewrite Hz. set_solver.
    + apply IH; auto; [set_solver|]. intros q Hq. apply Hf. set_solver.
Qed.

(** ** Reading the structure *)
Lemma next_ptr_slot {E} s p i o : slot s p i = Some o -> @next_ptr E s p i = Ok o.
Proof.
  unfold slot, next_ptr, deref. destruct (sl_arena s !! p) as [n|]; simpl; [|done].
  by intros ->.
Qed.

Lemma deref_bound {E} s p :
  (p < length (sl_arena s))%nat ->
  exists n, @deref E s p = Ok n /\ sl_arena s !! p = Some n /\ nd_key n = key_of s p /\
            nd_value n = value_of s p.
Proof.
  intros H. destruct (lookup_lt_is_Some_2 (sl_arena s) p H) as [n Hn]. exists n.
  unfold deref, key_of, value_of. by rewrite Hn.
Qed.

Lemma level_nodes_app s i l1 l2 : level_nodes s i (l1 ++ l2) = level_nodes s i l1 ++ level_nodes s i l2.
Proof. apply filter_app. Qed.

Lemma level_nodes_0 s l : level_nodes s 0 l = l.
Proof.
  unfold level_nodes. induction l as [|a l IH]; [done|]. rewrite filter_cons_True by lia. by rewrite IH.
Qed.

Lemma level_nodes_elem s i l p : p ∈ level_nodes s i l <-> (i <= height_of s p)%nat /\ p ∈ l.
Proof. unfold level_nodes. by rewrite list_elem_of_filter. Qed.

Lemma level_nodes_sub s i l p : p ∈ level_nodes s i l -> p ∈ l.
Proof. rewrite level_nodes_elem. naive_solver. Qed.

Lemma level_nodes_length s i l : (length (level_nodes s i l) <= length l)%nat.
Proof. apply length_filter. Qed.

Lemma level_nodes_ext s s' i l :
  (forall p, p ∈ l -> height_of s' p = height_of s p) -> level_nodes s' i l = level_nodes s i l.
Proof.
  unfold level_nodes. induction l as [|a l IH]; intros H; [done|].
  rewrite !filter_cons, (H a), IH by set_solver. done.
Qed.

(** The first node that reaches a level, and what lies before it. *)
Lemma level_nodes_cons_inv s i l q t :
  level_nodes s i l = q :: t ->
  exists l1 l2, l = l1 ++ q :: l2 /\ level_nodes s i l1 = [] /\ level_nodes s i l2 = t /\
                (i <= height_of s q)%nat.
Proof.
  unfold level_nodes. induction l as [|a l IH]; [done|].
  destruct (decide (i <= height_of s a)%nat) as [Ha|Ha].
  - rewrite filter_cons_True by done. intros [= -> <-]. by exists [], l.
  - rewrite filter_cons_False by done. intros H. destruct (IH H) as (l1 & l2 & -> & H1 & H2 & H3).
    exists (a :: l1), l2. split; [done|]. by rewrite filter_cons_False.
Qed.

Lemma last_snoc_default {A} (l : list A) z d : List.last (l ++ [z]) d = z.
Proof. apply List.last_last. Qed.

Lemma snoc_cases {A} (l : list A) : l = [] \/ exists l' z, l = l' ++ [z].
Proof. destruct l as [|a l] using rev_ind; eauto. Qed.

Lemma rep_chain_at s a c i :
  rep s (a ++ c) -> (i < MAX_HEIGHT)%nat ->
  a = [] \/ (i <= height_of s (List.last a sl_head))%nat ->
  chain s i (List.last a sl_head) (level_nodes s i c).
Proof.
  intros Hr Hi Ha. pose proof (rep_chain _ _ Hr i Hi) as Hc.
  destruct (snoc_cases a) as [->|(a' & z & ->)]; [done|].
  rewrite last_snoc_default in Ha |- *. destruct Ha as [Ha|Ha]; [by destruct a'|].
  rewrite <- app_assoc, level_nodes_app in Hc.
  assert (level_nodes s i ([z] ++ c) = z :: level_nodes s i c) as Hz.
  { unfold level_nodes. simpl. by rewrite filter_cons_True. }
  rewrite Hz in Hc. by apply chain_app in Hc.
Qed.

Lemma rep_bound_elem s order p : rep s order -> p ∈ order -> (p < length (sl_arena s))%nat.
Proof. intros Hr Hp. apply (rep_bound _ _ Hr). set_solver. Qed.

Lemma rep_length s order : rep s order -> (length order < length (sl_arena s))%nat.
Proof.
  intros Hr. pose proof (rep_nodup _ _ Hr) as Hnd.
  assert (length (sl_head :: order) <= length (seq 0 (length (sl_arena s))))%nat as H.
  { apply submseteq_length, NoDup_submseteq; [done|]. intros p Hp. apply elem_of_seq.
    pose proof (rep_bound _ _ Hr p Hp). lia. }
  rewrite length_seq in H. simpl in H. lia.
Qed.

Lemma last_in {A} (l : list A) d : List.last l d ∈ d :: l.
Proof. destruct (snoc_cases l) as [->|(l' & z & ->)]; [set_solver|]. rewrite last_snoc_default. set_solver. Qed.

Lemma last_app_cons {A} (l1 l2 : list A) x d : List.last (l1 ++ x :: l2) d = List.last l2 x.
Proof.
  destruct (snoc_cases l2) as [->|(l' & z & ->)]; [by rewrite last_snoc_default|].
  by rewrite app_comm_cons, app_assoc, !last_snoc_default.
Qed.

(** ** Searching *)
Context {LC : LawfulComparator KC}.

Definition below (s : Skiplist) (key : bytes) (p : ptr) : Prop := compare_key (key_of s p) key = Lt.
Definition not_below (s : Skiplist) (key : bytes) (p : ptr) : Prop := compare_key (key_of s p) key <> Lt.

Lemma compare_below s key p : below s key p -> compare_key key (key_of s p) = Gt.
Proof. unfold below. by rewrite (cmp_gt_lt compare_key). Qed.

Lemma compare_not_below s key p :
  not_below s key p ->
  (compare_key key (key_of s p) = Eq /\ key_of s p = key) \/
  (compare_key key (key_of s p) = Lt /\ key_of s p <> key).
Proof.
  unfold not_below. intros H. destruct (compare_key key (key_of s p)) eqn:Hc.
  - left. split; [done|]. by apply cmp_eq in Hc.
  - right. split; [done|]. intros Heq. rewrite Heq, (cmp_refl compare_key) in Hc. done.
  - apply (cmp_gt_lt compare_key) in Hc. done.
Qed.

(** Every sorted list splits at a key. *)
Lemma split_at_key s key l :
  StronglySorted (key_lt s) l ->
  exists l1 l2, l = l1 ++ l2 /\ Forall (below s key) l1 /\ Forall (not_below s key) l2.
Proof.
  induction 1 as [|a l Hl (l1 & l2 & -> & H1 & H2) Ha]; [by exists [], []|].
  destruct (compare_key (key_of s a) key) eqn:Hc.
  2: { exists (a :: l1), l2. repeat split; auto. }
  all: exists [], (a :: l1 ++ l2); repeat split; auto; constructor; [unfold not_below; congruence|].
  all: eapply Forall_impl; [exact Ha|]; intros q Hq Hlt; unfold key_lt, not_below in *.
  all: pose proof (cmp_lt_trans (cmp:=compare_key) _ _ _ Hq Hlt); congruence.
Qed.

Lemma find_splice_spec {E} s key level l2 : forall l1 before fuel,
  chain s level before (l1 ++ l2) ->
  (forall q, q ∈ l1 ++ l2 -> (q < length (sl_arena s))%nat) ->
  Forall (below s key) l1 -> Forall (not_below s key) l2 -> (length l1 < fuel)%nat ->
  @find_splice_loop KC E fuel s key before level =
    Ok (match head l2 with
        | Some q => if bool_decide (key_of s q = key) then (q, Some q)
                    else (List.last l1 before, Some q)
        | None => (List.last l1 before, None)
        end).
Proof.
  induction l1 as [|a l1 IH]; intros before [|fuel] Hc Hb H1 H2 Hf; try (simpl in Hf; lia).
  - simpl in Hc. cbn [find_splice_loop]. rewrite (next_ptr_slot _ _ _ _ (chain_slot _ _ _ _ Hc)).
    destruct l2 as [|q l2]; simpl; [done|].
    destruct (deref_bound (E:=E) s q) as (n & -> & _ & Hk & _); [apply Hb; set_solver|]. simpl.
    rewrite Hk. apply Forall_cons in H2 as [Hq _].
    destruct (compare_not_below _ _ _ Hq) as [[-> ?]|[-> ?]].
    + by rewrite bool_decide_eq_true_2.
    + by rewrite bool_decide_eq_false_2.
  - simpl in Hc. destruct Hc as [Hs Hc]. cbn [find_splice_loop].
    rewrite (next_ptr_slot _ _ _ _ Hs). cbn [rbind].
    destruct (deref_bound (E:=E) s a) as (n & -> & _ & Hk & _); [apply Hb; set_solver|]. cbn [rbind].
    apply Forall_cons in H1 as [Ha H1]. rewrite Hk, (compare_below _ _ _ Ha).
    rewrite (IH a fuel); [by rewrite last_cons_default|done| |done|done|simpl in Hf; lia].
    intros q Hq. apply Hb. set_solver.
Qed.

(** What [find_near] returns, of the nodes below a key and of the others. *)
Definition near (s : Skiplist) (key : bytes) (less allow_equal : bool) (pre rest : list ptr)
  : option ptr :=
  match rest with
  | q :: rest' =>
      if bool_decide (key_of s q = key) then
        if allow_equal then Some q else if less then last pre else head rest'
      else if less then last pre else Some q
  | [] => if less then last pre else None
  end.

Lemma last_default {A} (l : list A) d : last l = (if decide (l = []) then None else Some (List.last l d)).
Proof.
  destruct (snoc_cases l) as [->|(l' & z & ->)]; [done|].
  rewrite last_snoc, last_snoc_default. by case_decide as H; [destruct l'|].
Qed.

Lemma at_base_spec {E} s a c :
  rep s (a ++ c) ->
  (if (List.last a sl_head =? sl_head)%nat then Ok None else Ok (Some (List.last a sl_head)))
  = @Ok E _ (last a).
Proof.
  intros Hr. rewrite (last_default a sl_head). pose proof (rep_nodup _ _ Hr) as Hnd.
  destruct (snoc_cases a) as [->|(a' & z & ->)]; [done|]. rewrite last_snoc_default.
  case_decide as H; [by destruct a'|].
  destruct (Nat.eqb_spec z sl_head) as [->|]; [|done].
  exfalso. apply NoDup_cons in Hnd as [Hnd _]. set_solver.
Qed.

Lemma equal_is_head s key a rest q :
  rep s (a ++ rest) -> Forall (not_below s key) rest -> q ∈ rest -> key_of s q = key ->
  head rest = Some q.
Proof.
  intros Hr Hn Hq Hk. destruct rest as [|q0 rest]; [set_solver|]. simpl. f_equal.
  apply elem_of_cons in Hq as [->|Hq]; [done|]. exfalso.
  apply Forall_cons in Hn as [Hn _]. apply Hn. rewrite <- Hk.
  pose proof (rep_sorted _ _ Hr) as Hs. apply StronglySorted_app in Hs as (_ & _ & Hs).
  apply StronglySorted_inv in Hs as [_ Hs]. rewrite Forall_forall in Hs. by apply Hs.
Qed.

Lemma find_near_loop_spec {E} s key less ae : forall fuel a c rest level,
  rep s (a ++ c ++ rest) -> Forall (below s key) (a ++ c) -> Forall (not_below s key) rest ->
  (level < MAX_HEIGHT)%nat -> a = [] \/ (level <= height_of s (List.last a sl_head))%nat ->
  (length c + level < fuel)%nat ->
  @find_near_loop KC E fuel s key less ae (List.last a sl_head) level
  = Ok (near s key less ae (a ++ c) rest).
Proof.
  induction fuel as [|fuel IH]; intros a c rest level Hr Hlt Hge Hl Ha Hf; [lia|].
  assert (Hdown : (0 < level)%nat ->
    @find_near_loop KC E fuel s key less ae (List.last a sl_head) (level - 1)
    = Ok (near s key less ae (a ++ c) rest)).
  { intros H. apply IH; auto; [lia|destruct Ha; [by left|right; lia]|lia]. }
  assert (Hbase : level = 0%nat -> level_nodes s level c = [] -> c = []).
  { intros ->. by rewrite level_nodes_0. }
  pose proof (rep_chain_at _ _ _ _ Hr Hl Ha) as Hc. rewrite level_nodes_app in Hc.
  cbn [find_near_loop]. rewrite (next_ptr_slot _ _ _ _ (chain_slot _ _ _ _ Hc)). cbn [rbind].
  rewrite (at_base_spec _ _ _ Hr).
  destruct (level_nodes s level c) as [|q t] eqn:Hlc.
  2: { (* a node below the key: move right *)
    destruct (level_nodes_cons_inv _ _ _ _ _ Hlc) as (c1 & c2 & -> & _ & _ & Hh). cbn [head app].
    destruct (deref_bound (E:=E) s q) as (n & -> & _ & Hk & _).
    { apply (rep_bound_elem _ _ _ Hr). set_solver. }
    cbn [rbind]. rewrite Hk, (compare_below s key q) by (rewrite Forall_forall in Hlt; apply Hlt; set_solver).
    replace q with (List.last (a ++ c1 ++ [q]) sl_head) at 1 by (rewrite app_assoc; apply last_snoc_default).
    replace (a ++ c1 ++ q :: c2) with ((a ++ c1 ++ [q]) ++ c2) in Hlt |- * by (by rewrite <- !app_assoc).
    apply IH; auto.
    - rewrite <- !app_assoc in Hr. by rewrite <- !app_assoc.
    - right. by rewrite app_assoc, last_snoc_default.
    - rewrite length_app in Hf. simpl in Hf. lia. }
  cbn [app] in *. destruct (level_nodes s level rest) as [|q t] eqn:Hlr; cbn [head].
  - (* the end of the level *)
    destruct (Nat.ltb_spec 0 level) as [Hp|Hp]; [by apply Hdown|].
    assert (level = 0%nat) as -> by lia. rewrite level_nodes_0 in Hlr. subst rest.
    rewrite (Hbase eq_refl eq_refl), app_nil_r. by destruct less.
  - (* a node that is not below the key *)
    assert (Hq : q ∈ rest) by (apply (level_nodes_sub s level); rewrite Hlr; set_solver).
    destruct (deref_bound (E:=E) s q) as (n & -> & _ & Hk & _).
    { apply (rep_bound_elem _ _ _ Hr). set_solver. }
    cbn [rbind]. rewrite Hk. rewrite app_assoc in Hr.
    destruct (compare_not_below s key q) as [[-> Hqk]|[-> Hqk]];
      [rewrite Forall_forall in Hge; by apply Hge| |].
    + pose proof (equal_is_head _ _ _ _ _ Hr Hge Hq Hqk) as Hh.
      destruct rest as [|q0 rest]; [done|]. injection Hh as ->. cbn [near].
      rewrite bool_decide_eq_true_2 by done. destruct ae; [done|]. destruct less; cbn [negb].
      * destruct (Nat.ltb_spec 0 level) as [Hp|Hp].
        { rewrite Hdown by done. cbn [near]. by rewrite bool_decide_eq_true_2. }
        rewrite (Hbase ltac:(lia) eq_refl), app_nil_r. done.
      * replace ((a ++ c) ++ q :: rest) with (((a ++ c) ++ [q]) ++ rest) in Hr by (by rewrite <- app_assoc).
        pose proof (rep_chain_at _ _ _ 0 Hr ltac:(unfold MAX_HEIGHT; lia) ltac:(right; lia)) as Hn.
        rewrite last_snoc_default, level_nodes_0 in Hn. apply next_ptr_slot, (chain_slot _ _ _ _ Hn).
    + destruct (Nat.ltb_spec 0 level) as [Hp|Hp]; [by apply Hdown|].
      assert (level = 0%nat) as -> by lia. rewrite level_nodes_0 in Hlr. subst rest. cbn [near].
      rewrite bool_decide_eq_false_2 by done. rewrite (Hbase eq_refl eq_refl), app_nil_r.
      by destruct less.
Qed.

Lemma find_near_spec {E} s key less ae pre rest :
  rep s (pre ++ rest) -> Forall (below s key) pre -> Forall (not_below s key) rest ->
  @find_near KC E s key less ae = Ok (near s key less ae pre rest).
Proof.
  intros Hr Hlt Hge. unfold find_near. pose proof (rep_length _ _ Hr) as Hlen.
  rewrite length_app in Hlen. change sl_head with (List.last [] sl_head) at 1.
  rewrite (find_near_loop_spec s key less ae _ [] pre rest); simpl; auto; [apply Hr|lia].
Qed.

(** ** Insertion *)

(** The predecessor of a key at a level, and its successor there. *)
Definition pred_at (s : Skiplist) (i : nat) (pre : list ptr) : ptr := List.last (level_nodes s i pre) sl_head.
Definition succ_at (s : Skiplist) (i : nat) (rest : list ptr) : option ptr := head (level_nodes s i rest).

Lemma splice_from {E} s key i p1 l1 l2 before :
  rep s (p1 ++ l1 ++ l2) -> (i < MAX_HEIGHT)%nat -> before = List.last p1 sl_head ->
  p1 = [] \/ (i <= height_of s before)%nat ->
  Forall (below s key) l1 -> Forall (not_below s key) l2 ->
  @find_splice_for_level KC E s key before i =
    Ok (match succ_at s i l2 with
        | Some q => if bool_decide (key_of s q = key) then (q, Some q)
                    else (List.last (level_nodes s i l1) before, Some q)
        | None => (List.last (level_nodes s i l1) before, None)
        end).
Proof.
  intros Hr Hi -> Hb H1 H2. pose proof (rep_chain_at _ _ _ _ Hr Hi Hb) as Hc.
  rewrite level_nodes_app in Hc. apply find_splice_spec; auto.
  - intros q Hq. apply (rep_bound_elem _ _ _ Hr). rewrite <- level_nodes_app in Hq.
    apply level_nodes_sub in Hq. set_solver.
  - rewrite Forall_forall in H1 |- *. intros q Hq. by apply H1, (level_nodes_sub s i).
  - rewrite Forall_forall in H2 |- *. intros q Hq. by apply H2, (level_nodes_sub s i).
  - pose proof (rep_length _ _ Hr). pose proof (level_nodes_length s i l1).
    rewrite !length_app in *. lia.
Qed.

(** One level of the search, from the predecessor of the level above. *)
Lemma splice_step {E} s key i pre rest :
  rep s (pre ++ rest) -> (i < MAX_HEIGHT)%nat ->
  Forall (below s key) pre -> Forall (not_below s key) rest ->
  @find_splice_for_level KC E s key (pred_at s (S i) pre) i =
    Ok (match succ_at s i rest with
        | Some q => if bool_decide (key_of s q = key) then (q, Some q)
                    else (pred_at s i pre, Some q)
        | None => (pred_at s i pre, None)
        end).
Proof.
  intros Hr Hi H1 H2. unfold pred_at at 1.
  destruct (snoc_cases (level_nodes s (S i) pre)) as [Hn|(l & z & Hn)]; rewrite Hn.
  - by rewrite (splice_from s key i [] pre rest sl_head); auto.
  - rewrite last_snoc_default.
    assert (Hz : z ∈ level_nodes s (S i) pre) by (rewrite Hn; set_solver).
    apply level_nodes_elem in Hz as [Hh Hz]. apply list_elem_of_split in Hz as (p1 & p2 & ->).
    replace ((p1 ++ z :: p2) ++ rest) with ((p1 ++ [z]) ++ p2 ++ rest) in Hr by (by rewrite <- !app_assoc).
    apply Forall_app in H1 as [_ H1]. apply Forall_cons in H1 as [_ H1].
    rewrite (splice_from s key i (p1 ++ [z]) p2 rest z); auto;
      [|by rewrite last_snoc_default|right; lia].
    unfold pred_at. rewrite level_nodes_app.
    assert (level_nodes s i (z :: p2) = z :: level_nodes s i p2) as ->
      by (unfold level_nodes; rewrite filter_cons_True; [done|lia]).
    by rewrite last_app_cons.
Qed.

Lemma pred_not_succ s i pre rest q :
  rep s (pre ++ rest) -> succ_at s i rest = Some q -> pred_at s i pre <> q.
Proof.
  intros Hr Hs Heq. pose proof (rep_nodup _ _ Hr) as Hnd.
  assert (Hq : q ∈ rest).
  { apply (level_nodes_sub s i). unfold succ_at in Hs. destruct (level_nodes s i rest); [done|].
    injection Hs as ->. set_solver. }
  pose proof (last_in (level_nodes s i pre) sl_head) as Hl. fold (pred_at s i pre) in Hl.
  rewrite Heq in Hl. apply NoDup_cons in Hnd as [Hh Hnd]. apply NoDup_app in Hnd as (_ & Hd & _).
  apply elem_of_cons in Hl as [->|Hl]; [set_solver|]. apply level_nodes_sub in Hl. by apply (Hd q).
Qed.

(** The arrays hold the splice of level [i]. *)
Definition spliced (s : Skiplist) (pre rest : list ptr) (prev next : ptrs) (i : nat) : Prop :=
  prev !! i = Some (Some (pred_at s i pre)) /\ next !! i = Some (succ_at s i rest).

(** The search finds a key that is there. *)
Lemma put_splices_found {E} s key pre q rest : forall levels prev next,
  rep s (pre ++ q :: rest) -> (levels < MAX_HEIGHT)%nat -> key_of s q = key ->
  Forall (below s key) pre -> Forall (not_below s key) (q :: rest) ->
  length prev = S MAX_HEIGHT -> prev !! S levels = Some (Some (pred_at s (S levels) pre)) ->
  @put_splices KC E s key (S levels) prev next = Ok None.
Proof.
  induction levels as [|i IH]; intros prev next Hr Hl Hk H1 H2 Hlen Hp;
    cbn [put_splices]; rewrite Hp; cbn [unwrap rbind];
    rewrite (splice_step s key _ pre (q :: rest)) by auto; cbn [rbind].
  - unfold succ_at. rewrite level_nodes_0. simpl. by rewrite !bool_decide_eq_true_2.
  - destruct (succ_at s (S i) (q :: rest)) as [q'|] eqn:Hs.
    + destruct (decide (key_of s q' = key)) as [Hq|Hq].
      * rewrite bool_decide_eq_true_2 by done. by rewrite bool_decide_eq_true_2.
      * rewrite bool_decide_eq_false_2 by done.
        rewrite bool_decide_eq_false_2 by (intros [= Heq]; by apply (pred_not_succ _ _ _ _ _ Hr Hs)).
        apply IH; auto; [lia|by rewrite length_insert|]. apply list_lookup_insert_eq.
        unfold MAX_HEIGHT in *. lia.
    + rewrite bool_decide_eq_false_2 by done.
      apply IH; auto; [lia|by rewrite length_insert|]. apply list_lookup_insert_eq.
      unfold MAX_HEIGHT in *. lia.
Qed.

Lemma succ_at_elem s i rest q : succ_at s i rest = Some q -> q ∈ rest.
Proof.
  unfold succ_at. intros H. apply (level_nodes_sub s i).
  destruct (level_nodes s i rest); [done|]. injection H as ->. set_solver.
Qed.

Lemma splice_step_absent {E} s key i pre rest :
  rep s (pre ++ rest) -> (i < MAX_HEIGHT)%nat -> Forall (below s key) pre ->
  Forall (not_below s key) rest -> Forall (fun q => key_of s q <> key) rest ->
  @find_splice_for_level KC E s key (pred_at s (S i) pre) i = Ok (pred_at s i pre, succ_at s i rest) /\
  Some (pred_at s i pre) <> succ_at s i rest.
Proof.
  intros Hr Hi H1 H2 H3. rewrite (splice_step s key i pre rest) by auto.
  destruct (succ_at s i rest) as [q|] eqn:Hs; [|done]. rewrite bool_decide_eq_false_2.
  - split; [done|]. intros [= Heq]. by apply (pred_not_succ _ _ _ _ _ Hr Hs).
  - apply succ_at_elem in Hs. rewrite Forall_forall in H3. by apply H3.
Qed.

(** The search of a key that is not there fills the arrays. *)
Lemma put_splices_absent {E} s key pre rest : forall levels prev next,
  rep s (pre ++ rest) -> (levels <= MAX_HEIGHT)%nat ->
  Forall (below s key) pre -> Forall (not_below s key) rest -> Forall (fun q => key_of s q <> key) rest ->
  length prev = S MAX_HEIGHT -> length next = S MAX_HEIGHT ->
  prev !! levels = Some (Some (pred_at s levels pre)) ->
  exists prev' next', @put_splices KC E s key levels prev next = Ok (Some (prev', next')) /\
    (forall i, (i < levels)%nat -> spliced s pre rest prev' next' i) /\
    (forall i, (levels <= i)%nat -> prev' !! i = prev !! i /\ next' !! i = next !! i).
Proof.
  induction levels as [|i IH]; intros prev next Hr Hl H1 H2 H3 Hp Hn Hs.
  { exists prev, next. repeat split; lia || done. }
  cbn [put_splices]. rewrite Hs. cbn [unwrap rbind].
  destruct (splice_step_absent (E:=E) s key i pre rest) as [-> Hne]; auto. cbn [rbind].
  rewrite bool_decide_eq_false_2 by done.
  destruct (IH (<[i := Some (pred_at s i pre)]> prev) (<[i := succ_at s i rest]> next))
    as (prev' & next' & Heq & Hlt & Hge); auto.
  - lia.
  - by rewrite length_insert.
  - by rewrite length_insert.
  - apply list_lookup_insert_eq. unfold MAX_HEIGHT in *. lia.
  - exists prev', next'. split; [done|]. split.
    + intros j Hj. destruct (decide (j = i)) as [->|]; [|apply Hlt; lia].
      destruct (Hge i ltac:(lia)) as [Hpi Hni].
      split; [rewrite Hpi|rewrite Hni]; apply list_lookup_insert_eq; unfold MAX_HEIGHT in *; lia.
    + intros j Hj. destruct (Hge j ltac:(lia)) as [-> ->].
      by rewrite !list_lookup_insert_ne by lia.
Qed.

(** Two lists with the same nodes, up to their towers. *)
Record same_data (s s' : Skiplist) : Prop := {
  same_height : sl_height s' = sl_height s;
  same_length : length (sl_arena s') = length (sl_arena s);
  same_keys : forall p, key_of s' p = key_of s p;
  same_values : forall p, value_of s' p = value_of s p;
  same_heights : forall p, height_of s' p = height_of s p
}.

Lemma same_data_refl s : same_data s s.
Proof. by split. Qed.
Lemma same_data_trans s1 s2 s3 : same_data s1 s2 -> same_data s2 s3 -> same_data s1 s3.
Proof. intros [] []. split; congruence. Qed.

Lemma same_level_nodes s s' i l : same_data s s' -> level_nodes s' i l = level_nodes s i l.
Proof. intros H. apply level_nodes_ext. intros p _. apply (same_heights _ _ H). Qed.
Lemma same_pred_at s s' i l : same_data s s' -> pred_at s' i l = pred_at s i l.
Proof. intros H. unfold pred_at. by rewrite (same_level_nodes s s'). Qed.
Lemma same_succ_at s s' i l : same_data s s' -> succ_at s' i l = succ_at s i l.
Proof. intros H. unfold succ_at. by rewrite (same_level_nodes s s'). Qed.

Lemma store_tower_spec {E} s p i q old :
  slot s p i = Some old ->
  exists s', @store_tower E s p i q = Ok s' /\ same_data s s' /\ slot s' p i = Some q /\
    forall p' j, p' <> p \/ j <> i -> slot s' p' j = slot s p' j.
Proof.
  unfold slot, store_tower, deref. intros H.
  destruct (sl_arena s !! p) as [n|] eqn:Hn; [|done]. cbn in H. cbn [unwrap rbind].
  rewrite H. cbn [unwrap rbind]. eexists; split; [done|].
  set (n' := MkNode _ _ _ _). assert (Hp : (p < length (sl_arena s))%nat) by (by eapply lookup_lt_Some).
  assert (Hsame : forall (A : Type) (f : Node -> A) d p', f n' = f n ->
            from_option f d (<[p := n']> (sl_arena s) !! p') = from_option f d (sl_arena s !! p')).
  { intros A f d p' Hf. destruct (decide (p' = p)) as [->|].
    - rewrite list_lookup_insert_eq by done. by rewrite Hn.
    - by rewrite list_lookup_insert_ne by done. }
  split; [|split].
  - split; simpl; [done|apply length_insert|..]; intros p'; by apply Hsame.
  - simpl. rewrite list_lookup_insert_eq by done. simpl. rewrite list_lookup_insert_eq; [done|].
    by eapply lookup_lt_Some.
  - intros p' j Hd. simpl. destruct (decide (p' = p)) as [->|].
    + rewrite list_lookup_insert_eq by done. rewrite Hn. simpl.
      rewrite list_lookup_insert_ne; [done|naive_solver].
    + by rewrite list_lookup_insert_ne.
Qed.

(** The state of the list while the node [x] is linked: below level [i] it is
    linked, from [i] up not yet. *)
Record linking (s0 : Skiplist) (pre : list ptr) (x : ptr) (rest : list ptr) (i : nat)
    (s : Skiplist) : Prop := {
  linking_data : same_data s0 s;
  linking_done : forall j, (j < i)%nat -> (j < MAX_HEIGHT)%nat ->
    chain s j sl_head (level_nodes s0 j (pre ++ x :: rest));
  linking_todo : forall j, (i <= j)%nat -> (j < MAX_HEIGHT)%nat ->
    chain s j sl_head (level_nodes s0 j (pre ++ rest));
  linking_tower : forall j, (j <= height_of s0 x)%nat -> is_Some (slot s x j)
}.

(** A node that is not linked yet. *)
Record fresh_node (s0 : Skiplist) (pre : list ptr) (x : ptr) (rest : list ptr) : Prop := {
  fresh_nodup : NoDup (sl_head :: pre ++ rest);
  fresh_not_in : x ∉ sl_head :: pre ++ rest;
  fresh_bound : forall p, p ∈ x :: sl_head :: pre ++ rest -> (p < length (sl_arena s0))%nat;
  fresh_height : (height_of s0 x < MAX_HEIGHT)%nat
}.

Lemma level_nodes_mid s i pre x rest :
  level_nodes s i (pre ++ x :: rest) =
  if decide (i <= height_of s x)%nat then level_nodes s i pre ++ x :: level_nodes s i rest
  else level_nodes s i (pre ++ rest).
Proof.
  rewrite !level_nodes_app. case_decide as H; f_equal; unfold level_nodes.
  - by rewrite filter_cons_True.
  - by rewrite filter_cons_False.
Qed.

Lemma level_nodes_nodup s i l : NoDup l -> NoDup (level_nodes s i l).
Proof. apply NoDup_filter. Qed.

Lemma chain_slot_last s i p l1 l2 :
  chain s i p (l1 ++ l2) -> slot s (List.last l1 p) i = Some (head l2).
Proof.
  destruct (snoc_cases l1) as [->|(l & z & ->)]; [apply chain_slot|].
  rewrite last_snoc_default, <- app_assoc. intros H. by apply chain_app, chain_slot in H.
Qed.

(** Storing the two pointers of a level links the node there. *)
Lemma link_level {E} s0 pre x rest i s :
  fresh_node s0 pre x rest -> linking s0 pre x rest i s -> (i <= height_of s0 x)%nat ->
  exists s1 s2, @store_tower E s x i (succ_at s0 i rest) = Ok s1 /\
    @next_ptr E s1 (pred_at s0 i pre) i = Ok (succ_at s0 i rest) /\
    @store_tower E s1 (pred_at s0 i pre) i (Some x) = Ok s2 /\ linking s0 pre x rest (S i) s2.
Proof.
  intros [Hnd Hx Hb Hh] [Hd Hdone Htodo Htow] Hi.
  destruct (Htow i Hi) as [old Hold].
  destruct (store_tower_spec (E:=E) s x i (succ_at s0 i rest) old Hold) as (s1 & H1 & Hd1 & Hx1 & Hf1).
  pose proof (Htodo i ltac:(lia) ltac:(lia)) as Hc. rewrite level_nodes_app in Hc.
  set (p := pred_at s0 i pre). assert (Hp : p ∈ sl_head :: pre).
  { pose proof (last_in (level_nodes s0 i pre) sl_head) as Hl. fold (pred_at s0 i pre) p in Hl.
    apply elem_of_cons in Hl as [->|Hl]; [set_solver|]. apply level_nodes_sub in Hl. set_solver. }
  assert (Hpx : p <> x) by (intros ->; apply Hx; set_solver).
  assert (Hps : slot s1 p i = Some (succ_at s0 i rest)).
  { rewrite Hf1 by (by left). by apply chain_slot_last. }
  destruct (store_tower_spec (E:=E) s1 p i (Some x) _ Hps) as (s2 & H2 & Hd2 & Hp2 & Hf2).
  exists s1, s2. split; [done|]. split; [by apply next_ptr_slot|]. split; [done|].
  assert (Hother : forall q j, (j <> i \/ (q <> x /\ q <> p)) -> slot s2 q j = slot s q j).
  { intros q j Hq. rewrite Hf2, Hf1; [done|naive_solver|naive_solver]. }
  split.
  - eapply same_data_trans; [done|]. by eapply same_data_trans.
  - intros j Hj Hjm. destruct (decide (j = i)) as [->|Hne].
    + rewrite level_nodes_mid, decide_True by done.
      apply (chain_insert s); auto; rewrite <- ?level_nodes_app.
      * apply NoDup_cons in Hnd as [Hn1 Hn2]. apply NoDup_cons. split.
        { intros H. by apply level_nodes_sub in H. } { by apply level_nodes_nodup. }
      * intros H. apply Hx. apply elem_of_cons in H as [->|H]; [set_solver|].
        apply level_nodes_sub in H. set_solver.
      * rewrite Hf2 by naive_solver. done.
      * intros q Hq Hqp. apply Hother. right. split; [|done]. intros ->. apply Hx.
        apply elem_of_cons in Hq as [->|Hq]; [set_solver|]. apply level_nodes_sub in Hq. set_solver.
    + eapply chain_frame; [|apply Hdone; lia]. intros q _. apply Hother. by left.
  - intros j Hj Hjm. eapply chain_frame; [|apply Htodo; lia]. intros q _. apply Hother. left. lia.
  - intros j Hj. destruct (decide (j = i)) as [->|].
    + rewrite Hf2 by naive_solver. rewrite Hx1. done.
    + rewrite Hother by (by left). auto.
Qed.

(** The arrays at a level that is still to be linked: its splice, or nothing
    yet for a level above those of the list. *)
Definition ready (s0 : Skiplist) (pre rest : list ptr) (prev next : ptrs) (i : nat) : Prop :=
  spliced s0 pre rest prev next i \/
  (prev !! i = Some None /\ is_Some (next !! i) /\ (1 < i)%nat /\ level_nodes s0 i (pre ++ rest) = []).

Lemma put_link_spec {E} s0 pre x rest i s fuel prev next :
  fresh_node s0 pre x rest -> linking s0 pre x rest i s -> (i <= height_of s0 x)%nat ->
  ready s0 pre rest prev next i ->
  exists s' prev' next', @put_link KC E (S fuel) s x i prev next = Ok (Some (s', (prev', next'))) /\
    linking s0 pre x rest (S i) s' /\
    forall j, j <> i -> prev' !! j = prev !! j /\ next' !! j = next !! j.
Proof.
  intros Hf Hl Hi Hr. destruct (link_level (E:=E) s0 pre x rest i s Hf Hl Hi) as (s1 & s2 & H1 & Hn & H2 & Hl').
  pose proof Hl as [Hd _ Htodo _].
  destruct (deref_bound (E:=E) s x) as (xn & Hxn & _ & Hkx & _).
  { rewrite (same_length _ _ Hd). apply (fresh_bound _ _ _ _ Hf). set_solver. }
  cbn [put_link]. rewrite Hxn. cbn [rbind]. destruct Hr as [[Hp Hs]|(Hp & [o Ho] & H1i & Hempty)].
  - rewrite Hp. cbn [unwrap rbind]. rewrite Hp, Hs. cbn [unwrap rbind]. rewrite H1. cbn [rbind].
    rewrite Hn. cbn [rbind]. rewrite bool_decide_eq_true_2 by done. rewrite H2. cbn [rbind].
    exists s2, prev, next. by auto.
  - rewrite Hp. cbn [unwrap rbind]. rewrite (proj2 (Nat.ltb_lt 1 i) H1i). cbn [rassert rbind].
    pose proof (fresh_height _ _ _ _ Hf) as Hm.
    assert (Hpos : (0 < length (sl_arena s))%nat).
    { rewrite (same_length _ _ Hd). apply (fresh_bound _ _ _ _ Hf). set_solver. }
    unfold find_splice_for_level. rewrite (find_splice_spec s (nd_key xn) i [] [] sl_head); auto;
      [|rewrite app_nil_r, <- Hempty; apply Htodo; lia|set_solver].
    cbn [head List.last rbind]. rewrite bool_decide_eq_false_2 by done. cbn [negb rassert rbind].
    rewrite !list_lookup_insert_eq by (by eapply lookup_lt_Some). cbn [unwrap rbind].
    rewrite level_nodes_app in Hempty. apply app_eq_nil in Hempty as [Hep Hes].
    unfold succ_at, pred_at in *. rewrite Hep, Hes in *. simpl in H1, Hn, H2.
    rewrite H1. cbn [rbind]. rewrite Hn. cbn [rbind]. rewrite bool_decide_eq_true_2 by done.
    rewrite H2. cbn [rbind]. do 3 eexists. split; [done|]. split; [done|].
    intros j Hj. by rewrite !list_lookup_insert_ne by done.
Qed.

Lemma put_levels_spec {E} s0 pre x rest : forall todo i s prev next,
  fresh_node s0 pre x rest -> linking s0 pre x rest i s -> (i + todo = S (height_of s0 x))%nat ->
  (forall j, (i <= j <= height_of s0 x)%nat -> ready s0 pre rest prev next j) ->
  exists s', @put_levels KC E s x i todo prev next = Ok (Some s') /\
    linking s0 pre x rest (S (height_of s0 x)) s'.
Proof.
  induction todo as [|todo IH]; intros i s prev next Hf Hl Hi Hr.
  - exists s. split; [done|]. by replace (S (height_of s0 x)) with i by lia.
  - cbn [put_levels]. destruct (put_link_spec (E:=E) s0 pre x rest i s 1 prev next)
      as (s' & prev' & next' & -> & Hl' & Hsame); auto; [lia|apply Hr; lia|]. cbn [rbind].
    apply IH; auto; [lia|]. intros j Hj. destruct (Hsame j ltac:(lia)) as [Hp Hn].
    unfold ready, spliced. rewrite Hp, Hn. apply Hr. lia.
Qed.

(** A list whose new node is linked at all its levels represents the order
    with the node in its place. *)
Lemma linked_rep s0 pre x rest s :
  rep s0 (pre ++ rest) -> fresh_node s0 pre x rest ->
  linking s0 pre x rest (S (height_of s0 x)) s -> (height_of s0 x <= sl_height s0)%nat ->
  Forall (fun q => key_lt s0 q x) pre -> Forall (key_lt s0 x) rest ->
  rep s (pre ++ x :: rest).
Proof.
  intros Hr [Hnd Hx Hb Hh] [Hd Hdone Htodo _] Hs H1 H2.
  assert (Hperm : pre ++ x :: rest ≡ₚ x :: pre ++ rest) by (by rewrite Permutation_middle).
  split.
  - rewrite Hperm. apply NoDup_cons in Hnd as [Hn1 Hn2]. apply NoDup_cons. split; [set_solver|].
    apply NoDup_cons. split; [set_solver|done].
  - intros p Hp. rewrite (same_length _ _ Hd). apply Hb. rewrite Hperm in Hp. set_solver.
  - intros i Hi. rewrite (same_level_nodes s0 s) by done.
    destruct (decide (i <= height_of s0 x)%nat); [apply Hdone; lia|].
    rewrite level_nodes_mid, decide_False by done. apply Htodo; lia.
  - intros p Hp. rewrite (same_heights _ _ Hd), (same_height _ _ Hd).
    rewrite Hperm in Hp. apply elem_of_cons in Hp as [->|Hp]; [done|]. by apply (rep_height _ _ Hr).
  - rewrite (same_height _ _ Hd). apply (rep_max _ _ Hr).
  - pose proof (rep_sorted _ _ Hr) as Hsort. rewrite StronglySorted_app in Hsort.
    destruct Hsort as (Hc & Hp & Hrs).
    assert (Hkey : forall a b, key_lt s0 a b -> key_lt s a b).
    { unfold key_lt. intros a b. by rewrite !(same_keys _ _ Hd). }
    assert (Hmono : forall l, StronglySorted (key_lt s0) l -> StronglySorted (key_lt s) l).
    { induction 1; constructor; auto. eapply Forall_impl; eauto. }
    apply StronglySorted_app. split; [|split; [by apply Hmono|]].
    + intros a b Ha Hbb. apply Hkey. apply elem_of_cons in Hbb as [->|Hbb].
      * rewrite Forall_forall in H1. by apply H1.
      * by apply Hc.
    + constructor; [by apply Hmono|]. eapply Forall_impl; [exact H2|]. intros b. apply Hkey.
Qed.

(** Allocating a node keeps the list. *)
Definition alloc_state (s : Skiplist) (key value : bytes) (height : nat) : Skiplist :=
  MkSkiplist (if (sl_height s <? height)%nat then height else sl_height s)
    (sl_arena s ++ [MkNode height (replicate (height + 1) None) key value]).

Lemma alloc_lookup s key value height p :
  (p < length (sl_arena s))%nat ->
  sl_arena (alloc_state s key value height) !! p = sl_arena s !! p.
Proof. intros H. simpl. by rewrite lookup_app_l. Qed.

Lemma alloc_lookup_new s key value height :
  sl_arena (alloc_state s key value height) !! length (sl_arena s)
  = Some (MkNode height (replicate (height + 1) None) key value).
Proof. simpl. by rewrite lookup_app_r, Nat.sub_diag by lia. Qed.

Lemma alloc_level_nodes s key value height order i l :
  rep s order -> l ⊆ order -> level_nodes (alloc_state s key value height) i l = level_nodes s i l.
Proof.
  intros Hr Hl. apply level_nodes_ext. intros p Hp. unfold height_of. rewrite alloc_lookup; [done|]. apply (rep_bound_elem _ _ _ Hr). by apply Hl.
Qed.

Lemma alloc_rep s key value height order :
  rep s order -> (height < MAX_HEIGHT)%nat -> rep (alloc_state s key value height) order.
Proof.
  intros Hr Hh. set (s0 := alloc_state s key value height).
  assert (Hlook : forall p, p ∈ sl_head :: order -> sl_arena s0 !! p = sl_arena s !! p).
  { intros p Hp. apply alloc_lookup, (rep_bound _ _ Hr p Hp). }
  split.
  - apply Hr.
  - intros p Hp. simpl. rewrite length_app. pose proof (rep_bound _ _ Hr p Hp). lia.
  - intros i Hi. rewrite (alloc_level_nodes s key value height order) by (done || set_solver).
    eapply chain_frame; [|by apply (rep_chain _ _ Hr)]. intros q Hq. unfold slot. rewrite Hlook; [done|].
    apply elem_of_cons in Hq as [->|Hq]; [set_solver|]. apply level_nodes_sub in Hq. set_solver.
  - intros p Hp. unfold height_of. rewrite Hlook by set_solver. pose proof (rep_height _ _ Hr p Hp).
    unfold height_of in *. simpl. destruct (Nat.ltb_spec (sl_height s) height); lia.
  - pose proof (rep_max _ _ Hr). simpl. destruct (Nat.ltb_spec (sl_height s) height); lia.
  - assert (Hkey : forall p, p ∈ order -> key_of s0 p = key_of s p).
    { intros p Hp. unfold key_of. by rewrite Hlook by set_solver. }
    pose proof (rep_sorted _ _ Hr) as Hs. clear -Hs Hkey.
    induction Hs as [|a l Hs IH Ha]; constructor.
    + apply IH. intros p Hp. apply Hkey. set_solver.
    + rewrite Forall_forall in Ha |- *. intros b Hb. unfold key_lt. rewrite !Hkey by set_solver.
      by apply Ha.
Qed.

Lemma alloc_fresh s key value height pre rest :
  rep s (pre ++ rest) -> (height < MAX_HEIGHT)%nat ->
  fresh_node (alloc_state s key value height) pre (length (sl_arena s)) rest.
Proof.
  intros Hr Hh. split.
  - apply Hr.
  - intros H. pose proof (rep_bound _ _ Hr _ H). lia.
  - intros p Hp. simpl. rewrite length_app. simpl. apply elem_of_cons in Hp as [->|Hp]; [lia|].
    pose proof (rep_bound _ _ Hr _ Hp). lia.
  - unfold height_of. by rewrite alloc_lookup_new.
Qed.

Lemma alloc_linking s key value height pre rest :
  rep s (pre ++ rest) -> (height < MAX_HEIGHT)%nat ->
  linking (alloc_state s key value height) pre (length (sl_arena s)) rest 0
    (alloc_state s key value height).
Proof.
  intros Hr Hh. split.
  - apply same_data_refl.
  - lia.
  - intros j _ Hj. by apply rep_chain; [apply alloc_rep|].
  - intros j. unfold height_of, slot. rewrite alloc_lookup_new. simpl. intros Hj.
    rewrite lookup_replicate_2 by lia. done.
Qed.

Lemma high_level_empty s order i :
  rep s order -> (sl_height s < i)%nat -> level_nodes s i order = [].
Proof.
  intros Hr Hi. apply elem_of_nil_inv. intros p Hp. apply level_nodes_elem in Hp as [Hh Hp].
  pose proof (rep_height _ _ Hr p Hp). lia.
Qed.

(** The arrays after the search are ready for every level. *)
Lemma splices_ready s key value height pre rest prev next :
  rep s (pre ++ rest) -> (height < MAX_HEIGHT)%nat ->
  (forall i, (i < S (sl_height s))%nat -> spliced s pre rest prev next i) ->
  (forall i, (S (sl_height s) <= i)%nat ->
     prev !! i = <[S (sl_height s) := Some sl_head]> (replicate (MAX_HEIGHT + 1) None) !! i /\
     next !! i = replicate (MAX_HEIGHT + 1) (None : option ptr) !! i) ->
  forall j, (j <= height)%nat -> ready (alloc_state s key value height) pre rest prev next j.
Proof.
  intros Hr Hh Hlow Hhigh j Hj. set (s0 := alloc_state s key value height).
  assert (Hpre : forall i, level_nodes s0 i pre = level_nodes s i pre)
    by (intros i; apply (alloc_level_nodes s key value height (pre ++ rest)); [done|set_solver]).
  assert (Hrest : forall i, level_nodes s0 i rest = level_nodes s i rest)
    by (intros i; apply (alloc_level_nodes s key value height (pre ++ rest)); [done|set_solver]).
  destruct (decide (j < S (sl_height s))%nat) as [Hlt|Hge].
  { left. unfold spliced, pred_at, succ_at. rewrite Hpre, Hrest. by apply Hlow. }
  pose proof (high_level_empty s (pre ++ rest) j Hr ltac:(lia)) as He.
  destruct (Hhigh j ltac:(lia)) as [Hp Hn].
  rewrite lookup_replicate_2 in Hn by lia. destruct (decide (j = S (sl_height s))) as [->|Hne].
  - left. rewrite level_nodes_app in He. apply app_eq_nil in He as [He1 He2].
    unfold spliced, pred_at, succ_at. rewrite Hpre, Hrest, He1, He2, Hp, Hn.
    split; [|done]. rewrite list_lookup_insert_eq; [done|]. rewrite length_replicate. lia.
  - right. rewrite Hp, Hn, level_nodes_app, Hpre, Hrest, <- level_nodes_app, He.
    rewrite list_lookup_insert_ne, lookup_replicate_2 by lia. repeat split; [done|lia].
Qed.

(** What an insertion does to the sorted entries. *)
Fixpoint kv_insert (k v : bytes) (kvs : list (bytes * bytes)) : list (bytes * bytes) :=
  match kvs with
  | [] => [(k, v)]
  | kv :: kvs' =>
      match compare_key k kv.1 with
      | Lt => (k, v) :: kvs
      | Eq => kvs
      | Gt => kv :: kv_insert k v kvs'
      end
  end.
(** The entries from a key on. *)
Fixpoint kv_from (k : bytes) (kvs : list (bytes * bytes)) : list (bytes * bytes) :=
  match kvs with
  | [] => []
  | kv :: kvs' => match compare_key kv.1 k with Lt => kv_from k kvs' | _ => kvs end
  end.

Lemma kv_insert_app s k v pre kvs :
  Forall (below s k) pre -> kv_insert k v ((entry_of s <$> pre) ++ kvs) = (entry_of s <$> pre) ++ kv_insert k v kvs.
Proof.
  induction 1 as [|a pre Ha _ IH]; [done|]. rewrite fmap_cons. cbn [app kv_insert entry_of fst].
  by rewrite (compare_below s k a Ha), IH.
Qed.

Lemma kv_insert_head s k v rest :
  Forall (not_below s k) rest ->
  kv_insert k v (entry_of s <$> rest) =
    match rest with
    | q :: _ => if bool_decide (key_of s q = k) then entry_of s <$> rest
                else (k, v) :: (entry_of s <$> rest)
    | [] => [(k, v)]
    end.
Proof.
  intros H. destruct rest as [|q rest]; [done|]. simpl. apply Forall_cons in H as [H _].
  destruct (compare_not_below _ _ _ H) as [[-> ?]|[-> ?]].
  - by rewrite bool_decide_eq_true_2.
  - by rewrite bool_decide_eq_false_2.
Qed.

Lemma kv_from_app s k pre rest :
  Forall (below s k) pre -> Forall (not_below s k) rest ->
  kv_from k ((entry_of s <$> pre) ++ (entry_of s <$> rest)) = entry_of s <$> rest.
Proof.
  intros H1 H2. induction H1 as [|a pre Ha _ IH];
    [|rewrite fmap_cons; cbn [app kv_from entry_of fst]; by rewrite Ha].
  destruct H2 as [|q rest Hq _]; [done|]. simpl. unfold not_below in Hq. by destruct (compare_key _ _).
Qed.

Lemma put_new {E} s key value h pre rest :
  rep s (pre ++ rest) -> (h < MAX_HEIGHT)%nat -> len key < 2 ^ 16 -> len value < 2 ^ 32 ->
  Forall (below s key) pre -> Forall (not_below s key) rest -> Forall (fun q => key_of s q <> key) rest ->
  exists s' x, @put KC E s key value h = Ok (s', true) /\ rep s' (pre ++ x :: rest) /\
    entry_of s' <$> pre ++ x :: rest = (entry_of s <$> pre) ++ (key, value) :: (entry_of s <$> rest).
Proof.
  intros Hr Hh Hk Hv H1 H2 H3. set (x := length (sl_arena s)). set (s0 := alloc_state s key value h).
  pose proof (rep_max _ _ Hr) as Hm.
  destruct (put_splices_absent (E:=E) s key pre rest (S (sl_height s))
    (<[S (sl_height s) := Some sl_head]> (replicate (MAX_HEIGHT + 1) None)) (replicate (MAX_HEIGHT + 1) None))
    as (prev & next & Hsp & Hlow & Hhigh); auto.
  { by rewrite length_insert, length_replicate. }
  { unfold pred_at. pose proof (high_level_empty s (pre ++ rest) (S (sl_height s)) Hr ltac:(lia)) as He.
    rewrite level_nodes_app in He. apply app_eq_nil in He as [-> _].
    apply list_lookup_insert_eq. rewrite length_replicate. lia. }
  pose proof (alloc_rep s key value h _ Hr Hh) as Hr0.
  pose proof (alloc_fresh s key value h pre rest Hr Hh) as Hf.
  assert (Hhx : height_of s0 x = h) by (unfold height_of, s0, x; by rewrite alloc_lookup_new).
  assert (Hkx : key_of s0 x = key) by (unfold key_of, s0, x; by rewrite alloc_lookup_new).
  assert (Hvx : value_of s0 x = value) by (unfold value_of, s0, x; by rewrite alloc_lookup_new).
  assert (Hold : forall p, p ∈ pre ++ rest -> sl_arena s0 !! p = sl_arena s !! p).
  { intros p Hp. apply alloc_lookup. by apply (rep_bound_elem _ _ _ Hr). }
  assert (Hkey : forall p, p ∈ pre ++ rest -> key_of s0 p = key_of s p).
  { intros p Hp. unfold key_of. by rewrite Hold. }
  destruct (put_levels_spec (E:=E) s0 pre x rest (S h) 0 s0 prev next) as (s' & Hp & Hl); auto.
  { by apply alloc_linking. } { by rewrite Hhx. }
  { intros j Hj. rewrite Hhx in Hj. apply splices_ready; auto. lia. }
  assert (Hrep : rep s' (pre ++ x :: rest)).
  { apply (linked_rep s0); auto; [rewrite Hhx; simpl; destruct (Nat.ltb_spec (sl_height s) h); lia| |];
      unfold key_lt; rewrite Hkx; apply Forall_forall; intros q Hq; rewrite Hkey by set_solver.
    - rewrite Forall_forall in H1. by apply H1.
    - rewrite Forall_forall in H2, H3. destruct (compare_not_below s key q) as [[_ ?]|[? _]]; auto.
      exfalso. by apply (H3 q). }
  exists s', x. split; [|split; [done|]].
  - unfold put. rewrite Hsp. cbn [rbind]. unfold node_alloc.
    rewrite !Z_ltb_true by lia. cbn [rassert rbind]. fold x. unfold s0, alloc_state in Hp.
    rewrite Hp. done.
  - pose proof (linking_data _ _ _ _ _ _ Hl) as Hd.
    assert (He : forall p, p ∈ pre ++ rest -> entry_of s' p = entry_of s p).
    { intros p Hp'. unfold entry_of. rewrite (same_keys _ _ Hd), (same_values _ _ Hd).
      unfold key_of, value_of. by rewrite Hold. }
    rewrite fmap_app, fmap_cons. f_equal; [|f_equal].
    + apply list_fmap_ext. intros i p Hi. apply He. apply list_elem_of_lookup_2 in Hi. set_solver.
    + unfold entry_of. by rewrite (same_keys _ _ Hd), (same_values _ _ Hd), Hkx, Hvx.
    + apply list_fmap_ext. intros i p Hi. apply He. apply list_elem_of_lookup_2 in Hi. set_solver.
Qed.

(** ** The other operations *)
Lemma find_last_loop_spec {E} s : forall fuel a c level,
  rep s (a ++ c) -> (level < MAX_HEIGHT)%nat ->
  a = [] \/ (level <= height_of s (List.last a sl_head))%nat -> (length c + level < fuel)%nat ->
  @find_last_loop E fuel s (List.last a sl_head) level = Ok (last (a ++ c)).
Proof.
  induction fuel as [|fuel IH]; intros a c level Hr Hl Ha Hf; [lia|].
  pose proof (rep_chain_at _ _ _ _ Hr Hl Ha) as Hc.
  cbn [find_last_loop]. rewrite (next_ptr_slot _ _ _ _ (chain_slot _ _ _ _ Hc)). cbn [rbind].
  rewrite (at_base_spec _ _ _ Hr). destruct (level_nodes s level c) as [|q t] eqn:Hlc; cbn [head].
  - destruct (Nat.eqb_spec level 0) as [->|Hp].
    + rewrite level_nodes_0 in Hlc. subst c. by rewrite app_nil_r.
    + apply IH; auto; [lia|destruct Ha; [by left|right; lia]|lia].
  - destruct (level_nodes_cons_inv _ _ _ _ _ Hlc) as (c1 & c2 & -> & _ & _ & Hh).
    replace q with (List.last (a ++ c1 ++ [q]) sl_head) at 1 by (rewrite app_assoc; apply last_snoc_default).
    replace (a ++ c1 ++ q :: c2) with ((a ++ c1 ++ [q]) ++ c2) in Hr |- * by (by rewrite <- !app_assoc).
    apply IH; auto.
    + right. by rewrite app_assoc, last_snoc_default.
    + rewrite length_app in Hf. simpl in Hf. lia.
Qed.

Lemma find_last_spec {E} s order : rep s order -> @find_last E s = Ok (last order).
Proof.
  intros Hr. unfold find_last. pose proof (rep_length _ _ Hr).
  change sl_head with (List.last [] sl_head) at 1.
  rewrite (find_last_loop_spec s _ [] order); simpl; auto; [apply Hr|lia].
Qed.

Lemma len_loop_spec {E} s : forall l p count fuel,
  chain s 0 p l -> (length l < fuel)%nat -> @len_loop E fuel s p count = Ok (count + length l)%nat.
Proof.
  induction l as [|q l IH]; intros p count [|fuel] Hc Hf; try (simpl in Hf; lia);
    cbn [len_loop]; rewrite (next_ptr_slot _ _ _ _ (chain_slot _ _ _ _ Hc)); cbn [head rbind].
  - simpl. by rewrite Nat.add_0_r.
  - simpl in Hc, Hf |- *. rewrite IH by (apply Hc || lia). f_equal. lia.
Qed.

Lemma sl_len_spec {E} s order : rep s order -> @sl_len E s = Ok (length order).
Proof.
  intros Hr. unfold sl_len. rewrite (len_loop_spec s order); [done| |by apply rep_length].
  rewrite <- (level_nodes_0 s order). apply (rep_chain _ _ Hr). unfold MAX_HEIGHT. lia.
Qed.

(** The cursor is at the first of the remaining entries [l]. *)
Definition at_cursor (s : Skiplist) (c : cursor) (l : list (bytes * bytes)) : Prop :=
  exists pre rest, rep s (pre ++ rest) /\ c = head rest /\ l = entry_of s <$> rest.

Lemma at_cursor_cons {E} s c kv l :
  at_cursor s c (kv :: l) ->
  iter_valid c = true /\ @iter_key E s c = Ok kv.1 /\ @iter_value E s c = Ok kv.2 /\
  exists c', @iter_next E s c = Ok c' /\ at_cursor s c' l.
Proof.
  intros (pre & [|q rest] & Hr & -> & Hl); [done|]. injection Hl as -> ->.
  destruct (deref_bound (E:=E) s q) as (n & Hn & _ & Hk & Hv).
  { apply (rep_bound_elem _ _ _ Hr). set_solver. }
  unfold iter_valid, iter_key, iter_value, iter_next. cbn [head unwrap rbind].
  rewrite Hn. cbn [rbind]. rewrite Hk, Hv. split; [done|]. split; [done|]. split; [done|].
  replace (pre ++ q :: rest) with ((pre ++ [q]) ++ rest) in Hr by (by rewrite <- app_assoc).
  pose proof (rep_chain_at _ _ _ 0 Hr ltac:(unfold MAX_HEIGHT; lia) ltac:(right; lia)) as Hc.
  rewrite last_snoc_default, level_nodes_0 in Hc. exists (head rest). split.
  - by apply next_ptr_slot, chain_slot.
  - by exists (pre ++ [q]), rest.
Qed.

Lemma at_cursor_nil s c : at_cursor s c [] -> iter_valid c = false.
Proof. intros (pre & [|q rest] & _ & -> & Hl); [done|]. discriminate Hl. Qed.

Lemma holds_sorted s kvs :
  holds s kvs -> StronglySorted (fun a b => compare_key a.1 b.1 = Lt) kvs.
Proof.
  intros (order & Hr & ->). pose proof (rep_sorted _ _ Hr) as Hs. clear Hr.
  induction Hs as [|a l Hs IH Ha]; [constructor|]. rewrite fmap_cons. constructor; [done|].
  apply Forall_fmap. eapply Forall_impl; [exact Ha|]. done.
Qed.

Lemma holds_put {E} s kvs key value h :
  holds s kvs -> (h < MAX_HEIGHT)%nat -> len key < 2 ^ 16 -> len value < 2 ^ 32 ->
  exists s', @put KC E s key value h = Ok (s', bool_decide (key ∉ kvs.*1)) /\
    holds s' (kv_insert key value kvs).
Proof.
  intros (order & Hr & ->) Hh Hk Hv.
  destruct (split_at_key s key order (rep_sorted _ _ Hr)) as (pre & rest & -> & H1 & H2).
  rewrite fmap_app, (kv_insert_app s), kv_insert_head by done.
  destruct (decide (Forall (fun q => key_of s q <> key) rest)) as [H3|H3].
  - destruct (put_new (E:=E) s key value h pre rest) as (s' & x & Hp & Hr' & He); auto.
    exists s'. rewrite Hp, bool_decide_eq_true_2.
    + split; [done|]. exists (pre ++ x :: rest). split; [done|]. rewrite He. f_equal.
      destruct H3 as [|q rest Hq _]; [done|]. by rewrite bool_decide_eq_false_2.
    + rewrite fmap_app, <- !list_fmap_compose. intros Hin. apply elem_of_app in Hin as [Hin|Hin];
        apply list_elem_of_fmap in Hin as (q & -> & Hq); simpl in *.
      * rewrite Forall_forall in H1. by apply (cmp_lt_irrefl compare_key (key_of s q)), H1.
      * rewrite Forall_forall in H3. by apply (H3 q).
  - apply not_Forall_Exists in H3; [|apply _]. apply Exists_exists in H3 as (q & Hq & Hkq).
    apply dec_stable in Hkq. pose proof (equal_is_head _ _ _ _ _ Hr H2 Hq Hkq) as Hhd.
    destruct rest as [|q' rest]; [done|]. injection Hhd as ->. exists s.
    rewrite (bool_decide_eq_true_2 (key_of s q = key)) by done. rewrite bool_decide_eq_false_2.
    + split; [|exists (pre ++ q :: rest); by rewrite fmap_app]. unfold put.
      rewrite (put_splices_found s key pre q rest); auto; [apply Hr|by rewrite length_insert, length_replicate|].
      pose proof (rep_max _ _ Hr). rewrite list_lookup_insert_eq by (rewrite length_replicate; lia).
      pose proof (high_level_empty s _ (S (sl_height s)) Hr ltac:(lia)) as He.
      rewrite level_nodes_app in He. apply app_eq_nil in He as [He _]. unfold pred_at. by rewrite He.
    + intros Hn. apply Hn. rewrite fmap_app, <- !list_fmap_compose. apply elem_of_app. right.
      apply list_elem_of_fmap. by exists q.
Qed.

Lemma holds_seek {E} s kvs k :
  holds s kvs -> exists c, @iter_seek KC E s k = Ok c /\ at_cursor s c (kv_from k kvs).
Proof.
  intros (order & Hr & ->).
  destruct (split_at_key s k order (rep_sorted _ _ Hr)) as (pre & rest & -> & H1 & H2).
  exists (head rest). split.
  - unfold iter_seek. rewrite (find_near_spec s k false true pre rest) by done. f_equal.
    destruct rest; simpl; [done|]. by destruct (bool_decide _).
  - exists pre, rest. split; [done|]. split; [done|]. rewrite fmap_app. by apply kv_from_app.
Qed.

Lemma holds_seek_to_first {E} s kvs :
  holds s kvs -> exists c, @iter_seek_to_first E s = Ok c /\ at_cursor s c kvs.
Proof.
  intros (order & Hr & ->). exists (head order). split; [|by exists [], order].
  unfold iter_seek_to_first. apply next_ptr_slot.
  pose proof (rep_chain _ _ Hr 0%nat ltac:(unfold MAX_HEIGHT; lia)) as Hc.
  rewrite level_nodes_0 in Hc. by apply chain_slot in Hc.
Qed.

Lemma holds_seek_to_last {E} s kvs :
  holds s kvs ->
  exists c, @iter_seek_to_last E s = Ok c /\ at_cursor s c (option_list (last kvs)).
Proof.
  intros (order & Hr & ->). exists (last order). unfold iter_seek_to_last.
  rewrite (find_last_spec s order Hr). split; [done|].
  destruct (snoc_cases order) as [->|(l & z & ->)]; [by exists [], []|].
  rewrite last_snoc. exists l, [z]. split; [done|]. split; [done|].
  rewrite fmap_app. cbn [fmap list_fmap]. by rewrite last_snoc.
Qed.

Lemma holds_len {E} s kvs : holds s kvs -> @sl_len E s = Ok (length kvs).
Proof. intros (order & Hr & ->). rewrite (sl_len_spec s order Hr). by rewrite length_fmap. Qed.

(** The value stored under a key. *)
Definition kv_get (k : bytes) (kvs : list (bytes * bytes)) : option bytes :=
  match kv_from k kvs with
  | kv :: _ => if bool_decide (kv.1 = k) then Some kv.2 else None
  | [] => None
  end.

Lemma holds_get {E} s kvs k : holds s kvs -> @get KC E s k = Ok (kv_get k kvs).
Proof.
  intros Hh. destruct (holds_seek (E:=E) s kvs k Hh) as (c & Hc & Hat).
  unfold get, get_with_key, kv_get. unfold iter_seek in Hc. rewrite Hc. cbn [rbind].
  destruct (kv_from k kvs) as [|kv l].
  - apply at_cursor_nil in Hat. by destruct c.
  - destruct (at_cursor_cons (E:=E) s c kv l Hat) as (Hval & Hk & Hv & _).
    destruct c as [p|]; [|done]. unfold iter_key, iter_value in Hk, Hv. cbn [unwrap rbind] in Hk, Hv.
    destruct (deref s p) as [n| |]; cbn [rbind] in *; [|done|done]. injection Hk as ->. injection Hv as ->.
    destruct (same_key kv.1 k) eqn:Hs.
    + apply lawful_same in Hs. by rewrite bool_decide_eq_true_2.
    + rewrite bool_decide_eq_false_2; [done|]. intros Heq. apply lawful_same in Heq. congruence.
Qed.

Lemma with_arena_holds {E} : exists s, @with_arena E = Ok s /\ holds s [].
Proof.
  eexists. split; [reflexivity|]. exists []. split; [|done]. split.
  - apply NoDup_singleton.
  - intros p Hp. apply list_elem_of_singleton in Hp as ->. simpl. unfold sl_head. lia.
  - intros i Hi. unfold slot, level_nodes. simpl. unfold slot. cbn.
    change (replicate 20 (None : option ptr) !! i = Some None).
    by rewrite lookup_replicate_2.
  - intros p Hp. by apply elem_of_nil in Hp.
  - simpl. unfold MAX_HEIGHT. lia.
  - constructor.
Qed.
End representation.

(** ** The interface the memtable uses *)

(** The operations of an ordered index with a cursor over its entries. *)
Class IndexOps (I C : Type) := {
  ix_new : forall {E}, res E I;
  ix_put : forall {E}, I -> bytes -> bytes -> nat -> res E (I * bool);
  ix_len : forall {E}, I -> res E nat;
  ix_seek : forall {E}, I -> bytes -> res E C;
  ix_seek_to_first : forall {E}, I -> res E C;
  ix_seek_to_last : forall {E}, I -> res E C;
  ix_valid : C -> bool;
  ix_key : forall {E}, I -> C -> res E bytes;
  ix_value : forall {E}, I -> C -> res E bytes;
  ix_next : forall {E}, I -> C -> res E C
}.

(** What it promises: it holds a list of entries sorted by the bytes of their
    keys, an insertion adds an absent key, and a cursor walks the entries. *)
Class OrderedIndex (I C : Type) {ops : IndexOps I C} := {
  ix_holds : I -> list (bytes * bytes) -> Prop;
  ix_at : I -> C -> list (bytes * bytes) -> Prop;
  ix_new_holds : forall E, exists s, @ix_new I C ops E = Ok s /\ ix_holds s [];
  ix_sorted : forall s kvs, ix_holds s kvs -> StronglySorted (fun a b => bytes_cmp a.1 b.1 = Lt) kvs;
  ix_put_holds : forall E s kvs key value h,
    ix_holds s kvs -> (h < MAX_HEIGHT)%nat -> len key < 2 ^ 16 -> len value < 2 ^ 32 ->
    exists s', @ix_put I C ops E s key value h = Ok (s', bool_decide (key ∉ kvs.*1)) /\
      ix_holds s' (kv_insert (KC:=BytewiseComparator) key value kvs);
  ix_len_spec : forall E s kvs, ix_holds s kvs -> @ix_len I C ops E s = Ok (length kvs);
  ix_seek_at : forall E s kvs k, ix_holds s kvs ->
    exists c, @ix_seek I C ops E s k = Ok c /\ ix_at s c (kv_from (KC:=BytewiseComparator) k kvs);
  ix_first_at : forall E s kvs, ix_holds s kvs ->
    exists c, @ix_seek_to_first I C ops E s = Ok c /\ ix_at s c kvs;
  ix_last_at : forall E s kvs, ix_holds s kvs ->
    exists c, @ix_seek_to_last I C ops E s = Ok c /\ ix_at s c (option_list (last kvs));
  ix_at_nil : forall s c, ix_at s c [] -> ix_valid c = false;
  ix_at_cons : forall E s c kv l, ix_at s c (kv :: l) ->
    ix_valid c = true /\ @ix_key I C ops E s c = Ok kv.1 /\ @ix_value I C ops E s c = Ok kv.2 /\
    exists c', @ix_next I C ops E s c = Ok c' /\ ix_at s c' l
}.

#[export] Instance skiplist_ops : IndexOps Skiplist cursor := {|
  ix_new := @with_arena;
  ix_put := fun E => @put BytewiseComparator E;
  ix_len := @sl_len;
  ix_seek := fun E => @iter_seek BytewiseComparator E;
  ix_seek_to_first := @iter_seek_to_first;
  ix_seek_to_last := @iter_seek_to_last;
  ix_valid := iter_valid;
  ix_key := @iter_key;
  ix_value := @iter_value;
  ix_next := @iter_next
|}.

#[export] Instance skiplist_index : OrderedIndex Skiplist cursor.
Proof.
  refine {| ix_holds := holds (KC:=BytewiseComparator); ix_at := at_cursor (KC:=BytewiseComparator) |}; cbn.
  - intros E. apply with_arena_holds.
  - intros s kvs. apply (holds_sorted (KC:=BytewiseComparator)).
  - intros E s kvs key value h. apply (holds_put (KC:=BytewiseComparator)).
  - intros E s kvs. apply holds_len.
  - intros E s kvs k. apply (holds_seek (KC:=BytewiseComparator)).
  - intros E s kvs. apply holds_seek_to_first.
  - intros E s kvs. apply (holds_seek_to_last (KC:=BytewiseComparator)).
  - apply at_cursor_nil.
  - intros E s c kv l. apply at_cursor_cons.
Defined.

(** ** Properties *)

#[local] Existing Instance BytewiseComparator.

Lemma kv_get_cons k kv kvs :
  kv_get k (kv :: kvs) =
    match bytes_cmp kv.1 k with Lt => kv_get k kvs | Eq => Some kv.2 | Gt => None end.
Proof.
  unfold kv_get. cbn [kv_from compare_key BytewiseComparator]. destruct (bytes_cmp kv.1 k) eqn:Hc; [|done|].
  - apply cmp_eq in Hc. by rewrite bool_decide_eq_true_2.
  - rewrite bool_decide_eq_false_2; [done|]. intros Heq. rewrite Heq, (cmp_refl bytes_cmp) in Hc. done.
Qed.

Lemma kv_get_insert k k' v kvs :
  kv_get k (kv_insert k' v kvs) =
    if bool_decide (k' = k) then Some (default v (kv_get k kvs)) else kv_get k kvs.
Proof.
  induction kvs as [|kv kvs IH].
  - cbn [kv_insert]. rewrite kv_get_cons. cbn [fst snd]. case_bool_decide as H.
    + by rewrite H, (cmp_refl bytes_cmp).
    + destruct (bytes_cmp k' k) eqn:Hc; [|done|done]. by apply cmp_eq in Hc.
  - cbn [kv_insert compare_key BytewiseComparator]. destruct (bytes_cmp k' kv.1) eqn:Hc.
    + apply cmp_eq in Hc as ->. case_bool_decide as H; [|done]. subst k.
      by rewrite kv_get_cons, (cmp_refl bytes_cmp).
    + rewrite kv_get_cons. cbn [fst snd]. case_bool_decide as H.
      * subst k. rewrite (cmp_refl bytes_cmp), kv_get_cons.
        apply (cmp_gt_lt bytes_cmp) in Hc. by rewrite Hc.
      * destruct (bytes_cmp k' k) eqn:Hk; [by apply cmp_eq in Hk|done|].
        rewrite kv_get_cons. apply (cmp_gt_lt bytes_cmp) in Hk.
        pose proof (cmp_lt_trans (cmp:=bytes_cmp) _ _ _ Hk Hc) as Hl.
        apply (cmp_gt_lt bytes_cmp) in Hl. by rewrite Hl.
    + rewrite !kv_get_cons. destruct (bytes_cmp kv.1 k) eqn:Hk; [|done|].
      * apply cmp_eq in Hk. subst k. case_bool_decide as H; [|done].
        rewrite H, (cmp_refl bytes_cmp) in Hc. done.
      * case_bool_decide as H; [|done]. subst k. apply (cmp_gt_lt bytes_cmp) in Hc. congruence.
Qed.

Lemma kv_from_length k kvs : (length (kv_from k kvs) <= length kvs)%nat.
Proof. induction kvs as [|kv kvs IH]; simpl; [lia|]. destruct (bytes_cmp kv.1 k); simpl; lia. Qed.

Lemma kv_from_elem k kvs kv :
  StronglySorted (fun a b => bytes_cmp a.1 b.1 = Lt) kvs ->
  kv ∈ kv_from k kvs <-> kv ∈ kvs /\ bytes_cmp kv.1 k <> Lt.
Proof.
  induction 1 as [|a kvs Hs IH Ha]; [set_solver|]. cbn [kv_from compare_key BytewiseComparator].
  assert (Hall : bytes_cmp a.1 k <> Lt -> forall b, b ∈ kvs -> bytes_cmp b.1 k <> Lt).
  { intros Hn b Hb Hlt. rewrite Forall_forall in Ha. apply Hn.
    exact (cmp_lt_trans (cmp:=bytes_cmp) _ _ _ (Ha b Hb) Hlt). }
  rewrite elem_of_cons. destruct (bytes_cmp a.1 k) eqn:Hc.
  2: { rewrite IH. split; [naive_solver|]. intros [[->|Hb] Hn]; [congruence|done]. }
  all: rewrite elem_of_cons; split; [|naive_solver]; intros [->|Hb]; [split; [by left|congruence]|].
  all: split; [by right|]; apply Hall; [congruence|done].
Qed.

(** The insertions of a sequence of [put] calls, each with its node height. *)
Definition put_op : Type := (bytes * bytes) * nat.
Definition puts {E} (s : Skiplist) (ops : list put_op) : res E Skiplist :=
  rfold (fun s op => let? (s, _) := put s op.1.1 op.1.2 op.2 in Ok s) ops s.
(** The entries a cursor goes over, as a client loop reads them. *)
Fixpoint walk {E} (fuel : nat) (s : Skiplist) (c : cursor) : res E (list (bytes * bytes)) :=
  match fuel with
  | O => Panic
  | S fuel =>
      if iter_valid c then
        let? k := iter_key s c in
        let? v := iter_value s c in
        let? c := iter_next s c in
        let? rest := walk fuel s c in
        Ok ((k, v) :: rest)
      else Ok []
  end.

Lemma walk_spec {E} s : forall l c fuel,
  at_cursor s c l -> (length l < fuel)%nat -> @walk E fuel s c = Ok l.
Proof.
  induction l as [|kv l IH]; intros c [|fuel] Hc Hf; try (simpl in Hf; lia); cbn [walk].
  - by rewrite (at_cursor_nil _ _ Hc).
  - destruct (at_cursor_cons (E:=E) s c kv l Hc) as (-> & -> & -> & c' & -> & Hc'). cbn [rbind].
    rewrite (IH c' fuel) by (auto || (simpl in Hf; lia)). by destruct kv.
Qed.

Definition put_ok (op : put_op) : Prop :=
  (op.2 < MAX_HEIGHT)%nat /\ len op.1.1 < 2 ^ 16 /\ len op.1.2 < 2 ^ 32.

Lemma puts_holds {E} ops : forall s kvs,
  holds s kvs -> Forall put_ok ops ->
  exists s', @puts E s ops = Ok s' /\
    holds s' (foldl (fun kvs op => kv_insert op.1.1 op.1.2 kvs) kvs ops).
Proof.
  induction ops as [|op ops IH]; intros s kvs Hs Ho; [by exists s|].
  apply Forall_cons in Ho as [(Hh & Hk & Hv) Ho].
  destruct (holds_put (E:=E) s kvs op.1.1 op.1.2 op.2) as (s' & Hp & Hs'); auto.
  unfold puts. cbn [rfold]. rewrite Hp. cbn [rbind]. by apply IH.
Qed.

(** The value of the first insertion of a key. *)
Fixpoint first_put (k : bytes) (ops : list put_op) : option bytes :=
  match ops with
  | [] => None
  | op :: ops => if bool_decide (op.1.1 = k) then Some op.1.2 else first_put k ops
  end.

Lemma kv_get_puts k ops : forall kvs,
  kv_get k (foldl (fun kvs op => kv_insert op.1.1 op.1.2 kvs) kvs ops) =
  match kv_get k kvs with Some v => Some v | None => first_put k ops end.
Proof.
  induction ops as [|op ops IH]; intros kvs; cbn [foldl first_put].
  - by destruct (kv_get k kvs).
  - rewrite IH, kv_get_insert. case_bool_decide; [|done]. by destruct (kv_get k kvs).
Qed.

(** C13. The skiplist refines a sorted map.  After any sequence of insertions
    with keys and values within the sizes a node can store, whatever the random
    heights: every call returns; a lookup gives the value of the first
    insertion of the key; the length is the number of distinct keys; and a
    cursor placed by [seek] walks, in increasing order, exactly the entries
    whose keys are not below the target. *)
Theorem skiplist_refines_sorted_map ops target :
  Forall put_ok ops ->
  exists s0 s kvs c,
    @with_arena unit = Ok s0 /\ @puts unit s0 ops = Ok s /\
    (forall k, @get _ unit s k = Ok (first_put k ops)) /\
    (forall k, kv_get k kvs = first_put k ops) /\
    StronglySorted (fun a b => bytes_cmp a.1 b.1 = Lt) kvs /\
    @sl_len unit s = Ok (length kvs) /\
    @iter_seek _ unit s target = Ok c /\
    @walk unit (S (length kvs)) s c = Ok (kv_from target kvs) /\
    (forall kv, kv ∈ kv_from target kvs <-> kv ∈ kvs /\ bytes_cmp kv.1 target <> Lt).
Proof.
  intros Ho. destruct (with_arena_holds (E:=unit)) as (s0 & H0 & Hh0).
  destruct (puts_holds (E:=unit) ops s0 [] Hh0 Ho) as (s & Hs & Hh).
  set (kvs := foldl _ _ _) in Hh. destruct (holds_seek (E:=unit) s kvs target Hh) as (c & Hc & Hat).
  assert (Hget : forall k, kv_get k kvs = first_put k ops) by (intros k; apply kv_get_puts).
  pose proof (holds_sorted s kvs Hh) as Hsort.
  exists s0, s, kvs, c. split; [done|]. split; [done|].
  split; [intros k; rewrite (holds_get s kvs k Hh); by rewrite Hget|].
  split; [done|]. split; [done|]. split; [by apply holds_len|]. split; [done|]. split.
  - apply walk_spec; [done|]. pose proof (kv_from_length target kvs). lia.
  - intros kv. by apply kv_from_elem.
Qed.

Lemma skiplist_refines_sorted_map_witness :
  exists s0 s, @with_arena unit = Ok s0 /\
    @puts unit s0 [(([2], [20]), 3%nat); (([1], [10]), 0%nat); (([2], [21]), 1%nat)] = Ok s /\
    @get _ unit s [2] = Ok (Some [20]).
Proof.
  destruct (skiplist_refines_sorted_map [(([2], [20]), 3%nat); (([1], [10]), 0%nat); (([2], [21]), 1%nat)] [2])
    as (s0 & s & kvs & c & H0 & Hs & Hget & _).
  - repeat constructor; vm_compute; (lia || reflexivity).
  - exists s0, s. split; [exact H0|]. split; [exact Hs|]. rewrite (Hget [2]). reflexivity.
Defined.
