(* ===== verification/Projection.v ===== *)
(** * Projected schemas

    Models [RecordSchema], [RecordSchemaWithKey] and their construction from a
    [Schema] ([common_types/src/schema.rs]), and [ProjectedSchema] with its
    [RowProjector] ([common_types/src/projected_schema.rs]): which columns a
    reader gets, where they come from in the rows of another version of the
    table's schema, and when reading is refused.  The arrow schemas that the
    source keeps beside the column schemas carry no further information and
    are left out; [debug_assert]s are not part of a release build. *)

From Stdlib Require Import ZArith Lia Sorted.
From stdpp Require Import base tactics option list numbers strings gmap sets.
From S2P Require Import Prelude Bytes Datum Schema.

#[local] Open Scope Z_scope.

(** [RecordSchema] and [RecordSchemaWithKey]. *)
Record RecordSchema := MkRecordSchema { rs_column_schemas : ColumnSchemas }.
Record RecordSchemaWithKey := MkRecordSchemaWithKey {
  rk_record_schema : RecordSchema;
  rk_primary_key_indexes : list nat
}.

#[export] Instance column_schemas_eq_dec : EqDecision ColumnSchemas.
Proof. solve_decision. Defined.
#[export] Instance record_schema_eq_dec : EqDecision RecordSchema.
Proof. solve_decision. Defined.
#[export] Instance record_schema_with_key_eq_dec : EqDecision RecordSchemaWithKey.
Proof. solve_decision. Defined.

Definition rs_columns (rs : RecordSchema) : list column := cs_columns (rs_column_schemas rs).
Definition rs_index_of (rs : RecordSchema) (name : string) : option nat :=
  name_to_index (rs_column_schemas rs) !! name.
Definition rk_columns (rk : RecordSchemaWithKey) : list column := rs_columns (rk_record_schema rk).
Definition rk_num_columns (rk : RecordSchemaWithKey) : nat := length (rk_columns rk).
Definition rk_index_of (rk : RecordSchemaWithKey) (name : string) : option nat :=
  rs_index_of (rk_record_schema rk) name.
Definition rk_compare_row (rk : RecordSchemaWithKey) (lhs rhs : row) : res unit comparison :=
  compare_row (rk_primary_key_indexes rk) lhs rhs.
Definition rk_is_primary_key_index (rk : RecordSchemaWithKey) (idx : nat) : bool :=
  bool_decide (idx ∈ rk_primary_key_indexes rk).
Definition rk_key_columns (rk : RecordSchemaWithKey) : list column :=
  (filter (fun ic => ic.1 ∈ rk_primary_key_indexes rk) (enumerate (rk_columns rk))).*2.

Definition to_record_schema (s : Schema) : RecordSchema := MkRecordSchema (column_schemas s).
Definition to_record_schema_with_key (s : Schema) : RecordSchemaWithKey :=
  MkRecordSchemaWithKey (to_record_schema s) (primary_key_indexes s).

(** One round of the loop of [project_record_schema_with_key]. *)
Definition with_key_step (s : Schema) (projection : list nat)
    (st : list nat * list column) (ic : nat * column) : list nat * list column :=
  let '(keys, cols) := st in
  let '(idx, col) := ic in
  if is_primary_key_index s idx then (keys ++ [length cols], cols ++ [col])
  else if bool_decide (idx ∈ projection) then (keys, cols ++ [col])
  else (keys, cols).
Definition project_record_schema_with_key (s : Schema) (projection : list nat)
  : RecordSchemaWithKey :=
  let '(keys, cols) := foldl (with_key_step s projection) ([], []) (enumerate (columns s)) in
  MkRecordSchemaWithKey (MkRecordSchema (column_schemas_new cols)) keys.

Definition project_record_schema {E} (s : Schema) (projection : list nat) : res E RecordSchema :=
  let? cols := rfold (fun cols p => let? c := unwrap (columns s !! p) in Ok (cols ++ [c]))
                 projection [] in
  Ok (MkRecordSchema (column_schemas_new cols)).

Inductive ProjectionError :=
| InvalidProjectionIndex (index : nat)
| IncompatReadColumn (e : ColumnSchema.CompatError)
| MissingReadColumn (name : string).

(** [ProjectedSchemaInner]. *)
Record ProjectedSchema := MkProjectedSchema {
  original_schema : Schema;
  projection : option (list nat);
  schema_with_key : RecordSchemaWithKey;
  record_schema : RecordSchema
}.

Definition no_projection (s : Schema) : ProjectedSchema :=
  MkProjectedSchema s None (to_record_schema_with_key s) (to_record_schema s).

(** [p.iter().max()]. *)
Fixpoint max_index (p : list nat) : option nat :=
  match p with
  | [] => None
  | i :: p => Some (match max_index p with Some m => Nat.max i m | None => i end)
  end.

Definition projected_schema_new (s : Schema) (p : option (list nat))
  : res ProjectionError ProjectedSchema :=
  match p with
  | Some proj =>
      let? _ := match max_index proj with
                | Some max_idx => ensure (max_idx <? num_columns s)%nat (InvalidProjectionIndex max_idx)
                | None => Ok tt
                end in
      let wk := project_record_schema_with_key s proj in
      let? rs := project_record_schema s proj in
      Ok (MkProjectedSchema s p wk rs)
  | None => Ok (no_projection s)
  end.

Definition is_all_projection (ps : ProjectedSchema) : bool :=
  match projection ps with None => true | Some _ => false end.

(** [try_project_column]. *)
Definition try_project_column (ps : ProjectedSchema) (source_schema : Schema)
    (source_projection : list (option nat)) (c : column)
  : res ProjectionError (list (option nat)) :=
  match index_of source_schema (ColumnSchema.name c) with
  | Some source_idx =>
      if schema_version (original_schema ps) =? schema_version source_schema then
        Ok (source_projection ++ [Some source_idx])
      else
        let? source_column := unwrap (columns source_schema !! source_idx) in
        let? op := rcontext IncompatReadColumn (ColumnSchema.compatible_for_read c source_column) in
        match op with
        | ColumnSchema.Exact => Ok (source_projection ++ [Some source_idx])
        | ColumnSchema.FillNull => Ok (source_projection ++ [None])
        end
  | None =>
      let? _ := ensure (ColumnSchema.is_nullable c) (MissingReadColumn (ColumnSchema.name c)) in
      Ok (source_projection ++ [None])
  end.

(** [RowProjector]. *)
Record RowProjector := MkRowProjector {
  rp_schema_with_key : RecordSchemaWithKey;
  rp_source_schema : Schema;
  source_projection : list (option nat)
}.

Definition try_project_with_key (ps : ProjectedSchema) (source_schema : Schema)
  : res ProjectionError RowProjector :=
  let? sp := rfold (try_project_column ps source_schema) (rk_columns (schema_with_key ps)) [] in
  Ok (MkRowProjector (schema_with_key ps) source_schema sp).

Definition existed_source_projection (rp : RowProjector) : list nat := omap id (source_projection rp).

Definition project_row {E} (rp : RowProjector) (r : row) (datums_buffer : row) : res E row :=
  let? _ := rassert (num_columns (rp_source_schema rp) =? length r)%nat in
  rfold (fun buf p =>
           match p with
           | Some index_in_source => let? d := unwrap (r !! index_in_source) in Ok (buf ++ [d])
           | None => Ok (buf ++ [Datum.Null])
           end) (source_projection rp) datums_buffer.

(** ** The projected columns *)

(** The columns of [s] a projection keeps: the key columns, and those it names. *)
Definition kept (s : Schema) (p : list nat) (i : nat) : Prop :=
  i ∈ primary_key_indexes s \/ i ∈ p.
#[global] Instance kept_dec s p i : Decision (kept s p i).
Proof. unfold kept. apply _. Defined.

Lemma enumerate_snoc {A} (l : list A) a : enumerate (l ++ [a]) = enumerate l ++ [(length l, a)].
Proof.
  unfold enumerate. rewrite length_app. simpl. rewrite Nat.add_1_r, seq_S, Nat.add_0_l.
  rewrite zip_with_app by (by rewrite length_seq). done.
Qed.

Lemma filter_lt_S pk n :
  StronglySorted lt pk ->
  filter (fun i => (i < S n)%nat) pk =
  filter (fun i => (i < n)%nat) pk ++ (if decide (n ∈ pk) then [n] else []).
Proof.
  induction 1 as [|a pk Hs IH Ha]; [by rewrite decide_False by set_solver|].
  rewrite Forall_forall in Ha. rewrite !filter_cons. destruct (decide (a < n)%nat) as [Hlt|Hge].
  - rewrite (decide_True (P:=(a < S n)%nat)) by lia. rewrite IH. cbn [app]. f_equal. f_equal.
    destruct (decide (n ∈ pk)); [rewrite decide_True by set_solver; done|].
    rewrite decide_False; [done|]. intros [->|]%elem_of_cons; [lia|done].
  - assert (Hnil : filter (fun i => (i < n)%nat) pk = [] /\ filter (fun i => (i < S n)%nat) pk = []).
    { split; apply elem_of_nil_inv; intros i [Hi Hin]%list_elem_of_filter; specialize (Ha i Hin); lia. }
    destruct Hnil as [Hn HS]. rewrite Hn, HS. destruct (decide (a = n)) as [->|Hne].
    + rewrite !decide_True; [done|set_solver|lia].
    + rewrite !decide_False; [done| |lia]. intros [->|Hin]%elem_of_cons; [done|].
      specialize (Ha n Hin). lia.
Qed.


(** The columns kept of the first [n], and the positions of the key columns
    among them. *)
Lemma with_key_prefix s p n :
  schema_wf s -> (n <= num_columns s)%nat ->
  let st := foldl (with_key_step s p) ([], []) (enumerate (take n (columns s))) in
  st.2 = (filter (fun ic => kept s p ic.1) (enumerate (take n (columns s)))).*2 /\
  Forall2 (fun j i => exists c, st.2 !! j = Some c /\ columns s !! i = Some c)
    st.1 (filter (fun i => (i < n)%nat) (primary_key_indexes s)).
Proof.
  intros Hwf Hn. induction n as [|n IH]; intros st.
  { subst st. cbn. split; [done|].
    replace (filter _ (primary_key_indexes s)) with (@nil nat); [constructor|].
    symmetry. apply elem_of_nil_inv. intros i [Hi _]%list_elem_of_filter. lia. }
  destruct (lookup_lt_is_Some_2 (columns s) n) as [c Hc]; [unfold num_columns in Hn; lia|].
  assert (Hlen : length (take n (columns s)) = n)
    by (apply length_take_le; unfold num_columns in Hn; lia).
  destruct (IH ltac:(lia)) as [Hcols Hkeys]. clear IH. subst st.
  rewrite (take_S_r _ _ _ Hc), enumerate_snoc, Hlen, foldl_snoc, filter_app, fmap_app.
  rewrite filter_lt_S by apply (wf_keys_sorted _ Hwf).
  destruct (foldl _ _ _) as [keys cols]. cbn [fst snd] in *. unfold with_key_step, is_primary_key_index.
  rewrite filter_cons. cbn [fst]. rewrite filter_nil.
  assert (Hgrow : Forall2 (fun j i => exists c', (cols ++ [c]) !! j = Some c' /\ columns s !! i = Some c')
            keys (filter (fun i => (i < n)%nat) (primary_key_indexes s))).
  { eapply Forall2_impl; [exact Hkeys|]. intros j i (c' & Hj & Hi). exists c'. split; [|done].
    apply lookup_app_l_Some. done. }
  case_bool_decide as H1; [|case_bool_decide as H2]; cbn [fst snd].
  - rewrite (decide_True (P:=kept _ _ _)) by (by left). rewrite decide_True by done.
    split; [by rewrite Hcols|]. apply Forall2_app; [done|]. constructor; [|constructor].
    exists c. split; [|done]. by rewrite lookup_app_r, Nat.sub_diag by lia.
  - rewrite (decide_True (P:=kept _ _ _)) by (by right). rewrite decide_False by done.
    rewrite app_nil_r. split; [by rewrite Hcols|done].
  - rewrite (decide_False (P:=kept _ _ _)) by (intros [|]; done). rewrite decide_False by done.
    by rewrite !app_nil_r.
Qed.

Lemma with_key_spec s p :
  schema_wf s ->
  rk_columns (project_record_schema_with_key s p) =
    (filter (fun ic => kept s p ic.1) (enumerate (columns s))).*2 /\
  Forall2 (fun j i => exists c, rk_columns (project_record_schema_with_key s p) !! j = Some c /\
                                columns s !! i = Some c)
    (rk_primary_key_indexes (project_record_schema_with_key s p)) (primary_key_indexes s).
Proof.
  intros Hwf. pose proof (with_key_prefix s p (num_columns s) Hwf ltac:(lia)) as H.
  unfold num_columns in H. rewrite take_ge in H by lia.
  unfold project_record_schema_with_key, rk_columns, rs_columns, column_schemas_new.
  destruct (foldl _ _ _) as [keys cols]. cbn [fst snd] in H. destruct H as [Hc Hk].
  destruct (offsets_from 0 cols). cbn. split; [done|].
  replace (filter _ _) with (primary_key_indexes s) in Hk; [done|].
  symmetry. apply filter_all. intros i Hi.
  destruct (wf_keys _ Hwf i Hi) as (c & Hci & _). by apply lookup_lt_Some in Hci.
Qed.

(** ** Creating a projected schema *)
Lemma max_index_spec p : forall n,
  match max_index p with
  | Some m => (m < n)%nat <-> Forall (fun i => (i < n)%nat) p
  | None => p = []
  end.
Proof.
  induction p as [|i p IH]; intros n; [done|]. cbn [max_index]. specialize (IH n).
  rewrite Forall_cons. destruct (max_index p) as [m|].
  - rewrite <- IH. lia.
  - subst p. rewrite Forall_nil. lia.
Qed.

Lemma project_record_schema_ok {E} s p :
  Forall (fun i => (i < num_columns s)%nat) p ->
  exists rs, @project_record_schema E s p = Ok rs /\
    Some <$> rs_columns rs = (fun i => columns s !! i) <$> p.
Proof.
  intros Hp. unfold project_record_schema.
  assert (H : forall acc, exists cols,
    rfold (fun cols q => let? c := @unwrap E _ (columns s !! q) in Ok (cols ++ [c])) p acc = Ok (acc ++ cols) /\
    Some <$> cols = (fun i => columns s !! i) <$> p).
  { induction Hp as [|i p Hi _ IH]; intros acc.
    - exists []. by rewrite app_nil_r.
    - destruct (lookup_lt_is_Some_2 (columns s) i Hi) as [c Hc]. cbn [rfold]. rewrite Hc. cbn [unwrap rbind].
      destruct (IH (acc ++ [c])) as (cols & -> & Heq). exists (c :: cols).
      rewrite <- app_assoc. split; [done|]. rewrite !fmap_cons, Heq. by rewrite Hc. }
  destruct (H []) as (cols & -> & Heq). cbn [app rbind]. eexists. split; [done|].
  unfold column_schemas_new, rs_columns. by destruct (offsets_from 0 cols).
Qed.

(** What [ProjectedSchema::new] gives for a projection within the columns. *)
Lemma projected_schema_new_ok s p :
  schema_wf s -> Forall (fun i => (i < num_columns s)%nat) p ->
  exists rs, projected_schema_new s (Some p) =
      Ok (MkProjectedSchema s (Some p) (project_record_schema_with_key s p) rs) /\
    Some <$> rs_columns rs = (fun i => columns s !! i) <$> p.
Proof.
  intros Hwf Hp. unfold projected_schema_new. pose proof (max_index_spec p (num_columns s)) as Hm.
  destruct (project_record_schema_ok (E:=ProjectionError) s p Hp) as (rs & Hrs & Hcols).
  exists rs. split; [|done]. destruct (max_index p) as [m|].
  - rewrite (proj2 (Nat.ltb_lt _ _)) by (by apply Hm). cbn [ensure rbind]. by rewrite Hrs.
  - cbn [rbind]. by rewrite Hrs.
Qed.

(** ** Projecting rows *)

(** The source column a column of the reader takes its values from. *)
Definition read_source (ps : ProjectedSchema) (src : Schema) (c : column) (o : option nat) : Prop :=
  match o with
  | Some j => exists sc, columns src !! j = Some sc /\ ColumnSchema.name sc = ColumnSchema.name c /\
      (schema_version (original_schema ps) <> schema_version src ->
       ColumnSchema.id sc = ColumnSchema.id c /\
       (ColumnSchema.is_nullable c = false -> ColumnSchema.is_nullable sc = false))
  | None => ColumnSchema.is_nullable c = true /\
      forall j sc, columns src !! j = Some sc -> ColumnSchema.name sc = ColumnSchema.name c ->
        schema_version (original_schema ps) <> schema_version src /\
        ColumnSchema.id sc <> ColumnSchema.id c
  end.

Lemma index_of_unique s j c name :
  schema_wf s -> columns s !! j = Some c -> ColumnSchema.name c = name -> index_of s name = Some j.
Proof. intros Hwf Hj Hn. apply (wf_index_of _ Hwf). by exists c. Qed.

Lemma compatible_for_read_spec c sc op :
  ColumnSchema.compatible_for_read c sc = Ok op <->
  match op with
  | ColumnSchema.Exact => ColumnSchema.id sc = ColumnSchema.id c /\
      (ColumnSchema.is_nullable c = false -> ColumnSchema.is_nullable sc = false)
  | ColumnSchema.FillNull => ColumnSchema.is_nullable c = true /\ ColumnSchema.id sc <> ColumnSchema.id c
  end.
Proof.
  unfold ColumnSchema.compatible_for_read, ensure. destruct (ColumnSchema.is_nullable c), op;
    destruct (Z.eqb_spec (ColumnSchema.id c) (ColumnSchema.id sc)), (ColumnSchema.is_nullable sc);
    cbn; naive_solver.
Qed.

Lemma try_project_column_spec ps src acc c sp :
  schema_wf src ->
  try_project_column ps src acc c = Ok sp <-> exists o, sp = acc ++ [o] /\ read_source ps src c o.
Proof.
  intros Hwf. unfold try_project_column. destruct (index_of src (ColumnSchema.name c)) as [j|] eqn:Hj.
  - pose proof (proj1 (wf_index_of _ Hwf _ _) Hj) as (sc & Hsc & Hname).
    assert (Huniq : forall j' sc', columns src !! j' = Some sc' -> ColumnSchema.name sc' = ColumnSchema.name c ->
                    j' = j /\ sc' = sc).
    { intros j' sc' Hj' Hn'. pose proof (index_of_unique _ _ _ _ Hwf Hj' Hn'). naive_solver. }
    destruct (Z.eqb_spec (schema_version (original_schema ps)) (schema_version src)) as [Hv|Hv].
    + split.
      * intros [= <-]. exists (Some j). split; [done|]. exists sc. naive_solver.
      * intros ([j'|] & -> & Ho).
        { destruct Ho as (sc' & Hj' & Hn' & _). by destruct (Huniq _ _ Hj' Hn') as [-> _]. }
        { destruct Ho as [_ Ho]. by destruct (Ho j sc Hsc Hname). }
    + rewrite Hsc. cbn [unwrap rbind]. split.
      * intros (op & Hop%rcontext_ok%compatible_for_read_spec & Heq)%rbind_ok.
        destruct op; injection Heq as <-.
        { exists (Some j). split; [done|]. exists sc. naive_solver. }
        { exists None. split; [done|]. split; [apply Hop|]. intros j' sc' Hj' Hn'.
          destruct (Huniq _ _ Hj' Hn') as [-> ->]. split; [done|apply Hop]. }
      * intros (o & -> & Ho). apply rbind_ok.
        destruct o as [j'|].
        { destruct Ho as (sc' & Hj' & Hn' & Hc). destruct (Huniq _ _ Hj' Hn') as [-> ->].
          exists ColumnSchema.Exact. split; [|done]. apply rcontext_ok, compatible_for_read_spec. auto. }
        { destruct Ho as [Hnull Ho]. destruct (Ho j sc Hsc Hname) as [_ Hid].
          exists ColumnSchema.FillNull. split; [|done]. by apply rcontext_ok, compatible_for_read_spec. }
  - assert (Hnone : forall j sc, columns src !! j = Some sc -> ColumnSchema.name sc <> ColumnSchema.name c).
    { intros j sc Hsc Hn. rewrite (index_of_unique _ _ _ _ Hwf Hsc Hn) in Hj. done. }
    unfold ensure. destruct (ColumnSchema.is_nullable c) eqn:Hnull; cbn [rbind].
    + split.
      * intros [= <-]. exists None. split; [done|]. split; [done|]. intros j sc Hsc Hn.
        exfalso. by apply (Hnone j sc).
      * intros ([j|] & -> & Ho); [|done]. destruct Ho as (sc & Hsc & Hn & _). exfalso. by apply (Hnone j sc).
    + split; [done|]. intros ([j|] & -> & Ho).
      * destruct Ho as (sc & Hsc & Hn & _). exfalso. by apply (Hnone j sc).
      * destruct Ho. congruence.
Qed.

Lemma try_project_columns_spec ps src cs : forall acc sp,
  schema_wf src ->
  rfold (try_project_column ps src) cs acc = Ok sp <->
  exists os, sp = acc ++ os /\ Forall2 (read_source ps src) cs os.
Proof.
  induction cs as [|c cs IH]; intros acc sp Hwf; cbn [rfold].
  - split.
    + intros [= <-]. exists []. by rewrite app_nil_r.
    + intros (os & -> & H). inversion H. by rewrite app_nil_r.
  - rewrite rbind_ok. split.
    + intros (acc' & (o & -> & Ho)%try_project_column_spec & H); [|done].
      apply IH in H as (os & -> & Hos); [|done]. exists (o :: os). rewrite <- app_assoc. auto.
    + intros (os & -> & H). inversion H as [|? o ? os' Ho Hos]; subst.
      exists (acc ++ [o]). split; [apply try_project_column_spec; eauto|].
      apply IH; [done|]. exists os'. by rewrite <- app_assoc.
Qed.

(** The value a reader's column takes from a row of another schema: that of
    the source's column with its name and id, or null. *)
Definition read_value (src : Schema) (r : row) (c : column) : Datum.t :=
  match index_of src (ColumnSchema.name c) with
  | Some j =>
      match columns src !! j with
      | Some sc => if ColumnSchema.id sc =? ColumnSchema.id c then default Datum.Null (r !! j) else Datum.Null
      | None => Datum.Null
      end
  | None => Datum.Null
  end.

(** Every column of a projected schema is a column of the schema. *)
Lemma with_key_columns s p ps c :
  schema_wf s -> projected_schema_new s p = Ok ps ->
  c ∈ rk_columns (schema_with_key ps) -> c ∈ columns s.
Proof.
  intros Hwf. destruct p as [p|]; cbn [projected_schema_new]; [|by intros [= <-]].
  intros (_ & _ & (rs & _ & [= <-])%rbind_ok)%rbind_ok. cbn [schema_with_key].
  rewrite (proj1 (with_key_spec s p Hwf)). intros ((i & c') & -> & [_ Hin]%list_elem_of_filter)%list_elem_of_fmap.
  apply elem_of_zip_r in Hin. done.
Qed.

Lemma projected_original s p ps : projected_schema_new s p = Ok ps -> original_schema ps = s.
Proof.
  destruct p as [p|]; cbn [projected_schema_new]; [|by intros [= <-]].
  by intros (_ & _ & (rs & _ & [= <-])%rbind_ok)%rbind_ok.
Qed.

Lemma read_source_value s src ps c o r :
  schema_wf s -> schema_wf src -> (schema_version s = schema_version src -> s = src) ->
  original_schema ps = s -> c ∈ columns s -> row_ok src r -> read_source ps src c o ->
  let d := match o with Some j => default Datum.Null (r !! j) | None => Datum.Null end in
  d = read_value src r c /\ (Datum.is_null d = true -> ColumnSchema.is_nullable c = true).
Proof.
  intros Hs Hsrc Hver Ho Hc Hr Hrs d. unfold read_value. destruct o as [j|].
  - destruct Hrs as (sc & Hj & Hn & Hdiff). rewrite (index_of_unique _ _ _ _ Hsrc Hj Hn), Hj.
    assert (Hsc : ColumnSchema.id sc = ColumnSchema.id c /\
                  (ColumnSchema.is_nullable c = false -> ColumnSchema.is_nullable sc = false)).
    { destruct (decide (schema_version s = schema_version src)) as [Hv|Hv]; [|apply Hdiff; congruence].
      specialize (Hver Hv). subst src. apply list_elem_of_lookup in Hc as [i Hi].
      pose proof (index_of_unique _ _ _ _ Hs Hi eq_refl) as H1.
      rewrite (index_of_unique _ _ _ _ Hs Hj Hn) in H1. injection H1 as ->. naive_solver. }
    destruct Hsc as [Hid Hnull]. rewrite Hid, Z.eqb_refl. split; [done|]. unfold d.
    destruct (Forall2_lookup_r _ _ _ _ _ Hr Hj) as (v & Hv & Hfit). rewrite Hv. cbn [default].
    intros Hvn. destruct (ColumnSchema.is_nullable c); [done|]. exfalso.
    unfold datum_fits in Hfit. destruct v; cbn in Hvn; try discriminate. cbn in Hfit.
    rewrite (Hnull eq_refl) in Hfit. naive_solver.
  - destruct Hrs as [Hnull Hnone]. split; [|done]. unfold d.
    destruct (index_of src (ColumnSchema.name c)) as [j|] eqn:Hj; [|done].
    pose proof (proj1 (wf_index_of _ Hsrc _ _) Hj) as (sc & Hsc & Hn). rewrite Hsc.
    destruct (Hnone j sc Hsc Hn) as [_ Hid]. by rewrite Z_eqb_false.
Qed.

Definition source_value (r : row) (o : option nat) : Datum.t :=
  match o with Some j => default Datum.Null (r !! j) | None => Datum.Null end.

Lemma project_row_ok {E} rp r :
  length r = num_columns (rp_source_schema rp) ->
  Forall (fun o => match o with Some j => (j < length r)%nat | None => True end) (source_projection rp) ->
  @project_row E rp r [] = Ok (source_value r <$> source_projection rp).
Proof.
  intros Hlen Ho. unfold project_row. rewrite Hlen, Nat.eqb_refl. cbn [rassert rbind].
  match goal with |- rfold ?f _ _ = _ =>
    enough (H : forall acc, rfold f (source_projection rp) acc =
                            Ok (acc ++ (source_value r <$> source_projection rp))) by apply (H [])
  end.
  induction Ho as [|o os Ho _ IH]; intros acc; cbn [rfold].
  - by rewrite app_nil_r.
  - rewrite fmap_cons. destruct o as [j|]; cbn [source_value].
    + destruct (lookup_lt_is_Some_2 r j Ho) as [d Hd]. rewrite Hd. cbn [unwrap rbind default].
      rewrite IH. by rewrite <- app_assoc.
    + cbn [rbind]. rewrite IH. by rewrite <- app_assoc.
Qed.

(** Projecting succeeds on rows of the source, and reads by name and id. *)
Lemma project_row_values s p ps src rp r :
  schema_wf s -> schema_wf src -> (schema_version s = schema_version src -> s = src) ->
  projected_schema_new s p = Ok ps -> try_project_with_key ps src = Ok rp -> row_ok src r ->
  exists out, @project_row unit rp r [] = Ok out /\
    Forall2 (fun d c => d = read_value src r c /\
                        (Datum.is_null d = true -> ColumnSchema.is_nullable c = true))
      out (rk_columns (schema_with_key ps)).
Proof.
  intros Hs Hsrc Hver Hps Hrp Hr.
  apply rbind_ok in Hrp as (sp & (os & -> & Hos)%try_project_columns_spec & [= <-]); [|done].
  cbn [app] in *. exists (source_value r <$> os).
  assert (Hlen : length r = num_columns src) by (by apply Forall2_length in Hr).
  split.
  - apply project_row_ok; cbn [rp_source_schema source_projection]; [done|].
    rewrite Hlen. clear -Hos. induction Hos as [|c o cs os Ho _ IH]; constructor; [|done].
    destruct o as [j|]; [|done]. destruct Ho as (sc & Hj & _). by apply lookup_lt_Some in Hj.
  - apply Forall2_fmap_l. apply Forall2_flip.
    assert (Hin : Forall (fun c => c ∈ columns s) (rk_columns (schema_with_key ps))).
    { apply Forall_forall. intros c. by apply (with_key_columns s p ps c). }
    pose proof (projected_original s p ps Hps) as Horig.
    clear -Hos Hin Hs Hsrc Hver Horig Hr.
    induction Hos as [|c o cs os Ho _ IH]; inversion_clear Hin as [|? ? Hc Hcs]; constructor; auto.
    by apply (read_source_value s src ps c o r).
Qed.

Lemma compare_row_ext keys pk l1 l2 r1 r2 :
  Forall2 (fun j i => l1 !! j = r1 !! i /\ l2 !! j = r2 !! i) keys pk ->
  compare_row keys l1 l2 = compare_row pk r1 r2.
Proof.
  induction 1 as [|j i keys pk [H1 H2] _ IH]; [done|]. cbn [compare_row]. rewrite H1, H2.
  destruct (r1 !! i); cbn [unwrap rbind]; [|done]. destruct (r2 !! i); cbn [unwrap rbind]; [|done].
  destruct (unwrap _) as [[]| |]; cbn [rbind]; done.
Qed.

Lemma read_value_same s r i c :
  schema_wf s -> row_ok s r -> columns s !! i = Some c -> Some (read_value s r c) = r !! i.
Proof.
  intros Hwf Hr Hi. unfold read_value. rewrite (index_of_unique _ _ _ _ Hwf Hi eq_refl), Hi, Z.eqb_refl.
  destruct (Forall2_lookup_r _ _ _ _ _ Hr Hi) as (d & -> & _). done.
Qed.

Lemma projected_keys s p ps r out :
  schema_wf s -> projected_schema_new s p = Ok ps -> row_ok s r ->
  Forall2 (fun d c => d = read_value s r c) out (rk_columns (schema_with_key ps)) ->
  Forall2 (fun j i => out !! j = r !! i) (rk_primary_key_indexes (schema_with_key ps)) (primary_key_indexes s).
Proof.
  intros Hwf Hps Hr Hout.
  assert (Hk : Forall2 (fun j i => exists c, rk_columns (schema_with_key ps) !! j = Some c /\ columns s !! i = Some c)
                 (rk_primary_key_indexes (schema_with_key ps)) (primary_key_indexes s)).
  { destruct p as [p|]; cbn [projected_schema_new] in Hps.
    - apply rbind_ok in Hps as (_ & _ & (rs & _ & [= <-])%rbind_ok). apply (with_key_spec s p Hwf).
    - injection Hps as <-. cbn. apply Forall_Forall2_diag, Forall_forall. intros i Hi.
      destruct (wf_keys _ Hwf i Hi) as (c & Hc & _). by exists c. }
  eapply Forall2_impl; [exact Hk|]. intros j i (c & Hj & Hi).
  destruct (Forall2_lookup_r _ _ _ _ _ Hout Hj) as (d & -> & ->). by apply read_value_same.
Qed.

(** ** Properties *)

(** A projection reads what the reader asked for.  A projected schema is
    refused only for an index out of range; otherwise its columns are the key
    columns and the named ones in table order.  A projector for rows of another
    version of the schema exists exactly when every such column has a source
    that cannot give a null it does not take.  Projecting a row then succeeds
    and gives each column the value of the source's column of its name and id,
    null if there is none, and never a null to a column that is not nullable. *)
Theorem projection_reads_columns s p src :
  schema_wf s -> schema_wf src -> (schema_version s = schema_version src -> s = src) ->
  (Forall (fun i => (i < num_columns s)%nat) p <-> is_ok (projected_schema_new s (Some p))) /\
  forall ps, projected_schema_new s (Some p) = Ok ps ->
    rk_columns (schema_with_key ps) =
      (filter (fun ic => ic.1 ∈ primary_key_indexes s \/ ic.1 ∈ p) (enumerate (columns s))).*2 /\
    (is_ok (try_project_with_key ps src) <->
     Forall (fun c => exists o, read_source ps src c o) (rk_columns (schema_with_key ps))) /\
    forall rp r, try_project_with_key ps src = Ok rp -> row_ok src r ->
      exists out, @project_row unit rp r [] = Ok out /\
        Forall2 (fun d c => d = read_value src r c /\
                            (Datum.is_null d = true -> ColumnSchema.is_nullable c = true))
          out (rk_columns (schema_with_key ps)).
Proof.
  intros Hs Hsrc Hver. split.
  - split.
    + intros Hp. destruct (projected_schema_new_ok s p Hs Hp) as (rs & -> & _). by eexists.
    + intros [ps H]. apply rbind_ok in H as ([] & H & _). pose proof (max_index_spec p (num_columns s)) as Hm.
      destruct (max_index p) as [m|]; [|subst p; constructor]. unfold ensure in H.
      destruct (Nat.ltb_spec m (num_columns s)); [by apply Hm|done].
  - intros ps Hps. split; [|split].
    + apply rbind_ok in Hps as (_ & _ & (rs & _ & [= <-])%rbind_ok). apply (with_key_spec s p Hs).
    + unfold try_project_with_key. split.
      * intros (rp & (sp & (os & _ & Hos)%try_project_columns_spec & _)%rbind_ok); [|done].
        clear -Hos. induction Hos; constructor; eauto.
      * intros H. assert (exists os, Forall2 (read_source ps src) (rk_columns (schema_with_key ps)) os) as [os Hos].
        { clear -H. induction H as [|c cs [o Ho] _ [os IH]]; [by exists []|]. exists (o :: os). by constructor. }
        eexists. apply rbind_ok. exists os. split; [|done]. apply try_project_columns_spec; [done|]. by exists os.
    + intros rp r Hrp Hr. by apply (project_row_values s (Some p) ps src rp r).
Qed.

Lemma projection_reads_columns_witness :
  is_ok (projected_schema_new the_demo (Some [2%nat])).
Proof.
  apply (projection_reads_columns the_demo [2%nat] the_demo the_demo_wf the_demo_wf (fun _ => eq_refl)).
  repeat constructor.
Defined.

(** Projection keeps the order of the rows: two rows of a table compare by
    the key columns of the projected schema, at their projected positions,
    exactly as they do by the table's primary key. *)
Theorem projection_keeps_key_order s p ps rp r1 r2 out1 out2 :
  schema_wf s -> projected_schema_new s p = Ok ps -> try_project_with_key ps s = Ok rp ->
  row_ok s r1 -> row_ok s r2 ->
  @project_row unit rp r1 [] = Ok out1 -> @project_row unit rp r2 [] = Ok out2 ->
  rk_compare_row (schema_with_key ps) out1 out2 = compare_row (primary_key_indexes s) r1 r2.
Proof.
  intros Hs Hps Hrp H1 H2 Ho1 Ho2.
  destruct (project_row_values s p ps s rp r1) as (o1 & Heq1 & Hv1); auto.
  destruct (project_row_values s p ps s rp r2) as (o2 & Heq2 & Hv2); auto.
  rewrite Ho1 in Heq1. rewrite Ho2 in Heq2. injection Heq1 as <-. injection Heq2 as <-.
  apply compare_row_ext.
  pose proof (projected_keys s p ps r1 out1 Hs Hps H1 ltac:(eapply Forall2_impl; [exact Hv1|naive_solver])) as K1.
  pose proof (projected_keys s p ps r2 out2 Hs Hps H2 ltac:(eapply Forall2_impl; [exact Hv2|naive_solver])) as K2.
  clear -K1 K2. induction K1 as [|j i js is_ Hj _ IH]; inversion_clear K2; constructor; auto.
Qed.

Definition demo_row (host ts : Z) : row :=
  [Datum.String [host]; Datum.Timestamp ts; Datum.Null].

Lemma projection_keeps_key_order_witness :
  exists ps, projected_schema_new the_demo (Some []) = Ok ps /\
    rk_compare_row (schema_with_key ps) (take 2 (demo_row 97 5)) (take 2 (demo_row 97 3)) =
    compare_row (primary_key_indexes the_demo) (demo_row 97 5) (demo_row 97 3).
Proof.
  eexists. split; [reflexivity|].
  eapply (projection_keeps_key_order the_demo (Some []) _ _ (demo_row 97 5) (demo_row 97 3)).
  - exact the_demo_wf.
  - reflexivity.
  - reflexivity.
  - repeat constructor.
  - repeat constructor.
  - reflexivity.
  - reflexivity.
Defined.
