(* ===== verification/RecordBatch.v ===== *)
(** * Column blocks and record batches

    Models [common_types/src/column.rs] (column blocks, their builders and
    [dedup]), the row views of [common_types/src/row/mod.rs] and
    [RecordBatchWithKey] with its builder ([common_types/src/record_batch.rs]).

    An arrow array is the list of its values, a null slot being [Null]; a
    dictionary array keeps its keys and its dictionary.  What the code calls of
    the arrow library is collected in the class [Arrow]: whether
    [RecordBatch::try_new] accepts the arrays of a schema, what [value(i)] of a
    null slot reads, and how a dictionary builder interns a string.  The laws
    the proofs use are in [ArrowLaws]. *)

From Stdlib Require Import ZArith Lia Sorted.
From stdpp Require Import base tactics option list numbers strings gmap sets.
From S2P Require Import Prelude Bytes Datum Schema Projection.

#[local] Open Scope Z_scope.

(** [ColumnBlock]: one constructor for the macro-generated ones, with its kind. *)
Inductive ColumnBlock :=
| NullBlock (rows : nat)
| PlainBlock (kind : DatumKind.t) (data : list Datum.t)
| StringDictionary (keys : list (option nat)) (values : list bytes).

Class Arrow := {
  (** [ArrowRecordBatch::try_new] accepts these arrays for these fields. *)
  arrow_try_new : list column -> list ColumnBlock -> bool;
  (** [array.value(i)] where the slot [i] is null. *)
  null_slot : DatumKind.t -> Datum.t;
  (** [StringDictionaryBuilder::append_value]: the dictionary, and the key. *)
  dict_append : list bytes -> bytes -> list bytes * nat
}.

(** A dictionary array gives a null for a null key; its keys are in range. *)
Definition dict_datum (values : list bytes) (key : option nat) : Datum.t :=
  match key ≫= (fun k => values !! k) with Some v => Datum.String v | None => Datum.Null end.

(** The values of a block. *)
Definition block_data (b : ColumnBlock) : list Datum.t :=
  match b with
  | NullBlock rows => replicate rows Datum.Null
  | PlainBlock _ data => data
  | StringDictionary keys values => dict_datum values <$> keys
  end.

Definition datum_kind (b : ColumnBlock) : DatumKind.t :=
  match b with
  | NullBlock _ => DatumKind.Null
  | PlainBlock k _ => k
  | StringDictionary _ _ => DatumKind.String
  end.
Definition block_num_rows (b : ColumnBlock) : nat :=
  match b with
  | NullBlock rows => rows
  | PlainBlock _ data => length data
  | StringDictionary keys _ => length keys
  end.
Definition datum_opt (b : ColumnBlock) (index : nat) : option Datum.t := block_data b !! index.
(** [datum]: panics out of range. *)
Definition block_datum {E} (b : ColumnBlock) (index : nat) : res E Datum.t := unwrap (datum_opt b index).

(** [slice]: panics when the range leaves the column. *)
Definition block_slice {E} (b : ColumnBlock) (offset length' : nat) : res E ColumnBlock :=
  let? _ := rassert (offset + length' <=? block_num_rows b)%nat in
  Ok (match b with
      | NullBlock _ => NullBlock length'
      | PlainBlock k data => PlainBlock k (take length' (drop offset data))
      | StringDictionary keys values => StringDictionary (take length' (drop offset keys)) values
      end).

Definition new_null (rows : nat) : ColumnBlock := NullBlock rows.
Definition new_null_with_type (kind : DatumKind.t) (rows : nat) (is_dictionary : bool) : ColumnBlock :=
  match kind with
  | DatumKind.Null => NullBlock rows
  | DatumKind.String =>
      if is_dictionary then StringDictionary (replicate rows None) []
      else PlainBlock DatumKind.String (replicate rows Datum.Null)
  | k => PlainBlock k (replicate rows Datum.Null)
  end.

Inductive ColumnError := ConflictType (expect given : DatumKind.t).

(** [ColumnBlockBuilder]. *)
Inductive ColumnBlockBuilder :=
| NullBuilder (rows : nat)
| PlainBuilder (kind : DatumKind.t) (data : list Datum.t)
| DictionaryBuilder (keys : list (option nat)) (values : list bytes).

Section columns.
Context {AR : Arrow}.

(** [self.0.value(i)]: the value of the slot, whatever its validity bit. *)
Definition slot_value (kind : DatumKind.t) (d : Datum.t) : Datum.t :=
  if Datum.is_null d then null_slot kind else d.
(** [current != prev]: by value for a plain array (floats by IEEE comparison),
    by key for a dictionary. *)
Definition value_ne (a b : Datum.t) : bool :=
  match Datum.partial_cmp a b with Some Eq => false | _ => true end.

(** The marks of the slots after the first: those that differ from the slot
    before. *)
Fixpoint mark_changes {A} (ne : A -> A -> bool) (prev : A) (l : list A) (selected : list bool)
  : list bool :=
  match l, selected with
  | a :: l, s :: selected => (if ne a prev then true else s) :: mark_changes ne a l selected
  | _, _ => selected
  end.
Definition dedup_slots {A} (ne : A -> A -> bool) (l : list A) (selected : list bool) : list bool :=
  match l, selected with
  | a :: l, _ :: selected => true :: mark_changes ne a l selected
  | _, _ => selected
  end.

(** [ColumnBlock::dedup]: marks the first slot and every slot that differs
    from the one before, leaving the other marks. *)
Definition block_dedup (b : ColumnBlock) (selected : list bool) : list bool :=
  match b with
  | NullBlock rows => match rows, selected with S _, _ :: l => true :: l | _, _ => selected end
  | PlainBlock k data => dedup_slots value_ne (slot_value k <$> data) selected
  | StringDictionary keys _ => dedup_slots (fun a b => bool_decide (a <> b)) keys selected
  end.

Definition with_capacity (kind : DatumKind.t) (is_dictionary : bool) : ColumnBlockBuilder :=
  match kind with
  | DatumKind.Null => NullBuilder 0
  | DatumKind.String => if is_dictionary then DictionaryBuilder [] [] else PlainBuilder DatumKind.String []
  | k => PlainBuilder k []
  end.

(** [append] and [append_view]: null or a value of the builder's kind. *)
Definition builder_append (b : ColumnBlockBuilder) (d : Datum.t) : res ColumnError ColumnBlockBuilder :=
  match b with
  | NullBuilder rows =>
      match d with
      | Datum.Null => Ok (NullBuilder (S rows))
      | _ => Err (ConflictType DatumKind.Null (Datum.kind d))
      end
  | PlainBuilder k data =>
      if Datum.is_null d || bool_decide (Datum.kind d = k) then Ok (PlainBuilder k (data ++ [d]))
      else Err (ConflictType k (Datum.kind d))
  | DictionaryBuilder keys values =>
      match d with
      | Datum.Null => Ok (DictionaryBuilder (keys ++ [None]) values)
      | Datum.String v =>
          let '(values, k) := dict_append values v in Ok (DictionaryBuilder (keys ++ [Some k]) values)
      | _ => Err (ConflictType DatumKind.String (Datum.kind d))
      end
  end.

Definition append_all (b : ColumnBlockBuilder) (ds : list Datum.t) : res ColumnError ColumnBlockBuilder :=
  rfold builder_append ds b.

(** [append_block_range]: the rows [start..min(start + len, num_rows)] of a
    block of the builder's type, or as many nulls of a null block. *)
Definition append_block_range (b : ColumnBlockBuilder) (block : ColumnBlock) (start len' : nat)
  : res ColumnError ColumnBlockBuilder :=
  let num_rows := block_num_rows block in
  let range := take (Nat.min (start + len') num_rows - start) (drop start (block_data block)) in
  match b with
  | NullBuilder rows =>
      if (num_rows <=? start + len')%nat then
        let? _ := rassert (start <=? num_rows)%nat in Ok (NullBuilder (rows + (num_rows - start)))
      else Ok (NullBuilder (rows + len'))
  | PlainBuilder k data =>
      match block with
      | NullBlock _ => append_all b range
      | PlainBlock k' _ => if bool_decide (k' = k) then append_all b range
                           else Err (ConflictType k (datum_kind block))
      | StringDictionary _ _ => Err (ConflictType k (datum_kind block))
      end
  | DictionaryBuilder keys values =>
      match block with
      | NullBlock _ | StringDictionary _ _ => append_all b range
      | PlainBlock _ _ => Err (ConflictType DatumKind.String (datum_kind block))
      end
  end.

Definition builder_len (b : ColumnBlockBuilder) : nat :=
  match b with
  | NullBuilder rows => rows
  | PlainBuilder _ data => length data
  | DictionaryBuilder keys _ => length keys
  end.

(** [build]: the block, and the builder reset. *)
Definition builder_build (b : ColumnBlockBuilder) : ColumnBlock * ColumnBlockBuilder :=
  match b with
  | NullBuilder rows => (NullBlock rows, NullBuilder 0)
  | PlainBuilder k data => (PlainBlock k data, PlainBuilder k [])
  | DictionaryBuilder keys values => (StringDictionary keys values, DictionaryBuilder [] [])
  end.
Definition builder_clear (b : ColumnBlockBuilder) : ColumnBlockBuilder := (builder_build b).2.
End columns.

(** ** Record batches *)
Inductive BatchError :=
| CreateArrow
| AppendDatum (e : ColumnError)
| ColumnNotInSchemaWithKey (name : string).

Record RecordBatchWithKey := MkRecordBatch {
  rb_schema_with_key : RecordSchemaWithKey;
  rb_column_blocks : list ColumnBlock
}.

(** [RecordBatchData::num_rows]: that of the first column. *)
Definition rb_num_rows (b : RecordBatchWithKey) : nat :=
  match rb_column_blocks b with [] => 0 | c :: _ => block_num_rows c end.
Definition rb_is_empty (b : RecordBatchWithKey) : bool := (rb_num_rows b =? 0)%nat.
Definition rb_num_columns (b : RecordBatchWithKey) : nat := length (rb_column_blocks b).
Definition rb_column {E} (b : RecordBatchWithKey) (index : nat) : res E ColumnBlock :=
  unwrap (rb_column_blocks b !! index).

(** The loop of an iterator chain that collects a fallible map. *)
Fixpoint rmap {E A B} (f : A -> res E B) (l : list A) : res E (list B) :=
  match l with
  | [] => Ok []
  | a :: l => let? b := f a in let? bs := rmap f l in Ok (b :: bs)
  end.

Definition clone_row_at {E} (b : RecordBatchWithKey) (index : nat) : res E row :=
  rmap (fun c => block_datum c index) (rb_column_blocks b).

(** [RecordBatchWithKey::slice]. *)
Definition rb_slice {E} (b : RecordBatchWithKey) (offset length' : nat) : res E RecordBatchWithKey :=
  let? blocks := rmap (fun c => block_slice c offset length') (rb_column_blocks b) in
  Ok (MkRecordBatch (rb_schema_with_key b) blocks).

(** [RowViewOnBatch]: the batch and the row. *)
Record RowViewOnBatch := MkRowView { rv_record_batch : RecordBatchWithKey; rv_row_idx : nat }.
Definition column_by_idx {E} (v : RowViewOnBatch) (column_idx : nat) : res E Datum.t :=
  let? c := rb_column (rv_record_batch v) column_idx in block_datum c (rv_row_idx v).
(** [iter_columns]: ends at the first column without the row. *)
Fixpoint columns_until (blocks : list ColumnBlock) (row_idx : nat) : list Datum.t :=
  match blocks with
  | [] => []
  | c :: blocks =>
      match datum_opt c row_idx with
      | Some d => d :: columns_until blocks row_idx
      | None => []
      end
  end.
Definition iter_columns (v : RowViewOnBatch) : list Datum.t :=
  columns_until (rb_column_blocks (rv_record_batch v)) (rv_row_idx v).

Record RecordBatchBuilder := MkBatchBuilder {
  bb_schema_with_key : RecordSchemaWithKey;
  bb_builders : list ColumnBlockBuilder
}.

Section batches.
Context {AR : Arrow}.

Definition batch_builder_new (rk : RecordSchemaWithKey) : RecordBatchBuilder :=
  MkBatchBuilder rk
    ((fun c => with_capacity (ColumnSchema.data_type c) (ColumnSchema.is_dictionary c)) <$> rk_columns rk).

(** [self.builders.iter_mut().zip(values)] with a fallible body. *)
Fixpoint zip_append {V} (f : ColumnBlockBuilder -> V -> res ColumnError ColumnBlockBuilder)
    (bs : list ColumnBlockBuilder) (vs : list V) : res BatchError (list ColumnBlockBuilder) :=
  match bs, vs with
  | b :: bs, v :: vs =>
      let? b := rcontext AppendDatum (f b v) in
      let? bs := zip_append f bs vs in
      Ok (b :: bs)
  | _, _ => Ok bs
  end.

(** [append_row], and [append_row_view] of the view's columns. *)
Definition append_row (bb : RecordBatchBuilder) (r : row) : res BatchError RecordBatchBuilder :=
  let? bs := zip_append builder_append (bb_builders bb) r in
  Ok (MkBatchBuilder (bb_schema_with_key bb) bs).
Definition append_row_view (bb : RecordBatchBuilder) (v : RowViewOnBatch) : res BatchError RecordBatchBuilder :=
  append_row bb (iter_columns v).

Definition append_batch_range (bb : RecordBatchBuilder) (batch : RecordBatchWithKey) (start len' : nat)
  : res BatchError (RecordBatchBuilder * nat) :=
  let num_rows := rb_num_rows batch in
  if (num_rows <=? start)%nat then Ok (bb, 0%nat)
  else
    let added := Nat.min (num_rows - start) len' in
    let? bs := zip_append (fun b c => append_block_range b c start added) (bb_builders bb)
                 (rb_column_blocks batch) in
    Ok (MkBatchBuilder (bb_schema_with_key bb) bs, added).

Definition bb_len (bb : RecordBatchBuilder) : nat :=
  match bb_builders bb with [] => 0 | b :: _ => builder_len b end.
Definition bb_is_empty (bb : RecordBatchBuilder) : bool := (bb_len bb =? 0)%nat.
Definition bb_clear (bb : RecordBatchBuilder) : RecordBatchBuilder :=
  MkBatchBuilder (bb_schema_with_key bb) (builder_clear <$> bb_builders bb).

(** [RecordBatchWithKeyBuilder::build]: [RecordBatchData::new] can fail. *)
Definition bb_build (bb : RecordBatchBuilder) : res BatchError (RecordBatchWithKey * RecordBatchBuilder) :=
  let blocks := (fun b => (builder_build b).1) <$> bb_builders bb in
  let? _ := ensure (arrow_try_new (rk_columns (bb_schema_with_key bb)) blocks) CreateArrow in
  Ok (MkRecordBatch (bb_schema_with_key bb) blocks, bb_clear bb).
End batches.

(** ** Rows held column by column *)

(** How a column of the schema is stored. *)
Inductive storage := AsNull | AsPlain (k : DatumKind.t) | AsDictionary.
Definition column_storage (c : column) : storage :=
  match ColumnSchema.data_type c with
  | DatumKind.Null => AsNull
  | DatumKind.String => if ColumnSchema.is_dictionary c then AsDictionary else AsPlain DatumKind.String
  | k => AsPlain k
  end.
Definition block_storage (b : ColumnBlock) : storage :=
  match b with
  | NullBlock _ => AsNull
  | PlainBlock k _ => AsPlain k
  | StringDictionary _ _ => AsDictionary
  end.
Definition builder_storage (b : ColumnBlockBuilder) : storage :=
  match b with
  | NullBuilder _ => AsNull
  | PlainBuilder k _ => AsPlain k
  | DictionaryBuilder _ _ => AsDictionary
  end.

Definition keys_ok (keys : list (option nat)) (values : list bytes) : Prop :=
  Forall (fun o => match o with Some k => (k < length values)%nat | None => True end) keys.
(** A block, and a builder, that stores the column [c]: a dictionary has no
    string twice and keys within it. *)
Definition block_of (c : column) (b : ColumnBlock) : Prop :=
  block_storage b = column_storage c /\ Forall (fun d => datum_fits d c) (block_data b) /\
  match b with StringDictionary keys values => keys_ok keys values /\ NoDup values | _ => True end.
Definition builder_data (b : ColumnBlockBuilder) : list Datum.t := block_data (builder_build b).1.
Definition builder_of (c : column) (b : ColumnBlockBuilder) : Prop := block_of c (builder_build b).1.

(** What the code relies on of the arrow library. *)
Class ArrowLaws (AR : Arrow) : Prop := {
  (** Arrays of the fields' types and of one length, without nulls where the
      field has none, make a record batch. *)
  arrow_try_new_ok : forall n cols blocks,
    cols <> [] -> Forall2 block_of cols blocks -> Forall (fun b => block_num_rows b = n) blocks ->
    arrow_try_new cols blocks = true;
  (** Interning keeps the dictionary and gives a key of the string. *)
  dict_append_ok : forall values v values' k,
    dict_append values v = (values', k) ->
    values' !! k = Some v /\ (exists more, values' = values ++ more) /\ (NoDup values -> NoDup values')
}.

(** The columns hold the rows. *)
Definition columns_hold (data : list (list Datum.t)) (rows : list row) : Prop :=
  Forall (fun r => length r = length data) rows /\
  forall i l, data !! i = Some l -> Some <$> l = (fun r : row => r !! i) <$> rows.

Definition batch_rows (b : RecordBatchWithKey) (rows : list row) : Prop :=
  rb_column_blocks b <> [] /\
  Forall2 block_of (rk_columns (rb_schema_with_key b)) (rb_column_blocks b) /\
  columns_hold (block_data <$> rb_column_blocks b) rows.
Definition builder_rows (bb : RecordBatchBuilder) (rows : list row) : Prop :=
  bb_builders bb <> [] /\
  Forall2 builder_of (rk_columns (bb_schema_with_key bb)) (bb_builders bb) /\
  columns_hold (builder_data <$> bb_builders bb) rows.

Definition row_fits (rk : RecordSchemaWithKey) (r : row) : Prop := Forall2 datum_fits r (rk_columns rk).

Lemma block_data_length b : length (block_data b) = block_num_rows b.
Proof. destruct b; simpl; [apply length_replicate|done|apply length_fmap]. Qed.

Lemma columns_hold_length data rows i l : columns_hold data rows -> data !! i = Some l -> length l = length rows.
Proof.
  intros [_ H] Hi. specialize (H i l Hi). apply (f_equal length) in H. by rewrite !length_fmap in H.
Qed.

(** The rows of a batch fit its schema. *)
Lemma columns_hold_fits (P : column -> list Datum.t -> Prop) cols data rows :
  (forall c l, P c l -> Forall (fun d => datum_fits d c) l) ->
  Forall2 P cols data -> columns_hold data rows -> Forall (fun r => Forall2 datum_fits r cols) rows.
Proof.
  intros HP Hc [Hlen Hd]. apply Forall_forall. intros r Hr.
  rewrite Forall_forall in Hlen. specialize (Hlen r Hr). apply list_elem_of_lookup in Hr as [j Hj].
  apply Forall2_same_length_lookup. split; [by rewrite Hlen, (Forall2_length _ _ _ Hc)|].
  intros i d c Hi Hci. destruct (Forall2_lookup_l _ _ _ _ _ Hc Hci) as (l & Hl & Hp).
  apply HP in Hp. rewrite Forall_forall in Hp. apply Hp.
  specialize (Hd i l Hl). apply (f_equal (fun x => x !! j)) in Hd. rewrite !list_lookup_fmap, Hj in Hd.
  simpl in Hd. rewrite Hi in Hd. destruct (l !! j) as [d'|] eqn:Hlj; [|done]. injection Hd as ->.
  by apply list_elem_of_lookup_2 in Hlj.
Qed.

Lemma batch_rows_fit b rows : batch_rows b rows -> Forall (row_fits (rb_schema_with_key b)) rows.
Proof.
  intros (_ & Hb & Hc).
  apply (columns_hold_fits (fun c l => Forall (fun d => datum_fits d c) l) _ (block_data <$> rb_column_blocks b));
    [done| |done].
  apply Forall2_fmap_r. eapply Forall2_impl; [exact Hb|]. by intros c l (_ & H & _).
Qed.

Lemma batch_num_rows b rows : batch_rows b rows -> rb_num_rows b = length rows.
Proof.
  intros (Hne & _ & Hc). unfold rb_num_rows. destruct (rb_column_blocks b) as [|c cs]; [done|].
  rewrite <- block_data_length. by apply (columns_hold_length _ _ 0 _ Hc).
Qed.

Lemma builder_len_rows bb rows : builder_rows bb rows -> bb_len bb = length rows.
Proof.
  intros (Hne & _ & Hc). unfold bb_len. destruct (bb_builders bb) as [|b bs]; [done|].
  rewrite <- (columns_hold_length _ _ 0 _ Hc eq_refl). unfold builder_data. rewrite block_data_length.
  by destruct b.
Qed.

Section laws.
Context {AR : Arrow} {AL : ArrowLaws AR}.

Lemma dict_datum_grow values more k :
  (k < length values)%nat -> dict_datum (values ++ more) (Some k) = dict_datum values (Some k).
Proof. intros H. unfold dict_datum. simpl. by rewrite lookup_app_l. Qed.

Lemma dict_data_grow keys values more :
  keys_ok keys values -> dict_datum (values ++ more) <$> keys = dict_datum values <$> keys.
Proof.
  induction 1 as [|[k|] keys Hk _ IH]; [done| |]; rewrite !fmap_cons, IH; [|done].
  by rewrite dict_datum_grow.
Qed.

(** Appending a fitting value to the builder of a column. *)
Lemma builder_append_ok c b d :
  builder_of c b -> datum_fits d c ->
  exists b', builder_append b d = Ok b' /\ builder_of c b' /\ builder_data b' = builder_data b ++ [d].
Proof.
  intros (Hs & Hf & Hk) Hd. unfold builder_of, builder_data, block_of in *.
  destruct b as [n|k data|keys values]; cbn [builder_build fst block_storage block_data builder_append] in *.
  - assert (d = Datum.Null) as ->.
    { unfold column_storage in Hs. unfold datum_fits in Hd.
      destruct (ColumnSchema.data_type c); try discriminate Hs; [|by destruct (ColumnSchema.is_dictionary c)].
      destruct d; cbn in Hd; congruence. }
    eexists. split; [done|]. cbn [builder_build fst block_storage block_data].
    rewrite replicate_S_end, Forall_app, Forall_singleton. done.
  - assert (Datum.is_null d || bool_decide (Datum.kind d = k) = true) as ->.
    { unfold datum_fits in Hd. destruct (Datum.is_null d); [done|]. apply bool_decide_eq_true.
      rewrite Hd. unfold column_storage in Hs.
      destruct (ColumnSchema.data_type c); try congruence. destruct (ColumnSchema.is_dictionary c); congruence. }
    eexists. split; [done|]. cbn [builder_build fst block_storage block_data].
    rewrite Forall_app, Forall_singleton. done.
  - destruct Hk as [Hk Hn]. assert (Hcase : d = Datum.Null \/ exists v, d = Datum.String v).
    { unfold datum_fits, column_storage in *. destruct (ColumnSchema.data_type c) eqn:Ht; try discriminate Hs.
      destruct d; cbn in Hd; try discriminate; eauto. }
    destruct Hcase as [->|[v ->]].
    + eexists. split; [done|]. cbn [builder_build fst block_storage block_data]. rewrite fmap_app.
      change (dict_datum values <$> [None]) with [Datum.Null].
      rewrite Forall_app, Forall_singleton. split; [|done]. split; [done|]. split; [done|].
      split; [|done]. apply Forall_app. by rewrite Forall_singleton.
    + destruct (dict_append values v) as [values' k] eqn:Hda.
      destruct (dict_append_ok _ _ _ _ Hda) as (Hv & [more ->] & Hnd).
      eexists. split; [done|]. cbn [builder_build fst block_storage block_data]. rewrite fmap_app.
      rewrite dict_data_grow by done.
      assert (dict_datum (values ++ more) <$> [Some k] = [Datum.String v]) as ->
        by (cbn; unfold dict_datum; simpl; by rewrite Hv).
      rewrite Forall_app, Forall_singleton. split; [|done]. split; [done|]. split; [done|].
      split; [|auto]. apply Forall_app. split.
      * eapply Forall_impl; [exact Hk|]. intros [j|]; [|done]. rewrite length_app. lia.
      * apply Forall_singleton. by apply lookup_lt_Some in Hv.
Qed.

Lemma append_all_ok c ds : forall b,
  builder_of c b -> Forall (fun d => datum_fits d c) ds ->
  exists b', append_all b ds = Ok b' /\ builder_of c b' /\ builder_data b' = builder_data b ++ ds.
Proof.
  induction ds as [|d ds IH]; intros b Hb Hd.
  - exists b. by rewrite app_nil_r.
  - apply Forall_cons in Hd as [Hd Hds]. destruct (builder_append_ok c b d Hb Hd) as (b1 & H1 & Hb1 & Hd1).
    destruct (IH b1 Hb1 Hds) as (b2 & H2 & Hb2 & Hd2). exists b2. unfold append_all in *. cbn [rfold].
    rewrite H1. cbn [rbind]. split; [done|]. split; [done|]. by rewrite Hd2, Hd1, <- app_assoc.
Qed.

Lemma append_block_range_ok c b block start n :
  builder_of c b -> block_of c block -> (start + n <= block_num_rows block)%nat ->
  exists b', append_block_range b block start n = Ok b' /\ builder_of c b' /\
    builder_data b' = builder_data b ++ take n (drop start (block_data block)).
Proof.
  intros Hb (Hs & Hf & _) Hr. pose proof Hb as (Hsb & _).
  assert (Hrange : take (Nat.min (start + n) (block_num_rows block) - start) (drop start (block_data block))
                   = take n (drop start (block_data block))) by (f_equal; lia).
  assert (Hfit : Forall (fun d => datum_fits d c) (take n (drop start (block_data block))))
    by (by apply Forall_take, Forall_drop).
  destruct (append_all_ok c _ b Hb Hfit) as (b' & Ha & Hb' & Hd').
  unfold append_block_range. rewrite Hrange. rewrite <- Hs in Hsb.
  destruct b as [m|k data|keys values], block as [m'|k' data'|keys' values']; try discriminate Hsb.
  - cbn [block_num_rows block_data] in *. clear Ha Hb' Hd'.
    rewrite drop_replicate, take_replicate, Nat.min_l in Hfit |- * by lia.
    exists (NullBuilder (m + n)). split; [|split].
    + destruct (Nat.leb_spec m' (start + n)); [|done].
      rewrite (proj2 (Nat.leb_le start m')) by lia. cbn [rassert rbind]. do 2 f_equal. lia.
    + destruct Hb as (Hs1 & Hf1 & _). split; [done|]. split; [|done]. cbn in *.
      rewrite replicate_add. by apply Forall_app.
    + unfold builder_data. cbn. apply replicate_add.
  - cbn in Hsb. injection Hsb as ->. rewrite bool_decide_eq_true_2 by done. eauto.
  - eauto.
Qed.

Lemma zip_append_ok {V} (f : ColumnBlockBuilder -> V -> res ColumnError ColumnBlockBuilder)
    (P : column -> V -> list Datum.t -> Prop) cols bs vs :
  (forall c b v, builder_of c b -> (exists l, P c v l) ->
     exists b' l, P c v l /\ f b v = Ok b' /\ builder_of c b' /\ builder_data b' = builder_data b ++ l) ->
  Forall2 builder_of cols bs -> Forall2 (fun c v => exists l, P c v l) cols vs ->
  exists bs', zip_append f bs vs = Ok bs' /\ Forall2 builder_of cols bs' /\
    forall i b, bs !! i = Some b -> exists c v l b', cols !! i = Some c /\ vs !! i = Some v /\ P c v l /\
      bs' !! i = Some b' /\ builder_data b' = builder_data b ++ l.
Proof.
  intros Hf Hb. revert vs. induction Hb as [|c b cols bs Hb Hbs IH]; intros vs Hv.
  - inversion Hv. subst. by exists [].
  - inversion Hv as [|? v ? vs' Hvl Hvs]; subst.
    destruct (Hf c b v Hb Hvl) as (b' & l & Hp & Hfb & Hb' & Hd).
    destruct (IH vs' Hvs) as (bs' & Hz & Hbs' & Hl). exists (b' :: bs'). cbn [zip_append].
    rewrite Hfb. cbn [rcontext rbind]. rewrite Hz. cbn [rbind]. split; [done|]. split; [by constructor|].
    intros [|i] b0 Hi; cbn in Hi.
    + injection Hi as <-. by exists c, v, l, b'.
    + apply (Hl i b0 Hi).
Qed.

(** Appending to every column what new rows hold there appends the rows. *)
Lemma zip_append_rows {V} (f : ColumnBlockBuilder -> V -> res ColumnError ColumnBlockBuilder)
    (P : column -> V -> list Datum.t -> Prop) bb rows vs new :
  (forall c b v, builder_of c b -> (exists l, P c v l) ->
     exists b' l, P c v l /\ f b v = Ok b' /\ builder_of c b' /\ builder_data b' = builder_data b ++ l) ->
  builder_rows bb rows -> Forall2 (fun c v => exists l, P c v l) (rk_columns (bb_schema_with_key bb)) vs ->
  (forall i c v l, vs !! i = Some v -> P c v l -> Some <$> l = (fun r : row => r !! i) <$> new) ->
  Forall (fun r => length r = length (rk_columns (bb_schema_with_key bb))) new ->
  exists bs', zip_append f (bb_builders bb) vs = Ok bs' /\
    builder_rows (MkBatchBuilder (bb_schema_with_key bb) bs') (rows ++ new).
Proof.
  intros Hf (Hne & HB & [Hlen Hc]) Hv Hnew Hnl.
  destruct (zip_append_ok f P _ _ _ Hf HB Hv) as (bs' & Hz & Hb' & Hl). exists bs'. split; [done|].
  unfold builder_rows. cbn. pose proof (Forall2_length _ _ _ HB) as Hl1.
  pose proof (Forall2_length _ _ _ Hb') as Hl2. rewrite length_fmap in Hlen.
  assert (Hsame : length bs' = length (bb_builders bb)) by lia.
  split; [destruct bs'; [destruct (bb_builders bb); done|done]|]. split; [done|]. split.
  - rewrite length_fmap, Hsame. apply Forall_app. split; [done|]. by rewrite <- Hl1.
  - intros i l Hi. rewrite list_lookup_fmap in Hi.
    destruct (bs' !! i) as [b'|] eqn:Hbi; [|done]. injection Hi as <-.
    destruct (lookup_lt_is_Some_2 (bb_builders bb) i) as [b Hbb].
    { rewrite <- Hsame. by eapply lookup_lt_Some. }
    destruct (Hl i b Hbb) as (c & v & l & b'' & _ & Hvi & HP & Hb'' & Hdata).
    rewrite Hbi in Hb''. injection Hb'' as ->. rewrite Hdata, !fmap_app. f_equal.
    + apply Hc. by rewrite list_lookup_fmap, Hbb.
    + by apply (Hnew i c v l).
Qed.

(** [append_row] of a fitting row. *)
Lemma append_row_ok bb rows r :
  builder_rows bb rows -> row_fits (bb_schema_with_key bb) r ->
  exists bb', append_row bb r = Ok bb' /\ builder_rows bb' (rows ++ [r]) /\
    bb_schema_with_key bb' = bb_schema_with_key bb.
Proof.
  intros HR Hr. unfold append_row.
  destruct (zip_append_rows builder_append (fun c d l => datum_fits d c /\ l = [d]) bb rows r [r])
    as (bs' & Hz & Hb'); auto.
  - intros c b d Hbc (l & Hd & _). destruct (builder_append_ok c b d Hbc Hd) as (b' & ? & ? & ?).
    exists b', [d]. auto.
  - apply Forall2_flip. eapply Forall2_impl; [exact Hr|]. intros d c Hd. by exists [d].
  - intros i c d l Hi (_ & ->). cbn. by rewrite Hi.
  - apply Forall_singleton. by apply Forall2_length in Hr.
  - rewrite Hz. cbn [rbind]. eauto.
Qed.

(** The value of a column of a row of a batch. *)
Lemma batch_datum b rows idx r i blk :
  batch_rows b rows -> rows !! idx = Some r -> rb_column_blocks b !! i = Some blk ->
  datum_opt blk idx = r !! i.
Proof.
  intros (_ & _ & _ & Hc) Hr Hb. unfold datum_opt.
  specialize (Hc i (block_data blk)). rewrite list_lookup_fmap, Hb in Hc. specialize (Hc eq_refl).
  apply (f_equal (fun l => l !! idx)) in Hc. rewrite !list_lookup_fmap, Hr in Hc. cbn in Hc.
  destruct (block_data blk !! idx) eqn:Hd; cbn in Hc; [congruence|done].
Qed.

Lemma batch_row_length b rows idx r :
  batch_rows b rows -> rows !! idx = Some r -> length r = length (rb_column_blocks b).
Proof.
  intros (_ & _ & Hlen & _) Hr. rewrite length_fmap in Hlen. rewrite Forall_forall in Hlen.
  apply list_elem_of_lookup_2 in Hr. by apply Hlen.
Qed.

Lemma columns_until_row blocks idx r : forall off,
  (forall i blk, blocks !! i = Some blk -> datum_opt blk idx = r !! (off + i)%nat) ->
  (off + length blocks = length r)%nat -> columns_until blocks idx = drop off r.
Proof.
  induction blocks as [|blk blocks IH]; intros off H Hlen; cbn [columns_until length] in *.
  - rewrite drop_ge; [done|lia].
  - rewrite (H 0%nat blk eq_refl), Nat.add_0_r.
    destruct (lookup_lt_is_Some_2 r off) as [d Hd]; [lia|]. rewrite Hd, (drop_S _ _ _ Hd).
    f_equal. apply IH; [|lia]. intros i blk' Hi. rewrite (H (S i) blk' Hi). f_equal. lia.
Qed.

Lemma iter_columns_row b rows idx r :
  batch_rows b rows -> rows !! idx = Some r -> iter_columns (MkRowView b idx) = r.
Proof.
  intros Hb Hr. unfold iter_columns. cbn. rewrite (columns_until_row _ _ r 0); [by rewrite drop_0| |].
  - intros i blk Hi. by apply (batch_datum b rows).
  - symmetry. by apply (batch_row_length b rows idx).
Qed.

Lemma column_by_idx_row {E} b rows idx r i :
  batch_rows b rows -> rows !! idx = Some r -> @column_by_idx E (MkRowView b idx) i = unwrap (r !! i).
Proof.
  intros Hb Hr. unfold column_by_idx, rb_column. cbn.
  destruct (rb_column_blocks b !! i) as [blk|] eqn:Hi; cbn [unwrap rbind].
  - unfold block_datum. by rewrite (batch_datum b rows idx r i blk).
  - rewrite lookup_ge_None_2; [done|]. rewrite (batch_row_length b rows idx r) by done.
    by apply lookup_ge_None.
Qed.

Lemma rmap_ok {E A B} (f : A -> res E B) l l' :
  Forall2 (fun a b => f a = Ok b) l l' -> rmap f l = Ok l'.
Proof. induction 1 as [|a b l l' Ha _ IH]; cbn [rmap]; [done|]. by rewrite Ha, IH. Qed.

Lemma clone_row_at_ok {E} b rows idx r :
  batch_rows b rows -> rows !! idx = Some r -> @clone_row_at E b idx = Ok r.
Proof.
  intros Hb Hr. apply rmap_ok. apply Forall2_same_length_lookup.
  rewrite (batch_row_length b rows idx r) by done. split; [done|]. intros i blk d Hi Hd.
  unfold block_datum. rewrite (batch_datum b rows idx r i blk) by done. by rewrite Hd.
Qed.

Lemma append_row_view_ok bb R b rows idx r :
  builder_rows bb R -> batch_rows b rows -> rb_schema_with_key b = bb_schema_with_key bb ->
  rows !! idx = Some r ->
  exists bb', append_row_view bb (MkRowView b idx) = Ok bb' /\ builder_rows bb' (R ++ [r]) /\
    bb_schema_with_key bb' = bb_schema_with_key bb.
Proof.
  intros HR Hb Hs Hr. unfold append_row_view. rewrite (iter_columns_row b rows idx r) by done.
  apply append_row_ok; [done|]. pose proof (batch_rows_fit b rows Hb) as Hfit.
  rewrite Forall_forall, Hs in Hfit. apply list_elem_of_lookup_2 in Hr. by apply Hfit.
Qed.

Lemma take_min_drop {A} (l : list A) start n :
  take n (drop start l) = take (Nat.min (length l - start) n) (drop start l).
Proof.
  rewrite <- (take_take (drop start l)). rewrite (take_ge _ (length l - start)); [done|].
  rewrite length_take, length_drop. lia.
Qed.

Lemma batch_block b rows i c blk :
  batch_rows b rows -> rk_columns (rb_schema_with_key b) !! i = Some c ->
  rb_column_blocks b !! i = Some blk -> block_of c blk /\ block_num_rows blk = length rows.
Proof.
  intros (_ & HB & Hc) Hci Hbi. split; [by apply (Forall2_lookup_lr _ _ _ _ _ _ HB Hci Hbi)|].
  rewrite <- block_data_length. apply (columns_hold_length _ _ i _ Hc). by rewrite list_lookup_fmap, Hbi.
Qed.

Lemma append_batch_range_ok bb R b rows start n :
  builder_rows bb R -> batch_rows b rows -> rb_schema_with_key b = bb_schema_with_key bb ->
  exists bb', append_batch_range bb b start n = Ok (bb', Nat.min (length rows - start) n) /\
    builder_rows bb' (R ++ take n (drop start rows)) /\ bb_schema_with_key bb' = bb_schema_with_key bb.
Proof.
  intros HR Hb Hs. unfold append_batch_range. rewrite (batch_num_rows b rows Hb).
  destruct (Nat.leb_spec (length rows) start) as [Hge|Hlt].
  { exists bb. rewrite drop_ge, take_nil, app_nil_r by lia. split; [do 2 f_equal; lia|]. done. }
  rewrite take_min_drop. set (m := Nat.min (length rows - start) n).
  destruct (zip_append_rows (fun b c => append_block_range b c start m)
              (fun c blk l => block_of c blk /\ block_num_rows blk = length rows /\
                              l = take m (drop start (block_data blk)))
              bb R (rb_column_blocks b) (take m (drop start rows))) as (bs' & Hz & Hb'); auto.
  - intros c bld blk Hbc' (l & Hblk & Hn & ->).
    destruct (append_block_range_ok c bld blk start m) as (b' & ? & ? & ?); auto; [lia|].
    exists b', (take m (drop start (block_data blk))). auto.
  - rewrite <- Hs. apply Forall2_same_length_lookup. split; [by eapply Forall2_length, Hb|].
    intros i c blk Hci Hbi. destruct (batch_block b rows i c blk Hb Hci Hbi). eauto.
  - intros i c blk l Hi (_ & _ & ->). rewrite !fmap_take, !fmap_drop. do 2 f_equal.
    apply Hb. by rewrite list_lookup_fmap, Hi.
  - apply Forall_take, Forall_drop. rewrite <- Hs.
    eapply Forall_impl; [exact (batch_rows_fit b rows Hb)|]. intros r Hr. by apply Forall2_length in Hr.
  - rewrite Hz. cbn [rbind]. eauto.
Qed.

Lemma builder_clear_of c b : builder_of c b -> builder_of c (builder_clear b) /\ builder_data (builder_clear b) = [].
Proof.
  intros (Hs & _ & _). destruct b; (split; [|done]); (split; [done|]); (split; [constructor|]); try done.
  split; [constructor|apply NoDup_nil_2].
Qed.

Lemma columns_hold_nil data : Forall (fun l => l = []) data -> columns_hold data [].
Proof.
  intros H. split; [constructor|]. intros i l Hi. rewrite Forall_forall in H.
  apply list_elem_of_lookup_2 in Hi. by rewrite (H l Hi).
Qed.

Lemma batch_builder_new_rows rk : rk_columns rk <> [] -> builder_rows (batch_builder_new rk) [].
Proof.
  intros Hne. unfold builder_rows, batch_builder_new. cbn. split; [by destruct (rk_columns rk)|].
  assert (Hnew : forall c, builder_of c (with_capacity (ColumnSchema.data_type c) (ColumnSchema.is_dictionary c)) /\
            builder_data (with_capacity (ColumnSchema.data_type c) (ColumnSchema.is_dictionary c)) = []).
  { intros c. unfold builder_of, block_of, builder_data, column_storage, with_capacity.
    destruct (ColumnSchema.data_type c); cbn; try destruct (ColumnSchema.is_dictionary c); cbn;
      repeat split; try constructor. }
  split.
  - apply Forall2_fmap_r, Forall_Forall2_diag, Forall_forall. intros c _. apply Hnew.
  - apply columns_hold_nil. apply Forall_fmap, Forall_fmap, Forall_forall. intros c _. apply Hnew.
Qed.

Lemma bb_clear_rows bb rows : builder_rows bb rows -> builder_rows (bb_clear bb) [].
Proof.
  intros (Hne & HB & _). unfold builder_rows, bb_clear. cbn. split; [by destruct (bb_builders bb)|]. split.
  - apply Forall2_fmap_r. eapply Forall2_impl; [exact HB|]. intros c b Hb. by apply builder_clear_of.
  - apply columns_hold_nil. apply Forall_fmap, Forall_fmap, Forall_forall. intros b Hb.
    apply list_elem_of_lookup in Hb as [i Hi]. destruct (Forall2_lookup_r _ _ _ _ _ HB Hi) as (c & _ & Hc).
    by apply (builder_clear_of c).
Qed.

Lemma bb_build_ok bb rows :
  builder_rows bb rows ->
  exists b, bb_build bb = Ok (b, bb_clear bb) /\ batch_rows b rows /\
    rb_schema_with_key b = bb_schema_with_key bb.
Proof.
  intros (Hne & HB & Hc). unfold bb_build. set (blocks := (fun b => (builder_build b).1) <$> bb_builders bb).
  assert (Hblocks : Forall2 block_of (rk_columns (bb_schema_with_key bb)) blocks).
  { apply Forall2_fmap_r. exact HB. }
  assert (Hdata : block_data <$> blocks = builder_data <$> bb_builders bb).
  { unfold blocks. by rewrite <- list_fmap_compose. }
  rewrite (arrow_try_new_ok (length rows)); auto.
  - cbn [ensure rbind]. eexists. split; [done|]. split; [|done]. unfold batch_rows. cbn.
    rewrite Hdata. split; [by destruct (bb_builders bb)|done].
  - intros Hnil. rewrite Hnil in HB. by inversion HB as [Hx Hy|]; destruct (bb_builders bb).
  - apply Forall_forall. intros blk Hblk. apply list_elem_of_lookup in Hblk as [i Hi].
    rewrite <- block_data_length. apply (columns_hold_length (builder_data <$> bb_builders bb) rows i); [done|].
    by rewrite <- Hdata, list_lookup_fmap, Hi.
Qed.

Lemma block_slice_ok {E} c blk off n :
  block_of c blk -> (off + n <= block_num_rows blk)%nat ->
  exists blk', @block_slice E blk off n = Ok blk' /\ block_of c blk' /\
    block_data blk' = take n (drop off (block_data blk)).
Proof.
  intros (Hs & Hf & Hk) Hn. unfold block_slice. rewrite (proj2 (Nat.leb_le _ _)) by done. cbn [rassert rbind].
  eexists. split; [done|].
  assert (Hdata : block_data match blk with
      | NullBlock _ => NullBlock n
      | PlainBlock k data => PlainBlock k (take n (drop off data))
      | StringDictionary keys values => StringDictionary (take n (drop off keys)) values
      end = take n (drop off (block_data blk))).
  { destruct blk; cbn in *; [|done|by rewrite fmap_take, fmap_drop].
    rewrite drop_replicate, take_replicate. f_equal. lia. }
  split; [|done]. split; [by destruct blk|]. split.
  - rewrite Hdata. by apply Forall_take, Forall_drop.
  - destruct blk; [done|done|]. destruct Hk as [Hk Hnd]. split; [|done]. by apply Forall_take, Forall_drop.
Qed.

Lemma rb_slice_ok {E} b rows off n :
  batch_rows b rows -> (off + n <= length rows)%nat ->
  exists b', @rb_slice E b off n = Ok b' /\ batch_rows b' (take n (drop off rows)) /\
    rb_schema_with_key b' = rb_schema_with_key b.
Proof.
  intros Hb Hn. pose proof Hb as (Hne & HB & [Hlen Hc]). unfold rb_slice.
  assert (exists blocks, rmap (fun c => @block_slice E c off n) (rb_column_blocks b) = Ok blocks /\
            Forall2 block_of (rk_columns (rb_schema_with_key b)) blocks /\
            block_data <$> blocks = (fun l => take n (drop off l)) <$> (block_data <$> rb_column_blocks b))
    as (blocks & -> & HB' & Hdata).
  { assert (Hnum : Forall (fun blk => (off + n <= block_num_rows blk)%nat) (rb_column_blocks b)).
    { apply Forall_forall. intros blk Hblk. apply list_elem_of_lookup in Hblk as [i Hi].
      destruct (Forall2_lookup_r _ _ _ _ _ HB Hi) as (c & Hci & _).
      destruct (batch_block b rows i c blk Hb Hci Hi). lia. }
    clear -HB Hnum. induction HB as [|c blk cs blks Hblk _ IH]; [by exists []|].
    apply Forall_cons in Hnum as [Hn1 Hn2]. destruct (IH Hn2) as (blocks & H1 & H2 & H3).
    destruct (block_slice_ok (E:=E) c blk off n Hblk Hn1) as (blk' & Hs & Ho & Hd).
    exists (blk' :: blocks). cbn [rmap]. rewrite Hs. cbn [rbind]. rewrite H1. cbn [rbind].
    split; [done|]. split; [by constructor|]. rewrite !fmap_cons, Hd. by rewrite H3. }
  cbn [rbind]. eexists. split; [done|]. split; [|done]. unfold batch_rows. cbn. split; [|split; [done|]].
  - intros ->. inversion HB' as [Hx|]. rewrite <- Hx in HB. inversion HB as [Hz Hy|]. by rewrite <- Hy in Hne.
  - rewrite Hdata. split.
    + apply Forall_take, Forall_drop. by rewrite length_fmap.
    + intros i l Hi. rewrite list_lookup_fmap in Hi.
      destruct ((block_data <$> rb_column_blocks b) !! i) as [l0|] eqn:Hl0; [|done]. injection Hi as <-.
      rewrite !fmap_take, !fmap_drop. by rewrite (Hc i l0 Hl0).
Qed.
End laws.

(** ** An arrow library *)

(** Record batches of as many arrays as there are fields, dictionaries searched
    from the front. *)
Fixpoint dict_position (v : bytes) (values : list bytes) : option nat :=
  match values with
  | [] => None
  | v' :: values => if decide (v' = v) then Some 0%nat else S <$> dict_position v values
  end.
Definition demo_arrow : Arrow := {|
  arrow_try_new := fun cols blocks => (length cols =? length blocks)%nat;
  null_slot := fun _ => Datum.Null;
  dict_append := fun values v =>
    match dict_position v values with Some k => (values, k) | None => (values ++ [v], length values) end
|}.

Lemma dict_position_spec v values :
  match dict_position v values with Some k => values !! k = Some v | None => v ∉ values end.
Proof.
  induction values as [|v' values IH]; cbn [dict_position]; [set_solver|]. case_decide as Hv; [by subst|].
  destruct (dict_position v values); [done|]. cbn [fmap option_fmap option_map]. set_solver.
Qed.

Lemma demo_arrow_laws : ArrowLaws demo_arrow.
Proof.
  split; cbn [arrow_try_new dict_append demo_arrow].
  - intros n cols blocks _ H _. apply Nat.eqb_eq. by apply Forall2_length in H.
  - intros values v values' k. pose proof (dict_position_spec v values) as H.
    destruct (dict_position v values) as [k0|]; intros [= <- <-].
    + split; [done|]. split; [exists []; by rewrite app_nil_r|done].
    + split; [by rewrite list_lookup_middle|]. split; [by exists [v]|]. intros Hnd. apply NoDup_app.
      split; [done|]. split; [set_solver|apply NoDup_singleton].
Qed.
