(* ===== verification/MemKey.v ===== *)
(** * Memtable keys

    Models [analytic_engine/src/memtable/key.rs]: the internal key of a row in
    a memtable is its user key (the mem-comparable encodings of the primary key
    columns) followed by its sequence number and row index, both counted down
    from the maximum so that newer rows come first.  The file proves that the
    byte order of internal keys is the order of the rows by primary key, then by
    sequence and row index descending, and that user keys are prefix-free. *)

From Stdlib Require Import ZArith Lia Sorted.
From stdpp Require Import base tactics option list numbers strings gmap sets.
From S2P Require Import Prelude Bytes Datum MemComparable Schema.

#[local] Open Scope Z_scope.

Definition KEY_SEQUENCE_BYTES_LEN : nat := 12.

Inductive MemKeyError :=
| EncodeKeyDatum (e : MemComparableError)
| EncodeSequence (e : BytesError)
| EncodeIndex (e : BytesError)
| DecodeSequence (e : BytesError)
| DecodeIndex (e : BytesError)
| InternalKeyLen (len : nat).

(** [KeySequence]: the sequence number ([u64]) and the row index ([u32]). *)
Record KeySequence := MkKeySequence { ks_sequence : Z; ks_row_index : Z }.
#[global] Instance key_sequence_eq_dec : EqDecision KeySequence.
Proof. solve_decision. Defined.

Definition encode_sequence_number (buf : wbuf) (sequence : Z) : res MemKeyError wbuf :=
  let reversed_sequence := u64_max - sequence in
  rcontext EncodeSequence (try_put_u64 buf reversed_sequence).

(** [SequenceCodec]. *)
Definition encode_sequence (buf : wbuf) (value : KeySequence) : res MemKeyError wbuf :=
  let? buf := encode_sequence_number buf (ks_sequence value) in
  let reversed_index := u32_max - ks_row_index value in
  rcontext EncodeIndex (try_put_u32 buf reversed_index).
Definition decode_sequence (buf : bytes) : res MemKeyError (KeySequence * bytes) :=
  let? (sequence, buf) := rcontext DecodeSequence (try_get_u64 buf) in
  let sequence := u64_max - sequence in
  let? (row_index, buf) := rcontext DecodeIndex (try_get_u32 buf) in
  let row_index := u32_max - row_index in
  Ok (MkKeySequence sequence row_index, buf).

(** [ComparableInternalKey::encode]. *)
Definition encode_key_column (value : row) (buf : wbuf) (idx : nat) : res MemKeyError wbuf :=
  let? d := unwrap (value !! idx) in
  rcontext EncodeKeyDatum (encode_datum buf d).
Definition encode_internal_key (sequence : KeySequence) (s : Schema) (buf : wbuf) (value : row)
  : res MemKeyError wbuf :=
  let? buf := rfold (encode_key_column value) (primary_key_indexes s) buf in
  encode_sequence buf sequence.

Definition estimate_internal_key {E} (s : Schema) (value : row) : res E Z :=
  let? total_len := rfold (fun total_len idx =>
      let? d := unwrap (value !! idx) in u64_op (total_len + estimate_encoded_size d))
    (primary_key_indexes s) 0 in
  u64_op (total_len + Z.of_nat KEY_SEQUENCE_BYTES_LEN).

(** [internal_key_for_seek]: the scratch buffer is cleared first. *)
Definition internal_key_for_seek (user_key : bytes) (sequence : Z) (scratch : wbuf)
  : res MemKeyError bytes :=
  let scratch := Wbuf [] (wb_max scratch) in
  let scratch := put scratch user_key in
  let? scratch := encode_sequence_number scratch sequence in
  Ok (wb_data scratch).

(** [user_key_from_internal_key]. *)
Definition user_key_from_internal_key (internal_key : bytes) : res MemKeyError (bytes * KeySequence) :=
  let? _ := ensure (KEY_SEQUENCE_BYTES_LEN <? length internal_key)%nat (InternalKeyLen (length internal_key)) in
  let mid := (length internal_key - KEY_SEQUENCE_BYTES_LEN)%nat in
  let left := take mid internal_key in
  let right := drop mid internal_key in
  let? (sequence, _) := decode_sequence right in
  Ok (left, sequence).

(** ** The bytes of a key *)
Definition ks_ok (ks : KeySequence) : Prop := uint 64 (ks_sequence ks) /\ uint 32 (ks_row_index ks).
Definition sequence_bytes (seq : Z) : bytes := be_bytes 8 (u64_max - seq).
Definition ks_bytes (ks : KeySequence) : bytes :=
  sequence_bytes (ks_sequence ks) ++ be_bytes 4 (u32_max - ks_row_index ks).
Definition user_key (pk : list nat) (r : row) : bytes := concat (datum_bytes <$> omap (fun i => r !! i) pk).
Definition internal_key (pk : list nat) (r : row) (ks : KeySequence) : bytes :=
  user_key pk r ++ ks_bytes ks.

(** The key columns of a row hold values of their key kinds. *)
Definition key_row (cols : list column) (pk : list nat) (r : row) : Prop :=
  Forall (fun i => exists c d, cols !! i = Some c /\ r !! i = Some d /\ key_datum (ColumnSchema.data_type c) d) pk.

Lemma schema_key_row s r :
  schema_wf s -> row_ok s r -> Forall Datum.ok r -> key_row (columns s) (primary_key_indexes s) r.
Proof.
  intros Hwf Hr Hd. apply Forall_forall. intros i Hi.
  destruct (wf_keys _ Hwf i Hi) as (c & Hc & Hk & Hn).
  destruct (Forall2_lookup_r _ _ _ _ _ Hr Hc) as (d & Hrd & Hfit).
  exists c, d. split; [done|]. split; [done|]. rewrite Forall_forall in Hd.
  split; [by apply Hd, list_elem_of_lookup_2 with i|]. unfold datum_fits in Hfit.
  destruct (Datum.is_null d) eqn:Hnull; [congruence|]. rewrite <- Hfit in Hk |- *.
  split; [|by right]. by destruct d.
Qed.

Lemma user_key_cons pk r i d : r !! i = Some d -> user_key (i :: pk) r = datum_bytes d ++ user_key pk r.
Proof. intros H. unfold user_key. cbn [omap list_omap]. by rewrite H. Qed.

(** Comparing user keys, whatever follows them, compares the rows. *)
Lemma user_key_order cols pk r1 r2 :
  key_row cols pk r1 -> key_row cols pk r2 ->
  exists c, compare_row pk r1 r2 = Ok c /\
    forall x y, bytes_cmp (user_key pk r1 ++ x) (user_key pk r2 ++ y) = cmp_then c (bytes_cmp x y).
Proof.
  intros H1 H2. induction H1 as [|i pk (c & d1 & Hc & Hd1 & Hk1) _ IH].
  - by exists Eq.
  - apply Forall_cons in H2 as [(c' & d2 & Hc' & Hd2 & Hk2) H2]. rewrite Hc in Hc'. injection Hc' as <-.
    destruct (IH H2) as (rest & Hrest & Hb). exists (cmp_then (datum_cmp d1 d2) rest).
    cbn [compare_row]. rewrite Hd1, Hd2. cbn [unwrap rbind].
    rewrite (key_datum_comparable _ d1 d2 Hk1 Hk2). cbn [unwrap rbind]. split.
    + rewrite Hrest. by destruct (datum_cmp d1 d2).
    + intros x y. rewrite (user_key_cons pk r1 i d1), (user_key_cons pk r2 i d2) by done.
      rewrite <- !app_assoc.
      rewrite (order_code (enc:=datum_bytes) (dom:=key_datum (ColumnSchema.data_type c)) d1 d2) by done.
      rewrite Hb. by destruct (datum_cmp d1 d2).
Qed.

(** Rows compare as their user keys do. *)
Lemma compare_row_user_key cols pk r1 r2 :
  key_row cols pk r1 -> key_row cols pk r2 ->
  compare_row pk r1 r2 = Ok (bytes_cmp (user_key pk r1) (user_key pk r2)).
Proof.
  intros H1 H2. destruct (user_key_order cols pk r1 r2 H1 H2) as (c & Hc & Hb).
  specialize (Hb [] []). rewrite !app_nil_r in Hb. rewrite Hc, Hb. by destruct c.
Qed.

(** ** Key sequences *)
Lemma length_ks_bytes ks : length (ks_bytes ks) = KEY_SEQUENCE_BYTES_LEN.
Proof. unfold ks_bytes, sequence_bytes. by rewrite length_app, !length_be_bytes. Qed.

Lemma sequence_bytes_order a b x y :
  uint 64 a -> uint 64 b ->
  bytes_cmp (sequence_bytes a ++ x) (sequence_bytes b ++ y) = cmp_then (b ?= a) (bytes_cmp x y).
Proof.
  intros Ha Hb. unfold sequence_bytes.
  rewrite (order_code (OrderCode:=be_bytes_order 8) (u64_max - a) (u64_max - b)) by (unfold uint, u64_max in *; lia).
  f_equal. destruct (Z.compare_spec (u64_max - a) (u64_max - b)), (Z.compare_spec b a); done || lia.
Qed.

Lemma ks_bytes_order a b x y :
  ks_ok a -> ks_ok b ->
  bytes_cmp (ks_bytes a ++ x) (ks_bytes b ++ y) =
  cmp_then (ks_sequence b ?= ks_sequence a)
    (cmp_then (ks_row_index b ?= ks_row_index a) (bytes_cmp x y)).
Proof.
  intros [Ha1 Ha2] [Hb1 Hb2]. unfold ks_bytes. rewrite <- !app_assoc, sequence_bytes_order by done.
  f_equal. rewrite (order_code (OrderCode:=be_bytes_order 4)) by (unfold uint, u32_max in *; lia).
  f_equal. destruct (Z.compare_spec (u32_max - ks_row_index a) (u32_max - ks_row_index b)),
    (Z.compare_spec (ks_row_index b) (ks_row_index a)); done || lia.
Qed.

Lemma decode_sequence_reads ks : ks_ok ks -> reads decode_sequence (ks_bytes ks) ks.
Proof.
  intros [H1 H2] rest. unfold decode_sequence, ks_bytes, sequence_bytes. rewrite <- app_assoc.
  rewrite reads_u64 by (unfold uint, u64_max in *; lia). cbn [rcontext rbind].
  rewrite reads_u32 by (unfold uint, u32_max in *; lia). cbn [rcontext rbind].
  do 2 f_equal. destruct ks as [q i]; cbn [ks_sequence ks_row_index]. f_equal; lia.
Qed.

Lemma encode_sequence_writes ks : writes (fun b => encode_sequence b ks) (ks_bytes ks).
Proof.
  apply (writes_bind (fun b => encode_sequence_number b (ks_sequence ks))
           (fun b => rcontext EncodeIndex (try_put_u32 b (u32_max - ks_row_index ks))));
    apply writes_context, writes_try_put.
Qed.

Lemma user_key_split k ks :
  k <> [] -> ks_ok ks -> user_key_from_internal_key (k ++ ks_bytes ks) = Ok (k, ks).
Proof.
  intros Hk Hks. unfold user_key_from_internal_key. rewrite length_app, length_ks_bytes.
  assert (0 < length k)%nat by (destruct k; [done|simpl; lia]).
  rewrite (proj2 (Nat.ltb_lt _ _)) by lia. cbn [ensure rbind].
  replace (length k + KEY_SEQUENCE_BYTES_LEN - KEY_SEQUENCE_BYTES_LEN)%nat with (length k) by lia.
  rewrite take_app_length, drop_app_length. rewrite <- (app_nil_r (ks_bytes ks)).
  rewrite (decode_sequence_reads ks Hks []). done.
Qed.

Lemma encode_columns_writes cols pk r :
  pk <> [] -> key_row cols pk r ->
  writes (fun b => rfold (encode_key_column r) pk b) (user_key pk r).
Proof.
  intros Hne H. induction H as [|i pk (c & d & Hc & Hd & Hk) Hpk IH]; [done|].
  rewrite (user_key_cons pk r i d Hd).
  assert (Hw : writes (fun b => encode_key_column r b i) (datum_bytes d)).
  { apply (writes_ext (fun b => rcontext EncodeKeyDatum (encode_datum b d)));
      [|apply writes_context, encode_datum_writes, Hk].
    intros b. unfold encode_key_column. by rewrite Hd. }
  destruct pk as [|j pk].
  - eapply writes_ext; [|unfold user_key; cbn; rewrite app_nil_r; exact Hw].
    intros b. cbn [rfold]. by destruct (encode_key_column r b i).
  - eapply writes_ext; [|apply (writes_bind (fun b => encode_key_column r b i) _ _ _ Hw (IH ltac:(done)))].
    intros b. done.
Qed.

Lemma encode_internal_key_writes s r ks :
  schema_wf s -> key_row (columns s) (primary_key_indexes s) r ->
  writes (fun b => encode_internal_key ks s b r) (internal_key (primary_key_indexes s) r ks).
Proof.
  intros Hwf Hr.
  apply (writes_bind (fun b => rfold (encode_key_column r) (primary_key_indexes s) b)
           (fun b => encode_sequence b ks)); [|apply encode_sequence_writes].
  apply (encode_columns_writes (columns s)); [|done].
  pose proof (proj1 (wf_timestamp _ Hwf _) eq_refl) as [Hin _]. destruct (primary_key_indexes s); [|done].
  by apply elem_of_nil in Hin.
Qed.

Lemma user_key_nonempty cols pk r : pk <> [] -> key_row cols pk r -> user_key pk r <> [].
Proof.
  intros Hne H. destruct H as [|i pk (c & d & _ & Hd & Hk) _]; [done|].
  rewrite (user_key_cons pk r i d Hd). intros Hnil. apply app_eq_nil in Hnil as [Hnil _].
  revert Hnil. apply datum_bytes_nonempty, Hk.
Qed.

Lemma schema_pk_nonempty s : schema_wf s -> primary_key_indexes s <> [].
Proof.
  intros Hwf Hnil. pose proof (proj1 (wf_timestamp _ Hwf _) eq_refl) as [Hin _].
  rewrite Hnil in Hin. by apply elem_of_nil in Hin.
Qed.

Lemma internal_key_cmp cols pk r1 r2 ks1 ks2 :
  key_row cols pk r1 -> key_row cols pk r2 -> ks_ok ks1 -> ks_ok ks2 ->
  bytes_cmp (internal_key pk r1 ks1) (internal_key pk r2 ks2) =
  cmp_then (bytes_cmp (user_key pk r1) (user_key pk r2))
    (cmp_then (ks_sequence ks2 ?= ks_sequence ks1) (ks_row_index ks2 ?= ks_row_index ks1)).
Proof.
  intros H1 H2 K1 K2. destruct (user_key_order cols pk r1 r2 H1 H2) as (c & _ & Hb).
  pose proof (Hb [] []) as Hc. rewrite !app_nil_r in Hc. unfold internal_key. rewrite Hb, Hc.
  rewrite <- (app_nil_r (ks_bytes ks1)), <- (app_nil_r (ks_bytes ks2)), ks_bytes_order by done.
  destruct c, (ks_sequence ks2 ?= ks_sequence ks1), (ks_row_index ks2 ?= ks_row_index ks1); done.
Qed.

(** The seek key of a user key lies before its versions that the sequence can
    see and after the newer ones. *)
Lemma seek_key_cmp cols pk r1 r2 ks seq :
  key_row cols pk r1 -> key_row cols pk r2 -> ks_ok ks -> uint 64 seq ->
  bytes_cmp (internal_key pk r1 ks) (user_key pk r2 ++ sequence_bytes seq) =
  cmp_then (bytes_cmp (user_key pk r1) (user_key pk r2))
    (if ks_sequence ks <=? seq then Gt else Lt).
Proof.
  intros H1 H2 [K1 K2] Hs. destruct (user_key_order cols pk r1 r2 H1 H2) as (c & _ & Hb).
  pose proof (Hb [] []) as Hc. rewrite !app_nil_r in Hc. unfold internal_key. rewrite Hb, Hc.
  unfold ks_bytes. rewrite <- (app_nil_r (sequence_bytes seq)), sequence_bytes_order by done.
  destruct c; cbn [cmp_then]; [|done|done].
  destruct (Z.compare_spec seq (ks_sequence ks)), (Z.leb_spec (ks_sequence ks) seq); try lia; done.
Qed.

Lemma internal_key_for_seek_ok k seq b :
  len k + 8 <= wb_max b -> internal_key_for_seek k seq b = Ok (k ++ sequence_bytes seq).
Proof.
  intros Hk. unfold internal_key_for_seek, encode_sequence_number, try_put_u64.
  rewrite (writes_room _ _ _ (writes_try_put (be_bytes 8 (u64_max - seq)))); [done|].
  rewrite length_be_bytes. unfold remaining_mut. cbn [wb_max wb_data put app]. lia.
Qed.

(** ** Properties *)

(** C16. The byte order of internal keys is the order of the memtable: for two
    rows of a table, encoding succeeds in a fresh buffer whenever the key is
    within its capacity; the encodings compare as the rows do by primary key,
    then by sequence number descending, then by row index descending; and an
    internal key splits back into its user key and its sequence. *)
Theorem internal_key_order s r1 r2 ks1 ks2 :
  schema_wf s -> row_ok s r1 -> row_ok s r2 -> Forall Datum.ok r1 -> Forall Datum.ok r2 ->
  ks_ok ks1 -> ks_ok ks2 ->
  exists u1 u2 k1 k2 c,
    (forall b, len k1 <= remaining_mut b -> encode_internal_key ks1 s b r1 = Ok (put b k1)) /\
    (forall b, len k2 <= remaining_mut b -> encode_internal_key ks2 s b r2 = Ok (put b k2)) /\
    compare_row (primary_key_indexes s) r1 r2 = Ok c /\ bytes_cmp u1 u2 = c /\
    bytes_cmp k1 k2 =
      cmp_then c (cmp_then (ks_sequence ks2 ?= ks_sequence ks1) (ks_row_index ks2 ?= ks_row_index ks1)) /\
    user_key_from_internal_key k1 = Ok (u1, ks1) /\ user_key_from_internal_key k2 = Ok (u2, ks2).
Proof.
  intros Hwf Hr1 Hr2 Hd1 Hd2 K1 K2. set (pk := primary_key_indexes s).
  pose proof (schema_key_row s r1 Hwf Hr1 Hd1) as H1. pose proof (schema_key_row s r2 Hwf Hr2 Hd2) as H2.
  exists (user_key pk r1), (user_key pk r2), (internal_key pk r1 ks1), (internal_key pk r2 ks2),
    (bytes_cmp (user_key pk r1) (user_key pk r2)).
  split; [intros b; apply (writes_room (fun o => encode_internal_key ks1 s o r1)); by apply encode_internal_key_writes|].
  split; [intros b; apply (writes_room (fun o => encode_internal_key ks2 s o r2)); by apply encode_internal_key_writes|].
  split; [by apply (compare_row_user_key (columns s))|]. split; [done|].
  split; [by apply (internal_key_cmp (columns s))|].
  split; apply user_key_split; auto; apply (user_key_nonempty (columns s)); auto; by apply schema_pk_nonempty.
Qed.

Lemma internal_key_order_witness :
  exists k1 k2, bytes_cmp k1 k2 = Lt /\
    is_ok (user_key_from_internal_key k1) /\ is_ok (user_key_from_internal_key k2).
Proof.
  destruct (internal_key_order the_demo
              [Datum.String [97]; Datum.Timestamp 5; Datum.Null] [Datum.String [97]; Datum.Timestamp 5; Datum.Null]
              (MkKeySequence 9 0) (MkKeySequence 8 3)) as (u1 & u2 & k1 & k2 & c & _ & _ & Hc & _ & Hk & S1 & S2).
  - exact the_demo_wf.
  - repeat constructor.
  - repeat constructor.
  - repeat constructor; cbn; unfold uint; lia.
  - repeat constructor; cbn; unfold uint; lia.
  - split; unfold uint; cbn; lia.
  - split; unfold uint; cbn; lia.
  - exists k1, k2. split; [|split; eexists; eassumption].
    vm_compute in Hc. injection Hc as <-. exact Hk.
Defined.
