(* ===== verification/Memtable.v ===== *)
(** * The skiplist memtable

    Models [analytic_engine/src/memtable/skiplist/mod.rs] and [iter.rs]: a
    memtable inserts a row under its internal key with the contiguous encoding
    of the row as the value; a scan seeks to the start bound and fetches
    batches of rows, skipping the versions the reader cannot see and, when
    asked to, all but the newest visible version of a key.

    The memtable is written against the interface [OrderedIndex] of the
    skiplist.  The random height of a new node is an argument of [put]; whether
    the deadline of a scan has passed is an argument of each call of [next]. *)

From Stdlib Require Import ZArith Lia Sorted.
From stdpp Require Import base tactics option list numbers strings gmap sets.
From S2P Require Import Prelude Bytes Datum MemComparable Schema RowCodec Contiguous Projection RecordBatch.
From S2P Require Import Skiplist MemKey.

#[local] Open Scope Z_scope.

Inductive Bound := Included (key : bytes) | Excluded (key : bytes) | Unbounded.

(** [Error], without the variants only code outside this file raises. *)
Inductive MemTableError :=
| EncodeInternalKey (e : MemKeyError)
| DecodeInternalKey (e : MemKeyError)
| InvalidRow (e : ContiguousError)
| InvalidPutSequence (given last : Z)
| ProjectSchema (e : ProjectionError)
| DecodeContinuousRow (e : ContiguousError)
| AppendRow (e : BatchError)
| BuildRecordBatch (e : BatchError)
| IterTimeout.

Section memtable.
Context {I C : Type} {ops : IndexOps I C} {AR : Arrow}.

(** [SkiplistMemTable]; the metrics are atomic counters, which wrap. *)
Record MemTable := MkMemTable {
  mt_schema : Schema;
  mt_skiplist : I;
  mt_last_sequence : Z;
  mt_row_raw_size : Z;
  mt_row_encoded_size : Z;
  mt_row_count : Z
}.

(** [SkiplistMemTableFactory::create_memtable]. *)
Definition create_memtable {E} (schema : Schema) (creation_sequence : Z) : res E MemTable :=
  let? skiplist := ix_new in
  Ok (MkMemTable schema skiplist creation_sequence 0 0 0).

Definition mem_min_key {E} (mt : MemTable) : res E (option bytes) :=
  let? c := ix_seek_to_first (mt_skiplist mt) in
  if negb (ix_valid c) then Ok None
  else let? k := ix_key (mt_skiplist mt) c in Ok (Some k).
Definition mem_max_key {E} (mt : MemTable) : res E (option bytes) :=
  let? c := ix_seek_to_last (mt_skiplist mt) in
  if negb (ix_valid c) then Ok None
  else let? k := ix_key (mt_skiplist mt) c in Ok (Some k).

(** [MemTable::put]. *)
Definition mem_put (mt : MemTable) (index_in_writer : IndexInWriterSchema) (sequence : KeySequence)
    (r : row) (schema : Schema) (random_height : nat) : res MemTableError MemTable :=
  let? _ := estimate_internal_key schema r in
  let? key := rcontext EncodeInternalKey (encode_internal_key sequence schema vec_new r) in
  let internal_key := wb_data key in
  let? row_value := rcontext InvalidRow (write_row schema index_in_writer r) in
  let encoded_size := len internal_key + len row_value in
  let? (skiplist, _) := ix_put (mt_skiplist mt) internal_key row_value random_height in
  Ok (MkMemTable (mt_schema mt) skiplist (mt_last_sequence mt)
        (as_u 64 (mt_row_raw_size mt + row_size r))
        (as_u 64 (mt_row_encoded_size mt + encoded_size))
        (as_u 64 (mt_row_count mt + 1))).

Definition set_last_sequence (mt : MemTable) (sequence : Z) : res MemTableError MemTable :=
  let last := mt_last_sequence mt in
  let? _ := ensure (last <=? sequence) (InvalidPutSequence sequence last) in
  Ok (MkMemTable (mt_schema mt) (mt_skiplist mt) sequence
        (mt_row_raw_size mt) (mt_row_encoded_size mt) (mt_row_count mt)).

(** [ScanRequest] with the batch size of [ScanContext]. *)
Record ScanRequest := MkScanRequest {
  start_user_key : Bound;
  end_user_key : Bound;
  scan_sequence : Z;
  scan_projected_schema : ProjectedSchema;
  need_dedup : bool;
  scan_batch_size : nat
}.

Inductive IterState := Initialized | Finished.

(** [ColumnarIterImpl]; [init] runs in [new], so [Uninitialized] is not seen. *)
Record ColumnarIter := MkColumnarIter {
  it_skiplist : I;
  it_cursor : C;
  it_memtable_schema : Schema;
  it_request : ScanRequest;
  it_projector : RowProjector;
  it_state : IterState;
  it_last_internal_key : option bytes
}.

(** [ColumnarIterImpl::init]: the cursor for the first row. *)
Definition iter_init (skiplist : I) (req : ScanRequest) : res MemTableError C :=
  match start_user_key req with
  | Included user_key =>
      let? seek_key := rcontext EncodeInternalKey
                         (internal_key_for_seek user_key (scan_sequence req) bytes_mut_new) in
      ix_seek skiplist seek_key
  | Excluded user_key =>
      let? next_user_key := lift (key_prefix_next user_key) in
      let? seek_key := rcontext EncodeInternalKey
                         (internal_key_for_seek next_user_key (scan_sequence req) bytes_mut_new) in
      ix_seek skiplist seek_key
  | Unbounded => ix_seek_to_first skiplist
  end.

Definition columnar_iter_new (mt : MemTable) (req : ScanRequest) : res MemTableError ColumnarIter :=
  let? projector := rcontext ProjectSchema
                      (try_project_with_key (scan_projected_schema req) (mt_schema mt)) in
  let? cursor := iter_init (mt_skiplist mt) req in
  Ok (MkColumnarIter (mt_skiplist mt) cursor (mt_schema mt) req projector Initialized None).

Definition set_cursor (it : ColumnarIter) (c : C) : ColumnarIter :=
  MkColumnarIter (it_skiplist it) c (it_memtable_schema it) (it_request it) (it_projector it)
    (it_state it) (it_last_internal_key it).
Definition set_returned (it : ColumnarIter) (k : bytes) (c : C) : ColumnarIter :=
  MkColumnarIter (it_skiplist it) c (it_memtable_schema it) (it_request it) (it_projector it)
    (it_state it) (Some k).
Definition finish (it : ColumnarIter) : ColumnarIter :=
  MkColumnarIter (it_skiplist it) (it_cursor it) (it_memtable_schema it) (it_request it)
    (it_projector it) Finished (it_last_internal_key it).

Definition is_visible (req : ScanRequest) (sequence : KeySequence) : bool :=
  ks_sequence sequence <=? scan_sequence req.
Definition is_after_end_bound (req : ScanRequest) (key : bytes) : bool :=
  match end_user_key req with
  | Included e => match bytes_cmp key e with Lt | Eq => false | Gt => true end
  | Excluded e => match bytes_cmp key e with Lt => false | Eq | Gt => true end
  | Unbounded => false
  end.

(** [fetch_next_row]: the value of the next row that matches. *)
Fixpoint fetch_next_row (fuel : nat) (it : ColumnarIter) : res MemTableError (option bytes * ColumnarIter) :=
  match fuel with
  | O => Panic
  | S fuel =>
      if ix_valid (it_cursor it) then
        let? key := ix_key (it_skiplist it) (it_cursor it) in
        let? (user_key, sequence) := rcontext DecodeInternalKey (user_key_from_internal_key key) in
        if is_after_end_bound (it_request it) user_key then Ok (None, finish it)
        else
          let? same_key :=
            if need_dedup (it_request it) then
              match it_last_internal_key it with
              | Some last_internal_key =>
                  let? (last_user_key, _) :=
                    rcontext DecodeInternalKey (user_key_from_internal_key last_internal_key) in
                  Ok (bool_decide (user_key = last_user_key))
              | None => Ok false
              end
            else Ok false in
          if same_key || negb (is_visible (it_request it) sequence) then
            let? c := ix_next (it_skiplist it) (it_cursor it) in
            fetch_next_row fuel (set_cursor it c)
          else
            let? row := ix_value (it_skiplist it) (it_cursor it) in
            let? c := ix_next (it_skiplist it) (it_cursor it) in
            Ok (Some row, set_returned it key c)
      else Ok (None, finish it)
  end.

(** [RecordBatchWithKeyBuilder::append_projected_contiguous_row]. *)
Fixpoint append_views (rd : ContiguousRowReader) (sp : list (option nat))
    (bs : list ColumnBlockBuilder) (index : nat) : res BatchError (list ColumnBlockBuilder) :=
  match bs with
  | [] => Ok []
  | b :: bs =>
      let? d := projected_datum_view_at rd sp index in
      let? b := rcontext AppendDatum (builder_append b d) in
      let? bs := append_views rd sp bs (S index) in
      Ok (b :: bs)
  end.
Definition append_projected_contiguous_row (bb : RecordBatchBuilder) (rd : ContiguousRowReader)
    (projector : RowProjector) : res BatchError RecordBatchBuilder :=
  let? _ := rassert (length (source_projection projector) =? length (bb_builders bb))%nat in
  let? bs := append_views rd (source_projection projector) (bb_builders bb) 0 in
  Ok (MkBatchBuilder (bb_schema_with_key bb) bs).

(** The loop of [fetch_next_record_batch], at most [todo] more rows. *)
Fixpoint fetch_rows (fuel todo : nat) (it : ColumnarIter) (bb : RecordBatchBuilder) (num_rows : nat)
  : res MemTableError (ColumnarIter * RecordBatchBuilder * nat) :=
  match todo with
  | O => Ok (it, bb, num_rows)
  | S todo =>
      if ix_valid (it_cursor it) then
        let? (row, it) := fetch_next_row fuel it in
        match row with
        | Some row =>
            let? rd := rcontext DecodeContinuousRow (reader_try_new row (it_memtable_schema it)) in
            let? bb := rcontext AppendRow (append_projected_contiguous_row bb rd (it_projector it)) in
            fetch_rows fuel todo it bb (S num_rows)
        | None => Ok (finish it, bb, num_rows)
        end
      else Ok (it, bb, num_rows)
  end.

Definition fetch_next_record_batch (expired : bool) (it : ColumnarIter)
  : res MemTableError (option RecordBatchWithKey * ColumnarIter) :=
  let batch_size := scan_batch_size (it_request it) in
  let? _ := rassert (0 <? batch_size)%nat in
  let builder := batch_builder_new (schema_with_key (scan_projected_schema (it_request it))) in
  let? n := ix_len (it_skiplist it) in
  let? (it, builder, num_rows) := fetch_rows (S n) batch_size it builder 0 in
  if (0 <? num_rows)%nat then
    if expired then Err IterTimeout
    else
      let? (batch, _) := rcontext BuildRecordBatch (bb_build builder) in
      Ok (Some batch, it)
  else Ok (None, finish it).

(** [Iterator::next]. *)
Definition columnar_iter_next (expired : bool) (it : ColumnarIter)
  : res MemTableError (option RecordBatchWithKey * ColumnarIter) :=
  match it_state it with
  | Initialized => fetch_next_record_batch expired it
  | Finished => Ok (None, it)
  end.
End memtable.

Arguments MemTable : clear implicits.
Arguments ColumnarIter : clear implicits.

(** ** What a memtable holds *)

(** An entry: a row and its sequence. *)
Abbreviation entry := (KeySequence * row)%type.
Definition entry_key (s : Schema) (e : entry) : bytes := internal_key (primary_key_indexes s) e.2 e.1.
Definition entry_user_key (s : Schema) (e : entry) : bytes := user_key (primary_key_indexes s) e.2.
Definition entry_ok (s : Schema) (e : entry) : Prop :=
  ks_ok e.1 /\ row_ok s e.2 /\ Forall Datum.ok e.2.

(** A contiguous row from which every column of [r] reads. *)
Definition readable (s : Schema) (buf : bytes) (r : row) : Prop :=
  exists rd, reader_try_new buf s = Ok rd /\
    forall i d, r !! i = Some d -> @reader_datum_view_at BatchError rd i = Ok d.
Definition stored (s : Schema) (kv : bytes * bytes) (e : entry) : Prop :=
  kv.1 = entry_key s e /\ readable s kv.2 e.2.

(** The order of entries: by primary key, newer versions first. *)
Definition entry_lt (s : Schema) (a b : entry) : Prop := bytes_cmp (entry_key s a) (entry_key s b) = Lt.

(** Insertion of an entry that is not there yet. *)
Fixpoint entry_insert (s : Schema) (e : entry) (es : list entry) : list entry :=
  match es with
  | [] => [e]
  | e' :: es' =>
      match bytes_cmp (entry_key s e) (entry_key s e') with
      | Lt => e :: es
      | Eq => es
      | Gt => e' :: entry_insert s e es'
      end
  end.

Lemma entry_key_row s e : schema_wf s -> entry_ok s e -> key_row (columns s) (primary_key_indexes s) e.2.
Proof. intros Hwf (_ & Hr & Hd). by apply schema_key_row. Qed.

Lemma entry_key_cmp s a b :
  schema_wf s -> entry_ok s a -> entry_ok s b ->
  bytes_cmp (entry_key s a) (entry_key s b) =
  cmp_then (bytes_cmp (entry_user_key s a) (entry_user_key s b))
    (cmp_then (ks_sequence b.1 ?= ks_sequence a.1) (ks_row_index b.1 ?= ks_row_index a.1)).
Proof.
  intros Hwf Ha Hb. apply (internal_key_cmp (columns s)); try apply entry_key_row; auto; apply Ha || apply Hb.
Qed.

Lemma entry_key_split s e :
  schema_wf s -> entry_ok s e -> user_key_from_internal_key (entry_key s e) = Ok (entry_user_key s e, e.1).
Proof.
  intros Hwf He. apply user_key_split; [|apply He].
  apply (user_key_nonempty (columns s)); [by apply schema_pk_nonempty|by apply entry_key_row].
Qed.

Section contents.
Context {I C : Type} {ops : IndexOps I C} {ix : OrderedIndex I C} {AR : Arrow} {AL : ArrowLaws AR}.

(** The memtable holds the entries [es], in order. *)
Definition mem_holds (mt : MemTable I) (es : list entry) : Prop :=
  schema_wf (mt_schema mt) /\ Forall (entry_ok (mt_schema mt)) es /\
  exists kvs, ix_holds (mt_skiplist mt) kvs /\ Forall2 (stored (mt_schema mt)) kvs es.

Lemma mem_holds_sorted mt es : mem_holds mt es -> StronglySorted (entry_lt (mt_schema mt)) es.
Proof.
  intros (_ & _ & kvs & Hk & Hs). apply ix_sorted in Hk.
  induction Hs as [|kv e kvs es [He _] Hs IH]; [constructor|].
  apply StronglySorted_inv in Hk as [Hk Hkv]. constructor; [by apply IH|].
  clear -He Hs Hkv. induction Hs as [|kv' e' kvs es [He' _] _ IH]; constructor;
    apply Forall_cons in Hkv as [H1 H2]; [|by apply IH].
  unfold entry_lt. by rewrite <- He, <- He'.
Qed.

Lemma stored_insert s k v e kvs es :
  stored s (k, v) e -> Forall2 (stored s) kvs es ->
  Forall2 (stored s) (kv_insert (KC:=BytewiseComparator) k v kvs) (entry_insert s e es).
Proof.
  intros He H. pose proof He as [Hk _]. cbn in Hk. subst k. induction H as [|kv e' kvs es He' Hs IH].
  - by constructor.
  - cbn [kv_insert entry_insert compare_key BytewiseComparator]. pose proof He' as [Hk' _].
    rewrite Hk'. destruct (bytes_cmp _ _); [by constructor|constructor; [done|by constructor]|by constructor].
Qed.

Lemma entry_insert_ok s e es : entry_ok s e -> Forall (entry_ok s) es -> Forall (entry_ok s) (entry_insert s e es).
Proof.
  intros He H. induction H as [|e' es He' Hes IH]; cbn [entry_insert]; [by apply Forall_singleton|].
  destruct (bytes_cmp _ _); constructor; auto.
Qed.

(** A row that can be stored: its strings, its encoding and its key are within
    the limits of the row format and of the skiplist's nodes. *)
Definition storable (s : Schema) (e : entry) : Prop :=
  entry_ok s e /\ Forall small_var e.2 /\ encoded_size s e.2 <= MAX_ROW_LEN /\
  Z.of_nat (num_columns s) < 2 ^ 32 /\ len (entry_key s e) < 2 ^ 16.

Lemma estimate_le_bytes d : supported d -> 0 <= estimate_encoded_size d <= len (datum_bytes d).
Proof.
  intros Hs. destruct d; try contradiction Hs; cbn [estimate_encoded_size datum_bytes];
    rewrite ?length_app, ?Nat2Z.inj_add, ?len_mem_bytes; try (vm_compute; split; discriminate).
  all: unfold estimate_encoded_size_bytes, ENC_GROUP_SIZE; cbn [length]; split; [|lia].
  all: change (Z.of_nat 8) with 8; apply Z.mul_nonneg_nonneg; [|lia].
  all: pose proof (Z.div_pos (len v) 8 ltac:(lia) ltac:(lia)); lia.
Qed.

Lemma estimate_key_ok {E} s r :
  key_row (columns s) (primary_key_indexes s) r -> len (user_key (primary_key_indexes s) r) < 2 ^ 16 ->
  is_ok (@estimate_internal_key E s r).
Proof.
  intros Hk Hlen. unfold estimate_internal_key.
  assert (H : forall pk acc, key_row (columns s) pk r -> 0 <= acc -> acc + len (user_key pk r) < 2 ^ 16 ->
    exists t,
    rfold (fun total_len idx => let? d := @unwrap E _ (r !! idx) in u64_op (total_len + estimate_encoded_size d))
      pk acc = Ok t /\ 0 <= t < 2 ^ 16).
  { clear. induction pk as [|i pk IH]; intros acc Hk H0 Hacc; cbn [rfold].
    - exists acc. split; [done|]. lia.
    - apply Forall_cons in Hk as [(c & d & _ & Hd & Hkd) Hk]. rewrite Hd. cbn [unwrap rbind].
      rewrite (user_key_cons pk r i d Hd), length_app, Nat2Z.inj_add in Hacc.
      destruct (estimate_le_bytes d) as [Hl1 Hl2]; [apply Hkd|].
      rewrite u64_op_ok by (unfold uint; lia). cbn [rbind]. apply IH; [done|lia|lia]. }
  destruct (H (primary_key_indexes s) 0 Hk ltac:(lia) ltac:(lia)) as (t & -> & Ht). cbn [rbind].
  eexists. apply u64_op_ok. unfold uint, KEY_SEQUENCE_BYTES_LEN. lia.
Qed.

Lemma same_schema_mapping s : schema_wf s -> index_mapping s s (for_same_schema (num_columns s)).
Proof.
  intros Hwf. split; [|intros j; apply for_same_schema_elem].
  apply Forall2_same_length_lookup. unfold for_same_schema. rewrite length_fmap, length_seq. split; [done|].
  intros i c o Hc Ho. rewrite list_lookup_fmap, lookup_seq_lt in Ho by (by eapply lookup_lt_Some).
  injection Ho as <-. exists c. destruct (ColumnSchema.is_nullable c); auto.
Qed.

(** Inserting a storable row. *)
Lemma mem_put_holds mt es e h :
  mem_holds mt es -> storable (mt_schema mt) e -> (h < MAX_HEIGHT)%nat ->
  exists mt', mem_put mt (for_same_schema (num_columns (mt_schema mt))) e.1 e.2 (mt_schema mt) h = Ok mt' /\
    mem_holds mt' (entry_insert (mt_schema mt) e es) /\ mt_schema mt' = mt_schema mt.
Proof.
  intros (Hwf & Hes & kvs & Hkvs & Hst) (He & Hsv & Hsz & Hn & Hkl) Hh. set (s := mt_schema mt) in *.
  pose proof He as (Hks & Hr & Hd). pose proof (entry_key_row s e Hwf He) as Hkr.
  unfold mem_put. fold s.
  assert (len (user_key (primary_key_indexes s) e.2) < 2 ^ 16) as Hul.
  { unfold entry_key, internal_key in Hkl. rewrite length_app in Hkl. lia. }
  destruct (estimate_key_ok (E:=MemTableError) s e.2 Hkr Hul) as [t ->]. cbn [rbind].
  assert (Hroom : len (entry_key s e) <= remaining_mut vec_new)
    by (unfold remaining_mut, vec_new, i64_max; cbn [wb_max wb_data length]; lia).
  rewrite (writes_room _ _ _ (encode_internal_key_writes s e.2 e.1 Hwf Hkr) Hroom). cbn [rcontext rbind].
  destruct (row_roundtrip (E:=BatchError) s s (for_same_schema (num_columns s)) e.2)
    as (buf & rd & Hw & Hbl & Hrd & _ & Hread); [exact Hwf| |exact Hr|exact Hd|exact Hsv| |exact Hn|by left|].
  { by apply same_schema_mapping. }
  { rewrite table_row_same; [exact Hsz|]. by apply Forall2_length in Hr. }
  rewrite table_row_same in Hread by (by apply Forall2_length in Hr).
  rewrite Hw. cbn [rcontext rbind]. cbn [wb_data Bytes.put vec_new app].
  destruct (ix_put_holds MemTableError (mt_skiplist mt) kvs (entry_key s e) buf h) as (sl & Hput & Hsl);
    [exact Hkvs|exact Hh|exact Hkl|unfold MAX_ROW_LEN in Hbl; lia|].
  unfold entry_key in Hput at 1. rewrite Hput. cbn [rbind]. eexists. split; [done|]. split; [|done].
  split; [done|]. cbn [mt_schema mt_skiplist]. split; [by apply entry_insert_ok|].
  eexists. split; [exact Hsl|]. apply stored_insert; [|done]. split; [done|]. by exists rd.
Qed.

(** ** Scanning *)

(** The entry is passed over: a version of the key just returned, or newer
    than the reader may see. *)
Definition skipped (s : Schema) (req : ScanRequest) (last : option entry) (e : entry) : bool :=
  (need_dedup req && match last with
                     | Some l => bool_decide (entry_user_key s e = entry_user_key s l)
                     | None => false
                     end) || negb (is_visible req e.1).

(** The entries a scan returns, of those from its cursor on. *)
Fixpoint select (s : Schema) (req : ScanRequest) (last : option entry) (es : list entry) : list entry :=
  match es with
  | [] => []
  | e :: es =>
      if is_after_end_bound req (entry_user_key s e) then []
      else if skipped s req last e then select s req last es
      else e :: select s req (Some e) es
  end.

Record iter_at (it : ColumnarIter I C) (last : option entry) (es : list entry) : Prop := {
  at_state : it_state it = Initialized;
  at_wf : schema_wf (it_memtable_schema it);
  at_entries : Forall (entry_ok (it_memtable_schema it)) es;
  at_index : exists kvs, ix_at (it_skiplist it) (it_cursor it) kvs /\
               Forall2 (stored (it_memtable_schema it)) kvs es;
  at_last : it_last_internal_key it = entry_key (it_memtable_schema it) <$> last;
  at_last_ok : match last with Some l => entry_ok (it_memtable_schema it) l | None => True end
}.
(** What [fetch_next_row] leaves alone. *)
Definition same_scan (it it' : ColumnarIter I C) : Prop :=
  it_skiplist it' = it_skiplist it /\ it_memtable_schema it' = it_memtable_schema it /\
  it_request it' = it_request it /\ it_projector it' = it_projector it.

Lemma iter_at_cons it last e es :
  iter_at it last (e :: es) ->
  let s := it_memtable_schema it in
  exists v c', ix_valid (it_cursor it) = true /\
    (forall E, @ix_key I C ops E (it_skiplist it) (it_cursor it) = Ok (entry_key s e)) /\
    (forall E, @ix_value I C ops E (it_skiplist it) (it_cursor it) = Ok v) /\ readable s v e.2 /\
    @ix_next I C ops MemTableError (it_skiplist it) (it_cursor it) = Ok c' /\
    iter_at (set_cursor it c') last es /\ iter_at (set_returned it (entry_key s e) c') (Some e) es.
Proof.
  intros [Hst Hwf He (kvs & Hat & Hs) Hl Hlo] s. inversion Hs as [|[k v] ? kvs' ? [Hk Hv] Hs']; subst.
  apply Forall_cons in He as [He Hes]. cbn in Hk, Hv.
  destruct (ix_at_cons MemTableError _ _ _ _ Hat) as (Hval & _ & _ & c' & Hn & Hat').
  exists v, c'. split; [done|]. split; [|split; [|split; [done|split; [done|]]]].
  - intros E. destruct (ix_at_cons E _ _ _ _ Hat) as (_ & Hkey & _). rewrite Hkey. cbn. by rewrite Hk.
  - intros E. by destruct (ix_at_cons E _ _ _ _ Hat) as (_ & _ & Hv' & _).
  - split; split; cbn; eauto.
Qed.

(** [fetch_next_row] returns the next selected entry. *)
Lemma fetch_next_row_spec : forall es it last fuel,
  iter_at it last es -> (length es < fuel)%nat ->
  let s := it_memtable_schema it in
  exists o it', fetch_next_row fuel it = Ok (o, it') /\ same_scan it it' /\
    match o with
    | Some v => exists e es', select s (it_request it) last es = e :: select s (it_request it) (Some e) es' /\
                  readable s v e.2 /\ row_ok s e.2 /\ iter_at it' (Some e) es' /\ (length es' < length es)%nat
    | None => select s (it_request it) last es = [] /\ it_state it' = Finished
    end.
Proof.
  induction es as [|e es IH]; intros it last [|fuel] Hat Hf s; try (simpl in Hf; lia).
  - destruct Hat as [Hst Hwf He (kvs & Hix & Hs) Hl Hlo]. inversion Hs; subst.
    cbn [fetch_next_row select]. rewrite (ix_at_nil _ _ Hix). by exists None, (finish it).
  - destruct (iter_at_cons it last e es Hat) as (v & c' & Hval & Hkey & Hvalue & Hread & Hnext & Hskip & Hret).
    subst s. set (s := it_memtable_schema it) in *. pose proof (at_wf _ _ _ Hat) as Hwf. fold s in Hwf. pose proof (at_entries _ _ _ Hat) as Hes.
    apply Forall_cons in Hes as [He _].
    cbn [fetch_next_row select]. rewrite Hval, Hkey. cbn [rbind]. rewrite (entry_key_split s e Hwf He).
    cbn [rcontext rbind]. destruct (is_after_end_bound _ _) eqn:Hend.
    { by exists None, (finish it). }
    assert (Hsame : (if need_dedup (it_request it) then
              match it_last_internal_key it with
              | Some last_internal_key =>
                  let? (last_user_key, _) :=
                    rcontext DecodeInternalKey (user_key_from_internal_key last_internal_key) in
                  Ok (bool_decide (entry_user_key s e = last_user_key))
              | None => Ok false
              end
            else @Ok MemTableError _ false) =
            Ok (need_dedup (it_request it) && match last with
                     | Some l => bool_decide (entry_user_key s e = entry_user_key s l)
                     | None => false
                     end)).
    { destruct (need_dedup (it_request it)); [|done]. rewrite (at_last _ _ _ Hat).
      pose proof (at_last_ok _ _ _ Hat) as Hlo. destruct last as [l|]; [|done]. cbn [fmap option_fmap option_map].
      fold s. by rewrite (entry_key_split s l Hwf Hlo). }
    rewrite Hsame. cbn [rbind]. fold (skipped s (it_request it) last e).
    destruct (skipped s (it_request it) last e).
    + rewrite Hnext. cbn [rbind].
      destruct (IH (set_cursor it c') last fuel Hskip ltac:(simpl in Hf; lia)) as (o & it' & -> & Hsc & Ho).
      exists o, it'. split; [done|]. split; [done|]. destruct o as [v'|]; [|done].
      destruct Ho as (e' & es' & H1 & H2 & H3 & H4 & H5). exists e', es'. split; [exact H1|]. split; [exact H2|]. split; [exact H3|]. split; [exact H4|]. cbn [length]. lia.
    + rewrite Hvalue. cbn [rbind]. rewrite Hnext. cbn [rbind]. eexists _, _. split; [done|]. split; [done|].
      exists e, es. split; [done|]. split; [done|]. split; [apply He|]. split; [done|]. cbn [length]. lia.
Qed.

(** The projected row of a table row. *)
Definition out_row (rp : RowProjector) (r : row) : row := source_value r <$> source_projection rp.
Definition projector_ok (s : Schema) (rp : RowProjector) : Prop :=
  Forall (fun o => match o with Some j => (j < num_columns s)%nat | None => True end) (source_projection rp).

Lemma append_views_zip rd r sp bs :
  (forall i d, r !! i = Some d -> @reader_datum_view_at BatchError rd i = Ok d) ->
  Forall (fun o => match o with Some j => (j < length r)%nat | None => True end) sp ->
  forall index, length bs = length (drop index sp) ->
  append_views rd sp bs index = zip_append builder_append bs (source_value r <$> drop index sp).
Proof.
  intros Hrd Hsp. induction bs as [|b bs IH]; intros index Hl; cbn [append_views length] in *.
  - symmetry in Hl. apply nil_length_inv in Hl. by rewrite Hl.
  - destruct (sp !! index) as [o|] eqn:Ho; [|apply lookup_ge_None in Ho; rewrite length_drop in Hl; lia].
    rewrite (drop_S _ _ _ Ho) in Hl |- *. cbn [length] in Hl. rewrite fmap_cons. cbn [zip_append].
    assert (projected_datum_view_at rd sp index = Ok (source_value r o)) as ->.
    { unfold projected_datum_view_at. rewrite Ho. cbn [unwrap rbind]. destruct o as [j|]; [|done]. cbn.
      rewrite Forall_forall in Hsp. pose proof (Hsp _ (list_elem_of_lookup_2 _ _ _ Ho)) as Hj. cbn in Hj.
      destruct (lookup_lt_is_Some_2 r j Hj) as [d Hd]. rewrite Hd. by apply Hrd. }
    cbn [rbind]. destruct (builder_append b _); cbn [rcontext rbind]; [|done|done].
    by rewrite IH by lia.
Qed.

Lemma append_projected_ok bb R rd rp r :
  builder_rows bb R -> row_fits (bb_schema_with_key bb) (out_row rp r) ->
  (forall i d, r !! i = Some d -> @reader_datum_view_at BatchError rd i = Ok d) ->
  Forall (fun o => match o with Some j => (j < length r)%nat | None => True end) (source_projection rp) ->
  exists bb', append_projected_contiguous_row bb rd rp = Ok bb' /\ builder_rows bb' (R ++ [out_row rp r]) /\
    bb_schema_with_key bb' = bb_schema_with_key bb.
Proof.
  intros HR Hfit Hrd Hsp. unfold append_projected_contiguous_row.
  assert (Hl : length (source_projection rp) = length (bb_builders bb)).
  { pose proof (Forall2_length _ _ _ Hfit) as H1. unfold out_row in H1. rewrite length_fmap in H1.
    destruct HR as (_ & HB & _). rewrite <- (Forall2_length _ _ _ HB). done. }
  rewrite Hl, Nat.eqb_refl. cbn [rassert rbind].
  rewrite (append_views_zip rd r) by (rewrite ?drop_0; done). rewrite drop_0.
  fold (out_row rp r). fold (append_row bb (out_row rp r)). by apply append_row_ok.
Qed.

Lemma fetch_rows_spec fuel : forall todo it last es bb R n,
  let s := it_memtable_schema it in
  let sel := select s (it_request it) last es in
  iter_at it last es -> builder_rows bb R -> (length es < fuel)%nat -> projector_ok s (it_projector it) ->
  Forall (fun e => row_fits (bb_schema_with_key bb) (out_row (it_projector it) e.2)) sel ->
  exists it' bb', fetch_rows fuel todo it bb n = Ok (it', bb', (n + length (take todo sel))%nat) /\
    same_scan it it' /\ bb_schema_with_key bb' = bb_schema_with_key bb /\
    builder_rows bb' (R ++ ((fun e => out_row (it_projector it) e.2) <$> take todo sel)) /\
    ((it_state it' = Finished /\ drop todo sel = []) \/
     exists last' es', iter_at it' last' es' /\ select s (it_request it) last' es' = drop todo sel /\
       (length es' <= length es)%nat).
Proof.
  induction todo as [|todo IH]; intros it last es bb R n s sel Hat HR Hf Hp Hfit.
  { exists it, bb. cbn [fetch_rows take fmap]. rewrite Nat.add_0_r, app_nil_r. split; [done|]. split; [done|].
    split; [done|]. split; [done|]. right. by exists last, es. }
  cbn [fetch_rows].
  destruct (ix_valid (it_cursor it)) eqn:Hval.
  2: { (* the cursor is at the end *)
    assert (es = []) as ->.
    { destruct es as [|e es]; [done|]. destruct (iter_at_cons it last e es Hat) as (v & c' & H & _). congruence. }
    exists it, bb. unfold sel. cbn [select take drop fmap list_fmap length]. rewrite Nat.add_0_r, app_nil_r.
    split; [done|]. split; [done|]. split; [done|]. split; [done|]. right. by exists last, []. }
  destruct (fetch_next_row_spec es it last fuel Hat Hf) as (o & it1 & -> & Hsc & Ho). cbn [rbind].
  destruct o as [v|].
  - destruct Ho as (e & es' & Hsel & (rd & Hrd & Hview) & Hr & Hat1 & Hlen).
    pose proof Hsc as (Hs1 & Hs2 & Hs3 & Hs4). unfold sel. fold s in Hsel, Hrd, Hr. rewrite Hsel.
    unfold sel in Hfit. rewrite Hsel in Hfit. apply Forall_cons in Hfit as [Hfe Hfit].
    rewrite Hs2. fold s. rewrite Hrd. cbn [rcontext rbind]. rewrite Hs4.
    destruct (append_projected_ok bb R rd (it_projector it) e.2) as (bb1 & -> & HR1 & Hb1); auto.
    { eapply Forall_impl; [exact Hp|]. intros [j|]; [|done].
      rewrite (Forall2_length _ _ _ Hr). done. }
    cbn [rcontext rbind].
    destruct (IH it1 (Some e) es' bb1 (R ++ [out_row (it_projector it) e.2]) (S n))
      as (it2 & bb2 & Heq & Hsc2 & Hb2 & HR2 & Hend); auto; rewrite ?Hs2, ?Hs3, ?Hs4, ?Hb1; auto; [lia|].
    rewrite Hs2, Hs3, Hs4 in *. fold s in Heq, HR2, Hend. cbn [take drop length].
    exists it2, bb2. split; [rewrite Heq; do 2 f_equal; lia|].
    split; [destruct Hsc2 as (?&?&?&?); unfold same_scan; split_and!; congruence|]. split; [congruence|].
    split; [rewrite fmap_cons; rewrite <- app_assoc in HR2; exact HR2|].
    destruct Hend as [Hend|(last' & es2 & H1 & H2 & H3)]; [by left|]. right. exists last', es2.
    split; [done|]. split; [done|]. lia.
  - destruct Ho as [Hsel Hfin]. exists (finish it1), bb. unfold sel. fold s in Hsel. rewrite Hsel.
    cbn [take drop fmap list_fmap length]. rewrite Nat.add_0_r, app_nil_r. split; [done|].
    split; [done|]. split; [done|]. split; [done|]. by left.
Qed.

Lemma select_length s req es : forall last, (length (select s req last es) <= length es)%nat.
Proof.
  induction es as [|e es IH]; intros last; cbn [select]; [done|].
  destruct (is_after_end_bound req (entry_user_key s e)), (skipped s req last e); cbn [length]; pose proof (IH last);
    pose proof (IH (Some e)); lia.
Qed.

(** All the batches of a scan, as the reader pulls them. *)
Fixpoint drain (fuel : nat) (it : ColumnarIter I C) : res MemTableError (list RecordBatchWithKey) :=
  match fuel with
  | O => Panic
  | S fuel =>
      let? (o, it) := columnar_iter_next false it in
      match o with
      | None => Ok []
      | Some b => let? bs := drain fuel it in Ok (b :: bs)
      end
  end.

Abbreviation wk_of it := (schema_with_key (scan_projected_schema (it_request it))).

(** The index of the scan holds at least as many entries as are left. *)
Definition scan_size (it : ColumnarIter I C) (es : list entry) : Prop :=
  exists kvs, ix_holds (it_skiplist it) kvs /\ (length es <= length kvs)%nat.

Lemma next_batch_spec it last es :
  let s := it_memtable_schema it in
  let sel := select s (it_request it) last es in
  let k := scan_batch_size (it_request it) in
  iter_at it last es -> scan_size it es -> (0 < k)%nat -> projector_ok s (it_projector it) ->
  rk_columns (wk_of it) <> [] ->
  Forall (fun e => row_fits (wk_of it) (out_row (it_projector it) e.2)) sel ->
  exists o it', columnar_iter_next false it = Ok (o, it') /\ same_scan it it' /\
    match o with
    | None => sel = []
    | Some b => sel <> [] /\ rb_schema_with_key b = wk_of it /\
        batch_rows b ((fun e => out_row (it_projector it) e.2) <$> take k sel)
    end /\
    ((it_state it' = Finished /\ drop k sel = []) \/
     exists last' es', iter_at it' last' es' /\ select s (it_request it) last' es' = drop k sel /\
       (length es' <= length es)%nat).
Proof.
  intros s sel k Hat (kvs & Hkvs & Hsz) Hk Hp Hne Hfit. unfold columnar_iter_next. rewrite (at_state _ _ _ Hat).
  unfold fetch_next_record_batch. fold k. rewrite (proj2 (Nat.ltb_lt 0 k)) by done. cbn [rassert rbind].
  rewrite (ix_len_spec _ _ _ Hkvs). cbn [rbind].
  destruct (fetch_rows_spec (S (length kvs)) k it last es (batch_builder_new (wk_of it)) [] 0)
    as (it1 & bb1 & -> & Hsc & Hb1 & HR1 & Hend); auto; [by apply batch_builder_new_rows|lia|].
  fold s sel in HR1, Hend. cbn [rbind app] in *. rewrite Nat.add_0_l. fold s sel.
  destruct (Nat.ltb_spec 0 (length (take k sel))) as [Hlen|Hlen].
  - destruct (bb_build_ok bb1 _ HR1) as (b & -> & Hb & Hbs). cbn [rcontext rbind].
    exists (Some b), it1. split; [done|]. split; [done|]. split; [|done].
    split; [intros Hnil; rewrite Hnil, take_nil in Hlen; simpl in Hlen; lia|]. split; [by rewrite Hbs, Hb1|done].
  - assert (sel = []) as Hnil.
    { apply nil_length_inv. rewrite length_take in Hlen. lia. }
    exists None, (finish it1). split; [done|]. split; [done|]. split; [done|]. left.
    split; [done|]. by rewrite Hnil, drop_nil.
Qed.

Lemma drain_spec : forall fuel it last es,
  let s := it_memtable_schema it in
  let sel := select s (it_request it) last es in
  iter_at it last es -> scan_size it es -> (0 < scan_batch_size (it_request it))%nat ->
  projector_ok s (it_projector it) -> rk_columns (wk_of it) <> [] ->
  Forall (fun e => row_fits (wk_of it) (out_row (it_projector it) e.2)) sel -> (length sel < fuel)%nat ->
  exists bs rowss, drain fuel it = Ok bs /\ Forall2 batch_rows bs rowss /\
    concat rowss = (fun e => out_row (it_projector it) e.2) <$> sel /\
    Forall (fun b => rb_schema_with_key b = wk_of it) bs /\
    Forall (fun rows => (0 < length rows <= scan_batch_size (it_request it))%nat) rowss.
Proof.
  induction fuel as [|fuel IH]; intros it last es s sel Hat Hsz Hk Hp Hne Hfit Hf; [lia|].
  destruct (next_batch_spec it last es Hat Hsz Hk Hp Hne Hfit) as (o & it1 & Hn & Hsc & Ho & Hend).
  fold s sel in Ho, Hend. cbn [drain]. rewrite Hn. cbn [rbind]. destruct o as [b|].
  2: { rewrite Ho. exists [], []. split_and!; constructor. }
  destruct Ho as (Hnonempty & Hbs & Hb). set (k := scan_batch_size (it_request it)) in *.
  assert (Hsel : (0 < length (take k sel) <= k)%nat).
  { rewrite length_take. assert (length sel <> 0%nat) by (intros H0%nil_length_inv; done). lia. }
  assert (Hrest : exists bs rowss, drain fuel it1 = Ok bs /\ Forall2 batch_rows bs rowss /\
    concat rowss = (fun e => out_row (it_projector it) e.2) <$> drop k sel /\
    Forall (fun b => rb_schema_with_key b = wk_of it) bs /\
    Forall (fun rows => (0 < length rows <= k)%nat) rowss).
  { pose proof Hsc as (Hs1 & Hs2 & Hs3 & Hs4). destruct Hend as [[Hfin Hnil]|(last' & es' & Hat' & Hd & Hl)].
    - destruct fuel as [|fuel]; [rewrite length_take in Hsel; lia|].
      exists [], []. cbn [drain]. unfold columnar_iter_next. rewrite Hfin, Hnil. split_and!; constructor.
    - destruct (IH it1 last' es') as (bs & rowss & H1 & H2 & H3 & H4 & H5); rewrite ?Hs1, ?Hs2, ?Hs3, ?Hs4; auto.
      + destruct Hsz as (kvs & Hkvs & Hle). exists kvs. rewrite Hs1. split; [done|]. lia.
      + fold s. rewrite Hd. by apply Forall_drop.
      + fold s. rewrite Hd, length_drop. rewrite length_take in Hsel. lia.
      + rewrite Hs2, Hs3, Hs4 in *. fold s in H3. rewrite Hd in H3. exists bs, rowss. done. }
  destruct Hrest as (bs & rowss & -> & H2 & H3 & H4 & H5). cbn [rbind].
  exists (b :: bs), (((fun e => out_row (it_projector it) e.2) <$> take k sel) :: rowss).
  split; [done|]. split; [by constructor|]. split; [|split; [by constructor|]].
  - cbn [concat]. rewrite H3, <- fmap_app, take_drop. done.
  - constructor; [by rewrite length_fmap|done].
Qed.

(** ** The entries a scan returns *)

Lemma after_end_mono req a b :
  bytes_cmp a b <> Gt -> is_after_end_bound req a = true -> is_after_end_bound req b = true.
Proof.
  unfold is_after_end_bound. intros Hab. destruct (end_user_key req) as [e|e|]; [| |done].
  - destruct (bytes_cmp a e) eqn:Ha; try done. intros _. apply (cmp_gt_lt bytes_cmp) in Ha.
    destruct (bytes_cmp a b) eqn:Hc; [|clear Hab|done].
    + apply cmp_eq in Hc as <-. apply (cmp_gt_lt bytes_cmp) in Ha. by rewrite Ha.
    + pose proof (cmp_lt_trans (cmp:=bytes_cmp) _ _ _ Ha Hc) as H. apply (cmp_gt_lt bytes_cmp) in H. by rewrite H.
  - destruct (bytes_cmp a b) eqn:Hc; [|clear Hab|done].
    + apply cmp_eq in Hc as <-. done.
    + destruct (bytes_cmp a e) eqn:Ha; [|done|]; intros _.
      * apply cmp_eq in Ha as <-. apply (cmp_gt_lt bytes_cmp) in Hc. by rewrite Hc.
      * apply (cmp_gt_lt bytes_cmp) in Ha. pose proof (cmp_lt_trans (cmp:=bytes_cmp) _ _ _ Ha Hc) as H.
        apply (cmp_gt_lt bytes_cmp) in H. by rewrite H.
Qed.

Section selection.
Context (s : Schema) (req : ScanRequest) (Hwf : schema_wf s) (Hdedup : need_dedup req = true).

Definition user_lt (a b : entry) : Prop := bytes_cmp (entry_user_key s a) (entry_user_key s b) = Lt.

Lemma entry_lt_user a b :
  entry_ok s a -> entry_ok s b -> entry_lt s a b ->
  bytes_cmp (entry_user_key s a) (entry_user_key s b) <> Gt /\
  (entry_user_key s a <> entry_user_key s b -> user_lt a b).
Proof.
  intros Ha Hb. unfold entry_lt, user_lt. rewrite entry_key_cmp by done.
  destruct (bytes_cmp (entry_user_key s a) (entry_user_key s b)) eqn:Hc; [|done|done].
  apply cmp_eq in Hc. done.
Qed.

(** The newest visible version of its key. *)
Definition newest (es : list entry) (e : entry) : Prop :=
  is_visible req e.1 = true /\
  forall e', e' ∈ es -> is_visible req e'.1 = true -> entry_user_key s e' = entry_user_key s e ->
    ~ entry_lt s e' e.

Lemma select_elem es : forall last,
  StronglySorted (entry_lt s) es -> Forall (entry_ok s) es ->
  match last with Some l => entry_ok s l /\ Forall (entry_lt s l) es | None => True end ->
  forall e, e ∈ select s req last es <->
    e ∈ es /\ is_after_end_bound req (entry_user_key s e) = false /\ newest es e /\
    (forall l, last = Some l -> entry_user_key s e <> entry_user_key s l).
Proof.
  induction es as [|e0 es IH]; intros last Hs Hok Hlast e; [set_solver|].
  apply StronglySorted_inv in Hs as [Hs H0]. apply Forall_cons in Hok as [Hok0 Hok].
  rewrite Forall_forall in H0. pose proof Hok as Hok'. rewrite Forall_forall in Hok'.
  cbn [select]. destruct (is_after_end_bound req (entry_user_key s e0)) eqn:Hend.
  { split; [set_solver|]. intros (Hin & Hne & _). exfalso.
    apply elem_of_cons in Hin as [->|Hin]; [congruence|].
    destruct (entry_lt_user e0 e Hok0 (Hok' e Hin) (H0 e Hin)) as [Hle _].
    rewrite (after_end_mono req _ _ Hle Hend) in Hne. done. }
  assert (Htail : match last with Some l => entry_ok s l /\ Forall (entry_lt s l) es | None => True end).
  { destruct last; [|done]. destruct Hlast as [Hlo Hl]. by apply Forall_cons in Hl as [_ Hl]. }
  unfold skipped. rewrite Hdedup. cbn [andb].
  destruct (is_visible req e0.1) eqn:Hvis; cbn [negb]; rewrite ?orb_true_r, ?orb_false_r.
  2: { (* too new *)
    rewrite IH by done. unfold newest. split.
    - intros (Hin & He & [Hv Hn] & Hl). split; [set_solver|]. split; [done|]. split; [|done]. split; [done|].
      intros e' He' Hv'. apply elem_of_cons in He' as [->|He']; [congruence|]. by apply Hn.
    - intros (Hin & He & [Hv Hn] & Hl). apply elem_of_cons in Hin as [->|Hin]; [congruence|].
      split; [done|]. split; [done|]. split; [|done]. split; [done|]. intros e' He'. apply Hn. set_solver. }
  set (same := match last with Some l => bool_decide (entry_user_key s e0 = entry_user_key s l) | None => false end).
  destruct same eqn:Hsame.
  - (* a version of the key returned last *)
    assert (exists l, last = Some l /\ entry_user_key s e0 = entry_user_key s l) as (l & -> & Heq).
    { unfold same in Hsame. destruct last as [l|]; [|done]. exists l. split; [done|]. by apply bool_decide_eq_true in Hsame. }
    rewrite IH by done. unfold newest. split.
    + intros (Hin & He & [Hv Hn] & Hl). split; [set_solver|]. split; [done|]. split; [|done]. split; [done|].
      intros e' He' Hv' Hk. apply elem_of_cons in He' as [->|He']; [|by apply Hn].
      exfalso. apply (Hl l eq_refl). congruence.
    + intros (Hin & He & [Hv Hn] & Hl). apply elem_of_cons in Hin as [->|Hin]; [by destruct (Hl l eq_refl)|].
      split; [done|]. split; [done|]. split; [|done]. split; [done|]. intros e' He'. apply Hn. set_solver.
  - (* returned *)
    rewrite elem_of_cons, IH; [|done|done|split; [done|by apply Forall_forall]]. unfold newest. split.
    + intros [->|(Hin & He & [Hv Hn] & Hl)].
      * split; [set_solver|]. split; [done|]. split.
        { split; [done|]. intros e' He' _ _. apply elem_of_cons in He' as [->|He'].
          - unfold entry_lt. by rewrite (cmp_refl bytes_cmp).
          - intros Hlt. pose proof (cmp_lt_trans (cmp:=bytes_cmp) _ _ _ Hlt (H0 e' He')) as Hx.
            by rewrite (cmp_refl bytes_cmp) in Hx. }
        { intros l ->. unfold same in Hsame. by apply bool_decide_eq_false in Hsame. }
      * split; [set_solver|]. split; [done|]. split.
        { split; [done|]. intros e' He' Hv' Hk. apply elem_of_cons in He' as [->|He']; [|by apply Hn].
          exfalso. by apply (Hl e0 eq_refl). }
        { intros l ->. unfold same in Hsame. apply bool_decide_eq_false in Hsame. destruct Hlast as [Hlo Hl0].
          apply Forall_cons in Hl0 as [Hl0 _].
          destruct (entry_lt_user l e0 Hlo Hok0 Hl0) as [_ Hlt].
          specialize (Hlt ltac:(done)). destruct (entry_lt_user e0 e Hok0 (Hok' e Hin) (H0 e Hin)) as [_ Hlt2].
          specialize (Hlt2 ltac:(intros Hx; by apply (Hl e0 eq_refl))). intros Heq. unfold user_lt in *.
          pose proof (cmp_lt_trans (cmp:=bytes_cmp) _ _ _ Hlt Hlt2) as Hx.
          rewrite Heq, (cmp_refl bytes_cmp) in Hx. done. }
    + intros (Hin & He & [Hv Hn] & Hl). apply elem_of_cons in Hin as [->|Hin]; [by left|]. right.
      split; [done|]. split; [done|]. split; [split; [done|]; intros e' He'; apply Hn; set_solver|].
      intros l [= <-] Heq. apply (Hn e0); [set_solver|done|done|by apply H0].
Qed.

Lemma select_sorted es : forall last,
  StronglySorted (entry_lt s) es -> Forall (entry_ok s) es ->
  match last with Some l => entry_ok s l /\ Forall (entry_lt s l) es | None => True end ->
  StronglySorted user_lt (select s req last es) /\
  match last with Some l => Forall (user_lt l) (select s req last es) | None => True end.
Proof.
  induction es as [|e0 es IH]; intros last Hs Hok Hlast; cbn [select].
  { split; [constructor|]. by destruct last; constructor. }
  pose proof Hs as Hs0. pose proof Hok as Hok0'. pose proof Hlast as Hlast0.
  apply StronglySorted_inv in Hs as [Hs H0]. apply Forall_cons in Hok as [Hok0 Hok].
  assert (Htail : match last with Some l => entry_ok s l /\ Forall (entry_lt s l) es | None => True end).
  { destruct last; [|done]. destruct Hlast as [Hlo Hl]. by apply Forall_cons in Hl as [_ Hl]. }
  destruct (is_after_end_bound _ _); [by split; [constructor|destruct last; constructor]|].
  destruct (skipped s req last e0) eqn:Hsk; [by apply IH|].
  destruct (IH (Some e0) Hs Hok (conj Hok0 H0)) as [IH1 IH2]. split; [by constructor|].
  destruct last as [l|]; [|done]. destruct Hlast as [Hlo Hl]. apply Forall_cons in Hl as [Hl _].
  unfold skipped in Hsk. rewrite Hdedup in Hsk. cbn [andb] in Hsk. apply orb_false_iff in Hsk as [Hsk _].
  apply bool_decide_eq_false in Hsk.
  assert (user_lt l e0) as Hle by (by apply (entry_lt_user l e0 Hlo Hok0 Hl)).
  constructor; [done|]. eapply Forall_impl; [exact IH2|]. intros e He.
  exact (cmp_lt_trans (cmp:=bytes_cmp) _ _ _ Hle He).
Qed.
End selection.

(** ** Where a scan starts *)

(** The entry is not before the start bound. *)
Definition from_start (s : Schema) (req : ScanRequest) (e : entry) : Prop :=
  match start_user_key req with
  | Included k => bytes_cmp (entry_user_key s e) k <> Lt
  | Excluded k => bytes_cmp (entry_user_key s e) k = Gt
  | Unbounded => True
  end.
(** The start bound is open, or the encoded key of some row. *)
Definition start_ok (s : Schema) (req : ScanRequest) : Prop :=
  match start_user_key req with
  | Included k => exists r0, key_row (columns s) (primary_key_indexes s) r0 /\
                    k = user_key (primary_key_indexes s) r0 /\ len k < 2 ^ 63
  | Excluded _ => False
  | Unbounded => True
  end.

Fixpoint entries_from (s : Schema) (k : bytes) (es : list entry) : list entry :=
  match es with
  | [] => []
  | e :: es' => match bytes_cmp (entry_key s e) k with Lt => entries_from s k es' | _ => es end
  end.

Lemma stored_from s k kvs es :
  Forall2 (stored s) kvs es ->
  Forall2 (stored s) (kv_from (KC:=BytewiseComparator) k kvs) (entries_from s k es).
Proof.
  induction 1 as [|kv e kvs es He Hs IH]; [constructor|]. cbn [kv_from entries_from compare_key BytewiseComparator].
  pose proof He as [Hk _]. rewrite Hk. destruct (bytes_cmp _ _); [by constructor|done|by constructor].
Qed.

Lemma entries_from_elem s k es :
  StronglySorted (entry_lt s) es ->
  (forall e, e ∈ entries_from s k es <-> e ∈ es /\ bytes_cmp (entry_key s e) k <> Lt) /\
  StronglySorted (entry_lt s) (entries_from s k es).
Proof.
  induction 1 as [|a es Hs [IH IHs] Ha]; [split; [set_solver|constructor]|]. cbn [entries_from].
  assert (Hall : bytes_cmp (entry_key s a) k <> Lt -> forall b, b ∈ es -> bytes_cmp (entry_key s b) k <> Lt).
  { intros Hn b Hb Hlt. rewrite Forall_forall in Ha. apply Hn.
    exact (cmp_lt_trans (cmp:=bytes_cmp) _ _ _ (Ha b Hb) Hlt). }
  destruct (bytes_cmp (entry_key s a) k) eqn:Hc.
  2: { split; [|done]. intros e. rewrite IH, elem_of_cons. split; [naive_solver|].
       intros [[->|Hb] Hn]; [congruence|done]. }
  all: split; [|by constructor]; intros e; rewrite elem_of_cons; split; [|naive_solver].
  all: intros [->|Hb]; [split; [by left|congruence]|]; split; [by right|]; apply Hall; [congruence|done].
Qed.

Lemma entries_from_ok s k es : Forall (entry_ok s) es -> Forall (entry_ok s) (entries_from s k es).
Proof.
  induction 1 as [|a es Ha Hes IH]; [constructor|]. cbn [entries_from].
  destruct (bytes_cmp _ _); [by constructor|done|by constructor].
Qed.

Lemma entries_from_length s k es : (length (entries_from s k es) <= length es)%nat.
Proof. induction es as [|a es IH]; [done|]. cbn [entries_from]. destruct (bytes_cmp _ _); cbn [length]; lia. Qed.

(** A new scan stands before the entries from its start bound on; those it has
    passed over are before the bound or too new to be seen. *)
Lemma columnar_iter_new_spec mt es req rp :
  mem_holds mt es -> uint 64 (scan_sequence req) -> start_ok (mt_schema mt) req ->
  try_project_with_key (scan_projected_schema req) (mt_schema mt) = Ok rp ->
  exists it es', columnar_iter_new mt req = Ok it /\ it_memtable_schema it = mt_schema mt /\
    it_request it = req /\ it_projector it = rp /\ iter_at it None es' /\ scan_size it es' /\
    (length es' <= length es)%nat /\ StronglySorted (entry_lt (mt_schema mt)) es' /\
    forall e, is_visible req e.1 = true -> (e ∈ es' <-> e ∈ es /\ from_start (mt_schema mt) req e).
Proof.
  intros Hm Hseq Hstart Hrp. pose proof (mem_holds_sorted mt es Hm) as Hsort.
  destruct Hm as (Hwf & Hok & kvs & Hkvs & Hst). set (s := mt_schema mt) in *.
  unfold columnar_iter_new. fold s. rewrite Hrp. cbn [rcontext rbind]. unfold iter_init, start_ok, from_start in *.
  assert (Hmk : forall c es', ix_at (mt_skiplist mt) c es' ->
    let it := MkColumnarIter (mt_skiplist mt) c s req rp Initialized None in
    forall es'', Forall2 (stored s) es' es'' -> Forall (entry_ok s) es'' -> (length es'' <= length es)%nat ->
    iter_at it None es'' /\ scan_size it es'').
  { intros c es' Hat it es'' Hs'' Ho'' Hl. split; [split; cbn; eauto|]. exists kvs. split; [done|].
    by rewrite (Forall2_length _ _ _ Hst). }
  destruct (start_user_key req) as [k|k|]; [|done|].
  - destruct Hstart as (r0 & Hr0 & -> & Hlen).
    rewrite internal_key_for_seek_ok by (unfold bytes_mut_new, u64_max in *; cbn [wb_max]; lia).
    cbn [rcontext rbind].
    destruct (ix_seek_at MemTableError _ _ (user_key (primary_key_indexes s) r0 ++ sequence_bytes (scan_sequence req)) Hkvs)
      as (c & -> & Hat). cbn [rbind].
    set (k := _ ++ _) in Hat. eexists _, (entries_from s k es). split; [done|]. split; [done|]. split; [done|].
    split; [done|]. pose proof (entries_from_length s k es).
    destruct (Hmk c _ Hat _ (stored_from s k kvs es Hst) (entries_from_ok s k es Hok) ltac:(done)) as [H1 H2].
    split; [done|]. split; [done|]. split; [done|].
    destruct (entries_from_elem s k es Hsort) as [Hin Hsort']. split; [done|]. intros e Hv. rewrite Hin.
    split; intros [He Hc]; (split; [done|]); rewrite Forall_forall in Hok; pose proof (Hok e He) as Hoe;
      unfold k, entry_key in *;
      rewrite (seek_key_cmp (columns s)) in * by (try apply entry_key_row; auto; apply Hoe);
      unfold is_visible in Hv; rewrite Hv in *; unfold entry_user_key in *;
      destruct (bytes_cmp (user_key _ e.2) _); done.
  - destruct (ix_first_at MemTableError _ _ Hkvs) as (c & -> & Hat). cbn [rbind].
    eexists _, es. split; [done|]. split; [done|]. split; [done|]. split; [done|].
    destruct (Hmk c _ Hat _ Hst Hok ltac:(done)) as [H1 H2]. split; [done|]. split; [done|].
    split; [done|]. split; [done|]. naive_solver.
Qed.

(** ** Filling a memtable *)

(** Entries put one after the other, each with the height drawn for its node. *)
Definition mem_puts (mt : MemTable I) (puts : list (entry * nat)) : res MemTableError (MemTable I) :=
  rfold (fun mt p => mem_put mt (for_same_schema (num_columns (mt_schema mt))) p.1.1 p.1.2 (mt_schema mt) p.2)
    puts mt.

Lemma entry_insert_elem s e es :
  entry_key s e ∉ entry_key s <$> es -> forall e', e' ∈ entry_insert s e es <-> e' = e \/ e' ∈ es.
Proof.
  induction es as [|a es IH]; intros Hn e'; cbn [entry_insert]; [set_solver|].
  rewrite fmap_cons, not_elem_of_cons in Hn. destruct Hn as [Ha Hn].
  destruct (bytes_cmp _ _) eqn:Hc; [apply cmp_eq in Hc; done| |]; rewrite ?elem_of_cons, ?IH by done; tauto.
Qed.

Lemma mem_puts_holds puts : forall mt es,
  let s := mt_schema mt in
  mem_holds mt es -> Forall (storable s) puts.*1 -> Forall (fun p => (p.2 < MAX_HEIGHT)%nat) puts ->
  NoDup (entry_key s <$> puts.*1) -> (forall e, e ∈ es -> entry_key s e ∉ entry_key s <$> puts.*1) ->
  exists mt' es', mem_puts mt puts = Ok mt' /\ mem_holds mt' es' /\ mt_schema mt' = s /\
    length es' = (length es + length puts)%nat /\ forall e, e ∈ es' <-> e ∈ es \/ e ∈ puts.*1.
Proof.
  induction puts as [|[e h] puts IH]; intros mt es s Hm Hst Hh Hnd Hfresh.
  { exists mt, es. split; [done|]. split; [done|]. split; [done|]. split; [cbn; lia|]. set_solver. }
  rewrite fmap_cons in Hst. apply Forall_cons in Hst as [He Hst]. apply Forall_cons in Hh as [Hh0 Hh].
  rewrite !fmap_cons in Hnd. apply NoDup_cons in Hnd as [Hn Hnd]. cbn [fst snd] in *.
  destruct (mem_put_holds mt es e h Hm He Hh0) as (mt1 & Hput & Hm1 & Hs1).
  assert (Hne : entry_key s e ∉ entry_key s <$> es).
  { intros (e' & Hk & He')%list_elem_of_fmap. apply (Hfresh e' He'). rewrite <- Hk, !fmap_cons. by left. }
  pose proof (entry_insert_elem s e es Hne) as Hin.
  destruct (IH mt1 (entry_insert s e es)) as (mt2 & es2 & Hputs & Hm2 & Hs2 & Hl & Hel); rewrite ?Hs1; auto.
  { intros e' [->|He']%Hin; [done|]. intros Hc. apply (Hfresh e' He'). rewrite !fmap_cons. by right. }
  exists mt2, es2. unfold mem_puts. cbn [rfold fst snd]. rewrite Hput. cbn [rbind].
  split; [exact Hputs|]. split; [done|]. split; [by rewrite Hs2|]. split.
  - rewrite Hl. cbn [length]. replace (length (entry_insert s e es)) with (S (length es)); [lia|].
    clear -Hne. induction es as [|a es IH]; [done|]. cbn [entry_insert].
    rewrite fmap_cons, not_elem_of_cons in Hne. destruct Hne as [Ha Hn].
    destruct (bytes_cmp _ _) eqn:Hc; [apply cmp_eq in Hc; done|done|]. cbn [length]. by rewrite <- IH.
  - intros e'. rewrite Hel, Hin, fmap_cons, elem_of_cons. cbn [fst]. tauto.
Qed.

Lemma create_holds {E} s seq :
  schema_wf s -> exists mt, @create_memtable I C ops E s seq = Ok mt /\ mem_holds mt [] /\ mt_schema mt = s.
Proof.
  intros Hwf. destruct (ix_new_holds E) as (sl & Hsl & H). unfold create_memtable. rewrite Hsl. cbn [rbind].
  eexists. split; [done|]. split; [|done]. split; [done|]. split; [constructor|]. by exists [].
Qed.

(** ** Reading with a projection of the memtable's schema *)

(** A row as the reader sees it. *)
Definition read_row (s : Schema) (ps : ProjectedSchema) (r : row) : row :=
  read_value s r <$> rk_columns (schema_with_key ps).

Lemma own_projector s p ps :
  schema_wf s -> projected_schema_new s p = Ok ps ->
  exists rp, try_project_with_key ps s = Ok rp /\ projector_ok s rp /\
    forall r, row_ok s r -> out_row rp r = read_row s ps r.
Proof.
  intros Hwf Hps. pose proof (projected_original _ _ _ Hps) as Ho.
  assert (exists os, Forall2 (read_source ps s) (rk_columns (schema_with_key ps)) os) as [os Hos].
  { assert (H : Forall (fun c => exists o, read_source ps s c o) (rk_columns (schema_with_key ps))).
    { apply Forall_forall. intros c Hc. apply (with_key_columns s p ps c Hwf Hps) in Hc.
      apply list_elem_of_lookup in Hc as [j Hj]. exists (Some j), c. rewrite Ho. done. }
    clear -H. induction H as [|c cs [o Ho'] _ [os IH]]; [by exists []|]. exists (o :: os). by constructor. }
  eexists. split; [|split].
  - apply rbind_ok. exists os. split; [|done]. apply try_project_columns_spec; [done|]. by exists os.
  - unfold projector_ok. cbn [source_projection]. clear -Hos.
    induction Hos as [|c o cs os Hc _ IH]; constructor; [|done]. destruct o as [j|]; [|done].
    destruct Hc as (sc & Hj & _). by eapply lookup_lt_Some.
  - intros r Hr. unfold out_row, read_row. cbn [source_projection].
    assert (Hall : Forall (fun c => c ∈ columns s) (rk_columns (schema_with_key ps)))
      by (apply Forall_forall; intros c; by apply (with_key_columns s p ps c Hwf Hps)).
    clear Hps. induction Hos as [|c o cs os Hc _ IH]; [done|]. apply Forall_cons in Hall as [Hin Hall].
    rewrite !fmap_cons. f_equal; [|by apply IH].
    by apply (read_source_value s s ps c o r Hwf Hwf (fun _ => eq_refl) Ho Hin Hr Hc).
Qed.

Lemma read_row_fits s p ps r :
  schema_wf s -> projected_schema_new s p = Ok ps -> row_ok s r -> row_fits (schema_with_key ps) (read_row s ps r).
Proof.
  intros Hwf Hps Hr. unfold row_fits, read_row. apply Forall2_fmap_l, Forall_Forall2_diag, Forall_forall.
  intros c Hc. apply (with_key_columns s p ps c Hwf Hps) in Hc as [i Hi]%list_elem_of_lookup.
  pose proof (read_value_same s r i c Hwf Hr Hi) as Hv.
  destruct (Forall2_lookup_r _ _ _ _ _ Hr Hi) as (d & Hd & Hfit). rewrite Hd in Hv. injection Hv as Hv.
  change (datum_fits (read_value s r c) c). by rewrite Hv.
Qed.

Lemma projected_columns_nonempty s p ps :
  schema_wf s -> projected_schema_new s p = Ok ps -> rk_columns (schema_with_key ps) <> [].
Proof.
  intros Hwf Hps Hnil. pose proof (schema_pk_nonempty s Hwf) as Hpk.
  destruct (primary_key_indexes s) as [|i is_] eqn:Hi; [done|]. clear Hpk.
  destruct (wf_keys _ Hwf i) as (c & Hc & _); [rewrite Hi; by left|].
  assert (exists j c, rk_columns (schema_with_key ps) !! j = Some c) as (j & c' & Hj); [|by rewrite Hnil in Hj].
  destruct p as [p|]; cbn [projected_schema_new] in Hps; [|injection Hps as <-; by exists i, c].
  apply rbind_ok in Hps as (_ & _ & (rs & _ & [= <-])%rbind_ok). cbn [schema_with_key].
  pose proof (proj2 (with_key_spec s p Hwf)) as H. rewrite Hi in H.
  inversion H as [|j ? ? ? (c' & Hj & _)]; subst. by exists j, c'.
Qed.
End contents.

(** ** Properties *)


Definition demo_request : ScanRequest :=
  MkScanRequest (Included (user_key (primary_key_indexes the_demo) (demo_row 97 3))) Unbounded 8
    (no_projection the_demo) true 10.

