(* ===== verification/Merge.v ===== *)
(** * Merging sorted streams

    Models [analytic_engine/src/row_iter/merge.rs]: the merge iterator over the
    sorted streams of the memtables and the files of a table.  A stream buffers
    one batch.  The streams whose buffers overlap the window of the hottest one
    are in the hot heap, the others wait in the cold heap; rows are taken one by
    one from the hottest stream, or a run at a time when it is the only one.

    [BinaryHeap] is used through its contract, the class [BinaryHeapLaws]: the
    heap holds what was pushed, and [pop] and [peek] give a greatest element;
    which one of several is left open.  A stream is the list of what it yields;
    the origin streams are listed in the order in which their first batches
    arrive. *)

From Stdlib Require Import ZArith Lia Sorted.
From stdpp Require Import base tactics option list sorting numbers strings gmap sets.
From S2P Require Import Prelude Bytes Datum MemComparable Schema Projection RecordBatch MemKey.

#[local] Open Scope Z_scope.

(** ** The heap *)

Class BinaryHeap (H : Type -> Type) := {
  heap_new : forall {A}, H A;
  heap_len : forall {A}, H A -> nat;
  heap_peek : forall {A}, H A -> option A;
  heap_push : forall {E A}, (A -> A -> res E comparison) -> H A -> A -> res E (H A);
  heap_pop : forall {E A}, (A -> A -> res E comparison) -> H A -> res E (option (A * H A))
}.

(** A total preorder given by a comparison. *)
Class PreCmp {A} (c : A -> A -> comparison) : Prop := {
  pre_antisym : forall a b, c b a = CompOpp (c a b);
  pre_trans : forall x y z, c x y <> Gt -> c y z <> Gt -> c x z <> Gt
}.
(** The comparison [f] succeeds on [es], with the result [c]. *)
Definition compares {E A} (f : A -> A -> res E comparison) (c : A -> A -> comparison) (es : list A) : Prop :=
  forall a b, a ∈ es -> b ∈ es -> f a b = Ok (c a b).
Definition greatest {A} (c : A -> A -> comparison) (a : A) (es : list A) : Prop :=
  forall b, b ∈ es -> c b a <> Gt.

Class BinaryHeapLaws (H : Type -> Type) {HO : BinaryHeap H} := {
  heap_holds : forall {A}, (A -> A -> comparison) -> H A -> list A -> Prop;
  heap_new_holds : forall A (c : A -> A -> comparison), heap_holds c heap_new [];
  heap_len_ok : forall A c (h : H A) es, heap_holds c h es -> heap_len h = length es;
  heap_peek_ok : forall A c (h : H A) es, PreCmp c -> heap_holds c h es ->
    match heap_peek h with
    | Some a => a ∈ es /\ greatest c a es
    | None => es = []
    end;
  heap_push_ok : forall E A (f : A -> A -> res E comparison) c h es a,
    PreCmp c -> heap_holds c h es -> compares f c (a :: es) ->
    exists h', heap_push f h a = Ok h' /\ heap_holds c h' (a :: es);
  heap_pop_ok : forall E A (f : A -> A -> res E comparison) c h es,
    PreCmp c -> heap_holds c h es -> es <> [] -> compares f c es ->
    exists a h' es', heap_pop f h = Ok (Some (a, h')) /\ es ≡ₚ a :: es' /\ greatest c a es' /\
      heap_holds c h' es'
}.

(** ** Rows and iterators *)

(** [RowView]. *)
Class RowView (R : Type) := view_column : forall E, R -> nat -> res E Datum.t.
#[export] Instance view_on_batch : RowView RowViewOnBatch := fun E v i => @column_by_idx E v i.
(** [RowWithMeta]. *)
#[export] Instance view_row : RowView row := fun E r i => unwrap (r !! i).

(** [compare_row] on two views. *)
Fixpoint compare_row_views {E R S} `{RowView R, RowView S} (primary_key_idx : list nat) (lhs : R) (rhs : S)
  : res E comparison :=
  match primary_key_idx with
  | [] => Ok Eq
  | column_idx :: rest =>
      let? left_datum := view_column E lhs column_idx in
      let? right_datum := view_column E rhs column_idx in
      let? c := unwrap (Datum.partial_cmp left_datum right_datum) in
      match c with
      | Eq => compare_row_views rest lhs rhs
      | v => Ok v
      end
  end.

(** [RecordBatchWithKeyIterator]. *)
Class RecordBatchIterator (I E : Type) := {
  iter_schema : I -> RecordSchemaWithKey;
  next_batch : I -> res E (option RecordBatchWithKey * I)
}.

Record SequencedRecordBatch := MkSequenced { sb_record_batch : RecordBatchWithKey; sb_sequence : Z }.
Definition sb_num_rows (sb : SequencedRecordBatch) : nat := rb_num_rows (sb_record_batch sb).

(** What a stream yields: a batch, or an error [G] of the source. *)
Inductive stream_item (G : Type) := Batch (b : SequencedRecordBatch) | Failed (g : G).
Arguments Batch {G}.
Arguments Failed {G}.
Abbreviation stream G := (list (stream_item G)).

Inductive MergeError (G : Type) :=
| MismatchedSchema (expect given : RecordSchemaWithKey)
| PullRecordBatch (g : G)
| MergeAppendRow (e : BatchError)
| MergeBuildRecordBatch (e : BatchError).
Arguments MismatchedSchema {G}.
Arguments PullRecordBatch {G}.
Arguments MergeAppendRow {G}.
Arguments MergeBuildRecordBatch {G}.

(** ** Buffered streams *)

Record BufferedStreamState := MkState { buffered_record_batch : SequencedRecordBatch; bs_cursor : nat }.

Definition state_num_rows (st : BufferedStreamState) : nat := sb_num_rows (buffered_record_batch st).
Definition state_is_valid (st : BufferedStreamState) : bool := (bs_cursor st <? state_num_rows st)%nat.
Definition state_is_empty (st : BufferedStreamState) : bool := (state_num_rows st <=? bs_cursor st)%nat.
Definition state_view (st : BufferedStreamState) (row_idx : nat) : RowViewOnBatch :=
  MkRowView (sb_record_batch (buffered_record_batch st)) row_idx.

Definition first_row {E} (st : BufferedStreamState) : res E RowViewOnBatch :=
  let? _ := rassert (state_is_valid st) in Ok (state_view st (bs_cursor st)).
Definition last_row {E} (st : BufferedStreamState) : res E RowViewOnBatch :=
  let? _ := rassert (state_is_valid st) in Ok (state_view st (state_num_rows st - 1)).
Definition next_row (st : BufferedStreamState) : option RowViewOnBatch * BufferedStreamState :=
  if (bs_cursor st <? state_num_rows st)%nat
  then (Some (state_view st (bs_cursor st)), MkState (buffered_record_batch st) (bs_cursor st + 1))
  else (None, st).

Section merge.
Context {G : Type} {H : Type -> Type} {HO : BinaryHeap H} {AR : Arrow}.
Abbreviation R := (res (MergeError G)).

Definition append_rows_to (st : BufferedStreamState) (builder : RecordBatchBuilder) (len' : nat)
  : R (nat * RecordBatchBuilder * BufferedStreamState) :=
  let? (builder, added) := rcontext MergeAppendRow
      (append_batch_range builder (sb_record_batch (buffered_record_batch st)) (bs_cursor st) len') in
  Ok (added, builder, MkState (buffered_record_batch st) (bs_cursor st + added)).
(** [take_record_batch_slice]: the subtraction of two [usize] panics below 0. *)
Definition take_record_batch_slice (st : BufferedStreamState) (len' : nat)
  : R (RecordBatchWithKey * BufferedStreamState) :=
  let? _ := rassert (bs_cursor st <=? state_num_rows st)%nat in
  let len_to_fetch := Nat.min (state_num_rows st - bs_cursor st) len' in
  let? batch := rb_slice (sb_record_batch (buffered_record_batch st)) (bs_cursor st) len_to_fetch in
  Ok (batch, MkState (buffered_record_batch st) (bs_cursor st + rb_num_rows batch)).

Record BufferedStream := MkBufferedStream {
  bs_schema : RecordSchemaWithKey;
  bs_stream : stream G;
  bs_state : option BufferedStreamState
}.
Definition is_exhausted (bs : BufferedStream) : bool := match bs_state bs with None => true | Some _ => false end.
Definition with_state (bs : BufferedStream) (st : BufferedStreamState) : BufferedStream :=
  MkBufferedStream (bs_schema bs) (bs_stream bs) (Some st).

Fixpoint pull_next_non_empty_batch (s : stream G) : R (option SequencedRecordBatch * stream G) :=
  match s with
  | [] => Ok (None, [])
  | Failed g :: _ => Err (PullRecordBatch g)
  | Batch b :: s => if (0 <? sb_num_rows b)%nat then Ok (Some b, s) else pull_next_non_empty_batch s
  end.

Definition build_buffered (schema : RecordSchemaWithKey) (s : stream G) : R BufferedStream :=
  let? (b, s) := pull_next_non_empty_batch s in
  Ok (MkBufferedStream schema s ((fun v => MkState v 0) <$> b)).

Definition sequence_in_buffer (bs : BufferedStream) : R Z :=
  let? st := unwrap (bs_state bs) in Ok (sb_sequence (buffered_record_batch st)).
Definition first_row_in_buffer (bs : BufferedStream) : R RowViewOnBatch :=
  let? st := unwrap (bs_state bs) in first_row st.
Definition last_row_in_buffer (bs : BufferedStream) : R RowViewOnBatch :=
  let? st := unwrap (bs_state bs) in last_row st.
Definition next_row_in_buffer (bs : BufferedStream) : R (option RowViewOnBatch * BufferedStream) :=
  let? st := unwrap (bs_state bs) in
  let (v, st) := next_row st in Ok (v, with_state bs st).

Definition pull_next_batch_if_necessary (bs : BufferedStream) : R (bool * BufferedStream) :=
  match bs_state bs with
  | None => Ok (false, bs)
  | Some st =>
      if negb (state_is_empty st) then Ok (false, bs)
      else
        let? (b, s) := pull_next_non_empty_batch (bs_stream bs) in
        match b with
        | None => Ok (false, MkBufferedStream (bs_schema bs) s None)
        | Some b => Ok (true, MkBufferedStream (bs_schema bs) s (Some (MkState b 0)))
        end
  end.

(** ** Streams in a heap *)

Record HeapBufferedStream := MkHeaped { hs_stream : BufferedStream; hs_reverse : bool }.

Definition is_after_boundary (hs : HeapBufferedStream) (schema : RecordSchemaWithKey)
    (boundary_row : RowViewOnBatch) : R bool :=
  let? first := first_row_in_buffer (hs_stream hs) in
  let? c := if hs_reverse hs
            then compare_row_views (rk_primary_key_indexes schema) boundary_row first
            else compare_row_views (rk_primary_key_indexes schema) first boundary_row in
  Ok (match c with Gt => true | _ => false end).

(** [Ord::cmp] of heaped streams. *)
Definition heaped_cmp (self other : HeapBufferedStream) : R comparison :=
  let pk := rk_primary_key_indexes (bs_schema (hs_stream self)) in
  let? a := first_row_in_buffer (hs_stream self) in
  let? b := first_row_in_buffer (hs_stream other) in
  let? ordering := if hs_reverse self then compare_row_views pk a b else compare_row_views pk b a in
  match ordering with
  | Eq =>
      let? x := sequence_in_buffer (hs_stream self) in
      let? y := sequence_in_buffer (hs_stream other) in
      Ok (x ?= y)
  | o => Ok o
  end.

(** ** The iterator *)

Record MergeIterator := MkMergeIterator {
  mi_inited : bool;
  mi_schema : RecordSchemaWithKey;
  mi_builder : RecordBatchBuilder;
  mi_origin_streams : list (stream G);
  mi_hot : H HeapBufferedStream;
  mi_cold : H HeapBufferedStream;
  mi_batch_size : nat;
  mi_reverse : bool
}.

Definition merge_new (schema : RecordSchemaWithKey) (streams : list (stream G)) (batch_size : nat)
    (reverse : bool) : MergeIterator :=
  MkMergeIterator false schema (batch_builder_new schema) streams heap_new heap_new batch_size reverse.

Definition set_heaps (mi : MergeIterator) (hot cold : H HeapBufferedStream) : MergeIterator :=
  MkMergeIterator (mi_inited mi) (mi_schema mi) (mi_builder mi) (mi_origin_streams mi) hot cold
    (mi_batch_size mi) (mi_reverse mi).
Definition set_builder (mi : MergeIterator) (b : RecordBatchBuilder) : MergeIterator :=
  MkMergeIterator (mi_inited mi) (mi_schema mi) b (mi_origin_streams mi) (mi_hot mi) (mi_cold mi)
    (mi_batch_size mi) (mi_reverse mi).
Definition set_inited (mi : MergeIterator) : MergeIterator :=
  MkMergeIterator true (mi_schema mi) (mi_builder mi) [] (mi_hot mi) (mi_cold mi)
    (mi_batch_size mi) (mi_reverse mi).

Definition heap_is_empty {A} (h : H A) : bool := (heap_len h =? 0)%nat.

(** [refill_hot]; each turn takes a stream from the cold heap. *)
Fixpoint refill_hot (fuel : nat) (mi : MergeIterator) : R MergeIterator :=
  if heap_is_empty (mi_cold mi) then Ok mi
  else
    match fuel with
    | O => Panic
    | S fuel =>
        let? stop :=
          if heap_is_empty (mi_hot mi) then Ok false
          else
            let? hottest := unwrap (heap_peek (mi_hot mi)) in
            let? merge_window_end := last_row_in_buffer (hs_stream hottest) in
            let? warmest := unwrap (heap_peek (mi_cold mi)) in
            is_after_boundary warmest (mi_schema mi) merge_window_end in
        if stop then Ok mi
        else
          let? popped := heap_pop heaped_cmp (mi_cold mi) in
          let? (warmest, cold) := unwrap popped in
          let? hot := heap_push heaped_cmp (mi_hot mi) warmest in
          refill_hot fuel (set_heaps mi hot cold)
    end.
Definition refill (mi : MergeIterator) : R MergeIterator := refill_hot (heap_len (mi_cold mi)) mi.

(** The streams of [init_if_necessary], pushed to the cold heap as they come. *)
Fixpoint push_streams (streams : list (stream G)) (mi : MergeIterator) : R MergeIterator :=
  match streams with
  | [] => Ok mi
  | s :: streams =>
      let? buffered := build_buffered (mi_schema mi) s in
      let? _ := ensure (bool_decide (mi_schema mi = bs_schema buffered))
                  (MismatchedSchema (mi_schema mi) (bs_schema buffered)) in
      let? mi :=
        if is_exhausted buffered then Ok mi
        else
          let? cold := heap_push heaped_cmp (mi_cold mi) (MkHeaped buffered (mi_reverse mi)) in
          Ok (set_heaps mi (mi_hot mi) cold) in
      push_streams streams mi
  end.
Definition init_if_necessary (mi : MergeIterator) : R MergeIterator :=
  if mi_inited mi then Ok mi
  else
    let? mi := push_streams (mi_origin_streams mi) mi in
    let? mi := refill mi in
    Ok (set_inited mi).

Definition reheap (mi : MergeIterator) (hs : HeapBufferedStream) : R MergeIterator :=
  let? (pulled_new_batch, bs) := pull_next_batch_if_necessary (hs_stream hs) in
  let hs := MkHeaped bs (hs_reverse hs) in
  if is_exhausted bs then refill mi
  else if (pulled_new_batch : bool) then
    let? cold_new_batch :=
      match heap_peek (mi_hot mi) with
      | Some hottest =>
          let? last := last_row_in_buffer (hs_stream hottest) in
          is_after_boundary hs (mi_schema mi) last
      | None => Ok false
      end in
    let? mi :=
      if (cold_new_batch : bool) then
        let? cold := heap_push heaped_cmp (mi_cold mi) hs in Ok (set_heaps mi (mi_hot mi) cold)
      else
        let? hot := heap_push heaped_cmp (mi_hot mi) hs in Ok (set_heaps mi hot (mi_cold mi)) in
    refill mi
  else
    let? hot := heap_push heaped_cmp (mi_hot mi) hs in
    Ok (set_heaps mi hot (mi_cold mi)).

Definition fetch_rows_from_one_stream (mi : MergeIterator) (num_rows_to_fetch : nat)
  : R (option RecordBatchWithKey * MergeIterator) :=
  let? _ := rassert (heap_len (mi_hot mi) =? 1)%nat in
  let? popped := heap_pop heaped_cmp (mi_hot mi) in
  let? (hs, hot) := unwrap popped in
  let mi := set_heaps mi hot (mi_cold mi) in
  let? st := unwrap (bs_state (hs_stream hs)) in
  let? (batch, builder, st) :=
    if bb_is_empty (mi_builder mi) then
      let? (batch, st) := take_record_batch_slice st num_rows_to_fetch in
      Ok (Some batch, mi_builder mi, st)
    else
      let? (_, builder, st) := append_rows_to st (mi_builder mi) num_rows_to_fetch in
      Ok (None, builder, st) in
  let? mi := reheap (set_builder mi builder) (MkHeaped (with_state (hs_stream hs) st) (hs_reverse hs)) in
  Ok (batch, mi).

Definition fetch_one_row_from_multiple_streams (mi : MergeIterator) : R MergeIterator :=
  let? _ := rassert (negb (heap_is_empty (mi_hot mi))) in
  let? popped := heap_pop heaped_cmp (mi_hot mi) in
  let? (hottest, hot) := unwrap popped in
  let mi := set_heaps mi hot (mi_cold mi) in
  let? (v, bs) := next_row_in_buffer (hs_stream hottest) in
  let? v := unwrap v in
  let? builder := rcontext MergeAppendRow (append_row_view (mi_builder mi) v) in
  reheap (set_builder mi builder) (MkHeaped bs (hs_reverse hottest)).

(** The loop of [fetch_next_batch]; each turn returns or adds a row. *)
Fixpoint fetch_loop (fuel : nat) (mi : MergeIterator) : R (option RecordBatchWithKey * MergeIterator) :=
  if negb (heap_is_empty (mi_hot mi)) && (bb_len (mi_builder mi) <? mi_batch_size mi)%nat then
    match fuel with
    | O => Panic
    | S fuel =>
        if (heap_len (mi_hot mi) =? 1)%nat then
          let fetch_row_num := (mi_batch_size mi - bb_len (mi_builder mi))%nat in
          let? (batch, mi) := fetch_rows_from_one_stream mi fetch_row_num in
          match batch with
          | Some b => Ok (Some b, mi)
          | None => fetch_loop fuel mi
          end
        else
          let? mi := fetch_one_row_from_multiple_streams mi in
          fetch_loop fuel mi
    end
  else if bb_is_empty (mi_builder mi) then Ok (None, mi)
  else
    let? (batch, builder) := rcontext MergeBuildRecordBatch (bb_build (mi_builder mi)) in
    Ok (Some batch, set_builder mi builder).

Definition fetch_next_batch (mi : MergeIterator) : R (option RecordBatchWithKey * MergeIterator) :=
  let? mi := init_if_necessary mi in
  let mi := set_builder mi (bb_clear (mi_builder mi)) in
  fetch_loop (mi_batch_size mi) mi.

#[export] Instance merge_iterator : RecordBatchIterator MergeIterator (MergeError G) := {|
  iter_schema := mi_schema;
  next_batch := fetch_next_batch
|}.
End merge.

Arguments BufferedStream : clear implicits.
Arguments HeapBufferedStream : clear implicits.
Arguments MergeIterator : clear implicits.

(** All the batches of an iterator. *)
Fixpoint collect {I E} `{RecordBatchIterator I E} (fuel : nat) (it : I) : res E (list RecordBatchWithKey) :=
  match fuel with
  | O => Panic
  | S fuel =>
      let? (o, it) := next_batch it in
      match o with
      | None => Ok []
      | Some b => let? bs := collect fuel it in Ok (b :: bs)
      end
  end.

(** ** Preorders *)

Lemma pre_map {A B} (f : A -> B) (c : B -> B -> comparison) : PreCmp c -> PreCmp (fun a b => c (f a) (f b)).
Proof. intros Hc. split; intros; [apply pre_antisym|eapply (pre_trans (c:=c)); eauto]. Qed.

Lemma pre_flip {A} (c : A -> A -> comparison) : PreCmp c -> PreCmp (fun a b => c b a).
Proof. intros Hc. split; intros; [apply (pre_antisym (c:=c))|eapply (pre_trans (c:=c)); eauto]. Qed.

Lemma pre_refl {A} (c : A -> A -> comparison) {Hc : PreCmp c} a : c a a = Eq.
Proof. pose proof (pre_antisym (c:=c) a a) as H. by destruct (c a a). Qed.

Lemma pre_lt_le {A} (c : A -> A -> comparison) {Hc : PreCmp c} x y z :
  c x y = Lt -> c y z <> Gt -> c x z = Lt.
Proof.
  intros Hxy Hyz. destruct (c x z) eqn:Hxz; [|done|].
  - assert (c y x <> Gt) as Hyx.
    { eapply (pre_trans (c:=c)); [exact Hyz|]. rewrite (pre_antisym (c:=c) x z), Hxz. done. }
    rewrite (pre_antisym (c:=c) x y), Hxy in Hyx. done.
  - exfalso. apply (pre_trans (c:=c) x y z); congruence.
Qed.

Lemma pre_le_lt {A} (c : A -> A -> comparison) {Hc : PreCmp c} x y z :
  c x y <> Gt -> c y z = Lt -> c x z = Lt.
Proof.
  intros Hxy Hyz. destruct (c x z) eqn:Hxz; [|done|].
  - assert (c z y <> Gt) as Hzy.
    { eapply (pre_trans (c:=c)); [|exact Hxy]. rewrite (pre_antisym (c:=c) x z), Hxz. done. }
    rewrite (pre_antisym (c:=c) y z), Hyz in Hzy. done.
  - exfalso. apply (pre_trans (c:=c) x y z); congruence.
Qed.

Lemma pre_lex {A} (c1 c2 : A -> A -> comparison) :
  PreCmp c1 -> PreCmp c2 -> PreCmp (fun a b => cmp_then (c1 a b) (c2 a b)).
Proof.
  intros H1 H2. split.
  - intros a b. rewrite (pre_antisym (c:=c1) a b), (pre_antisym (c:=c2) a b).
    by destruct (c1 a b), (c2 a b).
  - intros x y z Hxy Hyz. destruct (c1 x y) eqn:E1; cbn [cmp_then] in Hxy; [| |done].
    + destruct (c1 y z) eqn:E2; cbn [cmp_then] in Hyz; [| |done].
      * destruct (c1 x z) eqn:E3; cbn [cmp_then]; [|done|].
        -- by apply (pre_trans (c:=c2) x y z).
        -- exfalso. apply (pre_trans (c:=c1) x y z); congruence.
      * rewrite (pre_le_lt c1 x y z) by congruence. done.
    + rewrite (pre_lt_le c1 x y z); [done|done|]. by destruct (c1 y z).
Qed.

Lemma pre_total {A} (c : A -> A -> comparison) {Hc : TotalCmp c} : PreCmp c.
Proof.
  split; [apply cmp_antisym|]. intros x y z Hxy Hyz.
  destruct (c x y) eqn:E1; [apply cmp_eq in E1 as ->; done| |done].
  destruct (c y z) eqn:E2; [apply cmp_eq in E2 as <-; congruence| |done].
  rewrite (cmp_lt_trans x y z) by done. done.
Qed.

(** ** Merging lists *)

Lemma elem_concat {A} (x : A) ls : x ∈ concat ls <-> exists l, x ∈ l /\ l ∈ ls.
Proof. induction ls as [|l ls IH]; cbn [concat]; [set_solver|]. rewrite elem_of_app, IH. set_solver. Qed.

(** The lists [ss] interleaved into one. *)
Inductive interleaving {A} : list (list A) -> list A -> Prop :=
| il_nil : interleaving [] []
| il_drop ss out : interleaving ss out -> interleaving ([] :: ss) out
| il_take a s ss out : interleaving (s :: ss) out -> interleaving ((a :: s) :: ss) (a :: out)
| il_perm ss ss' out : ss ≡ₚ ss' -> interleaving ss' out -> interleaving ss out.

Section emits.
Context {A : Type} (c : A -> A -> comparison) {Hc : PreCmp c}.

(** [emits ss ts ss']: taking least heads of [ss] gives [ts] and leaves [ss']. *)
Inductive emits : list (list A) -> list A -> list (list A) -> Prop :=
| em_nil ss : emits ss [] ss
| em_drop ss ts ss' : emits ss ts ss' -> emits ([] :: ss) ts ss'
| em_take a s ss ts ss' :
    Forall (fun b => c a b <> Gt) (concat (s :: ss)) -> emits (s :: ss) ts ss' -> emits ((a :: s) :: ss) (a :: ts) ss'
| em_perm ss ss1 ts ss' : ss ≡ₚ ss1 -> emits ss1 ts ss' -> emits ss ts ss'.

Lemma emits_trans ss ts ss1 us ss2 : emits ss ts ss1 -> emits ss1 us ss2 -> emits ss (ts ++ us) ss2.
Proof.
  induction 1; intros Hu; cbn [app]; [done|by apply em_drop; auto|by apply em_take; auto|by eapply em_perm; eauto].
Qed.

Lemma emits_perm_concat ss ts ss' : emits ss ts ss' -> concat ss ≡ₚ ts ++ concat ss'.
Proof.
  induction 1 as [|ss ts ss' _ IH|a s ss ts ss' _ _ IH|ss ss1 ts ss' Hp _ IH]; cbn [concat app] in *; [done|done| |].
  - by rewrite IH.
  - by rewrite Hp.
Qed.

(** What is taken comes in order, before what is left. *)
Lemma emits_sorted ss ts ss' :
  emits ss ts ss' -> StronglySorted (fun a b => c a b <> Gt) ts /\
    Forall (fun a => Forall (fun b => c a b <> Gt) (concat ss')) ts.
Proof.
  induction 1 as [|ss ts ss' _ IH|a s ss ts ss' Ha He [IH1 IH2]|ss ss1 ts ss' Hp _ IH]; auto.
  - split; constructor.
  - apply emits_perm_concat in He. rewrite He in Ha. apply Forall_app in Ha as [Hts Hss'].
    split; constructor; done.
Qed.

Lemma emits_interleaving ss ts : emits ss ts [] -> interleaving ss ts.
Proof.
  remember [] as ss' eqn:Hss. induction 1; subst; [apply il_nil|by apply il_drop; auto|by apply il_take; auto|].
  eapply il_perm; eauto.
Qed.

(** A run from one list, all of it before the rest. *)
Lemma emits_run pre s ss :
  StronglySorted (fun a b => c a b <> Gt) (pre ++ s) ->
  Forall (fun a => Forall (fun b => c a b <> Gt) (concat ss)) pre ->
  emits ((pre ++ s) :: ss) pre (s :: ss).
Proof.
  induction pre as [|a pre IH]; intros Hs Hf; cbn [app]; [apply em_nil|].
  cbn [app] in Hs. apply StronglySorted_inv in Hs as [Hs Ha]. apply Forall_cons in Hf as [Hfa Hf].
  apply em_take; [|by apply IH]. cbn [concat]. by apply Forall_app.
Qed.
End emits.

(** ** The rows of batches and streams *)

Definition rows_of (b : RecordBatchWithKey) : list row :=
  (fun i => iter_columns (MkRowView b i)) <$> seq 0 (rb_num_rows b).
Definition batch_ok (rk : RecordSchemaWithKey) (b : RecordBatchWithKey) : Prop :=
  rb_schema_with_key b = rk /\ exists rows, batch_rows b rows.

Lemma rows_of_ok b rows : batch_rows b rows -> rows_of b = rows.
Proof.
  intros Hb. apply list_eq. intros i. unfold rows_of. rewrite list_lookup_fmap, (batch_num_rows b rows Hb).
  destruct (decide (i < length rows)%nat) as [Hi|Hi].
  - rewrite lookup_seq_lt by done. destruct (lookup_lt_is_Some_2 rows i Hi) as [r Hr]. rewrite Hr.
    cbn. f_equal. by apply (iter_columns_row b rows).
  - rewrite lookup_seq_ge, lookup_ge_None_2 by lia. done.
Qed.

Lemma batch_ok_rows rk b : batch_ok rk b -> batch_rows b (rows_of b).
Proof. intros [_ [rows Hb]]. by rewrite (rows_of_ok b rows). Qed.

(** Rows with the sequence of their batch. *)
Abbreviation trow := (row * Z)%type.
Definition tag (q : Z) (rows : list row) : list trow := (fun r => (r, q)) <$> rows.
Definition sb_rows (sb : SequencedRecordBatch) : list trow := tag (sb_sequence sb) (rows_of (sb_record_batch sb)).
Definition item_rows {G} (i : stream_item G) : list trow :=
  match i with Batch sb => sb_rows sb | Failed _ => [] end.
Definition stream_rows {G} (s : stream G) : list trow := s ≫= item_rows.

Section order.
Context (rk : RecordSchemaWithKey) (reverse : bool).
Abbreviation pk := (rk_primary_key_indexes rk).

Definition key_of (r : row) : bytes := user_key pk r.
(** The order of a scan: by key, descending if [reverse]; for a key, the rows
    of the newer batch first. *)
Definition key_cmp (a b : row) : comparison :=
  if reverse then bytes_cmp (key_of b) (key_of a) else bytes_cmp (key_of a) (key_of b).
Definition trow_cmp (a b : trow) : comparison := cmp_then (key_cmp a.1 b.1) (b.2 ?= a.2).
Definition trow_le (a b : trow) : Prop := trow_cmp a b <> Gt.

#[export] Instance key_cmp_pre : PreCmp key_cmp.
Proof.
  unfold key_cmp. destruct reverse.
  - apply (pre_flip (fun a b => bytes_cmp (key_of a) (key_of b))), (pre_map key_of bytes_cmp), (pre_total bytes_cmp).
  - apply (pre_map key_of bytes_cmp), (pre_total bytes_cmp).
Qed.
#[export] Instance trow_cmp_pre : PreCmp trow_cmp.
Proof.
  unfold trow_cmp. apply pre_lex.
  - apply (pre_map fst key_cmp), key_cmp_pre.
  - apply (pre_flip (fun a b : trow => a.2 ?= b.2)), (pre_map snd Z.compare), (pre_total Z.compare).
Qed.

Lemma trow_le_key a b : trow_le a b -> key_cmp a.1 b.1 <> Gt.
Proof. unfold trow_le, trow_cmp. by destruct (key_cmp a.1 b.1). Qed.
Lemma key_lt_trow a b : key_cmp a.1 b.1 = Lt -> trow_le a b.
Proof. unfold trow_le, trow_cmp. by intros ->. Qed.

(** The key of the row is made of key values. *)
Abbreviation keyed r := (key_row (rk_columns rk) pk r).

(** ** Views *)

Definition shows {V} `{RowView V} (v : V) (r : row) : Prop :=
  forall E i, view_column E v i = unwrap (r !! i).

Lemma shows_row (r : row) : shows r r.
Proof. done. Qed.
Lemma shows_batch b i r : batch_rows b (rows_of b) -> rows_of b !! i = Some r -> shows (MkRowView b i) r.
Proof. intros Hb Hr E j. by apply (column_by_idx_row b (rows_of b)). Qed.

Lemma compare_views_row {E V W} `{RowView V, RowView W} (v : V) (w : W) r1 r2 keys :
  shows v r1 -> shows w r2 ->
  @compare_row_views E _ _ _ _ keys v w =
  match compare_row keys r1 r2 with Ok c => Ok c | _ => Panic end.
Proof.
  intros Hv Hw. induction keys as [|i keys IH]; [done|]. cbn [compare_row_views compare_row].
  rewrite (Hv E i), (Hw E i). destruct (r1 !! i); cbn [unwrap rbind]; [|done].
  destruct (r2 !! i); cbn [unwrap rbind]; [|done].
  destruct (Datum.partial_cmp _ _) as [[]|]; cbn [unwrap rbind]; done.
Qed.

Lemma compare_views_key {E V W} `{RowView V, RowView W} (v : V) (w : W) r1 r2 :
  shows v r1 -> shows w r2 -> keyed r1 -> keyed r2 ->
  @compare_row_views E _ _ _ _ pk v w = Ok (bytes_cmp (key_of r1) (key_of r2)).
Proof.
  intros Hv Hw K1 K2. rewrite (compare_views_row v w r1 r2) by done.
  by rewrite (compare_row_user_key (rk_columns rk)).
Qed.
End order.

(** ** Streams in the heaps *)

Section streams.
Context {G : Type} (rk : RecordSchemaWithKey) (reverse : bool).
Abbreviation keyed r := (key_row (rk_columns rk) (rk_primary_key_indexes rk) r).
Abbreviation le := (trow_le rk reverse).

Definition sb_ok (sb : SequencedRecordBatch) : Prop :=
  batch_ok rk (sb_record_batch sb) /\ Forall (fun t => keyed t.1) (sb_rows sb).
Definition item_ok (i : stream_item G) : Prop := match i with Batch sb => sb_ok sb | Failed _ => False end.
Definition stream_ok (s : stream G) : Prop := Forall item_ok s /\ StronglySorted le (stream_rows s).

(** The rows of a state that are still to be read, and of a stream. *)
Definition buffer (st : BufferedStreamState) : list trow := drop (bs_cursor st) (sb_rows (buffered_record_batch st)).
Definition pending (hs : HeapBufferedStream G) : list trow :=
  match bs_state (hs_stream hs) with
  | Some st => buffer st ++ stream_rows (bs_stream (hs_stream hs))
  | None => []
  end.

(** A stream as the heaps have it, but that its buffer may be read up. *)
Record buffered (hs : HeapBufferedStream G) (st : BufferedStreamState) : Prop := {
  bf_reverse : hs_reverse hs = reverse;
  bf_schema : bs_schema (hs_stream hs) = rk;
  bf_state : bs_state (hs_stream hs) = Some st;
  bf_batch : sb_ok (buffered_record_batch st);
  bf_cursor : (bs_cursor st <= state_num_rows st)%nat;
  bf_items : Forall item_ok (bs_stream (hs_stream hs));
  bf_sorted : StronglySorted le (pending hs)
}.
Definition live (hs : HeapBufferedStream G) : Prop :=
  exists st, buffered hs st /\ (bs_cursor st < state_num_rows st)%nat.

(** The first and the last row of the buffer. *)
Definition first_of (hs : HeapBufferedStream G) : trow :=
  default ([], 0) (match bs_state (hs_stream hs) with Some st => head (buffer st) | None => None end).
Definition last_of (hs : HeapBufferedStream G) : trow :=
  default ([], 0) (match bs_state (hs_stream hs) with Some st => last (buffer st) | None => None end).
(** The comparison of the heaps: the stream to be read first is the greatest. *)
Definition stream_cmp (a b : HeapBufferedStream G) : comparison :=
  trow_cmp rk reverse (first_of b) (first_of a).

#[export] Instance stream_cmp_pre : PreCmp stream_cmp.
Proof.
  apply (pre_flip (fun a b => trow_cmp rk reverse (first_of a) (first_of b))), (pre_map first_of), trow_cmp_pre.
Qed.

Lemma length_rows_of b : length (rows_of b) = rb_num_rows b.
Proof. unfold rows_of. by rewrite length_fmap, length_seq. Qed.
Lemma length_sb_rows sb : length (sb_rows sb) = sb_num_rows sb.
Proof. unfold sb_rows, tag. by rewrite length_fmap, length_rows_of. Qed.

Lemma buffer_view st i r q :
  sb_ok (buffered_record_batch st) -> sb_rows (buffered_record_batch st) !! i = Some (r, q) ->
  shows (state_view st i) r /\ keyed r /\ q = sb_sequence (buffered_record_batch st).
Proof.
  intros [Hb Hk] Hi. pose proof Hi as Hi'. unfold sb_rows, tag in Hi'. rewrite list_lookup_fmap in Hi'.
  destruct (rows_of _ !! i) as [r'|] eqn:Hr; [|done]. injection Hi' as -> ->.
  split; [apply shows_batch; [by eapply batch_ok_rows|done]|]. split; [|done].
  rewrite Forall_forall in Hk. exact (Hk _ (list_elem_of_lookup_2 _ _ _ Hi)).
Qed.

Lemma buffer_length st : length (buffer st) = (state_num_rows st - bs_cursor st)%nat.
Proof. unfold buffer. by rewrite length_drop, length_sb_rows. Qed.

Lemma buffered_at hs st i :
  buffered hs st -> (i < state_num_rows st)%nat ->
  exists r, sb_rows (buffered_record_batch st) !! i = Some (r, sb_sequence (buffered_record_batch st)) /\
    shows (state_view st i) r /\ keyed r.
Proof.
  intros Hb Hi. destruct (lookup_lt_is_Some_2 (sb_rows (buffered_record_batch st)) i) as [[r q] Hr].
  { by rewrite length_sb_rows. }
  destruct (buffer_view st i r q (bf_batch _ _ Hb) Hr) as (H1 & H2 & ->). eauto.
Qed.

Lemma live_first hs :
  live hs -> exists v, first_row_in_buffer (hs_stream hs) = Ok v /\ shows v (first_of hs).1 /\
    keyed (first_of hs).1 /\ sequence_in_buffer (hs_stream hs) = Ok (first_of hs).2 /\
    exists rest, pending hs = first_of hs :: rest.
Proof.
  intros (st & Hb & Hc). destruct (buffered_at hs st _ Hb Hc) as (r & Hr & Hv & Hk).
  assert (Hbuf : buffer st = (r, sb_sequence (buffered_record_batch st)) ::
                             drop (S (bs_cursor st)) (sb_rows (buffered_record_batch st))) by (by apply drop_S).
  unfold first_row_in_buffer, sequence_in_buffer, first_of, pending, first_row. rewrite (bf_state _ _ Hb).
  cbn [unwrap rbind]. unfold state_is_valid. rewrite (proj2 (Nat.ltb_lt _ _) Hc). rewrite Hbuf. cbn.
  eexists. split; [done|]. split; [done|]. split; [done|]. split; [done|]. by eexists.
Qed.

Lemma live_last hs :
  live hs -> exists v, last_row_in_buffer (hs_stream hs) = Ok v /\ shows v (last_of hs).1 /\
    keyed (last_of hs).1 /\ last_of hs ∈ pending hs.
Proof.
  intros (st & Hb & Hc). destruct (buffered_at hs st (state_num_rows st - 1) Hb ltac:(lia)) as (r & Hr & Hv & Hk).
  assert (Hlast : last (buffer st) = Some (r, sb_sequence (buffered_record_batch st))).
  { rewrite last_lookup, buffer_length. unfold buffer. rewrite lookup_drop.
    by replace (bs_cursor st + _)%nat with (state_num_rows st - 1)%nat by lia. }
  unfold last_row_in_buffer, last_of, pending, last_row. rewrite (bf_state _ _ Hb).
  cbn [unwrap rbind]. unfold state_is_valid. rewrite (proj2 (Nat.ltb_lt _ _) Hc), Hlast. cbn.
  eexists. split; [done|]. split; [done|]. split; [done|]. apply elem_of_app. left. by apply last_Some_elem_of.
Qed.

(** The first row comes before all others of its stream, the rows of the
    buffer before its last. *)
Lemma live_first_le hs t : live hs -> t ∈ pending hs -> le (first_of hs) t.
Proof.
  intros Hl Ht. destruct (live_first hs Hl) as (_ & _ & _ & _ & _ & rest & Hp).
  destruct Hl as (st & Hb & _). pose proof (bf_sorted _ _ Hb) as Hs. rewrite Hp in Hs, Ht.
  apply StronglySorted_inv in Hs as [_ Hf]. rewrite Forall_forall in Hf.
  apply elem_of_cons in Ht as [->|Ht]; [|by apply Hf]. unfold trow_le. by rewrite pre_refl by apply trow_cmp_pre.
Qed.

Lemma buffer_le_last hs st t : buffered hs st -> t ∈ buffer st -> le t (last_of hs).
Proof.
  intros Hb Ht. pose proof (bf_sorted _ _ Hb) as Hs. unfold pending, last_of in *. rewrite (bf_state _ _ Hb) in *.
  apply StronglySorted_app_1_l in Hs as Hs'. clear Hs.
  destruct (last (buffer st)) as [l|] eqn:Hl; [|apply last_None in Hl; rewrite Hl in Ht; set_solver].
  cbn. apply last_Some in Hl as [l' Hl]. rewrite Hl in *. apply elem_of_app in Ht as [Ht|Ht].
  - exact (StronglySorted_app_1_elem_of _ _ _ t l Hs' Ht ltac:(by left)).
  - apply list_elem_of_singleton in Ht as ->. unfold trow_le. by rewrite pre_refl by apply trow_cmp_pre.
Qed.

(** The comparison the heaps use. *)
Lemma heaped_cmp_ok a b : live a -> live b -> heaped_cmp a b = Ok (stream_cmp a b).
Proof.
  intros Ha Hb. destruct (live_first a Ha) as (va & Hva & Sa & Ka & Qa & _).
  destruct (live_first b Hb) as (vb & Hvb & Sb & Kb & Qb & _). destruct Ha as (sta & Ha & _).
  unfold heaped_cmp. rewrite Hva, Hvb, Qa, Qb, (bf_schema _ _ Ha), (bf_reverse _ _ Ha). cbn [rbind].
  unfold stream_cmp, trow_cmp, key_cmp. destruct reverse.
  - rewrite (compare_views_key rk va vb _ _ Sa Sb) by done. by destruct (bytes_cmp _ _).
  - rewrite (compare_views_key rk vb va _ _ Sb Sa) by done. by destruct (bytes_cmp _ _).
Qed.
Lemma heaped_compares es : Forall live es -> compares heaped_cmp stream_cmp es.
Proof. rewrite Forall_forall. intros Hl a b Ha Hb. apply heaped_cmp_ok; auto. Qed.

Lemma is_after_boundary_ok hs v r :
  live hs -> shows v r -> keyed r ->
  is_after_boundary hs rk v = Ok (match key_cmp rk reverse r (first_of hs).1 with Lt => true | _ => false end).
Proof.
  intros Hl Hv Hk. destruct (live_first hs Hl) as (vf & Hvf & Sf & Kf & _). destruct Hl as (st & Hb & _).
  unfold is_after_boundary. rewrite Hvf, (bf_reverse _ _ Hb). cbn [rbind]. unfold key_cmp.
  destruct reverse.
  - rewrite (compare_views_key rk v vf _ _ Hv Sf) by done. cbn [rbind].
    rewrite (cmp_antisym (cmp:=bytes_cmp) (key_of rk r)). by destruct (bytes_cmp _ _).
  - rewrite (compare_views_key rk vf v _ _ Sf Hv) by done. cbn [rbind].
    rewrite (cmp_antisym (cmp:=bytes_cmp) (key_of rk r)). by destruct (bytes_cmp _ _).
Qed.
End streams.

(** ** The iterator over its heaps *)

Section iterator.
Context {G : Type} {H : Type -> Type} {HO : BinaryHeap H} {HL : BinaryHeapLaws H} {AR : Arrow} {AL : ArrowLaws AR}.
Context (rk : RecordSchemaWithKey) (reverse : bool).
Abbreviation live := (live (G:=G) rk reverse).
Abbreviation stream_cmp := (stream_cmp (G:=G) rk reverse).
Abbreviation HS := (HeapBufferedStream G).
Abbreviation MI := (MergeIterator G H).

Record heaps (mi : MI) (hot cold : list HS) : Prop := {
  hp_hot : heap_holds stream_cmp (mi_hot mi) hot;
  hp_cold : heap_holds stream_cmp (mi_cold mi) cold;
  hp_live : Forall live (hot ++ cold);
  hp_schema : mi_schema mi = rk
}.
(** The cold streams start after the buffer of some hot stream. *)
Definition window (hot cold : list HS) : Prop :=
  cold = [] \/ exists x, x ∈ hot /\ forall y, y ∈ cold -> key_cmp rk reverse (last_of x).1 (first_of y).1 = Lt.
(** Only the heaps differ. *)
Definition same_but_heaps (mi mi' : MI) : Prop := mi' = set_heaps mi (mi_hot mi') (mi_cold mi').

Lemma is_empty_ok (h : H HS) es : heap_holds stream_cmp h es -> heap_is_empty h = bool_decide (es = []).
Proof.
  intros Hh. unfold heap_is_empty. rewrite (heap_len_ok _ _ _ _ Hh). destruct es; [done|]. by rewrite bool_decide_eq_false_2.
Qed.

(** The turn of [refill_hot]: stop at the window's end, or move a stream. *)
Lemma refill_stop (mi : MI) hot cold :
  heaps mi hot cold -> hot <> [] -> cold <> [] ->
  exists x y, x ∈ hot /\ y ∈ cold /\ greatest stream_cmp y cold /\
    (let? hottest := unwrap (heap_peek (mi_hot mi)) in
     let? merge_window_end := last_row_in_buffer (hs_stream hottest) in
     let? warmest := unwrap (heap_peek (mi_cold mi)) in
     is_after_boundary warmest (mi_schema mi) merge_window_end) =
    Ok (match key_cmp rk reverse (last_of x).1 (first_of y).1 with Lt => true | _ => false end).
Proof.
  intros [Hh Hc Hl Hs] Hhot Hcold. apply Forall_app in Hl as [Hlh Hlc]. rewrite Forall_forall in Hlh, Hlc.
  pose proof (heap_peek_ok _ _ _ _ (stream_cmp_pre rk reverse) Hh) as Ph.
  pose proof (heap_peek_ok _ _ _ _ (stream_cmp_pre rk reverse) Hc) as Pc.
  destruct (heap_peek (mi_hot mi)) as [x|]; [|done]. destruct (heap_peek (mi_cold mi)) as [y|]; [|done].
  destruct Ph as [Hx _], Pc as [Hy Hg]. exists x, y. split; [done|]. split; [done|]. split; [done|].
  destruct (live_last rk reverse x (Hlh x Hx)) as (v & Hv & Sv & Kv & _). cbn [unwrap rbind]. rewrite Hv, Hs.
  cbn [rbind]. by apply is_after_boundary_ok; [apply Hlc| |].
Qed.

Lemma window_greatest hot cold x y :
  x ∈ hot -> greatest stream_cmp y cold ->
  key_cmp rk reverse (last_of x).1 (first_of y).1 = Lt -> window hot cold.
Proof.
  intros Hx Hg Hlt. right. exists x. split; [done|]. intros z Hz.
  apply (pre_lt_le (key_cmp rk reverse) _ _ _ Hlt). apply (trow_le_key rk reverse), (Hg z Hz).
Qed.

Lemma refill_ok fuel : forall mi hot cold,
  (length cold <= fuel)%nat -> heaps mi hot cold ->
  exists mi' hot' cold', refill_hot fuel mi = Ok mi' /\ heaps mi' hot' cold' /\ window hot' cold' /\
    hot' ++ cold' ≡ₚ hot ++ cold /\ same_but_heaps mi mi'.
Proof.
  induction fuel as [|fuel IH]; intros mi hot cold Hf Hh; cbn [refill_hot].
  { destruct cold; [|simpl in Hf; lia]. rewrite (is_empty_ok _ _ (hp_cold _ _ _ Hh)). exists mi, hot, [].
    split; [done|]. split; [done|]. split; [by left|]. split; [done|]. by destruct mi. }
  rewrite (is_empty_ok _ _ (hp_cold _ _ _ Hh)). case_bool_decide as Hcold.
  { subst cold. exists mi, hot, []. split; [done|]. split; [done|]. split; [by left|]. split; [done|]. by destruct mi. }
  assert (Hmove : exists mi' hot' cold',
    (let? popped := heap_pop heaped_cmp (mi_cold mi) in
     let? (warmest, cold) := unwrap popped in
     let? hot := heap_push heaped_cmp (mi_hot mi) warmest in
     refill_hot fuel (set_heaps mi hot cold)) = Ok mi' /\ heaps mi' hot' cold' /\ window hot' cold' /\
    hot' ++ cold' ≡ₚ hot ++ cold /\ same_but_heaps mi mi').
  { destruct Hh as [Hh Hc Hl Hs]. pose proof Hl as [Hlh Hlc]%Forall_app.
    destruct (heap_pop_ok (MergeError G) _ heaped_cmp stream_cmp (mi_cold mi) cold (stream_cmp_pre rk reverse) Hc Hcold
                (heaped_compares rk reverse _ Hlc)) as (y & c1 & cold1 & Hpop & Hp & _ & Hc1).
    rewrite Hpop. cbn [rbind unwrap]. rewrite Hp in Hl, Hlc. apply Forall_cons in Hlc as [Hy Hlc].
    destruct (heap_push_ok (MergeError G) _ heaped_cmp stream_cmp (mi_hot mi) hot y (stream_cmp_pre rk reverse) Hh)
      as (h1 & Hpush & Hh1); [apply heaped_compares; by constructor|]. rewrite Hpush. cbn [rbind].
    destruct (IH (set_heaps mi h1 c1) (y :: hot) cold1) as (mi' & hot' & cold' & He & Hh' & Hw & Hp' & Hsame).
    - apply Permutation_length in Hp. simpl in Hp. lia.
    - split; [done|done| |done]. cbn [app]. by rewrite <- Permutation_middle in Hl.
    - exists mi', hot', cold'. split; [done|]. split; [done|]. split; [done|]. split; [|done].
      rewrite Hp', Hp. by rewrite <- Permutation_middle. }
  rewrite (is_empty_ok _ _ (hp_hot _ _ _ Hh)). case_bool_decide as Hhot; [exact Hmove|].
  destruct (refill_stop mi hot cold Hh Hhot Hcold) as (x & y & Hx & Hy & Hg & ->). cbn [rbind].
  destruct (key_cmp _ _ _ _) eqn:Hk; [exact Hmove| |exact Hmove].
  exists mi, hot, cold. split; [done|]. split; [done|]. split; [by apply (window_greatest hot cold x y)|].
  split; [done|]. by destruct mi.
Qed.

Lemma pull_ok (s : stream G) :
  Forall (item_ok rk) s -> exists o s', pull_next_non_empty_batch s = Ok (o, s') /\ Forall (item_ok rk) s' /\
    match o with
    | None => stream_rows s = []
    | Some b => sb_ok rk b /\ (0 < sb_num_rows b)%nat /\ stream_rows s = sb_rows b ++ stream_rows s'
    end.
Proof.
  induction 1 as [|[b|g] s Hb Hs IH]; cbn [pull_next_non_empty_batch]; [by exists None, []| |done].
  destruct (Nat.ltb_spec 0 (sb_num_rows b)) as [Hn|Hn].
  - exists (Some b), s. done.
  - destruct IH as (o & s' & He & Hs' & Ho). exists o, s'. split; [done|]. split; [done|].
    assert (sb_rows b = []) as Hnil by (apply nil_length_inv; rewrite length_sb_rows; lia).
    unfold stream_rows in *. cbn [mbind list_bind item_rows]. by rewrite Hnil.
Qed.

(** [pull_next_batch_if_necessary] keeps what is pending. *)
Lemma pull_if_necessary_ok (hs : HS) st :
  buffered rk reverse hs st ->
  exists pulled bs, pull_next_batch_if_necessary (hs_stream hs) = Ok (pulled, bs) /\
    let hs' := MkHeaped bs (hs_reverse hs) in
    pending hs' = pending hs /\
    ((is_exhausted bs = true /\ pending hs = []) \/
     (is_exhausted bs = false /\ live hs' /\
      (pulled = false -> hs' = hs /\ (bs_cursor st < state_num_rows st)%nat))).
Proof.
  intros Hb. pose proof Hb as [Hrev Hsch Hst Hbat Hcur Hit Hsort]. unfold pull_next_batch_if_necessary. rewrite Hst.
  unfold state_is_empty. destruct (Nat.leb_spec (state_num_rows st) (bs_cursor st)) as [Hle|Hlt]; cbn [negb].
  - assert (Hbuf : buffer st = []) by (apply nil_length_inv; rewrite buffer_length; lia).
    assert (Hpend : pending hs = stream_rows (bs_stream (hs_stream hs))) by (unfold pending; by rewrite Hst, Hbuf).
    destruct (pull_ok _ Hit) as (o & s' & -> & Hs' & Ho). cbn [rbind]. destruct o as [b|].
    + destruct Ho as (Hbok & Hn & Hrows). eexists true, _. split; [done|].
      assert (Heq : pending (MkHeaped (MkBufferedStream (bs_schema (hs_stream hs)) s' (Some (MkState b 0))) (hs_reverse hs)) = pending hs)
        by (rewrite Hpend, Hrows; done).
      split; [exact Heq|]. right. split; [done|]. split; [|done]. exists (MkState b 0). split; [|exact Hn].
      split; [done|done|done|done|cbn; lia|done|by rewrite Heq].
    + eexists false, _. split; [done|]. cbn. rewrite Hpend, Ho. split; [done|]. by left.
  - exists false, (hs_stream hs). split; [done|]. destruct hs as [bs rev]. cbn in *. split; [done|]. right.
    split; [unfold is_exhausted; by rewrite Hst|]. split; [|done]. exists st. done.
Qed.

Abbreviation emits := (emits (trow_cmp rk reverse)).
Abbreviation all_pending hot cold := (pending <$> (hot ++ cold)).

Lemma emits_of_perm ss ss' : ss ≡ₚ ss' -> emits ss [] ss'.
Proof. intros Hp. eapply em_perm; [exact Hp|apply em_nil]. Qed.

Lemma heaps_push_hot mi hot cold hs :
  heaps mi hot cold -> live hs -> exists h, heap_push heaped_cmp (mi_hot mi) hs = @Ok (MergeError G) _ h /\
    heaps (set_heaps mi h (mi_cold mi)) (hs :: hot) cold.
Proof.
  intros [Hh Hc Hl Hs] Hlive. pose proof Hl as [Hlh Hlc]%Forall_app.
  destruct (heap_push_ok (MergeError G) _ heaped_cmp stream_cmp (mi_hot mi) hot hs (stream_cmp_pre rk reverse) Hh)
    as (h & Hpush & Hh1); [apply heaped_compares; by constructor|].
  exists h. split; [done|]. split; [done|done| |done]. by constructor.
Qed.
Lemma heaps_push_cold mi hot cold hs :
  heaps mi hot cold -> live hs -> exists h, heap_push heaped_cmp (mi_cold mi) hs = @Ok (MergeError G) _ h /\
    heaps (set_heaps mi (mi_hot mi) h) hot (hs :: cold).
Proof.
  intros [Hh Hc Hl Hs] Hlive. pose proof Hl as [Hlh Hlc]%Forall_app.
  destruct (heap_push_ok (MergeError G) _ heaped_cmp stream_cmp (mi_cold mi) cold hs (stream_cmp_pre rk reverse) Hc)
    as (h & Hpush & Hh1); [apply heaped_compares; by constructor|].
  exists h. split; [done|]. split; [done|done| |done]. rewrite <- Permutation_middle. by constructor.
Qed.

Lemma refill_heaps mi hot cold :
  heaps mi hot cold -> exists mi' hot' cold', refill mi = Ok mi' /\ heaps mi' hot' cold' /\ window hot' cold' /\
    hot' ++ cold' ≡ₚ hot ++ cold /\ same_but_heaps mi mi'.
Proof. intros Hh. apply refill_ok; [|done]. by rewrite (heap_len_ok _ _ _ _ (hp_cold _ _ _ Hh)). Qed.

Lemma same_set_heaps (mi mi' : MI) h c : same_but_heaps (set_heaps mi h c) mi' -> same_but_heaps mi mi'.
Proof. by intros ->. Qed.

(** Putting the stream back that was read from. *)
Lemma reheap_ok mi hot cold hs st :
  heaps mi hot cold -> buffered rk reverse hs st ->
  ((bs_cursor st < state_num_rows st)%nat -> window (hs :: hot) cold) ->
  exists mi' hot' cold', reheap mi hs = Ok mi' /\ heaps mi' hot' cold' /\ window hot' cold' /\
    same_but_heaps mi mi' /\ emits (pending hs :: all_pending hot cold) [] (all_pending hot' cold').
Proof.
  intros Hh Hb Hw. unfold reheap.
  destruct (pull_if_necessary_ok hs st Hb) as (pulled & bs & -> & Hpend & Hcase). cbn [rbind].
  destruct Hcase as [[Hex Hnil]|(Hex & Hlive & Hpull)]; rewrite Hex.
  - destruct (refill_heaps mi hot cold Hh) as (mi' & hot' & cold' & Hr & Hh' & Hw' & Hp & Hsame).
    exists mi', hot', cold'. split; [done|]. split; [done|]. split; [done|]. split; [done|]. rewrite Hnil.
    apply em_drop, emits_of_perm. by rewrite Hp.
  - rewrite <- Hpend. clear Hpend. set (hs' := MkHeaped bs (hs_reverse hs)) in *. destruct pulled.
    + assert (Hrest : forall mi1 hot1 cold1 h c, mi1 = set_heaps mi h c -> heaps mi1 hot1 cold1 ->
        hot1 ++ cold1 ≡ₚ hs' :: hot ++ cold ->
        exists mi' hot' cold', refill mi1 = Ok mi' /\ heaps mi' hot' cold' /\ window hot' cold' /\
          same_but_heaps mi mi' /\ emits (pending hs' :: all_pending hot cold) [] (all_pending hot' cold')).
      { intros mi1 hot1 cold1 h c -> Hh1 Hp1.
        destruct (refill_heaps _ hot1 cold1 Hh1) as (mi' & hot' & cold' & Hr & Hh' & Hw' & Hp & Hsame).
        exists mi', hot', cold'. split; [done|]. split; [done|]. split; [done|].
        split; [by eapply same_set_heaps|]. apply emits_of_perm. by rewrite Hp, Hp1, fmap_cons. }
      assert (exists b : bool, match heap_peek (mi_hot mi) with
        | Some hottest => let? last := last_row_in_buffer (hs_stream hottest) in is_after_boundary hs' (mi_schema mi) last
        | None => Ok false end = Ok b) as [b ->].
      { pose proof (heap_peek_ok _ _ _ _ (stream_cmp_pre rk reverse) (hp_hot _ _ _ Hh)) as Hpk.
        destruct (heap_peek (mi_hot mi)) as [x|]; [|by eexists]. destruct Hpk as [Hx _].
        pose proof (hp_live _ _ _ Hh) as Hl. rewrite Forall_forall in Hl.
        destruct (live_last rk reverse x) as (v & -> & Sv & Kv & _); [apply Hl, elem_of_app; by left|].
        cbn [rbind]. rewrite (hp_schema _ _ _ Hh). eexists. by apply is_after_boundary_ok. }
      cbn [rbind]. destruct b.
      * destruct (heaps_push_cold mi hot cold hs' Hh Hlive) as (c & -> & Hh1). cbn [rbind].
        eapply Hrest; [done|exact Hh1|]. by rewrite <- Permutation_middle.
      * destruct (heaps_push_hot mi hot cold hs' Hh Hlive) as (h & -> & Hh1). cbn [rbind].
        by eapply Hrest; [done|exact Hh1|].
    + destruct (Hpull eq_refl) as [Heq Hlt].
      destruct (heaps_push_hot mi hot cold hs' Hh Hlive) as (h & -> & Hh1). cbn [rbind].
      eexists _, (hs' :: hot), cold. split; [done|]. split; [exact Hh1|]. rewrite Heq.
      split; [by apply Hw|]. split; [done|]. by apply emits_of_perm.
Qed.

(** ** Reading rows *)

Definition advanced (hs : HS) (st : BufferedStreamState) (n : nat) : HS :=
  MkHeaped (with_state (hs_stream hs) (MkState (buffered_record_batch st) (bs_cursor st + n))) (hs_reverse hs).

Lemma advance_ok hs st n :
  buffered rk reverse hs st -> (bs_cursor st + n <= state_num_rows st)%nat ->
  buffered rk reverse (advanced hs st n) (MkState (buffered_record_batch st) (bs_cursor st + n)) /\
  pending hs = take n (buffer st) ++ pending (advanced hs st n) /\
  ((bs_cursor st + n < state_num_rows st)%nat -> last_of (advanced hs st n) = last_of hs).
Proof.
  intros [Hrev Hsch Hst Hbat Hcur Hit Hsort] Hn. set (hs' := advanced hs st n).
  assert (Hp : pending hs = take n (buffer st) ++ pending hs').
  { unfold pending, hs'. cbn [advanced hs_stream with_state bs_state bs_stream]. rewrite Hst, app_assoc. f_equal.
    unfold buffer. cbn [bs_cursor buffered_record_batch]. rewrite <- drop_drop. by rewrite take_drop. }
  split; [|split; [done|]].
  - split; [done|done|done|done|done|done|]. rewrite Hp in Hsort. by eapply StronglySorted_app_1_r.
  - intros Hlt. unfold last_of, hs'. cbn [advanced hs_stream with_state bs_state]. rewrite Hst. f_equal.
    rewrite !last_lookup, !buffer_length. unfold buffer, state_num_rows in *. rewrite !lookup_drop.
    cbn [bs_cursor buffered_record_batch]. f_equal. lia.
Qed.

(** The first row of a popped stream comes before everything else. *)
Lemma popped_least mi hot cold h hot' t :
  heaps mi hot cold -> window hot cold -> hot ≡ₚ h :: hot' -> greatest stream_cmp h hot' ->
  t ∈ concat (all_pending hot' cold) -> trow_le rk reverse (first_of h) t.
Proof.
  intros Hh Hw Hp Hg Ht. pose proof (hp_live _ _ _ Hh) as Hl. rewrite Hp in Hl. rewrite Forall_forall in Hl.
  assert (Hle : forall x, x ∈ hot -> trow_le rk reverse (first_of h) (first_of x)).
  { intros x Hx. rewrite Hp in Hx. apply elem_of_cons in Hx as [->|Hx]; [|by apply (Hg x)].
    unfold trow_le. by rewrite pre_refl by apply trow_cmp_pre. }
  rewrite elem_concat in Ht. destruct Ht as (p & Ht & (y & -> & Hy)%list_elem_of_fmap).
  assert (Hly : live y) by (apply Hl; set_solver).
  apply (pre_trans (c:=trow_cmp rk reverse) _ (first_of y)); [|by apply live_first_le].
  apply elem_of_app in Hy as [Hy|Hy]; [apply Hle; rewrite Hp; by right|].
  destruct Hw as [->|(x & Hx & Hw)]; [set_solver|]. apply key_lt_trow.
  eapply (pre_le_lt (key_cmp rk reverse)); [|exact (Hw y Hy)].
  assert (Hlx : live x) by (apply Hl; rewrite <- Hp; set_solver).
  destruct (live_last rk reverse x Hlx) as (_ & _ & _ & _ & Hin).
  apply (trow_le_key rk reverse), (pre_trans (c:=trow_cmp rk reverse) _ (first_of x)); [by apply Hle|].
  by apply live_first_le.
Qed.

(** All of the only hot buffer comes before the cold streams. *)
Lemma single_before_cold mi h st cold a b :
  heaps mi [h] cold -> window [h] cold -> buffered rk reverse h st ->
  a ∈ buffer st -> b ∈ concat (pending <$> cold) -> trow_le rk reverse a b.
Proof.
  intros Hh Hw Hb Ha Hin. rewrite elem_concat in Hin. destruct Hin as (p & Hin & (y & -> & Hy)%list_elem_of_fmap).
  destruct Hw as [->|(x & Hx & Hw)]; [set_solver|]. apply list_elem_of_singleton in Hx as ->.
  pose proof (hp_live _ _ _ Hh) as Hl. rewrite Forall_forall in Hl.
  apply key_lt_trow. eapply (pre_lt_le (key_cmp rk reverse) _ (first_of y).1).
  - eapply (pre_le_lt (key_cmp rk reverse)); [|exact (Hw y Hy)]. apply (trow_le_key rk reverse).
    by apply (buffer_le_last rk reverse h st).
  - apply (trow_le_key rk reverse), live_first_le; [|done]. apply Hl. set_solver.
Qed.

Lemma pop_hot mi hot cold :
  heaps mi hot cold -> hot <> [] ->
  exists h h1 hot', heap_pop heaped_cmp (mi_hot mi) = @Ok (MergeError G) _ (Some (h, h1)) /\ hot ≡ₚ h :: hot' /\
    greatest stream_cmp h hot' /\ heaps (set_heaps mi h1 (mi_cold mi)) hot' cold /\ live h.
Proof.
  intros [Hh Hc Hl Hs] Hne. pose proof Hl as [Hlh Hlc]%Forall_app.
  destruct (heap_pop_ok (MergeError G) _ heaped_cmp stream_cmp (mi_hot mi) hot (stream_cmp_pre rk reverse) Hh Hne
              (heaped_compares rk reverse _ Hlh)) as (h & h1 & hot' & Hpop & Hp & Hg & Hh1).
  exists h, h1, hot'. rewrite Hp in Hl, Hlh. apply Forall_cons in Hlh as [Hlive _].
  split; [done|]. split; [done|]. split; [done|]. split; [|done]. split; [done|done| |done].
  cbn [app] in Hl. by apply Forall_cons in Hl as [_ Hl].
Qed.

(** What a step of the loop leaves alone. *)
Definition same_config (mi mi' : MI) : Prop :=
  mi_inited mi' = mi_inited mi /\ mi_batch_size mi' = mi_batch_size mi.
(** The iterator at work: the heaps, the window and the rows of the builder. *)
Record merging (mi : MI) (hot cold : list HS) (B : list row) : Prop := {
  mg_heaps : heaps mi hot cold;
  mg_window : window hot cold;
  mg_builder : builder_rows (mi_builder mi) B;
  mg_schema : bb_schema_with_key (mi_builder mi) = rk
}.

(** Reading [n] rows of the popped stream and putting it back. *)
Lemma reheap_after mi hot cold hot' h st n b B' :
  heaps mi hot' cold -> window hot cold -> hot ≡ₚ h :: hot' -> buffered rk reverse h st ->
  (bs_cursor st + n <= state_num_rows st)%nat -> builder_rows b B' -> bb_schema_with_key b = rk ->
  exists mi' hot2 cold2, reheap (set_builder mi b) (advanced h st n) = Ok mi' /\ merging mi' hot2 cold2 B' /\
    same_config mi mi' /\ mi_builder mi' = b /\
    emits (pending (advanced h st n) :: all_pending hot' cold) [] (all_pending hot2 cold2).
Proof.
  intros Hh Hw Hp Hb Hn HB Hbs. destruct (advance_ok h st n Hb Hn) as (Hb' & _ & Hlast).
  destruct (reheap_ok (set_builder mi b) hot' cold (advanced h st n) _ ltac:(by destruct Hh; split) Hb')
    as (mi' & hot2 & cold2 & -> & Hh2 & Hw2 & Hsame & Hem).
  { unfold state_num_rows. cbn [bs_cursor buffered_record_batch]. intros Hlt. destruct Hw as [->|(x & Hx & Hw)]; [by left|].
    right. rewrite Hp in Hx. apply elem_of_cons in Hx as [->|Hx]; [|exists x; split; [by right|done]].
    exists (advanced h st n). split; [by left|]. rewrite Hlast by done. done. }
  exists mi', hot2, cold2. split; [done|]. rewrite Hsame. split; [|done].
  split; [by rewrite <- Hsame|done|done|done].
Qed.

Lemma emits_pop (hot cold : list HS) h hot' : hot ≡ₚ h :: hot' -> all_pending hot cold ≡ₚ pending h :: all_pending hot' cold.
Proof. intros Hp. by rewrite Hp. Qed.

Lemma take_1_buffer (hs : HS) st : buffered rk reverse hs st -> (bs_cursor st < state_num_rows st)%nat ->
  take 1 (buffer st) = [first_of hs].
Proof.
  intros Hb Hc. unfold first_of. rewrite (bf_state _ _ _ _ Hb). pose proof (buffer_length st) as Hl.
  destruct (buffer st) as [|t l]; [simpl in Hl; lia|done].
Qed.

Lemma fetch_one_ok mi hot cold B :
  merging mi hot cold B -> hot <> [] ->
  exists mi' hot' cold' t, fetch_one_row_from_multiple_streams mi = Ok mi' /\ merging mi' hot' cold' (B ++ [t.1]) /\
    same_config mi mi' /\ emits (all_pending hot cold) [t] (all_pending hot' cold').
Proof.
  intros [Hh Hw HB Hbs] Hne. unfold fetch_one_row_from_multiple_streams.
  rewrite (is_empty_ok _ _ (hp_hot _ _ _ Hh)), bool_decide_eq_false_2 by done. cbn [negb rassert rbind].
  destruct (pop_hot mi hot cold Hh Hne) as (h & h1 & hot' & -> & Hp & Hg & Hh1 & Hlive). cbn [rbind unwrap].
  destruct Hlive as (st & Hb & Hc). pose proof Hb as [_ _ Hst Hbat _ _ _].
  unfold next_row_in_buffer. rewrite Hst. cbn [unwrap rbind]. unfold next_row.
  rewrite (proj2 (Nat.ltb_lt _ _) Hc). cbn [rbind unwrap].
  destruct (buffered_at rk reverse h st _ Hb Hc) as (r & Hr & _).
  destruct (advance_ok h st 1 Hb ltac:(lia)) as (_ & Hpend & _). rewrite (take_1_buffer h st Hb Hc) in Hpend.
  assert (Hf1 : (first_of h).1 = r).
  { pose proof (take_1_buffer h st Hb Hc) as Ht. unfold buffer in Ht. rewrite (drop_S _ _ _ Hr) in Ht. injection Ht as <-. done. }
  destruct Hbat as [Hbok _]. pose proof (batch_ok_rows _ _ Hbok) as Hrows. destruct Hbok as [Hsch _].
  destruct (append_row_view_ok (mi_builder mi) B (sb_record_batch (buffered_record_batch st)) _ (bs_cursor st) r HB Hrows)
    as (b & Hab & HB' & Hbs'); [congruence| |].
  { unfold sb_rows, tag in Hr. rewrite list_lookup_fmap in Hr. destruct (_ !! _); [|done]. by injection Hr as ->. }
  unfold state_view. cbn [mi_builder set_heaps]. rewrite Hab. cbn [rcontext rbind].
  destruct (reheap_after (set_heaps mi h1 (mi_cold mi)) hot cold hot' h st 1 b _ Hh1 Hw Hp Hb ltac:(lia) HB' ltac:(congruence))
    as (mi' & hot2 & cold2 & Heq & Hm & Hsame & _ & Hem).
  exists mi', hot2, cold2, (first_of h). split; [exact Heq|]. rewrite Hf1. split; [done|]. split; [done|].
  eapply em_perm; [by apply emits_pop|]. rewrite Hpend. cbn [app]. apply em_take; [|exact Hem].
  apply Forall_forall. intros t Ht. cbn [concat] in Ht. apply elem_of_app in Ht as [Ht|Ht].
  - apply (live_first_le rk reverse h); [by exists st|]. rewrite Hpend. by right.
  - by apply (popped_least mi hot cold h hot').
Qed.

(** Rows of the only hot stream: a slice of its batch, or appended. *)
Lemma fetch_run_ok mi hot cold B k :
  merging mi hot cold B -> length hot = 1%nat -> (0 < k)%nat ->
  exists o mi' hot' cold' B' ts, fetch_rows_from_one_stream mi k = Ok (o, mi') /\ merging mi' hot' cold' B' /\
    same_config mi mi' /\ emits (all_pending hot cold) ts (all_pending hot' cold') /\ (0 < length ts <= k)%nat /\
    match o with
    | Some b => B = [] /\ batch_ok rk b /\ rows_of b = ts.*1
    | None => B' = B ++ ts.*1
    end.
Proof.
  intros [Hh Hw HB Hbs] H1 Hk. unfold fetch_rows_from_one_stream.
  rewrite (heap_len_ok _ _ _ _ (hp_hot _ _ _ Hh)), H1. cbn [Nat.eqb rassert rbind].
  destruct (pop_hot mi hot cold Hh) as (h & h1 & hot' & -> & Hp & Hg & Hh1 & (st & Hb & Hc)); [by intros ->|].
  cbn [rbind unwrap]. assert (hot' = []) as ->.
  { apply nil_length_inv. apply Permutation_length in Hp. simpl in Hp. lia. }
  apply Permutation_singleton_r in Hp as ->. pose proof Hb as [_ _ Hst [Hbok _] Hcur _ Hsorted]. rewrite Hst. cbn [unwrap rbind].
  set (sb := buffered_record_batch st) in *. set (m := Nat.min (state_num_rows st - bs_cursor st) k).
  pose proof (batch_ok_rows _ _ Hbok) as Hrows. destruct Hbok as [Hsch _].
  assert (Hm : (0 < m <= k)%nat /\ (bs_cursor st + m <= state_num_rows st)%nat) by lia. destruct Hm as [Hm Hmn].
  assert (Hts : take m (drop (bs_cursor st) (rows_of (sb_record_batch sb))) = (take m (buffer st)).*1).
  { unfold buffer, sb_rows, tag. rewrite <- fmap_drop, <- fmap_take, <- list_fmap_compose. symmetry. apply list_fmap_id. }
  assert (Hlen : length (take m (buffer st)) = m) by (rewrite length_take, buffer_length; lia).
  destruct (advance_ok h st m Hb Hmn) as (_ & Hpend & _).
  assert (Hrun : forall ss, emits (pending (advanced h st m) :: all_pending [] cold) [] ss ->
    emits (all_pending [h] cold) (take m (buffer st)) ss).
  { intros ss Hss. cbn [app fmap list_fmap] in *. rewrite <- (app_nil_r (take m (buffer st))). rewrite Hpend in Hsorted |- *.
    eapply emits_trans; [|exact Hss]. apply emits_run; [done|].
    apply Forall_forall. intros a Ha. apply Forall_forall. intros b' Hb'.
    apply (single_before_cold mi h st cold a b' Hh Hw Hb); [by eapply subseteq_take|done]. }
  unfold bb_is_empty. cbn [mi_builder set_heaps]. rewrite (builder_len_rows _ _ HB).
  destruct (Nat.eqb_spec (length B) 0) as [HB0|HB0].
  - apply nil_length_inv in HB0. subst B. unfold take_record_batch_slice. fold sb.
    rewrite (proj2 (Nat.leb_le _ _) Hcur). cbn [rassert rbind]. fold m.
    destruct (rb_slice_ok (E:=MergeError G) (sb_record_batch sb) _ (bs_cursor st) m Hrows) as (b & -> & Hbr & Hbsch).
    { rewrite length_rows_of. exact Hmn. }
    cbn [rbind]. rewrite (batch_num_rows _ _ Hbr). rewrite Hts, length_fmap, Hlen.
    destruct (reheap_after (set_heaps mi h1 (mi_cold mi)) [h] cold [] h st m (mi_builder mi) [] Hh1 Hw ltac:(done) Hb Hmn HB Hbs)
      as (mi' & hot2 & cold2 & Heq & Hmg & Hsame & _ & Hem).
    unfold advanced in Heq. fold sb in Heq. rewrite Heq. cbn [rbind]. exists (Some b), mi', hot2, cold2, [], (take m (buffer st)).
    split; [done|]. split; [done|]. split; [done|]. split; [by apply Hrun|]. split; [by rewrite Hlen|].
    split; [done|]. split; [split; [congruence|by eexists]|]. by rewrite (rows_of_ok _ _ Hbr).
  - unfold append_rows_to. fold sb.
    destruct (append_batch_range_ok (mi_builder mi) B (sb_record_batch sb) _ (bs_cursor st) k HB Hrows) as (b & -> & HB' & Hbs');
      [congruence|]. cbn [rcontext rbind].
    assert (Nat.min (length (rows_of (sb_record_batch sb)) - bs_cursor st) k = m) as Hmm by (by rewrite length_rows_of).
    rewrite take_min_drop, Hmm, Hts in HB'. rewrite Hmm.
    destruct (reheap_after (set_heaps mi h1 (mi_cold mi)) [h] cold [] h st m b _ Hh1 Hw ltac:(done) Hb Hmn HB' ltac:(congruence))
      as (mi' & hot2 & cold2 & Heq & Hmg & Hsame & _ & Hem).
    unfold advanced in Heq. fold sb in Heq. rewrite Heq. cbn [rbind].
    exists None, mi', hot2, cold2, (B ++ (take m (buffer st)).*1), (take m (buffer st)).
    split; [done|]. split; [done|]. split; [done|]. split; [by apply Hrun|]. split; [by rewrite Hlen|]. done.
Qed.

Lemma fetch_loop_ok fuel : forall mi hot cold B,
  merging mi hot cold B -> (length B <= mi_batch_size mi <= length B + fuel)%nat ->
  exists o mi' hot' cold' B' ts, fetch_loop fuel mi = Ok (o, mi') /\ merging mi' hot' cold' B' /\
    same_config mi mi' /\ emits (all_pending hot cold) ts (all_pending hot' cold') /\
    match o with
    | Some b => batch_ok rk b /\ rows_of b = B ++ ts.*1 /\ (0 < length (B ++ ts.*1) <= mi_batch_size mi)%nat
    | None => B = [] /\ ts = [] /\ (hot = [] \/ mi_batch_size mi = 0%nat)
    end.
Proof.
  induction fuel as [|fuel IH]; intros mi hot cold B Hm Hf; pose proof Hm as [Hh Hw HB Hbs].
  all: cbn [fetch_loop]; rewrite (is_empty_ok _ _ (hp_hot _ _ _ Hh)), (builder_len_rows _ _ HB).
  all: destruct (negb (bool_decide (hot = [])) && (length B <? mi_batch_size mi)%nat) eqn:Hgo.
  { apply andb_true_iff in Hgo as [_ Hlt%Nat.ltb_lt]. lia. }
  2: { apply andb_true_iff in Hgo as [Hhot Hlt%Nat.ltb_lt]. apply negb_true_iff, bool_decide_eq_false in Hhot.
       rewrite (heap_len_ok _ _ _ _ (hp_hot _ _ _ Hh)). destruct (Nat.eqb_spec (length hot) 1) as [H1|H1].
       - destruct (fetch_run_ok mi hot cold B (mi_batch_size mi - length B) Hm H1 ltac:(lia))
           as (o & mi1 & hot1 & cold1 & B1 & ts & -> & Hm1 & Hsame & Hem & Hts & Ho). cbn [rbind].
         destruct o as [b|].
         + destruct Ho as (-> & Hb & Hr). exists (Some b), mi1, hot1, cold1, B1, ts. cbn [app length] in *.
           rewrite length_fmap. split_and!; try done; lia.
         + subst B1. destruct (IH mi1 hot1 cold1 (B ++ ts.*1) Hm1)
             as (o & mi2 & hot2 & cold2 & B2 & us & He & Hm2 & Hsame2 & Hem2 & Ho).
           { rewrite length_app, length_fmap. destruct Hsame as [_ ->]. lia. }
           exists o, mi2, hot2, cold2, B2, (ts ++ us). split; [done|]. split; [done|].
           split; [destruct Hsame, Hsame2; split; congruence|]. split; [by eapply emits_trans|].
           destruct Hsame as [_ Hbsz]. rewrite Hbsz in Ho. rewrite fmap_app, app_assoc. destruct o; [done|].
           destruct Ho as (Hnil & _ & _). apply (f_equal length) in Hnil. rewrite length_app, length_fmap in Hnil. simpl in Hnil. lia.
       - destruct (fetch_one_ok mi hot cold B Hm Hhot) as (mi1 & hot1 & cold1 & t & -> & Hm1 & Hsame & Hem). cbn [rbind].
         destruct (IH mi1 hot1 cold1 (B ++ [t.1]) Hm1)
             as (o & mi2 & hot2 & cold2 & B2 & us & He & Hm2 & Hsame2 & Hem2 & Ho).
         { rewrite length_app. destruct Hsame as [_ ->]. cbn [length]. lia. }
         exists o, mi2, hot2, cold2, B2, ([t] ++ us). split; [done|]. split; [done|].
         split; [destruct Hsame, Hsame2; split; congruence|]. split; [by eapply emits_trans|].
         destruct Hsame as [_ Hbsz]. rewrite Hbsz in Ho. rewrite fmap_app, app_assoc. destruct o; [done|].
         destruct Ho as (Hnil & _ & _). apply (f_equal length) in Hnil. rewrite length_app in Hnil. simpl in Hnil. lia. }
  all: unfold bb_is_empty; rewrite (builder_len_rows _ _ HB); destruct (Nat.eqb_spec (length B) 0) as [HB0|HB0].
  all: try (apply nil_length_inv in HB0; subst B; exists None, mi, hot, cold, [], []; split; [done|]; split; [done|];
            split; [done|]; split; [apply em_nil|]; split; [done|]; split; [done|];
            apply andb_false_iff in Hgo as [Hhot|Hlt%Nat.ltb_ge];
            [left; by apply negb_false_iff, bool_decide_eq_true in Hhot|right; simpl in Hlt; lia]).
  all: destruct (bb_build_ok _ _ HB) as (b & -> & Hb & Hbsch); cbn [rcontext rbind].
  all: exists (Some b), (set_builder mi (bb_clear (mi_builder mi))), hot, cold, [], []; split; [done|].
  all: split; [split; [by destruct Hh; split|done|by eapply bb_clear_rows|done]|]; split; [done|]; split; [apply em_nil|].
  all: cbn [fmap list_fmap]; rewrite app_nil_r, (rows_of_ok _ _ Hb); split; [split; [congruence|by eexists]|].
  all: split; [done|lia].
Qed.

(** Pushing the streams whose first batches have come. *)
Lemma push_streams_ok streams : forall mi cold,
  heaps mi [] cold -> mi_reverse mi = reverse -> Forall (stream_ok rk reverse) streams ->
  exists mi' cold', push_streams streams mi = Ok mi' /\ heaps mi' [] cold' /\
    same_but_heaps mi mi' /\ emits ((stream_rows <$> streams) ++ (pending <$> cold)) [] (pending <$> cold').
Proof.
  induction streams as [|s streams IH]; intros mi cold Hh Hrev Hok; cbn [push_streams].
  { exists mi, cold. split; [done|]. split; [done|]. split; [by destruct mi|]. apply em_nil. }
  apply Forall_cons in Hok as [[Hs Hsort] Hok]. unfold build_buffered.
  destruct (pull_ok s Hs) as (o & s' & -> & Hs' & Ho). cbn [rbind bs_schema].
  rewrite bool_decide_eq_true_2 by done. cbn [ensure rbind]. rewrite fmap_cons. cbn [app]. destruct o as [b|].
  - destruct Ho as (Hb & Hn & Hrows). cbn [fmap option_fmap option_map is_exhausted bs_state].
    set (hs := MkHeaped (MkBufferedStream (mi_schema mi) s' (Some (MkState b 0))) (mi_reverse mi)).
    assert (Hp : pending hs = stream_rows s) by (by rewrite Hrows).
    assert (Hlive : live hs).
    { exists (MkState b 0). split; [|exact Hn]. split; [done|apply Hh|done|done|cbn; lia|done|by rewrite Hp]. }
    destruct (heaps_push_cold mi [] cold hs Hh Hlive) as (c & -> & Hh1). cbn [rbind].
    destruct (IH (set_heaps mi (mi_hot mi) c) (hs :: cold) Hh1 Hrev Hok) as (mi' & cold' & He & Hh' & Hsame & Hem).
    exists mi', cold'. split; [done|]. split; [done|]. split; [by eapply same_set_heaps|].
    eapply em_perm; [|exact Hem]. rewrite fmap_cons, Hp. apply Permutation_middle.
  - cbn [fmap option_fmap option_map is_exhausted bs_state rbind].
    destruct (IH mi cold Hh Hrev Hok) as (mi' & cold' & He & Hh' & Hsame & Hem).
    exists mi', cold'. split; [done|]. split; [done|]. split; [done|]. rewrite Ho. by apply em_drop.
Qed.

(** One call of [next_batch], the first or a later one. *)
Lemma next_step_ok mi hot cold B :
  merging mi hot cold B -> (0 < mi_batch_size mi)%nat ->
  exists o mi' hot' cold' B' ts, fetch_loop (mi_batch_size mi) (set_builder mi (bb_clear (mi_builder mi))) = Ok (o, mi') /\
    merging mi' hot' cold' B' /\ same_config mi mi' /\ emits (all_pending hot cold) ts (all_pending hot' cold') /\
    match o with
    | Some b => batch_ok rk b /\ rows_of b = ts.*1 /\ (0 < length ts <= mi_batch_size mi)%nat
    | None => ts = [] /\ hot = [] /\ cold = []
    end.
Proof.
  intros [Hh Hw HB Hbs] Hk.
  destruct (fetch_loop_ok (mi_batch_size mi) (set_builder mi (bb_clear (mi_builder mi))) hot cold [])
    as (o & mi' & hot' & cold' & B' & ts & He & Hm & Hsame & Hem & Ho).
  - split; [by destruct Hh; split|done|by eapply bb_clear_rows|done].
  - cbn [length mi_batch_size set_builder]. lia.
  - exists o, mi', hot', cold', B', ts. split; [done|]. split; [done|]. split; [done|]. split; [done|].
    cbn [app mi_batch_size set_builder] in Ho. destruct o as [b|]; [by rewrite length_fmap in Ho|].
    destruct Ho as (_ & -> & [->|H0]); [|lia]. split; [done|]. split; [done|].
    destruct Hw as [->|(x & Hx & _)]; [done|set_solver].
Qed.

Lemma collect_inited n : forall mi hot cold B,
  merging mi hot cold B -> mi_inited mi = true -> (0 < mi_batch_size mi)%nat ->
  (length (concat (all_pending hot cold)) < n)%nat ->
  exists bs ts, @collect _ (MergeError G) _ n mi = Ok bs /\ Forall (batch_ok rk) bs /\
    Forall (fun b => (0 < length (rows_of b) <= mi_batch_size mi)%nat) bs /\
    concat (rows_of <$> bs) = ts.*1 /\ emits (all_pending hot cold) ts [].
Proof.
  induction n as [|n IH]; intros mi hot cold B Hm Hi Hk Hn; [lia|].
  destruct (next_step_ok mi hot cold B Hm Hk) as (o & mi' & hot' & cold' & B' & ts & He & Hm' & [Hi' Hk'] & Hem & Ho).
  cbn [collect next_batch merge_iterator]. unfold fetch_next_batch, init_if_necessary. rewrite Hi. cbn [rbind].
  cbn [mi_batch_size set_builder]. rewrite He. cbn [rbind]. destruct o as [b|].
  - destruct Ho as (Hb & Hr & Hlen).
    pose proof (Permutation_length (emits_perm_concat _ _ _ _ Hem)) as Hl. rewrite length_app in Hl.
    destruct (IH mi' hot' cold' B' Hm') as (bs & us & Hc & Hbs & Hsz & Hrows & Hem'); [congruence|lia|lia|].
    change (fetch_next_batch (G:=G)) with (@next_batch _ _ (merge_iterator (G:=G) (H:=H))). rewrite Hc. cbn [rbind].
    exists (b :: bs), (ts ++ us). split; [done|]. split; [by constructor|]. rewrite Hk' in Hsz.
    split; [constructor; [by rewrite Hr, length_fmap|done]|].
    split; [rewrite fmap_cons; cbn [concat]; by rewrite Hr, Hrows, fmap_app|]. by eapply emits_trans.
  - destruct Ho as (-> & -> & ->). exists [], []. split_and!; try constructor.
Qed.

Lemma collect_merge streams batch_size :
  Forall (stream_ok rk reverse) streams -> rk_columns rk <> [] -> (0 < batch_size)%nat ->
  exists bs ts,
    @collect _ (MergeError G) (merge_iterator (H:=H)) (S (length (concat (stream_rows <$> streams))))
      (merge_new rk streams batch_size reverse) = Ok bs /\
    Forall (batch_ok rk) bs /\ Forall (fun b => (0 < length (rows_of b) <= batch_size)%nat) bs /\
    concat (rows_of <$> bs) = ts.*1 /\ emits (stream_rows <$> streams) ts [].
Proof.
  intros Hok Hne Hk. set (mi := merge_new rk streams batch_size reverse).
  destruct (push_streams_ok streams mi []) as (mi1 & cold1 & Hpush & Hh1 & Hsame1 & Hem1); [|done|done|].
  { split; [apply heap_new_holds|apply heap_new_holds|constructor|done]. }
  cbn [fmap list_fmap] in Hem1. rewrite app_nil_r in Hem1.
  destruct (refill_heaps mi1 [] cold1 Hh1) as (mi2 & hot2 & cold2 & Hre & Hh2 & Hw2 & Hp2 & Hsame2).
  assert (Hmi2 : mi2 = set_heaps mi (mi_hot mi2) (mi_cold mi2)) by (by rewrite Hsame2, Hsame1).
  assert (Hm : merging (set_inited mi2) hot2 cold2 []).
  { split; [by destruct Hh2; split|done| |]; rewrite Hmi2; [|done]. by apply batch_builder_new_rows. }
  assert (Hem : emits (stream_rows <$> streams) [] (all_pending hot2 cold2)).
  { rewrite <- (app_nil_r []). eapply emits_trans; [exact Hem1|]. apply emits_of_perm. by rewrite Hp2. }
  assert (Hinit : @init_if_necessary G H HO mi = Ok (set_inited mi2)).
  { unfold init_if_necessary. cbn [mi_inited mi merge_new mi_origin_streams]. fold mi. rewrite Hpush. cbn [rbind]. by rewrite Hre. }
  assert (Hsize : mi_batch_size (set_inited mi2) = batch_size) by (by rewrite Hmi2).
  destruct (collect_inited (S (length (concat (stream_rows <$> streams)))) (set_inited mi2) hot2 cold2 [] Hm eq_refl)
    as (bs & ts & Hc & Hbs & Hsz & Hrows & Hem'); [by rewrite Hsize| |].
  { rewrite (Permutation_length (emits_perm_concat _ _ _ _ Hem)). cbn [app]. lia. }
  exists bs, ts. rewrite Hsize in Hsz. split; [|split; [done|split; [done|split; [done|]]]].
  - rewrite <- Hc. cbn [collect]. f_equal.
    change (fetch_next_batch mi = fetch_next_batch (set_inited mi2)). unfold fetch_next_batch. by rewrite Hinit.
  - by rewrite <- (app_nil_l ts); eapply emits_trans.
Qed.
End iterator.

(** ** A heap *)

(** A list with a greatest element in front. *)
Fixpoint front {E A} (f : A -> A -> res E comparison) (l : list A) : res E (list A) :=
  match l with
  | [] => Ok []
  | x :: l =>
      let? l := front f l in
      match l with
      | [] => Ok [x]
      | y :: l' => let? o := f x y in match o with Lt => Ok (y :: x :: l') | _ => Ok (x :: y :: l') end
      end
  end.
#[export] Instance list_heap : BinaryHeap list := {|
  heap_new := fun A => [];
  heap_len := fun A => length;
  heap_peek := fun A => head;
  heap_push := fun E A f h a =>
    match h with
    | [] => Ok [a]
    | b :: h' => let? o := f a b in match o with Gt => Ok (a :: h) | _ => Ok (b :: a :: h') end
    end;
  heap_pop := fun E A f h =>
    match h with
    | [] => Ok None
    | a :: h => let? h := front f h in Ok (Some (a, h))
    end
|}.

Definition front_greatest {A} (c : A -> A -> comparison) (h : list A) : Prop :=
  match h with [] => True | a :: _ => greatest c a h end.

Lemma greatest_cons {A} (c : A -> A -> comparison) {Hc : PreCmp c} a b l :
  greatest c b (b :: l) -> c b a <> Gt -> greatest c a (a :: b :: l).
Proof.
  intros Hg Hba x Hx. apply elem_of_cons in Hx as [->|Hx]; [by rewrite pre_refl|].
  apply (pre_trans (c:=c) _ b); [by apply Hg|done].
Qed.
Lemma greatest_insert {A} (c : A -> A -> comparison) {Hc : PreCmp c} a b l :
  greatest c b (b :: l) -> c a b <> Gt -> greatest c b (b :: a :: l).
Proof.
  intros Hg Hab x Hx. apply elem_of_cons in Hx as [->|Hx]; [by rewrite pre_refl|].
  apply elem_of_cons in Hx as [->|Hx]; [done|]. apply Hg. by right.
Qed.

Lemma front_ok {E A} (f : A -> A -> res E comparison) c {Hc : PreCmp c} l :
  compares f c l -> exists l', front f l = Ok l' /\ l' ≡ₚ l /\ front_greatest c l'.
Proof.
  induction l as [|x l IH]; intros Hf; cbn [front]; [by exists []|].
  destruct IH as (l' & -> & Hp & Hg); [intros a b Ha Hb; apply Hf; by right|]. cbn [rbind].
  destruct l' as [|y l'].
  { exists [x]. split; [done|]. split; [by rewrite <- Hp|]. intros z Hz. apply list_elem_of_singleton in Hz as ->. by rewrite pre_refl. }
  assert (y ∈ x :: l) as Hy by (right; rewrite <- Hp; by left).
  rewrite (Hf x y ltac:(by left) Hy). cbn [rbind]. cbn [front_greatest] in Hg.
  destruct (c x y) eqn:Hxy.
  - exists (x :: y :: l'). split; [done|]. split; [by rewrite Hp|]. apply (greatest_cons c); [done|].
    by rewrite (pre_antisym (c:=c) x y), Hxy.
  - exists (y :: x :: l'). split; [done|]. split; [rewrite <- Hp; apply Permutation_swap|].
    apply (greatest_insert c); [done|congruence].
  - exists (x :: y :: l'). split; [done|]. split; [by rewrite Hp|]. apply (greatest_cons c); [done|].
    by rewrite (pre_antisym (c:=c) x y), Hxy.
Qed.

#[export] Instance list_heap_laws : BinaryHeapLaws list.
Proof.
  refine {| heap_holds := fun A c h es => h ≡ₚ es /\ front_greatest c h |}; cbn.
  - done.
  - intros A c h es [Hp _]. by apply Permutation_length.
  - intros A c h es Hc [Hp Hg]. destruct h as [|a h]; cbn; [by apply Permutation_nil in Hp|].
    split; [rewrite <- Hp; by left|]. intros b Hb. apply Hg. by rewrite Hp.
  - intros E A f c h es a Hc [Hp Hg] Hf. destruct h as [|b h].
    + apply Permutation_nil in Hp as ->. exists [a]. split; [done|]. split; [done|].
      intros z Hz. apply list_elem_of_singleton in Hz as ->. by rewrite pre_refl.
    + assert (b ∈ a :: es) as Hb by (right; rewrite <- Hp; by left).
      rewrite (Hf a b ltac:(by left) Hb). cbn [rbind]. destruct (c a b) eqn:Hab.
      * exists (b :: a :: h). split; [done|]. split; [rewrite <- Hp; apply Permutation_swap|].
        apply (greatest_insert c); [done|congruence].
      * exists (b :: a :: h). split; [done|]. split; [rewrite <- Hp; apply Permutation_swap|].
        apply (greatest_insert c); [done|congruence].
      * exists (a :: b :: h). split; [done|]. split; [by rewrite Hp|]. apply (greatest_cons c); [done|].
        by rewrite (pre_antisym (c:=c) a b), Hab.
  - intros E A f c h es Hc [Hp Hg] Hne Hf. destruct h as [|a h]; [by apply Permutation_nil in Hp|].
    destruct (front_ok f c h) as (h' & -> & Hp' & Hg').
    { intros x y Hx Hy. apply Hf; rewrite <- Hp; by right. }
    exists a, h', h'. split; [done|]. split; [by rewrite <- Hp, Hp'|]. split; [|done].
    intros b Hb. apply Hg. right. by rewrite <- Hp'.
Qed.

(** ** Properties *)

(** C17. The merge iterator sorts.  Given any number of sorted streams of
    batches of one schema, empty batches and empty streams included, whatever
    greatest element the heaps prefer among equal ones, every call of
    [next_batch] returns and the iteration ends.  The batches it yields are
    non-empty and within the batch size, and their rows in order are an
    interleaving of the streams in the order of the scan: by primary key
    (descending for a reversed scan) and, for equal keys, rows of the larger
    sequence first. *)
Theorem merge_sorts_streams {G H} {HO : BinaryHeap H} {HL : BinaryHeapLaws H} {AR : Arrow} {AL : ArrowLaws AR}
    rk reverse (streams : list (stream G)) batch_size :
  Forall (stream_ok rk reverse) streams -> rk_columns rk <> [] -> (0 < batch_size)%nat ->
  exists bs ts,
    @collect _ (MergeError G) (merge_iterator (H:=H)) (S (length (concat (stream_rows <$> streams))))
      (merge_new rk streams batch_size reverse) = Ok bs /\
    Forall (batch_ok rk) bs /\ Forall (fun b => (0 < length (rows_of b) <= batch_size)%nat) bs /\
    concat (rows_of <$> bs) = ts.*1 /\
    interleaving (stream_rows <$> streams) ts /\ StronglySorted (trow_le rk reverse) ts.
Proof.
  intros Hok Hne Hk. destruct (collect_merge (G:=G) (H:=H) rk reverse streams batch_size Hok Hne Hk)
    as (bs & ts & Hc & Hb & Hs & Hr & He). exists bs, ts. do 4 (split; [done|]).
  split; [by eapply emits_interleaving|]. by apply (emits_sorted _ _ _ _ He).
Qed.

(** Two streams with versions of one row. *)
Definition demo_record_schema : RecordSchemaWithKey := to_record_schema_with_key the_demo.
Definition demo_batch (rows : list row) : RecordBatchWithKey :=
  match rfold (fun bb r => @append_row demo_arrow bb r) rows (batch_builder_new demo_record_schema) with
  | Ok bb => match @bb_build demo_arrow bb with Ok (b, _) => b | _ => MkRecordBatch demo_record_schema [] end
  | _ => MkRecordBatch demo_record_schema []
  end.
Lemma demo_batch_ok rows : Forall (row_ok the_demo) rows -> batch_rows (demo_batch rows) rows /\
  rb_schema_with_key (demo_batch rows) = demo_record_schema.
Proof.
  intros Hrows. pose proof demo_arrow_laws as HL. unfold demo_batch.
  assert (Hfold : forall rows bb R, Forall (row_ok the_demo) rows -> builder_rows bb R ->
    bb_schema_with_key bb = demo_record_schema ->
    exists bb', rfold (fun bb r => @append_row demo_arrow bb r) rows bb = Ok bb' /\ builder_rows bb' (R ++ rows) /\
      bb_schema_with_key bb' = demo_record_schema).
  { clear rows Hrows. induction rows as [|r rows IH]; intros bb R Hok HR Hs; cbn [rfold].
    - exists bb. by rewrite app_nil_r.
    - apply Forall_cons in Hok as [Hr Hok].
      destruct (append_row_ok (AR:=demo_arrow) bb R r HR) as (bb1 & -> & HR1 & Hs1); [by rewrite Hs|]. cbn [rbind].
      destruct (IH bb1 (R ++ [r]) Hok HR1 ltac:(congruence)) as (bb2 & He & HR2 & Hs2).
      exists bb2. rewrite <- app_assoc in HR2. done. }
  destruct (Hfold rows (batch_builder_new demo_record_schema) [] Hrows) as (bb & -> & HR & Hs);
    [by apply batch_builder_new_rows|done|].
  destruct (bb_build_ok (AR:=demo_arrow) bb rows HR) as (b & -> & Hb & Hbs). split; [done|congruence].
Qed.

Definition demo_stream (rows : list row) (q : Z) : stream unit := [Batch (MkSequenced (demo_batch rows) q)].
Lemma demo_stream_rows rows q : Forall (row_ok the_demo) rows -> stream_rows (demo_stream rows q) = tag q rows.
Proof.
  intros Hr. unfold stream_rows, demo_stream. cbn [mbind list_bind item_rows]. rewrite app_nil_r. unfold sb_rows.
  cbn [sb_record_batch sb_sequence]. by rewrite (rows_of_ok _ rows) by (by apply demo_batch_ok).
Qed.
Lemma demo_stream_ok rows q :
  Forall (row_ok the_demo) rows -> Forall (Forall Datum.ok) rows ->
  StronglySorted (trow_le demo_record_schema false) (tag q rows) ->
  stream_ok demo_record_schema false (demo_stream rows q).
Proof.
  intros Hr Hd Hs. destruct (demo_batch_ok rows Hr) as [Hb Hsch]. split; [|by rewrite demo_stream_rows].
  apply Forall_singleton. split; [split; [done|by eexists]|]. unfold sb_rows. cbn [sb_record_batch sb_sequence].
  rewrite (rows_of_ok _ _ Hb). apply Forall_fmap. apply Forall_forall. intros r Hin.
  rewrite Forall_forall in Hr, Hd. cbn. apply (schema_key_row the_demo r the_demo_wf); auto.
Qed.

Lemma merge_sorts_streams_witness :
  exists bs, @collect _ (MergeError unit) (@merge_iterator unit list list_heap demo_arrow) 5
      (merge_new demo_record_schema
         [demo_stream [demo_row 97 5; demo_row 98 5] 7; []; demo_stream [demo_row 97 3; demo_row 97 5] 9] 2 false) = Ok bs /\
    concat (rows_of <$> bs) = [demo_row 97 3; demo_row 97 5; demo_row 97 5; demo_row 98 5].
Proof.
  set (s1 := demo_stream [demo_row 97 5; demo_row 98 5] 7).
  set (s2 := demo_stream [demo_row 97 3; demo_row 97 5] 9).
  assert (H1 : stream_ok demo_record_schema false s1).
  { apply demo_stream_ok; [repeat constructor| |repeat constructor; vm_compute; discriminate].
    repeat constructor; vm_compute; discriminate. }
  assert (H2 : stream_ok demo_record_schema false s2).
  { apply demo_stream_ok; [repeat constructor| |repeat constructor; vm_compute; discriminate].
    repeat constructor; vm_compute; discriminate. }
  destruct (@merge_sorts_streams unit list list_heap list_heap_laws demo_arrow demo_arrow_laws demo_record_schema false
              [s1; []; s2] 2) as (bs & ts & Hc & _ & _ & Hr & _).
  - constructor; [exact H1|]. constructor; [|constructor; [exact H2|constructor]]. split; constructor.
  - discriminate.
  - lia.
  - exists bs. assert (E : @collect _ (MergeError unit) (@merge_iterator unit list list_heap demo_arrow) 5
      (merge_new demo_record_schema [s1; []; s2] 2 false) = Ok bs) by exact Hc.
    split; [exact E|]. vm_compute in E. injection E as <-. reflexivity.
Defined.
