(* ===== verification/Dedup.v ===== *)
(** * Removing duplicates, and chaining

    Models [analytic_engine/src/row_iter/dedup.rs], which keeps the first of
    the rows with one key that an iterator yields one after the other, and
    [analytic_engine/src/row_iter/chain.rs], which reads its streams one after
    the other.  The dedup iterator is over any [RecordBatchIterator]; over the
    merge iterator it gives the newest row of every key. *)

From Stdlib Require Import ZArith Lia Sorted.
From stdpp Require Import base tactics option list sorting numbers strings gmap sets.
From S2P Require Import Prelude Bytes Datum MemComparable Schema Projection RecordBatch MemKey Merge.

#[local] Open Scope Z_scope.

(** ** The dedup iterator *)

Inductive DedupError (E : Type) :=
| ReadFromSubIter (e : E)
| DedupAppendRow (e : BatchError)
| DedupBuildRecordBatch (e : BatchError).
Arguments ReadFromSubIter {E}.
Arguments DedupAppendRow {E}.
Arguments DedupBuildRecordBatch {E}.

Record DedupIterator (I : Type) := MkDedup {
  di_schema : RecordSchemaWithKey;
  di_builder : RecordBatchBuilder;
  di_iter : I;
  di_prev_row : option row;
  di_selected_rows : list bool;
  di_total_duplications : nat;
  di_total_selected_rows : nat
}.
Arguments MkDedup {I}.
Arguments di_schema {I}.
Arguments di_builder {I}.
Arguments di_iter {I}.
Arguments di_prev_row {I}.
Arguments di_selected_rows {I}.
Arguments di_total_duplications {I}.
Arguments di_total_selected_rows {I}.

Section dedup.
Context {I E : Type} {IT : RecordBatchIterator I E} {AR : Arrow}.
Abbreviation R := (res (DedupError E)).

Definition dedup_new (iter : I) : DedupIterator I :=
  let schema := iter_schema iter in
  MkDedup schema (batch_builder_new schema) iter None [] 0 0.

(** The rows the builder is given: [enumerate] over the marks. *)
Fixpoint append_selected (b : RecordBatchWithKey) (row_idx : nat) (selected_rows : list bool)
    (builder : RecordBatchBuilder) : R RecordBatchBuilder :=
  match selected_rows with
  | [] => Ok builder
  | selected :: rest =>
      let? builder :=
        if (selected : bool) then rcontext DedupAppendRow (append_row_view builder (MkRowView b row_idx))
        else Ok builder in
      append_selected b (S row_idx) rest builder
  end.

Definition filter_batch (di : DedupIterator I) (b : RecordBatchWithKey) (selected_num : nat)
  : R (RecordBatchWithKey * DedupIterator I) :=
  let? _ := rassert (selected_num <=? rb_num_rows b)%nat in
  let selected := (di_total_selected_rows di + selected_num)%nat in
  let duplications := (di_total_duplications di + (rb_num_rows b - selected_num))%nat in
  let with_builder builder :=
    MkDedup (di_schema di) builder (di_iter di) (di_prev_row di) (di_selected_rows di) duplications selected in
  if (selected_num =? rb_num_rows b)%nat then Ok (b, with_builder (di_builder di))
  else
    let? builder := append_selected b 0 (di_selected_rows di) (bb_clear (di_builder di)) in
    let? (b, builder) := rcontext DedupBuildRecordBatch (bb_build builder) in
    Ok (b, with_builder builder).

(** The marks after the key columns: [column.dedup] for each. *)
Definition mark_keys (b : RecordBatchWithKey) (pk : list nat) (selected : list bool) : R (list bool) :=
  rfold (fun selected col_idx =>
           let? column := rb_column b col_idx in
           Ok (block_dedup column selected)) pk selected.

Definition dedup_batch (di : DedupIterator I) (b : RecordBatchWithKey)
  : R (RecordBatchWithKey * DedupIterator I) :=
  let pk := rk_primary_key_indexes (di_schema di) in
  let selected := replicate (rb_num_rows b) false in
  let with_rows prev selected :=
    MkDedup (di_schema di) (di_builder di) (di_iter di) prev selected
      (di_total_duplications di) (di_total_selected_rows di) in
  if rb_is_empty b then Ok (b, with_rows (di_prev_row di) selected)
  else
    let? selected := mark_keys b pk selected in
    let? selected :=
      match di_prev_row di with
      | Some prev_row =>
          let? c := compare_row_views pk prev_row (MkRowView b 0) in
          Ok (match c with Eq => <[0%nat := false]> selected | _ => selected end)
      | None => Ok selected
      end in
    let selected_num := length (filter (fun s : bool => s = true) selected) in
    let? last := clone_row_at b (rb_num_rows b - 1) in
    filter_batch (with_rows (Some last) selected) b selected_num.

Definition set_iter (di : DedupIterator I) (iter : I) : DedupIterator I :=
  MkDedup (di_schema di) (di_builder di) iter (di_prev_row di) (di_selected_rows di)
    (di_total_duplications di) (di_total_selected_rows di).

Definition dedup_next_batch (di : DedupIterator I) : R (option RecordBatchWithKey * DedupIterator I) :=
  let? (o, iter) := rcontext ReadFromSubIter (next_batch (di_iter di)) in
  let di := set_iter di iter in
  match o with
  | Some b => let? (b, di) := dedup_batch di b in Ok (Some b, di)
  | None => Ok (None, di)
  end.

#[export] Instance dedup_iterator : RecordBatchIterator (DedupIterator I) (DedupError E) := {|
  iter_schema := di_schema;
  next_batch := dedup_next_batch
|}.
End dedup.

(** ** The chain iterator *)

Inductive ChainError (G : Type) := PollNextRecordBatch (g : G).
Arguments PollNextRecordBatch {G}.

Record ChainIterator (G : Type) := MkChain {
  ci_schema : RecordSchemaWithKey;
  ci_streams : list (stream G);
  ci_next_stream_idx : nat
}.
Arguments MkChain {G}.
Arguments ci_schema {G}.
Arguments ci_streams {G}.
Arguments ci_next_stream_idx {G}.

Section chain.
Context {G : Type}.

(** The loop: a turn takes an item from a stream or leaves an ended one. *)
Fixpoint chain_loop (fuel : nat) (ci : ChainIterator G)
  : res (ChainError G) (option RecordBatchWithKey * ChainIterator G) :=
  if (ci_next_stream_idx ci <? length (ci_streams ci))%nat then
    match fuel with
    | O => Panic
    | S fuel =>
        let? s := unwrap (ci_streams ci !! ci_next_stream_idx ci) in
        match s with
        | Failed g :: _ => Err (PollNextRecordBatch g)
        | Batch v :: s =>
            let ci := MkChain (ci_schema ci) (<[ci_next_stream_idx ci := s]> (ci_streams ci)) (ci_next_stream_idx ci) in
            if (0 <? sb_num_rows v)%nat then Ok (Some (sb_record_batch v), ci) else chain_loop fuel ci
        | [] => chain_loop fuel (MkChain (ci_schema ci) (ci_streams ci) (ci_next_stream_idx ci + 1))
        end
    end
  else Ok (None, ci).

Definition chain_size (ci : ChainIterator G) : nat :=
  (length (concat (drop (ci_next_stream_idx ci) (ci_streams ci))) +
   (length (ci_streams ci) - ci_next_stream_idx ci))%nat.
Definition chain_next_batch (ci : ChainIterator G) := chain_loop (chain_size ci) ci.

#[export] Instance chain_iterator : RecordBatchIterator (ChainIterator G) (ChainError G) := {|
  iter_schema := ci_schema;
  next_batch := chain_next_batch
|}.
End chain.

(** ** Marking the changes of a column *)

(** The marks of rows after the first: those that differ from the row before. *)
Fixpoint changes {A} (ne : A -> A -> bool) (prev : A) (l : list A) : list bool :=
  match l with [] => [] | a :: l => ne a prev :: changes ne a l end.
Definition changes_from {A} (ne : A -> A -> bool) (l : list A) : list bool :=
  match l with [] => [] | a :: l => true :: changes ne a l end.

Lemma mark_changes_or {A} (ne : A -> A -> bool) prev l sel :
  length sel = length l -> mark_changes ne prev l sel = zip_with orb (changes ne prev l) sel.
Proof.
  revert prev sel. induction l as [|a l IH]; intros prev [|s sel] Hl; try done. cbn in *.
  by rewrite IH by lia.
Qed.
Lemma dedup_slots_or {A} (ne : A -> A -> bool) l sel :
  length sel = length l -> dedup_slots ne l sel = zip_with orb (changes_from ne l) sel.
Proof. destruct l as [|a l], sel as [|s sel]; try done. cbn. intros Hl. f_equal. apply mark_changes_or. lia. Qed.

Lemma length_changes {A} (ne : A -> A -> bool) l : length (changes_from ne l) = length l.
Proof.
  assert (H : forall prev l, length (changes ne prev l) = length l).
  { intros prev l'. revert prev. induction l' as [|a l' IH]; intros prev; cbn; [done|]. by rewrite IH. }
  destruct l; cbn; [done|]. by rewrite H.
Qed.

Lemma changes_map {A B} (g : A -> B) (ne : B -> B -> bool) (ne' : A -> A -> bool) l :
  (forall a b, a ∈ l -> b ∈ l -> ne (g a) (g b) = ne' a b) -> changes_from ne (g <$> l) = changes_from ne' l.
Proof.
  assert (H : forall l prev, (forall a b, a ∈ prev :: l -> b ∈ prev :: l -> ne (g a) (g b) = ne' a b) ->
    changes ne (g prev) (g <$> l) = changes ne' prev l).
  { induction l0 as [|a l0 IH]; intros prev He; [done|]. rewrite fmap_cons. cbn [changes].
    rewrite He, IH; [done| | |]; set_solver. }
  destruct l as [|a l]; [done|]. intros He. rewrite fmap_cons. cbn [changes_from]. by rewrite H.
Qed.

Lemma changes_or {A} (ne1 ne2 : A -> A -> bool) l :
  zip_with orb (changes_from ne1 l) (changes_from ne2 l) = changes_from (fun a b => ne1 a b || ne2 a b) l.
Proof.
  assert (H : forall l prev, zip_with orb (changes ne1 prev l) (changes ne2 prev l) =
    changes (fun a b => ne1 a b || ne2 a b) prev l).
  { induction l0 as [|a l0 IH]; intros prev; [done|]. cbn. by rewrite IH. }
  destruct l as [|a l]; [done|]. cbn. by rewrite H.
Qed.

(** ** Marking the changes of the key *)

Section keys.
Context {AR : Arrow} (rk : RecordSchemaWithKey).
Abbreviation pk := (rk_primary_key_indexes rk).
Abbreviation keyed r := (key_row (rk_columns rk) pk r).

(** Key columns take no nulls. *)
Definition keys_not_null : Prop :=
  pk <> [] /\ Forall (fun i => exists c, rk_columns rk !! i = Some c /\ ColumnSchema.is_nullable c = false) pk.

(** The rows differ in the column. *)
Definition column_ne (i : nat) (a b : row) : bool := value_ne (default Datum.Null (a !! i)) (default Datum.Null (b !! i)).

Lemma string_value_ne a b : value_ne (Datum.String a) (Datum.String b) = bool_decide (a <> b).
Proof.
  unfold value_ne. cbn [Datum.partial_cmp]. destruct (decide (a = b)) as [->|Hab].
  - rewrite bool_decide_eq_false_2 by naive_solver. by rewrite (cmp_refl bytes_cmp).
  - rewrite bool_decide_eq_true_2 by done. destruct (bytes_cmp a b) eqn:Hc; [|done|done]. by apply cmp_eq in Hc.
Qed.

Lemma dict_dedup keys values sel :
  keys_ok keys values -> NoDup values -> Forall (fun d => Datum.is_null d = false) (dict_datum values <$> keys) ->
  length sel = length keys ->
  dedup_slots (fun a b : option nat => bool_decide (a <> b)) keys sel = dedup_slots value_ne (dict_datum values <$> keys) sel.
Proof.
  intros Hk Hnd Hn Hl. rewrite !dedup_slots_or by (rewrite ?length_fmap; done). f_equal. symmetry.
  apply changes_map. intros a b Ha Hb.
  assert (H : forall o, o ∈ keys -> exists k v, o = Some k /\ values !! k = Some v /\ dict_datum values o = Datum.String v).
  { intros o Ho. rewrite Forall_fmap, Forall_forall in Hn. pose proof (Hn o Ho) as Hno. cbn in Hno.
    unfold dict_datum in *. destruct o as [k|]; [|done]. cbn in *. destruct (values !! k) as [v|] eqn:Hv; [|done].
    by exists k, v. }
  destruct (H a Ha) as (ka & va & -> & Hva & ->). destruct (H b Hb) as (kb & vb & -> & Hvb & ->).
  rewrite string_value_ne. apply bool_decide_ext. split.
  - intros Hne [= ->]. congruence.
  - intros Hne ->. apply Hne. f_equal. by eapply NoDup_lookup.
Qed.

(** [dedup] of a key column by the values of the rows. *)
Lemma block_dedup_rows b rows i c blk sel :
  batch_rows b rows -> rk_columns (rb_schema_with_key b) !! i = Some c -> ColumnSchema.is_nullable c = false ->
  rb_column_blocks b !! i = Some blk -> length sel = length rows ->
  block_dedup blk sel = zip_with orb (changes_from (column_ne i) rows) sel.
Proof.
  intros Hb Hc Hnn Hblk Hl. destruct Hb as (_ & HB & Hlen & Hcol).
  assert (Hdata : block_data blk = (fun r : row => default Datum.Null (r !! i)) <$> rows).
  { specialize (Hcol i (block_data blk)). rewrite list_lookup_fmap, Hblk in Hcol. specialize (Hcol eq_refl).
    apply (f_equal (fmap (default Datum.Null))) in Hcol. rewrite <- !list_fmap_compose in Hcol.
    rewrite <- (list_fmap_id (block_data blk)). exact Hcol. }
  destruct (Forall2_lookup_lr _ _ _ _ _ _ HB Hc Hblk) as (Hst & Hfit & Hdict).
  assert (Hnull : Forall (fun d => Datum.is_null d = false) (block_data blk)).
  { eapply Forall_impl; [exact Hfit|]. intros d Hd. unfold datum_fits in Hd. destruct (Datum.is_null d); [congruence|done]. }
  assert (Hn : length (block_data blk) = length rows) by (by rewrite Hdata, length_fmap).
  enough (block_dedup blk sel = dedup_slots value_ne (block_data blk) sel) as ->.
  { rewrite dedup_slots_or by lia. f_equal. rewrite Hdata. by apply changes_map. }
  destruct blk as [n|k data|keys values]; cbn [block_dedup block_data] in *.
  - destruct n as [|n]; [by destruct sel|]. apply Forall_cons in Hnull as [Hnull _]. done.
  - f_equal. rewrite <- (list_fmap_id data) at 2. apply list_fmap_ext. intros j d Hd. cbn.
    unfold slot_value. rewrite Forall_forall in Hnull. by rewrite (Hnull d (list_elem_of_lookup_2 _ _ _ Hd)).
  - destruct Hdict as [Hk Hnd]. apply dict_dedup; try done. rewrite length_fmap in Hn. lia.
Qed.

(** Whether some key column differs is whether the keys do. *)
Lemma keys_differ keys a b :
  key_row (rk_columns rk) keys a -> key_row (rk_columns rk) keys b ->
  existsb (fun i => column_ne i a b) keys = bool_decide (user_key keys a <> user_key keys b).
Proof.
  intros Ha Hb. assert (H : existsb (fun i => column_ne i a b) keys = false <-> compare_row keys a b = Ok Eq).
  { clear -Ha Hb. induction Ha as [|i keys (c & d1 & Hc & Hd1 & Hk1) Ha IH]; [done|].
    apply Forall_cons in Hb as [(c2 & d2 & Hc2 & Hd2 & Hk2) Hb]. cbn [existsb compare_row].
    unfold column_ne at 1. rewrite Hd1, Hd2. cbn [default unwrap rbind]. rewrite orb_false_iff, (IH Hb).
    change (id d1) with d1. change (id d2) with d2. unfold value_ne. destruct (Datum.partial_cmp d1 d2) as [[]|]; cbn [unwrap rbind];
      (split; [by intros [? ?]|intros Heq; first [discriminate Heq|split; [done|exact Heq]]]). }
  rewrite (compare_row_user_key (rk_columns rk)) in H by done.
  destruct (existsb _ keys); symmetry; [apply bool_decide_eq_true_2|apply bool_decide_eq_false_2].
  - intros Heq. destruct H as [_ H]. rewrite Heq, (cmp_refl bytes_cmp) in H. by specialize (H eq_refl).
  - destruct H as [H _]. injection (H eq_refl) as Hc. apply cmp_eq in Hc. by intros Hne.
Qed.

Definition key_ne (a b : row) : bool := bool_decide (key_of rk a <> key_of rk b).

Lemma mark_keys_fold {E} b rows keys sel :
  batch_rows b rows -> rb_schema_with_key b = rk -> length sel = length rows ->
  Forall (fun i => exists c, rk_columns rk !! i = Some c /\ ColumnSchema.is_nullable c = false) keys ->
  @mark_keys E AR b keys sel = Ok (foldl (fun sel i => zip_with orb (changes_from (column_ne i) rows) sel) sel keys).
Proof.
  intros Hb Hs Hl Hk. unfold mark_keys. revert sel Hl. induction Hk as [|i keys (c & Hc & Hnn) Hk IH]; intros sel Hl; [done|].
  cbn [rfold foldl]. rewrite <- Hs in Hc. pose proof Hb as (_ & HB & _).
  destruct (Forall2_lookup_l _ _ _ _ _ HB Hc) as (blk & Hblk & _). unfold rb_column. rewrite Hblk. cbn [unwrap rbind].
  rewrite (block_dedup_rows b rows i c) by done. apply IH. rewrite length_zip_with, length_changes. lia.
Qed.

Lemma fold_changes rows keys : forall ne,
  foldl (fun sel i => zip_with orb (changes_from (column_ne i) rows) sel) (changes_from ne rows) keys =
  changes_from (fun a b => existsb (fun i => column_ne i a b) keys || ne a b) rows.
Proof.
  induction keys as [|i keys IH]; intros ne; cbn [foldl existsb]; [done|]. rewrite changes_or, IH.
  rewrite <- (list_fmap_id rows) at 1. apply changes_map. intros a b _ _. cbn.
  by destruct (column_ne i a b), (existsb _ keys), (ne a b).
Qed.

(** The marks are on the rows whose key differs from the row before. *)
Lemma mark_keys_ok {E} b rows :
  batch_rows b rows -> rb_schema_with_key b = rk -> Forall (fun r => keyed r) rows -> keys_not_null ->
  @mark_keys E AR b pk (replicate (length rows) false) = Ok (changes_from key_ne rows).
Proof.
  intros Hb Hs Hr [Hne Hk]. rewrite (mark_keys_fold b rows) by (rewrite ?length_replicate; done). f_equal.
  rewrite Forall_forall in Hr.
  assert (Hkeys : changes_from (fun a b => existsb (fun i => column_ne i a b) pk) rows = changes_from key_ne rows).
  { rewrite <- (list_fmap_id rows) at 1. apply changes_map. intros a b' Ha Hb'. apply keys_differ; auto. }
  rewrite <- Hkeys. destruct (rk_primary_key_indexes rk) as [|i keys]; [done|]. cbn [foldl].
  assert (Hfirst : zip_with orb (changes_from (column_ne i) rows) (replicate (length rows) false) = changes_from (column_ne i) rows).
  { rewrite <- (length_changes (column_ne i) rows). induction (changes_from (column_ne i) rows) as [|x l IH]; [done|].
    cbn. by rewrite orb_false_r, IH. }
  rewrite Hfirst, fold_changes. rewrite <- (list_fmap_id rows) at 1. apply changes_map. intros a b' _ _. cbn. apply orb_comm.
Qed.

(** ** The rows that are kept *)

(** The first of the rows with one key, after a row with the key [prev]. *)
Fixpoint dedup_rows (prev : option bytes) (rows : list row) : list row :=
  match rows with
  | [] => []
  | r :: rows =>
      if bool_decide (prev = Some (key_of rk r)) then dedup_rows prev rows
      else r :: dedup_rows (Some (key_of rk r)) rows
  end.
Fixpoint pick {A} (l : list A) (sel : list bool) : list A :=
  match l, sel with
  | a :: l, s :: sel => if (s : bool) then a :: pick l sel else pick l sel
  | _, _ => []
  end.

Lemma pick_changes rows : forall p, pick rows (changes key_ne p rows) = dedup_rows (Some (key_of rk p)) rows.
Proof.
  induction rows as [|r rows IH]; intros p; cbn [changes pick dedup_rows]; [done|]. unfold key_ne at 1.
  destruct (decide (key_of rk r = key_of rk p)) as [Heq|Hne].
  - rewrite bool_decide_eq_false_2 by naive_solver. rewrite bool_decide_eq_true_2 by (by rewrite Heq).
    by rewrite IH, Heq.
  - rewrite bool_decide_eq_true_2 by done. rewrite bool_decide_eq_false_2 by naive_solver. by rewrite IH.
Qed.

Lemma dedup_rows_app l1 l2 : forall prev,
  dedup_rows prev (l1 ++ l2) =
  dedup_rows prev l1 ++ dedup_rows (match last l1 with Some r => Some (key_of rk r) | None => prev end) l2.
Proof.
  induction l1 as [|r l1 IH]; intros prev; [done|]. cbn [app dedup_rows]. rewrite last_cons.
  case_bool_decide as Hp; rewrite IH; [subst prev|]; by destruct (last l1).
Qed.

Lemma pick_count {A} (l : list A) sel :
  length sel = length l -> length (filter (fun s : bool => s = true) sel) = length (pick l sel) /\
    (length (pick l sel) <= length l)%nat /\ (length (pick l sel) = length l -> pick l sel = l).
Proof.
  revert sel. induction l as [|a l IH]; intros [|s sel] Hl; try done. cbn in Hl.
  destruct (IH sel ltac:(lia)) as (H1 & H2 & H3). rewrite filter_cons. cbn [pick]. destruct s; cbn [length].
  - rewrite decide_True by done. cbn [length]. rewrite H1. split; [done|]. split; [lia|]. intros Heq.
    by rewrite H3 by lia.
  - rewrite decide_False by done. split; [done|]. split; [lia|]. lia.
Qed.
End keys.

(** ** The iterator *)

Section dedup_spec.
Context {I E : Type} {IT : RecordBatchIterator I E} {AR : Arrow} {AL : ArrowLaws AR} (rk : RecordSchemaWithKey).
Abbreviation pk := (rk_primary_key_indexes rk).
Abbreviation keyed r := (key_row (rk_columns rk) pk r).

Lemma append_selected_ok b rows sel : forall idx bb B,
  batch_rows b rows -> rb_schema_with_key b = bb_schema_with_key bb -> builder_rows bb B ->
  length sel = length (drop idx rows) ->
  exists bb', @append_selected E AR b idx sel bb = Ok bb' /\ builder_rows bb' (B ++ pick (drop idx rows) sel) /\
    bb_schema_with_key bb' = bb_schema_with_key bb.
Proof.
  induction sel as [|s sel IH]; intros idx bb B Hb Hs HB Hl; cbn [append_selected].
  { exists bb. symmetry in Hl. apply nil_length_inv in Hl. rewrite Hl, app_nil_r. done. }
  cbn [length] in Hl. rewrite length_drop in Hl.
  destruct (lookup_lt_is_Some_2 rows idx ltac:(lia)) as [r Hr]. rewrite (drop_S _ _ _ Hr). cbn [pick].
  assert (Hl' : length sel = length (drop (S idx) rows)) by (rewrite length_drop; lia).
  destruct s; [|cbn [rbind]; by apply IH].
  destruct (append_row_view_ok bb B b rows idx r HB Hb Hs Hr) as (bb1 & -> & HB1 & Hs1). cbn [rcontext rbind].
  destruct (IH (S idx) bb1 (B ++ [r]) Hb ltac:(congruence) HB1 Hl') as (bb2 & He & HB2 & Hs2).
  exists bb2. rewrite <- app_assoc in HB2. split; [done|]. split; [done|congruence].
Qed.

Record dedup_inv (di : DedupIterator I) (prev : option bytes) : Prop := {
  dd_schema : di_schema di = rk;
  dd_builder : exists B, builder_rows (di_builder di) B /\ bb_schema_with_key (di_builder di) = rk;
  dd_prev : (fun r => key_of rk r) <$> di_prev_row di = prev;
  dd_keyed : match di_prev_row di with Some r => keyed r | None => True end
}.

Lemma filter_batch_ok di prev b rows :
  dedup_inv di prev -> batch_rows b rows -> rb_schema_with_key b = rk -> length (di_selected_rows di) = length rows ->
  exists b' di', filter_batch di b (length (filter (fun s : bool => s = true) (di_selected_rows di))) =
      @Ok (DedupError E) _ (b', di') /\
    dedup_inv di' prev /\ di_iter di' = di_iter di /\ batch_rows b' (pick rows (di_selected_rows di)) /\ rb_schema_with_key b' = rk.
Proof.
  intros [Hs (B & HB & Hbs) Hp Hk] Hb Hsch Hl. destruct (pick_count rows _ Hl) as (Hc & Hle & Hall).
  unfold filter_batch. rewrite (batch_num_rows b rows Hb), Hc. rewrite (proj2 (Nat.leb_le _ _) Hle). cbn [rassert rbind].
  destruct (Nat.eqb_spec (length (pick rows (di_selected_rows di))) (length rows)) as [Heq|Hne].
  - eexists b, _. split; [done|]. split; [split; eauto|]. split; [done|]. by rewrite Hall.
  - destruct (append_selected_ok b rows (di_selected_rows di) 0 (bb_clear (di_builder di)) []) as (bb & -> & HB' & Hbs');
      [done|cbn; congruence|by eapply bb_clear_rows|by rewrite drop_0|]. cbn [rbind].
    rewrite drop_0 in HB'. destruct (bb_build_ok bb _ HB') as (b' & -> & Hb' & Hsch'). cbn [rcontext rbind].
    assert (bb_schema_with_key bb = rk) as Hbb by (rewrite Hbs'; exact Hbs).
    eexists b', _. split; [done|]. split; [split; cbn; eauto|].
    + exists []. split; [by eapply bb_clear_rows|done].
    + split; [done|]. split; [done|congruence].
Qed.

(** A batch loses the rows whose key is that of the row before. *)
Lemma dedup_batch_ok di prev b rows :
  dedup_inv di prev -> batch_rows b rows -> rb_schema_with_key b = rk -> keys_not_null rk ->
  Forall (fun r => keyed r) rows ->
  exists b' di', @dedup_batch I E AR di b = Ok (b', di') /\
    dedup_inv di' (match last rows with Some r => Some (key_of rk r) | None => prev end) /\
    di_iter di' = di_iter di /\ batch_rows b' (dedup_rows rk prev rows) /\ rb_schema_with_key b' = rk.
Proof.
  intros Hdi Hb Hsch Hkn Hkr. pose proof Hdi as [Hs HB Hp Hk]. unfold dedup_batch, rb_is_empty.
  rewrite (batch_num_rows b rows Hb), Hs. destruct rows as [|r0 rows]; cbn [length Nat.eqb last].
  { exists b. eexists. split; [done|]. split; [split; cbn; eauto|]. done. }
  rewrite (mark_keys_ok rk b (r0 :: rows)) by done. cbn [rbind].
  set (all := r0 :: rows) in *. destruct (last all) as [rl|] eqn:Hlast; [|by apply last_None in Hlast].
  assert (Hlk : all !! (S (length rows) - 1)%nat = Some rl) by (rewrite <- Hlast, last_lookup; f_equal; cbn; lia).
  assert (Hsel : exists sel, match di_prev_row di with
      | Some prev_row => let? c := compare_row_views pk prev_row (MkRowView b 0) in
          Ok (match c with Eq => <[0%nat := false]> (changes_from (key_ne rk) all) | _ => changes_from (key_ne rk) all end)
      | None => Ok (changes_from (key_ne rk) all)
      end = @Ok (DedupError E) _ sel /\ length sel = length all /\ pick all sel = dedup_rows rk prev all).
  { unfold all at 2 5. cbn [dedup_rows]. apply Forall_cons in Hkr as [Hk0 _].
    destruct (di_prev_row di) as [p|]; cbn in Hp; subst prev.
    - rewrite (compare_views_key rk p (MkRowView b 0) p r0 (shows_row p)); [|by apply shows_batch; rewrite (rows_of_ok b all)|done|done].
      cbn [rbind]. destruct (bytes_cmp (key_of rk p) (key_of rk r0)) eqn:Hc; eexists; (split; [done|]).
      + apply cmp_eq in Hc. rewrite length_insert, length_changes. split; [done|]. cbn [changes_from pick].
        unfold all. cbn. rewrite bool_decide_eq_true_2 by (by rewrite Hc). by rewrite pick_changes, Hc.
      + rewrite length_changes. split; [done|]. cbn. rewrite bool_decide_eq_false_2, pick_changes; [done|].
        intros [= Heq]. by rewrite Heq, (cmp_refl bytes_cmp) in Hc.
      + rewrite length_changes. split; [done|]. cbn. rewrite bool_decide_eq_false_2, pick_changes; [done|].
        intros [= Heq]. by rewrite Heq, (cmp_refl bytes_cmp) in Hc.
    - eexists. split; [done|]. rewrite length_changes. split; [done|]. cbn. by rewrite pick_changes. }
  destruct Hsel as (sel & -> & Hlen & Hpick). cbn [rbind].
  rewrite (clone_row_at_ok b all _ rl Hb Hlk). cbn [rbind].
  match goal with |- context [filter_batch ?di' b _] => set (di1 := di') end.
  destruct (filter_batch_ok di1 (Some (key_of rk rl)) b all) as (b' & di' & He & Hinv & Hit & Hb' & Hs'); [|done|done|done|].
  { split; cbn; [done|done|done|]. rewrite Forall_forall in Hkr. apply Hkr. by eapply list_elem_of_lookup_2. }
  exists b', di'. split; [exact He|]. split; [done|]. split; [done|]. cbn [di1 di_selected_rows] in Hb'. by rewrite Hpick in Hb'.
Qed.

Lemma collect_dedup n : forall di prev bs,
  dedup_inv di prev -> keys_not_null rk -> collect n (di_iter di) = Ok bs -> Forall (batch_ok rk) bs ->
  Forall (fun r => keyed r) (concat (rows_of <$> bs)) ->
  exists bs', @collect _ (DedupError E) _ n di = Ok bs' /\ Forall (batch_ok rk) bs' /\
    concat (rows_of <$> bs') = dedup_rows rk prev (concat (rows_of <$> bs)).
Proof.
  induction n as [|n IH]; intros di prev bs Hdi Hkn Hc Hbs Hkr; [done|]. cbn [collect] in Hc.
  apply rbind_ok in Hc as ([o it] & Hnext & Hc). cbn [collect next_batch dedup_iterator]. unfold dedup_next_batch.
  rewrite Hnext. cbn [rcontext rbind]. destruct o as [b|]; [|injection Hc as <-; by exists []].
  apply rbind_ok in Hc as (bs1 & Hc & [= <-]). apply Forall_cons in Hbs as [Hb Hbs]. rewrite fmap_cons in *.
  cbn [concat] in *. apply Forall_app in Hkr as [Hk0 Hkr].
  destruct (dedup_batch_ok (set_iter di it) prev b (rows_of b)) as (b' & di' & -> & Hinv & Hit & Hb' & Hs');
    [by destruct Hdi; split|by eapply batch_ok_rows|apply Hb|done|done|]. cbn [rbind].
  destruct (IH di' _ bs1 Hinv Hkn) as (bs' & Hc' & Hbs' & Hrows'); [by rewrite Hit|done|done|].
  change (dedup_next_batch (IT:=IT)) with (@next_batch _ _ (dedup_iterator (IT:=IT))). rewrite Hc'. cbn [rbind].
  exists (b' :: bs'). split; [done|]. split; [constructor; [split; [done|by eexists]|done]|].
  rewrite fmap_cons. cbn [concat]. by rewrite dedup_rows_app, Hrows', (rows_of_ok _ _ Hb').
Qed.
End dedup_spec.

(** ** The newest row of a key *)

Section newest.
Context (rk : RecordSchemaWithKey) (reverse : bool).
Abbreviation kcmp := (key_cmp rk reverse).

(** [dedup_rows] on rows with their sequences. *)
Fixpoint dedup_trows (prev : option row) (ts : list trow) : list trow :=
  match ts with
  | [] => []
  | t :: ts =>
      if bool_decide (key_of rk <$> prev = Some (key_of rk t.1)) then dedup_trows prev ts
      else t :: dedup_trows (Some t.1) ts
  end.

Lemma dedup_trows_rows ts : forall prev, (dedup_trows prev ts).*1 = dedup_rows rk (key_of rk <$> prev) ts.*1.
Proof.
  induction ts as [|t ts IH]; intros prev; [done|]. rewrite fmap_cons. cbn [dedup_trows dedup_rows].
  case_bool_decide; [by apply IH|]. by rewrite fmap_cons, IH.
Qed.

Lemma kcmp_eq a b : kcmp a b = Eq <-> key_of rk a = key_of rk b.
Proof. unfold key_cmp. destruct reverse; rewrite (cmp_eq (cmp:=bytes_cmp)); naive_solver. Qed.

Lemma dedup_trows_spec ts : forall prev,
  StronglySorted (trow_le rk reverse) ts ->
  (forall p t, prev = Some p -> t ∈ ts -> kcmp p t.1 <> Gt) ->
  StronglySorted (fun a b => kcmp a.1 b.1 = Lt) (dedup_trows prev ts) /\
  (forall t, t ∈ dedup_trows prev ts -> t ∈ ts /\ forall p, prev = Some p -> kcmp p t.1 = Lt) /\
  (forall t, t ∈ ts -> key_of rk <$> prev = Some (key_of rk t.1) \/
     exists u, u ∈ dedup_trows prev ts /\ key_of rk u.1 = key_of rk t.1 /\ t.2 <= u.2).
Proof.
  induction ts as [|t ts IH]; intros prev Hs Hprev; cbn [dedup_trows].
  { split; [constructor|]. split; set_solver. }
  apply StronglySorted_inv in Hs as [Hs Ht]. rewrite Forall_forall in Ht. case_bool_decide as Hp.
  - destruct (IH prev Hs) as (H1 & H2 & H3); [intros p u -> Hu; apply Hprev; [done|by right]|].
    split; [done|]. split; [intros u Hu; destruct (H2 u Hu); split; [by right|done]|].
    intros u [->|Hu]%elem_of_cons; [by left|]. destruct (H3 u Hu) as [|(v & Hv & Hk)]; [by left|right; by exists v].
  - assert (Hle : forall u, u ∈ ts -> kcmp t.1 u.1 <> Gt) by (intros u Hu; by apply trow_le_key, Ht).
    destruct (IH (Some t.1) Hs) as (H1 & H2 & H3); [intros p u [= <-] Hu; by apply Hle|]. split; [|split].
    + constructor; [done|]. apply Forall_forall. intros u Hu. by apply (H2 u Hu).
    + intros u [->|Hu]%elem_of_cons.
      * split; [by left|]. intros p ->. pose proof (Hprev p t eq_refl ltac:(by left)) as Hpt.
        destruct (kcmp p t.1) eqn:Hc; [|done|done]. apply kcmp_eq in Hc. cbn in Hp. congruence.
      * destruct (H2 u Hu) as [Hin Hlt]. split; [by right|]. intros p ->.
        eapply (pre_le_lt kcmp _ t.1); [by apply (Hprev p t); [|left]|]. by apply Hlt.
    + intros u [->|Hu]%elem_of_cons; right; [exists t; split; [by left|]; split; [done|lia]|].
      destruct (H3 u Hu) as [[= Heq]|(v & Hv & Hk)]; [|exists v; split; [by right|done]].
      exists t. split; [by left|]. split; [done|]. specialize (Ht u Hu). unfold trow_le, trow_cmp in Ht.
      rewrite (proj2 (kcmp_eq t.1 u.1) Heq) in Ht. cbn [cmp_then] in Ht. by apply Z.compare_le_iff.
Qed.
End newest.

(** ** Reading streams one after the other *)

Section chain_spec.
Context {G : Type}.

(** The non-empty batches of a stream, up to an error. *)
Fixpoint stream_batches (s : stream G) : res (ChainError G) (list RecordBatchWithKey) :=
  match s with
  | [] => Ok []
  | Failed g :: _ => Err (PollNextRecordBatch g)
  | Batch v :: s =>
      if (0 <? sb_num_rows v)%nat then let? bs := stream_batches s in Ok (sb_record_batch v :: bs)
      else stream_batches s
  end.

Definition chain_rest (ci : ChainIterator G) : stream G := concat (drop (ci_next_stream_idx ci) (ci_streams ci)).

(** A call of [next_batch] reads on to the next non-empty batch. *)
Lemma chain_loop_spec fuel : forall ci, (chain_size ci <= fuel)%nat ->
  match @pull_next_non_empty_batch G (chain_rest ci) with
  | Ok (Some v, s) => exists ci', chain_loop fuel ci = Ok (Some (sb_record_batch v), ci') /\ chain_rest ci' = s
  | Ok (None, _) => exists ci', chain_loop fuel ci = Ok (None, ci')
  | Err (PullRecordBatch g) => chain_loop fuel ci = Err (PollNextRecordBatch g)
  | _ => False
  end.
Proof.
  induction fuel as [|fuel IH]; intros [sch streams idx] Hf; unfold chain_size, chain_rest in *; cbn in Hf;
    cbn [chain_loop ci_next_stream_idx ci_streams ci_schema] in *;
    destruct (Nat.ltb_spec idx (length streams)) as [Hlt|Hge];
    try (rewrite drop_ge by lia; cbn; by eexists).
  { lia. }
  destruct (lookup_lt_is_Some_2 streams idx Hlt) as [s Hs]. rewrite Hs. cbn [unwrap rbind].
  rewrite (drop_S _ _ _ Hs) in Hf |- *. cbn [concat]. cbn [concat] in Hf. destruct s as [|[v|g] s]; cbn [app].
  - specialize (IH (MkChain sch streams (idx + 1))). cbn in IH, Hf. rewrite Nat.add_1_r in *. apply IH. lia.
  - set (ci := MkChain sch (<[idx:=s]> streams) idx).
    assert (Hrest : chain_rest ci = s ++ concat (drop (S idx) streams)).
    { unfold chain_rest. cbn. rewrite (drop_S _ s) by (by rewrite list_lookup_insert_eq). cbn [concat].
      by rewrite drop_insert_lt by lia. }
    cbn [pull_next_non_empty_batch]. destruct (0 <? sb_num_rows v)%nat; [by exists ci|].
    specialize (IH ci). rewrite <- Hrest. apply IH. unfold chain_size. fold (chain_rest ci). rewrite Hrest.
    cbn [ci ci_streams ci_next_stream_idx]. rewrite length_insert. rewrite !length_app in *. cbn [length] in Hf. lia.
  - done.
Qed.

Lemma collect_chain n : forall ci, (length (chain_rest ci) < n)%nat ->
  @collect _ (ChainError G) _ n ci = stream_batches (chain_rest ci).
Proof.
  induction n as [|n IH]; intros ci Hn; [lia|]. cbn [collect next_batch chain_iterator]. unfold chain_next_batch at 1.
  pose proof (chain_loop_spec (chain_size ci) ci ltac:(lia)) as Hl.
  assert (Hpull : forall s : stream G, match @pull_next_non_empty_batch G s with
    | Ok (Some v, s') => stream_batches s = (let? bs := stream_batches s' in Ok (sb_record_batch v :: bs)) /\ (length s' < length s)%nat
    | Ok (None, _) => stream_batches s = Ok []
    | Err (PullRecordBatch g) => stream_batches s = Err (PollNextRecordBatch g)
    | _ => False end).
  { induction s as [|[v|g] s IHs]; cbn [pull_next_non_empty_batch stream_batches]; [done| |done].
    destruct (0 <? sb_num_rows v)%nat; [split; [done|cbn; lia]|].
    destruct (pull_next_non_empty_batch s) as [[[v'|] s']| [] |]; try done. destruct IHs as [-> Hlt]. split; [done|cbn; lia]. }
  specialize (Hpull (chain_rest ci)).
  destruct (pull_next_non_empty_batch (chain_rest ci)) as [[[v|] s]|[]|]; try done.
  - destruct Hl as (ci' & -> & Hr). destruct Hpull as [-> Hlt]. cbn [rbind].
    change (chain_next_batch (G:=G)) with (@next_batch _ _ (chain_iterator (G:=G))). rewrite <- Hr. rewrite <- IH; [done|].
    rewrite Hr. lia.
  - destruct Hl as [ci' ->]. by rewrite Hpull.
  - by rewrite Hl, Hpull.
Qed.
End chain_spec.

(** ** Properties *)

(** The dedup iterator keeps the first row of every run of rows with one
    primary key, across the borders of batches, of whatever an iterator yields:
    it returns a batch for every batch of the iterator, and none of its own
    errors arise. *)
Theorem dedup_keeps_first {I E} {IT : RecordBatchIterator I E} {AR : Arrow} {AL : ArrowLaws AR} rk n (it : I) bs :
  iter_schema it = rk -> rk_columns rk <> [] -> keys_not_null rk ->
  collect n it = Ok bs -> Forall (batch_ok rk) bs ->
  Forall (fun r => key_row (rk_columns rk) (rk_primary_key_indexes rk) r) (concat (rows_of <$> bs)) ->
  exists bs', @collect _ (DedupError E) _ n (dedup_new it) = Ok bs' /\ Forall (batch_ok rk) bs' /\
    concat (rows_of <$> bs') = dedup_rows rk None (concat (rows_of <$> bs)).
Proof.
  intros Hs Hne Hk Hc Hb Hr. apply (collect_dedup rk n (dedup_new it) None bs); [|done|exact Hc|done|done].
  unfold dedup_new. rewrite Hs. split; cbn; [done| |done|done].
  exists []. split; [by apply batch_builder_new_rows|done].
Qed.

(** C11. Reading a table gives the newest row of every key.  The dedup iterator
    over the merge iterator, on any sorted streams of a schema whose key columns
    take no nulls, ends without an error.  The rows it yields are rows of the
    streams, strictly ordered by primary key in the direction of the scan; and
    for every row of a stream it yields a row of the same key whose sequence is
    at least as large. *)
Theorem dedup_merge_newest {G H} {HO : BinaryHeap H} {HL : BinaryHeapLaws H} {AR : Arrow} {AL : ArrowLaws AR}
    rk reverse (streams : list (stream G)) batch_size :
  Forall (stream_ok rk reverse) streams -> rk_columns rk <> [] -> keys_not_null rk -> (0 < batch_size)%nat ->
  let all := concat (stream_rows <$> streams) in
  exists bs out,
    @collect _ (DedupError (MergeError G)) (dedup_iterator (IT:=merge_iterator (H:=H))) (S (length all))
      (dedup_new (IT:=merge_iterator (H:=H)) (merge_new rk streams batch_size reverse)) = Ok bs /\
    Forall (batch_ok rk) bs /\ concat (rows_of <$> bs) = out.*1 /\
    StronglySorted (fun a b => key_cmp rk reverse a.1 b.1 = Lt) out /\ (forall t, t ∈ out -> t ∈ all) /\
    (forall t, t ∈ all -> exists u, u ∈ out /\ key_of rk u.1 = key_of rk t.1 /\ t.2 <= u.2).
Proof.
  intros Hok Hne Hkn Hk all.
  destruct (collect_merge (G:=G) (H:=H) rk reverse streams batch_size Hok Hne Hk) as (bs & ts & Hc & Hb & _ & Hr & He).
  pose proof (emits_perm_concat _ _ _ _ He) as Hp. cbn [concat] in Hp. rewrite app_nil_r in Hp. fold all in Hp, Hc.
  assert (Hkeyed : Forall (fun r => key_row (rk_columns rk) (rk_primary_key_indexes rk) r) (concat (rows_of <$> bs))).
  { rewrite Hr. apply Forall_fmap. rewrite <- Hp. apply Forall_forall. intros t Ht. unfold all in Ht.
    rewrite elem_concat in Ht. destruct Ht as (l & Ht & (s & -> & Hs)%list_elem_of_fmap).
    rewrite Forall_forall in Hok. destruct (Hok s Hs) as [Hit _]. rewrite Forall_forall in Hit.
    unfold stream_rows in Ht. apply list_elem_of_bind in Ht as (i & Ht & Hi). specialize (Hit i Hi).
    destruct i as [sb|]; [|set_solver]. destruct Hit as [_ Hit]. rewrite Forall_forall in Hit. by apply Hit. }
  destruct (collect_dedup (IT:=merge_iterator (G:=G) (H:=H)) rk (S (length all))
              (dedup_new (IT:=merge_iterator (H:=H)) (merge_new rk streams batch_size reverse)) None bs) as (bs' & Hc' & Hb' & Hr').
  { split; cbn; [done| |done|done]. exists []. split; [by apply batch_builder_new_rows|done]. }
  { done. } { exact Hc. } { done. } { done. }
  destruct (emits_sorted _ _ _ _ He) as [Hs _].
  destruct (dedup_trows_spec rk reverse ts None Hs ltac:(done)) as (H1 & H2 & H3).
  exists bs', (dedup_trows rk None ts). split; [done|]. split; [done|]. split; [by rewrite dedup_trows_rows, Hr', Hr|].
  split; [done|]. split.
  - intros t Ht. rewrite Hp. by apply (H2 t Ht).
  - intros t Ht. rewrite Hp in Ht. by destruct (H3 t Ht) as [|].
Qed.

(** The chain iterator yields the non-empty batches of its streams, one
    stream after the other, and fails with the first error a stream yields. *)
Theorem chain_concatenates {G} rk (streams : list (stream G)) :
  @collect _ (ChainError G) _ (S (length (concat streams))) (MkChain rk streams 0) = stream_batches (concat streams).
Proof. apply (collect_chain _ (MkChain rk streams 0)). unfold chain_rest. cbn [ci_streams ci_next_stream_idx]. rewrite drop_0. lia. Qed.

Lemma dedup_merge_newest_witness :
  exists bs, @collect _ (DedupError (MergeError unit)) (@dedup_iterator _ _ (@merge_iterator unit list list_heap demo_arrow) demo_arrow) 5
      (@dedup_new _ _ (@merge_iterator unit list list_heap demo_arrow) (merge_new demo_record_schema
         [demo_stream [demo_row 97 5; demo_row 98 5] 7; []; demo_stream [demo_row 97 3; demo_row 97 5] 9] 2 false)) = Ok bs /\
    concat (rows_of <$> bs) = [demo_row 97 3; demo_row 97 5; demo_row 98 5].
Proof.
  set (s1 := demo_stream [demo_row 97 5; demo_row 98 5] 7).
  set (s2 := demo_stream [demo_row 97 3; demo_row 97 5] 9).
  assert (H1 : stream_ok demo_record_schema false s1).
  { apply demo_stream_ok; repeat constructor; vm_compute; discriminate. }
  assert (H2 : stream_ok demo_record_schema false s2).
  { apply demo_stream_ok; repeat constructor; vm_compute; discriminate. }
  destruct (@dedup_merge_newest unit list list_heap list_heap_laws demo_arrow demo_arrow_laws demo_record_schema false
              [s1; []; s2] 2) as (bs & out & Hc & _).
  - constructor; [exact H1|]. constructor; [|constructor; [exact H2|constructor]]. split; constructor.
  - discriminate.
  - split; [discriminate|]. repeat constructor; eexists; split; reflexivity.
  - lia.
  - exists bs. assert (E : @collect _ (DedupError (MergeError unit)) (@dedup_iterator _ _ (@merge_iterator unit list list_heap demo_arrow) demo_arrow) 5
      (@dedup_new _ _ (@merge_iterator unit list list_heap demo_arrow) (merge_new demo_record_schema [s1; []; s2] 2 false)) = Ok bs) by exact Hc.
    split; [exact E|]. vm_compute in E. injection E as <-. reflexivity.
Defined.

Lemma dedup_keeps_first_witness :
  exists bs, @collect _ (DedupError (ChainError unit)) (@dedup_iterator _ _ chain_iterator demo_arrow) 3
      (@dedup_new _ _ chain_iterator (MkChain demo_record_schema
         [demo_stream [demo_row 97 5; demo_row 97 5] 7; demo_stream [demo_row 97 5; demo_row 98 5] 9] 0)) = Ok bs.
Proof.
  set (r1 := [demo_row 97 5; demo_row 97 5]). set (r2 := [demo_row 97 5; demo_row 98 5]).
  assert (H1 : Forall (row_ok the_demo) r1) by repeat constructor.
  assert (H2 : Forall (row_ok the_demo) r2) by repeat constructor.
  destruct (demo_batch_ok r1 H1) as [B1 S1]. destruct (demo_batch_ok r2 H2) as [B2 S2].
  destruct (@dedup_keeps_first _ _ (@chain_iterator unit) demo_arrow demo_arrow_laws demo_record_schema 3
              (MkChain demo_record_schema [demo_stream r1 7; demo_stream r2 9] 0) [demo_batch r1; demo_batch r2])
    as (bs & Hc & _).
  - reflexivity.
  - discriminate.
  - split; [discriminate|]. repeat constructor; eexists; split; reflexivity.
  - vm_compute. reflexivity.
  - constructor; [split; [exact S1|eexists; exact B1]|]. constructor; [split; [exact S2|eexists; exact B2]|constructor].
  - rewrite !fmap_cons. cbn [concat fmap list_fmap]. rewrite (rows_of_ok _ _ B1), (rows_of_ok _ _ B2).
    repeat (apply Forall_cons; split; [apply (schema_key_row the_demo _ the_demo_wf); repeat constructor; vm_compute; discriminate|]).
    constructor.
  - exists bs. exact Hc.
Defined.
