(* ===== verification/BTree.v ===== *)
(** * Ordered maps

    The [BTreeMap] of the standard library, as the association list of its
    entries in the order of the keys, and lexicographic orders for its keys. *)

From Stdlib Require Import ZArith Lia Sorted.
From stdpp Require Import base tactics option list sorting numbers sets.
From S2P Require Import Prelude.

(** ** Orders *)

(** The derived [Ord] of a struct of two fields. *)
Definition pair_cmp {A B} (c1 : A -> A -> comparison) (c2 : B -> B -> comparison) (x y : A * B) : comparison :=
  cmp_then (c1 x.1 y.1) (c2 x.2 y.2).

#[export] Instance pair_cmp_total {A B} (c1 : A -> A -> comparison) (c2 : B -> B -> comparison) :
  TotalCmp c1 -> TotalCmp c2 -> TotalCmp (pair_cmp c1 c2).
Proof.
  intros H1 H2. unfold pair_cmp. split.
  - intros [a b] [a' b']; cbn. destruct (c1 a a') eqn:Hc; cbn.
    + apply cmp_eq in Hc as ->. rewrite (cmp_eq (cmp:=c2)). naive_solver.
    + split; [done|]. intros [= -> ->]. by rewrite (cmp_refl c1) in Hc.
    + split; [done|]. intros [= -> ->]. by rewrite (cmp_refl c1) in Hc.
  - intros [a b] [a' b']; cbn. rewrite (cmp_antisym (cmp:=c1) a a'), (cmp_antisym (cmp:=c2) b b').
    by destruct (c1 a a').
  - intros [a b] [a' b'] [a'' b'']; cbn. destruct (c1 a a') eqn:Hc; cbn; [|intros _|done].
    + apply cmp_eq in Hc as <-. destruct (c1 a a'') eqn:Hc'; cbn; [|done|done]. by apply cmp_lt_trans.
    + destruct (c1 a' a'') eqn:Hc'; cbn; [|intros _|done].
      * apply cmp_eq in Hc' as <-. by rewrite Hc.
      * by rewrite (cmp_lt_trans (cmp:=c1) a a' a'').
Qed.

(** An order carried over by an injection. *)
Lemma total_inj {A B} (f : A -> B) (c : B -> B -> comparison) :
  TotalCmp c -> (forall a b, f a = f b -> a = b) -> TotalCmp (fun a b => c (f a) (f b)).
Proof.
  intros Hc Hf. split.
  - intros a b. rewrite (cmp_eq (cmp:=c)). split; [apply Hf|by intros ->].
  - intros a b. apply cmp_antisym.
  - intros a b d. apply cmp_lt_trans.
Qed.

Section btree.
Context {K V : Type} (cmp : K -> K -> comparison).
Abbreviation btree := (list (K * V)).

Definition bt_sorted (m : btree) : Prop := StronglySorted (fun a b => cmp a.1 b.1 = Lt) m.

Fixpoint bt_get (k : K) (m : btree) : option V :=
  match m with
  | [] => None
  | (k', v) :: m => match cmp k k' with Eq => Some v | _ => bt_get k m end
  end.
(** [insert], which replaces the value of a key that is there. *)
Fixpoint bt_insert (k : K) (v : V) (m : btree) : btree :=
  match m with
  | [] => [(k, v)]
  | (k', v') :: m' =>
      match cmp k k' with
      | Lt => (k, v) :: m
      | Eq => (k, v) :: m'
      | Gt => (k', v') :: bt_insert k v m'
      end
  end.
Fixpoint bt_remove (k : K) (m : btree) : btree :=
  match m with
  | [] => []
  | (k', v) :: m => match cmp k k' with Eq => m | _ => (k', v) :: bt_remove k m end
  end.
(** [range(k..)] and [range((Excluded(k), Unbounded))]. *)
Fixpoint bt_from (k : K) (m : btree) : btree :=
  match m with
  | [] => []
  | kv :: m' => match cmp kv.1 k with Lt => bt_from k m' | _ => m end
  end.
Fixpoint bt_after (k : K) (m : btree) : btree :=
  match m with
  | [] => []
  | kv :: m' => match cmp kv.1 k with Gt => m | _ => bt_after k m' end
  end.

Context {HC : TotalCmp cmp}.

Lemma bt_insert_elem k v m kv :
  kv ∈ bt_insert k v m -> kv = (k, v) \/ kv ∈ m.
Proof.
  induction m as [|[k' v'] m IH]; cbn [bt_insert]; [set_solver|]. destruct (cmp k k'); set_solver.
Qed.

Lemma bt_insert_sorted k v m : bt_sorted m -> bt_sorted (bt_insert k v m).
Proof.
  induction 1 as [|[k' v'] m Hs IH Hf]; cbn [bt_insert]; [repeat constructor|]. destruct (cmp k k') eqn:Hc.
  - apply cmp_eq in Hc as ->. by constructor.
  - constructor; [by constructor|]. constructor; [done|]. eapply Forall_impl; [exact Hf|].
    intros kv Hkv. by apply (cmp_lt_trans (cmp:=cmp) k k').
  - constructor; [exact IH|]. apply Forall_forall. intros kv [->|Hin]%bt_insert_elem.
    + cbn. by apply cmp_gt_lt.
    + rewrite Forall_forall in Hf. by apply Hf.
Qed.

Lemma bt_remove_sub k m kv : kv ∈ bt_remove k m -> kv ∈ m.
Proof. induction m as [|[k' v'] m IH]; cbn [bt_remove]; [done|]. destruct (cmp k k'); set_solver. Qed.

Lemma bt_remove_sorted k m : bt_sorted m -> bt_sorted (bt_remove k m).
Proof.
  induction 1 as [|[k' v'] m Hs IH Hf]; cbn [bt_remove]; [constructor|]. destruct (cmp k k'); [done| |];
    constructor; try done; apply Forall_forall; intros kv Hin%bt_remove_sub; rewrite Forall_forall in Hf; by apply Hf.
Qed.

(** The entries of a sorted map are what [get] finds. *)
Lemma bt_get_elem k v m : bt_sorted m -> bt_get k m = Some v <-> (k, v) ∈ m.
Proof.
  induction 1 as [|[k' v'] m Hs IH Hf]; cbn [bt_get]; [set_solver|]. rewrite Forall_forall in Hf.
  rewrite elem_of_cons. destruct (cmp k k') eqn:Hc.
  - apply cmp_eq in Hc as ->. split; [intros [= ->]; by left|]. intros [[= ->]|Hin]; [done|].
    specialize (Hf _ Hin). cbn in Hf. by apply (cmp_lt_irrefl cmp) in Hf.
  - rewrite IH. split; [by right|]. intros [[= -> ->]|Hin]; [by rewrite (cmp_refl cmp) in Hc|done].
  - rewrite IH. split; [by right|]. intros [[= -> ->]|Hin]; [by rewrite (cmp_refl cmp) in Hc|done].
Qed.

Lemma bt_get_insert k v m k' :
  bt_sorted m -> bt_get k' (bt_insert k v m) = match cmp k' k with Eq => Some v | _ => bt_get k' m end.
Proof.
  induction 1 as [|[k0 v0] m Hs IH Hf]; cbn [bt_insert bt_get]; [done|]. destruct (cmp k k0) eqn:Hc; cbn [bt_get].
  - apply cmp_eq in Hc as ->. by destruct (cmp k' k0).
  - done.
  - rewrite IH. destruct (cmp k' k0) eqn:Hc1; [|done|done]. apply cmp_eq in Hc1 as ->.
    destruct (cmp k0 k) eqn:Hc2; [|done|done]. apply cmp_eq in Hc2 as ->. by rewrite (cmp_refl cmp) in Hc.
Qed.

Lemma bt_get_remove k m k' :
  bt_sorted m -> bt_get k' (bt_remove k m) = match cmp k' k with Eq => None | _ => bt_get k' m end.
Proof.
  induction 1 as [|[k0 v0] m Hs IH Hf]; cbn [bt_remove bt_get]; [by destruct (cmp k' k)|].
  destruct (cmp k k0) eqn:Hc; cbn [bt_get].
  - apply cmp_eq in Hc as ->. destruct (cmp k' k0) eqn:Hc1; [|done|done]. apply cmp_eq in Hc1 as ->.
    destruct (bt_get k0 m) eqn:Hg; [|done]. apply bt_get_elem in Hg; [|done]. rewrite Forall_forall in Hf.
    specialize (Hf _ Hg). cbn in Hf. by apply (cmp_lt_irrefl cmp) in Hf.
  - rewrite IH. destruct (cmp k' k0) eqn:Hc1; [|done|done]. apply cmp_eq in Hc1 as ->.
    rewrite (cmp_antisym (cmp:=cmp) k k0), Hc. done.
  - rewrite IH. destruct (cmp k' k0) eqn:Hc1; [|done|done]. apply cmp_eq in Hc1 as ->.
    rewrite (cmp_antisym (cmp:=cmp) k k0), Hc. done.
Qed.

Lemma bt_insert_iff k v m kv :
  bt_sorted m -> kv ∈ bt_insert k v m <-> kv = (k, v) \/ (kv ∈ m /\ kv.1 <> k).
Proof.
  intros Hs. destruct kv as [k1 v1]. rewrite <- (bt_get_elem k1 v1 (bt_insert k v m)) by (by apply bt_insert_sorted).
  rewrite bt_get_insert by done. cbn. rewrite <- (bt_get_elem k1 v1 m) by done.
  assert (Hne : cmp k1 k <> Eq -> k1 <> k) by (intros Hc ->; by rewrite (cmp_refl cmp) in Hc).
  destruct (cmp k1 k) eqn:Hc.
  - apply cmp_eq in Hc as ->. split; [intros [= ->]; by left|]. intros [[= ->]|[_ H]]; done.
  - split; [intros H; right; split; [done|by apply Hne]|]. intros [[= -> ->]|[H _]]; [by destruct Hne|done].
  - split; [intros H; right; split; [done|by apply Hne]|]. intros [[= -> ->]|[H _]]; [by destruct Hne|done].
Qed.

Lemma bt_remove_iff k m kv : bt_sorted m -> kv ∈ bt_remove k m <-> kv ∈ m /\ kv.1 <> k.
Proof.
  intros Hs. destruct kv as [k1 v1]. rewrite <- (bt_get_elem k1 v1 (bt_remove k m)) by (by apply bt_remove_sorted).
  rewrite bt_get_remove by done. cbn. rewrite <- (bt_get_elem k1 v1 m) by done.
  assert (Hne : cmp k1 k <> Eq -> k1 <> k) by (intros Hc ->; by rewrite (cmp_refl cmp) in Hc).
  destruct (cmp k1 k) eqn:Hc.
  - apply cmp_eq in Hc as ->. split; [done|]. by intros [_ H].
  - split; [intros H; split; [done|by apply Hne]|by intros [H _]].
  - split; [intros H; split; [done|by apply Hne]|by intros [H _]].
Qed.

(** The ranges. *)
Lemma bt_from_iff k m kv : bt_sorted m -> kv ∈ bt_from k m <-> kv ∈ m /\ cmp kv.1 k <> Lt.
Proof.
  induction 1 as [|kv0 m Hs IH Hf]; cbn [bt_from]; [set_solver|]. rewrite Forall_forall in Hf.
  rewrite elem_of_cons. destruct (cmp kv0.1 k) eqn:Hc.
  - rewrite elem_of_cons. split; [|naive_solver]. intros [->|Hin]; [split; [by left|congruence]|]. split; [by right|].
    apply cmp_eq in Hc as <-. intros Hlt. pose proof (cmp_lt_trans (cmp:=cmp) _ _ _ (Hf _ Hin) Hlt) as H.
    by apply (cmp_lt_irrefl cmp) in H.
  - rewrite IH. naive_solver.
  - rewrite elem_of_cons. split; [|naive_solver]. intros [->|Hin]; [split; [by left|congruence]|]. split; [by right|].
    intros Hlt. pose proof (cmp_lt_trans (cmp:=cmp) _ _ _ (Hf _ Hin) Hlt) as H. congruence.
Qed.
Lemma bt_after_iff k m kv : bt_sorted m -> kv ∈ bt_after k m <-> kv ∈ m /\ cmp kv.1 k = Gt.
Proof.
  induction 1 as [|kv0 m Hs IH Hf]; cbn [bt_after]; [set_solver|]. rewrite Forall_forall in Hf.
  rewrite elem_of_cons. destruct (cmp kv0.1 k) eqn:Hc.
  - rewrite IH. split; [intros [Hin H]; split; [by right|done]|]. intros [[->|Hin] H]; [congruence|done].
  - rewrite IH. split; [intros [Hin H]; split; [by right|done]|]. intros [[->|Hin] H]; [congruence|done].
  - rewrite elem_of_cons. split; [|by intros [H _]]. intros [->|Hin]; [split; [by left|done]|]. split; [by right|].
    apply (cmp_gt_lt cmp) in Hc. apply (cmp_gt_lt cmp). exact (cmp_lt_trans (cmp:=cmp) _ _ _ Hc (Hf _ Hin)).
Qed.

(** They keep the order. *)
Lemma bt_from_sorted k m : bt_sorted m -> bt_sorted (bt_from k m).
Proof. induction 1 as [|kv m Hs IH Hf]; cbn [bt_from]; [constructor|]. destruct (cmp _ _); [by constructor|done|by constructor]. Qed.
Lemma bt_after_sorted k m : bt_sorted m -> bt_sorted (bt_after k m).
Proof. induction 1 as [|kv m Hs IH Hf]; cbn [bt_after]; [constructor|]. destruct (cmp _ _); [done|done|by constructor]. Qed.

Lemma bt_sorted_nodup m : bt_sorted m -> NoDup m.*1.
Proof.
  induction 1 as [|kv m Hs IH Hf]; cbn; [constructor|]. constructor; [|done].
  intros ([k v] & Heq & Hin)%list_elem_of_fmap. rewrite Forall_forall in Hf. specialize (Hf _ Hin). cbn in *.
  rewrite Heq in Hf. by apply (cmp_lt_irrefl cmp) in Hf.
Qed.
End btree.

Abbreviation btree K V := (list (K * V)).

(** Sorted lists with the same elements are equal. *)
Lemma ssorted_ext {A} (R : A -> A -> Prop) :
  (forall a, ~ R a a) -> Transitive R ->
  forall l1 l2, StronglySorted R l1 -> StronglySorted R l2 -> (forall x, x ∈ l1 <-> x ∈ l2) -> l1 = l2.
Proof.
  intros Hirr Htr. induction l1 as [|a l1 IH]; intros [|b l2] H1 H2 Hx; [done|set_solver|set_solver|].
  apply StronglySorted_inv in H1 as [H1 Ha]. apply StronglySorted_inv in H2 as [H2 Hb]. rewrite Forall_forall in Ha, Hb.
  assert (a = b) as <-.
  { pose proof (proj1 (Hx a) ltac:(by left)) as [?|?]%elem_of_cons; [done|].
    pose proof (proj2 (Hx b) ltac:(by left)) as [?|?]%elem_of_cons; [done|]. exfalso. apply (Hirr a), (Htr a b a); auto. }
  f_equal. apply IH; [done|done|]. intros x. specialize (Hx x). rewrite !elem_of_cons in Hx. split; intros Hin.
  - destruct (proj1 Hx (or_intror Hin)) as [->|?]; [|done]. by destruct (Hirr a (Ha _ Hin)).
  - destruct (proj2 Hx (or_intror Hin)) as [->|?]; [|done]. by destruct (Hirr a (Hb _ Hin)).
Qed.
