(* ===== verification/SstFile.v ===== *)
(** * The files of a table

    Models [analytic_engine/src/sst/file.rs] (file metas, handles, the set of
    the files of a level) and [sst/manager.rs] (the levels).

    A handle is a reference counted object whose [being_compacted] flag its
    copies share: a handle carries its address, and the flags are the set of
    the addresses of the files that are being compacted.  The purge of files
    whose last handle is dropped is not modelled. *)

From Stdlib Require Import ZArith Lia Sorted.
From stdpp Require Import base tactics option list sorting numbers gmap sets.
From S2P Require Import Prelude Time BTree.

#[local] Open Scope Z_scope.

Definition SST_LEVEL_NUM : nat := 2.

(** [Level], a 16-bit number. *)
Module Level.
Definition t := Z.
Definition MAX : t := 1.
Definition MIN : t := 0.
Definition next {E} (self : t) : res E t :=
  let? n := (if uintb 16 (self + 1) then Ok (self + 1) else Panic) in Ok (Z.min MAX n).
Definition is_min (self : t) : bool := self =? MIN.
Definition as_usize (self : t) : nat := Z.to_nat self.
End Level.

Inductive StorageFormat := Columnar | Hybrid.
#[export] Instance storage_format_eq_dec : EqDecision StorageFormat.
Proof. solve_decision. Defined.

Record FileMeta := MkFileMeta {
  fm_id : Z;
  fm_size : Z;
  fm_row_num : Z;
  fm_time_range : TimeRange.t;
  fm_max_seq : Z;
  fm_storage_format : StorageFormat
}.
#[export] Instance file_meta_eq_dec : EqDecision FileMeta.
Proof. solve_decision. Defined.
Definition meta_intersect_with_time_range (m : FileMeta) (time_range : TimeRange.t) : bool :=
  TimeRange.intersect_with (fm_time_range m) time_range.

(** [FileHandle]: the meta and the address of the shared flag. *)
Record FileHandle := MkFileHandle { fh_meta : FileMeta; fh_addr : nat }.
#[export] Instance file_handle_eq_dec : EqDecision FileHandle.
Proof. solve_decision. Defined.
Definition fh_id (f : FileHandle) : Z := fm_id (fh_meta f).
Definition fh_time_range (f : FileHandle) : TimeRange.t := fm_time_range (fh_meta f).
Definition fh_size (f : FileHandle) : Z := fm_size (fh_meta f).
Definition fh_max_sequence (f : FileHandle) : Z := fm_max_seq (fh_meta f).
Definition fh_intersect_with_time_range (f : FileHandle) (time_range : TimeRange.t) : bool :=
  meta_intersect_with_time_range (fh_meta f) time_range.

(** The flags of the files. *)
Abbreviation flags := (gset nat).
Definition being_compacted (fl : flags) (f : FileHandle) : bool := bool_decide (fh_addr f ∈ fl).
Definition set_being_compacted (fl : flags) (f : FileHandle) (value : bool) : flags :=
  if value then {[ fh_addr f ]} ∪ fl else fl ∖ {[ fh_addr f ]}.

(** [FileOrdKey]: by end, start and id. *)
Record FileOrdKey := MkOrdKey { ok_exclusive_end : Z; ok_inclusive_start : Z; ok_file_id : Z }.
Definition ord_key_fields (k : FileOrdKey) : Z * (Z * Z) := (ok_exclusive_end k, (ok_inclusive_start k, ok_file_id k)).
Definition ord_key_cmp (a b : FileOrdKey) : comparison :=
  pair_cmp Z.compare (pair_cmp Z.compare Z.compare) (ord_key_fields a) (ord_key_fields b).
#[export] Instance ord_key_cmp_total : TotalCmp ord_key_cmp.
Proof.
  apply (total_inj ord_key_fields (pair_cmp Z.compare (pair_cmp Z.compare Z.compare))); [apply _|].
  intros [] [] [= -> -> ->]. done.
Qed.
Definition for_seek (exclusive_end : Z) : FileOrdKey := MkOrdKey exclusive_end Timestamp.MIN 0.
Definition ord_key_of (f : FileHandle) : FileOrdKey :=
  MkOrdKey (TimeRange.exclusive_end (fh_time_range f)) (TimeRange.inclusive_start (fh_time_range f)) (fh_id f).

(** [FileHandleSet]: [id_to_files] is a [HashSet] of handles hashed and
    compared by their ids. *)
Record FileHandleSet := MkFileSet {
  file_map : btree FileOrdKey FileHandle;
  id_to_files : gmap Z FileHandle
}.
Definition file_set_new : FileHandleSet := MkFileSet [] ∅.
Definition set_latest (s : FileHandleSet) : option FileHandle := snd <$> last (file_map s).
Definition files_by_time_range (s : FileHandleSet) (time_range : TimeRange.t) : list FileHandle :=
  filter (fun f => fh_intersect_with_time_range f time_range = true)
    (bt_from ord_key_cmp (for_seek (TimeRange.inclusive_start time_range)) (file_map s)).*2.
(** [HashSet::insert] keeps an equal element that is there. *)
Definition set_insert (s : FileHandleSet) (f : FileHandle) : FileHandleSet :=
  MkFileSet (bt_insert ord_key_cmp (ord_key_of f) f (file_map s))
    (match id_to_files s !! fh_id f with Some _ => id_to_files s | None => <[fh_id f := f]> (id_to_files s) end).
Definition remove_id (s : FileHandleSet) (file_id : Z) : FileHandleSet :=
  match id_to_files s !! file_id with
  | Some f => MkFileSet (bt_remove ord_key_cmp (ord_key_of f) (file_map s)) (delete file_id (id_to_files s))
  | None => s
  end.
Definition remove_by_ids (s : FileHandleSet) (file_ids : list Z) : FileHandleSet := foldl remove_id s file_ids.
(** The loop ends at the first file that is not expired. *)
Fixpoint take_expired (expire_time : option Z) (files : list FileHandle) : list FileHandle :=
  match files with
  | [] => []
  | f :: files => if TimeRange.is_expired (fh_time_range f) expire_time then f :: take_expired expire_time files else []
  end.
Definition set_collect_expired (s : FileHandleSet) (expire_time : option Z) : list FileHandle :=
  take_expired expire_time (file_map s).*2.
Definition set_has_expired_sst (s : FileHandleSet) (expire_time : option Z) : bool :=
  match (file_map s).*2 with
  | f :: _ => TimeRange.is_expired (fh_time_range f) expire_time
  | [] => false
  end.

Record LevelHandler := MkLevelHandler { lh_level : Level.t; lh_files : FileHandleSet }.
Definition level_new (level : Level.t) : LevelHandler := MkLevelHandler level file_set_new.
Definition level_iter_ssts (lh : LevelHandler) : list FileHandle := (file_map (lh_files lh)).*2.

(** [LevelsController], with the next free address. *)
Record LevelsController := MkLevels { lc_levels : list LevelHandler; lc_next_addr : nat }.
Definition levels_new : LevelsController := MkLevels [level_new Level.MIN; level_new Level.MAX] 0.

Section levels.
Context {E : Type}.

Definition on_level (lc : LevelsController) (level : Level.t) (f : FileHandleSet -> FileHandleSet)
    (next_addr : nat) : res E LevelsController :=
  let? lh := unwrap (lc_levels lc !! Level.as_usize level) in
  Ok (MkLevels (<[Level.as_usize level := MkLevelHandler (lh_level lh) (f (lh_files lh))]> (lc_levels lc)) next_addr).
Definition add_sst_to_level (lc : LevelsController) (level : Level.t) (file_meta : FileMeta) : res E LevelsController :=
  on_level lc level (fun s => set_insert s (MkFileHandle file_meta (lc_next_addr lc))) (S (lc_next_addr lc)).
Definition remove_ssts_from_level (lc : LevelsController) (level : Level.t) (file_ids : list Z)
  : res E LevelsController :=
  on_level lc level (fun s => remove_by_ids s file_ids) (lc_next_addr lc).
Definition latest_sst (lc : LevelsController) (level : Level.t) : res E (option FileHandle) :=
  let? lh := unwrap (lc_levels lc !! Level.as_usize level) in Ok (set_latest (lh_files lh)).
(** [pick_ssts]: what the callback is given. *)
Definition pick_ssts (lc : LevelsController) (time_range : TimeRange.t) : list (Level.t * list FileHandle) :=
  (fun lh => (lh_level lh, files_by_time_range (lh_files lh) time_range)) <$> lc_levels lc.
Definition lc_level_list (lc : LevelsController) : list Level.t := lh_level <$> lc_levels lc.
Definition iter_ssts_at_level (lc : LevelsController) (level : Level.t) : res E (list FileHandle) :=
  let? lh := unwrap (lc_levels lc !! Level.as_usize level) in Ok (level_iter_ssts lh).
Definition collect_expired_at_level (lc : LevelsController) (level : Level.t) (expire_time : option Z)
  : res E (list FileHandle) :=
  let? lh := unwrap (lc_levels lc !! Level.as_usize level) in
  Ok (set_collect_expired (lh_files lh) expire_time).
Definition has_expired_sst (lc : LevelsController) (expire_time : option Z) : bool :=
  existsb (fun lh => set_has_expired_sst (lh_files lh) expire_time) (lc_levels lc).
Fixpoint expired_of (lc : LevelsController) (expire_time : option Z) (levels : list Level.t)
  : res E (list (Level.t * list FileHandle)) :=
  match levels with
  | [] => Ok []
  | level :: levels =>
      let? files := collect_expired_at_level lc level expire_time in
      let? rest := expired_of lc expire_time levels in
      Ok ((level, files) :: rest)
  end.
Definition expired_ssts (lc : LevelsController) (expire_time : option Z) : res E (list (Level.t * list FileHandle)) :=
  expired_of lc expire_time (lc_level_list lc).
End levels.

(** ** What a set of files holds *)

(** The set holds the files [m], by id. *)
Record file_set (s : FileHandleSet) (m : gmap Z FileHandle) : Prop := {
  fs_ids : id_to_files s = m;
  fs_key : forall id f, m !! id = Some f -> fh_id f = id;
  fs_sorted : bt_sorted ord_key_cmp (file_map s);
  fs_map : forall k f, (k, f) ∈ file_map s <-> k = ord_key_of f /\ m !! fh_id f = Some f
}.

Lemma file_set_empty : file_set file_set_new ∅.
Proof. split; cbn; [done|done|constructor|]. intros k f. set_solver. Qed.

Lemma file_set_insert s m f :
  file_set s m -> m !! fh_id f = None -> file_set (set_insert s f) (<[fh_id f := f]> m).
Proof.
  intros [Hid Hkey Hsort Hmap] Hfresh. unfold set_insert. rewrite Hid, Hfresh. split; cbn.
  - done.
  - intros id f'. rewrite lookup_insert_Some. naive_solver.
  - by apply bt_insert_sorted; [apply _|].
  - intros k f'. rewrite (bt_insert_iff ord_key_cmp) by done. rewrite Hmap, lookup_insert_Some. cbn. split.
    + intros [[= -> ->]|[[-> Hm] Hne]]; [by auto|]. split; [done|]. right. split; [|done].
      intros Heq. congruence.
    + intros [-> [[Heq <-]|[Hne Hm]]]; [by left|]. right. split; [done|]. intros [= _ _ Heq]. congruence.
Qed.

Lemma file_set_remove s m id : file_set s m -> file_set (remove_id s id) (delete id m).
Proof.
  intros Hs. pose proof Hs as [Hid Hkey Hsort Hmap]. unfold remove_id. rewrite Hid.
  destruct (m !! id) as [f|] eqn:Hf; [|by rewrite delete_id].
  split; cbn.
  - done.
  - intros id' f'. rewrite lookup_delete_Some. intros [_ ?]. by apply Hkey.
  - by apply bt_remove_sorted; [apply _|].
  - intros k f'. rewrite (bt_remove_iff ord_key_cmp) by done. rewrite Hmap, lookup_delete_Some. cbn.
    pose proof (Hkey id f Hf) as Hidf. split.
    + intros [[-> Hm] Hne]. split; [done|]. split; [|done]. intros Heq. apply Hne. congruence.
    + intros [-> [Hne Hm]]. split; [done|]. intros [= _ _ Heq]. congruence.
Qed.

Lemma file_set_remove_ids ids : forall s m, file_set s m -> file_set (remove_by_ids s ids) (foldl (fun m id => delete id m) m ids).
Proof. induction ids as [|id ids IH]; intros s m Hs; [done|]. cbn. by apply IH, file_set_remove. Qed.

(** ** Queries *)

Lemma file_set_elem s m f : file_set s m -> f ∈ (file_map s).*2 <-> m !! fh_id f = Some f.
Proof.
  intros [_ _ _ Hmap]. rewrite list_elem_of_fmap. split.
  - intros ([k f'] & -> & Hin). by apply Hmap in Hin as [_ Hin].
  - intros Hf. exists (ord_key_of f, f). split; [done|]. by apply Hmap.
Qed.

Definition ends_le (a b : FileHandle) : Prop :=
  TimeRange.exclusive_end (fh_time_range a) <= TimeRange.exclusive_end (fh_time_range b).

Lemma ord_key_lt_end a b : ord_key_cmp a b = Lt -> ok_exclusive_end a <= ok_exclusive_end b.
Proof.
  unfold ord_key_cmp, pair_cmp. cbn [fst snd ord_key_fields].
  destruct (Z.compare_spec (ok_exclusive_end a) (ok_exclusive_end b)); cbn; lia || done.
Qed.

Lemma file_set_ends s m : file_set s m -> StronglySorted ends_le (file_map s).*2.
Proof.
  intros [_ _ Hs Hmap]. assert (Hk : Forall (fun kf => kf.1 = ord_key_of kf.2) (file_map s)).
  { apply Forall_forall. intros [k f] Hin. by apply Hmap in Hin as [-> _]. }
  clear Hmap. induction Hs as [|[k f] l Hs IH Hf]; [constructor|]. apply Forall_cons in Hk as [Hk0 Hk].
  rewrite fmap_cons. constructor; [by apply IH|]. apply Forall_fmap. rewrite Forall_forall in Hf, Hk |- *.
  intros [k' f'] Hin. specialize (Hf _ Hin). specialize (Hk _ Hin). cbn in *. subst k k'.
  by apply ord_key_lt_end in Hf.
Qed.

Lemma bt_from_fmap_elem s m k f :
  file_set s m -> f ∈ (bt_from ord_key_cmp k (file_map s)).*2 <-> m !! fh_id f = Some f /\ ord_key_cmp (ord_key_of f) k <> Lt.
Proof.
  intros [_ _ Hs Hmap]. rewrite list_elem_of_fmap. split.
  - intros ([k' f'] & -> & Hin). apply (bt_from_iff ord_key_cmp) in Hin as [Hin Hc]; [|done].
    apply Hmap in Hin as [-> Hin]. done.
  - intros [Hf Hc]. exists (ord_key_of f, f). split; [done|]. apply (bt_from_iff ord_key_cmp); [done|].
    split; [by apply Hmap|done].
Qed.

Lemma files_by_time_range_spec s m q f :
  file_set s m ->
  f ∈ files_by_time_range s q <-> m !! fh_id f = Some f /\ TimeRange.intersect_with (fh_time_range f) q = true.
Proof.
  intros Hs. unfold files_by_time_range. rewrite list_elem_of_filter, (bt_from_fmap_elem s m) by done.
  unfold fh_intersect_with_time_range, meta_intersect_with_time_range. fold (fh_time_range f). split; [by intros [? [? _]]|].
  intros [Hf Hq]. split; [done|]. split; [done|].
  unfold TimeRange.intersect_with, TimeRange.not_intersecting in Hq.
  apply negb_true_iff, orb_false_iff in Hq as [Hq1 Hq2]. apply Z.leb_gt in Hq2.
  intros Hlt. apply ord_key_lt_end in Hlt. cbn in Hlt. lia.
Qed.

Lemma take_expired_spec e l f :
  StronglySorted ends_le l ->
  f ∈ take_expired e l <-> f ∈ l /\ TimeRange.is_expired (fh_time_range f) e = true.
Proof.
  induction 1 as [|a l Hs IH Hf]; cbn [take_expired]; [set_solver|]. rewrite elem_of_cons.
  destruct (TimeRange.is_expired (fh_time_range a) e) eqn:Ha.
  - rewrite elem_of_cons, IH. split; [intros [->|[? ?]]; auto|]. intros [[->|?] ?]; auto.
  - split; [set_solver|]. intros [[->|Hin] He]; [congruence|]. exfalso.
    rewrite Forall_forall in Hf. specialize (Hf f Hin). unfold ends_le in Hf. unfold TimeRange.is_expired in *.
    destruct e as [e|]; [|done]. apply Z.leb_gt in Ha. apply Z.leb_le in He. lia.
Qed.

Lemma head_expired l e :
  StronglySorted ends_le l ->
  match l with f :: _ => TimeRange.is_expired (fh_time_range f) e | [] => false end = true <->
  exists f, f ∈ l /\ TimeRange.is_expired (fh_time_range f) e = true.
Proof.
  intros Hs. destruct l as [|a l]; [set_solver|]. split; [intros Ha; exists a; split; [by left|done]|].
  intros (f & Hf & He). apply (conj Hf), (take_expired_spec e (a :: l) f Hs) in He.
  cbn [take_expired] in He. destruct (TimeRange.is_expired (fh_time_range a) e); [done|set_solver].
Qed.

(** ** Properties *)

Inductive file_op := InsertFile (f : FileHandle) | RemoveFiles (ids : list Z).
Definition file_step (s : FileHandleSet) (op : file_op) : FileHandleSet :=
  match op with InsertFile f => set_insert s f | RemoveFiles ids => remove_by_ids s ids end.
(** The same on a map from ids; an id is not inserted twice. *)
Inductive file_trace : gmap Z FileHandle -> list file_op -> gmap Z FileHandle -> Prop :=
| ft_nil m : file_trace m [] m
| ft_insert m f ops m' :
    m !! fh_id f = None -> file_trace (<[fh_id f := f]> m) ops m' -> file_trace m (InsertFile f :: ops) m'
| ft_remove m ids ops m' :
    file_trace (foldl (fun m id => delete id m) m ids) ops m' -> file_trace m (RemoveFiles ids :: ops) m'.

Lemma file_trace_set m ops m' : file_trace m ops m' -> forall s, file_set s m -> file_set (foldl file_step s ops) m'.
Proof.
  induction 1 as [|m f ops m' Hf _ IH|m ids ops m' _ IH]; intros s Hs; cbn [foldl file_step]; [done| |].
  - by apply IH, file_set_insert.
  - by apply IH, file_set_remove_ids.
Qed.

(** C38. The set of the files of a level is a map from ids to files.  After any
    insertions of files with new ids and removals by id, the files of a time
    range are exactly the ones in the map that overlap it, the expired ones are
    exactly those whose range ends by the given time, although only a prefix of
    the files is looked at, there is one if the check for one says so, and the
    latest file ends last. *)
Theorem file_set_refines_map ops m :
  file_trace ∅ ops m ->
  let s := foldl file_step file_set_new ops in
  (forall q f, f ∈ files_by_time_range s q <-> m !! fh_id f = Some f /\ TimeRange.intersect_with (fh_time_range f) q = true) /\
  (forall e f, f ∈ set_collect_expired s e <-> m !! fh_id f = Some f /\ TimeRange.is_expired (fh_time_range f) e = true) /\
  (forall e, set_has_expired_sst s e = true <-> exists f, m !! fh_id f = Some f /\ TimeRange.is_expired (fh_time_range f) e = true) /\
  match set_latest s with
  | None => m = ∅
  | Some f => m !! fh_id f = Some f /\ forall id g, m !! id = Some g -> ends_le g f
  end.
Proof.
  intros Ht s. pose proof (file_trace_set _ _ _ Ht _ file_set_empty) as Hs. fold s in Hs.
  pose proof (file_set_ends s m Hs) as Hends. split; [intros q f; by apply files_by_time_range_spec|]. split; [|split].
  - intros e f. unfold set_collect_expired. rewrite take_expired_spec by done. by rewrite (file_set_elem s m).
  - intros e. unfold set_has_expired_sst. rewrite head_expired by done.
    split; intros (f & Hf & He); exists f; (split; [|done]); by apply (file_set_elem s m).
  - assert (Hall : forall id g, m !! id = Some g -> g ∈ (file_map s).*2).
    { intros id g Hg. apply (file_set_elem s m); [done|]. by rewrite (fs_key _ _ Hs id g Hg). }
    unfold set_latest. rewrite <- fmap_last. destruct (last (file_map s).*2) as [f|] eqn:Hl.
    + apply last_Some in Hl as [l Hl]. split; [apply (file_set_elem s m); [done|]; rewrite Hl; set_solver|].
      intros id g Hg%Hall. rewrite Hl in Hends, Hg. apply elem_of_app in Hg as [Hg|Hg].
      * exact (StronglySorted_app_1_elem_of _ _ _ g f Hends Hg ltac:(by left)).
      * apply list_elem_of_singleton in Hg as ->. unfold ends_le. lia.
    + apply last_None in Hl. apply map_empty. intros id. destruct (m !! id) as [g|] eqn:Hg; [|done].
      apply Hall in Hg. rewrite Hl in Hg. set_solver.
Qed.

Definition demo_file (id start stop : Z) : FileHandle :=
  MkFileHandle (MkFileMeta id 10 1 (TimeRange.Mk start stop) 5 Columnar) (Z.to_nat id).
Lemma file_set_refines_map_witness :
  files_by_time_range (foldl file_step file_set_new
      [InsertFile (demo_file 1 0 10); InsertFile (demo_file 2 10 20); InsertFile (demo_file 3 20 30); RemoveFiles [1]])
    (TimeRange.Mk 5 15) = [demo_file 2 10 20] /\
  demo_file 2 10 20 ∈ files_by_time_range (foldl file_step file_set_new
      [InsertFile (demo_file 1 0 10); InsertFile (demo_file 2 10 20); InsertFile (demo_file 3 20 30); RemoveFiles [1]])
    (TimeRange.Mk 5 15).
Proof.
  split; [vm_compute; reflexivity|].
  eapply (file_set_refines_map [InsertFile (demo_file 1 0 10); InsertFile (demo_file 2 10 20);
            InsertFile (demo_file 3 20 30); RemoveFiles [1]]).
  - apply ft_insert; [reflexivity|]. apply ft_insert; [reflexivity|]. apply ft_insert; [reflexivity|].
    apply ft_remove. apply ft_nil.
  - split; vm_compute; reflexivity.
Defined.
