(* ===== verification/Version.v ===== *)
(** * The version of a table

    Models [analytic_engine/src/table/version.rs] and [version_edit.rs]: the
    memtables and files of a table, the edits applied to them, the view a read
    gets, and the meta data edits are applied to during recovery.

    A memtable is an object that its states share; it is given by its address.
    What the version asks of a memtable is the class [MemTableRef], and the
    operations that ask take the store, which has for every address a memtable
    and, for a sampling memtable, its sampler. *)

From Stdlib Require Import ZArith Lia Sorted.
From stdpp Require Import base tactics option list sorting numbers gmap sets.
From S2P Require Import Prelude Time Sampler BTree SstFile.

#[local] Open Scope Z_scope.

Class MemTableRef (M : Type) := {
  mem_last_sequence : M -> Z;
  mem_schema_version : M -> Z;
  mem_approximate_memory_usage : M -> Z
}.

(** [MemTableState] and [SamplingMemTable]. *)
Record MemTableState := MkMemState { ms_mem : nat; ms_time_range : TimeRange.t; ms_id : Z }.
Record SamplingMemTable := MkSampling { sm_mem : nat; sm_id : Z; sm_freezed : bool }.
#[export] Instance mem_state_eq_dec : EqDecision MemTableState.
Proof. solve_decision. Defined.
Definition sampling_new (memtable : nat) (id : Z) : SamplingMemTable := MkSampling memtable id false.

Inductive MemTableForWrite := Sampling (v : SamplingMemTable) | Normal (v : MemTableState).
Definition mfw_memtable (m : MemTableForWrite) : nat :=
  match m with Sampling v => sm_mem v | Normal v => ms_mem v end.
Definition accept_timestamp (m : MemTableForWrite) (timestamp : Z) : bool :=
  match m with Sampling _ => true | Normal v => TimeRange.contains (ms_time_range v) timestamp end.

Record FlushableMemTables := MkFlushable {
  fl_sampling_mem : option SamplingMemTable;
  fl_memtables : list MemTableState
}.
Definition flushable_is_empty (f : FlushableMemTables) : bool :=
  match fl_sampling_mem f, fl_memtables f with None, [] => true | _, _ => false end.
Definition flushable_ids (f : FlushableMemTables) : list Z :=
  match fl_sampling_mem f with Some v => [sm_id v] | None => [] end ++ (ms_id <$> fl_memtables f).

(** The mutable memtables by the end of their range, the immutable ones by id. *)
Record MemTableView := MkView {
  sampling_mem : option SamplingMemTable;
  mutables : btree Z MemTableState;
  immutables : btree Z MemTableState
}.
Definition view_new : MemTableView := MkView None [] [].

Record ReadView := MkReadView {
  rv_sampling_mem : option SamplingMemTable;
  rv_memtables : list MemTableState;
  rv_leveled_ssts : list (list FileHandle)
}.

(** [version_edit.rs]. *)
Record AddFile := MkAddFile { af_level : Level.t; af_file : FileMeta }.
Record DeleteFile := MkDeleteFile { df_level : Level.t; df_file_id : Z }.
Record VersionEdit := MkVersionEdit {
  ve_flushed_sequence : Z;
  ve_mems_to_remove : list Z;
  ve_files_to_add : list AddFile;
  ve_files_to_delete : list DeleteFile;
  ve_max_file_id : Z
}.
#[export] Instance add_file_eq_dec : EqDecision AddFile.
Proof. solve_decision. Defined.

Inductive VersionError := SchemaMismatch (memtable_version given : Z).

(** [TableVersionInner]. *)
Record TableVersion := MkVersion {
  memtable_view : MemTableView;
  levels_controller : LevelsController;
  flushed_sequence : Z;
  max_file_id : Z
}.
Definition version_new : TableVersion := MkVersion view_new levels_new 0 0.
Definition with_view (v : TableVersion) (w : MemTableView) : TableVersion :=
  MkVersion w (levels_controller v) (flushed_sequence v) (max_file_id v).

Section version.
Context {M : Type} {MR : MemTableRef M}.

(** The store of memtables. *)
Abbreviation store := (nat -> M * Sampler.State).
Definition last_sequence_of (h : store) (mem : nat) : Z := mem_last_sequence (h mem).1.

Definition memory_usage {E} (h : store) (mems : list nat) : res E Z :=
  rfold (fun acc m => u64_op (acc + mem_approximate_memory_usage (h m).1)) mems 0.
Definition view_mutable_memory_usage {E} (h : store) (w : MemTableView) : res E Z :=
  let? a := memory_usage h ((fun kv => ms_mem kv.2) <$> mutables w) in
  u64_op (a + match sampling_mem w with Some v => mem_approximate_memory_usage (h (sm_mem v)).1 | None => 0 end).
Definition view_total_memory_usage {E} (h : store) (w : MemTableView) : res E Z :=
  let? mutable_usage := view_mutable_memory_usage h w in
  let? immutable_usage := memory_usage h ((fun kv => ms_mem kv.2) <$> immutables w) in
  u64_op (mutable_usage + immutable_usage).

(** [Iterator::max]. *)
Definition max_of (l : list Z) : option Z :=
  match l with [] => None | x :: l => Some (foldl Z.max x l) end.

(** [switch_memtables]: all mutable memtables become immutable. *)
Definition switch_memtables (h : store) (v : TableVersion) : option Z * TableVersion :=
  let w := memtable_view v in
  let last_seq := max_of ((fun kv => last_sequence_of h (ms_mem kv.2)) <$> mutables w) in
  let immem := foldl (fun im kv => bt_insert Z.compare (ms_id kv.2) kv.2 im) (immutables w) (mutables w) in
  (last_seq, with_view v (MkView (sampling_mem w) [] immem)).

(** [suggest_duration]; the sampler caches what it computed. *)
Definition suggest_duration (h : store) (v : TableVersion)
  : res SamplerError (option Z * option (nat * Sampler.State)) :=
  let w := memtable_view v in
  match sampling_mem w with
  | Some sm =>
      if negb (sm_freezed sm) then
        let? _ := rassert (match mutables w with [] => true | _ => false end) in
        let? _ := rassert (match immutables w with [] => true | _ => false end) in
        let? (d, s) := Sampler.suggest_duration (h (sm_mem sm)).2 in
        Ok (Some d, Some (sm_mem sm, s))
      else Ok (None, None)
  | None => Ok (None, None)
  end.

Definition freeze_sampling_memtable (h : store) (v : TableVersion) : option Z * TableVersion :=
  let w := memtable_view v in
  match sampling_mem w with
  | Some sm =>
      (Some (last_sequence_of h (sm_mem sm)),
       with_view v (MkView (Some (MkSampling (sm_mem sm) (sm_id sm) true)) (mutables w) (immutables w)))
  | None => (None, v)
  end.

Definition pick_memtables_to_flush (h : store) (v : TableVersion) (last_sequence : Z) : FlushableMemTables :=
  let w := memtable_view v in
  MkFlushable
    (match sampling_mem w with
     | Some sm => if last_sequence_of h (sm_mem sm) <=? last_sequence then Some sm else None
     | None => None
     end)
    (filter (fun m => last_sequence_of h (ms_mem m) <= last_sequence) (immutables w).*2).

Definition remove_immutable_or_sampling (w : MemTableView) (id : Z) : MemTableView :=
  let remove := MkView (sampling_mem w) (mutables w) (bt_remove Z.compare id (immutables w)) in
  match sampling_mem w with
  | Some sm => if sm_id sm =? id then MkView None (mutables w) (immutables w) else remove
  | None => remove
  end.

(** [MutableMemTableSet::memtable_for_write]: the first range that ends after
    the timestamp, if it holds it. *)
Definition mutable_for_write (m : btree Z MemTableState) (timestamp : Z) : option MemTableState :=
  match bt_after Z.compare timestamp m with
  | (_, memtable) :: _ => if TimeRange.contains (ms_time_range memtable) timestamp then Some memtable else None
  | [] => None
  end.
Definition inner_memtable_for_write (v : TableVersion) (timestamp : Z) : option MemTableForWrite :=
  let w := memtable_view v in
  match sampling_mem w with
  | Some mem => if negb (sm_freezed mem) then Some (Sampling mem)
                else Normal <$> mutable_for_write (mutables w) timestamp
  | None => Normal <$> mutable_for_write (mutables w) timestamp
  end.
Definition memtable_for_write (h : store) (v : TableVersion) (timestamp schema_version : Z)
  : res VersionError (option MemTableForWrite) :=
  match inner_memtable_for_write v timestamp with
  | None => Ok None
  | Some mutable =>
      let version := mem_schema_version (h (mfw_memtable mutable)).1 in
      let? _ := ensure (version =? schema_version) (SchemaMismatch version schema_version) in
      Ok (Some mutable)
  end.

(** [insert_mutable] panics on a memtable with the same end. *)
Definition insert_mutable {E} (v : TableVersion) (mem_state : MemTableState) : res E TableVersion :=
  let w := memtable_view v in
  let stop := TimeRange.exclusive_end (ms_time_range mem_state) in
  let? _ := rassert (match bt_get Z.compare stop (mutables w) with None => true | Some _ => false end) in
  Ok (with_view v (MkView (sampling_mem w) (bt_insert Z.compare stop mem_state (mutables w)) (immutables w))).
Definition set_sampling {E} (v : TableVersion) (sm : SamplingMemTable) : res E TableVersion :=
  let w := memtable_view v in
  let? _ := rassert (match sampling_mem w with None => true | Some _ => false end) in
  Ok (with_view v (MkView (Some sm) (mutables w) (immutables w))).

(** [apply_edit]. *)
Definition add_files {E} (lc : LevelsController) (files : list AddFile) : res E LevelsController :=
  rfold (fun lc f => add_sst_to_level lc (af_level f) (af_file f)) files lc.
Definition delete_files {E} (lc : LevelsController) (files : list DeleteFile) : res E LevelsController :=
  rfold (fun lc f => remove_ssts_from_level lc (df_level f) [df_file_id f]) files lc.
Definition apply_edit {E} (v : TableVersion) (edit : VersionEdit) : res E TableVersion :=
  let? lc := add_files (levels_controller v) (ve_files_to_add edit) in
  let? lc := delete_files lc (ve_files_to_delete edit) in
  let w := foldl remove_immutable_or_sampling (memtable_view v) (ve_mems_to_remove edit) in
  Ok (MkVersion w lc (Z.max (flushed_sequence v) (ve_flushed_sequence edit))
        (Z.max (max_file_id v) (ve_max_file_id edit))).

(** [memtables_for_read] of the two sets. *)
Definition mutables_for_read (m : btree Z MemTableState) (time_range : TimeRange.t) : list MemTableState :=
  filter (fun s => TimeRange.intersect_with (ms_time_range s) time_range = true)
    (bt_after Z.compare (TimeRange.inclusive_start time_range) m).*2.
Definition immutables_for_read (m : btree Z MemTableState) (time_range : TimeRange.t) : list MemTableState :=
  filter (fun s => TimeRange.intersect_with (ms_time_range s) time_range = true) m.*2.
(** [pick_read_view]; a level out of range panics. *)
Definition pick_read_view {E} (v : TableVersion) (time_range : TimeRange.t) : res E ReadView :=
  let w := memtable_view v in
  let mems := mutables_for_read (mutables w) time_range ++ immutables_for_read (immutables w) time_range in
  let? ssts := rfold (fun acc p =>
      let? l := unwrap (acc !! Level.as_usize p.1) in
      Ok (<[Level.as_usize p.1 := l ++ p.2]> acc))
    (pick_ssts (levels_controller v) time_range) (replicate SST_LEVEL_NUM []) in
  Ok (MkReadView (sampling_mem w) mems ssts).
End version.

(** ** Meta data *)

(** [TableVersionMeta], also the snapshot of a version. *)
Record TableVersionMeta := MkVersionMeta {
  vm_flushed_sequence : Z;
  vm_files : gmap Z AddFile;
  vm_max_file_id : Z
}.
Definition version_meta_default : TableVersionMeta := MkVersionMeta 0 ∅ 0.
Definition DEFAULT_ALLOC_STEP : Z := 100.

Definition file_id_le (a b : AddFile) : Prop := fm_id (af_file a) <= fm_id (af_file b).
#[export] Instance file_id_le_dec : RelDecision file_id_le.
Proof. intros a b. unfold file_id_le. apply _. Defined.

Section meta.
Context {E : Type}.

(** [apply_meta]: the files of the map, in the order of its iteration. *)
Definition apply_meta (v : TableVersion) (meta : TableVersionMeta) (order : list AddFile) : res E TableVersion :=
  let? lc := add_files (levels_controller v) order in
  Ok (MkVersion (memtable_view v) lc (Z.max (flushed_sequence v) (vm_flushed_sequence meta))
        (Z.max (max_file_id v) (vm_max_file_id meta))).

Definition add_meta_file (meta : Z * gmap Z AddFile) (f : AddFile) : Z * gmap Z AddFile :=
  (Z.max meta.1 (fm_id (af_file f)), <[fm_id (af_file f) := f]> meta.2).
Definition meta_apply_edit (meta : TableVersionMeta) (edit : VersionEdit) : res E TableVersionMeta :=
  let flushed := Z.max (vm_flushed_sequence meta) (ve_flushed_sequence edit) in
  let added := foldl add_meta_file (vm_max_file_id meta, vm_files meta) (ve_files_to_add edit) in
  let max_id := Z.max added.1 (ve_max_file_id edit) in
  let? sum := u64_op (max_id + DEFAULT_ALLOC_STEP) in
  let? aligned := u64_op ((sum - 1) / DEFAULT_ALLOC_STEP * DEFAULT_ALLOC_STEP) in
  let files := foldl (fun files d => delete (df_file_id d) files) added.2 (ve_files_to_delete edit) in
  Ok (MkVersionMeta flushed files aligned).

(** [ordered_files]. *)
Definition ordered_files (meta : TableVersionMeta) : list AddFile :=
  merge_sort file_id_le (map_to_list (vm_files meta)).*2.

(** [snapshot]: the files of all levels by id. *)
Definition snapshot (v : TableVersion) : res E TableVersionMeta :=
  let lc := levels_controller v in
  let? files := rfold (fun files level =>
      let? ssts := iter_ssts_at_level lc level in
      Ok (foldl (fun files f => <[fh_id f := MkAddFile level (fh_meta f)]> files) files ssts))
    (lc_level_list lc) ∅ in
  Ok (MkVersionMeta (flushed_sequence v) files (max_file_id v)).
End meta.

(** ** The files of a version *)

(** The levels hold the files [m], by id. *)
Definition level_files (level : Level.t) (m : gmap Z FileHandle) : gmap Z AddFile :=
  (fun f => MkAddFile level (fh_meta f)) <$> m.
Record holds (lc : LevelsController) (m : gmap Z AddFile) (s0 s1 : FileHandleSet) (m0 m1 : gmap Z FileHandle) : Prop := {
  hd_levels : lc_levels lc = [MkLevelHandler 0 s0; MkLevelHandler 1 s1];
  hd_set0 : file_set s0 m0;
  hd_set1 : file_set s1 m1;
  hd_disjoint : m0 ##ₘ m1;
  hd_files : m = level_files 0 m0 ∪ level_files 1 m1
}.
Definition lc_holds (lc : LevelsController) (m : gmap Z AddFile) : Prop :=
  exists s0 s1 m0 m1, holds lc m s0 s1 m0 m1.
Definition valid_level (level : Level.t) : Prop := level = 0 \/ level = 1.

Lemma lc_holds_new : lc_holds levels_new ∅.
Proof.
  exists file_set_new, file_set_new, ∅, ∅. split; [done|apply file_set_empty|apply file_set_empty|apply map_disjoint_empty_l|].
  unfold level_files. by rewrite fmap_empty, (left_id_L ∅ (∪)).
Qed.

Lemma level_files_None l m0 id : level_files l m0 !! id = None <-> m0 !! id = None.
Proof. unfold level_files. rewrite lookup_fmap. by destruct (m0 !! id). Qed.

Lemma level_files_insert l (m0 : gmap Z FileHandle) f :
  level_files l (<[fh_id f := f]> m0) = <[fh_id f := MkAddFile l (fh_meta f)]> (level_files l m0).
Proof. unfold level_files. by rewrite fmap_insert. Qed.

Lemma level_files_delete l (m0 : gmap Z FileHandle) id : level_files l (delete id m0) = delete id (level_files l m0).
Proof. unfold level_files. apply fmap_delete. Qed.

Lemma add_sst_holds {E} lc m a :
  lc_holds lc m -> valid_level (af_level a) -> m !! fm_id (af_file a) = None ->
  exists lc', @add_sst_to_level E lc (af_level a) (af_file a) = Ok lc' /\ lc_holds lc' (<[fm_id (af_file a) := a]> m).
Proof.
  intros (s0 & s1 & m0 & m1 & [Hl H0 H1 Hd ->]) Hv Hf. destruct a as [l f]; cbn [af_level af_file] in *.
  rewrite lookup_union_None, !level_files_None in Hf. destruct Hf as [Hf0 Hf1].
  set (h := MkFileHandle f (lc_next_addr lc)). change (fm_id f) with (fh_id h) in *.
  unfold add_sst_to_level, on_level. rewrite Hl. fold h.
  destruct Hv as [-> | ->]; cbn [Level.as_usize Z.to_nat lookup list_lookup unwrap rbind lh_level lh_files insert list_insert];
    (eexists; split; [done|]).
  - exists (set_insert s0 h), s1, (<[fh_id h := h]> m0), m1.
    split; cbn; [done|by apply file_set_insert|done|by apply map_disjoint_insert_l_2|].
    rewrite level_files_insert. by rewrite insert_union_l.
  - exists s0, (set_insert s1 h), m0, (<[fh_id h := h]> m1).
    split; cbn; [done|done|by apply file_set_insert|by apply map_disjoint_insert_r_2|].
    rewrite level_files_insert, insert_union_r; [done|]. by apply level_files_None.
Qed.

Lemma remove_sst_holds {E} lc m l id :
  lc_holds lc m -> valid_level l -> (forall a, m !! id = Some a -> af_level a = l) ->
  exists lc', @remove_ssts_from_level E lc l [id] = Ok lc' /\ lc_holds lc' (delete id m).
Proof.
  intros (s0 & s1 & m0 & m1 & [Hl H0 H1 Hd ->]) Hv Ha. unfold remove_ssts_from_level, on_level. rewrite Hl.
  pose proof (map_disjoint_spec m0 m1) as [Hd' _]. specialize (Hd' Hd).
  destruct Hv as [-> | ->]; cbn [Level.as_usize Z.to_nat lookup list_lookup unwrap rbind lh_level lh_files insert list_insert];
    (eexists; split; [done|]).
  - exists (remove_id s0 id), s1, (delete id m0), m1.
    split; cbn; [done|by apply file_set_remove|done|by apply map_disjoint_delete_l|].
    rewrite delete_union, level_files_delete, (delete_id (level_files 1 m1)); [done|].
    apply level_files_None. destruct (m1 !! id) as [f|] eqn:Hf; [|done]. exfalso.
    specialize (Ha (MkAddFile 1 (fh_meta f))). rewrite lookup_union_r in Ha.
    + unfold level_files in Ha. rewrite lookup_fmap, Hf in Ha. by specialize (Ha eq_refl).
    + apply level_files_None. destruct (m0 !! id) as [g|] eqn:Hg; [|done]. by destruct (Hd' id g f Hg Hf).
  - exists s0, (remove_id s1 id), m0, (delete id m1).
    split; cbn; [done|done|by apply file_set_remove|by apply map_disjoint_delete_r|].
    rewrite delete_union, level_files_delete, (delete_id (level_files 0 m0)); [done|].
    apply level_files_None. destruct (m0 !! id) as [f|] eqn:Hf; [|done]. exfalso.
    specialize (Ha (MkAddFile 0 (fh_meta f))). rewrite (lookup_union_Some_l _ _ _ (MkAddFile 0 (fh_meta f))) in Ha.
    + by specialize (Ha eq_refl).
    + unfold level_files. by rewrite lookup_fmap, Hf.
Qed.

(** An edit of the files [m]: new files have new ids, and a file that is
    deleted is at the level it is deleted from. *)
Definition file_added (m : gmap Z AddFile) (a : AddFile) : gmap Z AddFile := <[fm_id (af_file a) := a]> m.
Definition file_deleted (m : gmap Z AddFile) (d : DeleteFile) : gmap Z AddFile := delete (df_file_id d) m.
Fixpoint adds_ok (m : gmap Z AddFile) (l : list AddFile) : Prop :=
  match l with
  | [] => True
  | a :: l => valid_level (af_level a) /\ m !! fm_id (af_file a) = None /\ adds_ok (file_added m a) l
  end.
Definition deletes_ok (m : gmap Z AddFile) (l : list DeleteFile) : Prop :=
  forall d, d ∈ l -> valid_level (df_level d) /\ forall a, m !! df_file_id d = Some a -> af_level a = df_level d.
Definition edited (m : gmap Z AddFile) (edit : VersionEdit) : gmap Z AddFile :=
  foldl file_deleted (foldl file_added m (ve_files_to_add edit)) (ve_files_to_delete edit).
Definition edit_ok (m : gmap Z AddFile) (edit : VersionEdit) : Prop :=
  adds_ok m (ve_files_to_add edit) /\ deletes_ok (foldl file_added m (ve_files_to_add edit)) (ve_files_to_delete edit).

Lemma add_files_holds {E} l : forall lc m,
  lc_holds lc m -> adds_ok m l -> exists lc', @add_files E lc l = Ok lc' /\ lc_holds lc' (foldl file_added m l).
Proof.
  induction l as [|a l IH]; intros lc m Hh Ha; [by exists lc|]. destruct Ha as (Hv & Hf & Ha).
  destruct (add_sst_holds (E:=E) lc m a Hh Hv Hf) as (lc' & Hadd & Hh').
  unfold add_files. cbn [rfold foldl]. rewrite Hadd. cbn [rbind]. by apply IH.
Qed.

Lemma delete_files_holds {E} l : forall lc m,
  lc_holds lc m -> deletes_ok m l -> exists lc', @delete_files E lc l = Ok lc' /\ lc_holds lc' (foldl file_deleted m l).
Proof.
  induction l as [|d l IH]; intros lc m Hh Hd; [by exists lc|]. destruct (Hd d ltac:(by left)) as [Hv Hl].
  destruct (remove_sst_holds (E:=E) lc m (df_level d) (df_file_id d) Hh Hv Hl) as (lc' & Hrem & Hh').
  unfold delete_files. cbn [rfold foldl]. rewrite Hrem. cbn [rbind]. apply IH; [done|].
  intros d' Hin. destruct (Hd d' ltac:(by right)) as [Hv' Hl']. split; [done|].
  intros a Ha. unfold file_deleted in Ha. apply lookup_delete_Some in Ha. apply Hl', Ha.
Qed.

Lemma foldl_insert_map {A B} (key : A -> Z) (val : A -> B) l : forall m : gmap Z B,
  NoDup (key <$> l) ->
  foldl (fun m a => <[key a := val a]> m) m l = list_to_map ((fun a => (key a, val a)) <$> l) ∪ m.
Proof.
  induction l as [|a l IH]; intros m Hnd; cbn [foldl].
  - by rewrite fmap_nil, list_to_map_nil, (left_id_L ∅ (∪)).
  - rewrite fmap_cons in Hnd. apply NoDup_cons in Hnd as [Ha Hnd]. rewrite IH by done.
    rewrite fmap_cons, list_to_map_cons, <- insert_union_r, <- insert_union_l; [done|].
    apply not_elem_of_list_to_map_1. by rewrite <- list_fmap_compose.
Qed.

Lemma file_set_nodup s m : file_set s m -> NoDup (fh_id <$> (file_map s).*2).
Proof.
  intros Hs. pose proof Hs as [_ _ Hsort Hmap]. apply NoDup_fmap_2_strong.
  - intros f g Hf Hg Heq. apply (file_set_elem s m) in Hf, Hg; [|done|done]. rewrite Heq in Hf. congruence.
  - apply (bt_sorted_nodup ord_key_cmp) in Hsort. apply (NoDup_fmap_1 ord_key_of).
    rewrite <- list_fmap_compose. erewrite list_fmap_ext; [exact Hsort|].
    intros i [k f] Hl. apply list_elem_of_lookup_2, Hmap in Hl as [-> _]. done.
Qed.

Lemma level_files_list s m l :
  file_set s m -> level_files l m = list_to_map ((fun f => (fh_id f, MkAddFile l (fh_meta f))) <$> (file_map s).*2).
Proof.
  intros Hs. apply map_eq. intros id. apply option_eq. intros a. unfold level_files. rewrite lookup_fmap_Some.
  rewrite <- elem_of_list_to_map by (rewrite <- list_fmap_compose; by apply (file_set_nodup s m)).
  rewrite list_elem_of_fmap. split.
  - intros (f & <- & Hf). exists f. pose proof (fs_key _ _ Hs id f Hf) as <-. split; [done|]. by apply (file_set_elem s m).
  - intros (f & [= -> ->] & Hf). exists f. split; [done|]. by apply (file_set_elem s m).
Qed.

Lemma snapshot_holds {E} v m :
  lc_holds (levels_controller v) m -> @snapshot E v = Ok (MkVersionMeta (flushed_sequence v) m (max_file_id v)).
Proof.
  intros (s0 & s1 & m0 & m1 & [Hl H0 H1 Hd Hm]). unfold snapshot, lc_level_list, iter_ssts_at_level. rewrite Hl.
  cbn [fmap list_fmap lh_level]. change (Level.as_usize 0) with 0%nat. change (Level.as_usize 1) with 1%nat.
  cbn [rfold]. change (Level.as_usize 0) with 0%nat. change (Level.as_usize 1) with 1%nat.
  cbn [lookup list_lookup unwrap rbind level_iter_ssts lh_files].
  do 2 f_equal. rewrite (foldl_insert_map fh_id (fun f => MkAddFile 0 (fh_meta f))) by by apply (file_set_nodup s0 m0).
  rewrite (foldl_insert_map fh_id (fun f => MkAddFile 1 (fh_meta f))) by by apply (file_set_nodup s1 m1).
  rewrite (right_id_L ∅ (∪)).
  rewrite <- (level_files_list s0 m0), <- (level_files_list s1 m1) by done. rewrite Hm.
  apply map_union_comm. unfold level_files. by apply map_disjoint_fmap.
Qed.

Lemma lc_holds_wf lc m id a :
  lc_holds lc m -> m !! id = Some a -> fm_id (af_file a) = id /\ valid_level (af_level a).
Proof.
  intros (s0 & s1 & m0 & m1 & [Hl H0 H1 Hd ->]) Ha. apply lookup_union_Some_raw in Ha as [Ha|[_ Ha]];
    apply lookup_fmap_Some in Ha as (f & <- & Hf).
  - split; [exact (fs_key _ _ H0 id f Hf)|by left].
  - split; [exact (fs_key _ _ H1 id f Hf)|by right].
Qed.

(** ** What a read sees *)

Lemma pick_read_view_holds {E} v m s0 s1 m0 m1 q :
  holds (levels_controller v) m s0 s1 m0 m1 ->
  @pick_read_view E v q =
  Ok (MkReadView (sampling_mem (memtable_view v))
        (mutables_for_read (mutables (memtable_view v)) q ++ immutables_for_read (immutables (memtable_view v)) q)
        [files_by_time_range s0 q; files_by_time_range s1 q]).
Proof.
  intros [Hl _ _ _ _]. unfold pick_read_view, pick_ssts. rewrite Hl.
  by cbn [fmap list_fmap lh_level lh_files rfold fst snd Level.as_usize Z.to_nat lookup list_lookup unwrap rbind
      replicate SST_LEVEL_NUM insert list_insert app Pos.to_nat Pos.iter_op Nat.add].
Qed.

Definition meta_key (f : FileMeta) : FileOrdKey := ord_key_of (MkFileHandle f 0).
Definition meta_lt (a b : FileMeta) : Prop := ord_key_cmp (meta_key a) (meta_key b) = Lt.

Lemma file_set_metas_sorted s m q :
  file_set s m -> StronglySorted meta_lt (fh_meta <$> files_by_time_range s q).
Proof.
  intros Hs. pose proof Hs as [_ _ Hsort Hmap]. unfold files_by_time_range.
  assert (Hf : StronglySorted (fun a b => meta_lt (fh_meta a) (fh_meta b))
                 (bt_from ord_key_cmp (for_seek (TimeRange.inclusive_start q)) (file_map s)).*2).
  { assert (Hk : Forall (fun kf => kf.1 = ord_key_of kf.2) (bt_from ord_key_cmp (for_seek (TimeRange.inclusive_start q)) (file_map s))).
    { apply Forall_forall. intros [k f] Hin. apply (bt_from_iff ord_key_cmp) in Hin as [Hin _]; [|done].
      by apply Hmap in Hin as [-> _]. }
    apply (bt_from_sorted ord_key_cmp (for_seek (TimeRange.inclusive_start q))) in Hsort. revert Hk.
    induction Hsort as [|[k f] l Hl IH Hall]; intros Hk; [constructor|]. apply Forall_cons in Hk as [Hk0 Hk].
    rewrite fmap_cons. constructor; [by apply IH|]. apply Forall_fmap. rewrite Forall_forall in Hall, Hk |- *.
    intros [k' f'] Hin. specialize (Hall _ Hin). specialize (Hk _ Hin). cbn in *. by subst k k'. }
  induction Hf as [|f l Hl IH Hall]; [constructor|]. rewrite filter_cons. case_decide; [|done].
  rewrite fmap_cons. constructor; [done|]. apply Forall_fmap. rewrite Forall_forall in Hall |- *.
  intros g [_ Hg]%list_elem_of_filter. by apply Hall.
Qed.

Lemma files_by_time_range_metas l s m s' m' q :
  file_set s m -> file_set s' m' -> level_files l m = level_files l m' ->
  fh_meta <$> files_by_time_range s q = fh_meta <$> files_by_time_range s' q.
Proof.
  intros Hs Hs' Heq. apply (ssorted_ext meta_lt).
  - intros a. apply (cmp_lt_irrefl ord_key_cmp).
  - intros a b c. apply (cmp_lt_trans (cmp:=ord_key_cmp)).
  - by apply (file_set_metas_sorted s m).
  - by apply (file_set_metas_sorted s' m').
  - assert (Hsub : forall s m s' m', file_set s m -> file_set s' m' -> level_files l m = level_files l m' ->
      forall x, x ∈ fh_meta <$> files_by_time_range s q -> x ∈ fh_meta <$> files_by_time_range s' q).
    { clear. intros s m s' m' Hs Hs' Heq x (f & -> & Hf)%list_elem_of_fmap.
      apply (files_by_time_range_spec s m q f Hs) in Hf as [Hf Hq].
      assert (Hf' : level_files l m' !! fh_id f = Some (MkAddFile l (fh_meta f))).
      { rewrite <- Heq. unfold level_files. by rewrite lookup_fmap, Hf. }
      apply lookup_fmap_Some in Hf' as (g & [= Hg] & Hlook). apply list_elem_of_fmap. exists g. split; [done|].
      apply (files_by_time_range_spec s' m' q g Hs'). unfold fh_id, fh_time_range in *. rewrite Hg in *. done. }
    intros x. split; [by apply (Hsub s m s' m')|by apply (Hsub s' m' s m)].
Qed.

Lemma holds_level_files lc m s0 s1 m0 m1 l :
  holds lc m s0 s1 m0 m1 -> valid_level l ->
  level_files l (if l =? 0 then m0 else m1) = filter (fun p => af_level p.2 = l) m.
Proof.
  intros [_ _ _ Hd ->] Hv. apply map_eq. intros id. apply option_eq. intros a.
  rewrite map_lookup_filter_Some, lookup_union_Some by by apply map_disjoint_fmap.
  unfold level_files. rewrite !lookup_fmap_Some. cbn. destruct Hv as [-> | ->]; cbn [Z.eqb]; naive_solver.
Qed.

Lemma holds_same_reads lc m s0 s1 m0 m1 lc' s0' s1' m0' m1' q :
  holds lc m s0 s1 m0 m1 -> holds lc' m s0' s1' m0' m1' ->
  fh_meta <$> files_by_time_range s0 q = fh_meta <$> files_by_time_range s0' q /\
  fh_meta <$> files_by_time_range s1 q = fh_meta <$> files_by_time_range s1' q.
Proof.
  intros Hh Hh'. split.
  - apply (files_by_time_range_metas 0 _ m0 _ m0'); [apply Hh|apply Hh'|].
    transitivity (filter (fun p => af_level p.2 = 0) m); [|symmetry].
    + exact (holds_level_files _ _ _ _ _ _ 0 Hh ltac:(by left)).
    + exact (holds_level_files _ _ _ _ _ _ 0 Hh' ltac:(by left)).
  - apply (files_by_time_range_metas 1 _ m1 _ m1'); [apply Hh|apply Hh'|].
    transitivity (filter (fun p => af_level p.2 = 1) m); [|symmetry].
    + exact (holds_level_files _ _ _ _ _ _ 1 Hh ltac:(by right)).
    + exact (holds_level_files _ _ _ _ _ _ 1 Hh' ltac:(by right)).
Qed.

(** ** Recovery *)

(** Ids stay below a bound that leaves room for the alignment. *)
Definition id_bound : Z := 9000000000000000000.
Definition edit_ids_ok (edit : VersionEdit) : Prop :=
  0 <= ve_max_file_id edit <= id_bound /\
  Forall (fun a => 0 <= fm_id (af_file a) <= id_bound) (ve_files_to_add edit).
Fixpoint edits_ok (m : gmap Z AddFile) (edits : list VersionEdit) : Prop :=
  match edits with
  | [] => True
  | e :: edits => edit_ok m e /\ edit_ids_ok e /\ edits_ok (edited m e) edits
  end.

(** The version [v] and the meta data [meta] hold the files [m]. *)
Record recovers (v : TableVersion) (meta : TableVersionMeta) (m : gmap Z AddFile) : Prop := {
  rc_holds : lc_holds (levels_controller v) m;
  rc_files : vm_files meta = m;
  rc_flushed : vm_flushed_sequence meta = flushed_sequence v;
  rc_nonneg : 0 <= flushed_sequence v;
  rc_max : 0 <= max_file_id v <= vm_max_file_id meta;
  rc_bound : vm_max_file_id meta <= id_bound;
  rc_aligned : vm_max_file_id meta mod DEFAULT_ALLOC_STEP = 0;
  rc_ids : forall id a, m !! id = Some a -> id <= vm_max_file_id meta
}.

Lemma add_meta_files l : forall mx files,
  foldl add_meta_file (mx, files) l = (foldl Z.max mx (fm_id ∘ af_file <$> l), foldl file_added files l).
Proof. induction l as [|a l IH]; intros mx files; [done|]. cbn [foldl fmap list_fmap]. unfold add_meta_file at 2. by rewrite IH. Qed.

Lemma max_ids_spec l : forall x b, x <= b -> Forall (fun y => y <= b) l ->
  x <= foldl Z.max x l <= b /\ forall y, y ∈ l -> y <= foldl Z.max x l.
Proof.
  induction l as [|y l IH]; intros x b Hx Hl; cbn [foldl]; [split; [lia|set_solver]|].
  apply Forall_cons in Hl as [Hy Hl]. destruct (IH (Z.max x y) b ltac:(lia) Hl) as [H1 H2]. split; [lia|].
  intros z [->|Hz]%elem_of_cons; [lia|by apply H2].
Qed.

(** Alignment to the step of the id allocator. *)
Lemma align_up x :
  0 <= x <= id_bound ->
  let a := (x + DEFAULT_ALLOC_STEP - 1) / DEFAULT_ALLOC_STEP * DEFAULT_ALLOC_STEP in
  x <= a <= id_bound /\ a mod DEFAULT_ALLOC_STEP = 0.
Proof.
  intros Hx. unfold DEFAULT_ALLOC_STEP, id_bound in *. split; [|by rewrite Z.mod_mul by lia].
  pose proof (Z.div_mod (x + 100 - 1) 100 ltac:(lia)). pose proof (Z.mod_pos_bound (x + 100 - 1) 100 ltac:(lia)). lia.
Qed.

Lemma foldl_added_elem l : forall m id a,
  foldl file_added m l !! id = Some a -> m !! id = Some a \/ a ∈ l /\ fm_id (af_file a) = id.
Proof.
  induction l as [|b l IH]; intros m id a Ha; cbn [foldl] in Ha; [by left|].
  apply IH in Ha as [Ha|[Ha Hid]]; [|right; split; [by right|done]].
  unfold file_added in Ha. apply lookup_insert_Some in Ha as [[<- ->]|[_ Ha]]; [right; split; [by left|done]|by left].
Qed.

Lemma foldl_deleted_elem l : forall m id a, foldl file_deleted m l !! id = Some a -> m !! id = Some a.
Proof.
  induction l as [|d l IH]; intros m id a Ha; cbn [foldl] in Ha; [done|].
  apply IH in Ha. unfold file_deleted in Ha. by apply lookup_delete_Some in Ha as [_ Ha].
Qed.

Lemma recovers_edit {E E'} v meta m e :
  recovers v meta m -> edit_ok m e -> edit_ids_ok e ->
  exists v' meta', @apply_edit E v e = Ok v' /\ @meta_apply_edit E' meta e = Ok meta' /\ recovers v' meta' (edited m e).
Proof.
  intros [Hh Hf Hfl Hnn Hmax Hb Hal Hids] [Hadd Hdel] [Hm Hall].
  destruct (add_files_holds (E:=E) _ _ _ Hh Hadd) as (lc1 & Hlc1 & Hh1).
  destruct (delete_files_holds (E:=E) _ _ _ Hh1 Hdel) as (lc2 & Hlc2 & Hh2).
  unfold apply_edit, meta_apply_edit. rewrite Hlc1. cbn [rbind]. rewrite Hlc2. cbn [rbind].
  rewrite add_meta_files. cbn [fst snd].
  set (mx := foldl Z.max (vm_max_file_id meta) (fm_id ∘ af_file <$> ve_files_to_add e)).
  destruct (max_ids_spec (fm_id ∘ af_file <$> ve_files_to_add e) (vm_max_file_id meta) id_bound) as [Hmx Hin].
  { lia. } { apply Forall_fmap. eapply Forall_impl; [exact Hall|]. cbn. lia. }
  fold mx in Hmx, Hin. destruct (align_up (Z.max mx (ve_max_file_id e)) ltac:(lia)) as [Ha1 Ha2].
  rewrite u64_op_ok by (unfold uint, id_bound, DEFAULT_ALLOC_STEP in *; lia). cbn [rbind].
  rewrite u64_op_ok by (unfold uint, id_bound in *; lia). cbn [rbind].
  do 2 eexists. split; [done|]. split; [done|].
  split; cbn; [exact Hh2|by rewrite Hf|by rewrite Hfl|lia|lia|lia|done|].
  intros id a Ha. apply foldl_deleted_elem, foldl_added_elem in Ha as [Ha|[Ha <-]].
  - specialize (Hids _ _ Ha). lia.
  - specialize (Hin (fm_id (af_file a))). cut (fm_id (af_file a) <= mx); [lia|].
    apply Hin, list_elem_of_fmap. by exists a.
Qed.

Lemma recovers_edits {E E'} edits : forall v meta m,
  recovers v meta m -> edits_ok m edits ->
  exists v' meta' m', rfold (@apply_edit E) edits v = Ok v' /\ rfold (@meta_apply_edit E') edits meta = Ok meta' /\
    recovers v' meta' m'.
Proof.
  induction edits as [|e edits IH]; intros v meta m Hr Hok; [by exists v, meta, m|].
  destruct Hok as (He & Hids & Hok). destruct (recovers_edit (E:=E) (E':=E') v meta m e Hr He Hids) as (v1 & meta1 & Hv & Hm & Hr1).
  cbn [rfold]. rewrite Hv, Hm. cbn [rbind]. by apply (IH v1 meta1 (edited m e)).
Qed.

Lemma recovers_new : recovers version_new version_meta_default ∅.
Proof. split; cbn; [apply lc_holds_new|done|done|lia|lia|unfold id_bound; lia|done|intros id a; by rewrite lookup_empty]. Qed.

Lemma adds_ok_nodup l : forall m,
  Forall (fun a => valid_level (af_level a)) l -> NoDup (fm_id ∘ af_file <$> l) ->
  (forall a, a ∈ l -> m !! fm_id (af_file a) = None) -> adds_ok m l.
Proof.
  induction l as [|a l IH]; intros m Hv Hnd Hf; [done|]. apply Forall_cons in Hv as [Ha Hv].
  rewrite fmap_cons in Hnd. apply NoDup_cons in Hnd as [Hni Hnd].
  split; [done|]. split; [apply Hf; by left|]. apply IH; [done|done|].
  intros b Hb. unfold file_added. rewrite lookup_insert_ne; [apply Hf; by right|].
  intros Heq. apply Hni. cbn. rewrite Heq. apply list_elem_of_fmap. by exists b.
Qed.

(** The files of a map, in any order, are a list of files with new ids. *)
Lemma order_adds (m : gmap Z AddFile) order :
  (forall id a, m !! id = Some a -> fm_id (af_file a) = id /\ valid_level (af_level a)) ->
  order ≡ₚ (map_to_list m).*2 -> adds_ok ∅ order /\ foldl file_added ∅ order = m.
Proof.
  intros Hwf Hp.
  assert (Hin : forall a, a ∈ order <-> m !! fm_id (af_file a) = Some a).
  { intros a. rewrite Hp, list_elem_of_fmap. split.
    - intros ([id a'] & -> & Ha). apply elem_of_map_to_list in Ha. cbn. by destruct (Hwf _ _ Ha) as [-> _].
    - intros Ha. exists (fm_id (af_file a), a). split; [done|]. by apply elem_of_map_to_list. }
  assert (Hids : fm_id ∘ af_file <$> (map_to_list m).*2 = (map_to_list m).*1).
  { rewrite <- list_fmap_compose. apply list_fmap_ext. intros i [id a] Hl.
    apply list_elem_of_lookup_2, elem_of_map_to_list in Hl. cbn. by destruct (Hwf _ _ Hl). }
  assert (Hnd : NoDup (fm_id ∘ af_file <$> order)).
  { rewrite Hp, Hids. apply NoDup_fst_map_to_list. }
  split.
  - apply adds_ok_nodup; [|done|intros; apply lookup_empty]. apply Forall_forall. intros a Ha.
    apply Hin in Ha. by destruct (Hwf _ _ Ha).
  - unfold file_added. rewrite (foldl_insert_map (fm_id ∘ af_file) (fun a => a)) by done. rewrite (right_id_L ∅ (∪)).
    apply map_eq. intros id. apply option_eq. intros a.
    rewrite <- elem_of_list_to_map by by rewrite <- list_fmap_compose. rewrite list_elem_of_fmap. split.
    + intros (b & [= -> ->] & Hb). by apply Hin.
    + intros Ha. destruct (Hwf _ _ Ha) as [<- _]. exists a. split; [done|]. by apply Hin.
Qed.

(** ** The memtables of a version *)

(** The version as sets: the memtables by id, the files by id. *)
Record versionA := MkVersionA {
  va_sampling : option SamplingMemTable;
  va_mut : gmap Z MemTableState;
  va_imm : gmap Z MemTableState;
  va_files : gmap Z AddFile
}.
Definition versionA_new : versionA := MkVersionA None ∅ ∅ ∅.

Abbreviation range_end s := (TimeRange.exclusive_end (ms_time_range s)).
Definition mem_set (key : MemTableState -> Z) (l : btree Z MemTableState) (m : gmap Z MemTableState) : Prop :=
  bt_sorted Z.compare l /\ (forall k s, (k, s) ∈ l <-> k = key s /\ m !! ms_id s = Some s) /\
  (forall id s, m !! id = Some s -> ms_id s = id).
Record version_is (v : TableVersion) (a : versionA) : Prop := {
  vi_sampling : sampling_mem (memtable_view v) = va_sampling a;
  vi_mut : mem_set (fun s => range_end s) (mutables (memtable_view v)) (va_mut a);
  vi_imm : mem_set ms_id (immutables (memtable_view v)) (va_imm a);
  vi_disjoint : va_mut a ##ₘ va_imm a;
  vi_files : lc_holds (levels_controller v) (va_files a)
}.

Lemma mem_set_empty key : mem_set key [] ∅.
Proof.
  split; [constructor|]. split; [|by intros id s; rewrite lookup_empty].
  intros k s. rewrite lookup_empty. split; [by intros ?%elem_of_nil|by intros [_ ?]].
Qed.

Lemma mem_set_elem key l m s : mem_set key l m -> s ∈ l.*2 <-> m !! ms_id s = Some s.
Proof.
  intros (_ & Hmap & _). rewrite list_elem_of_fmap. split.
  - intros ([k s'] & -> & Hin). by apply Hmap in Hin as [_ Hin].
  - intros Hs. exists (key s, s). split; [done|]. by apply Hmap.
Qed.

(** A memtable whose key is not there is inserted. *)
Lemma mem_set_insert key l m s :
  mem_set key l m -> m !! ms_id s = None -> (forall s', m !! ms_id s' = Some s' -> key s' <> key s) ->
  mem_set key (bt_insert Z.compare (key s) s l) (<[ms_id s := s]> m).
Proof.
  intros (Hs & Hmap & Hid) Hf Hk. split; [by apply (bt_insert_sorted Z.compare)|]. split.
  - intros k s'. rewrite (bt_insert_iff Z.compare) by done. rewrite Hmap, lookup_insert_Some. cbn. split.
    + intros [[= -> ->]|[[-> Hm] Hne]]; [by auto|]. split; [done|]. right. split; [|done]. intros Heq. congruence.
    + intros [-> [[Heq <-]|[Hne Hm]]]; [by left|]. right. split; [done|]. by apply Hk.
  - intros id s'. rewrite lookup_insert_Some. intros [[<- <-]|[_ Hm]]; [done|by apply Hid].
Qed.

Lemma mem_set_remove l m id : mem_set ms_id l m -> mem_set ms_id (bt_remove Z.compare id l) (delete id m).
Proof.
  intros (Hs & Hmap & Hid). split; [by apply (bt_remove_sorted Z.compare)|]. split.
  - intros k s. rewrite (bt_remove_iff Z.compare) by done. rewrite Hmap, lookup_delete_Some. cbn. split.
    + intros [[-> Hm] Hne]. split; [done|]. by split.
    + intros [-> [Hne Hm]]. by split.
  - intros id' s. rewrite lookup_delete_Some. intros [_ Hm]. by apply Hid.
Qed.

Lemma mem_set_nodup key l m : mem_set key l m -> NoDup (ms_id <$> l.*2).
Proof.
  intros Hms. pose proof Hms as (Hs & Hmap & _). apply NoDup_fmap_2_strong.
  - intros s s' H1 H2 Heq. apply (mem_set_elem key l m) in H1, H2; [|done|done]. rewrite Heq in H1. congruence.
  - apply (bt_sorted_nodup Z.compare) in Hs. apply (NoDup_fmap_1 key).
    rewrite <- list_fmap_compose. erewrite list_fmap_ext; [exact Hs|].
    intros i [k s] Hl. apply list_elem_of_lookup_2, Hmap in Hl as [-> _]. done.
Qed.

Lemma mem_set_move l : forall im mi,
  mem_set ms_id im mi -> NoDup (ms_id <$> l.*2) -> (forall s, s ∈ l.*2 -> mi !! ms_id s = None) ->
  mem_set ms_id (foldl (fun im (kv : Z * MemTableState) => bt_insert Z.compare (ms_id kv.2) kv.2 im) im l)
    (foldl (fun m s => <[ms_id s := s]> m) mi l.*2).
Proof.
  induction l as [|[k s] l IH]; intros im mi Hms Hnd Hf; [done|]. rewrite !fmap_cons in Hnd.
  apply NoDup_cons in Hnd as [Hs Hnd]. rewrite fmap_cons. cbn [foldl snd]. apply IH; [|done|].
  - apply mem_set_insert; [done|apply Hf; by left|]. intros s' Hs' Heq. rewrite Heq, Hf in Hs'; [done|by left].
  - intros s' Hs'. rewrite lookup_insert_ne; [apply Hf; by right|]. intros Heq. apply Hs. cbn. rewrite Heq.
    by apply list_elem_of_fmap_2.
Qed.

Lemma mem_set_switch l im m mi :
  mem_set (fun s => range_end s) l m -> mem_set ms_id im mi -> m ##ₘ mi ->
  mem_set ms_id (foldl (fun im (kv : Z * MemTableState) => bt_insert Z.compare (ms_id kv.2) kv.2 im) im l) (m ∪ mi).
Proof.
  intros Hm Hi Hd. pose proof (mem_set_nodup _ _ _ Hm) as Hnd.
  replace (m ∪ mi) with (foldl (fun m s => <[ms_id s := s]> m) mi l.*2).
  - apply mem_set_move; [done|done|]. intros s Hs. apply (mem_set_elem _ _ _ _ Hm) in Hs.
    by eapply map_disjoint_Some_l.
  - rewrite (foldl_insert_map ms_id (fun s => s)) by done. f_equal. apply map_eq. intros id. apply option_eq. intros s.
    rewrite <- elem_of_list_to_map by by rewrite <- list_fmap_compose. rewrite list_elem_of_fmap. split.
    + intros (s' & [= -> ->] & Hs). by apply (mem_set_elem _ _ _ _ Hm) in Hs.
    + intros Hs. pose proof Hm as (_ & _ & Hid). specialize (Hid _ _ Hs) as <-. exists s. split; [done|].
      by apply (mem_set_elem _ _ _ _ Hm).
Qed.

(** The operations that change a version. *)
Inductive version_op :=
| InsertMutable (s : MemTableState) | SwitchMemtables | SetSampling (s : SamplingMemTable) | FreezeSampling
| ApplyEdit (e : VersionEdit).
Section ops.
Context {M : Type} {MR : MemTableRef M} (h : nat -> M * Sampler.State) {E : Type}.
Definition version_step (v : TableVersion) (op : version_op) : res E TableVersion :=
  match op with
  | InsertMutable s => insert_mutable v s
  | SwitchMemtables => Ok (switch_memtables h v).2
  | SetSampling s => set_sampling v s
  | FreezeSampling => Ok (freeze_sampling_memtable h v).2
  | ApplyEdit e => apply_edit v e
  end.
End ops.

(** The same on sets, with what the callers see to: a new memtable has a new id
    and no mutable memtable ends where it does, there is one sampling memtable. *)
Definition remove_mem (a : option SamplingMemTable * gmap Z MemTableState) (id : Z) :=
  match a.1 with
  | Some sm => if sm_id sm =? id then (None, a.2) else (a.1, delete id a.2)
  | None => (a.1, delete id a.2)
  end.
Inductive version_stepA : versionA -> version_op -> versionA -> Prop :=
| va_insert a s :
    va_mut a !! ms_id s = None -> va_imm a !! ms_id s = None ->
    (forall s', va_mut a !! ms_id s' = Some s' -> range_end s' <> range_end s) ->
    version_stepA a (InsertMutable s) (MkVersionA (va_sampling a) (<[ms_id s := s]> (va_mut a)) (va_imm a) (va_files a))
| va_switch a :
    version_stepA a SwitchMemtables (MkVersionA (va_sampling a) ∅ (va_mut a ∪ va_imm a) (va_files a))
| va_sample a s :
    va_sampling a = None ->
    version_stepA a (SetSampling s) (MkVersionA (Some s) (va_mut a) (va_imm a) (va_files a))
| va_freeze a :
    version_stepA a FreezeSampling
      (MkVersionA ((fun sm => MkSampling (sm_mem sm) (sm_id sm) true) <$> va_sampling a) (va_mut a) (va_imm a) (va_files a))
| va_edit a e :
    edit_ok (va_files a) e ->
    version_stepA a (ApplyEdit e)
      (let r := foldl remove_mem (va_sampling a, va_imm a) (ve_mems_to_remove e) in
       MkVersionA r.1 (va_mut a) r.2 (edited (va_files a) e)).
Inductive version_trace : versionA -> list version_op -> versionA -> Prop :=
| vt_nil a : version_trace a [] a
| vt_cons a op b ops c : version_stepA a op b -> version_trace b ops c -> version_trace a (op :: ops) c.

Lemma remove_mems_view ids : forall w m a,
  mem_set ms_id (immutables w) m -> sampling_mem w = a ->
  let r := foldl remove_mem (a, m) ids in
  let w' := foldl remove_immutable_or_sampling w ids in
  sampling_mem w' = r.1 /\ mem_set ms_id (immutables w') r.2 /\ mutables w' = mutables w /\ r.2 ⊆ m.
Proof.
  induction ids as [|id ids IH]; intros w m a Hm Ha; [done|]. cbn [foldl].
  assert (Hdel : mem_set ms_id (bt_remove Z.compare id (immutables w)) (delete id m)) by by apply mem_set_remove.
  unfold remove_immutable_or_sampling at 2 4 6. unfold remove_mem at 2 4 6. rewrite Ha. cbn [fst snd].
  destruct a as [sm|]; [destruct (sm_id sm =? id)|].
  - destruct (IH (MkView None (mutables w) (immutables w)) m None Hm eq_refl) as (H1 & H2 & H3 & H4). by split_and!.
  - destruct (IH (MkView (Some sm) (mutables w) (bt_remove Z.compare id (immutables w))) (delete id m) (Some sm) Hdel eq_refl)
      as (H1 & H2 & H3 & H4). split_and!; [done|done|done|]. etrans; [exact H4|apply delete_subseteq].
  - destruct (IH (MkView None (mutables w) (bt_remove Z.compare id (immutables w))) (delete id m) None Hdel eq_refl)
      as (H1 & H2 & H3 & H4). split_and!; [done|done|done|]. etrans; [exact H4|apply delete_subseteq].
Qed.

Lemma version_is_new : version_is version_new versionA_new.
Proof. split; cbn; [done|apply mem_set_empty|apply mem_set_empty|apply map_disjoint_empty_l|apply lc_holds_new]. Qed.

Section refinement.
Context {M : Type} {MR : MemTableRef M} (h : nat -> M * Sampler.State) {E : Type}.

Lemma version_is_step v a op b :
  version_is v a -> version_stepA a op b -> exists v', @version_step M MR h E v op = Ok v' /\ version_is v' b.
Proof.
  intros [Hs Hm Hi Hd Hf] Hstep. destruct Hstep as [a s Hfm Hfi Hk|a|a s Hn|a|a e He]; cbn [version_step].
  - unfold insert_mutable. destruct (bt_get Z.compare (range_end s) (mutables (memtable_view v))) as [s'|] eqn:Hg.
    + exfalso. apply (bt_get_elem Z.compare) in Hg; [|apply Hm]. apply Hm in Hg as [Heq Hs']. by apply (Hk s').
    + eexists. split; [done|]. split; cbn; [done| |done| |done].
      * exact (mem_set_insert (fun s => range_end s) _ _ s Hm Hfm Hk).
      * by apply map_disjoint_insert_l_2.
  - eexists. split; [done|]. split; cbn; [done|apply mem_set_empty|by apply mem_set_switch|apply map_disjoint_empty_l|done].
  - unfold set_sampling. rewrite Hs, Hn. eexists. split; [done|]. by split.
  - unfold freeze_sampling_memtable. rewrite Hs. destruct (va_sampling a) eqn:Ha; (eexists; split; [done|]); by split.
  - destruct He as [Hadd Hdel]. destruct (add_files_holds (E:=E) _ _ _ Hf Hadd) as (lc1 & Hlc1 & Hh1).
    destruct (delete_files_holds (E:=E) _ _ _ Hh1 Hdel) as (lc2 & Hlc2 & Hh2).
    unfold apply_edit. rewrite Hlc1. cbn [rbind]. rewrite Hlc2. cbn [rbind]. eexists. split; [done|].
    destruct (remove_mems_view (ve_mems_to_remove e) _ _ _ Hi Hs) as (H1 & H2 & H3 & H4).
    split; cbn; [done|by rewrite H3|done|by eapply map_disjoint_weaken_r|done].
Qed.

Lemma version_is_trace a ops b : version_trace a ops b -> forall v,
  version_is v a -> exists v', rfold (@version_step M MR h E) ops v = Ok v' /\ version_is v' b.
Proof.
  induction 1 as [a|a op b ops c Hstep _ IH]; intros v Hv; [by exists v|].
  destruct (version_is_step v a op b Hv Hstep) as (v1 & Hop & Hv1). cbn [rfold]. rewrite Hop. cbn [rbind]. by apply IH.
Qed.
End refinement.

Lemma mutables_for_read_spec l m q s :
  mem_set (fun s => range_end s) l m ->
  s ∈ mutables_for_read l q <-> m !! ms_id s = Some s /\ TimeRange.intersect_with (ms_time_range s) q = true.
Proof.
  intros (Hs & Hmap & _). unfold mutables_for_read. rewrite list_elem_of_filter, list_elem_of_fmap. split.
  - intros [Hq ([k s'] & -> & Hin)]. apply (bt_after_iff Z.compare) in Hin as [Hin _]; [|done].
    by apply Hmap in Hin as [_ Hin].
  - intros [Hm Hq]. split; [done|]. exists (range_end s, s). split; [done|].
    apply (bt_after_iff Z.compare); [done|]. split; [by apply Hmap|]. cbn.
    unfold TimeRange.intersect_with, TimeRange.not_intersecting in Hq.
    apply negb_true_iff, orb_false_iff in Hq as [_ Hq]. apply Z.leb_gt in Hq. by apply Z.compare_gt_iff.
Qed.

Lemma immutables_for_read_spec l m q s :
  mem_set ms_id l m ->
  s ∈ immutables_for_read l q <-> m !! ms_id s = Some s /\ TimeRange.intersect_with (ms_time_range s) q = true.
Proof.
  intros Hm. unfold immutables_for_read. rewrite list_elem_of_filter, (mem_set_elem ms_id l m) by done.
  split; intros [? ?]; by split.
Qed.

Lemma level_files_seen lc m s0 s1 m0 m1 q f :
  holds lc m s0 s1 m0 m1 ->
  (f ∈ fh_meta <$> files_by_time_range s0 q <->
   m !! fm_id f = Some (MkAddFile 0 f) /\ TimeRange.intersect_with (fm_time_range f) q = true) /\
  (f ∈ fh_meta <$> files_by_time_range s1 q <->
   m !! fm_id f = Some (MkAddFile 1 f) /\ TimeRange.intersect_with (fm_time_range f) q = true).
Proof.
  intros Hh. assert (Hseen : forall l s mi, valid_level l -> file_set s mi -> mi = (if l =? 0 then m0 else m1) ->
    f ∈ fh_meta <$> files_by_time_range s q <->
    m !! fm_id f = Some (MkAddFile l f) /\ TimeRange.intersect_with (fm_time_range f) q = true).
  { intros l s mi Hl Hs Hmi. pose proof (holds_level_files _ _ _ _ _ _ l Hh Hl) as Hlf. rewrite <- Hmi in Hlf.
    rewrite list_elem_of_fmap. split.
    - intros (g & -> & Hg). apply (files_by_time_range_spec s mi q g Hs) in Hg as [Hg Hq]. split; [|done].
      assert (Hlk : level_files l mi !! fh_id g = Some (MkAddFile l (fh_meta g))).
      { unfold level_files. by rewrite lookup_fmap, Hg. }
      rewrite Hlf in Hlk. by apply map_lookup_filter_Some in Hlk as [Hlk _].
    - intros [Hf Hq]. assert (Hlk : level_files l mi !! fm_id f = Some (MkAddFile l f)).
      { rewrite Hlf. by apply map_lookup_filter_Some. }
      apply lookup_fmap_Some in Hlk as (g & [= <-] & Hg). exists g. split; [done|].
      by apply (files_by_time_range_spec s mi q g Hs). }
  split; [eapply (Hseen 0 s0 m0)|eapply (Hseen 1 s1 m1)]; try apply Hh; try done; [by left|by right].
Qed.

(** ** Properties *)

(** C15. A version is what its sets of memtables and files say.  After any
    sequence of its operations that its callers may make, none of which panics,
    the view for a time range has the sampling memtable, exactly the mutable and
    immutable memtables whose ranges overlap it, although the mutable ones are
    looked up from the first that ends after its start, and at every level
    exactly the files that overlap it. *)
Theorem read_view_complete {M} {MR : MemTableRef M} (h : nat -> M * Sampler.State) {E} ops a :
  version_trace versionA_new ops a ->
  exists v, rfold (@version_step M MR h E) ops version_new = Ok v /\
    forall q, exists rv l0 l1, @pick_read_view E v q = Ok rv /\ rv_leveled_ssts rv = [l0; l1] /\
      rv_sampling_mem rv = va_sampling a /\
      (forall s, s ∈ rv_memtables rv <->
        (va_mut a !! ms_id s = Some s \/ va_imm a !! ms_id s = Some s) /\
        TimeRange.intersect_with (ms_time_range s) q = true) /\
      (forall f, f ∈ fh_meta <$> l0 <->
        va_files a !! fm_id f = Some (MkAddFile 0 f) /\ TimeRange.intersect_with (fm_time_range f) q = true) /\
      (forall f, f ∈ fh_meta <$> l1 <->
        va_files a !! fm_id f = Some (MkAddFile 1 f) /\ TimeRange.intersect_with (fm_time_range f) q = true).
Proof.
  intros Ht. destruct (version_is_trace h (E:=E) _ _ _ Ht _ version_is_new) as (v & Hv & [Hs Hm Hi Hd (s0 & s1 & m0 & m1 & Hh)]).
  exists v. split; [done|]. intros q. rewrite (pick_read_view_holds v _ _ _ _ _ q Hh).
  do 3 eexists. split; [done|]. split; [done|]. split; [done|]. split.
  - intros s. cbn [rv_memtables]. rewrite elem_of_app, (mutables_for_read_spec _ _ q s Hm), (immutables_for_read_spec _ _ q s Hi).
    split; [intros [[? ?]|[? ?]]; auto|intros [[?|?] ?]; auto].
  - split; intros f; by apply (level_files_seen _ _ _ _ _ _ q f Hh).
Qed.

#[local] Instance demo_mem_ref : MemTableRef Z := Build_MemTableRef Z (fun m => m) (fun _ => 1) (fun _ => 100).
Definition demo_mem (id start stop : Z) : MemTableState := MkMemState (Z.to_nat id) (TimeRange.Mk start stop) id.
Definition demo_ops : list version_op :=
  [InsertMutable (demo_mem 1 0 10); InsertMutable (demo_mem 2 10 20); SwitchMemtables; InsertMutable (demo_mem 3 0 10);
   ApplyEdit (MkVersionEdit 7 [1] [MkAddFile 0 (fh_meta (demo_file 1 0 10))] [] 1)].
Lemma read_view_complete_witness :
  exists v, rfold (@version_step Z demo_mem_ref (fun a => (Z.of_nat a, sampler_default)) unit) demo_ops version_new = Ok v /\
    exists rv, @pick_read_view unit v (TimeRange.Mk 5 12) = Ok rv /\ demo_mem 2 10 20 ∈ rv_memtables rv /\
      rv_memtables rv = [demo_mem 3 0 10; demo_mem 2 10 20].
Proof.
  edestruct (read_view_complete (fun a => (Z.of_nat a, sampler_default)) (E:=unit) demo_ops) as (v & Hv & Hq).
  - eapply vt_cons; [apply va_insert; [reflexivity|reflexivity|]; intros s'; by cbn|].
    eapply vt_cons; [apply va_insert; [reflexivity|reflexivity|]; intros s'; cbn|].
    { rewrite lookup_insert_Some, lookup_empty. intros [[_ <-]|[_ ?]]; [cbn; lia|done]. }
    eapply vt_cons; [apply va_switch|].
    eapply vt_cons; [apply va_insert; [reflexivity|reflexivity|]; intros s'; by cbn|].
    eapply vt_cons; [apply va_edit; split; cbn; [split_and!; [by left|reflexivity|done]|by intros d ?%elem_of_nil]|].
    apply vt_nil.
  - exists v. split; [done|]. destruct (Hq (TimeRange.Mk 5 12)) as (rv & l0 & l1 & Hrv & _ & _ & Hm & _).
    exists rv. split; [done|]. split.
    + apply Hm. split; [by right|reflexivity].
    + vm_compute in Hv. injection Hv as <-. vm_compute in Hrv. injection Hrv as <-. reflexivity.
Defined.

Definition file_metas (rv : ReadView) : list (list FileMeta) := map (map fh_meta) (rv_leveled_ssts rv).

(** C6. Recovery restores a version.  For any sequence of edits, applying them
    to the meta data and then the meta data to an empty version, in any order of
    its files, gives the flushed sequence of the version the edits were applied
    to and the same files for every time range, in the same order; the snapshot
    of the version has the files of the meta data.  The id the meta data
    recovers is aligned and not below the id of a file. *)
Theorem version_recovery {E} edits :
  edits_ok ∅ edits ->
  exists v meta,
    rfold (@apply_edit E) edits version_new = Ok v /\ rfold (@meta_apply_edit E) edits version_meta_default = Ok meta /\
    @snapshot E v = Ok (MkVersionMeta (flushed_sequence v) (vm_files meta) (max_file_id v)) /\
    vm_max_file_id meta mod DEFAULT_ALLOC_STEP = 0 /\
    (forall id a, vm_files meta !! id = Some a -> id <= vm_max_file_id meta) /\
    forall order, order ≡ₚ (map_to_list (vm_files meta)).*2 ->
      exists v', @apply_meta E version_new meta order = Ok v' /\
        flushed_sequence v' = flushed_sequence v /\ max_file_id v <= max_file_id v' /\
        forall q, exists rv rv', @pick_read_view E v q = Ok rv /\ @pick_read_view E v' q = Ok rv' /\
          file_metas rv' = file_metas rv.
Proof.
  intros Hok. destruct (recovers_edits (E:=E) (E':=E) edits _ _ _ recovers_new Hok)
    as (v & meta & m & Hv & Hmeta & [Hh Hf Hfl Hnn Hmax Hb Hal Hids]).
  exists v, meta. split; [done|]. split; [done|]. split; [rewrite Hf; by apply snapshot_holds|]. split; [done|].
  rewrite Hf. split; [done|]. intros order Hp.
  destruct (order_adds m order (fun id a => lc_holds_wf _ m id a Hh) Hp) as [Hadds Hfold].
  destruct (add_files_holds (E:=E) _ _ _ lc_holds_new Hadds) as (lc & Hlc & Hh'). rewrite Hfold in Hh'.
  unfold apply_meta. cbn [levels_controller version_new]. rewrite Hlc. cbn [rbind].
  eexists. split; [done|]. cbn [flushed_sequence max_file_id version_new]. split; [rewrite Hfl; lia|]. split; [lia|].
  intros q. destruct Hh as (s0 & s1 & m0 & m1 & Hh), Hh' as (s0' & s1' & m0' & m1' & Hh').
  do 2 eexists. split; [by apply (pick_read_view_holds v m s0 s1 m0 m1)|].
  split; [by apply (pick_read_view_holds _ m s0' s1' m0' m1')|]. unfold file_metas. cbn [rv_leveled_ssts map].
  destruct (holds_same_reads _ _ _ _ _ _ _ _ _ _ _ q Hh Hh') as [H0 H1]. unfold fmap in H0, H1. by f_equal; [|f_equal].
Qed.

Definition demo_edits : list VersionEdit :=
  [MkVersionEdit 3 [1] [MkAddFile 0 (fh_meta (demo_file 1 0 10)); MkAddFile 0 (fh_meta (demo_file 2 10 20))] [] 2;
   MkVersionEdit 5 [] [MkAddFile 1 (fh_meta (demo_file 101 0 20))] [MkDeleteFile 0 1; MkDeleteFile 0 2] 101].
Lemma demo_edits_ok : edits_ok ∅ demo_edits.
Proof.
  split_and!; [split|split|split; [split|split; [split|done]]]; cbn; try (unfold id_bound; lia).
  - split_and!; [by left|reflexivity|by left|reflexivity|done].
  - by intros d ?%elem_of_nil.
  - repeat constructor; cbn; unfold id_bound; lia.
  - split_and!; [by right|reflexivity|done].
  - intros d [->|[->|?%elem_of_nil]%elem_of_cons]%elem_of_cons; [| |done]; (split; [by left|]); intros a Ha;
      vm_compute in Ha; by injection Ha as <-.
  - repeat constructor; cbn; unfold id_bound; lia.
Qed.
Lemma version_recovery_witness :
  exists v meta, rfold (@apply_edit unit) demo_edits version_new = Ok v /\
    rfold (@meta_apply_edit unit) demo_edits version_meta_default = Ok meta /\ vm_max_file_id meta = 200 /\
    flushed_sequence v = 5 /\
    exists v' rv, @apply_meta unit version_new meta (ordered_files meta) = Ok v' /\
      @pick_read_view unit v' (TimeRange.Mk 5 12) = Ok rv /\
      file_metas rv = [[]; [fh_meta (demo_file 101 0 20)]].
Proof.
  destruct (version_recovery (E:=unit) demo_edits demo_edits_ok) as (v & meta & Hv & Hm & _ & _ & _ & Ho).
  exists v, meta. split; [done|]. split; [done|].
  destruct (Ho (ordered_files meta)) as (v' & Hv' & _ & _ & Hq).
  { apply merge_sort_Permutation. }
  destruct (Hq (TimeRange.Mk 5 12)) as (rv & rv' & Hrv & Hrv' & Heq).
  assert (Hmx : vm_max_file_id meta = 200) by (vm_compute in Hm; by injection Hm as <-).
  split; [done|]. vm_compute in Hv. injection Hv as <-. split; [reflexivity|].
  exists v', rv'. split; [done|]. split; [done|]. rewrite Heq. vm_compute in Hrv. injection Hrv as <-. reflexivity.
Defined.
