(* ===== verification/IdAllocator.v ===== *)
(** * Allocation of file ids

    Models [common_util/src/id_allocator.rs] and the way the engine uses it:
    [TableData::alloc_file_id] and [persist_max_file_id] ([table/data.rs]) and
    the allocator a table gets on recovery ([table_meta_set_impl.rs]).

    The maximum that is persisted lives in a store; what the allocator needs of
    it is the class [MaxIdStore], which the meta data of a version implements. *)

From Stdlib Require Import ZArith Lia Sorted.
From stdpp Require Import base tactics option list sorting numbers gmap.
From S2P Require Import Prelude BTree SstFile Version.

#[local] Open Scope Z_scope.

(** [Inner]. *)
Record Inner := MkInner { last_id : Z; max_id : Z; alloc_step : Z }.
Definition inner_new {E} (last_id max_id alloc_step : Z) : res E Inner :=
  let? _ := rassert (0 <? alloc_step) in Ok (MkInner last_id max_id alloc_step).

(** [alloc_id]: the closure that persists the next maximum acts on a store. *)
Definition alloc_id {E St} (self : Inner) (st : St) (persist_next_max_id : St -> Z -> St * res E unit)
  : Inner * St * res E Z :=
  if last_id self <? max_id self then
    match u64_op (last_id self + 1) with
    | Ok id => (MkInner id (max_id self) (alloc_step self), st, Ok id)
    | Err e => (self, st, Err e)
    | Panic => (self, st, Panic)
    end
  else
    match u64_op (last_id self + alloc_step self) with
    | Ok next_max_id =>
        match persist_next_max_id st next_max_id with
        | (st, Ok _) => (MkInner (last_id self + 1) next_max_id (alloc_step self), st, Ok (last_id self + 1))
        | (st, Err e) => (self, st, Err e)
        | (st, Panic) => (self, st, Panic)
        end
    | Err e => (self, st, Err e)
    | Panic => (self, st, Panic)
    end.

(** What the allocator needs of the store: the maximum it recovers never
    decreases and covers what was stored. *)
Class MaxIdStore (St E : Type) := {
  stored_max : St -> Z;
  store_max : St -> Z -> res E St;
  store_covers : forall st n st', store_max st n = Ok st' -> n <= stored_max st' /\ stored_max st <= stored_max st'
}.

(** The meta data of a version: [persist_max_file_id] is an edit of it. *)
Definition max_file_id_edit (next_max_file_id : Z) : VersionEdit := MkVersionEdit 0 [] [] [] next_max_file_id.

Lemma meta_edit_covers {E} meta e meta' :
  @meta_apply_edit E meta e = Ok meta' ->
  ve_max_file_id e <= vm_max_file_id meta' /\ vm_max_file_id meta <= vm_max_file_id meta' /\
  forall a, a ∈ ve_files_to_add e -> fm_id (af_file a) <= vm_max_file_id meta'.
Proof.
  unfold meta_apply_edit. rewrite add_meta_files. cbn [fst snd].
  set (l := fm_id ∘ af_file <$> ve_files_to_add e). set (mx := foldl Z.max (vm_max_file_id meta) l).
  intros Hok. inv_ok. unfold u64_op in *. destruct (uintb 64 _) in H; [|done]. injection H as <-.
  destruct (uintb 64 _) in H0; [|done]. injection H0 as <-. cbn [vm_max_file_id].
  assert (Hle : vm_max_file_id meta <= mx /\ forall y, y ∈ l -> y <= mx).
  { subst mx. clear. generalize (vm_max_file_id meta) as x. induction l as [|y l IH]; intros x; cbn [foldl]; [split; [lia|set_solver]|].
    destruct (IH (Z.max x y)) as [H1 H2]. split; [lia|]. intros z [->|Hz]%elem_of_cons; [lia|by apply H2]. }
  assert (Hal : forall x, x <= (x + DEFAULT_ALLOC_STEP - 1) / DEFAULT_ALLOC_STEP * DEFAULT_ALLOC_STEP).
  { intros x. unfold DEFAULT_ALLOC_STEP. pose proof (Z.div_mod (x + 100 - 1) 100 ltac:(lia)).
    pose proof (Z.mod_pos_bound (x + 100 - 1) 100 ltac:(lia)). lia. }
  specialize (Hal (Z.max mx (ve_max_file_id e))). split_and!; [lia|lia|]. intros a Ha.
  cut (fm_id (af_file a) <= mx); [lia|]. apply Hle, list_elem_of_fmap. by exists a.
Qed.

Lemma version_meta_covers {E} meta n meta' :
  @meta_apply_edit E meta (max_file_id_edit n) = Ok meta' ->
  n <= vm_max_file_id meta' /\ vm_max_file_id meta <= vm_max_file_id meta'.
Proof. intros (H1 & H2 & _)%meta_edit_covers. by split. Qed.
#[export] Instance version_meta_store {E} : MaxIdStore TableVersionMeta E := {
  stored_max := vm_max_file_id;
  store_max := fun meta n => meta_apply_edit meta (max_file_id_edit n);
  store_covers := version_meta_covers
}.

Section allocator.
Context {St E : Type} {MS : MaxIdStore St E} (failure : E).

(** What may come of persisting: it is stored, it is not, or it is stored but
    an error is returned. *)
Inductive persist_outcome := Persisted | Failed | FailedStored.
Definition persist (o : persist_outcome) (st : St) (n : Z) : St * res E unit :=
  match o with
  | Persisted => match store_max st n with Ok st' => (st', Ok tt) | Err e => (st, Err e) | Panic => (st, Panic) end
  | Failed => (st, Err failure)
  | FailedStored => match store_max st n with Ok st' => (st', Err failure) | Err e => (st, Err e) | Panic => (st, Panic) end
  end.
(** On recovery: [TableMetaSetImpl::apply_snapshot]. *)
Definition recover_allocator (st : St) (step : Z) : res E Inner := inner_new (stored_max st) (stored_max st) step.

(** The ids handed out, the newest first: an allocation may fail, the store may
    take other edits, and the process may restart at any point. *)
Inductive allocated (step : Z) : list Z -> Inner -> St -> Prop :=
| al_new st a : recover_allocator st step = Ok a -> allocated step [] a st
| al_ok ids a st o a' st' id :
    allocated step ids a st -> alloc_id a st (persist o) = (a', st', Ok id) -> allocated step (id :: ids) a' st'
| al_err ids a st o a' st' e :
    allocated step ids a st -> alloc_id a st (persist o) = (a', st', Err e) -> allocated step ids a' st'
| al_other ids a st st' :
    allocated step ids a st -> stored_max st <= stored_max st' -> allocated step ids a st'
| al_restart ids a st a' :
    allocated step ids a st -> recover_allocator st step = Ok a' -> allocated step ids a' st.

Lemma persist_mono o st n st' r : persist o st n = (st', r) -> stored_max st <= stored_max st'.
Proof.
  unfold persist. destruct o; [|intros [= <- _]; lia|]; destruct (store_max st n) as [st1|e|] eqn:Hs; intros [= <- _];
    try lia; apply store_covers in Hs; lia.
Qed.

Lemma persist_covers o st n st' : persist o st n = (st', Ok tt) -> n <= stored_max st'.
Proof.
  unfold persist. destruct o; [|done|by destruct (store_max st n)].
  destruct (store_max st n) as [st1|e|] eqn:Hs; intros [= <-]. by apply store_covers in Hs as [? _].
Qed.

(** The allocator stays within what is stored, and every id is below its last. *)
Definition allocator_inv (step : Z) (ids : list Z) (a : Inner) (st : St) : Prop :=
  0 < step /\ alloc_step a = step /\ last_id a <= max_id a <= stored_max st /\
  StronglySorted Z.gt ids /\ Forall (fun id => id <= last_id a) ids.

Lemma alloc_id_cases a st o :
  alloc_id a st (persist o) = (a, st, Panic) \/
  (exists a' st' id, alloc_id a st (persist o) = (a', st', Ok id) /\ id = last_id a + 1 /\ last_id a' = id /\
     alloc_step a' = alloc_step a /\ stored_max st <= stored_max st' /\
     (max_id a' = max_id a /\ last_id a < max_id a \/ max_id a' = last_id a + alloc_step a /\ max_id a' <= stored_max st')) \/
  (exists st' r, alloc_id a st (persist o) = (a, st', r) /\ stored_max st <= stored_max st' /\ forall id, r <> Ok id).
Proof.
  unfold alloc_id. destruct (last_id a <? max_id a) eqn:Hlt.
  - apply Z.ltb_lt in Hlt. unfold u64_op. destruct (uintb 64 _); [|by left]. right. left. do 3 eexists.
    split; [done|]. cbn. split_and!; [done|done|done|lia|]. by left.
  - unfold u64_op. destruct (uintb 64 _); [|by left]. right.
    destruct (persist o st (last_id a + alloc_step a)) as [st' r] eqn:Hp. pose proof (persist_mono _ _ _ _ _ Hp) as Hm.
    destruct r as [[]|e|].
    + left. apply persist_covers in Hp. do 3 eexists. split; [done|]. cbn. split_and!; [done|done|done|done|]. by right.
    + right. do 2 eexists. split; [done|]. by split.
    + right. do 2 eexists. split; [done|]. by split.
Qed.

Lemma recover_inv step st a ids b :
  recover_allocator st step = Ok a -> allocator_inv step ids b st -> allocator_inv step ids a st.
Proof.
  unfold recover_allocator, inner_new. intros Ha (Hs & _ & Hl & Hsort & Hf). inv_ok.
  split_and!; cbn; [done|done|lia|lia|done|]. eapply Forall_impl; [exact Hf|]. cbn. lia.
Qed.

Lemma allocated_inv step ids a st : allocated step ids a st -> allocator_inv step ids a st.
Proof.
  induction 1 as [st a Ha|ids a st o a' st' id _ IH Ha|ids a st o a' st' e _ IH Ha|ids a st st' _ IH Hle|ids a st a' _ IH Ha].
  - unfold recover_allocator, inner_new in Ha. inv_ok. split_and!; cbn; [lia|done|lia|lia|constructor|constructor].
  - destruct IH as (Hs & Hst & Hl & Hsort & Hf).
    destruct (alloc_id_cases a st o) as [Hp|[(a1 & st1 & id1 & Hp & Hid & Hlast & Hstep & Hm & Hmax)|(st1 & r & Hp & Hm & Hr)]];
      rewrite Hp in Ha; injection Ha as <- <- Heq; try done; [|by destruct (Hr id)]. subst id1.
    split_and!; [done|congruence|lia|lia|constructor; [done|]|constructor; [lia|]].
    + eapply Forall_impl; [exact Hf|]. cbn. lia.
    + eapply Forall_impl; [exact Hf|]. cbn. lia.
  - destruct (alloc_id_cases a st o) as [Hp|[(a1 & st1 & id1 & Hp & _)|(st1 & r & Hp & Hm & Hr)]];
      rewrite Hp in Ha; injection Ha as <- <- Heq; try done. destruct IH as (Hs & Hst & Hl & Hsort & Hf). split_and!; try done; lia.
  - destruct IH as (Hs & Hst & Hl & Hsort & Hf). split_and!; try done; lia.
  - by apply (recover_inv step st a' ids a).
Qed.

(** C34. Ids are unique.  Whatever allocations fail, with or without their
    maximum stored, however often the process restarts, and whatever else the
    store takes, the ids handed out are strictly increasing and never above the
    stored maximum, from which a restart goes on; and an allocation fails only
    for want of the store: it hands out the next id if what is left can be
    counted and persisting succeeds. *)
Theorem allocated_ids_unique step ids a st :
  allocated step ids a st ->
  StronglySorted Z.gt ids /\ NoDup ids /\ Forall (fun id => id <= stored_max st) ids /\
  (uint 64 (last_id a + step) -> 0 <= last_id a -> forall st', store_max st (last_id a + step) = Ok st' ->
   exists a' st'', alloc_id a st (persist Persisted) = (a', st'', Ok (last_id a + 1))).
Proof.
  intros H%allocated_inv. destruct H as (Hs & Hst & Hl & Hsort & Hf). split; [done|]. split; [|split].
  - clear Hf. induction Hsort as [|id ids _ IH Hall]; constructor; [|done]. intros Hin. rewrite Forall_forall in Hall.
    specialize (Hall id Hin). lia.
  - eapply Forall_impl; [exact Hf|]. cbn. lia.
  - intros Hu Hpos st' Hstore. unfold alloc_id. rewrite Hst.
    rewrite (u64_op_ok (last_id a + 1)) by (unfold uint in *; lia). rewrite u64_op_ok by done.
    destruct (last_id a <? max_id a); [by do 2 eexists|]. unfold persist. rewrite Hstore. by do 2 eexists.
Qed.
End allocator.

(** Two ids, then a restart during which the stored maximum is all that is left. *)
Lemma allocated_ids_unique_witness :
  exists a st, allocated (E:=unit) (MS:=version_meta_store) tt 100 [101; 2; 1] a st /\ NoDup [101; 2; 1].
Proof.
  eassert (H : exists a st, allocated (E:=unit) (MS:=version_meta_store) tt 100 [101; 2; 1] a st).
  { do 2 eexists. eapply (al_ok _ _ _ _ _ Persisted).
    - eapply al_restart; [|reflexivity]. eapply (al_ok _ _ _ _ _ Persisted).
      + eapply (al_ok _ _ _ _ _ Persisted).
        * eapply (al_err _ _ _ _ _ FailedStored); [apply (al_new _ _ version_meta_default); reflexivity|vm_compute; reflexivity].
        * vm_compute; reflexivity.
      + vm_compute; reflexivity.
    - vm_compute; reflexivity. }
  destruct H as (a & st & H). exists a, st. split; [exact H|]. apply (allocated_ids_unique tt 100 _ a st H).
Defined.
