(* ===== verification/WriteSplit.v ===== *)
(** * Splitting a write request

    Models the splitter of [analytic_engine/src/instance/write.rs]: the encoded
    rows of a request are cut into batches, each of which is logged and applied
    on its own, together with the slices of the row group ([RowGroupSlicer] of
    [common_types/src/row/mod.rs]). *)

From Stdlib Require Import ZArith Lia.
From stdpp Require Import base tactics option list numbers sets.
From S2P Require Import Prelude Bytes.

#[local] Open Scope Z_scope.

(** A slice of the rows of a row group. *)
Record RowGroupSlicer := MkSlicer { rs_start : nat; rs_end : nat }.
Definition slicer_is_empty (s : RowGroupSlicer) : bool := (rs_end s <=? rs_start s)%nat.
Definition slicer_num_rows (s : RowGroupSlicer) : nat := (rs_end s - rs_start s)%nat.
(** The rows of the slice: [rows[start..end]]. *)
Definition slicer_iter {E A} (s : RowGroupSlicer) (rows : list A) : res E (list A) :=
  let? _ := rassert ((rs_start s <=? rs_end s)%nat && (rs_end s <=? length rows)%nat) in
  Ok (take (rs_end s - rs_start s) (drop (rs_start s) rows)).
Definition slicer_from (num_rows : nat) : RowGroupSlicer := MkSlicer 0 num_rows.

Inductive SplitResult :=
| Splitted (encoded_batches : list (list bytes)) (row_group_batches : list RowGroupSlicer)
| Integrate (encoded_rows : list bytes) (row_group : RowGroupSlicer).

Definition enumerate {A} (k : nat) (l : list A) : list (nat * A) := zip (seq k (length l)) l.

Section splitter.
Context {E : Type} (max_bytes_per_batch : Z).

Definition batch_step (st : Z * list nat) (row : nat * bytes) : res E (Z * list nat) :=
  let? current_batch_size := u64_op (st.1 + Z.of_nat (length row.2)) in
  if max_bytes_per_batch <=? current_batch_size then Ok (0, st.2 ++ [(row.1 + 1)%nat])
  else Ok (current_batch_size, st.2).
Definition compute_batches (encoded_rows : list bytes) : res E (list nat) :=
  let? (current_batch_size, end_row_indexes) := rfold batch_step (enumerate 0 encoded_rows) (0, []) in
  Ok (if 0 <? current_batch_size then end_row_indexes ++ [length encoded_rows] else end_row_indexes).

Definition slice_step (st : nat * list RowGroupSlicer) (end_row_index : nat) : nat * list RowGroupSlicer :=
  (end_row_index, st.2 ++ [MkSlicer st.1 end_row_index]).
Definition push_step (end_row_indexes : list nat) (st : nat * list (list bytes)) (row : nat * bytes)
  : res E (nat * list (list bytes)) :=
  let? stop := unwrap (end_row_indexes !! st.1) in
  let current_batch_idx := if (stop <=? row.1)%nat then S st.1 else st.1 in
  let? batch := unwrap (st.2 !! current_batch_idx) in
  Ok (current_batch_idx, <[current_batch_idx := batch ++ [row.2]]> st.2).
Definition split (encoded_rows : list bytes) (num_rows : nat) : res E SplitResult :=
  let? end_row_indexes := compute_batches encoded_rows in
  if (length end_row_indexes <=? 1)%nat then Ok (Integrate encoded_rows (slicer_from num_rows))
  else
    let row_group_batches := (foldl slice_step (0%nat, []) end_row_indexes).2 in
    let? st := rfold (push_step end_row_indexes) (enumerate 0 encoded_rows)
                 (0%nat, replicate (length end_row_indexes) []) in
    Ok (Splitted st.2 row_group_batches).
Definition maybe_split_write_request (limit : option Z) (encoded_rows : list bytes) (num_rows : nat)
    (splitter : list bytes -> nat -> res E SplitResult) : res E SplitResult :=
  match limit with
  | None => Ok (Integrate encoded_rows (slicer_from num_rows))
  | Some _ => splitter encoded_rows num_rows
  end.

(** ** Reference: the rows in groups *)

Definition size_of (rows : list bytes) : Z := Z.of_nat (length (concat rows)).
Fixpoint group (acc rows : list bytes) : list (list bytes) :=
  match rows with
  | [] => if 0 <? size_of acc then [acc] else []
  | r :: rows =>
      if max_bytes_per_batch <=? size_of (acc ++ [r]) then (acc ++ [r]) :: group [] rows
      else group (acc ++ [r]) rows
  end.
(** Where the groups end. *)
Fixpoint ends_of (k : nat) (groups : list (list bytes)) : list nat :=
  match groups with
  | [] => []
  | g :: groups => (k + length g)%nat :: ends_of (k + length g) groups
  end.

Lemma size_of_app a b : size_of (a ++ b) = size_of a + size_of b.
Proof. unfold size_of. rewrite concat_app, length_app. lia. Qed.
Lemma size_of_one r : size_of [r] = Z.of_nat (length r).
Proof. unfold size_of. cbn. by rewrite app_nil_r. Qed.

Lemma enumerate_cons {A} k (a : A) l : enumerate k (a :: l) = (k, a) :: enumerate (S k) l.
Proof. done. Qed.

Lemma compute_loop rows : forall k acc ends,
  (length acc <= k)%nat -> size_of acc + size_of rows < 2 ^ 64 ->
  exists cur ends',
    rfold batch_step (enumerate k rows) (size_of acc, ends) = Ok (cur, ends') /\
    (if 0 <? cur then ends' ++ [(k + length rows)%nat] else ends') =
      ends ++ ends_of (k - length acc) (group acc rows).
Proof.
  induction rows as [|r rows IH]; intros k acc ends Hk Hsz.
  - exists (size_of acc), ends. split; [done|]. cbn [group length]. destruct (0 <? size_of acc); cbn [ends_of]; [|by rewrite app_nil_r].
    do 2 f_equal. lia.
  - rewrite enumerate_cons. change (r :: rows) with ([r] ++ rows) in Hsz. rewrite size_of_app in Hsz.
    pose proof (size_of_app acc [r]) as Hacc. rewrite size_of_one in Hsz, Hacc. cbn [rfold group]. unfold batch_step at 1. cbn [fst snd].
    rewrite u64_op_ok by (unfold uint, size_of in *; lia). cbn [rbind]. rewrite <- Hacc.
    destruct (max_bytes_per_batch <=? size_of (acc ++ [r])); cbn [rbind].
    + destruct (IH (S k) [] (ends ++ [(k + 1)%nat])) as (cur & ends' & Hr & He).
      { cbn. lia. } { change (size_of []) with 0. unfold size_of in *. lia. }
      change (size_of []) with 0 in Hr. exists cur, ends'. split; [done|]. cbn [length ends_of] in *. replace (k + S (length rows))%nat with (S k + length rows)%nat by lia.
      rewrite He, <- app_assoc. cbn [app]. do 2 f_equal.
      * rewrite length_app. cbn. lia.
      * f_equal. rewrite length_app. cbn. lia.
    + destruct (IH (S k) (acc ++ [r]) ends) as (cur & ends' & Hr & He).
      { rewrite length_app. cbn. lia. } { lia. }
      exists cur, ends'. split; [done|]. cbn [length]. replace (k + S (length rows))%nat with (S k + length rows)%nat by lia.
      rewrite He. do 2 f_equal. rewrite length_app. cbn. lia.
Qed.

Lemma compute_batches_ends rows :
  size_of rows < 2 ^ 64 -> compute_batches rows = Ok (ends_of 0 (group [] rows)).
Proof.
  intros Hsz. unfold compute_batches.
  destruct (compute_loop rows 0 [] []) as (cur & ends' & Hr & He); [done|done|]. change (size_of []) with 0 in Hr. cbn in He.
  rewrite Hr. cbn [rbind]. by rewrite He.
Qed.

(** The groups hold all rows, if the last of them is not empty. *)
Lemma group_concat rows : forall acc,
  (forall pre r, acc ++ rows = pre ++ [r] -> r <> []) -> concat (group acc rows) = acc ++ rows.
Proof.
  induction rows as [|r rows IH]; intros acc Hl; cbn [group].
  - rewrite app_nil_r in *. destruct (0 <? size_of acc) eqn:Hs; cbn; [by rewrite app_nil_r|].
    destruct acc as [|a acc] using rev_ind; [done|]. exfalso. clear IHacc.
    specialize (Hl acc a eq_refl). rewrite size_of_app, size_of_one in Hs. apply Z.ltb_ge in Hs.
    assert (0 <= size_of acc) by (unfold size_of; lia). destruct a; [done|]. cbn in Hs. lia.
  - destruct (_ <=? _); cbn [concat].
    + rewrite IH; [by rewrite <- app_assoc|]. cbn [app]. intros pre x Hx. apply (Hl (acc ++ r :: pre)).
      by rewrite Hx, <- app_assoc.
    + rewrite IH; [by rewrite <- app_assoc|]. by rewrite <- app_assoc.
Qed.

(** A group is full with its last row and not before; all but the last are full. *)
Definition group_ok (g : list bytes) : Prop :=
  g <> [] /\ forall pre r, g = pre ++ [r] -> pre = [] \/ size_of pre < max_bytes_per_batch.

Lemma group_sizes rows : forall acc,
  (acc = [] \/ size_of acc < max_bytes_per_batch) ->
  Forall group_ok (group acc rows) /\
  forall i g, (S i < length (group acc rows))%nat -> group acc rows !! i = Some g -> max_bytes_per_batch <= size_of g.
Proof.
  induction rows as [|r rows IH]; intros acc Hacc; cbn [group].
  - destruct (0 <? size_of acc) eqn:Hs; [|split; [constructor|cbn; lia]]. split; [|cbn; lia].
    constructor; [|constructor]. destruct acc as [|a acc _] using rev_ind; [done|]. split; [by destruct acc|].
    intros pre r' Heq. apply app_inj_tail in Heq as [-> ->]. destruct pre as [|p pre]; [by left|right].
    destruct Hacc as [Hnil|Hacc]; [done|]. rewrite size_of_app in Hacc. unfold size_of in *. lia.
  - destruct (_ <=? _) eqn:Hle.
    + destruct (IH [] ltac:(by left)) as [Hall Hfull]. split.
      * constructor; [|done]. split; [by destruct acc|]. intros pre r' Heq. apply app_inj_tail in Heq as [-> ->]. done.
      * intros [|i] g Hi Hg; cbn in Hi, Hg; [injection Hg as <-; lia|]. by apply (Hfull i g); [lia|].
    + apply IH. right. lia.
Qed.

Lemma ends_of_length gs : forall k, length (ends_of k gs) = length gs.
Proof. induction gs as [|g gs IH]; intros k; cbn; [done|]. by rewrite IH. Qed.

Lemma ends_of_lookup gs : forall k i g,
  gs !! i = Some g -> ends_of k gs !! i = Some (k + length (concat (take i gs)) + length g)%nat.
Proof.
  induction gs as [|g0 gs IH]; intros k [|i] g Hg; cbn in *; [done|done|injection Hg as ->; f_equal; lia|].
  rewrite (IH _ _ _ Hg), length_app. f_equal. lia.
Qed.

(** ** The loops of [split] *)

Lemma slices_spec gs : forall k l,
  (foldl slice_step (k, l) (ends_of k gs)).2 =
  l ++ imap (fun i g => MkSlicer (k + length (concat (take i gs))) (k + length (concat (take i gs)) + length g)) gs.
Proof.
  induction gs as [|g gs IH]; intros k l; cbn [foldl ends_of]; [by rewrite app_nil_r|].
  unfold slice_step at 2. cbn [fst snd]. rewrite IH, <- app_assoc. cbn [app imap].
  cbn [take concat length]. rewrite Nat.add_0_r. do 2 f_equal. apply imap_ext. intros i x Hx.
  unfold compose. cbn [take concat]. rewrite length_app. f_equal; lia.
Qed.

(** Rows that go to the current batch. *)
Lemma push_rows ends rs : forall k j X cur,
  X !! j = Some cur -> (exists e, ends !! j = Some e /\ (k + length rs <= e)%nat) ->
  rfold (push_step ends) (enumerate k rs) (j, X) = Ok (j, <[j := cur ++ rs]> X).
Proof.
  induction rs as [|r rs IH]; intros k j X cur Hcur (e & He & Hle).
  - rewrite app_nil_r, list_insert_id by done. done.
  - rewrite enumerate_cons. cbn [rfold]. unfold push_step at 1. cbn [fst snd length] in *. rewrite He. cbn [unwrap rbind].
    destruct (e <=? k)%nat eqn:Hc; [apply Nat.leb_le in Hc; lia|]. rewrite Hcur. cbn [unwrap rbind].
    rewrite (IH (S k) j _ (cur ++ [r])).
    + rewrite list_insert_insert_eq, <- app_assoc. done.
    + apply list_lookup_insert_eq. by apply lookup_lt_Some in Hcur.
    + exists e. split; [done|lia].
Qed.

Lemma push_group gs j g X :
  gs !! j = Some g -> g <> [] -> X !! j = Some [] ->
  rfold (push_step (ends_of 0 gs)) (enumerate (length (concat (take j gs))) g) ((j - 1)%nat, X) =
  Ok (j, <[j := g]> X).
Proof.
  intros Hg Hne HX. destruct g as [|r rs]; [done|]. pose proof (ends_of_lookup gs 0 j _ Hg) as Hend. cbn in Hend.
  rewrite enumerate_cons. cbn [rfold]. unfold push_step at 1. cbn [fst snd].
  assert (exists stop, ends_of 0 gs !! (j - 1)%nat = Some stop /\
    (if (stop <=? length (concat (take j gs)))%nat then S (j - 1) else (j - 1)%nat) = j) as (stop & -> & Hj).
  { destruct j as [|j].
    - eexists. split; [exact Hend|]. cbn. done.
    - destruct (gs !! j) as [g'|] eqn:Hg'; [|apply lookup_ge_None in Hg'; apply lookup_lt_Some in Hg; lia].
      replace (S j - 1)%nat with j by lia. rewrite (ends_of_lookup gs 0 j _ Hg'). eexists. split; [done|].
      rewrite (take_S_r gs j g' Hg'), concat_app, length_app. cbn [concat]. rewrite app_nil_r. cbn [Nat.add].
      by rewrite Nat.leb_refl. }
  cbn [unwrap rbind]. rewrite Hj, HX. cbn [unwrap rbind app]. rewrite (push_rows _ rs (S (length (concat (take j gs)))) j _ [r]).
  - by rewrite list_insert_insert_eq.
  - apply list_lookup_insert_eq. by apply lookup_lt_Some in HX.
  - eexists. split; [exact Hend|]. cbn. lia.
Qed.

Lemma enumerate_split {A} k (l1 l2 : list A) : enumerate k (l1 ++ l2) = enumerate k l1 ++ enumerate (k + length l1) l2.
Proof. unfold enumerate. rewrite length_app, seq_app, zip_with_app by by rewrite length_seq. done. Qed.

Lemma push_groups gs n : Forall (fun g => g <> []) gs -> (n <= length gs)%nat ->
  rfold (push_step (ends_of 0 gs)) (enumerate 0 (concat (take n gs))) (0%nat, replicate (length gs) []) =
  Ok ((n - 1)%nat, take n gs ++ replicate (length gs - n) []).
Proof.
  intros Hne. induction n as [|n IH]; intros Hn; [by rewrite Nat.sub_0_r|].
  destruct (lookup_lt_is_Some_2 gs n) as [g Hg]; [lia|]. rewrite (take_S_r gs n g Hg), concat_app. cbn [concat].
  rewrite app_nil_r, enumerate_split, rfold_app, IH by lia. cbn [rbind Nat.add].
  rewrite Forall_forall in Hne. rewrite (push_group gs n g).
  - f_equal. f_equal; [lia|]. destruct (length gs - n)%nat as [|m] eqn:Hm; [lia|].
    rewrite insert_app_r_alt by (rewrite length_take; lia). rewrite length_take, Nat.min_l, Nat.sub_diag by lia.
    cbn [replicate insert list_insert]. rewrite <- app_assoc. cbn [app]. do 3 f_equal. lia.
  - done.
  - exact (Hne g (list_elem_of_lookup_2 _ _ _ Hg)).
  - rewrite lookup_app_r by (rewrite length_take; lia). rewrite length_take, Nat.min_l, Nat.sub_diag by lia.
    destruct (length gs - n)%nat eqn:Hm; [lia|]. done.
Qed.

Lemma slicer_from_iter {A} (rows : list A) : @slicer_iter E A (slicer_from (length rows)) rows = Ok rows.
Proof.
  unfold slicer_iter, slicer_from. cbn [rs_start rs_end]. rewrite Nat.leb_refl. cbn. by rewrite Nat.sub_0_r, firstn_all.
Qed.

(** The slice at the position of a group has its rows. *)
Lemma slicer_group (gs : list (list bytes)) i g :
  gs !! i = Some g ->
  @slicer_iter E _ (MkSlicer (length (concat (take i gs))) (length (concat (take i gs)) + length g)) (concat gs) = Ok g.
Proof.
  intros Hg. rewrite <- (take_drop_middle gs i g Hg) at 3. rewrite concat_app. cbn [concat].
  unfold slicer_iter. cbn [rs_start rs_end]. rewrite !length_app.
  rewrite !(proj2 (Nat.leb_le _ _)) by lia. cbn [andb rassert rbind].
  rewrite drop_app_length, Nat.add_sub_swap, Nat.sub_diag by lia. cbn [Nat.add]. by rewrite take_app_length.
Qed.
End splitter.

(** ** Properties *)

(** Splitting a write request keeps its rows and bounds its batches.  If the
    last encoded row is not empty, [split] returns: either the request is kept
    whole, or the batches are not empty, concatenate to the rows, and each comes
    with the slice of the row group at the same positions.  A batch without its
    last row is below the limit, and every batch but the last reaches it. *)
Theorem split_partitions {E} max rows :
  rows <> [] -> (forall pre r, rows = pre ++ [r] -> r <> []) -> size_of rows < 2 ^ 64 ->
  match @split E max rows (length rows) with
  | Ok (Integrate er rg) => er = rows /\ @slicer_iter E _ rg rows = Ok rows
  | Ok (Splitted eb rb) =>
      concat eb = rows /\ length rb = length eb /\
      (forall i b s, eb !! i = Some b -> rb !! i = Some s -> @slicer_iter E _ s rows = Ok b) /\
      Forall (group_ok max) eb /\
      (forall i b, (S i < length eb)%nat -> eb !! i = Some b -> max <= size_of b)
  | _ => False
  end.
Proof.
  intros Hnil Hlast Hsz. unfold split. rewrite compute_batches_ends by done. cbn [rbind]. rewrite ends_of_length.
  destruct (length (group max [] rows) <=? 1)%nat; [split; [done|apply slicer_from_iter]|].
  destruct (group_sizes max rows [] ltac:(by left)) as [Hok Hfull].
  pose proof (group_concat max rows [] Hlast) as Hcat. cbn [app] in Hcat.
  set (gs := group max [] rows) in *. rewrite slices_spec. cbn [app].
  assert (Hne : Forall (fun g => g <> []) gs) by (eapply Forall_impl; [exact Hok|]; by intros g [? _]).
  pose proof (push_groups (E:=E) gs (length gs) Hne ltac:(done)) as Hp.
  rewrite firstn_all, Hcat, Nat.sub_diag in Hp. cbn [replicate] in Hp. rewrite app_nil_r in Hp. rewrite Hp. cbn [rbind snd].
  split; [done|]. split; [by rewrite length_imap|]. split; [|by split].
  intros i b s Hb Hs. rewrite list_lookup_imap, Hb in Hs. cbn in Hs. injection Hs as <-. rewrite <- Hcat. by apply slicer_group.
Qed.

Lemma split_partitions_witness :
  @split unit 2 [[1]; [1; 2]; [1; 2; 3]; [4]] 4 =
    Ok (Splitted [[[1]; [1; 2]]; [[1; 2; 3]]; [[4]]] [MkSlicer 0 2; MkSlicer 2 3; MkSlicer 3 4]) /\
  concat [[[1]; [1; 2]]; [[1; 2; 3]]; [[4]]] = [[1]; [1; 2]; [1; 2; 3]; [4]].
Proof.
  split; [reflexivity|].
  assert (Hlast : forall pre r, [[1]; [1; 2]; [1; 2; 3]; [4]] = pre ++ [r] -> r <> []).
  { intros pre r Heq. change [[1]; [1; 2]; [1; 2; 3]; [4]] with ([[1]; [1; 2]; [1; 2; 3]] ++ [[4]]) in Heq.
    by apply app_inj_tail in Heq as [_ <-]. }
  exact (proj1 (split_partitions (E:=unit) 2 [[1]; [1; 2]; [1; 2; 3]; [4]] ltac:(done) Hlast ltac:(done))).
Defined.
