(* ===== verification/FlushScheduler.v ===== *)
(** * The flush scheduler of a table

    Models [analytic_engine/src/instance/serial_executor.rs]: the state that
    keeps the flushes of a table sequential, the loop of [flush_sequentially]
    that waits for a running flush, and the notification through which a
    finished flush wakes it.

    The functions translate what is done while the lock on the state is held;
    the step relation interleaves them.  Only the holder of the executor calls
    [flush_sequentially], so there is one caller at a time; the flush jobs it
    spawned run beside it.  The channel is tokio's [watch]: a send makes a new
    version, and [changed] returns once the version is not the one last seen. *)

From Stdlib Require Import ZArith Lia String.
From stdpp Require Import base tactics option list numbers.
From S2P Require Import Prelude.

#[local] Open Scope Z_scope.

Inductive FlushState := Ready | Flushing | FailedWith (err_msg : string).
Inductive FlushError := BackgroundFlushFailed (msg : string) (retry_count : Z) | FlushJob (msg : string).
Record TableFlushOptions := MkFlushOptions { max_retry_flush_limit : Z }.

(** [ScheduleSync]: the state, the failures in a row, the version of the channel. *)
Record ScheduleSync := MkSync { sy_state : FlushState; sy_failures : Z; sy_version : nat }.
Definition sync_default : ScheduleSync := MkSync Ready 0 0.
Definition should_retry_flush (s : ScheduleSync) (max_retry_limit : Z) : bool := sy_failures s <? max_retry_limit.
Definition is_in_flush (s : ScheduleSync) : bool := match sy_state s with Flushing => true | _ => false end.

(** A turn of the loop, up to the end of the block that holds the lock. *)
Inductive turn := Break | Wait | Return (r : res FlushError unit).
Definition flush_turn (s : ScheduleSync) (block_on_write_thread : bool) (opts : TableFlushOptions) : turn * ScheduleSync :=
  let flushing := MkSync Flushing (sy_failures s) (sy_version s) in
  match sy_state s with
  | Ready => (Break, flushing)
  | Flushing => if negb block_on_write_thread then (Return (Ok tt), s) else (Wait, s)
  | FailedWith err_msg =>
      if should_retry_flush s (max_retry_flush_limit opts) then (Break, flushing)
      else (Return (Err (BackgroundFlushFailed err_msg (max_retry_flush_limit opts))), s)
  end.

(** [on_flush_finished] in two parts: with the lock held, and the notification.
    A job that panics does not get there. *)
Definition flush_finished (s : ScheduleSync) (flush_res : res FlushError unit) : ScheduleSync :=
  match flush_res with
  | Err (BackgroundFlushFailed msg _ | FlushJob msg) => MkSync (FailedWith msg) (as_u 64 (sy_failures s + 1)) (sy_version s)
  | Ok _ => MkSync Ready 0 (sy_version s)
  | Panic => s
  end.
Definition notify (s : ScheduleSync) : ScheduleSync := MkSync (sy_state s) (sy_failures s) (S (sy_version s)).

(** ** The steps *)

(** Where the caller of [flush_sequentially] is: before the loop or at its start,
    at [changed], behind the loop, or awaiting its own task. *)
Inductive caller :=
| Idle
| Looping (block_on : bool) (opts : TableFlushOptions)
| Waiting (block_on : bool) (opts : TableFlushOptions)
| Launching (block_on : bool)
| Awaiting
| Returned (r : res FlushError unit).
(** A job: the flush itself is running, or it is to notify.  The flag says that
    the caller awaits it. *)
Inductive job := Running (awaited : bool) | Notifying (awaited : bool).
Record system := MkSystem { sync : ScheduleSync; seen : nat; at_ : caller; jobs : list job }.
Definition system_new : system := MkSystem sync_default 0 Idle [].

Definition after_turn (block_on : bool) (opts : TableFlushOptions) (t : turn) : caller :=
  match t with Break => Launching block_on | Wait => Waiting block_on opts | Return r => Returned r end.

Inductive step : system -> system -> Prop :=
| st_turn s n b opts js t s' :
    flush_turn s b opts = (t, s') -> step (MkSystem s n (Looping b opts) js) (MkSystem s' n (after_turn b opts t) js)
| st_wake s n b opts js :
    n <> sy_version s -> step (MkSystem s n (Waiting b opts) js) (MkSystem s (sy_version s) (Looping b opts) js)
| st_launch s n b js :
    step (MkSystem s n (Launching b) js)
         (MkSystem s n (if b then Awaiting else Returned (Ok tt)) (js ++ [Running b]))
| st_finish s n c js1 b js2 flush_res :
    flush_res <> Panic ->
    step (MkSystem s n c (js1 ++ Running b :: js2))
         (MkSystem (flush_finished s flush_res) n c (js1 ++ Notifying b :: js2))
| st_notify s n c js1 b js2 :
    step (MkSystem s n c (js1 ++ Notifying b :: js2))
         (MkSystem (notify s) n (if b then Returned (Ok tt) else c) (js1 ++ js2)).
(** A new call, when there is none. *)
Inductive call : system -> system -> Prop :=
| st_call s n c js b opts :
    c = Idle \/ (exists r, c = Returned r) -> call (MkSystem s n c js) (MkSystem s n (Looping b opts) js).
Inductive reachable : system -> Prop :=
| rc_new : reachable system_new
| rc_step s s' : reachable s -> step s s' -> reachable s'
| rc_call s s' : reachable s -> call s s' -> reachable s'.

(** ** Invariant *)

Definition is_running (j : job) : bool := match j with Running _ => true | Notifying _ => false end.
Definition is_awaited (j : job) : bool := match j with Running b | Notifying b => b end.
Fixpoint count (p : job -> bool) (js : list job) : nat :=
  match js with [] => O | j :: js => ((if p j then 1 else 0) + count p js)%nat end.

Lemma count_app p js1 js2 : count p (js1 ++ js2) = (count p js1 + count p js2)%nat.
Proof. induction js1 as [|j js1 IH]; cbn; [done|]. rewrite IH. lia. Qed.

Definition sum_flush (s : FlushState) : nat := match s with Flushing => 1%nat | _ => 0%nat end.
Definition launching (c : caller) : nat := match c with Launching _ => 1%nat | _ => 0%nat end.
Definition awaiting (c : caller) : nat := match c with Awaiting => 1%nat | _ => 0%nat end.

(** The state says whether a flush runs or is about to; the caller awaits one
    job or none; and a waiting caller, which blocks, is going to be woken: a
    flush is running, or one is to notify, or has notified. *)
Definition sched_inv (s : system) : Prop :=
  (count is_running (jobs s) + launching (at_ s) = sum_flush (sy_state (sync s)))%nat /\
  count is_awaited (jobs s) = awaiting (at_ s) /\
  (seen s <= sy_version (sync s))%nat /\
  match at_ s with
  | Waiting b _ => b = true /\ (jobs s <> [] \/ (seen s < sy_version (sync s))%nat)
  | _ => True
  end.

Lemma flush_finished_state s r :
  r <> Panic -> sum_flush (sy_state (flush_finished s r)) = 0%nat /\ sy_version (flush_finished s r) = sy_version s.
Proof. by destruct r as [[]|[]|]. Qed.

Lemma sched_inv_step s s' : sched_inv s -> step s s' -> sched_inv s'.
Proof.
  intros (Hrun & Haw & Hseen & Hw) Hstep.
  destruct Hstep as [s n b opts js t s' Ht|s n b opts js Hne|s n b js|s n c js1 b js2 r Hr|s n c js1 b js2]; unfold sched_inv in *;
    cbn [jobs at_ sync seen] in *; rewrite ?count_app in *; cbn [count is_running is_awaited launching awaiting] in *.
  - unfold flush_turn in Ht. destruct (sy_state s) as [| |err] eqn:Hs; cbn [sum_flush] in *.
    + injection Ht as <- <-. cbn. split_and!; lia || done.
    + destruct b; injection Ht as <- <-; cbn; rewrite ?Hs; cbn; split_and!; try (lia || done).
      left. intros ->. cbn in Hrun. lia.
    + destruct (should_retry_flush s _); injection Ht as <- <-; cbn; rewrite ?Hs; cbn; split_and!; lia || done.
  - split_and!; lia || done.
  - destruct b; cbn; split_and!; try (lia || done); destruct (sy_state s); cbn in *; lia.
  - destruct (flush_finished_state s r Hr) as [-> ->]. destruct (sy_state s); cbn in *; [lia| |lia].
    split_and!; try lia. destruct c; try done. destruct Hw as [Hb _]. split; [done|left; by destruct js1].
  - split_and!; cbn; try (destruct b; cbn in *; destruct c; cbn in *; lia).
    destruct b; [done|]. destruct c; try done. destruct Hw as [Hb _]. split; [done|right; lia].
Qed.

Lemma reachable_inv s : reachable s -> sched_inv s.
Proof.
  induction 1 as [|s s' _ IH Hs|s s' _ IH Hc]; [by split_and!|by apply (sched_inv_step s)|].
  destruct Hc as [s n c js b opts Hc]. destruct IH as (Hrun & Haw & Hseen & _).
  destruct Hc as [->|[r ->]]; by split_and!.
Qed.

(** ** Progress *)

(** Every step decreases this. *)
Definition caller_weight (c : caller) : nat :=
  match c with Idle | Returned _ => 0 | Looping _ _ => 7 | Waiting _ _ => 6 | Launching _ => 6 | Awaiting => 1 end%nat.
Definition job_weight (j : job) : nat := if is_running j then 4%nat else 3%nat.
Fixpoint jobs_weight (js : list job) : nat := match js with [] => O | j :: js => (job_weight j + jobs_weight js)%nat end.
Definition weight (s : system) : nat :=
  (caller_weight (at_ s) + jobs_weight (jobs s) + if (seen s =? sy_version (sync s))%nat then 0 else 2)%nat.

Lemma jobs_weight_app js1 js2 : jobs_weight (js1 ++ js2) = (jobs_weight js1 + jobs_weight js2)%nat.
Proof. induction js1 as [|j js1 IH]; cbn; [done|]. rewrite IH. lia. Qed.

Lemma flush_turn_version s b opts t s' : flush_turn s b opts = (t, s') -> sy_version s' = sy_version s.
Proof.
  unfold flush_turn. destruct (sy_state s); [|destruct b|destruct (should_retry_flush _ _)]; by intros [= _ <-].
Qed.

Lemma step_decreases s s' : sched_inv s -> step s s' -> (weight s' < weight s)%nat.
Proof.
  intros (_ & Haw & Hseen & _) Hstep. unfold weight.
  destruct Hstep as [s n b opts js t s' Ht|s n b opts js Hne|s n b js|s n c js1 b js2 r Hr|s n c js1 b js2];
    cbn [jobs at_ sync seen] in *; rewrite ?jobs_weight_app, ?count_app in *;
    cbn [caller_weight jobs_weight job_weight is_running is_awaited count] in *.
  - rewrite (flush_turn_version _ _ _ _ _ Ht). destruct t; cbn; lia.
  - rewrite Nat.eqb_refl. destruct (n =? sy_version s)%nat eqn:He; [apply Nat.eqb_eq in He; lia|lia].
  - destruct b; cbn; lia.
  - destruct (flush_finished_state s r Hr) as [_ ->]. unfold job_weight. cbn. lia.
  - cbn [notify sy_version]. unfold job_weight. cbn [is_running].
    destruct (n =? S (sy_version s))%nat; destruct b; cbn in *; try destruct c; cbn in *; lia.
Qed.

(** A system with no step left is at rest. *)
Lemma stuck_at_rest s :
  sched_inv s -> (forall s', ~ step s s') -> jobs s = [] /\ (at_ s = Idle \/ exists r, at_ s = Returned r).
Proof.
  destruct s as [sy n c js]. intros (_ & Haw & _ & Hw) Hstuck. cbn in *.
  assert (js = []) as ->.
  { destruct js as [|[b|b] js]; [done| |]; exfalso.
    - exact (Hstuck _ (st_finish sy n c [] b js (Ok tt) ltac:(done))).
    - exact (Hstuck _ (st_notify sy n c [] b js)). }
  split; [done|]. destruct c as [|b opts|b opts|b| |r]; [by left| | | |done|right; by exists r]; exfalso.
  - destruct (flush_turn sy b opts) as [t sy'] eqn:Ht. exact (Hstuck _ (st_turn _ _ _ _ _ _ _ Ht)).
  - destruct Hw as [_ [Hne|Hlt]]; [done|]. apply (Hstuck _ (st_wake sy n b opts [] ltac:(lia))).
  - exact (Hstuck _ (st_launch sy n b [])).
Qed.

Inductive run : nat -> system -> system -> Prop :=
| run_0 s : run 0 s s
| run_S k s s' s'' : step s s' -> run k s' s'' -> run (S k) s s''.

(** ** Properties *)

(** C31. The flushes of a table are sequential.  In every reachable state at most
    one flush job is running, none while the caller has yet to start its own,
    and the state says [Flushing] exactly in those cases. *)
Theorem one_flush_at_a_time s :
  reachable s ->
  (count is_running (jobs s) + launching (at_ s) <= 1)%nat /\
  (is_in_flush (sync s) = true <-> (count is_running (jobs s) + launching (at_ s) = 1)%nat).
Proof.
  intros (Hrun & _)%reachable_inv. unfold is_in_flush. rewrite Hrun.
  destruct (sy_state (sync s)); cbn; split; lia || (split; [done|lia]) || done.
Qed.

(** C32. A call of [flush_sequentially] returns, and no wake-up is lost.  From
    every reachable state, with no further call, every sequence of steps ends
    within a bound, whatever the jobs return (if they do not panic), and where it can go no further all
    jobs have finished and notified and the caller has its result. *)
Theorem flush_call_returns s :
  reachable s ->
  (forall k s', run k s s' -> (k <= weight s)%nat) /\
  (forall k s', run k s s' -> (forall s'', ~ step s' s'') ->
    jobs s' = [] /\ (at_ s' = Idle \/ exists r, at_ s' = Returned r)).
Proof.
  intros Hinv%reachable_inv. split.
  - intros k s' Hrun. induction Hrun as [s|k s s1 s2 Hs _ IH]; [lia|].
    pose proof (step_decreases _ _ Hinv Hs). specialize (IH (sched_inv_step _ _ Hinv Hs)). lia.
  - intros k s' Hrun. induction Hrun as [s|k s s1 s2 Hs _ IH]; [by apply stuck_at_rest|].
    apply IH, (sched_inv_step _ _ Hinv Hs).
Qed.

(** A blocking call while a background flush runs, which fails. *)
Definition demo_waiting : system :=
  MkSystem (MkSync Flushing 0 0) 0 (Waiting true (MkFlushOptions 3)) [Running false].
Lemma demo_waiting_reachable : reachable demo_waiting.
Proof.
  eapply rc_step; [|eapply (st_turn (MkSync Flushing 0 0) 0 true (MkFlushOptions 3) _ Wait); reflexivity].
  eapply rc_call; [|apply (st_call _ _ (Returned (Ok tt))); right; by eexists].
  eapply rc_step; [|apply (st_launch (MkSync Flushing 0 0) 0 false [])].
  eapply rc_step; [|eapply (st_turn sync_default 0 false (MkFlushOptions 3) [] Break); reflexivity].
  eapply rc_call; [apply rc_new|apply (st_call _ _ Idle); by left].
Qed.
Lemma one_flush_at_a_time_witness :
  reachable demo_waiting /\ (count is_running (jobs demo_waiting) + launching (at_ demo_waiting) <= 1)%nat.
Proof. split; [apply demo_waiting_reachable|apply (one_flush_at_a_time demo_waiting), demo_waiting_reachable]. Defined.
Lemma flush_call_returns_witness :
  reachable demo_waiting /\ forall k s', run k demo_waiting s' -> (k <= 10)%nat.
Proof.
  split; [apply demo_waiting_reachable|].
  exact (proj1 (flush_call_returns demo_waiting demo_waiting_reachable)).
Defined.
