(* ===== verification/TableData.v ===== *)
(** * Writing to and flushing a table

    Models the parts of [analytic_engine/src/table/data.rs],
    [instance/write.rs] ([MemTableWriter]) and [instance/flush_compaction.rs]
    ([FlushTask]) through which rows get into memtables and from there into
    files.  Steps that other threads may come between are definitions of their
    own; [Durability] puts them together.

    A memtable is an object of the store; what the code asks of it is the class
    [MemTableObj], whose laws [MemTableLaws] the memtable of [Memtable] is
    written to keep.  The row number, size and format the writer of a file
    reports are parameters, as is the clock behind [is_expired]. *)

From Stdlib Require Import ZArith Lia.
From stdpp Require Import base tactics option list numbers gmap sets.
From S2P Require Import Prelude Time Sampler BTree SstFile Version.

#[local] Open Scope Z_scope.

(** A version of a row: the row with its [KeySequence]. *)
Record entry (Row : Type) := MkEntry { e_seq : Z; e_idx : Z; e_row : Row }.
Arguments MkEntry {Row}.
Arguments e_seq {Row}.
Arguments e_idx {Row}.
Arguments e_row {Row}.

Class MemTableObj (M Row ME : Type) := {
  mo_ref :: MemTableRef M;
  mem_create : Z -> Z -> M;
  mem_put : M -> Z -> Z -> Row -> res ME M;
  mem_set_last_sequence : M -> Z -> res ME M;
  (** what an unbounded scan returns, and what was put *)
  mem_scan : M -> list (entry Row);
  mem_entries : M -> list (entry Row)
}.

Section table.
Context {M Row ME : Type} {MO : MemTableObj M Row ME}.
Context (row_timestamp : Row -> Z) (is_expired : Z -> bool).

(** The memtables and samplers, by address. *)
Record memory := MkMemory { heap : nat -> M * Sampler.State; next_mem : nat }.
Definition update (h : nat -> M * Sampler.State) (a : nat) (c : M * Sampler.State) (b : nat) : M * Sampler.State :=
  if decide (b = a) then c else h b.
Definition set_cell (mm : memory) (a : nat) (c : M * Sampler.State) : memory := MkMemory (update (heap mm) a c) (next_mem mm).
Definition new_cell (mm : memory) (m : M) : nat * memory :=
  (next_mem mm, MkMemory (update (heap mm) (next_mem mm) (m, sampler_default)) (S (next_mem mm))).

Record TableData := MkTableData {
  current_version : TableVersion;
  last_sequence : Z;
  last_memtable_id : Z;
  schema_version : Z;
  segment_duration : option Z
}.
Definition with_version (t : TableData) (v : TableVersion) : TableData :=
  MkTableData v (last_sequence t) (last_memtable_id t) (schema_version t) (segment_duration t).

Inductive WriteError :=
| FindMemTable (e : VersionError)
| TimestampOverflow (timestamp duration : Z)
| PutMemTable (e : ME)
| CollectTimestamp (e : SamplerError)
| UpdateMemTableSequence (e : ME).

Definition alloc_memtable_id (t : TableData) : res WriteError (Z * TableData) :=
  let? id := u64_op (last_memtable_id t + 1) in
  Ok (id, MkTableData (current_version t) (last_sequence t) id (schema_version t) (segment_duration t)).

(** [find_or_create_mutable]. *)
Definition find_or_create_mutable (t : TableData) (mm : memory) (timestamp : Z)
  : res WriteError (MemTableForWrite * TableData * memory) :=
  let? found := rcontext FindMemTable (memtable_for_write (heap mm) (current_version t) timestamp (schema_version t)) in
  match found with
  | Some mem => Ok (mem, t, mm)
  | None =>
      let (addr, mm) := new_cell mm (mem_create (schema_version t) (last_sequence t)) in
      match segment_duration t with
      | Some segment_duration =>
          let? o := TimeRange.bucket_of timestamp segment_duration in
          match o with
          | None => Err (TimestampOverflow timestamp segment_duration)
          | Some time_range =>
              let? (id, t) := alloc_memtable_id t in
              let mem_state := MkMemState addr time_range id in
              let? v := insert_mutable (current_version t) mem_state in
              Ok (Normal mem_state, with_version t v, mm)
          end
      | None =>
          let? (id, t) := alloc_memtable_id t in
          let sampling_mem := sampling_new addr id in
          let? v := set_sampling (current_version t) sampling_mem in
          Ok (Sampling sampling_mem, with_version t v, mm)
      end
  end.

(** [MemTableForWrite::put]; a row whose timestamp is refused by the sampler
    is in the memtable already. *)
Definition put (mm : memory) (mem : MemTableForWrite) (sequence row_idx : Z) (row : Row) : memory * res WriteError unit :=
  let a := mfw_memtable mem in
  let (m, sampler) := heap mm a in
  match mem_put m sequence row_idx row with
  | Ok m' =>
      match mem with
      | Normal _ => (set_cell mm a (m', sampler), Ok tt)
      | Sampling _ =>
          match Sampler.collect sampler (row_timestamp row) with
          | Ok sampler' => (set_cell mm a (m', sampler'), Ok tt)
          | Err e => (set_cell mm a (m', sampler), Err (CollectTimestamp e))
          | Panic => (set_cell mm a (m', sampler), Panic)
          end
      end
  | Err e => (mm, Err (PutMemTable e))
  | Panic => (mm, Panic)
  end.

(** [MemTableWriter::write]: the memtables written and the last one used. *)
Record writing := MkWriting { wrote_memtables : list MemTableForWrite; last_mutable_mem : option MemTableForWrite }.
Definition writing_new : writing := MkWriting [] None.

(** A turn of the loop in two parts: find the memtable, put the row. *)
Definition needs_memtable (w : writing) (timestamp : Z) : bool :=
  match last_mutable_mem w with None => true | Some mem => negb (accept_timestamp mem timestamp) end.
Definition find_for_row (t : TableData) (mm : memory) (w : writing) (timestamp : Z)
  : res WriteError (writing * TableData * memory) :=
  if needs_memtable w timestamp then
    let? (mutable_mem, t, mm) := find_or_create_mutable t mm timestamp in
    Ok (MkWriting (wrote_memtables w ++ [mutable_mem]) (Some mutable_mem), t, mm)
  else Ok (w, t, mm).
Definition put_row (mm : memory) (w : writing) (sequence row_idx : Z) (row : Row) : memory * res WriteError unit :=
  match last_mutable_mem w with
  | Some mem => put mm mem sequence row_idx row
  | None => (mm, Panic)
  end.
(** The update of the last sequence of one of the memtables. *)
Definition update_sequence (mm : memory) (mem : MemTableForWrite) (sequence : Z) : memory * res WriteError unit :=
  let a := mfw_memtable mem in
  let (m, sampler) := heap mm a in
  match mem_set_last_sequence m sequence with
  | Ok m' => (set_cell mm a (m', sampler), Ok tt)
  | Err e => (mm, Err (UpdateMemTableSequence e))
  | Panic => (mm, Panic)
  end.
(** [TableData::set_last_sequence]. *)
Definition set_last_sequence (t : TableData) (seq : Z) : TableData :=
  MkTableData (current_version t) seq (last_memtable_id t) (schema_version t) (segment_duration t).

(** ** [should_flush_table] *)
Definition should_flush_table (mm : memory) (t : TableData) (write_buffer_size mutable_limit : Z) (in_flush : bool)
  : res WriteError bool :=
  let? mutable_usage := view_mutable_memory_usage (heap mm) (memtable_view (current_version t)) in
  let? total_usage := view_total_memory_usage (heap mm) (memtable_view (current_version t)) in
  if (mutable_limit <? mutable_usage) && negb in_flush then Ok true
  else Ok ((write_buffer_size <=? total_usage) && (write_buffer_size / 2 <=? mutable_usage)).

(** ** [FlushTask] *)

Inductive FlushError := SampleError (e : SamplerError) | StoreVersionEdit | WriteSst.

(** [preprocess_flush] in its parts: the duration that the sampling memtable
    suggests, the update of the options (by the manifest), the freeze or the
    switch. *)
Definition flush_suggestion (t : TableData) (mm : memory) : res FlushError (option Z * memory) :=
  let? (suggested, cache) := rcontext SampleError (suggest_duration (heap mm) (current_version t)) in
  let mm := match cache with Some (a, s) => set_cell mm a ((heap mm a).1, s) | None => mm end in
  let? _ := rassert (match suggested with Some d => negb (d =? 0) | None => true end) in
  Ok (suggested, mm).
Definition set_segment_duration (t : TableData) (d : Z) : TableData :=
  MkTableData (current_version t) (last_sequence t) (last_memtable_id t) (schema_version t) (Some d).
Definition max_with (o : option Z) (last_sequence : Z) : Z := match o with Some seq => Z.max seq last_sequence | None => last_sequence end.
Definition flush_freeze (t : TableData) (mm : memory) (last_sequence : Z) : TableData * Z :=
  let (seq, v) := freeze_sampling_memtable (heap mm) (current_version t) in
  (with_version t v, max_with seq last_sequence).
Definition flush_switch (t : TableData) (mm : memory) (last_sequence : Z) : TableData * Z :=
  let (seq, v) := switch_memtables (heap mm) (current_version t) in
  (with_version t v, max_with seq last_sequence).
Definition preprocess_flush (t : TableData) (mm : memory) : res FlushError (TableData * memory * Z) :=
  let? (suggested, mm) := flush_suggestion t mm in
  match suggested with
  | Some d => let (t, seq) := flush_freeze (set_segment_duration t d) mm (last_sequence t) in Ok (t, mm, seq)
  | None => let (t, seq) := flush_switch t mm (last_sequence t) in Ok (t, mm, seq)
  end.

(** What the writer of a file reports. *)
Context (sst_size sst_row_num : list (entry Row) -> Z) (sst_format : StorageFormat).
Definition new_file (id : Z) (time_range : TimeRange.t) (max_seq : Z) (rows : list (entry Row)) : FileMeta :=
  MkFileMeta id (sst_size rows) (sst_row_num rows) time_range max_seq sst_format.

(** [dump_normal_memtable]: nothing for an empty memtable, else its scan, to
    the file [file_id].  The sequence in the meta data is read when the file is
    written. *)
Definition dump_normal_memtable (mm : memory) (mem : MemTableState) (file_id : Z)
  : option (FileMeta * list (entry Row)) :=
  let m := (heap mm (ms_mem mem)).1 in
  match mem_scan m with
  | [] => None
  | rows => Some (new_file file_id (ms_time_range mem) (mem_last_sequence m) rows, rows)
  end.

(** [split_record_batch_with_time_ranges]: a row goes to the first range that
    contains its timestamp; there must be one. *)
Fixpoint range_of (ranges : list TimeRange.t) (timestamp : Z) : option nat :=
  match ranges with
  | [] => None
  | r :: ranges => if TimeRange.contains r timestamp then Some 0%nat else S <$> range_of ranges timestamp
  end.
Definition split_row (ranges : list TimeRange.t) (parts : list (list (entry Row))) (e : entry Row)
  : res FlushError (list (list (entry Row))) :=
  let? idx := unwrap (range_of ranges (row_timestamp (e_row e))) in
  let? part := unwrap (parts !! idx) in
  Ok (<[idx := part ++ [e]]> parts).
Definition split_record_batch_with_time_ranges (ranges : list TimeRange.t) (rows : list (entry Row))
  : res FlushError (list (list (entry Row))) :=
  rfold (split_row ranges) rows (replicate (length ranges) []).

(** [dump_sampling_memtable]: a file per range of the sampler, with the ids
    that were allocated for them. *)
Definition sampling_ranges (mm : memory) (mem : SamplingMemTable) : res FlushError (list TimeRange.t) :=
  let? (rs, _) := rcontext SampleError (Sampler.ranges (heap mm (sm_mem mem)).2) in Ok rs.
Definition dump_sampling_memtable (mm : memory) (mem : SamplingMemTable) (max_sequence : Z)
    (ranges : list TimeRange.t) (file_ids : list Z) : res FlushError (list (FileMeta * list (entry Row))) :=
  let? parts := split_record_batch_with_time_ranges ranges (mem_scan (heap mm (sm_mem mem)).1) in
  Ok (zip_with (fun idr part => (new_file idr.1 idr.2 max_sequence part, part)) (zip file_ids ranges) parts).

(** The edit at the end of [dump_memtables]. *)
Definition flush_edit (mems : FlushableMemTables) (flushed_sequence : Z) (files : list FileMeta) : VersionEdit :=
  MkVersionEdit flushed_sequence (flushable_ids mems) (MkAddFile Level.MIN <$> files) [] 0.
End table.

(** ** Laws of memtables *)

Section laws.
Context {M Row ME : Type} {MO : MemTableObj M Row ME} (same_key : Row -> Row -> Prop).

(** A version of a row that replaces [e]: the same key, not older. *)
Definition supersedes (e' e : entry Row) : Prop :=
  same_key (e_row e) (e_row e') /\ (e_seq e < e_seq e' \/ e_seq e = e_seq e' /\ e_idx e <= e_idx e').
Definition covers (l : list (entry Row)) (e : entry Row) : Prop := exists e', e' ∈ l /\ supersedes e' e.

Class MemTableLaws := {
  create_laws v s : mem_entries (mem_create v s) = [] /\ mem_last_sequence (mem_create v s) = s /\
                    mem_schema_version (mem_create v s) = v;
  put_laws m s i r m' : mem_put m s i r = Ok m' ->
    (forall e, e ∈ mem_entries m' <-> e = MkEntry s i r \/ e ∈ mem_entries m) /\
    mem_last_sequence m' = mem_last_sequence m /\ mem_schema_version m' = mem_schema_version m;
  set_laws m s : match mem_set_last_sequence m s with
    | Ok m' => mem_last_sequence m <= s /\ mem_last_sequence m' = s /\ mem_entries m' = mem_entries m /\
               mem_schema_version m' = mem_schema_version m
    | Err _ => s < mem_last_sequence m
    | Panic => False
    end;
  scan_sound m e : e ∈ mem_scan m -> e ∈ mem_entries m;
  scan_covers m e : e ∈ mem_entries m -> covers (mem_scan m) e
}.
End laws.
Arguments MemTableLaws M Row ME {MO} same_key.
