(* ===== verification/Durability.v ===== *)
(** * Writes and flushes of a table, interleaved

    The steps of [TableData] put together: one writer at a time, which holds the
    executor of the table, and one flush at a time, which runs beside it
    ([FlushScheduler.one_flush_at_a_time]).  The step relation takes the way a
    flush begins as a parameter: in the code [preprocess_flush] and the choice
    of the memtables are steps like all others, between which a write goes on;
    in the exclusive mode they are one step that is taken while no write is in
    progress, which is how a flush runs that the holder of the executor waits
    for, and what the comment of [freeze_sampling_memtable] requires. *)

From Stdlib Require Import ZArith Lia.
From stdpp Require Import base tactics option list numbers gmap sets.
From S2P Require Import Prelude Time Sampler BTree SstFile Version TableData.

#[local] Open Scope Z_scope.

Section steps.
Context {M Row ME : Type} {MO : MemTableObj M Row ME}.
Context (row_timestamp : Row -> Z) (is_expired : Z -> bool).
Context (sst_size sst_row_num : list (entry Row) -> Z) (sst_format : StorageFormat).

(** Where the writer is: a batch with the sequence of its log entry, its rows
    that are left, the index of the next, and the versions put so far; between
    the parts of a turn; updating the sequences. *)
Inductive writer :=
| WIdle
| WRows (seq : Z) (rows : list Row) (idx : Z) (w : writing) (done : list (entry Row))
| WPut (seq : Z) (row : Row) (rows : list Row) (idx : Z) (w : writing) (done : list (entry Row))
| WSeq (seq : Z) (mems : list MemTableForWrite) (done : list (entry Row)).

(** Where the flush is. *)
Inductive flusher :=
| FIdle
| FRead (last_seq : Z)
| FStoring (last_seq duration : Z)
| FFreezing (last_seq : Z)
| FSwitching (last_seq : Z)
| FPick (max_sequence : Z)
| FSampling (f : FlushableMemTables)
| FSampled (f : FlushableMemTables) (sm : SamplingMemTable) (max_sequence : Z) (ranges : list TimeRange.t)
| FNormal (f : FlushableMemTables) (todo : list MemTableState) (files : list FileMeta) (flushed : Z)
| FNormalSeq (f : FlushableMemTables) (mem : MemTableState) (todo : list MemTableState) (files : list FileMeta) (flushed : Z).

(** The whole: [s_files] is what the files of the object store hold, [s_wal] the
    last sequence of the log, [s_acked] the versions whose write has returned. *)
Record sys := MkSys {
  s_mm : memory (M:=M);
  s_table : TableData;
  s_files : gmap Z (list (entry Row));
  s_wal : Z;
  s_writer : writer;
  s_flusher : flusher;
  s_acked : list (entry Row)
}.
Definition sys_new (m0 : M) (schema_version : Z) (segment_duration : option Z) : sys :=
  MkSys (MkMemory (fun _ => (m0, sampler_default)) 0) (MkTableData version_new 0 0 schema_version segment_duration)
    ∅ 0 WIdle FIdle [].

(** What follows the choice of the memtables. *)
Definition picked (f : FlushableMemTables) : flusher := if flushable_is_empty f then FIdle else FSampling f.
Definition fresh_ids (F : gmap Z (list (entry Row))) (ids : list Z) : Prop :=
  NoDup ids /\ Forall (fun id => F !! id = None) ids.
Definition store_files (F : gmap Z (list (entry Row))) (fs : list (FileMeta * list (entry Row))) : gmap Z (list (entry Row)) :=
  foldl (fun F f => <[fm_id f.1 := f.2]> F) F fs.

Inductive wstep : sys -> sys -> Prop :=
| w_begin mm t F wal f A rows :
    wstep (MkSys mm t F wal WIdle f A) (MkSys mm t F (wal + 1) (WRows (wal + 1) rows 0 writing_new []) f A)
| w_skip mm t F wal f A seq r rows idx w done :
    is_expired (row_timestamp r) = true ->
    wstep (MkSys mm t F wal (WRows seq (r :: rows) idx w done) f A) (MkSys mm t F wal (WRows seq rows (idx + 1) w done) f A)
| w_find mm t F wal f A seq r rows idx w done w' t' mm' :
    is_expired (row_timestamp r) = false ->
    find_for_row t mm w (row_timestamp r) = Ok (w', t', mm') ->
    wstep (MkSys mm t F wal (WRows seq (r :: rows) idx w done) f A) (MkSys mm' t' F wal (WPut seq r rows idx w' done) f A)
| w_find_err mm t F wal f A seq r rows idx w done e :
    is_expired (row_timestamp r) = false ->
    find_for_row t mm w (row_timestamp r) = Err e ->
    wstep (MkSys mm t F wal (WRows seq (r :: rows) idx w done) f A) (MkSys mm t F wal WIdle f A)
| w_put mm t F wal f A seq r rows idx w done mm' :
    put_row row_timestamp mm w seq idx r = (mm', Ok tt) ->
    wstep (MkSys mm t F wal (WPut seq r rows idx w done) f A)
          (MkSys mm' t F wal (WRows seq rows (idx + 1) w (done ++ [MkEntry seq idx r])) f A)
| w_put_err mm t F wal f A seq r rows idx w done mm' e :
    put_row row_timestamp mm w seq idx r = (mm', Err e) ->
    wstep (MkSys mm t F wal (WPut seq r rows idx w done) f A) (MkSys mm' t F wal WIdle f A)
| w_rows_done mm t F wal f A seq idx w done :
    wstep (MkSys mm t F wal (WRows seq [] idx w done) f A) (MkSys mm t F wal (WSeq seq (wrote_memtables w) done) f A)
| w_seq mm t F wal f A seq mem mems done mm' :
    update_sequence mm mem seq = (mm', Ok tt) ->
    wstep (MkSys mm t F wal (WSeq seq (mem :: mems) done) f A) (MkSys mm' t F wal (WSeq seq mems done) f A)
| w_seq_err mm t F wal f A seq mem mems done mm' e :
    update_sequence mm mem seq = (mm', Err e) ->
    wstep (MkSys mm t F wal (WSeq seq (mem :: mems) done) f A) (MkSys mm' t F wal WIdle f A)
| w_done mm t F wal f A seq done :
    wstep (MkSys mm t F wal (WSeq seq [] done) f A) (MkSys mm (set_last_sequence t seq) F wal WIdle f (A ++ done)).

(** The dump of the memtables; a file that cannot be written, or an edit that
    cannot be stored, ends it. *)
Inductive fstep : sys -> sys -> Prop :=
| f_fail mm t F wal w f A : fstep (MkSys mm t F wal w f A) (MkSys mm t F wal w FIdle A)
| f_sampling_none mm t F wal w f A :
    (fl_sampling_mem f = None \/ exists sm, fl_sampling_mem f = Some sm /\ mem_scan (heap mm (sm_mem sm)).1 = []) ->
    fstep (MkSys mm t F wal w (FSampling f) A) (MkSys mm t F wal w (FNormal f (fl_memtables f) [] 0) A)
| f_sampling_read mm t F wal w f A sm rs :
    fl_sampling_mem f = Some sm -> mem_scan (heap mm (sm_mem sm)).1 <> [] -> sampling_ranges mm sm = Ok rs ->
    fstep (MkSys mm t F wal w (FSampling f) A)
          (MkSys mm t F wal w (FSampled f sm (last_sequence_of (heap mm) (sm_mem sm)) rs) A)
| f_sampling_dump mm t F wal w f A sm max_seq rs ids fs :
    length ids = length rs -> fresh_ids F ids ->
    dump_sampling_memtable row_timestamp sst_size sst_row_num sst_format mm sm max_seq rs ids = Ok fs ->
    fstep (MkSys mm t F wal w (FSampled f sm max_seq rs) A)
          (MkSys mm t (store_files F fs) wal w (FNormal f (fl_memtables f) fs.*1 max_seq) A)
| f_dump_empty mm t F wal w f A m todo files flushed id :
    dump_normal_memtable sst_size sst_row_num sst_format mm m id = None ->
    fstep (MkSys mm t F wal w (FNormal f (m :: todo) files flushed) A) (MkSys mm t F wal w (FNormal f todo files flushed) A)
| f_dump mm t F wal w f A m todo files flushed id meta rows :
    F !! id = None -> dump_normal_memtable sst_size sst_row_num sst_format mm m id = Some (meta, rows) ->
    fstep (MkSys mm t F wal w (FNormal f (m :: todo) files flushed) A)
          (MkSys mm t (<[id := rows]> F) wal w (FNormalSeq f m todo (files ++ [meta]) flushed) A)
| f_seq mm t F wal w f A m todo files flushed :
    fstep (MkSys mm t F wal w (FNormalSeq f m todo files flushed) A)
          (MkSys mm t F wal w (FNormal f todo files (Z.max flushed (last_sequence_of (heap mm) (ms_mem m)))) A)
| f_commit mm t F wal w f A files flushed v :
    @apply_edit unit (current_version t) (flush_edit f flushed files) = Ok v ->
    fstep (MkSys mm t F wal w (FNormal f [] files flushed) A) (MkSys mm (with_version t v) F wal w FIdle A).

(** The begin of a flush, as in the code. *)
Inductive bstep : sys -> sys -> Prop :=
| b_read mm t F wal w A : bstep (MkSys mm t F wal w FIdle A) (MkSys mm t F wal w (FRead (last_sequence t)) A)
| b_suggest mm t F wal w A l d mm' :
    flush_suggestion t mm = Ok (Some d, mm') ->
    bstep (MkSys mm t F wal w (FRead l) A) (MkSys mm' t F wal w (FStoring l d) A)
| b_store mm t F wal w A l d :
    bstep (MkSys mm t F wal w (FStoring l d) A) (MkSys mm (set_segment_duration t d) F wal w (FFreezing l) A)
| b_freeze mm t F wal w A l t' max_seq :
    flush_freeze t mm l = (t', max_seq) ->
    bstep (MkSys mm t F wal w (FFreezing l) A) (MkSys mm t' F wal w (FPick max_seq) A)
| b_none mm t F wal w A l mm' :
    flush_suggestion t mm = Ok (None, mm') ->
    bstep (MkSys mm t F wal w (FRead l) A) (MkSys mm' t F wal w (FSwitching l) A)
| b_switch mm t F wal w A l t' max_seq :
    flush_switch t mm l = (t', max_seq) ->
    bstep (MkSys mm t F wal w (FSwitching l) A) (MkSys mm t' F wal w (FPick max_seq) A)
| b_pick mm t F wal w A max_seq :
    bstep (MkSys mm t F wal w (FPick max_seq) A)
          (MkSys mm t F wal w (picked (pick_memtables_to_flush (heap mm) (current_version t) max_seq)) A).
(** The begin of a flush while no write is in progress. *)
Inductive xstep : sys -> sys -> Prop :=
| x_begin mm t F wal A t' mm' max_seq :
    preprocess_flush t mm = Ok (t', mm', max_seq) ->
    xstep (MkSys mm t F wal WIdle FIdle A)
          (MkSys mm' t' F wal WIdle (picked (pick_memtables_to_flush (heap mm') (current_version t') max_seq)) A).

Inductive reachable (exclusive : bool) (s0 : sys) : sys -> Prop :=
| r_new : reachable exclusive s0 s0
| r_write s s' : reachable exclusive s0 s -> wstep s s' -> reachable exclusive s0 s'
| r_dump s s' : reachable exclusive s0 s -> fstep s s' -> reachable exclusive s0 s'
| r_begin s s' : exclusive = false -> reachable exclusive s0 s -> bstep s s' -> reachable exclusive s0 s'
| r_xbegin s s' : exclusive = true -> reachable exclusive s0 s -> xstep s s' -> reachable exclusive s0 s'.
End steps.

(** ** What must not be lost *)

Section specification.
Context {M Row ME : Type} {MO : MemTableObj M Row ME}.
Context (row_timestamp : Row -> Z) (same_key : Row -> Row -> Prop).
Abbreviation covers := (TableData.covers same_key).

(** A read of a time range sees the version, or one that supersedes it, in the
    memtables or the files of its view. *)
Definition seen_by (s : sys (M:=M) (Row:=Row)) (rv : ReadView) (e : entry Row) : Prop :=
  (exists sm, rv_sampling_mem rv = Some sm /\ covers (mem_entries (heap (s_mm s) (sm_mem sm)).1) e) \/
  (exists m, m ∈ rv_memtables rv /\ covers (mem_entries (heap (s_mm s) (ms_mem m)).1) e) \/
  (exists l f rows, l ∈ rv_leveled_ssts rv /\ f ∈ l /\ s_files s !! fh_id f = Some rows /\ covers rows e).
Definition visible (s : sys) (e : entry Row) : Prop :=
  forall q, TimeRange.contains q (row_timestamp (e_row e)) = true ->
  exists rv, @pick_read_view unit (current_version (s_table s)) q = Ok rv /\ seen_by s rv e.
(** After a crash the version is recovered from the files of the version, or
    replayed from the log, which keeps what is after the flushed sequence. *)
Definition recoverable (s : sys (M:=M)) (e : entry Row) : Prop :=
  exists meta, @snapshot unit (current_version (s_table s)) = Ok meta /\
    (vm_flushed_sequence meta < e_seq e \/
     exists id f rows, vm_files meta !! id = Some f /\ s_files s !! id = Some rows /\ covers rows e).
End specification.

(** ** A memtable that is a list *)

Record list_mem := MkListMem { lm_entries : list (entry (Z * Z)); lm_last_sequence : Z; lm_schema_version : Z }.
#[local] Instance list_mem_ref : MemTableRef list_mem :=
  {| mem_last_sequence := lm_last_sequence; mem_schema_version := lm_schema_version;
     mem_approximate_memory_usage := fun m => Z.of_nat (length (lm_entries m)) |}.
#[local] Instance list_mem_obj : MemTableObj list_mem (Z * Z) unit :=
  {| mo_ref := list_mem_ref;
     mem_create := fun v s => MkListMem [] s v;
     mem_put := fun m s i r => Ok (MkListMem (lm_entries m ++ [MkEntry s i r]) (lm_last_sequence m) (lm_schema_version m));
     mem_set_last_sequence := fun m s =>
       if s <? lm_last_sequence m then Err tt else Ok (MkListMem (lm_entries m) s (lm_schema_version m));
     mem_scan := lm_entries; mem_entries := lm_entries |}.
#[local] Instance list_mem_laws : MemTableLaws list_mem (Z * Z) unit (=).
Proof.
  split; cbn.
  - done.
  - intros m s i r m' [= <-]. cbn. split; [|done]. intros e. rewrite elem_of_app, list_elem_of_singleton. tauto.
  - intros m s. destruct (s <? lm_last_sequence m) eqn:Hs; cbn; [lia|]. split_and!; lia || done.
  - done.
  - intros m e He. exists e. split; [done|]. split; [done|]. right. split; [done|lia].
Qed.

(** ** The race *)

Definition demo_ts (r : Z * Z) : Z := as_s 64 r.2.
Definition demo_reach (x : bool) (d : option Z) : sys (M:=list_mem) -> Prop :=
  reachable demo_ts (fun _ => false) (fun l => Z.of_nat (length l)) (fun l => Z.of_nat (length l)) Columnar x
    (sys_new (MkListMem [] 0 0) 1 d).

(** A write of two rows; between them the memtable is switched and dumped. *)
Definition race_row : entry (Z * Z) := MkEntry 1 1 (8, 6).

Section forward.
Context (x : bool) (d : option Z) (Q : Prop).
Lemma then_write s s' : demo_reach x d s -> wstep demo_ts (fun _ => false) s s' -> (demo_reach x d s' -> Q) -> Q.
Proof. intros H Hs HQ. by apply HQ, (r_write _ _ _ _ _ _ _ s). Qed.
Lemma then_dump s s' :
  demo_reach x d s -> fstep demo_ts (fun l => Z.of_nat (length l)) (fun l => Z.of_nat (length l)) Columnar s s' ->
  (demo_reach x d s' -> Q) -> Q.
Proof. intros H Hs HQ. by apply HQ, (r_dump _ _ _ _ _ _ _ s). Qed.
Lemma then_begin s s' : x = false -> demo_reach x d s -> bstep s s' -> (demo_reach x d s' -> Q) -> Q.
Proof. intros Hx H Hs HQ. by apply HQ, (r_begin _ _ _ _ _ _ _ s). Qed.
End forward.
Ltac go lem H := eapply lem; [exact H| |clear H; intros H].

Lemma race_reached :
  exists s, demo_reach false (Some 100) s /\ s_acked s = [MkEntry 1 0 (7, 5); race_row] /\
    s_files s = {[1 := [MkEntry 1 0 (7, 5)]]} /\
    current_version (s_table s) =
      MkVersion view_new (MkLevels [MkLevelHandler 0 (set_insert file_set_new
          (MkFileHandle (MkFileMeta 1 1 1 (TimeRange.Mk 0 100) 0 Columnar) 0)); level_new 1] 1) 1 0.
Proof.
  assert (H : demo_reach false (Some 100) (sys_new (MkListMem [] 0 0) 1 (Some 100))) by apply r_new.
  (* the first row is written *)
  go then_write H; [apply w_begin with (rows := [(7, 5); (8, 6)])|].
  go then_write H; [eapply w_find; [reflexivity|vm_compute; reflexivity]|].
  go then_write H; [eapply w_put; vm_compute; reflexivity|].
  (* the memtable is switched, picked and dumped *)
  eapply then_begin; [reflexivity|exact H|apply b_read|clear H; intros H].
  eapply then_begin; [reflexivity|exact H|eapply b_none; vm_compute; reflexivity|clear H; intros H].
  eapply then_begin; [reflexivity|exact H|eapply b_switch; vm_compute; reflexivity|clear H; intros H].
  eapply then_begin; [reflexivity|exact H|apply b_pick|clear H; intros H].
  match type of H with context [picked ?f] => let r := eval vm_compute in (picked f) in change (picked f) with r in H end.
  go then_dump H; [apply f_sampling_none; left; reflexivity|].
  go then_dump H; [eapply f_dump with (id := 1); [reflexivity|vm_compute; reflexivity]|].
  (* the second row is written, and the write returns *)
  go then_write H; [eapply w_find; [reflexivity|vm_compute; reflexivity]|].
  go then_write H; [eapply w_put; vm_compute; reflexivity|].
  go then_write H; [apply w_rows_done|].
  go then_write H; [eapply w_seq; vm_compute; reflexivity|].
  go then_write H; [apply w_done|].
  (* the flush goes on with the sequence that the write has set *)
  go then_dump H; [apply f_seq|].
  go then_dump H; [eapply f_commit; vm_compute; reflexivity|].
  eexists. split; [exact H|]. vm_compute. done.
Qed.

(** C20. A write that is in progress when a flush begins can be lost.  As the
    code schedules it, a flush switches, picks and dumps the memtable that a
    write holds; the rest of its rows go into the dumped memtable, the write sets
    the sequence of the memtable and returns, and the flush takes that sequence
    for flushed and removes the memtable: an acknowledged row that no read sees
    and that the log no longer holds. *)
Theorem flush_race_loses_write :
  exists s e, demo_reach false (Some 100) s /\ e ∈ s_acked s /\ ~ visible demo_ts (=) s e /\ ~ recoverable (=) s e.
Proof.
  destruct race_reached as (s & Hr & Ha & Hf & Hv). exists s, race_row. split; [done|]. rewrite Ha.
  split; [by right; left|]. split.
  - intros Hvis. destruct (Hvis (TimeRange.Mk 0 100) eq_refl) as (rv & Hrv & Hs). rewrite Hv in Hrv.
    vm_compute in Hrv. injection Hrv as <-. destruct Hs as [(sm & ? & _)|[(m & Hm & _)|(l & f & rows & Hl & Hfl & Hrows & Hc)]].
    + done.
    + by apply elem_of_nil in Hm.
    + rewrite Hf in Hrows. cbn [rv_leveled_ssts] in Hl.
      apply elem_of_cons in Hl as [->|Hl]; [|apply list_elem_of_singleton in Hl as ->; by apply elem_of_nil in Hfl].
      apply list_elem_of_singleton in Hfl as ->. vm_compute in Hrows. injection Hrows as <-.
      destruct Hc as (e' & ->%list_elem_of_singleton & Hk & _). done.
  - intros (meta & Hm & Hrec). rewrite Hv in Hm. vm_compute in Hm. injection Hm as <-.
    destruct Hrec as [Hlt|(id & f & rows & Hid & Hrows & Hc)]; [cbn in Hlt; lia|].
    rewrite Hf in Hrows. apply lookup_singleton_Some in Hrows as [_ <-].
    destruct Hc as (e' & ->%list_elem_of_singleton & Hk & _). done.
Qed.

(** ** Invariant of the exclusive mode *)

Section invariant.
Context {M Row ME : Type} {MO : MemTableObj M Row ME}.
Context (row_timestamp : Row -> Z) (same_key : Row -> Row -> Prop).
Abbreviation covers := (TableData.covers same_key).
Abbreviation store := (nat -> M * Sampler.State).
Abbreviation files := (gmap Z (list (entry Row))).
Abbreviation ts e := (row_timestamp (e_row e)).

(** The memtables of a version: those a write may hold, and the frozen ones. *)
Definition active (a : versionA) (x : MemTableForWrite) : Prop :=
  match x with Normal s => va_mut a !! ms_id s = Some s | Sampling sm => va_sampling a = Some sm /\ sm_freezed sm = false end.
Definition frozen (a : versionA) (x : MemTableForWrite) : Prop :=
  match x with Normal s => va_imm a !! ms_id s = Some s | Sampling sm => va_sampling a = Some sm /\ sm_freezed sm = true end.
Definition live (a : versionA) (x : MemTableForWrite) : Prop := active a x \/ frozen a x.
Definition handle_id (x : MemTableForWrite) : Z := match x with Normal s => ms_id s | Sampling sm => sm_id sm end.
Definition entries_of (h : store) (x : MemTableForWrite) : list (entry Row) := mem_entries (h (mfw_memtable x)).1.
Definition seq_of (h : store) (x : MemTableForWrite) : Z := last_sequence_of h (mfw_memtable x).

Record layout (t : TableData) (next : nat) (a : versionA) : Prop := {
  ly_version : version_is (current_version t) a;
  ly_inj : forall x y, live a x -> live a y -> mfw_memtable x = mfw_memtable y -> x = y;
  ly_bound : forall x, live a x -> (mfw_memtable x < next)%nat /\ handle_id x <= last_memtable_id t;
  ly_sampling : forall sm, va_sampling a = Some sm -> va_mut a !! sm_id sm = None /\ va_imm a !! sm_id sm = None
}.
Record contents (h : store) (F : files) (a : versionA) : Prop := {
  ct_times : forall s e, live a (Normal s) -> e ∈ entries_of h (Normal s) -> TimeRange.contains (ms_time_range s) (ts e) = true;
  ct_files : forall id f, va_files a !! id = Some f ->
    exists rows, F !! id = Some rows /\ forall e, e ∈ rows -> TimeRange.contains (fm_time_range (af_file f)) (ts e) = true
}.
Definition seqs (h : store) (a : versionA) (T Tw : Z) : Prop :=
  (forall x, frozen a x -> seq_of h x <= T) /\ (forall x, active a x -> seq_of h x <= Tw).

Definition in_mem (h : store) (a : versionA) (e : entry Row) : Prop := exists x, live a x /\ covers (entries_of h x) e.
Definition in_file (F : files) (a : versionA) (e : entry Row) : Prop :=
  exists id f rows, va_files a !! id = Some f /\ F !! id = Some rows /\ covers rows e.
Definition acked_ok (h : store) (F : files) (a : versionA) (T flushed : Z) (A : list (entry Row)) : Prop :=
  flushed <= T /\
  forall e, e ∈ A -> e_seq e <= T /\ (in_mem h a e \/ in_file F a e) /\ (in_file F a e \/ flushed < e_seq e).

Definition accepts (w : writing) (r : Row) : Prop :=
  exists x, last_mutable_mem w = Some x /\ accept_timestamp x (row_timestamp r) = true.
Definition batch_ok (h : store) (a : versionA) (seq : Z) (w : writing) (done : list (entry Row)) : Prop :=
  (forall x, x ∈ wrote_memtables w -> active a x) /\
  (forall x, last_mutable_mem w = Some x -> x ∈ wrote_memtables w) /\
  (forall e, e ∈ done -> e_seq e = seq /\ exists x, active a x /\ e ∈ entries_of h x).
Definition writer_ok (h : store) (a : versionA) (T wal : Z) (w : writer (Row:=Row)) : Prop :=
  0 <= T <= wal /\
  match w with
  | WIdle => True
  | WRows seq _ _ w done => T < seq <= wal /\ batch_ok h a seq w done
  | WPut seq r _ _ w done => T < seq <= wal /\ batch_ok h a seq w done /\ accepts w r
  | WSeq seq mems done =>
      T < seq <= wal /\ (forall x, x ∈ mems -> active a x) /\
      (forall e, e ∈ done -> e_seq e = seq /\ exists x, active a x /\ e ∈ entries_of h x)
  end.
Definition write_seq (T : Z) (w : writer (Row:=Row)) : Z := match w with WSeq seq _ _ => seq | _ => T end.

Definition picked_by (f : FlushableMemTables) (x : MemTableForWrite) : Prop :=
  match x with Normal s => s ∈ fl_memtables f | Sampling sm => fl_sampling_mem f = Some sm end.
(** The picked memtables are frozen, and hold every version up to [T0] that is
    in no file. *)
Definition picked_ok (h : store) (F : files) (a : versionA) (T T0 : Z) (A : list (entry Row)) (f : FlushableMemTables) : Prop :=
  0 <= T0 <= T /\ (forall x, picked_by f x -> frozen a x /\ seq_of h x <= T0) /\
  (forall e, e ∈ A -> T0 < e_seq e \/ in_file F a e \/ exists x, picked_by f x /\ covers (entries_of h x) e).
Definition pending_ok (F : files) (a : versionA) (fs : list FileMeta) : Prop :=
  NoDup (fm_id <$> fs) /\
  forall f, f ∈ fs -> va_files a !! fm_id f = None /\
    exists rows, F !! fm_id f = Some rows /\ forall e, e ∈ rows -> TimeRange.contains (fm_time_range f) (ts e) = true.
Definition dumped (h : store) (F : files) (fs : list FileMeta) (x : MemTableForWrite) : Prop :=
  forall e, e ∈ entries_of h x -> exists f rows, f ∈ fs /\ F !! fm_id f = Some rows /\ covers rows e.
Definition dump_ok (h : store) (F : files) (a : versionA) (T : Z) (A : list (entry Row)) (f : FlushableMemTables)
    (todo : list MemTableState) (fs : list FileMeta) (flushed : Z) : Prop :=
  exists T0, picked_ok h F a T T0 A f /\ pending_ok F a fs /\ flushed <= T0 /\
    (forall s, s ∈ todo -> s ∈ fl_memtables f) /\
    (forall x, picked_by f x -> dumped h F fs x \/ exists s, s ∈ todo /\ x = Normal s).
Definition flusher_ok (h : store) (F : files) (a : versionA) (T : Z) (A : list (entry Row)) (fl : flusher) : Prop :=
  match fl with
  | FIdle => True
  | FSampling f => exists T0, picked_ok h F a T T0 A f
  | FSampled f sm max_seq _ => exists T0, picked_ok h F a T T0 A f /\ fl_sampling_mem f = Some sm /\ max_seq <= T0
  | FNormal f todo fs flushed => dump_ok h F a T A f todo fs flushed
  | FNormalSeq f m todo fs flushed => dump_ok h F a T A f todo fs flushed /\ m ∈ fl_memtables f
  | _ => False
  end.

Definition inv (s : sys (M:=M) (Row:=Row)) : Prop :=
  exists a, let h := heap (s_mm s) in let t := s_table s in let T := last_sequence t in
    layout t (next_mem (s_mm s)) a /\ contents h (s_files s) a /\ seqs h a T (write_seq T (s_writer s)) /\
    acked_ok h (s_files s) a T (flushed_sequence (current_version t)) (s_acked s) /\
    writer_ok h a T (s_wal s) (s_writer s) /\ flusher_ok h (s_files s) a T (s_acked s) (s_flusher s).

(** ** What later states keep *)

(** Memtables are added and rows put into the active ones; frozen ones stay. *)
Record extends (h : store) (a : versionA) (h' : store) (a' : versionA) : Prop := {
  ex_files : va_files a' = va_files a;
  ex_live : forall x, live a x -> live a' x /\ forall e, e ∈ entries_of h x -> e ∈ entries_of h' x;
  ex_active : forall x, active a x -> active a' x;
  ex_frozen : forall x, frozen a x -> frozen a' x /\ (h' (mfw_memtable x)).1 = (h (mfw_memtable x)).1
}.
Definition more_files (F F' : files) : Prop := forall id rows, F !! id = Some rows -> F' !! id = Some rows.

Lemma covers_mono l l' e : (forall x, x ∈ l -> x ∈ l') -> covers l e -> covers l' e.
Proof. intros H (e' & He & Hs). exists e'. split; [by apply H|done]. Qed.

Lemma in_mem_ext h a h' a' e : extends h a h' a' -> in_mem h a e -> in_mem h' a' e.
Proof.
  intros Hx (x & Hl & Hc). apply (ex_live _ _ _ _ Hx) in Hl as [Hl He]. exists x. split; [done|].
  by eapply covers_mono.
Qed.

Lemma in_file_ext F a F' a' e : va_files a' = va_files a -> more_files F F' -> in_file F a e -> in_file F' a' e.
Proof. intros Ha Hf (id & f & rows & H1 & H2 & H3). exists id, f, rows. rewrite Ha. auto. Qed.

Lemma acked_ext h F a h' F' a' T fl A :
  extends h a h' a' -> more_files F F' -> acked_ok h F a T fl A -> acked_ok h' F' a' T fl A.
Proof.
  intros Hx Hf [HT HA]. split; [done|]. intros e He. destruct (HA e He) as (H1 & H2 & H3). pose proof (in_file_ext F a F' a' e (ex_files _ _ _ _ Hx) Hf) as Hin.
  split; [done|]. split; [destruct H2; [left; by eapply in_mem_ext|right; auto]|destruct H3; auto].
Qed.

Lemma frozen_same h a h' a' x :
  extends h a h' a' -> frozen a x -> entries_of h' x = entries_of h x /\ seq_of h' x = seq_of h x.
Proof.
  intros Hx Hf. apply (ex_frozen _ _ _ _ Hx) in Hf as [_ Hf].
  unfold entries_of, seq_of, last_sequence_of. by rewrite Hf.
Qed.

Lemma picked_ext h F a h' F' a' T T' T0 A f :
  extends h a h' a' -> more_files F F' -> T <= T' -> picked_ok h F a T T0 A f -> picked_ok h' F' a' T' T0 A f.
Proof.
  intros Hx Hf HT (H1 & H2 & H3). split; [lia|]. split.
  - intros x Hp. destruct (H2 x Hp) as [Hfr Hs]. destruct (frozen_same _ _ _ _ x Hx Hfr) as [_ ->].
    split; [by apply (ex_frozen _ _ _ _ Hx)|done].
  - intros e He. destruct (H3 e He) as [?|[?|(x & Hp & Hc)]]; [by left|right; left|right; right].
    + eapply in_file_ext; [apply Hx|exact Hf|done].
    + exists x. split; [done|]. destruct (H2 x Hp) as [Hfr _]. by destruct (frozen_same _ _ _ _ x Hx Hfr) as [-> _].
Qed.

Lemma pending_ext F a F' a' fs :
  va_files a' = va_files a -> more_files F F' -> pending_ok F a fs -> pending_ok F' a' fs.
Proof.
  intros Ha Hf [Hnd H]. split; [done|]. intros f Hin. destruct (H f Hin) as (H1 & rows & H2 & H3).
  rewrite Ha. split; [done|]. exists rows. auto.
Qed.

Lemma dump_ext h F a h' F' a' T T' A f todo fs fl :
  extends h a h' a' -> more_files F F' -> T <= T' -> dump_ok h F a T A f todo fs fl -> dump_ok h' F' a' T' A f todo fs fl.
Proof.
  intros Hx Hf HT (T0 & Hp & Hpend & Hfl & Htodo & Hd). exists T0.
  split; [by eapply picked_ext|]. split; [eapply pending_ext; [apply Hx|done|done]|]. split; [done|]. split; [done|].
  intros x Hpx. destruct (Hd x Hpx) as [Hdx|?]; [left|by right]. destruct Hp as (_ & H2 & _).
  destruct (H2 x Hpx) as [Hfr _]. destruct (frozen_same _ _ _ _ x Hx Hfr) as [He _]. unfold dumped. rewrite He.
  intros e Hin. destruct (Hdx e Hin) as (f' & rows & ? & ? & ?). exists f', rows. auto.
Qed.

Lemma flusher_ext h F a h' F' a' T T' A fl :
  extends h a h' a' -> more_files F F' -> T <= T' -> flusher_ok h F a T A fl -> flusher_ok h' F' a' T' A fl.
Proof.
  intros Hx Hf HT H. destruct fl as [| | | | | |f|f sm ms rs|f todo fs fl|f m todo fs fl]; cbn in *; try done.
  - destruct H as [T0 H]. exists T0. by eapply picked_ext.
  - destruct H as (T0 & H & ? & ?). exists T0. split; [by eapply picked_ext|done].
  - by eapply dump_ext.
  - destruct H as [H ?]. split; [by eapply dump_ext|done].
Qed.

Lemma extends_refl h a : extends h a h a.
Proof. by split. Qed.
Lemma more_files_refl F : more_files F F.
Proof. by intros id rows. Qed.

(** More versions are acknowledged, all newer. *)
Lemma flusher_more h F a T T' A done fl :
  T <= T' -> (forall e, e ∈ done -> T < e_seq e) -> flusher_ok h F a T A fl -> flusher_ok h F a T' (A ++ done) fl.
Proof.
  intros HT Hdone. assert (Hp : forall T0 f, picked_ok h F a T T0 A f -> picked_ok h F a T' T0 (A ++ done) f).
  { intros T0 f (H1 & H2 & H3). split; [lia|]. split; [done|]. intros e [He|He]%elem_of_app; [by apply H3|].
    left. specialize (Hdone e He). lia. }
  assert (Hd : forall f todo fs fl', dump_ok h F a T A f todo fs fl' -> dump_ok h F a T' (A ++ done) f todo fs fl').
  { intros f todo fs fl' (T0 & H1 & H2). exists T0. split; [by apply Hp|done]. }
  intros H. destruct fl as [| | | | | |f|f sm ms rs|f todo fs fl'|f m todo fs fl']; cbn in *; try done.
  - destruct H as [T0 H]. exists T0. by apply Hp.
  - destruct H as (T0 & H & ? & ?). exists T0. split; [by apply Hp|done].
  - by apply Hd.
  - destruct H as [H ?]. split; [by apply Hd|done].
Qed.

Context {ML : MemTableLaws M Row ME same_key}.

Lemma update_eq (h : store) a c : update h a c a = c.
Proof. unfold update. by destruct (decide (a = a)). Qed.
Lemma update_ne (h : store) a c b : b <> a -> update h a c b = h b.
Proof. unfold update. by destruct (decide (b = a)). Qed.

(** A cell of an active memtable is changed. *)
Lemma change_cell t next a (h : store) x c :
  layout t next a -> active a x ->
  (forall y, live a y -> y <> x -> update h (mfw_memtable x) c (mfw_memtable y) = h (mfw_memtable y)) /\
  (forall y, frozen a y -> y <> x).
Proof.
  intros Hl Hx. split.
  - intros y Hy Hne. apply update_ne. intros Heq. apply Hne. apply (ly_inj _ _ _ Hl); [done|by left|done].
  - intros y Hy ->. destruct x as [sm|s]; cbn in *; [destruct Hx, Hy; congruence|].
    pose proof (vi_disjoint _ _ (ly_version _ _ _ Hl)) as Hd. rewrite map_disjoint_spec in Hd. by apply (Hd (ms_id s) s s).
Qed.

Lemma live_dec (x y : MemTableForWrite) : x = y \/ x <> y.
Proof.
  destruct x as [[m i b]|s], y as [[m' i' b']|s']; try (right; congruence).
  - destruct (decide (m = m')), (decide (i = i')), (decide (b = b')); (left; congruence) || (right; congruence).
  - destruct (decide (s = s')); (left; congruence) || (right; congruence).
Qed.

(** [put] into an active memtable. *)
Lemma put_extends t next a mm x seq idx r mm' res :
  layout t next a -> active a x -> put row_timestamp mm x seq idx r = (mm', res) -> res <> Panic ->
  next_mem mm' = next_mem mm /\ extends (heap mm) a (heap mm') a /\
  (forall y, live a y -> seq_of (heap mm') y = seq_of (heap mm) y) /\
  (forall y e, live a y -> e ∈ entries_of (heap mm') y -> e ∈ entries_of (heap mm) y \/ y = x /\ e = MkEntry seq idx r) /\
  (res = Ok tt -> MkEntry seq idx r ∈ entries_of (heap mm') x).
Proof.
  intros Hl Hx Hput Hnp.
  assert (Hcase : (mm' = mm /\ res <> Ok tt) \/
    exists m' sa, mem_put (heap mm (mfw_memtable x)).1 seq idx r = Ok m' /\ mm' = set_cell mm (mfw_memtable x) (m', sa)).
  { unfold put in Hput. destruct (heap mm (mfw_memtable x)) as [m sa]. cbn [fst].
    destruct (mem_put m seq idx r) as [m'|e|] eqn:Hm.
    - right. destruct x as [sm|s]; [destruct (collect sa _) as [sa'|e|]|]; injection Hput as <- _; eauto.
    - left. injection Hput as <- <-. done.
    - left. injection Hput as <- <-. done. }
  destruct Hcase as [[-> Hne]|(m' & sa & Hm & ->)].
  { split; [done|]. split; [apply extends_refl|]. split; [done|]. split; [by auto|done]. }
  destruct (put_laws _ _ _ _ _ _ Hm) as (He & Hs & _). destruct (change_cell t next a (heap mm) x (m', sa) Hl Hx) as [Hoth Hfr].
  assert (Hent : forall y e, live a y -> e ∈ entries_of (heap (set_cell mm (mfw_memtable x) (m', sa))) y <->
                   e ∈ entries_of (heap mm) y \/ y = x /\ e = MkEntry seq idx r).
  { intros y e Hy. unfold entries_of. cbn [heap set_cell]. destruct (live_dec y x) as [->|Hne].
    - rewrite update_eq. cbn [fst]. rewrite He. naive_solver.
    - rewrite Hoth by done. split; [by left|]. by intros [?|[? _]]. }
  split; [done|]. split; [|split; [|split]].
  - split; [done| |done|].
    + intros y Hy. split; [done|]. intros e Hin. apply Hent; [done|by left].
    + intros y Hy. split; [done|]. cbn [heap set_cell]. rewrite Hoth; [done|by right|by apply Hfr].
  - intros y Hy. unfold seq_of, last_sequence_of. cbn [heap set_cell]. destruct (live_dec y x) as [->|Hne].
    + by rewrite update_eq.
    + by rewrite Hoth.
  - intros y e Hy Hin. by apply Hent.
  - intros _. apply Hent; [by left|]. by right.
Qed.

(** The update of the sequence of an active memtable. *)
Lemma update_sequence_extends t next a mm x seq mm' res :
  layout t next a -> active a x -> update_sequence mm x seq = (mm', res) -> seq_of (heap mm) x <= seq ->
  res = Ok tt /\ next_mem mm' = next_mem mm /\ extends (heap mm) a (heap mm') a /\
  (forall y, live a y -> seq_of (heap mm') y = seq_of (heap mm) y \/ y = x /\ seq_of (heap mm') y = seq) /\
  (forall y, live a y -> entries_of (heap mm') y = entries_of (heap mm) y).
Proof.
  intros Hl Hx Hup Hle. unfold update_sequence in Hup. unfold seq_of, last_sequence_of in Hle.
  destruct (heap mm (mfw_memtable x)) as [m sa] eqn:Hm. cbn [fst] in Hle. pose proof (set_laws same_key m seq) as Hset.
  destruct (mem_set_last_sequence m seq) as [m'|e|]; [|lia|done]. injection Hup as <- <-. destruct Hset as (_ & Hs & He & _).
  destruct (change_cell t next a (heap mm) x (m', sa) Hl Hx) as [Hoth Hfr].
  assert (Hent : forall y, live a y -> entries_of (heap (set_cell mm (mfw_memtable x) (m', sa))) y = entries_of (heap mm) y).
  { intros y Hy. unfold entries_of. cbn [heap set_cell]. destruct (live_dec y x) as [->|Hne].
    - rewrite update_eq, Hm. done.
    - by rewrite Hoth. }
  split; [done|]. split; [done|]. split; [split; [done| |done|]|split; [|done]].
  - intros y Hy. split; [done|]. by rewrite Hent.
  - intros y Hy. split; [done|]. cbn [heap set_cell]. rewrite Hoth; [done|by right|by apply Hfr].
  - intros y Hy. unfold seq_of, last_sequence_of. cbn [heap set_cell]. destruct (live_dec y x) as [->|Hne].
    + rewrite update_eq. by right.
    + rewrite Hoth by done. by left.
Qed.

Lemma bucket_contains {E} t0 d r :
  sint 64 t0 -> @TimeRange.bucket_of E t0 d = Ok (Some r) -> TimeRange.contains r t0 = true.
Proof.
  intros Ht Hb. destruct (Z_lt_le_dec d 0) as [Hd|Hd].
  - unfold TimeRange.bucket_of, Timestamp.millis_i64 in Hb. destruct (d <=? i64_max); [|done].
    by rewrite (proj2 (Z.leb_le d 0)) in Hb by lia.
  - by apply (bucket_of_some (E:=E) t0 d r).
Qed.

(** A memtable at a new address. *)
Lemma new_memtable t mm a a' x m t' :
  layout t (next_mem mm) a -> version_is (current_version t') a' -> last_memtable_id t' = last_memtable_id t + 1 ->
  mfw_memtable x = next_mem mm -> handle_id x = last_memtable_id t + 1 ->
  va_files a' = va_files a -> active a' x ->
  (forall y, active a y -> active a' y) -> (forall y, active a' y -> y = x \/ active a y) ->
  (forall y, frozen a' y <-> frozen a y) ->
  let mm' := (new_cell mm m).2 in
  layout t' (next_mem mm') a' /\ extends (heap mm) a (heap mm') a' /\
  (forall y, live a y -> heap mm' (mfw_memtable y) = heap mm (mfw_memtable y)) /\ (heap mm' (mfw_memtable x)).1 = m.
Proof.
  intros Hl Hv Hid Haddr Hx Hfiles Hact Hmono Hinv Hfr. cbn [new_cell snd].
  assert (Hlive : forall y, live a' y <-> y = x \/ live a y).
  { intros y. unfold live. rewrite Hfr. split; [intros [?%Hinv|?]; naive_solver|]. intros [->|[?|?]]; auto. }
  assert (Hcell : forall y, live a y -> update (heap mm) (next_mem mm) (m, sampler_default) (mfw_memtable y) = heap mm (mfw_memtable y)).
  { intros y Hy. apply update_ne. apply (ly_bound _ _ _ Hl) in Hy. lia. }
  split; [split|split; [split|]]; cbn [heap next_mem].
  - done.
  - intros y z [->|Hy]%Hlive [->|Hz]%Hlive Heq; [done| | |by apply (ly_inj _ _ _ Hl)].
    + apply (ly_bound _ _ _ Hl) in Hz. lia.
    + apply (ly_bound _ _ _ Hl) in Hy. lia.
  - intros y [->|Hy]%Hlive; [lia|]. apply (ly_bound _ _ _ Hl) in Hy. lia.
  - intros sm Hsm. assert (Hs : live a' (Sampling sm)).
    { unfold live. cbn. destruct (sm_freezed sm); auto. }
    pose proof (vi_mut _ _ Hv) as (_ & _ & Hkm). pose proof (vi_imm _ _ Hv) as (_ & _ & Hki).
    assert (Hno : forall s, live a' (Normal s) -> ms_id s <> sm_id sm).
    { intros s Hn Heq. apply Hlive in Hs as [Hsx|Hs], Hn as [Hnx|Hn]; [congruence| | |].
      - apply (ly_bound _ _ _ Hl) in Hn as [_ Hn]. rewrite <- Hsx in Hx. cbn in Hx, Hn. lia.
      - apply (ly_bound _ _ _ Hl) in Hs as [_ Hs]. rewrite <- Hnx in Hx. cbn in Hx, Hs. lia.
      - assert (Hsm' : va_sampling a = Some sm) by (destruct Hs as [[? _]|[? _]]; done).
        destruct (ly_sampling _ _ _ Hl sm Hsm') as [H1 H2]. destruct Hn as [Hn|Hn]; cbn in Hn; congruence. }
    split; apply eq_None_not_Some; intros [s Hs']; [specialize (Hkm _ _ Hs')|specialize (Hki _ _ Hs')]; apply (Hno s); try done.
    + left. cbn. by rewrite Hkm.
    + right. cbn. by rewrite Hki.
  - done.
  - intros y Hy. split; [apply Hlive; by right|]. intros e. unfold entries_of. cbn [heap]. by rewrite Hcell.
  - done.
  - intros y Hy. split; [by apply Hfr|]. cbn [heap]. rewrite Hcell; [done|by right].
  - split; [done|]. rewrite Haddr, update_eq. done.
Qed.

Lemma alloc_memtable_id_ok (t : TableData) id t1 :
  alloc_memtable_id (ME:=ME) t = Ok (id, t1) ->
  id = last_memtable_id t + 1 /\
  t1 = MkTableData (current_version t) (last_sequence t) (last_memtable_id t + 1) (schema_version t) (segment_duration t).
Proof.
  unfold alloc_memtable_id, u64_op. intros H. destruct (uintb 64 _) in H; [|done]. by injection H as <- <-.
Qed.

(** What [find_or_create_mutable] returns: an active memtable that accepts the
    timestamp, which was there or is new. *)
Definition found_ok (t : TableData) (mm : memory) (a : versionA) (t0 : Z) (x : MemTableForWrite) (t' : TableData) (mm' : memory) : Prop :=
  exists a', layout t' (next_mem mm') a' /\ extends (heap mm) a (heap mm') a' /\ active a' x /\
    accept_timestamp x t0 = true /\ last_sequence t' = last_sequence t /\
    flushed_sequence (current_version t') = flushed_sequence (current_version t) /\
    (forall y, frozen a' y -> frozen a y) /\
    (forall y, active a' y -> heap mm' (mfw_memtable y) = heap mm (mfw_memtable y) /\ active a y \/
       entries_of (heap mm') y = [] /\ seq_of (heap mm') y = last_sequence t).

Lemma find_found t mm a t0 x :
  layout t (next_mem mm) a -> inner_memtable_for_write (current_version t) t0 = Some x -> found_ok t mm a t0 x t mm.
Proof.
  intros Hl Hi. pose proof (ly_version _ _ _ Hl) as Hv. exists a.
  assert (active a x /\ accept_timestamp x t0 = true) as [Ha Hacc].
  { unfold inner_memtable_for_write in Hi. rewrite (vi_sampling _ _ Hv) in Hi.
    assert (Hmut : Normal <$> mutable_for_write (mutables (memtable_view (current_version t))) t0 = Some x ->
                   active a x /\ accept_timestamp x t0 = true).
    { intros Hm. destruct (mutable_for_write _ t0) as [s|] eqn:Hs; [|done]. injection Hm as <-. unfold mutable_for_write in Hs.
      destruct (bt_after Z.compare t0 _) as [|[k s'] l] eqn:Hb; [done|].
      destruct (TimeRange.contains (ms_time_range s') t0) eqn:Hc; [|done]. injection Hs as ->. split; [|done].
      pose proof (vi_mut _ _ Hv) as (Hsort & Hmap & _). apply (Hmap k s).
      apply (bt_after_iff Z.compare t0 _ (k, s) Hsort). rewrite Hb. by left. }
    destruct (va_sampling a) as [sm|] eqn:Hsm; [|by apply Hmut]. destruct (sm_freezed sm) eqn:Hfz; cbn in Hi; [by apply Hmut|].
    injection Hi as <-. done. }
  split; [done|]. split; [apply extends_refl|]. do 5 (split; [done|]). intros y Hy. by left.
Qed.

(** The shared end of the two cases of a new memtable. *)
Lemma find_new t mm a a' x t' t0 :
  layout t (next_mem mm) a -> version_is (current_version t') a' -> last_memtable_id t' = last_memtable_id t + 1 ->
  mfw_memtable x = next_mem mm -> handle_id x = last_memtable_id t + 1 ->
  va_files a' = va_files a -> active a' x ->
  (forall y, active a y -> active a' y) -> (forall y, active a' y -> y = x \/ active a y) ->
  (forall y, frozen a' y <-> frozen a y) ->
  accept_timestamp x t0 = true -> last_sequence t' = last_sequence t ->
  flushed_sequence (current_version t') = flushed_sequence (current_version t) ->
  found_ok t mm a t0 x t' (new_cell mm (mem_create (schema_version t) (last_sequence t))).2.
Proof.
  intros Hl Hv Hid Haddr Hx Hfiles Hact Hmono Hinv Hfr Hacc Hls Hfl.
  destruct (new_memtable t mm a a' x (mem_create (schema_version t) (last_sequence t)) t' Hl Hv Hid Haddr Hx Hfiles Hact Hmono Hinv Hfr)
    as (H1 & H2 & H3 & H4).
  exists a'. split; [exact H1|]. split; [exact H2|]. do 4 (split; [done|]). split; [intros y; apply Hfr|].
  intros y Hy. destruct (Hinv y Hy) as [->|Hya]; [right|left; split; [apply H3; by left|done]].
  destruct (create_laws same_key (schema_version t) (last_sequence t)) as (Hc1 & Hc2 & _).
  unfold entries_of, seq_of, last_sequence_of. by rewrite H4.
Qed.

Lemma fresh_handle t next a s id :
  layout t next a -> id = last_memtable_id t + 1 -> live a (Normal s) -> ms_id s <> id.
Proof. intros Hl -> Hn. apply (ly_bound _ _ _ Hl) in Hn as [_ Hn]. cbn in Hn. lia. Qed.

Lemma find_new_normal t mm a t0 range v t1 :
  layout t (next_mem mm) a -> TimeRange.contains range t0 = true ->
  t1 = MkTableData (current_version t) (last_sequence t) (last_memtable_id t + 1) (schema_version t) (segment_duration t) ->
  let s := MkMemState (next_mem mm) range (last_memtable_id t + 1) in
  @insert_mutable (WriteError (ME:=ME)) (current_version t) s = Ok v ->
  found_ok t mm a t0 (Normal s) (with_version t1 v) (new_cell mm (mem_create (schema_version t) (last_sequence t))).2.
Proof.
  intros Hl Hc -> s Hins. pose proof (ly_version _ _ _ Hl) as Hv.
  pose proof (vi_mut _ _ Hv) as (Hsort & Hmap & Hkm). pose proof (vi_imm _ _ Hv) as (_ & _ & Hki).
  assert (Hfresh : forall s', live a (Normal s') -> ms_id s' <> ms_id s) by (intros s'; by apply (fresh_handle t (next_mem mm))).
  destruct (version_is_step (heap mm) (E:=WriteError (ME:=ME)) _ _ (InsertMutable s)
    (MkVersionA (va_sampling a) (<[ms_id s := s]> (va_mut a)) (va_imm a) (va_files a)) Hv) as (v' & Hv' & Hva).
  { apply va_insert.
    - apply eq_None_not_Some. intros [s' Hs']. apply (Hfresh s'); [left; cbn; by rewrite (Hkm _ _ Hs')|by apply Hkm].
    - apply eq_None_not_Some. intros [s' Hs']. apply (Hfresh s'); [right; cbn; by rewrite (Hki _ _ Hs')|by apply Hki].
    - intros s' Hs' Heq. unfold insert_mutable in Hins.
      assert (Hg : bt_get Z.compare (TimeRange.exclusive_end (ms_time_range s)) (mutables (memtable_view (current_version t))) = Some s').
      { apply (bt_get_elem Z.compare); [done|]. apply Hmap. by rewrite Heq. }
      rewrite Hg in Hins. done. }
  cbn [version_step] in Hv'. rewrite Hins in Hv'. injection Hv' as <-.
  assert (Hfl : flushed_sequence v = flushed_sequence (current_version t)) by (unfold insert_mutable in Hins; inv_ok; done).
  eapply find_new; [exact Hl|exact Hva|done|done|done|done| | | |done|done|done|done].
  - cbn. by rewrite lookup_insert_eq.
  - intros [sm|s'] Hy; [done|]. cbn in *. rewrite lookup_insert_ne; [done|]. intros Heq. apply (Hfresh s'); [by left|done].
  - intros [sm|s'] Hy; cbn in *; [by right|]. apply lookup_insert_Some in Hy as [[_ <-]|[_ Hy]]; auto.
Qed.

Lemma find_new_sampling t mm a t0 v t1 :
  layout t (next_mem mm) a ->
  t1 = MkTableData (current_version t) (last_sequence t) (last_memtable_id t + 1) (schema_version t) (segment_duration t) ->
  let sm := sampling_new (next_mem mm) (last_memtable_id t + 1) in
  @set_sampling (WriteError (ME:=ME)) (current_version t) sm = Ok v ->
  found_ok t mm a t0 (Sampling sm) (with_version t1 v) (new_cell mm (mem_create (schema_version t) (last_sequence t))).2.
Proof.
  intros Hl -> sm Hset. pose proof (ly_version _ _ _ Hl) as Hv.
  assert (Hnone : va_sampling a = None).
  { unfold set_sampling in Hset. rewrite (vi_sampling _ _ Hv) in Hset. by destruct (va_sampling a). }
  destruct (version_is_step (heap mm) (E:=WriteError (ME:=ME)) _ _ (SetSampling sm) _ Hv (va_sample a sm Hnone)) as (v' & Hv' & Hva).
  cbn [version_step] in Hv'. rewrite Hset in Hv'. injection Hv' as <-.
  assert (Hfl : flushed_sequence v = flushed_sequence (current_version t)) by (unfold set_sampling in Hset; inv_ok; done).
  eapply find_new; [exact Hl|exact Hva|done|done|done|done|done| | | |done|done|done].
  - intros [sm'|s'] Hy; [|done]. destruct Hy as [Hy _]. congruence.
  - intros [sm'|s'] Hy; [|by right]. destruct Hy as [[= <-] _]. by left.
  - intros [sm'|s']; [|done]. cbn. rewrite Hnone. split; [intros [[= <-] Hf]; done|by intros [? _]].
Qed.

Lemma find_spec t mm a t0 x t' mm' :
  layout t (next_mem mm) a -> sint 64 t0 -> find_or_create_mutable t mm t0 = Ok (x, t', mm') -> found_ok t mm a t0 x t' mm'.
Proof.
  intros Hl Hts Hfind. unfold find_or_create_mutable in Hfind.
  apply rbind_ok in Hfind as (found & Hf & Hfind). apply rcontext_ok in Hf.
  destruct found as [mem|].
  { injection Hfind as <- <- <-. unfold memtable_for_write in Hf.
    destruct (inner_memtable_for_write (current_version t) t0) as [mem'|] eqn:Hi; [|done]. inv_ok. by apply find_found. }
  cbn [new_cell] in Hfind. destruct (segment_duration t) as [d|] eqn:Hd.
  - apply rbind_ok in Hfind as (o & Hb & Hfind). destruct o as [range|]; [|done].
    apply rbind_ok in Hfind as ([id t1] & Halloc & Hfind). apply alloc_memtable_id_ok in Halloc as [-> ->].
    apply rbind_ok in Hfind as (v & Hins & Hfind). injection Hfind as <- <- <-.
    apply find_new_normal; [done|by apply (bucket_contains (E:=WriteError (ME:=ME)) t0 d)|done|done].
  - apply rbind_ok in Hfind as ([id t1] & Halloc & Hfind). apply alloc_memtable_id_ok in Halloc as [-> ->].
    apply rbind_ok in Hfind as (v & Hins & Hfind). injection Hfind as <- <- <-. by apply find_new_sampling.
Qed.

(** ** The steps of a write *)

Context (is_expired : Z -> bool) (Hts : forall r, sint 64 (row_timestamp r)).

Lemma batch_ext h a h' a' seq w done : extends h a h' a' -> batch_ok h a seq w done -> batch_ok h' a' seq w done.
Proof.
  intros Hx (H1 & H2 & H3). split; [intros x Hin; by apply (ex_active _ _ _ _ Hx), H1|]. split; [done|].
  intros e He. destruct (H3 e He) as (Hs & x & Ha & Hin). split; [done|]. exists x.
  split; [by apply (ex_active _ _ _ _ Hx)|]. apply (ex_live _ _ _ _ Hx); [by left|done].
Qed.

Lemma inv_find mm t F wal f A seq r rows idx w done w' t' mm' :
  inv (MkSys mm t F wal (WRows seq (r :: rows) idx w done) f A) ->
  find_for_row t mm w (row_timestamp r) = Ok (w', t', mm') ->
  inv (MkSys mm' t' F wal (WPut seq r rows idx w' done) f A).
Proof.
  intros (a & Hl & Hc & [Hs1 Hs2] & HA & [Hwal [Hseq Hb]] & Hf) Hfind.
  cbn [s_mm s_table s_files s_wal s_writer s_flusher s_acked write_seq] in *. unfold find_for_row in Hfind.
  destruct (needs_memtable w (row_timestamp r)) eqn:Hn.
  - apply rbind_ok in Hfind as ([[x t1] mm1] & Hfind & Heq). injection Heq as <- <- <-.
    destruct (find_spec t mm a _ x t1 mm1 Hl (Hts r) Hfind) as (a' & Hl' & Hx & Hact & Hacc & Hls & Hfl & Hfr & Hnew).
    exists a'. cbn [s_mm s_table s_files s_wal s_writer s_flusher s_acked write_seq]. rewrite Hls, Hfl. split; [done|]. split; [|split; [|split; [|split]]].
    + split.
      * intros s e Hlive He. destruct Hlive as [Hy|Hy].
        -- destruct (Hnew (Normal s) Hy) as [[Hcell Hya]|[Hnil _]]; [|rewrite Hnil in He; by apply elem_of_nil in He].
           apply (ct_times _ _ _ Hc s e); [by left|]. unfold entries_of in *. by rewrite <- Hcell.
        -- apply Hfr in Hy. apply (ct_times _ _ _ Hc s e); [by right|]. by destruct (frozen_same _ _ _ _ (Normal s) Hx Hy) as [<- _].
      * intros id fl. rewrite (ex_files _ _ _ _ Hx). apply (ct_files _ _ _ Hc).
    + split.
      * intros y Hy. apply Hfr in Hy. destruct (frozen_same _ _ _ _ y Hx Hy) as [_ ->]. by apply Hs1.
      * intros y Hy. destruct (Hnew y Hy) as [[Hcell Hya]|[_ ->]]; [|lia]. unfold seq_of, last_sequence_of.
        rewrite Hcell. by apply Hs2.
    + by eapply acked_ext; [|apply more_files_refl|].
    + split; [done|]. split; [done|]. split; [|by exists x]. destruct (batch_ext _ _ _ _ _ _ _ Hx Hb) as (H1 & H2 & H3).
      split; [|split; [|done]]; cbn.
      * intros y [Hy|Hy%list_elem_of_singleton]%elem_of_app; [by apply H1|by subst y].
      * intros y [= <-]. apply elem_of_app. right. by left.
    + by eapply flusher_ext; [|apply more_files_refl| |].
  - injection Hfind as <- <- <-. exists a. split; [done|]. split; [done|]. split; [by split|]. split; [done|]. split; [|done].
    split; [done|]. split; [done|]. split; [done|]. unfold needs_memtable in Hn.
    destruct (last_mutable_mem w) as [x|] eqn:Hlast; [|done]. exists x. split; [done|]. by apply negb_false_iff.
Qed.

Lemma inv_put mm t F wal f A seq r rows idx w done mm' res :
  inv (MkSys mm t F wal (WPut seq r rows idx w done) f A) ->
  put_row row_timestamp mm w seq idx r = (mm', res) -> res <> Panic ->
  inv (MkSys mm' t F wal WIdle f A) /\
  (res = Ok tt -> inv (MkSys mm' t F wal (WRows seq rows (idx + 1) w (done ++ [MkEntry seq idx r])) f A)).
Proof.
  intros (a & Hl & Hc & [Hs1 Hs2] & HA & [Hwal (Hseq & Hb & (x & Hlast & Hacc))] & Hf) Hput Hnp.
  cbn [s_mm s_table s_files s_wal s_writer s_flusher s_acked write_seq] in *.
  unfold put_row in Hput. rewrite Hlast in Hput. destruct Hb as (Hb1 & Hb2 & Hb3).
  assert (Hact : active a x) by by apply Hb1, Hb2.
  destruct (put_extends t _ a mm x seq idx r mm' res Hl Hact Hput Hnp) as (Hnext & Hx & Hsq & Hnew & Hin).
  assert (Hc' : contents (heap mm') F a).
  { split; [|apply (ct_files _ _ _ Hc)]. intros s e Hlive He.
    destruct (Hnew (Normal s) e Hlive He) as [He'|[Heq ->]]; [by apply (ct_times _ _ _ Hc)|].
    rewrite <- Heq in Hacc. exact Hacc. }
  assert (Hs' : seqs (heap mm') a (last_sequence t) (last_sequence t)).
  { split; intros y Hy; rewrite Hsq by ((by left) || by right); [by apply Hs1|by apply Hs2]. }
  assert (HA' := acked_ext _ _ _ _ _ _ _ _ _ Hx (more_files_refl F) HA).
  assert (Hf' : flusher_ok (heap mm') F a (last_sequence t) A f).
  { eapply flusher_ext; [exact Hx|apply more_files_refl| |exact Hf]. lia. }
  split.
  - exists a. cbn [s_mm s_table s_files s_wal s_writer s_flusher s_acked write_seq]. rewrite Hnext. by split_and!.
  - intros Hok. exists a. cbn [s_mm s_table s_files s_wal s_writer s_flusher s_acked write_seq]. rewrite Hnext.
    do 4 (split; [done|]). split; [|done]. split; [done|]. split; [done|].
    destruct (batch_ext _ _ _ _ _ _ _ Hx (conj Hb1 (conj Hb2 Hb3))) as (H1 & H2 & H3).
    split; [done|]. split; [done|]. intros e [He|He%list_elem_of_singleton]%elem_of_app; [by apply H3|].
    subst e. split; [done|]. exists x. split; [done|by apply Hin].
Qed.

Lemma inv_seq mm t F wal f A seq mem mems done mm' res :
  inv (MkSys mm t F wal (WSeq seq (mem :: mems) done) f A) -> update_sequence mm mem seq = (mm', res) ->
  res = Ok tt /\ inv (MkSys mm' t F wal (WSeq seq mems done) f A).
Proof.
  intros (a & Hl & Hc & [Hs1 Hs2] & HA & [Hwal (Hseq & Hmems & Hdone)] & Hf) Hup.
  cbn [s_mm s_table s_files s_wal s_writer s_flusher s_acked write_seq] in *.
  assert (Hact : active a mem) by (apply Hmems; by left).
  destruct (update_sequence_extends t _ a mm mem seq mm' res Hl Hact Hup (Hs2 _ Hact)) as (Hok & Hnext & Hx & Hsq & Hent).
  split; [done|]. exists a. cbn [s_mm s_table s_files s_wal s_writer s_flusher s_acked write_seq]. rewrite Hnext.
  split; [done|]. split; [|split; [|split; [|split]]].
  - split; [|apply (ct_files _ _ _ Hc)]. intros s e Hlive He. rewrite Hent in He by done. by apply (ct_times _ _ _ Hc).
  - split; intros y Hy.
    + destruct (frozen_same _ _ _ _ y Hx Hy) as [_ ->]. by apply Hs1.
    + destruct (Hsq y ltac:(by left)) as [->|[_ ->]]; [by apply Hs2|lia].
  - by eapply acked_ext; [|apply more_files_refl|].
  - split_and!; try done; try lia.
    + intros y Hy. apply Hmems. by right.
    + intros e He. destruct (Hdone e He) as (He' & y & Hy & Hin). split; [done|]. exists y. split; [done|].
      rewrite Hent; [done|by left].
  - eapply flusher_ext; [exact Hx|apply more_files_refl| |exact Hf]. lia.
Qed.

Context (Hrefl : forall r, same_key r r).

Lemma inv_done mm t F wal f A seq done :
  inv (MkSys mm t F wal (WSeq seq [] done) f A) -> inv (MkSys mm (set_last_sequence t seq) F wal WIdle f (A ++ done)).
Proof.
  intros (a & Hl & Hc & [Hs1 Hs2] & HA & [Hwal (Hseq & _ & Hdone)] & Hf).
  cbn [s_mm s_table s_files s_wal s_writer s_flusher s_acked write_seq] in *. exists a.
  cbn [s_mm s_table s_files s_wal s_writer s_flusher s_acked write_seq set_last_sequence last_sequence current_version].
  split; [by destruct Hl; split|]. split; [done|]. split; [|split; [|split]].
  - split; [|done]. intros y Hy. specialize (Hs1 y Hy). lia.
  - destruct HA as [HT HA]. split; [lia|]. intros e [He|He]%elem_of_app.
    + destruct (HA e He) as (H1 & H2 & H3). split; [lia|done].
    + destruct (Hdone e He) as (Hes & x & Hx & Hin). split; [lia|]. split.
      * left. exists x. split; [by left|]. exists e. split; [done|]. split; [done|]. right. split; [done|lia].
      * right. lia.
  - split; [lia|done].
  - apply (flusher_more _ _ _ (last_sequence t)); [lia| |exact Hf]. intros e He. destruct (Hdone e He) as [-> _]. lia.
Qed.

Lemma inv_wstep s s' : inv s -> wstep row_timestamp is_expired s s' -> inv s'.
Proof.
  intros Hinv Hstep. destruct Hstep as
    [mm t F wal f A rows|mm t F wal f A seq r rows idx w done He|mm t F wal f A seq r rows idx w done w' t' mm' He Hfind
    |mm t F wal f A seq r rows idx w done e He Hfind|mm t F wal f A seq r rows idx w done mm' Hput
    |mm t F wal f A seq r rows idx w done mm' e Hput|mm t F wal f A seq idx w done
    |mm t F wal f A seq mem mems done mm' Hup|mm t F wal f A seq mem mems done mm' e Hup|mm t F wal f A seq done].
  - destruct Hinv as (a & Hl & Hc & Hs & HA & [Hwal _] & Hf). exists a. cbn in *.
    do 4 (split; [done|]). split; [|done]. split; [lia|]. split; [lia|].
    split; [by intros ? ?%elem_of_nil|]. split; [done|by intros ? ?%elem_of_nil].
  - destruct Hinv as (a & H). by exists a.
  - by eapply inv_find.
  - destruct Hinv as (a & Hl & Hc & Hs & HA & [Hwal _] & Hf). by exists a.
  - by apply (inv_put _ _ _ _ _ _ _ _ _ _ _ _ _ _ Hinv Hput).
  - by apply (inv_put _ _ _ _ _ _ _ _ _ _ _ _ _ _ Hinv Hput).
  - destruct Hinv as (a & Hl & Hc & Hs & HA & [Hwal [Hseq (H1 & H2 & H3)]] & Hf). exists a. cbn in *.
    split; [done|]. split; [done|]. split; [|by split_and!]. destruct Hs as [Hs1 Hs2]. split; [done|].
    intros y Hy. specialize (Hs2 y Hy). lia.
  - by apply (inv_seq _ _ _ _ _ _ _ _ _ _ _ _ Hinv Hup).
  - by destruct (inv_seq _ _ _ _ _ _ _ _ _ _ _ _ Hinv Hup).
  - by apply inv_done.
Qed.

(** ** The steps of a flush *)

Context (Htrans : forall r1 r2 r3, same_key r1 r2 -> same_key r2 r3 -> same_key r1 r3).
Context (sst_size sst_row_num : list (entry Row) -> Z) (sst_format : StorageFormat).

Lemma covers_trans l e e' : covers l e' -> supersedes same_key e' e -> covers l e.
Proof.
  intros (e'' & Hin & Hk & Ho) [Hk' Ho']. exists e''. split; [done|]. split; [by eapply Htrans|lia].
Qed.

Lemma covers_all l l' e : (forall x, x ∈ l -> covers l' x) -> covers l e -> covers l' e.
Proof. intros H (e' & Hin & Hs). eapply covers_trans; [by apply H|done]. Qed.

Lemma fresh_file h F a id : contents h F a -> F !! id = None -> va_files a !! id = None.
Proof.
  intros Hc Hid. destruct (va_files a !! id) as [f|] eqn:Hf; [|done].
  destruct (ct_files _ _ _ Hc id f Hf) as (rows & Hr & _). congruence.
Qed.

(** A dumped memtable and its file join the pending ones. *)
Lemma dump_one h F a T A f m todo fs flushed id meta rows :
  contents h F a -> dump_ok h F a T A f (m :: todo) fs flushed -> F !! id = None ->
  meta = new_file sst_size sst_row_num sst_format id (ms_time_range m) (seq_of h (Normal m)) rows ->
  rows = mem_scan (h (ms_mem m)).1 ->
  dump_ok h (<[id := rows]> F) a T A f todo (fs ++ [meta]) flushed /\ m ∈ fl_memtables f.
Proof.
  intros Hc (T0 & Hp & [Hnd Hpend] & Hfl & Htodo & Hd) Hid Hmeta Hrows.
  assert (Hm : m ∈ fl_memtables f) by (apply Htodo; by left). split; [|done].
  assert (Hmore : more_files F (<[id := rows]> F)).
  { intros id' rows' H. rewrite lookup_insert_ne; [done|]. intros ->. congruence. }
  assert (Hlive : live a (Normal m)) by (right; by apply (proj1 (proj2 Hp) (Normal m))).
  assert (Hfid : fm_id meta = id) by by subst meta.
  exists T0. split; [eapply picked_ext; [apply extends_refl|exact Hmore| |exact Hp]; lia|]. split; [|split; [done|split]].
  - split.
    + rewrite fmap_app. apply NoDup_app. split; [done|]. split; [|apply NoDup_singleton].
      intros i (g & -> & Hg)%list_elem_of_fmap Hi%list_elem_of_singleton. destruct (Hpend g Hg) as (_ & r & Hr & _).
      congruence.
    + intros g [Hg|Hg%list_elem_of_singleton]%elem_of_app; [|subst g].
      * destruct (Hpend g Hg) as (H1 & r & H2 & H3). split; [done|]. exists r. split; [by apply Hmore|done].
      * rewrite Hfid. split; [by eapply fresh_file|]. exists rows. split; [by rewrite lookup_insert_eq|].
        intros e He. subst rows meta. cbn. apply (ct_times _ _ _ Hc m e Hlive). by apply (scan_sound same_key).
  - intros s Hs. apply Htodo. by right.
  - intros x Hx. destruct (Hd x Hx) as [Hdx|(s & [->|Hs]%elem_of_cons & ->)].
    + left. intros e He. destruct (Hdx e He) as (g & r & Hg & Hr & Hcov). exists g, r.
      split; [apply elem_of_app; by left|]. split; [by apply Hmore|done].
    + left. intros e He. exists meta, rows. split; [apply elem_of_app; right; by left|].
      rewrite Hfid, lookup_insert_eq. split; [done|]. subst rows. by apply (scan_covers same_key).
    + right. by exists s.
Qed.

Lemma scan_nil (m : M) : mem_scan m = [] -> mem_entries m = [].
Proof.
  intros Hs. destruct (mem_entries m) as [|e l] eqn:He; [done|]. exfalso.
  destruct (scan_covers same_key m e) as (e' & Hin & _); [rewrite He; by left|]. rewrite Hs in Hin. by apply elem_of_nil in Hin.
Qed.

Lemma dump_none h F a T A f m todo fs flushed :
  dump_ok h F a T A f (m :: todo) fs flushed -> mem_scan (h (ms_mem m)).1 = [] -> dump_ok h F a T A f todo fs flushed.
Proof.
  intros (T0 & Hp & Hpend & Hfl & Htodo & Hd) Hnil. exists T0. do 3 (split; [done|]).
  split; [intros s Hs; apply Htodo; by right|]. intros x Hx. destruct (Hd x Hx) as [?|(s & [->|Hs]%elem_of_cons & ->)]; [by left| |].
  - left. intros e He. unfold entries_of in He. cbn in He. rewrite (scan_nil _ Hnil) in He. by apply elem_of_nil in He.
  - right. by exists s.
Qed.

(** *** The files of a sampling memtable *)

Lemma range_of_spec rs t0 i : range_of rs t0 = Some i -> exists r, rs !! i = Some r /\ TimeRange.contains r t0 = true.
Proof.
  revert i. induction rs as [|r rs IH]; intros i H; [done|]. cbn in H. destruct (TimeRange.contains r t0) eqn:Hc.
  - injection H as <-. by exists r.
  - destruct (range_of rs t0) as [j|]; [|done]. injection H as <-. by apply IH.
Qed.

Definition split_inv (rs : list TimeRange.t) (rows : list (entry Row)) (parts : list (list (entry Row))) : Prop :=
  length parts = length rs /\
  (forall e, e ∈ rows -> exists i part, parts !! i = Some part /\ e ∈ part) /\
  (forall i part r e, parts !! i = Some part -> rs !! i = Some r -> e ∈ part ->
     e ∈ rows /\ TimeRange.contains r (ts e) = true).

Lemma split_row_inv rs rows parts e parts' :
  split_inv rs rows parts -> split_row row_timestamp rs parts e = Ok parts' -> split_inv rs (rows ++ [e]) parts'.
Proof.
  intros (Hlen & Hall & Hpart) Hs. unfold split_row in Hs.
  destruct (range_of rs (ts e)) as [i|] eqn:Hr; [|done]. cbn in Hs. apply range_of_spec in Hr as (r & Hri & Hc).
  destruct (parts !! i) as [part|] eqn:Hp; [|done]. cbn in Hs. injection Hs as <-.
  assert (Hi : (i < length parts)%nat) by by eapply lookup_lt_Some. split; [by rewrite length_insert|]. split.
  - intros e' [He|He%list_elem_of_singleton]%elem_of_app; [|subst e'].
    + destruct (Hall e' He) as (j & part' & Hj & Hin). destruct (decide (j = i)) as [->|Hne].
      * exists i, (part ++ [e]). split; [by apply list_lookup_insert_eq|]. apply elem_of_app. left. congruence.
      * exists j, part'. split; [by rewrite list_lookup_insert_ne|done].
    + exists i, (part ++ [e]). split; [by apply list_lookup_insert_eq|]. apply elem_of_app. right. by left.
  - intros j part' r' e' Hj Hr' Hin. destruct (decide (j = i)) as [->|Hne].
    + rewrite list_lookup_insert_eq in Hj by done. injection Hj as <-. rewrite Hri in Hr'. injection Hr' as <-.
      apply elem_of_app in Hin as [Hin|Hin%list_elem_of_singleton]; [|subst e'].
      * destruct (Hpart i part r e' Hp Hri Hin). split; [apply elem_of_app; by left|done].
      * split; [apply elem_of_app; right; by left|done].
    + rewrite list_lookup_insert_ne in Hj by done. destruct (Hpart j part' r' e' Hj Hr' Hin).
      split; [apply elem_of_app; by left|done].
Qed.

Lemma split_all rs todo : forall rows parts parts',
  split_inv rs rows parts -> rfold (split_row row_timestamp rs) todo parts = Ok parts' -> split_inv rs (rows ++ todo) parts'.
Proof.
  induction todo as [|e todo IH]; intros rows parts parts' Hinv H; cbn [rfold] in H.
  - injection H as <-. by rewrite app_nil_r.
  - apply rbind_ok in H as (p & Hp & H). rewrite (cons_middle e rows todo), app_assoc. eapply IH; [|exact H].
    by eapply split_row_inv.
Qed.

Lemma split_spec rs rows parts :
  split_record_batch_with_time_ranges row_timestamp rs rows = Ok parts -> split_inv rs rows parts.
Proof.
  intros H. apply (split_all rs rows [] (replicate (length rs) [])); [|done]. split; [by rewrite length_replicate|].
  split; [by intros e ?%elem_of_nil|]. intros i part r e Hp _ Hin. apply lookup_replicate in Hp as [-> _]. by apply elem_of_nil in Hin.
Qed.

Lemma sampling_files ids rs parts max_seq :
  length ids = length rs -> length parts = length rs ->
  let fs := zip_with (fun idr part => (new_file sst_size sst_row_num sst_format idr.1 idr.2 max_seq part, part)) (zip ids rs) parts in
  (fun f => fm_id f.1) <$> fs = ids /\
  (forall f, f ∈ fs -> exists i r, rs !! i = Some r /\ parts !! i = Some f.2 /\ fm_time_range f.1 = r) /\
  (forall i part, parts !! i = Some part -> exists f, f ∈ fs /\ f.2 = part).
Proof.
  intros Hl1 Hl2 fs. split; [|split].
  - subst fs. revert rs parts Hl1 Hl2. induction ids as [|id ids IH]; intros [|r rs] [|p parts] Hl1 Hl2; try done.
    cbn. f_equal. apply IH; cbn in *; lia.
  - intros f Hf. apply list_elem_of_lookup in Hf as [i Hi]. apply lookup_zip_with_Some in Hi as ([id r] & part & -> & Hz & Hp).
    apply lookup_zip_with_Some in Hz as (id' & r' & [= -> ->] & _ & Hr). by exists i, r'.
  - intros i part Hp. assert (Hi : (i < length parts)%nat) by by eapply lookup_lt_Some.
    destruct (lookup_lt_is_Some_2 ids i) as [id Hid]; [lia|]. destruct (lookup_lt_is_Some_2 rs i) as [r Hr]; [lia|].
    eexists (new_file sst_size sst_row_num sst_format id r max_seq part, part). split; [|done].
    apply list_elem_of_lookup. exists i. apply lookup_zip_with_Some. exists (id, r), part. split; [done|]. split; [|done].
    apply lookup_zip_with_Some. by exists id, r.
Qed.

Lemma store_files_lookup (F : files) fs :
  NoDup ((fun f => fm_id f.1) <$> fs) -> Forall (fun id => F !! id = None) ((fun f => fm_id f.1) <$> fs) ->
  more_files F (store_files F fs) /\ forall f, f ∈ fs -> store_files F fs !! fm_id f.1 = Some f.2.
Proof.
  intros Hnd Hfresh. unfold store_files. rewrite (foldl_insert_map (fun f => fm_id f.1) (fun f => f.2)) by done. split.
  - intros id rows Hr. apply lookup_union_Some_raw. right. split; [|done].
    apply not_elem_of_list_to_map_1. rewrite <- list_fmap_compose. intros Hin. rewrite Forall_forall in Hfresh.
    rewrite (Hfresh id Hin) in Hr. done.
  - intros f Hf. apply lookup_union_Some_raw. left. apply elem_of_list_to_map_1; [by rewrite <- list_fmap_compose|].
    apply list_elem_of_fmap. by exists f.
Qed.

Lemma dump_sampling_ok mm F a T A f sm max_seq rs ids fs T0 :
  contents (heap mm) F a -> picked_ok (heap mm) F a T T0 A f -> fl_sampling_mem f = Some sm -> max_seq <= T0 ->
  length ids = length rs -> fresh_ids F ids ->
  dump_sampling_memtable row_timestamp sst_size sst_row_num sst_format mm sm max_seq rs ids = Ok fs ->
  more_files F (store_files F fs) /\ dump_ok (heap mm) (store_files F fs) a T A f (fl_memtables f) fs.*1 max_seq.
Proof.
  intros Hc Hp Hsm Hmax Hlen [Hnd Hfresh] Hdump. unfold dump_sampling_memtable in Hdump.
  apply rbind_ok in Hdump as (parts & Hsplit & Heq). injection Heq as Hfs. apply split_spec in Hsplit as (Hpl & Hall & Hpart).
  destruct (sampling_files ids rs parts max_seq Hlen Hpl) as (Hids & Hf1 & Hf2). rewrite Hfs in Hids, Hf1, Hf2.
  rewrite <- Hids in Hnd, Hfresh. destruct (store_files_lookup F fs Hnd Hfresh) as [Hmore Hlook]. split; [done|].
  exists T0. split; [eapply picked_ext; [apply extends_refl|exact Hmore| |exact Hp]; lia|]. split; [|split; [done|split; [done|]]].
  - split; [by rewrite <- list_fmap_compose|]. intros g (f' & -> & Hin)%list_elem_of_fmap. split.
    + eapply fresh_file; [exact Hc|]. rewrite Forall_forall in Hfresh. apply Hfresh, list_elem_of_fmap. by exists f'.
    + exists f'.2. split; [by apply Hlook|]. intros e He. destruct (Hf1 f' Hin) as (i & r & Hr & Hpi & ->).
      by apply (Hpart i f'.2 r e).
  - intros [sm'|s] Hx; [|right; by exists s]. left. cbn in Hx. rewrite Hsm in Hx. injection Hx as <-.
    intros e He. destruct (scan_covers same_key _ e He) as (e' & Hin & Hsup).
    destruct (Hall e' Hin) as (i & part & Hi & He'). destruct (Hf2 i part Hi) as (f' & Hf' & <-).
    exists f'.1, f'.2. split; [by apply list_elem_of_fmap_2|]. split; [by apply Hlook|]. by exists e'.
Qed.

(** *** The end of a flush *)

Lemma remove_mem_keeps ids : forall sm imm,
  let r := foldl remove_mem (sm, imm) ids in
  (r.1 = None \/ r.1 = sm) /\ r.2 ⊆ imm /\
  (forall s, sm = Some s -> sm_id s ∉ ids -> r.1 = sm) /\
  (forall id s, imm !! id = Some s -> id ∉ ids -> r.2 !! id = Some s).
Proof.
  induction ids as [|id ids IH]; intros sm imm; cbn [foldl]; [by auto|].
  assert (Hcase : exists sm' imm', remove_mem (sm, imm) id = (sm', imm') /\ (sm' = None \/ sm' = sm) /\ imm' ⊆ imm /\
    (forall s, sm = Some s -> sm_id s <> id -> sm' = sm) /\ (forall i s, imm !! i = Some s -> i <> id -> imm' !! i = Some s)).
  { unfold remove_mem. cbn [fst snd]. assert (Hd : forall i s, imm !! i = Some s -> i <> id -> delete id imm !! i = Some s).
    { intros i s Hs Hne. by rewrite lookup_delete_ne. }
    pose proof (delete_subseteq imm id) as Hsub.
    destruct sm as [s0|]; [destruct (sm_id s0 =? id) eqn:He|].
    - exists None, imm. split_and!; auto. intros s [= <-]. lia.
    - exists (Some s0), (delete id imm). split_and!; auto.
    - exists None, (delete id imm). split_and!; auto. }
  destruct Hcase as (sm' & imm' & -> & H1 & H2 & H3 & H4). destruct (IH sm' imm') as (I1 & I2 & I3 & I4). split_and!.
  - destruct I1 as [?|I1]; [by left|]. rewrite I1. destruct H1; auto.
  - by etrans.
  - intros s Hs Hn. apply not_elem_of_cons in Hn as [Hn1 Hn2]. specialize (H3 s Hs Hn1). rewrite <- H3. apply (I3 s); [congruence|done].
  - intros i s Hs Hn. apply not_elem_of_cons in Hn as [Hn1 Hn2]. by apply I4; [apply H4|].
Qed.

Lemma picked_ids f x : picked_by f x -> handle_id x ∈ flushable_ids f.
Proof.
  unfold flushable_ids. destruct x as [sm|s]; cbn; intros Hp; apply elem_of_app.
  - left. rewrite Hp. by left.
  - right. by apply list_elem_of_fmap_2.
Qed.

Lemma ids_picked f id : id ∈ flushable_ids f -> exists x, picked_by f x /\ handle_id x = id.
Proof.
  unfold flushable_ids. intros [Hi|Hi]%elem_of_app.
  - destruct (fl_sampling_mem f) as [sm|] eqn:Hs; [|by apply elem_of_nil in Hi]. apply list_elem_of_singleton in Hi as ->.
    by exists (Sampling sm).
  - apply list_elem_of_fmap in Hi as (s & -> & Hs). by exists (Normal s).
Qed.

(** Live memtables with the same id are the same. *)
Lemma same_id t next a x y : layout t next a -> live a x -> live a y -> handle_id x = handle_id y -> x = y.
Proof.
  intros Hl Hx Hy Heq. pose proof (vi_disjoint _ _ (ly_version _ _ _ Hl)) as Hd. rewrite map_disjoint_spec in Hd.
  assert (Hmix : forall sm s, live a (Sampling sm) -> live a (Normal s) -> sm_id sm <> ms_id s).
  { intros sm s Hs Hn He. assert (Hsm : va_sampling a = Some sm) by (destruct Hs as [[? _]|[? _]]; done).
    destruct (ly_sampling _ _ _ Hl sm Hsm) as [H1 H2]. rewrite He in H1, H2. destruct Hn as [Hn|Hn]; cbn in Hn; congruence. }
  destruct x as [sm|s], y as [sm'|s']; cbn in Heq.
  - destruct Hx as [[Hx _]|[Hx _]], Hy as [[Hy _]|[Hy _]]; congruence.
  - by destruct (Hmix sm s').
  - by destruct (Hmix sm' s).
  - destruct Hx as [Hx|Hx], Hy as [Hy|Hy]; cbn in Hx, Hy; rewrite Heq in Hx; try congruence; exfalso; by eapply Hd.
Qed.

(** What the edit of a flush does to the version. *)
Lemma commit_version t next F a f fs flushed v :
  layout t next a -> pending_ok F a fs ->
  @apply_edit unit (current_version t) (flush_edit f flushed fs) = Ok v ->
  exists a', version_is v a' /\ flushed_sequence v = Z.max (flushed_sequence (current_version t)) flushed /\
    va_mut a' = va_mut a /\ (va_sampling a' = None \/ va_sampling a' = va_sampling a) /\ va_imm a' ⊆ va_imm a /\
    (forall x, live a x -> handle_id x ∉ flushable_ids f -> live a' x) /\
    (forall id g, va_files a' !! id = Some g <->
       va_files a !! id = Some g \/ exists m, m ∈ fs /\ fm_id m = id /\ g = MkAddFile 0 m).
Proof.
  intros Hl [Hnd Hpend] Hv. pose proof (ly_version _ _ _ Hl) as Hva.
  pose proof (vi_imm _ _ Hva) as (_ & _ & Hki).
  set (l := MkAddFile Level.MIN <$> fs).
  assert (Hnd' : NoDup (fm_id ∘ af_file <$> l)) by (unfold l; rewrite <- list_fmap_compose; exact Hnd).
  assert (Hok : edit_ok (va_files a) (flush_edit f flushed fs)).
  { split; [|by intros d ?%elem_of_nil]. apply adds_ok_nodup; [|exact Hnd'|].
    - apply Forall_fmap, Forall_forall. by left.
    - intros g (m & -> & Hm)%list_elem_of_fmap. by apply Hpend. }
  destruct (version_is_step (M:=M) (fun _ => (mem_create 0 0, sampler_default)) (E:=unit) _ _ (ApplyEdit (flush_edit f flushed fs)) _ Hva
    (va_edit a _ Hok)) as (v' & Hv' & Hva').
  cbn [version_step] in Hv'. rewrite Hv in Hv'. injection Hv' as <-.
  destruct (remove_mem_keeps (flushable_ids f) (va_sampling a) (va_imm a)) as (R1 & R2 & R3 & R4).
  eexists. split; [exact Hva'|]. cbn [va_mut va_sampling va_imm va_files flush_edit ve_mems_to_remove].
  split; [unfold apply_edit in Hv; inv_ok; done|]. split; [done|]. split; [exact R1|]. split; [exact R2|]. split.
  - intros [sm|s] [Hx|Hx] Hn; cbn in Hx, Hn; unfold live; cbn.
    + left. destruct Hx as [Hx Hz]. split; [|done]. rewrite (R3 sm Hx Hn). done.
    + right. destruct Hx as [Hx Hz]. split; [|done]. rewrite (R3 sm Hx Hn). done.
    + by left.
    + right. by apply R4.
  - intros id g. unfold edited. cbn [ve_files_to_add ve_files_to_delete flush_edit foldl]. unfold file_added.
    fold l. rewrite (foldl_insert_map (fm_id ∘ af_file) (fun x => x) l) by done. rewrite lookup_union_Some_raw.
    assert (Hltm : forall g', (list_to_map ((fun x => ((fm_id ∘ af_file) x, x)) <$> l) : gmap Z AddFile) !! id = Some g' <->
      exists m, m ∈ fs /\ fm_id m = id /\ g' = MkAddFile 0 m).
    { intros g'. rewrite <- elem_of_list_to_map; [|rewrite <- list_fmap_compose; exact Hnd'].
      rewrite list_elem_of_fmap. split.
      - intros (y & [= -> ->] & (m & -> & Hm)%list_elem_of_fmap). by exists m.
      - intros (m & Hm & <- & ->). exists (MkAddFile 0 m). split; [done|]. by apply list_elem_of_fmap_2. }
    split.
    + intros [Hg|[_ Hg]]; [right; by apply Hltm|by left].
    + intros [Hg|Hg]; [|left; by apply Hltm]. right. split; [|done]. apply eq_None_not_Some. intros [g' Hg'].
      apply Hltm in Hg' as (m & Hm & <- & _). destruct (Hpend m Hm) as [Hnone _]. congruence.
Qed.

Lemma writer_kept h a a' T wal w : (forall x, active a x -> active a' x) -> writer_ok h a T wal w -> writer_ok h a' T wal w.
Proof.
  intros Hac [HT Hw]. split; [done|]. destruct w as [|seq rows idx w dn|seq r rows idx w dn|seq mems dn]; [done| | |].
  - destruct Hw as (H1 & H2 & H3 & H4). split; [done|]. split; [auto|]. split; [done|]. intros e He.
    destruct (H4 e He) as (H5 & x & H6 & H7). eauto.
  - destruct Hw as (H1 & (H2 & H3 & H4) & H5). split; [done|]. split; [|done]. split; [auto|]. split; [done|]. intros e He.
    destruct (H4 e He) as (H6 & x & H7 & H8). eauto.
  - destruct Hw as (H1 & H2 & H3). split; [done|]. split; [auto|]. intros e He. destruct (H3 e He) as (H6 & x & H7 & H8). eauto.
Qed.

Lemma inv_commit mm t F wal w f A fs flushed v :
  inv (MkSys mm t F wal w (FNormal f [] fs flushed) A) ->
  @apply_edit unit (current_version t) (flush_edit f flushed fs) = Ok v ->
  inv (MkSys mm (with_version t v) F wal w FIdle A).
Proof.
  intros (a & Hl & Hc & [Hs1 Hs2] & [HT HA] & Hw & (T0 & [HT0 [Hp1 Hp2]] & Hpend & Hfl & _ & Hd)) Hv.
  cbn [s_mm s_table s_files s_wal s_writer s_flusher s_acked] in *.
  destruct (commit_version t _ F a f fs flushed v Hl Hpend Hv) as (a' & Hva & Hflv & Hmut & Hsam & Himm & Hkeep & Hfiles).
  assert (Hfr : forall x, frozen a' x -> frozen a x).
  { intros [sm|s]; cbn; [intros [Hx Hz]; split; [|done]; destruct Hsam; congruence|]. intros Hx. by eapply lookup_weaken. }
  assert (Hac : forall x, active a' x -> active a x).
  { intros [sm|s]; cbn; [intros [Hx Hz]; split; [|done]; destruct Hsam; congruence|]. by rewrite Hmut. }
  assert (Hlv : forall x, live a' x -> live a x) by (intros x [Hx|Hx]; [left; by apply Hac|right; by apply Hfr]).
  assert (Hac' : forall x, active a x -> active a' x).
  { intros x Hx. assert (Hn : handle_id x ∉ flushable_ids f).
    { intros (y & Hy & Heq)%ids_picked. destruct (Hp1 y Hy) as [Hyf _].
      assert (x = y) as -> by (eapply same_id; [exact Hl|by left|by right|done]).
      by destruct (change_cell t _ a (heap mm) y (heap mm 0%nat) Hl Hx) as [_ ?%(fun H => H y Hyf)]. }
    destruct (Hkeep x ltac:(by left) Hn) as [Hx'|Hx']; [done|]. exfalso.
    by destruct (change_cell t _ a (heap mm) x (heap mm 0%nat) Hl Hx) as [_ ?%(fun H => H x (Hfr x Hx'))]. }
  assert (Hinf : forall e, in_file F a e -> in_file F a' e).
  { intros e (id & g & rows & H1 & H2 & H3). exists id, g, rows. split; [apply Hfiles; by left|done]. }
  assert (Hpick : forall e x, picked_by f x -> covers (entries_of (heap mm) x) e -> in_file F a' e).
  { intros e x Hx (e' & He' & Hsup). destruct (Hd x Hx) as [Hdx|(s & Hs & _)]; [|by apply elem_of_nil in Hs].
    destruct (Hdx e' He') as (g & rows & Hg & Hr & Hcov). exists (fm_id g), (MkAddFile 0 g), rows.
    split; [apply Hfiles; right; by exists g|]. split; [done|]. by eapply covers_trans. }
  exists a'. cbn [s_mm s_table s_files s_wal s_writer s_flusher s_acked with_version current_version last_sequence last_memtable_id].
  split; [|split; [|split; [|split; [|split; [|done]]]]].
  - split; cbn.
    + done.
    + intros x y Hx Hy. apply (ly_inj _ _ _ Hl); auto.
    + intros x Hx. apply (ly_bound _ _ _ Hl); auto.
    + intros sm Hsm. destruct Hsam as [Hsam|Hsam]; [congruence|]. rewrite Hsam in Hsm.
      destruct (ly_sampling _ _ _ Hl sm Hsm) as [H1 H2]. rewrite Hmut. split; [done|]. by eapply lookup_weaken_None.
  - split.
    + intros s e Hx. apply (ct_times _ _ _ Hc). auto.
    + intros id g [Hg|(m & Hm & <- & ->)]%Hfiles; [by apply (ct_files _ _ _ Hc)|]. by apply Hpend.
  - split; intros x Hx; [apply Hs1; auto|apply Hs2; auto].
  - rewrite Hflv. split; [lia|]. intros e He. destruct (HA e He) as (H1 & H2 & H3). destruct (Hp2 e He) as [Hnew|[Hin|(x & Hx & Hcov)]].
    + split; [done|]. split; [|destruct H3 as [?|?]; [left; auto|right; lia]]. destruct H2 as [(x & Hx & Hcov)|?]; [|right; auto].
      destruct (decide (handle_id x ∈ flushable_ids f)) as [Hi|Hi].
      * apply ids_picked in Hi as (y & Hy & Heq). right. apply (Hpick e y Hy).
        assert (x = y) as <- by (eapply same_id; [exact Hl|done|right; by apply Hp1|done]). done.
      * left. exists x. split; [by apply Hkeep|done].
    + split; [done|]. split; [right; auto|left; auto].
    + split; [done|]. split; [right; eauto|left; eauto].
  - eapply writer_kept; [exact Hac'|exact Hw].
Qed.

Lemma inv_fstep s s' : inv s -> fstep row_timestamp sst_size sst_row_num sst_format s s' -> inv s'.
Proof.
  intros Hinv Hstep. destruct Hstep as
    [mm t F wal w f A|mm t F wal w f A Hs|mm t F wal w f A sm rs Hs Hne Hrs|mm t F wal w f A sm ms rs ids fs Hlen Hids Hd
    |mm t F wal w f A m todo fs fl id Hd|mm t F wal w f A m todo fs fl id meta rows Hid Hd
    |mm t F wal w f A m todo fs fl|mm t F wal w f A fs fl v Hv]; [..|by eapply inv_commit];
    destruct Hinv as (a & Hl & Hc & Hsq & HA & Hw & Hf); cbn [s_mm s_table s_files s_wal s_writer s_flusher s_acked] in *.
  - by exists a.
  - exists a. split_and!; try done. cbn in *. destruct Hf as [T0 Hp]. exists T0. split; [done|].
    split; [split; [constructor|by intros g ?%elem_of_nil]|]. split; [destruct Hp as [? _]; lia|]. split; [done|].
    intros [sm|s] Hx; [left|right; by exists s]. cbn in Hx. destruct Hs as [Hs|(sm' & Hs & Hnil)]; [congruence|].
    assert (sm' = sm) as -> by congruence. intros e He. unfold entries_of in He. cbn in He. rewrite (scan_nil _ Hnil) in He. by apply elem_of_nil in He.
  - exists a. split_and!; try done. cbn in *. destruct Hf as [T0 Hp]. exists T0. split; [done|]. split; [done|].
    by apply (proj1 (proj2 Hp) (Sampling sm)).
  - destruct Hf as (T0 & Hp & Hsm & Hms).
    destruct (dump_sampling_ok mm F a _ A f sm ms rs ids fs T0 Hc Hp Hsm Hms Hlen Hids Hd) as [Hmore Hok].
    exists a. split; [done|]. split; [|split; [done|split; [|done]]].
    + split; [apply Hc|]. intros id g Hg. destruct (ct_files _ _ _ Hc id g Hg) as (rows & Hr & Ht). exists rows. auto.
    + eapply acked_ext; [apply extends_refl|exact Hmore|exact HA].
  - exists a. split_and!; try done. cbn in *. eapply dump_none; [exact Hf|]. unfold dump_normal_memtable in Hd.
    by destruct (mem_scan _).
  - assert (Hrows : rows = mem_scan (heap mm (ms_mem m)).1 /\
      meta = new_file sst_size sst_row_num sst_format id (ms_time_range m) (seq_of (heap mm) (Normal m)) rows).
    { unfold dump_normal_memtable in Hd. destruct (mem_scan _) as [|r0 rs0]; [done|]. by injection Hd as <- <-. }
    destruct Hrows as [Hrows Hmeta]. exists a. split; [done|].
    assert (Hmore : more_files F (<[id := rows]> F)).
    { intros id' rows' H. rewrite lookup_insert_ne; [done|]. intros ->. congruence. }
    split; [|split; [done|split; [|split; [done|]]]].
    + split; [apply Hc|]. intros id' g Hg. destruct (ct_files _ _ _ Hc id' g Hg) as (rows' & Hr & Ht). exists rows'. auto.
    + eapply acked_ext; [apply extends_refl|exact Hmore|exact HA].
    + by apply (dump_one _ _ _ _ _ _ _ _ _ _ _ _ _ Hc Hf Hid Hmeta Hrows).
  - exists a. split_and!; try done. cbn in *. destruct Hf as [(T0 & Hp & Hpend & Hfl & Hrest) Hm]. exists T0.
    split; [done|]. split; [done|]. split; [|done].
    pose proof (proj1 (proj2 Hp) (Normal m) Hm) as [_ Hle]. unfold seq_of in Hle. cbn in Hle. lia.
Qed.

(** *** The begin of a flush *)

(** What the begin of a flush makes of the memtables: all are frozen. *)
Definition all_frozen (a a' : versionA) : Prop :=
  va_files a' = va_files a /\
  (forall x, ~ active a' x) /\
  (forall x, frozen a' x -> exists y, live a y /\ mfw_memtable y = mfw_memtable x /\ forall s, x = Normal s -> y = x) /\
  (forall x, live a x -> exists y, frozen a' y /\ mfw_memtable y = mfw_memtable x).

Lemma mem_set_nil key m : mem_set key [] m -> m = ∅.
Proof.
  intros (_ & Hmap & Hid). apply map_empty. intros id. destruct (m !! id) as [s|] eqn:Hs; [|done].
  pose proof (Hid _ _ Hs) as <-. assert (Hin : (key s, s) ∈ ([] : btree Z MemTableState)) by by apply Hmap. by apply elem_of_nil in Hin.
Qed.

Lemma freeze_all (t : TableData) next a (h : store) sm :
  layout t next a -> va_sampling a = Some sm -> va_mut a = ∅ -> va_imm a = ∅ ->
  let v := (freeze_sampling_memtable h (current_version t)).2 in
  exists a', (forall t', current_version t' = v -> last_memtable_id t' = last_memtable_id t -> layout t' next a') /\ all_frozen a a'.
Proof.
  intros Hl Hsm Hm Hi v. pose proof (ly_version _ _ _ Hl) as Hv.
  destruct (version_is_step h (E:=unit) _ _ FreezeSampling _ Hv (va_freeze a)) as (v' & Hv' & Hva). injection Hv' as <-.
  eexists. assert (Hlive : live a (Sampling sm)) by (unfold live; cbn; destruct (sm_freezed sm); auto).
  assert (Hnn : forall s, ~ live a (Normal s)).
  { intros s [Hs|Hs]; cbn in Hs; [rewrite Hm, lookup_empty in Hs|rewrite Hi, lookup_empty in Hs]; done. }
  split; [intros t' Ht' Hid; split; [by rewrite Ht'| | |]|split; [done|split; [|split]]].
  - intros [s1|s1] [s2|s2] Hx Hy _; unfold live in *; cbn in *; rewrite ?Hsm, ?Hm, ?Hi, ?lookup_empty in *; naive_solver.
  - intros [s1|s1] Hx; unfold live in Hx; cbn in *; rewrite ?Hsm, ?Hm, ?Hi, ?lookup_empty in *; [|naive_solver].
    pose proof (ly_bound _ _ _ Hl _ Hlive) as Hb. cbn in Hb. rewrite Hid. destruct Hx as [[[= <-] _]|[[= <-] _]]; done.
  - intros s1. cbn. rewrite Hsm, Hm, Hi, !lookup_empty. done.
  - intros [s1|s1] Hx; cbn in Hx; rewrite ?Hsm, ?Hm, ?lookup_empty in Hx; [|done]. destruct Hx as [[= <-] Hx]. done.
  - intros [s1|s1] Hx; cbn in Hx; rewrite ?Hsm, ?Hi, ?lookup_empty in Hx; [|done]. destruct Hx as [[= <-] _].
    exists (Sampling sm). done.
  - intros [s1|s1] Hx; [|by destruct (Hnn s1)]. assert (s1 = sm) as -> by (destruct Hx as [[Hx _]|[Hx _]]; congruence).
    exists (Sampling (MkSampling (sm_mem sm) (sm_id sm) true)). cbn. by rewrite Hsm.
Qed.

Lemma switch_all (t : TableData) next a (h : store) :
  layout t next a -> (forall sm, va_sampling a = Some sm -> sm_freezed sm = true) ->
  let v := (switch_memtables h (current_version t)).2 in
  exists a', (forall t', current_version t' = v -> last_memtable_id t' = last_memtable_id t -> layout t' next a') /\ all_frozen a a'.
Proof.
  intros Hl Hfz v. pose proof (ly_version _ _ _ Hl) as Hv. pose proof (vi_disjoint _ _ Hv) as Hd.
  destruct (version_is_step h (E:=unit) _ _ SwitchMemtables _ Hv (va_switch a)) as (v' & Hv' & Hva). injection Hv' as <-.
  set (a' := MkVersionA _ _ _ _) in Hva. exists a'.
  assert (Hno : forall x, ~ active a' x).
  { intros [sm|s] Hx; cbn in Hx; [destruct Hx as [Hx Hz]; rewrite (Hfz _ Hx) in Hz; done|by rewrite lookup_empty in Hx]. }
  assert (Hiff : forall x, live a' x <-> live a x).
  { intros x. split.
    - intros [Hx|Hx]; [by destruct (Hno x)|]. destruct x as [sm|s]; [by right|]. cbn in Hx.
      apply lookup_union_Some in Hx; [|done]. destruct Hx as [Hx|Hx]; [by left|by right].
    - intros Hx. right. destruct x as [sm|s]; [destruct Hx as [[Hx Hz]|Hx]; [rewrite (Hfz _ Hx) in Hz; done|done]|].
      cbn. apply lookup_union_Some; [done|]. destruct Hx; auto. }
  split; [intros t' Ht' Hid; split|split; [done|split; [done|split]]].
  - rewrite Ht'. exact Hva.
  - intros x y Hx Hy. apply (ly_inj _ _ _ Hl); by apply Hiff.
  - intros x Hx. rewrite Hid. apply (ly_bound _ _ _ Hl). by apply Hiff.
  - intros sm Hsm. cbn. rewrite lookup_empty, lookup_union_None. split; [done|]. by apply (ly_sampling _ _ _ Hl).
  - intros x Hx. exists x. split; [apply Hiff; by right|done].
  - intros x Hx. exists x. apply Hiff in Hx as [Hx|Hx]; [by destruct (Hno x)|done].
Qed.

(** [preprocess_flush] freezes all memtables and changes none. *)
Lemma preprocess_spec t mm a t' mm' max_seq :
  layout t (next_mem mm) a -> preprocess_flush t mm = Ok (t', mm', max_seq) ->
  exists a', layout t' (next_mem mm') a' /\ all_frozen a a' /\
    last_sequence t' = last_sequence t /\ last_sequence t <= max_seq /\
    flushed_sequence (current_version t') = flushed_sequence (current_version t) /\
    (forall c, (heap mm' c).1 = (heap mm c).1).
Proof.
  intros Hl Hpre. pose proof (ly_version _ _ _ Hl) as Hv. unfold preprocess_flush in Hpre.
  apply rbind_ok in Hpre as ([suggested mm1] & Hsug & Hpre). unfold flush_suggestion in Hsug.
  apply rbind_ok in Hsug as ([o cache] & Hs & Hsug). apply rcontext_ok in Hs.
  apply rbind_ok in Hsug as ([] & _ & Hsug). injection Hsug as <- Hmm.
  assert (Hcell : forall c, (heap mm1 c).1 = (heap mm c).1).
  { intros c. subst mm1. destruct cache as [[b s]|]; [|done]. cbn. unfold update. by destruct (decide (c = b)) as [->|]. }
  assert (Hnext : next_mem mm1 = next_mem mm) by (subst mm1; by destruct cache as [[b s]|]).
  unfold suggest_duration in Hs. rewrite (vi_sampling _ _ Hv) in Hs.
  assert (Hmax : forall o l, l <= max_with o l) by (intros [x|] l; cbn; lia).
  destruct o as [d|].
  - destruct (va_sampling a) as [sm|] eqn:Hsm; [|done]. destruct (sm_freezed sm) eqn:Hz; [done|]. cbn [negb] in Hs.
    destruct (mutables (memtable_view (current_version t))) as [|kv l] eqn:Hm; [|done].
    destruct (immutables (memtable_view (current_version t))) as [|kv l] eqn:Hi; [|done].
    pose proof (vi_mut _ _ Hv) as Hms. rewrite Hm in Hms. pose proof (vi_imm _ _ Hv) as His. rewrite Hi in His.
    apply mem_set_nil in Hms, His. unfold flush_freeze in Hpre. cbn [current_version set_segment_duration] in Hpre.
    destruct (freeze_all t _ a (heap mm1) sm Hl Hsm Hms His) as (a' & Hlay & Hall).
    destruct (freeze_sampling_memtable (heap mm1) (current_version t)) as [seq v] eqn:Hfz. injection Hpre as <- <- <-.
    exists a'. split; [rewrite Hnext; by apply Hlay|]. split; [done|]. split; [done|]. split; [apply Hmax|]. split; [|done].
    unfold freeze_sampling_memtable in Hfz. cbn. destruct (sampling_mem _); by injection Hfz as _ <-.
  - unfold flush_switch in Hpre. assert (Hf : forall sm, va_sampling a = Some sm -> sm_freezed sm = true).
    { intros sm Hsm. rewrite Hsm in Hs. destruct (sm_freezed sm) eqn:Hz; [done|]. cbn [negb] in Hs.
      destruct (mutables _); [|done]. destruct (immutables _); [|done]. cbn in Hs. by destruct (Sampler.suggest_duration _) as [[]| |]. }
    destruct (switch_all t _ a (heap mm1) Hl Hf) as (a' & Hlay & Hall).
    destruct (switch_memtables (heap mm1) (current_version t)) as [seq v] eqn:Hfz. injection Hpre as <- <- <-.
    exists a'. split; [rewrite Hnext; by apply Hlay|]. split; [done|]. split; [done|]. split; [apply Hmax|]. split; [|done].
    unfold switch_memtables in Hfz. by injection Hfz as _ <-.
Qed.

Lemma inv_xstep s s' : inv s -> xstep s s' -> inv s'.
Proof.
  intros (a & Hl & Hc & [Hs1 Hs2] & [HT HA] & [Hwal Hw] & _) Hstep. destruct Hstep as [mm t F wal A t' mm' max_seq Hpre].
  cbn [s_mm s_table s_files s_wal s_writer s_flusher s_acked write_seq] in *.
  destruct (preprocess_spec t mm a t' mm' max_seq Hl Hpre) as (a' & Hl' & (Hfiles & Hno & Hback & Hfwd) & Hls & Hmax & Hfl & Hcell).
  assert (Hent : forall x, entries_of (heap mm') x = entries_of (heap mm) x) by (intros x; unfold entries_of; by rewrite Hcell).
  assert (Hseq : forall x, seq_of (heap mm') x = seq_of (heap mm) x) by (intros x; unfold seq_of, last_sequence_of; by rewrite Hcell).
  assert (Hinf : forall e, in_file F a e -> in_file F a' e).
  { intros e. apply in_file_ext; [done|apply more_files_refl]. }
  assert (Hfz : forall x, frozen a' x -> seq_of (heap mm') x <= last_sequence t).
  { intros x Hx. rewrite Hseq. destruct (Hback x Hx) as (y & Hy & Haddr & _). unfold seq_of. rewrite <- Haddr.
    destruct Hy as [Hy|Hy]; [by apply (Hs2 y)|by apply (Hs1 y)]. }
  set (f := pick_memtables_to_flush (heap mm') (current_version t') max_seq).
  assert (Hpick : forall x, frozen a' x <-> picked_by f x).
  { intros x. pose proof (ly_version _ _ _ Hl') as Hv. destruct x as [sm|s]; cbn [picked_by].
    - unfold f, pick_memtables_to_flush. cbn [fl_sampling_mem]. rewrite (vi_sampling _ _ Hv). split.
      + intros Hx. pose proof (Hfz _ Hx) as Hle. destruct Hx as [-> _]. unfold seq_of in Hle. cbn in Hle.
        by rewrite (proj2 (Z.leb_le _ _)) by lia.
      + destruct (va_sampling a') as [sm'|] eqn:Hsm; [|done]. destruct (_ <=? max_seq); [|done]. intros [= ->].
        split; [done|]. destruct (sm_freezed sm) eqn:Hz; [done|]. by destruct (Hno (Sampling sm)).
    - unfold f, pick_memtables_to_flush. cbn [fl_memtables]. rewrite list_elem_of_filter, (mem_set_elem _ _ _ _ (vi_imm _ _ Hv)).
      split; [|by intros [_ ?]]. intros Hx. pose proof (Hfz _ Hx) as Hle. split; [|done]. unfold seq_of in Hle. cbn in Hle. lia. }
  exists a'. cbn [s_mm s_table s_files s_wal s_writer s_flusher s_acked write_seq]. rewrite Hls, Hfl.
  assert (Hgo : flusher_ok (heap mm') F a' (last_sequence t) A (FSampling f)).
  { cbn. exists (last_sequence t). split; [lia|]. split.
    - intros x Hx. apply Hpick in Hx. split; [done|by apply Hfz].
    - intros e He. destruct (HA e He) as (_ & [(x & Hx & Hcov)|Hin] & _); [|right; left; auto]. right. right.
      destruct (Hfwd x Hx) as (y & Hy & Haddr). exists y. split; [by apply Hpick|]. rewrite Hent. unfold entries_of in *. by rewrite Haddr. }
  split; [done|]. split; [|split; [|split; [|split]]].
  - split.
    + intros s e Hx He. destruct Hx as [Hx|Hx]; [by destruct (Hno _ Hx)|]. destruct (Hback _ Hx) as (y & Hy & _ & Heq).
      rewrite (Heq s eq_refl) in Hy. apply (ct_times _ _ _ Hc s e Hy). by rewrite <- Hent.
    + intros id g. rewrite Hfiles. apply (ct_files _ _ _ Hc).
  - split; [done|]. intros x Hx. by destruct (Hno x).
  - split; [done|]. intros e He. destruct (HA e He) as (H1 & H2 & H3). split; [done|]. split; [|destruct H3; auto].
    destruct H2 as [(x & Hx & Hcov)|?]; [left|right; auto]. destruct (Hfwd x Hx) as (y & Hy & Haddr). exists y.
    split; [by right|]. rewrite Hent. unfold entries_of in *. by rewrite Haddr.
  - split; [lia|done].
  - unfold picked. destruct (flushable_is_empty f); [done|exact Hgo].
Qed.

(** ** What the invariant gives *)

Context (Hsame_ts : forall r r', same_key r r' -> row_timestamp r = row_timestamp r').

Lemma intersects r q t0 :
  TimeRange.contains r t0 = true -> TimeRange.contains q t0 = true -> TimeRange.intersect_with r q = true.
Proof. rewrite !contains_spec. unfold TimeRange.intersect_with, TimeRange.not_intersecting. lia. Qed.

Lemma inv_visible s e : inv s -> e ∈ s_acked s -> visible row_timestamp same_key s e.
Proof.
  intros (a & Hl & Hc & _ & [_ HA] & _) He q Hq. pose proof (ly_version _ _ _ Hl) as Hv.
  destruct (vi_files _ _ Hv) as (s0 & s1 & m0 & m1 & Hh).
  rewrite (pick_read_view_holds (E:=unit) _ _ _ _ _ _ q Hh). eexists. split; [done|].
  destruct (HA e He) as (_ & [(x & Hx & e' & Hin & Hsup)|(id & f & rows & Hf & Hr & e' & Hin & Hsup)] & _).
  - assert (Ht : TimeRange.contains q (ts e') = true) by (rewrite <- (Hsame_ts _ _ (proj1 Hsup)); done).
    destruct x as [sm|m].
    + left. exists sm. split; [|by exists e']. cbn. rewrite (vi_sampling _ _ Hv). by destruct Hx as [[? _]|[? _]].
    + right. left. exists m. split; [|by exists e']. cbn. apply elem_of_app.
      pose proof (intersects _ _ _ (ct_times _ _ _ Hc m e' Hx Hin) Ht) as Hint. destruct Hx as [Hx|Hx].
      * left. by apply (mutables_for_read_spec _ _ q m (vi_mut _ _ Hv)).
      * right. by apply (immutables_for_read_spec _ _ q m (vi_imm _ _ Hv)).
  - right. right. destruct (ct_files _ _ _ Hc id f Hf) as (rows' & Hr' & Htimes).
    assert (rows' = rows) as -> by congruence. pose proof (Htimes e' Hin) as Hte.
    assert (Ht : TimeRange.contains q (ts e') = true) by (rewrite <- (Hsame_ts _ _ (proj1 Hsup)); done).
    pose proof (intersects _ _ _ Hte Ht) as Hint. destruct (lc_holds_wf _ _ id f (vi_files _ _ Hv) Hf) as [Hid Hlev].
    destruct (level_files_seen _ _ _ _ _ _ q (af_file f) Hh) as [L0 L1].
    assert (Hfe : va_files a !! fm_id (af_file f) = Some (MkAddFile (af_level f) (af_file f))) by (rewrite Hid; by destruct f).
    destruct Hlev as [Hlev|Hlev]; rewrite Hlev in Hfe.
    + pose proof (proj2 L0 (conj Hfe Hint)) as (g & Hg & Hgin)%list_elem_of_fmap.
      exists (files_by_time_range s0 q), g, rows. split; [by left|]. split; [done|].
      unfold fh_id. rewrite <- Hg, Hid. split; [done|]. by exists e'.
    + pose proof (proj2 L1 (conj Hfe Hint)) as (g & Hg & Hgin)%list_elem_of_fmap.
      exists (files_by_time_range s1 q), g, rows. split; [by right; left|]. split; [done|].
      unfold fh_id. rewrite <- Hg, Hid. split; [done|]. by exists e'.
Qed.

Lemma inv_recoverable s e : inv s -> e ∈ s_acked s -> recoverable same_key s e.
Proof.
  intros (a & Hl & Hc & _ & [_ HA] & _) He. pose proof (ly_version _ _ _ Hl) as Hv.
  eexists. split; [apply (snapshot_holds _ _ (vi_files _ _ Hv))|]. cbn [vm_flushed_sequence vm_files].
  destruct (HA e He) as (_ & _ & [(id & f & rows & Hf & Hr & Hcov)|Hlt]); [right|by left]. by exists id, f, rows.
Qed.

Lemma inv_new m0 v d : inv (sys_new m0 v d).
Proof.
  exists versionA_new. cbn. assert (Hno : forall x, ~ live versionA_new x).
  { intros [sm|s] [Hx|Hx]; cbn in Hx; try (by destruct Hx); by rewrite lookup_empty in Hx. }
  split; [split; cbn|split; [split; cbn|split; [split|split; [split|split; [split; [lia|done]|done]]]]].
  - apply version_is_new.
  - intros x y Hx. by destruct (Hno x).
  - intros x Hx. by destruct (Hno x).
  - done.
  - intros s e Hx. by destruct (Hno (Normal s)).
  - intros id f. by rewrite lookup_empty.
  - intros x Hx. destruct (Hno x). by right.
  - intros x Hx. destruct (Hno x). by left.
  - lia.
  - by intros e ?%elem_of_nil.
Qed.

Lemma inv_reachable s0 s :
  inv s0 -> reachable row_timestamp is_expired sst_size sst_row_num sst_format true s0 s -> inv s.
Proof.
  intros H0. induction 1 as [|s s' _ IH Hs|s s' _ IH Hs|s s' Hx _ _ _|s s' _ _ IH Hs]; [done| | |done|].
  - by eapply inv_wstep.
  - by eapply inv_fstep.
  - by eapply inv_xstep.
Qed.

(** C1. A flush loses no write.  If flushes begin while no write is in progress,
    whatever writes, flushes and failures follow: every version of a row whose
    write has returned, or a newer version of its key, is in the view that a read
    of any time range with its timestamp gets, and is recovered after a crash at
    any point, from a file of the version or from the log after the flushed
    sequence.  Timestamps are 64-bit numbers and part of the key. *)
Theorem exclusive_flush_keeps_writes m0 v d s e :
  reachable row_timestamp is_expired sst_size sst_row_num sst_format true (sys_new m0 v d) s -> e ∈ s_acked s ->
  visible row_timestamp same_key s e /\ recoverable same_key s e.
Proof.
  intros Hr He. pose proof (inv_reachable _ _ (inv_new m0 v d) Hr) as Hinv. split.
  - by apply inv_visible.
  - by apply inv_recoverable.
Qed.
End invariant.

(** A row is written and flushed, with a second write during the dump. *)
Lemma exclusive_flush_keeps_writes_witness :
  exists s, demo_reach true (Some 100) s /\ s_acked s = [MkEntry 1 0 (7, 5); MkEntry 2 0 (8, 6)] /\
    s_files s = {[1 := [MkEntry 1 0 (7, 5)]]} /\ s_flusher s = FIdle /\
    visible demo_ts (=) s (MkEntry 1 0 (7, 5)) /\ recoverable (=) s (MkEntry 1 0 (7, 5)).
Proof.
  assert (H : demo_reach true (Some 100) (sys_new (MkListMem [] 0 0) 1 (Some 100))) by apply r_new.
  go then_write H; [apply w_begin with (rows := [(7, 5)])|].
  go then_write H; [eapply w_find; [reflexivity|vm_compute; reflexivity]|].
  go then_write H; [eapply w_put; vm_compute; reflexivity|].
  go then_write H; [apply w_rows_done|].
  go then_write H; [eapply w_seq; vm_compute; reflexivity|].
  go then_write H; [apply w_done|].
  eapply (r_xbegin _ _ _ _ _ _ _ _ _ eq_refl) in H; [|eapply x_begin; vm_compute; reflexivity].
  match type of H with context [picked ?f] => let r := eval vm_compute in (picked f) in change (picked f) with r in H end.
  go then_dump H; [apply f_sampling_none; left; reflexivity|].
  go then_dump H; [eapply f_dump with (id := 1); [reflexivity|vm_compute; reflexivity]|].
  go then_write H; [apply w_begin with (rows := [(8, 6)])|].
  go then_write H; [eapply w_find; [reflexivity|vm_compute; reflexivity]|].
  go then_write H; [eapply w_put; vm_compute; reflexivity|].
  go then_write H; [apply w_rows_done|].
  go then_write H; [eapply w_seq; vm_compute; reflexivity|].
  go then_write H; [apply w_done|].
  go then_dump H; [apply f_seq|].
  go then_dump H; [eapply f_commit; vm_compute; reflexivity|].
  eexists. split; [exact H|]. split; [vm_compute; reflexivity|]. split; [vm_compute; reflexivity|]. split; [reflexivity|].
  refine (exclusive_flush_keeps_writes demo_ts (=) (fun _ => false) _ _ _ (fun l => Z.of_nat (length l))
    (fun l => Z.of_nat (length l)) Columnar _ (MkListMem [] 0 0) 1 (Some 100) _ _ H _).
  - intros r. apply as_s_range. lia.
  - done.
  - intros r1 r2 r3. apply eq_trans.
  - by intros r r' ->.
  - vm_compute. by left.
Defined.
