(* ===== verification/Picker.v ===== *)
(** * Choosing files to compact

    Models [analytic_engine/src/compaction/picker.rs] and the tasks of
    [compaction/mod.rs]: which files of a level a compaction takes, by size tier
    or by time window, and how a task marks the files it holds.

    Files are picked by sequence ([pick_by_seq], the default); the choice by size
    and hotness, which the environment can turn on, compares floating point
    numbers and is not modelled.  [sort_unstable_by_key] leaves the order of
    equal keys open: the sort is a parameter, of which only what is documented is
    used.  Durations are in milliseconds. *)

From Stdlib Require Import ZArith Lia Sorted.
From stdpp Require Import base tactics option list sorting numbers gmap sets.
From S2P Require Import Prelude Time BTree SstFile.

#[local] Open Scope Z_scope.

(** [TimeUnit], [SizeTieredCompactionOptions] (what the choice by sequence
    reads), [TimeWindowCompactionOptions], [CompactionStrategy]. *)
Inductive TimeUnit := Nanoseconds | Microseconds | Milliseconds | Seconds | Minutes | Hours | Days.
Record SizeTieredOptions := MkSizeTiered { min_threshold : nat; max_threshold : nat; max_input_sstable_size : Z }.
Record TimeWindowOptions := MkTimeWindow { size_tiered : SizeTieredOptions; timestamp_resolution : TimeUnit }.
Inductive CompactionStrategy := DefaultStrategy | TimeWindow (o : TimeWindowOptions) | SizeTiered (o : SizeTieredOptions).
(** Without the environment variable, 1200 megabytes. *)
Definition size_tiered_default : SizeTieredOptions := MkSizeTiered 4 16 (1200 * 1024 * 1024).
Definition time_window_default : TimeWindowOptions := MkTimeWindow size_tiered_default Milliseconds.
Definition valid_timestamp_unit (unit : TimeUnit) : bool :=
  match unit with Seconds | Milliseconds | Microseconds | Nanoseconds => true | _ => false end.

Record PickerContext := MkPickerContext {
  pc_segment_duration : Z;
  pc_ttl : option Z;
  pc_strategy : CompactionStrategy
}.
Definition size_tiered_opts (ctx : PickerContext) : SizeTieredOptions :=
  match pc_strategy ctx with SizeTiered o => o | _ => size_tiered_default end.
Definition time_window_opts (ctx : PickerContext) : TimeWindowOptions :=
  match pc_strategy ctx with TimeWindow o => o | _ => time_window_default end.

(** Tasks. *)
Record CompactionInputFiles := MkInputs { ci_level : Level.t; ci_files : list FileHandle; ci_output_level : Level.t }.
Record CompactionTask := MkTask { ct_inputs : list CompactionInputFiles; ct_expired : list (Level.t * list FileHandle) }.
Definition mark_all (files : list FileHandle) (being : bool) (fl : flags) : flags :=
  foldl (fun fl f => set_being_compacted fl f being) fl files.
Definition mark_files_being_compacted (t : CompactionTask) (being : bool) (fl : flags) : flags :=
  let fl := foldl (fun fl i => mark_all (ci_files i) being fl) fl (ct_inputs t) in
  foldl (fun fl e => mark_all e.2 being fl) fl (ct_expired t).
(** [CompactionTaskBuilder::build] and [Drop for CompactionTask]. *)
Definition task_build (expired : list (Level.t * list FileHandle)) (inputs : list CompactionInputFiles) (fl : flags)
  : CompactionTask * flags :=
  let task := MkTask inputs expired in (task, mark_files_being_compacted task true fl).
Definition task_drop (t : CompactionTask) (fl : flags) : flags := mark_files_being_compacted t false fl.
Definition task_is_empty (t : CompactionTask) : bool :=
  match ct_inputs t, ct_expired t with [], [] => true | _, _ => false end.
Definition estimated_total_input_file_size {E} (t : CompactionTask) : res E Z :=
  rfold (fun acc i =>
    let? size := rfold (fun acc f => u64_op (acc + fh_size f)) (ci_files i) 0 in
    u64_op (acc + size)) (ct_inputs t) 0.

Section picker.
Context {E : Type}.
(** [slice::sort_unstable_by_key]. *)
Context (sort_by_key : (FileHandle -> Z) -> list FileHandle -> list FileHandle).

Definition find_uncompact_files (lc : LevelsController) (fl : flags) (level : Level.t) (expire_time : option Z)
  : res E (list FileHandle) :=
  let? files := iter_ssts_at_level lc level in
  Ok (filter (fun f => being_compacted fl f = false /\ TimeRange.is_expired (fh_time_range f) expire_time = false) files).

Definition total_size (files : list FileHandle) : res E Z :=
  rfold (fun acc f => u64_op (acc + fh_size f)) files 0.

(** [take(max_threshold)] and [take_while] with the running size. *)
Fixpoint take_within (files : list FileHandle) (max_size input_size : Z) : res E (list FileHandle) :=
  match files with
  | [] => Ok []
  | f :: files =>
      let? input_size := u64_op (input_size + fh_size f) in
      if input_size <=? max_size then let? rest := take_within files max_size input_size in Ok (f :: rest) else Ok []
  end.
Definition trim_to_threshold (files : list FileHandle) (max_threshold : nat) (max_size : Z) : res E (list FileHandle) :=
  take_within (take max_threshold files) max_size 0.

(** [pick_by_seq]: the newest run of files, as long as allowed, that fits. *)
Fixpoint try_steps (files : list FileHandle) (start min_threshold : nat) (max_size : Z) (steps : list nat)
  : res E (option (list FileHandle)) :=
  match steps with
  | [] => Ok None
  | step :: steps =>
      let stop := Nat.min (start + step) (length files) in
      if (stop - start <? min_threshold)%nat then Ok None
      else
        let slice := take (stop - start) (drop start files) in
        let? curr_size := total_size slice in
        if curr_size <=? max_size then Ok (Some slice) else try_steps files start min_threshold max_size steps
  end.
Fixpoint try_starts (files : list FileHandle) (min_threshold max_threshold : nat) (max_size : Z) (starts : list nat)
  : res E (option (list FileHandle)) :=
  match starts with
  | [] => Ok None
  | start :: starts =>
      let? r := try_steps files start min_threshold max_size (rev (seq min_threshold (S max_threshold - min_threshold))) in
      match r with Some files => Ok (Some files) | None => try_starts files min_threshold max_threshold max_size starts end
  end.
Definition pick_by_seq (files : list FileHandle) (min_threshold max_threshold : nat) (max_size : Z)
  : res E (option (list FileHandle)) :=
  let files := sort_by_key (fun f => - fh_max_sequence f) files in
  try_starts files min_threshold max_threshold max_size (seq 0 (length files)).
(** [SizeTieredPicker::pick_ssts]. *)
Definition pick_ssts (files : list FileHandle) (o : SizeTieredOptions) : res E (option (list FileHandle)) :=
  pick_by_seq files (min_threshold o) (max_threshold o) (max_input_sstable_size o).

(** [SizeTieredPicker]. *)
Definition push_file (key : Z) (f : FileHandle) (m : btree Z (list FileHandle)) : btree Z (list FileHandle) :=
  bt_insert Z.compare key (default [] (bt_get Z.compare key m) ++ [f]) m.
Definition segment_of (segment_duration : Z) (f : FileHandle) : res E Z :=
  Timestamp.truncate_by (TimeRange.exclusive_end (fh_time_range f)) segment_duration.
Definition push_segment (segment_duration : Z) (m : btree Z (list FileHandle)) (f : FileHandle)
  : res E (btree Z (list FileHandle)) :=
  let? segment := segment_of segment_duration f in Ok (push_file segment f m).
Definition files_by_segment (files : list FileHandle) (segment_duration : Z) : res E (btree Z (list FileHandle)) :=
  rfold (push_segment segment_duration) files [].
Fixpoint first_pick (pick : Z * list FileHandle -> res E (option (list FileHandle))) (l : list (Z * list FileHandle))
  : res E (option (list FileHandle)) :=
  match l with
  | [] => Ok None
  | x :: l => let? r := pick x in match r with Some files => Ok (Some files) | None => first_pick pick l end
  end.
Definition size_tiered_pick (ctx : PickerContext) (lc : LevelsController) (fl : flags) (level : Level.t) (expire_time : option Z)
  : res E (option (list FileHandle)) :=
  let? files := find_uncompact_files lc fl level expire_time in
  let? segments := files_by_segment files (pc_segment_duration ctx) in
  first_pick (fun s => pick_ssts s.2 (size_tiered_opts ctx)) (rev segments).

(** [TimeWindowPicker]. *)
Definition get_window_bounds_in_millis (window ts : Z) : res E (Z * Z) :=
  let ts_secs := Z.quot ts 1000 in
  let size := as_s 64 (window / 1000) in
  if size =? 0 then Panic
  else
    let? lower := i64_op (ts_secs - Z.rem ts_secs size) in
    let? upper := i64_op (lower + size) in
    let? upper := i64_op (upper - 1) in
    let? lo := i64_op (lower * 1000) in
    let? hi := i64_op (upper * 1000) in
    Ok (lo, hi).
Definition resolve_timestamp (ts : Z) (unit : TimeUnit) : res E Z :=
  match unit with
  | Microseconds => Ok (Z.quot ts 1000)
  | Nanoseconds => Ok (Z.quot ts 1000000)
  | Seconds => i64_op (ts * 1000)
  | Milliseconds => Ok ts
  | _ => Panic
  end.
Definition window_of (window : Z) (unit : TimeUnit) (f : FileHandle) : res E Z :=
  let? ts := resolve_timestamp (TimeRange.exclusive_end (fh_time_range f)) unit in
  let? bounds := get_window_bounds_in_millis window ts in Ok bounds.1.
(** The buckets by window; the source keeps them in a hash map and goes through
    its keys in order. *)
Definition push_bucket (window : Z) (unit : TimeUnit) (st : btree Z (list FileHandle) * Z) (f : FileHandle)
  : res E (btree Z (list FileHandle) * Z) :=
  let? lower := window_of window unit f in
  Ok (push_file lower f st.1, if st.2 <? lower then lower else st.2).
Definition get_buckets (files : list FileHandle) (window : Z) (unit : TimeUnit)
  : res E (btree Z (list FileHandle) * Z) := rfold (push_bucket window unit) files ([], 0).
Definition pick_sst_for_old_bucket (by_seq : bool) (files : list FileHandle) (o : SizeTieredOptions)
  : res E (option (list FileHandle)) :=
  if by_seq then pick_by_seq files 2 (max_threshold o) (max_input_sstable_size o)
  else
    let? candidate_files := trim_to_threshold (sort_by_key fh_size files) (max_threshold o) (max_input_sstable_size o) in
    Ok (if (2 <=? length candidate_files)%nat then Some candidate_files else None).
Definition pick_bucket (o : SizeTieredOptions) (now : Z) (b : Z * list FileHandle) : res E (option (list FileHandle)) :=
  if ((min_threshold o <=? length b.2)%nat && (now <=? b.1))%bool then pick_ssts b.2 o
  else if ((2 <=? length b.2)%nat && (b.1 <? now))%bool then pick_sst_for_old_bucket true b.2 o
  else Ok None.
Definition newest_bucket (buckets : btree Z (list FileHandle)) (o : SizeTieredOptions) (now : Z)
  : res E (option (list FileHandle)) := first_pick (pick_bucket o now) (rev buckets).
Definition get_current_window (lc : LevelsController) (level : Level.t) (window : Z) (unit : TimeUnit) : res E Z :=
  let? o := latest_sst lc level in
  let? f := unwrap o in window_of window unit f.
Definition time_window_pick (ctx : PickerContext) (lc : LevelsController) (fl : flags) (level : Level.t) (expire_time : option Z)
  : res E (option (list FileHandle)) :=
  let? files := find_uncompact_files lc fl level expire_time in
  match files with
  | [] => Ok None
  | _ =>
      let o := time_window_opts ctx in
      let? (buckets, max_bucket_ts) := get_buckets files (pc_segment_duration ctx) (timestamp_resolution o) in
      let? now := get_current_window lc level (pc_segment_duration ctx) (timestamp_resolution o) in
      let? _ := rassert (max_bucket_ts <=? now) in
      newest_bucket buckets (size_tiered o) now
  end.

(** [CommonCompactionPicker]. *)
Definition pick_candidates_at_level (ctx : PickerContext) (lc : LevelsController) (fl : flags) (level : Level.t) (expire_time : option Z)
  : res E (option (list FileHandle)) :=
  match pc_strategy ctx with
  | SizeTiered _ => size_tiered_pick ctx lc fl level expire_time
  | TimeWindow _ | DefaultStrategy => time_window_pick ctx lc fl level expire_time
  end.
Fixpoint pick_compact_candidates (ctx : PickerContext) (lc : LevelsController) (fl : flags) (expire_time : option Z) (levels : list Level.t)
  : res E (option CompactionInputFiles) :=
  match levels with
  | [] => Ok None
  | level :: levels =>
      let? r := pick_candidates_at_level ctx lc fl level expire_time in
      match r with
      | Some files => let? next := Level.next level in Ok (Some (MkInputs level files next))
      | None => pick_compact_candidates ctx lc fl expire_time levels
      end
  end.
(** [pick_compaction]; [now] is the clock that [expire_time] reads. *)
Definition pick_compaction (ctx : PickerContext) (lc : LevelsController) (fl : flags) (now : Z)
  : res E (CompactionTask * flags) :=
  let expire_time := Timestamp.expire_time now <$> pc_ttl ctx in
  let? expired := expired_ssts lc expire_time in
  let? inputs := pick_compact_candidates ctx lc fl expire_time (lc_level_list lc) in
  Ok (task_build expired (match inputs with Some i => [i] | None => [] end) fl).
End picker.

(** ** The run [pick_by_seq] takes *)
Definition size_of (files : list FileHandle) : Z := foldr (fun f acc => fh_size f + acc) 0 files.
Lemma size_of_cons f l : size_of (f :: l) = fh_size f + size_of l.
Proof. done. Qed.
Lemma file_sizes_app a b : size_of (a ++ b) = size_of a + size_of b.
Proof. induction a as [|f a IH]; [done|]. rewrite <- app_comm_cons, !size_of_cons. lia. Qed.
Lemma size_of_nonneg l : Forall (fun f => 0 <= fh_size f) l -> 0 <= size_of l.
Proof. induction 1; [done|]. rewrite size_of_cons. lia. Qed.
Lemma size_of_perm l l' : l ≡ₚ l' -> size_of l = size_of l'.
Proof. induction 1; rewrite ?size_of_cons; lia. Qed.

(** Files whose sizes can be added up. *)
Definition sizes_ok (files : list FileHandle) : Prop :=
  Forall (fun f => 0 <= fh_size f) files /\ size_of files < 2 ^ 64.
Lemma sizes_ok_infix a b c : sizes_ok (a ++ b ++ c) -> sizes_ok b.
Proof.
  intros [Hn Hs]. rewrite !Forall_app in Hn. destruct Hn as (Ha & Hb & Hc). split; [done|].
  rewrite !file_sizes_app in Hs. pose proof (size_of_nonneg _ Ha). pose proof (size_of_nonneg _ Hc). lia.
Qed.
Lemma sizes_ok_perm l l' : l ≡ₚ l' -> sizes_ok l -> sizes_ok l'.
Proof. intros Hp [Hn Hs]. split; [by rewrite <- Hp|]. by rewrite <- (size_of_perm _ _ Hp). Qed.

(** What [pick_by_seq] looks for in the sorted files: a run of an allowed length
    and size. *)
Record run (lo hi : nat) (max_size : Z) (files pre w post : list FileHandle) : Prop := {
  run_split : files = pre ++ w ++ post;
  run_length : (lo <= length w <= hi)%nat;
  run_size : size_of w <= max_size
}.
(** The first run, and the longest that starts there; or there is none. *)
Definition picks_run (lo hi : nat) (max_size : Z) (files : list FileHandle) (r : option (list FileHandle)) : Prop :=
  match r with
  | Some w => exists pre post, run lo hi max_size files pre w post /\
      forall pre' w' post', run lo hi max_size files pre' w' post' -> w' <> [] ->
        (length pre < length pre' \/ length pre = length pre' /\ length w' <= length w)%nat
  | None => forall pre w post, run lo hi max_size files pre w post -> w = []
  end.

Section run.
Context {E : Type} (files : list FileHandle) (lo hi : nat) (max_size : Z).
Hypothesis Hsizes : sizes_ok files.

Lemma total_size_from l : forall acc, 0 <= acc -> Forall (fun f => 0 <= fh_size f) l -> acc + size_of l < 2 ^ 64 ->
  rfold (fun acc f => u64_op (acc + fh_size f)) l acc = @Ok E Z (acc + size_of l).
Proof.
  induction l as [|f l IH]; intros acc Ha Hn Hs; cbn [rfold]; [cbn; by rewrite Z.add_0_r|].
  apply Forall_cons in Hn as [Hf Hn]. rewrite size_of_cons in *. pose proof (size_of_nonneg _ Hn).
  rewrite u64_op_ok by (unfold uint; lia). cbn [rbind]. rewrite IH by (done || lia). f_equal. lia.
Qed.
Lemma total_size_ok l : sizes_ok l -> total_size l = @Ok E Z (size_of l).
Proof. intros [Hn Hs]. unfold total_size. rewrite total_size_from by (done || lia). done. Qed.

Definition window (start k : nat) : list FileHandle := take k (drop start files).
Lemma window_split start k : files = take start files ++ window start k ++ drop k (drop start files).
Proof. unfold window. by rewrite take_drop, take_drop. Qed.
Lemma window_sizes start k : sizes_ok (window start k).
Proof. apply (sizes_ok_infix (take start files) _ (drop k (drop start files))). by rewrite <- window_split. Qed.
Lemma run_window pre w post : run lo hi max_size files pre w post -> w = window (length pre) (length w) /\
  (length pre + length w <= length files)%nat.
Proof.
  intros [Hs _ _]. unfold window. rewrite Hs, drop_app_length, take_app_length, !length_app. split; [done|lia].
Qed.

(** No window of an allowed length above [k] fits at [start]. *)
Definition too_big (start k : nat) : Prop :=
  forall n, (k < n <= hi)%nat -> (lo <= n)%nat -> (start + n <= length files)%nat -> max_size < size_of (window start n).

Lemma try_steps_ok start : (start < length files)%nat -> forall top, (top <= hi)%nat -> too_big start top ->
  exists r, try_steps files start lo max_size (rev (seq lo (S top - lo))) = @Ok E _ r /\
    match r with
    | Some w => w = window start (length w) /\ (start + length w <= length files)%nat /\ (lo <= length w <= hi)%nat /\
        size_of w <= max_size /\ too_big start (length w)
    | None => forall n, (lo <= n <= hi)%nat -> (start + n <= length files)%nat -> max_size < size_of (window start n)
    end.
Proof.
  intros Hst top. induction top as [top IH] using lt_wf_ind. intros Htop Hbig.
  destruct (decide (lo <= top)%nat) as [Hlo|Hlo].
  2: { replace (S top - lo)%nat with 0%nat by lia. exists None. split; [done|]. intros n Hn Hl. apply Hbig; lia. }
  replace (S top - lo)%nat with (S (top - lo)) by lia. rewrite seq_S, rev_app_distr. cbn [rev app try_steps].
  replace (lo + (top - lo))%nat with top by lia. set (k := (Nat.min (start + top) (length files) - start)%nat).
  destruct (Nat.ltb_spec k lo) as [Hk|Hk].
  { exists None. split; [done|]. intros n Hn Hl. unfold k in Hk. lia. }
  change (take k (drop start files)) with (window start k). rewrite total_size_ok by apply window_sizes. cbn [rbind].
  assert (Hlen : length (window start k) = k).
  { unfold window. rewrite length_take, length_drop. unfold k. lia. }
  destruct (Z.leb_spec (size_of (window start k)) max_size) as [Hf|Hf].
  - exists (Some (window start k)). split; [done|]. rewrite Hlen. unfold k in *. split_and!; try lia; try done.
    intros n Hn Hln Hl. apply Hbig; lia.
  - destruct top as [|top].
    + exists None. split; [destruct lo; [done|lia]|]. intros n Hn Hl. destruct n as [|n]; [|apply Hbig; lia].
      replace k with 0%nat in Hf by (unfold k; lia). done.
    + destruct (IH top) as (r & -> & Hr); [lia|lia| |by exists r].
      intros n Hn Hln Hl. destruct (decide (n = S top)) as [->|]; [|apply Hbig; lia].
      replace k with (S top) in Hf by (unfold k; lia). done.
Qed.

Lemma try_starts_ok n : forall start, (start + n)%nat = length files ->
  (forall pre w post, run lo hi max_size files pre w post -> w <> [] -> (start <= length pre)%nat) ->
  exists r, try_starts files lo hi max_size (seq start n) = @Ok E _ r /\ picks_run lo hi max_size files r.
Proof.
  induction n as [|n IH]; intros start Hn Hbefore; cbn [seq try_starts].
  - exists None. split; [done|]. intros pre w post Hr. pose proof (run_window _ _ _ Hr) as [_ Hl].
    destruct w; [done|]. specialize (Hbefore _ _ _ Hr ltac:(done)). cbn in Hl. lia.
  - destruct (try_steps_ok start ltac:(lia) hi) as (r & -> & Hr); [lia|intros k Hk; lia|]. cbn [rbind].
    destruct r as [w|].
    + destruct Hr as (Hw & Hl & Hlen & Hsz & Hbig). exists (Some w). split; [done|].
      exists (take start files), (drop (length w) (drop start files)). split.
      { split; [rewrite Hw at 1; apply window_split|done|done]. }
      intros pre' w' post' Hr' Hne. pose proof (run_window _ _ _ Hr') as [Hw' Hl']. specialize (Hbefore _ _ _ Hr' Hne).
      rewrite length_take, Nat.min_l by lia. destruct (decide (length pre' = start)) as [Heq|]; [|lia].
      right. split; [done|]. destruct (decide (length w' <= length w)%nat); [done|]. exfalso.
      assert (max_size < size_of (window start (length w'))) as Hx.
      { apply Hbig; pose proof (run_length _ _ _ _ _ _ _ Hr'); lia. }
      rewrite <- Heq, <- Hw' in Hx. pose proof (run_size _ _ _ _ _ _ _ Hr'). lia.
    + apply IH; [lia|]. intros pre w post Hrun Hne. specialize (Hbefore _ _ _ Hrun Hne).
      pose proof (run_window _ _ _ Hrun) as [Hw Hl]. destruct (decide (length pre = start)) as [Heq|]; [|lia]. exfalso.
      specialize (Hr (length w) (run_length _ _ _ _ _ _ _ Hrun) ltac:(lia)). rewrite <- Heq, <- Hw in Hr.
      pose proof (run_size _ _ _ _ _ _ _ Hrun). lia.
Qed.
End run.

(** What is documented of [sort_unstable_by_key]. *)
Class SortByKey (sort_by_key : (FileHandle -> Z) -> list FileHandle -> list FileHandle) := {
  sort_perm : forall key l, sort_by_key key l ≡ₚ l;
  sort_sorted : forall key l, StronglySorted (fun a b => key a <= key b) (sort_by_key key l)
}.

(** An element outside a run of a sorted list is on one side of it. *)
Lemma sorted_run_adjacent {A} (key : A -> Z) pre w post x :
  StronglySorted (fun a b => key a <= key b) (pre ++ w ++ post) -> x ∈ pre ++ w ++ post -> x ∉ w ->
  (forall y, y ∈ w -> key x <= key y) \/ (forall y, y ∈ w -> key y <= key x).
Proof.
  intros Hs Hx Hn. apply StronglySorted_app in Hs as (H1 & _ & Hs). apply StronglySorted_app in Hs as (H2 & _ & _).
  rewrite !elem_of_app in Hx. destruct Hx as [Hx|[Hx|Hx]]; [left|done|right]; intros y Hy.
  - apply H1; [done|]. rewrite elem_of_app. by left.
  - by apply H2.
Qed.

(** ** Marks *)
Lemma mark_all_spec files b fl a : a ∈ mark_all files b fl <-> (if b then a ∈ fl \/ a ∈ fh_addr <$> files else a ∈ fl /\ a ∉ fh_addr <$> files).
Proof.
  unfold mark_all. revert fl. induction files as [|f files IH]; intros fl; cbn [foldl fmap list_fmap].
  - destruct b; set_solver.
  - rewrite IH. unfold set_being_compacted. destruct b; set_solver.
Qed.
(** The addresses of the files a task holds. *)
Definition task_files (t : CompactionTask) : list FileHandle :=
  concat (ci_files <$> ct_inputs t) ++ concat (snd <$> ct_expired t).
Lemma mark_files_spec t b fl a : a ∈ mark_files_being_compacted t b fl <->
  (if b then a ∈ fl \/ a ∈ fh_addr <$> task_files t else a ∈ fl /\ a ∉ fh_addr <$> task_files t).
Proof.
  assert (Hf : forall {A} (g : A -> list FileHandle) l fl,
    foldl (fun fl i => mark_all (g i) b fl) fl l = mark_all (concat (g <$> l)) b fl).
  { intros A g l. induction l as [|x l IH]; intros fl0; [done|]. cbn [foldl fmap list_fmap concat].
    rewrite IH. unfold mark_all. by rewrite foldl_app. }
  unfold mark_files_being_compacted, task_files. rewrite !Hf, mark_all_spec, fmap_app.
  destruct b; rewrite mark_all_spec; set_solver.
Qed.

Section picks.
Context {E : Type} (sort_by_key : (FileHandle -> Z) -> list FileHandle -> list FileHandle) {SB : SortByKey sort_by_key}.

Definition newest_first (files : list FileHandle) : list FileHandle := sort_by_key (fun f => - fh_max_sequence f) files.
Lemma pick_by_seq_ok files lo hi max_size : sizes_ok files ->
  exists r, pick_by_seq sort_by_key files lo hi max_size = @Ok E _ r /\ picks_run lo hi max_size (newest_first files) r.
Proof.
  intros Hs. unfold pick_by_seq. apply try_starts_ok.
  - apply (sizes_ok_perm files); [symmetry; apply sort_perm|done].
  - done.
  - intros. lia.
Qed.

(** What a pick is of a group of files: old or new enough, small enough and
    adjacent in the order of sequences. *)
Record good_pick (lo hi : nat) (max_size : Z) (files w : list FileHandle) : Prop := {
  gp_sub : w ⊆+ files;
  gp_length : (lo <= length w <= hi)%nat;
  gp_size : size_of w <= max_size;
  gp_adjacent : forall g, g ∈ files -> g ∉ w ->
    (forall f, f ∈ w -> fh_max_sequence f <= fh_max_sequence g) \/ (forall f, f ∈ w -> fh_max_sequence g <= fh_max_sequence f)
}.
Lemma pick_by_seq_good files lo hi max_size w :
  sizes_ok files -> pick_by_seq sort_by_key files lo hi max_size = @Ok E _ (Some w) -> good_pick lo hi max_size files w.
Proof.
  intros Hs Hp. destruct (pick_by_seq_ok files lo hi max_size Hs) as (r & Hr & Hrun). rewrite Hp in Hr. simplify_eq.
  destruct Hrun as (pre & post & [Hsplit Hlen Hsz] & _).
  pose proof (sort_sorted (SortByKey:=SB) (fun f => - fh_max_sequence f) files) as Hso.
  pose proof (sort_perm (SortByKey:=SB) (fun f => - fh_max_sequence f) files) as Hpe.
  unfold newest_first in Hsplit. rewrite Hsplit in Hso, Hpe. split; [|done|done|].
  - rewrite <- Hpe. apply submseteq_inserts_l, submseteq_inserts_r. done.
  - intros g Hg Hn. rewrite <- Hpe in Hg. destruct (sorted_run_adjacent _ _ _ _ _ Hso Hg Hn) as [H|H]; [left|right];
      intros f Hf; specialize (H f Hf); cbn in H; lia.
Qed.

(** ** Groups of files *)
Definition key_is (key : FileHandle -> res E Z) (k : Z) (f : FileHandle) : bool :=
  match key f with Ok k' => k' =? k | _ => false end.
Lemma key_is_spec key k f : key_is key k f = true <-> key f = Ok k.
Proof.
  unfold key_is. destruct (key f) as [k'| |]; [|split; intros; discriminate..].
  rewrite Z.eqb_eq. split; [by intros ->|]. by intros [= ->].
Qed.
Definition group (key : FileHandle -> res E Z) (k : Z) (files : list FileHandle) : list FileHandle :=
  filter (fun f => key_is key k f = true) files.
(** A map that holds every group, in the order of the files. *)
Record grouped (key : FileHandle -> res E Z) (files : list FileHandle) (m : btree Z (list FileHandle)) : Prop := {
  gr_sorted : bt_sorted Z.compare m;
  gr_get : forall k, default [] (bt_get Z.compare k m) = group key k files
}.
Lemma grouped_nil key : grouped key [] [].
Proof. split; [constructor|done]. Qed.
Lemma grouped_push key files m f k : grouped key files m -> key f = Ok k -> grouped key (files ++ [f]) (push_file k f m).
Proof.
  intros [Hs Hg] Hk. unfold push_file. split; [by apply bt_insert_sorted; [apply _|]|]. intros k'.
  rewrite bt_get_insert by (apply _ || done). unfold group. rewrite filter_app. fold (group key k' files).
  rewrite <- Hg. destruct (k' ?= k) eqn:Hc.
  - apply Z.compare_eq in Hc as ->. cbn [default]. f_equal. rewrite filter_cons_True by (by apply key_is_spec). done.
  - rewrite filter_cons_False; [by rewrite app_nil_r|]. rewrite key_is_spec, Hk. intros [= ->]. by rewrite Z.compare_refl in Hc.
  - rewrite filter_cons_False; [by rewrite app_nil_r|]. rewrite key_is_spec, Hk. intros [= ->]. by rewrite Z.compare_refl in Hc.
Qed.
Lemma grouped_elem key files m k fs : grouped key files m -> (k, fs) ∈ m -> fs = group key k files.
Proof. intros [Hs Hg] Hin. rewrite <- Hg. by rewrite (proj2 (bt_get_elem _ _ _ _ Hs) Hin). Qed.

Lemma files_by_segment_from d files : forall before m m', grouped (segment_of d) before m ->
  rfold (push_segment d) files m = @Ok E _ m' -> grouped (segment_of d) (before ++ files) m'.
Proof.
  induction files as [|f files IH]; cbn [rfold]; intros before m m' Hm Hr.
  - simplify_eq. by rewrite app_nil_r.
  - unfold push_segment, push_bucket in Hr. inv_ok. rewrite (cons_middle f before files), app_assoc. eapply IH; [|eassumption]. by apply grouped_push.
Qed.
Lemma get_buckets_from window unit files : forall before (st st' : btree Z (list FileHandle) * Z),
  grouped (window_of window unit) before st.1 ->
  rfold (push_bucket window unit) files st = @Ok E _ st' ->
  grouped (window_of window unit) (before ++ files) st'.1.
Proof.
  induction files as [|f files IH]; cbn [rfold]; intros before st st' Hm Hr.
  - simplify_eq. by rewrite app_nil_r.
  - unfold push_segment, push_bucket in Hr. inv_ok. rewrite (cons_middle f before files), app_assoc. eapply IH; [|eassumption]. by apply grouped_push.
Qed.
Lemma first_pick_some (pick : Z * list FileHandle -> res E (option (list FileHandle))) l w :
  first_pick pick l = Ok (Some w) -> exists x, x ∈ l /\ pick x = Ok (Some w).
Proof.
  induction l as [|x l IH]; cbn [first_pick]; intros H; [done|]. inv_ok. destruct x0 as [fs|]; simplify_eq.
  - exists x. split; [left|done].
  - destruct (IH ltac:(assumption)) as (y & Hy & Hp). exists y. split; [by right|done].
Qed.

(** ** What a picked task holds *)
Definition group_of (ctx : PickerContext) : FileHandle -> res E Z :=
  match pc_strategy ctx with
  | SizeTiered _ => segment_of (pc_segment_duration ctx)
  | _ => window_of (pc_segment_duration ctx) (timestamp_resolution (time_window_opts ctx))
  end.
Definition tier_opts (ctx : PickerContext) : SizeTieredOptions :=
  match pc_strategy ctx with SizeTiered o => o | _ => size_tiered (time_window_opts ctx) end.
Definition levels_sizes_ok (lc : LevelsController) : Prop :=
  forall level files, @iter_ssts_at_level E lc level = Ok files -> sizes_ok files.
Lemma sizes_ok_sub l l' : l' ⊆+ l -> sizes_ok l -> sizes_ok l'.
Proof.
  intros [k Hk]%submseteq_Permutation Hs. apply (sizes_ok_infix [] l' k). cbn. by apply (sizes_ok_perm l).
Qed.
Lemma filter_sub (P : FileHandle -> Prop) `{!forall f, Decision (P f)} l : filter P l ⊆+ l.
Proof. apply sublist_submseteq, sublist_filter. Qed.
Lemma group_sizes_ok key k files : sizes_ok files -> sizes_ok (group key k files).
Proof. apply sizes_ok_sub, filter_sub. Qed.

Lemma elem_rev {A} (x : A) l : x ∈ rev l -> x ∈ l.
Proof. by rewrite <- (Permutation_rev l). Qed.
Lemma pick_bucket_good o now k files w : sizes_ok files -> pick_bucket sort_by_key o now (k, files) = @Ok E _ (Some w) ->
  exists lo, (lo = min_threshold o \/ lo = 2%nat) /\ good_pick lo (max_threshold o) (max_input_sstable_size o) files w.
Proof.
  intros Hs. unfold pick_bucket, pick_ssts, pick_sst_for_old_bucket. cbn [fst snd].
  destruct (_ && _)%bool; [|destruct (_ && _)%bool; [|done]]; intros Hp%pick_by_seq_good; eauto.
Qed.

Lemma candidates_good ctx lc fl level e w : levels_sizes_ok lc ->
  pick_candidates_at_level sort_by_key ctx lc fl level e = @Ok E _ (Some w) ->
  exists files k lo, find_uncompact_files lc fl level e = @Ok E _ files /\
    (lo = min_threshold (tier_opts ctx) \/ lo = 2%nat) /\
    good_pick lo (max_threshold (tier_opts ctx)) (max_input_sstable_size (tier_opts ctx)) (group (group_of ctx) k files) w.
Proof.
  intros Hsz. unfold pick_candidates_at_level.
  assert (Hfiles : forall files, find_uncompact_files lc fl level e = @Ok E _ files -> sizes_ok files).
  { intros files H. unfold find_uncompact_files in H. inv_ok. eapply sizes_ok_sub; [apply filter_sub|]. by eapply Hsz. }
  assert (Htw : time_window_pick sort_by_key ctx lc fl level e = @Ok E _ (Some w) -> exists files k lo,
    find_uncompact_files lc fl level e = @Ok E _ files /\ (lo = min_threshold (size_tiered (time_window_opts ctx)) \/ lo = 2%nat) /\
    good_pick lo (max_threshold (size_tiered (time_window_opts ctx))) (max_input_sstable_size (size_tiered (time_window_opts ctx)))
      (group (window_of (pc_segment_duration ctx) (timestamp_resolution (time_window_opts ctx))) k files) w).
  { unfold time_window_pick. intros H. apply rbind_ok in H as (files & Hf & H). exists files.
    assert (files <> []) by (by intros ->).
    destruct files as [|f0 fs]; [done|]. set (files := f0 :: fs) in *. clearbody files.
    apply rbind_ok in H as ([m mx] & Hm & H). inv_ok. unfold newest_bucket in *.
    match goal with H : first_pick _ _ = _ |- _ => apply first_pick_some in H as ([k g] & Hin & Hp) end.
    apply elem_rev in Hin. eapply get_buckets_from in Hm; [|apply grouped_nil]. cbn [app fst] in Hm.
    rewrite (grouped_elem _ _ _ _ _ Hm Hin) in Hp. apply pick_bucket_good in Hp as (lo & Hlo & Hp); [|by apply group_sizes_ok; eauto].
    by exists k, lo. }
  unfold group_of, tier_opts. destruct (pc_strategy ctx) as [|o|o] eqn:Hst; [done|done|].
  unfold size_tiered_pick. intros H. apply rbind_ok in H as (files & Hf & H). apply rbind_ok in H as (m & Hm & H).
  apply first_pick_some in H as ([k g] & Hin & Hp). apply elem_rev in Hin.
  eapply files_by_segment_from in Hm; [|apply grouped_nil]. cbn [app] in Hm. rewrite (grouped_elem _ _ _ _ _ Hm Hin) in Hp.
  unfold size_tiered_opts, pick_ssts in Hp. rewrite Hst in Hp. cbn in Hp. apply pick_by_seq_good in Hp; [|by apply group_sizes_ok; eauto].
  exists files, k. eauto.
Qed.

Lemma compact_candidates_some ctx lc fl e levels i : pick_compact_candidates sort_by_key ctx lc fl e levels = @Ok E _ (Some i) ->
  ci_level i ∈ levels /\ pick_candidates_at_level sort_by_key ctx lc fl (ci_level i) e = @Ok E _ (Some (ci_files i)) /\
  Level.next (ci_level i) = @Ok E _ (ci_output_level i).
Proof.
  induction levels as [|level levels IH]; cbn [pick_compact_candidates]; intros H; [done|]. inv_ok.
  destruct x as [fs|].
  - inv_ok. simplify_eq. cbn. split_and!; [left|done|done].
  - destruct (IH ltac:(assumption)) as (? & ? & ?). split_and!; [by right|done|done].
Qed.

(** The inputs [i] taken from the files of a level: a run of the group [k], of at
    least [lo] files. *)
Record takes_run (ctx : PickerContext) (lc : LevelsController) (fl : flags) (e : option Z) (fl' : flags)
    (i : CompactionInputFiles) (files : list FileHandle) (k : Z) (lo : nat) : Prop := {
  tr_level : ci_level i ∈ lc_level_list lc /\ @iter_ssts_at_level E lc (ci_level i) = Ok files;
  tr_output : Level.next (ci_level i) = @Ok E _ (ci_output_level i);
  tr_sub : ci_files i ⊆+ files;
  tr_files : forall f, f ∈ ci_files i -> being_compacted fl f = false /\
    TimeRange.is_expired (fh_time_range f) e = false /\ group_of ctx f = Ok k /\ being_compacted fl' f = true;
  tr_min : lo = min_threshold (tier_opts ctx) \/ lo = 2%nat;
  tr_length : (lo <= length (ci_files i) <= max_threshold (tier_opts ctx))%nat;
  tr_size : size_of (ci_files i) <= max_input_sstable_size (tier_opts ctx);
  tr_adjacent : forall g, g ∈ files -> being_compacted fl g = false -> TimeRange.is_expired (fh_time_range g) e = false ->
    group_of ctx g = Ok k -> g ∉ ci_files i ->
    (forall f, f ∈ ci_files i -> fh_max_sequence f <= fh_max_sequence g) \/
    (forall f, f ∈ ci_files i -> fh_max_sequence g <= fh_max_sequence f)
}.
Lemma pick_takes_run ctx lc fl now task fl' i :
  levels_sizes_ok lc -> pick_compaction sort_by_key ctx lc fl now = @Ok E _ (task, fl') -> i ∈ ct_inputs task ->
  exists files k lo, takes_run ctx lc fl (Timestamp.expire_time now <$> pc_ttl ctx) fl' i files k lo.
Proof.
  intros Hsz Hp Hi. set (e := Timestamp.expire_time now <$> pc_ttl ctx). unfold pick_compaction in Hp. fold e in Hp. inv_ok. unfold task_build in *. simplify_eq.
  rename x0 into inputs. destruct inputs as [j|]; cbn [ct_inputs] in Hi; [|by apply elem_of_nil in Hi].
  apply list_elem_of_singleton in Hi as ->.
  match goal with H : pick_compact_candidates _ _ _ _ _ _ = _ |- _ => apply compact_candidates_some in H as (Hlv & Hc & Hnext) end.
  apply candidates_good in Hc as (un & k & lo & Hun & Hlo & [Hsub Hlen Hsize Hadj]); [|done].
  unfold find_uncompact_files in Hun. apply rbind_ok in Hun as (files & Hfiles & [= <-]).
  assert (Hel : forall f, f ∈ ci_files j -> f ∈ group (group_of ctx) k (filter (fun f => being_compacted fl f = false /\
    TimeRange.is_expired (fh_time_range f) e = false) files)) by (intros f Hf; by eapply elem_of_submseteq).
  exists files, k, lo. split; try done.
  - rewrite Hsub. unfold group. rewrite filter_sub. apply filter_sub.
  - intros f Hf. pose proof (Hel f Hf) as He. unfold group in He. rewrite !list_elem_of_filter, key_is_spec in He.
    destruct He as (Hk & (H1 & H2) & _). split_and!; try done. apply bool_decide_eq_true, mark_files_spec. right.
    apply list_elem_of_fmap_2. unfold task_files. cbn [ct_inputs fmap list_fmap concat]. set_solver.
  - intros g Hg H1 H2 H3 H4. apply Hadj; [|done]. unfold group. rewrite !list_elem_of_filter, key_is_spec. done.
Qed.

(** C36. A task takes, at one level and in one segment (or window), files that
    are neither being compacted nor expired, as many and as large as the options
    allow and next to each other in the order of sequences among such files of
    the segment; their output goes to the next level; and afterwards all of them
    are marked. *)
Theorem pick_compaction_takes_run ctx lc fl now task fl' i :
  levels_sizes_ok lc -> pick_compaction sort_by_key ctx lc fl now = @Ok E _ (task, fl') -> i ∈ ct_inputs task ->
  exists files k lo, takes_run ctx lc fl (Timestamp.expire_time now <$> pc_ttl ctx) fl' i files k lo.
Proof. apply pick_takes_run. Qed.

(** ** When the choice by time window returns *)
Definition resolved (unit : TimeUnit) (ts : Z) : Z :=
  match unit with Microseconds => ts / 1000 | Nanoseconds => ts / 1000000 | Seconds => ts * 1000 | _ => ts end.
Definition window_start (window : Z) (unit : TimeUnit) (ts : Z) : Z :=
  window / 1000 * (resolved unit ts / 1000 / (window / 1000)) * 1000.
(** Windows of at least a second; times since the epoch, as milliseconds within
    what the sums allow. *)
Record window_ok (window : Z) (unit : TimeUnit) (f : FileHandle) : Prop := {
  wk_unit : valid_timestamp_unit unit = true;
  wk_window : 1000 <= window < 2 ^ 62;
  wk_end : 0 <= TimeRange.exclusive_end (fh_time_range f) < 2 ^ 62;
  wk_resolved : resolved unit (TimeRange.exclusive_end (fh_time_range f)) < 2 ^ 62
}.
Lemma resolve_ok unit ts : valid_timestamp_unit unit = true -> 0 <= ts -> resolved unit ts < 2 ^ 62 ->
  resolve_timestamp ts unit = @Ok E Z (resolved unit ts) /\ 0 <= resolved unit ts.
Proof.
  intros Hu H0 Hr. destruct unit; try discriminate Hu; cbn [resolve_timestamp resolved] in *;
    rewrite ?Z.quot_div_nonneg by lia; (split; [try done|try (apply Z.div_pos; lia); try lia]).
  apply i64_op_ok. unfold sint. lia.
Qed.
Lemma window_of_ok window unit f : window_ok window unit f ->
  window_of window unit f = @Ok E Z (window_start window unit (TimeRange.exclusive_end (fh_time_range f))).
Proof.
  intros [Hu Hw He Hr]. unfold window_of. destruct (resolve_ok unit (TimeRange.exclusive_end (fh_time_range f))) as [-> H0]; [done|lia|lia|].
  cbn [rbind]. unfold get_window_bounds_in_millis, window_start.
  set (ts := resolved unit _) in *. rewrite (as_s_id 64 (window / 1000)) by (unfold sint; pose proof (Z.div_le_upper_bound window 1000 (2 ^ 62)); pose proof (Z.div_pos window 1000); lia).
  assert (Hs : 1 <= window / 1000 < 2 ^ 62) by (split; [apply Z.div_le_lower_bound; lia|apply Z.div_lt_upper_bound; lia]).
  assert (Hs' : window / 1000 * 1000 <= window) by (pose proof (Z.mul_div_le window 1000); lia).
  set (s := window / 1000) in *. rewrite Z.quot_div_nonneg by lia.
  assert (Ht : 0 <= ts / 1000 /\ ts / 1000 * 1000 <= ts) by (split; [apply Z.div_pos; lia|pose proof (Z.mul_div_le ts 1000); lia]).
  set (t := ts / 1000) in *. rewrite Z.rem_mod_nonneg by lia. destruct (Z.eqb_spec s 0) as [|_]; [lia|].
  assert (Hm : t - t mod s = s * (t / s)) by (pose proof (Z.div_mod t s); lia).
  assert (Hb : 0 <= s * (t / s) <= t) by (split; [pose proof (Z.div_pos t s); nia|apply Z.mul_div_le; lia]).
  rewrite Hm. repeat (rewrite i64_op_ok by (unfold sint; lia); cbn [rbind]). done.
Qed.
Lemma window_start_mono window unit a b : 1000 <= window -> 0 <= a <= b ->
  0 <= window_start window unit a <= window_start window unit b.
Proof.
  intros Hw Hab. unfold window_start.
  assert (Hr : 0 <= resolved unit a <= resolved unit b).
  { destruct unit; cbn [resolved]; try lia; (split; [apply Z.div_pos; lia|apply Z.div_le_mono; lia]). }
  assert (Hs : 1 <= window / 1000) by (apply Z.div_le_lower_bound; lia).
  set (s := window / 1000) in *. set (ra := resolved unit a) in *. set (rb := resolved unit b) in *.
  assert (0 <= ra / 1000 <= rb / 1000) by (split; [apply Z.div_pos; lia|apply Z.div_le_mono; lia]).
  assert (0 <= ra / 1000 / s <= rb / 1000 / s) by (split; [apply Z.div_pos; lia|apply Z.div_le_mono; lia]). nia.
Qed.

Lemma get_buckets_ok window unit files top : Forall (window_ok window unit) files ->
  (forall f, f ∈ files -> window_start window unit (TimeRange.exclusive_end (fh_time_range f)) <= top) -> 0 <= top ->
  exists m mx, get_buckets files window unit = @Ok E _ (m, mx) /\ mx <= top.
Proof.
  intros Hok Htop H0. unfold get_buckets.
  assert (H : forall st : btree Z (list FileHandle) * Z, st.2 <= top -> exists st', rfold (push_bucket window unit) files st = @Ok E _ st' /\ st'.2 <= top).
  { clear H0. induction Hok as [|f files Hf Hok IH]; intros st Hst; [by exists st|]. cbn [rfold]. unfold push_bucket at 1.
    rewrite window_of_ok by done. cbn [rbind]. apply IH; [intros g Hg; apply Htop; by right|]. cbn [snd].
    destruct (_ <? _); [apply Htop; left|done]. }
  destruct (H ([], 0) H0) as ([m mx] & Hr & Hle). by exists m, mx.
Qed.
Lemma pick_bucket_ok o now k files : sizes_ok files -> exists r, pick_bucket sort_by_key o now (k, files) = @Ok E _ r /\
  (r = None -> let lo := if k <? now then 2%nat else min_threshold o in
   forall pre w post, run lo (max_threshold o) (max_input_sstable_size o) (newest_first files) pre w post -> w = []).
Proof.
  intros Hs. unfold pick_bucket, pick_ssts, pick_sst_for_old_bucket. cbn [fst snd].
  assert (Hlen : forall lo hi mx pre w post, run lo hi mx (newest_first files) pre w post -> (lo <= length files)%nat).
  { intros lo hi mx pre w post [Hsp Hl _]. apply (f_equal length) in Hsp. unfold newest_first in Hsp. 
    rewrite (Permutation_length (sort_perm (SortByKey:=SB) _ files)), !length_app in Hsp. lia. }
  destruct (Z.ltb_spec k now) as [Hk|Hk].
  - rewrite (proj2 (Z.leb_gt now k)), andb_false_r by lia. rewrite andb_true_r.
    destruct (Nat.leb_spec 2 (length files)).
    + destruct (pick_by_seq_ok files 2 (max_threshold o) (max_input_sstable_size o) Hs) as (r & -> & Hr).
      exists r. split; [done|]. by intros ->.
    + exists None. split; [done|]. intros _ pre w post Hr%Hlen. lia.
  - rewrite (proj2 (Z.leb_le now k)), andb_true_r, andb_false_r by lia.
    destruct (Nat.leb_spec (min_threshold o) (length files)).
    + destruct (pick_by_seq_ok files (min_threshold o) (max_threshold o) (max_input_sstable_size o) Hs) as (r & -> & Hr).
      exists r. split; [done|]. by intros ->.
    + exists None. split; [done|]. intros _ pre w post Hr%Hlen. lia.
Qed.
Lemma first_pick_ok (pick : Z * list FileHandle -> res E (option (list FileHandle))) l :
  (forall x, x ∈ l -> exists r, pick x = Ok r) ->
  exists r, first_pick pick l = Ok r /\ (r = None -> forall x, x ∈ l -> pick x = Ok None).
Proof.
  induction l as [|x l IH]; intros H; cbn [first_pick].
  - exists None. split; [done|]. intros _ x Hx. by apply elem_of_nil in Hx.
  - destruct (H x) as [r Hr]; [left|]. rewrite Hr. cbn [rbind]. destruct r as [fs|].
    + exists (Some fs). done.
    + destruct IH as (r & -> & Hn); [intros y Hy; apply H; by right|]. exists r. split; [done|].
      intros ->. intros y [->|Hy]%elem_of_cons; [done|]. by apply Hn.
Qed.

Lemma sorted_last_max {A} (R : A -> A -> Prop) l x : (forall a, R a a) -> StronglySorted R l -> last l = Some x ->
  forall y, y ∈ l -> R y x.
Proof.
  intros Hr Hs Hl y Hy. apply last_Some in Hl as [l' ->]. apply elem_of_app in Hy as [Hy|Hy%list_elem_of_singleton].
  - apply (StronglySorted_app_1_elem_of _ _ _ _ _ Hs); [done|]. left.
  - subst. apply Hr.
Qed.
Lemma latest_ends_last s m : file_set s m -> (file_map s).*2 <> [] ->
  exists f, set_latest s = Some f /\ f ∈ (file_map s).*2 /\ forall g, g ∈ (file_map s).*2 -> ends_le g f.
Proof.
  intros Hs Hne. unfold set_latest. rewrite <- fmap_last. destruct (last (file_map s).*2) as [f|] eqn:Hl.
  - exists f. split; [done|]. split; [apply last_Some in Hl as [l' ->]; set_solver|].
    apply sorted_last_max; [unfold ends_le; lia|by eapply file_set_ends|done].
  - by apply last_None in Hl.
Qed.

Lemma run_nil lo hi mx pre w post : run lo hi mx (newest_first []) pre w post -> w = [].
Proof.
  intros [Hsp _ _]. apply (f_equal length) in Hsp. unfold newest_first in Hsp.
  rewrite (Permutation_length (sort_perm (SortByKey:=SB) _ [])), !length_app in Hsp. destruct w; [done|]. cbn in Hsp. lia.
Qed.
(** Nothing is picked only if no window has a run. *)
Lemma newest_bucket_ok key files b o now : grouped key files b -> sizes_ok files ->
  exists r, newest_bucket sort_by_key b o now = @Ok E _ r /\
    (r = None -> forall k, let lo := if k <? now then 2%nat else min_threshold o in
     forall pre w post, run lo (max_threshold o) (max_input_sstable_size o) (newest_first (group key k files)) pre w post -> w = []).
Proof.
  intros Hb Hs. unfold newest_bucket. destruct (first_pick_ok (pick_bucket sort_by_key o now) (rev b)) as (r & -> & Hr).
  { intros [k g] Hin%elem_rev. rewrite (grouped_elem _ _ _ _ _ Hb Hin).
    destruct (pick_bucket_ok o now k (group key k files)) as (r & -> & _); [by apply group_sizes_ok|eauto]. }
  exists r. split; [done|]. intros -> k pre w post Hrun.
  destruct (bt_get Z.compare k b) as [g|] eqn:Hg; pose proof (gr_get _ _ _ Hb k) as Hgrp; rewrite Hg in Hgrp; cbn in Hgrp.
  - apply (bt_get_elem _ _ _ _ (gr_sorted _ _ _ Hb)) in Hg. specialize (Hr eq_refl (k, g)).
    rewrite <- (Permutation_rev b) in Hr. specialize (Hr Hg).
    destruct (pick_bucket_ok o now k (group key k files)) as (r & Hp & Hn); [by apply group_sizes_ok|].
    rewrite Hgrp, Hp in Hr. injection Hr as ->. by apply (Hn eq_refl _ _ _ Hrun).
  - rewrite <- Hgrp in Hrun. by apply run_nil in Hrun.
Qed.

(** Choosing by time window does not panic when windows are at least a second
    long and no file ends before the epoch, and it finds what there is to find: if
    nothing is picked, then in no window is there a run of files of the number and
    size the options ask for (two files are enough before the current window). *)
Theorem time_window_pick_returns ctx lc fl level e lh m :
  lc_levels lc !! Level.as_usize level = Some lh -> file_set (lh_files lh) m ->
  sizes_ok (level_iter_ssts lh) ->
  let o := time_window_opts ctx in
  let window := pc_segment_duration ctx in
  Forall (window_ok window (timestamp_resolution o)) (level_iter_ssts lh) ->
  exists r, time_window_pick sort_by_key ctx lc fl level e = @Ok E _ r /\
    (r = None -> forall now, get_current_window lc level window (timestamp_resolution o) = @Ok E _ now ->
     forall k files, find_uncompact_files lc fl level e = @Ok E _ files ->
     let lo := if k <? now then 2%nat else min_threshold (size_tiered o) in
     forall pre w post,
       run lo (max_threshold (size_tiered o)) (max_input_sstable_size (size_tiered o))
         (newest_first (group (window_of window (timestamp_resolution o)) k files)) pre w post -> w = []).
Proof.
  intros Hl Hfs Hsz o window Hok. unfold time_window_pick. fold o window.
  unfold find_uncompact_files, iter_ssts_at_level. rewrite Hl. cbn [unwrap rbind].
  set (un := filter _ (level_iter_ssts lh)). assert (Hun : sizes_ok un) by (eapply sizes_ok_sub; [apply filter_sub|done]).
  assert (Hsub : forall f, f ∈ un -> f ∈ level_iter_ssts lh) by (intros f Hf; by apply list_elem_of_filter in Hf as [_ Hf]).
  destruct (decide (un = [])) as [Hnil|Hnil].
  { exists None. rewrite Hnil. split; [done|]. intros _ now _ k files [= <-] pre w post Hr.
    by apply run_nil in Hr. }
  destruct (latest_ends_last _ _ Hfs) as (f & Hlast & Hf & Hends).
  { intros Hn. destruct un as [|g un'] eqn:Hu; [done|]. specialize (Hsub g ltac:(left)). unfold level_iter_ssts in Hsub.
    rewrite Hn in Hsub. by apply elem_of_nil in Hsub. }
  rewrite Forall_forall in Hok. pose proof (Hok f Hf) as Hfok.
  assert (Hmono : forall g, g ∈ un -> window_start window (timestamp_resolution o) (TimeRange.exclusive_end (fh_time_range g)) <=
    window_start window (timestamp_resolution o) (TimeRange.exclusive_end (fh_time_range f))).
  { intros g Hg. apply window_start_mono; [apply Hfok|]. pose proof (Hends g (Hsub g Hg)). unfold ends_le in *.
    pose proof (wk_end _ _ _ (Hok g (Hsub g Hg))). lia. }
  destruct (get_buckets_ok window (timestamp_resolution o) un _ ltac:(apply Forall_forall; auto) Hmono) as (b & mx & Hb & Hmx).
  { apply (window_start_mono window (timestamp_resolution o) _ (TimeRange.exclusive_end (fh_time_range f))); [apply Hfok|].
    pose proof (wk_end _ _ _ Hfok). lia. }
  assert (Hnow : get_current_window lc level window (timestamp_resolution o) =
    @Ok E _ (window_start window (timestamp_resolution o) (TimeRange.exclusive_end (fh_time_range f)))).
  { unfold get_current_window, latest_sst. rewrite Hl. cbn [unwrap rbind]. rewrite Hlast. cbn [unwrap rbind]. by apply window_of_ok. }
  destruct un as [|u0 un'] eqn:Hu; [done|]. rewrite <- Hu in *. clear Hu u0 un'. rewrite Hb. cbn [rbind]. rewrite Hnow. cbn [rbind].
  unfold rassert. rewrite (proj2 (Z.leb_le _ _) Hmx). cbn [rbind].
  eapply get_buckets_from in Hb; [|apply grouped_nil]. cbn [app fst] in Hb.
  destruct (newest_bucket_ok _ _ _ (size_tiered o) (window_start window (timestamp_resolution o) (TimeRange.exclusive_end (fh_time_range f))) Hb Hun)
    as (r & -> & Hr).
  exists r. split; [done|]. intros Hnone now [= <-] k files [= <-]. by apply Hr.
Qed.
End picks.

(** ** Expired files *)
Section expired.
Context {E : Type}.
Lemma take_expired_sub e l f : f ∈ take_expired e l -> f ∈ l /\ TimeRange.is_expired (fh_time_range f) e = true.
Proof.
  induction l as [|g l IH]; cbn [take_expired]; [by intros ?%elem_of_nil|].
  destruct (TimeRange.is_expired (fh_time_range g) e) eqn:He; [|by intros ?%elem_of_nil].
  intros [->|Hf]%elem_of_cons; [split; [left|done]|]. destruct (IH Hf). split; [by right|done].
Qed.
Lemma expired_held lc e l level files f : @expired_ssts E lc e = Ok l -> (level, files) ∈ l -> f ∈ files ->
  level ∈ lc_level_list lc /\ TimeRange.is_expired (fh_time_range f) e = true /\
  exists all, @iter_ssts_at_level E lc level = Ok all /\ f ∈ all.
Proof.
  unfold expired_ssts. revert l. induction (lc_level_list lc) as [|lv lvs IH]; cbn [expired_of]; intros l Hl Hin Hf.
  - injection Hl as <-. by apply elem_of_nil in Hin.
  - inv_ok. apply elem_of_cons in Hin as [[= -> ->]|Hin].
    + unfold collect_expired_at_level in *. inv_ok. unfold set_collect_expired in Hf. apply take_expired_sub in Hf as [Hf He].
      split_and!; [left|done|]. unfold iter_ssts_at_level.
      match goal with H : unwrap _ = Ok _ |- _ => rewrite H end. by eexists.
    + edestruct IH as (? & ? & ?); [done|done|done|]. split_and!; [by right|done|done].
Qed.
End expired.

(** ** A concrete table *)

(** A stable sort is one. *)
Definition key_le (key : FileHandle -> Z) (a b : FileHandle) : Prop := key a <= key b.
#[local] Instance key_le_dec key a b : Decision (key_le key a b) := Z_le_dec (key a) (key b).
Definition stable_sort (key : FileHandle -> Z) (l : list FileHandle) : list FileHandle :=
  merge_sort (key_le key) l.
#[export] Instance stable_sort_by_key : SortByKey stable_sort.
Proof.
  split; intros key l; unfold stable_sort.
  - apply merge_sort_Permutation.
  - assert (Transitive (key_le key)) by (intros a b c; unfold key_le; lia).
    assert (Total (key_le key)) by (intros a b; unfold key_le; lia).
    exact (StronglySorted_merge_sort (key_le key) l).
Qed.

Definition sst (id start stop size seq : Z) : FileMeta := MkFileMeta id size 1 (TimeRange.Mk start stop) seq Columnar.
Definition add_ssts (level : Level.t) (files : list FileMeta) (lc : LevelsController) : res unit LevelsController :=
  rfold (fun lc f => add_sst_to_level lc level f) files lc.
Definition ok_or {A} (r : res unit A) (d : A) : A := match r with Ok x => x | _ => d end.
Definition demo_levels : LevelsController :=
  ok_or (add_ssts 0 [sst 1 0 2000 10 1; sst 2 0 2000 10 2; sst 3 0 2000 30 3; sst 4 2000 4000 10 4] levels_new) levels_new.
Definition demo_ctx : PickerContext :=
  MkPickerContext 2000 (Some 60000) (TimeWindow (MkTimeWindow (MkSizeTiered 4 16 25) Milliseconds)).
Lemma demo_levels_sizes : levels_sizes_ok (E:=unit) demo_levels.
Proof.
  intros level files H. unfold iter_ssts_at_level in H. destruct (Level.as_usize level) as [|[|[|n]]];
    vm_compute in H; simplify_eq; split; repeat constructor; vm_compute; discriminate.
Qed.
Lemma pick_compaction_takes_run_witness :
  exists task fl' i, pick_compaction (E:=unit) stable_sort demo_ctx demo_levels ∅ 10000 = Ok (task, fl') /\
    ct_inputs task = [i] /\ size_of (ci_files i) <= 25.
Proof.
  destruct (pick_compaction (E:=unit) stable_sort demo_ctx demo_levels ∅ 10000) as [[task fl']| |] eqn:Hp;
    [|by vm_compute in Hp..].
  pose proof (fun i => pick_compaction_takes_run (E:=unit) stable_sort demo_ctx demo_levels ∅ 10000 task fl' i
    demo_levels_sizes Hp) as H.
  assert (Hi : exists i, ct_inputs task = [i]) by (vm_compute in Hp; simplify_eq; eexists; reflexivity).
  destruct Hi as [i Hi]. exists task, fl', i. split_and!; [done|done|].
  destruct (H i) as (files & k & lo & Hr); [rewrite Hi; left|]. exact (tr_size _ _ _ _ _ _ _ _ _ Hr).
Defined.
Lemma time_window_pick_returns_witness :
  exists lh m, lc_levels demo_levels !! 0%nat = Some lh /\ file_set (lh_files lh) m /\
    exists r, time_window_pick (E:=unit) stable_sort demo_ctx demo_levels ∅ 0 (Some 0) = Ok r.
Proof.
  destruct (lc_levels demo_levels !! 0%nat) as [lh|] eqn:Hl; [|by vm_compute in Hl]. exists lh.
  assert (Hf : exists m, file_set (lh_files lh) m).
  { assert (lh_files lh = set_insert (set_insert (set_insert (set_insert file_set_new
      (MkFileHandle (sst 1 0 2000 10 1) 0)) (MkFileHandle (sst 2 0 2000 10 2) 1))
      (MkFileHandle (sst 3 0 2000 30 3) 2)) (MkFileHandle (sst 4 2000 4000 10 4) 3)) as ->
      by (vm_compute in Hl; injection Hl as <-; vm_compute; reflexivity).
    eexists. repeat apply file_set_insert; try apply file_set_empty; vm_compute; reflexivity. }
  destruct Hf as [m Hf]. exists m. split_and!; [done|done|].
  destruct (time_window_pick_returns (E:=unit) stable_sort demo_ctx demo_levels ∅ 0 (Some 0) lh m Hl Hf) as (r & Hr & _).
  - vm_compute in Hl. simplify_eq. split; repeat constructor; vm_compute; discriminate.
  - vm_compute in Hl. simplify_eq. repeat constructor; vm_compute; try reflexivity; discriminate.
  - by exists r.
Defined.
(** A file whose range ends before the epoch makes the choice panic: the largest
    window starts at zero. *)
Lemma pick_before_epoch_panics :
  time_window_pick (E:=unit) stable_sort demo_ctx
    (ok_or (add_ssts 0 [sst 1 (-4000) (-2000) 10 1] levels_new) levels_new) ∅ 0 None = Panic.
Proof. vm_compute. reflexivity. Qed.
(** So do segments shorter than a second. *)
Lemma pick_short_window_panics :
  time_window_pick (E:=unit) stable_sort (MkPickerContext 999 None DefaultStrategy) demo_levels ∅ 0 None = Panic.
Proof. vm_compute. reflexivity. Qed.
