(* ===== verification/Compaction.v ===== *)
(** * Compacting files

    Models [compact_table] of [analytic_engine/src/instance/flush_compaction.rs]
    with the meta data of the output ([MetaData::merge] of [sst/writer.rs]): the
    files of a task are merged into one file of the next level, which replaces
    them in the version.

    A file of the store is a map from keys to rows.  The merge iterator and the
    dedup iterator, whose output [Merge] and [Dedup] determine, keep for every key
    the row of the file with the largest sequence; reading does the same over all
    files.  Rows are overwritten by key here (the tables that need dedup). *)

From Stdlib Require Import ZArith Lia.
From stdpp Require Import base tactics option list sorting numbers gmap sets.
From S2P Require Import Prelude Time BTree SstFile Version Picker.

#[local] Open Scope Z_scope.

(** [SstInfo], what the writer of a file reports. *)
Record SstInfo := MkSstInfo { si_file_size : Z; si_row_num : Z; si_storage_format : StorageFormat }.

Section compact.
Context {K V E : Type} `{Countable K}.
(** The files in the object store, by id. *)
Abbreviation store := (gmap Z (gmap K V)).

Definition sst_rows (ssts : store) (f : FileMeta) : gmap K V := default ∅ (ssts !! fm_id f).
(** [MergeIterator] and [DedupIterator] over files. *)
Definition newer (a b : Z * V) : option (Z * V) := Some (if a.1 <? b.1 then b else a).
Definition add_newer (ssts : store) (acc : gmap K (Z * V)) (f : FileMeta) : gmap K (Z * V) :=
  union_with newer acc (pair (fm_max_seq f) <$> sst_rows ssts f).
Definition newest (ssts : store) (files : list FileMeta) : gmap K (Z * V) := foldl (add_newer ssts) ∅ files.

(** [MetaData::merge]: the range and the sequence of the output. *)
Definition merge_meta (files : list FileMeta) : res E (TimeRange.t * Z) :=
  match files with
  | [] => Panic
  | first :: files =>
      let start := foldl (fun a f => Z.min (TimeRange.inclusive_start (fm_time_range f)) a)
        (TimeRange.inclusive_start (fm_time_range first)) files in
      let stop := foldl (fun a f => Z.max (TimeRange.exclusive_end (fm_time_range f)) a)
        (TimeRange.exclusive_end (fm_time_range first)) files in
      let max_sequence := foldl (fun a f => Z.max (fm_max_seq f) a) (fm_max_seq first) files in
      let? range := unwrap (TimeRange.new start stop) in
      Ok (range, max_sequence)
  end.

Definition edit_new : VersionEdit := MkVersionEdit 0 [] [] [] 0.
Definition delete_files_of (level : Level.t) (files : list FileHandle) (edit : VersionEdit) : VersionEdit :=
  MkVersionEdit (ve_flushed_sequence edit) (ve_mems_to_remove edit) (ve_files_to_add edit)
    (ve_files_to_delete edit ++ ((fun f => MkDeleteFile level (fh_id f)) <$> files)) (ve_max_file_id edit).
Definition delete_expired_files (expired : Level.t * list FileHandle) (edit : VersionEdit) : VersionEdit :=
  delete_files_of expired.1 expired.2 edit.
(** [compact_input_files]: [file_id] is what [alloc_file_id] gives, [info] what
    the writer reports. *)
Definition compact_input_files (file_id : Z) (info : SstInfo) (input : CompactionInputFiles) (edit : VersionEdit) (ssts : store)
  : res E (VersionEdit * store) :=
  match ci_files input with
  | [] => Ok (edit, ssts)
  | _ =>
      let metas := fh_meta <$> ci_files input in
      let? meta := merge_meta metas in
      let ssts := <[file_id := snd <$> newest ssts metas]> ssts in
      let file := MkFileMeta file_id (si_file_size info) (si_row_num info) meta.1 meta.2 (si_storage_format info) in
      let edit := delete_files_of (ci_level input) (ci_files input)
        (MkVersionEdit (Z.max meta.2 (ve_flushed_sequence edit)) (ve_mems_to_remove edit) (ve_files_to_add edit)
           (ve_files_to_delete edit) (ve_max_file_id edit)) in
      Ok (MkVersionEdit (ve_flushed_sequence edit) (ve_mems_to_remove edit)
            (ve_files_to_add edit ++ [MkAddFile (ci_output_level input) file]) (ve_files_to_delete edit) (ve_max_file_id edit), ssts)
  end.
(** [compact_table]: the edit that is stored; the ids follow each other. *)
Definition compact_table (file_id : Z) (info : SstInfo) (task : CompactionTask) (ssts : store)
  : res E (option VersionEdit * store) :=
  if task_is_empty task then Ok (None, ssts)
  else
    let edit := foldl (fun edit e => delete_expired_files e edit) edit_new (ct_expired task) in
    let? r := rfold (fun (st : Z * (VersionEdit * store)) input =>
      let? r := compact_input_files st.1 info input st.2.1 st.2.2 in Ok (st.1 + 1, r))
      (ct_inputs task) (file_id, (edit, ssts)) in
    Ok (Some r.2.1, r.2.2).

(** ** A table and its files *)
Record Table := MkTable { tb_version : TableVersion; tb_flags : flags; tb_ssts : store }.
Context (sort_by_key : (FileHandle -> Z) -> list FileHandle -> list FileHandle).

(** A task from its choice to its end: the files are marked, merged and replaced,
    and the task is dropped. *)
Definition run_compaction (ctx : PickerContext) (now file_id : Z) (info : SstInfo) (t : Table) : res E Table :=
  let? picked := pick_compaction sort_by_key ctx (levels_controller (tb_version t)) (tb_flags t) now in
  let? out := compact_table file_id info picked.1 (tb_ssts t) in
  let? version := (match out.1 with Some edit => apply_edit (tb_version t) edit | None => Ok (tb_version t) end) in
  Ok (MkTable version (task_drop picked.1 picked.2) out.2).
(** A flush adds a file to level 0. *)
Definition flush_file (file : FileMeta) (rows : gmap K V) (t : Table) : res E Table :=
  let? version := apply_edit (tb_version t) (MkVersionEdit (fm_max_seq file) [] [MkAddFile 0 file] [] 0) in
  Ok (MkTable version (tb_flags t) (<[fm_id file := rows]> (tb_ssts t))).

Definition table_files (t : Table) : list FileMeta :=
  concat ((fun lh => fh_meta <$> level_iter_ssts lh) <$> lc_levels (levels_controller (tb_version t))).
Definition read_row (t : Table) (k : K) : option V := snd <$> newest (tb_ssts t) (table_files t) !! k.

(** ** Which row is read *)
Definition has (ssts : store) (k : K) (f : FileMeta) : Prop := is_Some (sst_rows ssts f !! k).
Lemma add_newer_lookup ssts acc f k :
  add_newer ssts acc f !! k =
  match acc !! k, sst_rows ssts f !! k with
  | Some a, Some v => Some (if a.1 <? fm_max_seq f then (fm_max_seq f, v) else a)
  | Some a, None => Some a
  | None, o => pair (fm_max_seq f) <$> o
  end.
Proof.
  unfold add_newer. rewrite lookup_union_with, lookup_fmap. by destruct (acc !! k), (sst_rows ssts f !! k).
Qed.
Lemma elem_snoc {A} (x y : A) l : x ∈ l ++ [y] -> x ∈ l \/ x = y.
Proof. rewrite elem_of_app, list_elem_of_singleton. done. Qed.
(** The row read is one of a file with the largest sequence among those that hold
    the key. *)
Lemma newest_spec ssts files k : match newest ssts files !! k with
  | Some (s, v) => exists f, f ∈ files /\ sst_rows ssts f !! k = Some v /\ s = fm_max_seq f /\
      forall g, g ∈ files -> has ssts k g -> fm_max_seq g <= s
  | None => forall f, f ∈ files -> sst_rows ssts f !! k = None
  end.
Proof.
  induction files as [|f files IH] using rev_ind.
  { unfold newest. cbn [foldl]. rewrite lookup_empty. intros f Hf. by apply elem_of_nil in Hf. }
  unfold newest. rewrite foldl_snoc. fold (newest ssts files). rewrite add_newer_lookup.
  destruct (newest ssts files !! k) as [[s v]|].
  - destruct IH as (h & Hh & Hv & -> & Hmax). destruct (sst_rows ssts f !! k) as [w|] eqn:Hf.
    + cbn [fst]. destruct (Z.ltb_spec (fm_max_seq h) (fm_max_seq f));
        [exists f|exists h]; (split_and!; [set_solver|done|done|]); intros g [Hg| ->]%elem_snoc Hk;
        try specialize (Hmax g Hg Hk); lia.
    + exists h. split_and!; [set_solver|done|done|]. intros g [Hg| ->]%elem_snoc Hk; [by apply Hmax|].
      unfold has in Hk. rewrite Hf in Hk. by destruct Hk.
  - destruct (sst_rows ssts f !! k) as [w|] eqn:Hf; cbn [fmap option_fmap option_map].
    + exists f. split_and!; [set_solver|done|done|]. intros g [Hg| ->]%elem_snoc Hk; [|lia].
      unfold has in Hk. rewrite (IH g Hg) in Hk. by destruct Hk.
    + intros g [Hg| ->]%elem_snoc; [by apply IH|done].
Qed.
Lemma newest_is ssts files k f v : f ∈ files -> sst_rows ssts f !! k = Some v ->
  (forall g, g ∈ files -> has ssts k g -> fm_max_seq g <= fm_max_seq f) ->
  (forall g, g ∈ files -> has ssts k g -> fm_max_seq g = fm_max_seq f -> g = f) ->
  newest ssts files !! k = Some (fm_max_seq f, v).
Proof.
  intros Hf Hv Hmax Huniq. pose proof (newest_spec ssts files k) as Hs.
  destruct (newest ssts files !! k) as [[s w]|]; [|by rewrite Hs in Hv].
  destruct Hs as (g & Hg & Hw & -> & Hmax'). assert (Hh : has ssts k f) by (unfold has; by rewrite Hv).
  assert (Hhg : has ssts k g) by (unfold has; by rewrite Hw).
  assert (g = f) as -> by (apply Huniq; [done|done|]; pose proof (Hmax g Hg Hhg); pose proof (Hmax' f Hf Hh); lia). congruence.
Qed.

(** Replacing files next to each other in the order of sequences by their merge
    does not change what is read. *)
Section replace.
Context (ssts : store) (k : K) (files ins files' : list FileMeta) (gone : FileMeta -> Prop) (out : FileMeta) (ssts' : store).
Hypothesis Hins : forall f, f ∈ ins -> f ∈ files.
Hypothesis Hfiles' : forall f, f ∈ files' <-> (f ∈ files /\ f ∉ ins /\ ~ gone f) \/ f = out.
Hypothesis Hgone : forall f, gone f -> sst_rows ssts f !! k = None.
Hypothesis Hout : sst_rows ssts' out = snd <$> newest ssts ins.
Hypothesis Hsame : forall f, f ∈ files -> sst_rows ssts' f = sst_rows ssts f.
Hypothesis Hfresh : out ∉ files.
Hypothesis Hmax : (exists f, f ∈ ins /\ fm_max_seq f = fm_max_seq out) /\ forall f, f ∈ ins -> fm_max_seq f <= fm_max_seq out.
Hypothesis Hties : forall f g, f ∈ files -> g ∈ files -> fm_max_seq f = fm_max_seq g -> f ∈ ins \/ has ssts k f -> has ssts k g -> f = g.
Hypothesis Hadj : forall g, g ∈ files -> has ssts k g -> g ∉ ins ->
  (forall f, f ∈ ins -> fm_max_seq f <= fm_max_seq g) \/ (forall f, f ∈ ins -> fm_max_seq g <= fm_max_seq f).

Lemma kept_rows f : f ∈ files' -> f <> out -> f ∈ files /\ f ∉ ins /\ (has ssts' k f <-> has ssts k f).
Proof.
  intros Hf Hne. apply Hfiles' in Hf as [(Hf & Hn & _)|]; [|done]. unfold has. by rewrite (Hsame f Hf).
Qed.
Lemma out_row : sst_rows ssts' out !! k = snd <$> newest ssts ins !! k.
Proof. by rewrite Hout, lookup_fmap. Qed.
Lemma out_has : has ssts' k out -> exists f, f ∈ ins /\ has ssts k f.
Proof.
  unfold has at 1. rewrite out_row. pose proof (newest_spec ssts ins k) as Hs.
  destruct (newest ssts ins !! k) as [[s v]|]; [|intros [? [=]]]. intros _.
  destruct Hs as (f & Hf & Hv & _). exists f. split; [done|]. unfold has. by rewrite Hv.
Qed.

Lemma read_merged h v : h ∈ ins -> sst_rows ssts h !! k = Some v ->
  (forall g, g ∈ files -> has ssts k g -> fm_max_seq g <= fm_max_seq h) -> snd <$> newest ssts' files' !! k = Some v.
Proof.
  intros Hh Hv Htop. destruct Hmax as [(f0 & Hf0 & Heq0) Hle].
  assert (Hhas : has ssts k h) by (unfold has; by rewrite Hv).
  assert (Hlow : forall g, g ∈ files' -> g <> out -> has ssts' k g -> fm_max_seq g <= fm_max_seq f0 /\ fm_max_seq g <> fm_max_seq out).
  { intros g Hg Hne Hk. destruct (kept_rows g Hg Hne) as (Hgf & Hgn & Hiff). apply Hiff in Hk.
    assert (Hb : fm_max_seq g <= fm_max_seq f0).
    { destruct (Hadj g Hgf Hk Hgn) as [Hup|Hdn]; [|by apply Hdn]. pose proof (Hup h Hh). pose proof (Htop g Hgf Hk).
      destruct Hgn. rewrite (Hties g h); auto; lia. }
    split; [done|]. intros Heq. apply Hgn. rewrite <- (Hties f0 g); auto. congruence. }
  rewrite (newest_is ssts' files' k out v); [done| | | |].
  - apply Hfiles'. by right.
  - rewrite out_row. rewrite (newest_is ssts ins k h v); [done|done|done| |].
    + intros g Hg. apply Htop, Hins, Hg.
    + intros g Hg Hk Heq. apply Hties; auto.
  - intros g Hg Hk. destruct (decide (g = out)) as [->|Hne]; [lia|]. destruct (Hlow g Hg Hne Hk). lia.
  - intros g Hg Hk Heq. destruct (decide (g = out)) as [->|Hne]; [done|]. by destruct (Hlow g Hg Hne Hk).
Qed.

Lemma read_kept h v : h ∈ files -> h ∉ ins -> sst_rows ssts h !! k = Some v ->
  (forall g, g ∈ files -> has ssts k g -> fm_max_seq g <= fm_max_seq h) -> snd <$> newest ssts' files' !! k = Some v.
Proof.
  intros Hf Hn Hv Htop. destruct Hmax as [(f0 & Hf0 & Heq0) Hle].
  assert (Hhas : has ssts k h) by (unfold has; by rewrite Hv).
  assert (Hlow : has ssts' k out -> fm_max_seq out < fm_max_seq h).
  { intros (f & Hfi & Hk)%out_has. pose proof (Htop f (Hins f Hfi) Hk).
    assert (fm_max_seq f <> fm_max_seq h) by (intros Heq; apply Hn; rewrite <- (Hties f h); auto).
    destruct (Hadj h Hf Hhas Hn) as [Hup|Hdn]; [|specialize (Hdn f Hfi); lia]. pose proof (Hup f0 Hf0).
    assert (fm_max_seq f0 <> fm_max_seq h) by (intros Heq; apply Hn; rewrite <- (Hties f0 h); auto). lia. }
  assert (Hlast : forall g, g ∈ files' -> has ssts' k g -> fm_max_seq g <= fm_max_seq h /\ (fm_max_seq g = fm_max_seq h -> g = h)).
  { intros g Hg Hk. destruct (decide (g = out)) as [->|Hne]; [specialize (Hlow Hk); lia|].
    destruct (kept_rows g Hg Hne) as (Hgf & _ & Hiff). apply Hiff in Hk. split; [by apply Htop|]. intros Heq. apply Hties; auto. }
  rewrite (newest_is ssts' files' k h v); [done| | | |].
  - apply Hfiles'. left. split_and!; [done|done|]. intros Hg%Hgone. congruence.
  - by rewrite (Hsame h Hf).
  - intros g Hg Hk. by apply Hlast.
  - intros g Hg Hk. by apply Hlast.
Qed.

Lemma read_replaced : snd <$> newest ssts' files' !! k = snd <$> newest ssts files !! k.
Proof.
  pose proof (newest_spec ssts files k) as Hs. destruct (newest ssts files !! k) as [[s v]|] eqn:Hr; cbn [fmap option_fmap option_map snd].
  - destruct Hs as (h & Hh & Hv & -> & Htop). destruct (decide (h ∈ ins)) as [Hi|Hi].
    + by apply (read_merged h).
    + by apply (read_kept h).
  - pose proof (newest_spec ssts' files' k) as Hs'. destruct (newest ssts' files' !! k) as [[s v]|]; [|done]. exfalso.
    destruct Hs' as (f & Hf & Hv & _). assert (Hk : has ssts' k f) by (unfold has; by rewrite Hv).
    destruct (decide (f = out)) as [->|Hne].
    + apply out_has in Hk as (g & Hg & [w Hw]). by rewrite (Hs g (Hins g Hg)) in Hw.
    + destruct (kept_rows f Hf Hne) as (Hff & _ & Hiff). apply Hiff in Hk as [w Hw]. by rewrite (Hs f Hff) in Hw.
Qed.
End replace.

(** ** The files of a table *)
Lemma level_file_held lc m level files f : lc_holds lc m -> level ∈ lc_level_list lc ->
  @iter_ssts_at_level E lc level = Ok files -> f ∈ files ->
  valid_level level /\ m !! fh_id f = Some (MkAddFile level (fh_meta f)).
Proof.
  intros (s0 & s1 & m0 & m1 & [Hl H0 H1 Hd ->]) Hlv Hit Hf. unfold lc_level_list in Hlv. rewrite Hl in Hlv. cbn in Hlv.
  unfold iter_ssts_at_level in Hit. rewrite Hl in Hit.
  rewrite !elem_of_cons, elem_of_nil in Hlv. destruct Hlv as [->|[->|[]]]; cbn in Hit; injection Hit as <-; unfold level_iter_ssts in Hf; cbn in Hf.
  - split; [by left|]. apply (file_set_elem s0 m0) in Hf; [|done]. apply lookup_union_Some_l. unfold level_files. by rewrite lookup_fmap, Hf.
  - split; [by right|]. apply (file_set_elem s1 m1) in Hf; [|done]. rewrite lookup_union_r.
    + unfold level_files. by rewrite lookup_fmap, Hf.
    + apply level_files_None. destruct (m0 !! fh_id f) eqn:Hm; [|done]. by edestruct (proj1 (map_disjoint_spec m0 m1) Hd).
Qed.
Lemma table_files_spec t m f : lc_holds (levels_controller (tb_version t)) m ->
  f ∈ table_files t <-> exists level, m !! fm_id f = Some (MkAddFile level f).
Proof.
  intros (s0 & s1 & m0 & m1 & [Hl H0 H1 Hd ->]). unfold table_files. rewrite Hl. cbn [fmap list_fmap concat level_iter_ssts lh_files].
  rewrite app_nil_r, elem_of_app, !list_elem_of_fmap. split.
  - intros [(h & -> & Hh)|(h & -> & Hh)]; [exists 0|exists 1].
    + apply (file_set_elem s0 m0) in Hh; [|done]. apply lookup_union_Some_l. unfold level_files. rewrite lookup_fmap.
      change (fm_id (fh_meta h)) with (fh_id h). by rewrite Hh.
    + apply (file_set_elem s1 m1) in Hh; [|done]. apply lookup_union_Some_raw. right. split.
      * apply level_files_None. destruct (m0 !! fm_id (fh_meta h)) eqn:Hm; [|done]. by edestruct (proj1 (map_disjoint_spec m0 m1) Hd).
      * unfold level_files. rewrite lookup_fmap. change (fm_id (fh_meta h)) with (fh_id h). by rewrite Hh.
  - intros (level & [Hm|[_ Hm]]%lookup_union_Some_raw); apply lookup_fmap_Some in Hm as (h & [= <- <-] & Hh).
    + left. exists h. split; [done|]. by apply (file_set_elem s0 m0).
    + right. exists h. split; [done|]. by apply (file_set_elem s1 m1).
Qed.
Lemma foldl_deleted_lookup l : forall (m : gmap Z AddFile) id a,
  foldl file_deleted m l !! id = Some a <-> m !! id = Some a /\ id ∉ df_file_id <$> l.
Proof.
  induction l as [|d l IH]; intros m id a; cbn [foldl fmap list_fmap].
  - split; [intros ?; split; [done|apply not_elem_of_nil]|by intros [? _]].
  - rewrite IH. unfold file_deleted. rewrite lookup_delete_Some, not_elem_of_cons. naive_solver.
Qed.

(** ** The edit of a task *)
Definition deletes_of (l : list (Level.t * list FileHandle)) : list DeleteFile :=
  concat ((fun e : Level.t * list FileHandle => (fun f => MkDeleteFile e.1 (fh_id f)) <$> e.2) <$> l).
Lemma expired_edit l : forall edit,
  foldl (fun edit e => delete_expired_files e edit) edit l =
  MkVersionEdit (ve_flushed_sequence edit) (ve_mems_to_remove edit) (ve_files_to_add edit)
    (ve_files_to_delete edit ++ deletes_of l) (ve_max_file_id edit).
Proof.
  induction l as [|e l IH]; intros edit; cbn [foldl].
  - destruct edit. cbn. by rewrite app_nil_r.
  - rewrite IH. unfold delete_expired_files, delete_files_of, deletes_of.
    cbn [ve_files_to_delete ve_flushed_sequence ve_mems_to_remove ve_files_to_add ve_max_file_id fmap list_fmap concat].
    by rewrite <- app_assoc.
Qed.
Lemma merge_meta_max files range s : merge_meta files = Ok (range, s) ->
  (exists f, f ∈ files /\ fm_max_seq f = s) /\ forall f, f ∈ files -> fm_max_seq f <= s.
Proof.
  destruct files as [|f0 files]; cbn [merge_meta]; intros H1; [done|].
  apply rbind_ok in H1 as (x & _ & H1). injection H1 as _ <-. clear x. revert f0.
  assert (Hg : forall (files : list FileMeta) a, (exists f, f ∈ files /\ fm_max_seq f = foldl (fun a f => Z.max (fm_max_seq f) a) a files) \/
    foldl (fun a f => Z.max (fm_max_seq f) a) a files = a) .
  { intros fs. induction fs as [|f fs IH]; intros a; cbn [foldl]; [by right|]. destruct (IH (Z.max (fm_max_seq f) a)) as [(g & Hg & He)|He].
    - left. exists g. split; [by right|done].
    - rewrite He. destruct (Z.max_spec (fm_max_seq f) a) as [[_ ->]|[_ ->]]; [by right|]. left. exists f. split; [left|done]. }
  assert (Hm : forall (files : list FileMeta) a, a <= foldl (fun a f => Z.max (fm_max_seq f) a) a files /\
    forall f, f ∈ files -> fm_max_seq f <= foldl (fun a f => Z.max (fm_max_seq f) a) a files).
  { intros fs. induction fs as [|f fs IH]; intros a; cbn [foldl]; [split; [lia|]; by intros f ?%elem_of_nil|].
    destruct (IH (Z.max (fm_max_seq f) a)) as [Ha Hf]. split; [lia|]. intros g [->|Hin]%elem_of_cons; [lia|by apply Hf]. }
  intros f0. split.
  - destruct (Hg files (fm_max_seq f0)) as [(f & Hf & He)|He]; [exists f|exists f0].
    + split; [by right|done].
    + split; [left|by rewrite He].
  - intros f [->|Hf]%elem_of_cons; destruct (Hm files (fm_max_seq f0)) as [? Hx]; [done|by apply Hx].
Qed.

Lemma merge_meta_ok files : files <> [] ->
  (forall f, f ∈ files -> TimeRange.inclusive_start (fm_time_range f) <= TimeRange.exclusive_end (fm_time_range f)) ->
  exists meta, merge_meta files = Ok meta.
Proof.
  destruct files as [|f0 files]; [done|]. intros _ Hr. cbn [merge_meta]. unfold TimeRange.new.
  assert (H1 : forall (l : list FileMeta) a, foldl (fun a f => Z.min (TimeRange.inclusive_start (fm_time_range f)) a) a l <= a).
  { intros l. induction l as [|f l IH]; intros a; cbn [foldl]; [lia|]. etrans; [apply IH|]. lia. }
  assert (H2 : forall (l : list FileMeta) a, a <= foldl (fun a f => Z.max (TimeRange.exclusive_end (fm_time_range f)) a) a l).
  { intros l. induction l as [|f l IH]; intros a; cbn [foldl]; [lia|]. etrans; [|apply IH]. lia. }
  specialize (H1 files (TimeRange.inclusive_start (fm_time_range f0))). specialize (H2 files (TimeRange.exclusive_end (fm_time_range f0))).
  specialize (Hr f0 ltac:(left)). rewrite (proj2 (Z.leb_le _ _)) by lia. by eexists.
Qed.
Lemma compact_one file_id info expired i ssts range s : ci_files i <> [] -> merge_meta (fh_meta <$> ci_files i) = Ok (range, s) ->
  compact_table file_id info (MkTask [i] expired) ssts =
  Ok (Some (MkVersionEdit (Z.max s 0) [] [MkAddFile (ci_output_level i)
        (MkFileMeta file_id (si_file_size info) (si_row_num info) range s (si_storage_format info))]
        (deletes_of (expired ++ [(ci_level i, ci_files i)])) 0),
      <[file_id := snd <$> newest ssts (fh_meta <$> ci_files i)]> ssts).
Proof.
  intros Hne Hm. unfold compact_table, task_is_empty. cbn [ct_inputs ct_expired rfold]. rewrite expired_edit.
  unfold compact_input_files at 1. cbn [fst snd]. rewrite Hm. destruct (ci_files i) as [|f fs] eqn:Hf; [done|]. rewrite <- Hf.
  cbn [rbind fst snd]. unfold delete_files_of, deletes_of, edit_new. cbn. rewrite fmap_app, concat_app. cbn.
  by rewrite app_nil_r.
Qed.
Lemma deletes_of_elem l d : d ∈ deletes_of l <-> exists level files f, (level, files) ∈ l /\ f ∈ files /\ d = MkDeleteFile level (fh_id f).
Proof.
  unfold deletes_of. rewrite list_elem_of_In. rewrite in_concat. setoid_rewrite <- list_elem_of_In. split.
  - intros (x & Hx & Hd). apply list_elem_of_fmap in Hx as ([level files] & -> & Hin). apply list_elem_of_fmap in Hd as (f & -> & Hf).
    by exists level, files, f.
  - intros (level & files & f & Hin & Hf & ->). eexists. split; [by apply (list_elem_of_fmap_2 _ _ _ Hin)|]. cbn. by apply (list_elem_of_fmap_2 (fun f => MkDeleteFile level (fh_id f))).
Qed.

(** A file of the table that the inputs [i] are compared with: one of the same
    group at their level that could have been taken, or one that is older or newer
    than all of them. *)
Definition beside (ctx : PickerContext) (lc : LevelsController) (fl : flags) (e : option Z) (i : CompactionInputFiles) (g : FileMeta) : Prop :=
  (exists files h, @iter_ssts_at_level E lc (ci_level i) = Ok files /\ h ∈ files /\ fh_meta h = g /\
     being_compacted fl h = false /\ TimeRange.is_expired (fm_time_range g) e = false /\
     forall f, f ∈ ci_files i -> @group_of E ctx h = group_of ctx f) \/
  (forall f, f ∈ ci_files i -> fh_max_sequence f <= fm_max_seq g) \/
  (forall f, f ∈ ci_files i -> fm_max_seq g <= fh_max_sequence f).

(** The hypotheses on the files of a table under which a compaction is looked at. *)
Record table_ok (t : Table) (m : gmap Z AddFile) (file_id : Z) : Prop := {
  to_holds : lc_holds (levels_controller (tb_version t)) m;
  to_sizes : levels_sizes_ok (E:=E) (levels_controller (tb_version t));
  to_fresh : m !! file_id = None;
  to_ranges : forall f, f ∈ table_files t -> TimeRange.inclusive_start (fm_time_range f) <= TimeRange.exclusive_end (fm_time_range f)
}.

(** The table after the edit of a task. *)
Definition gone (expired : list (Level.t * list FileHandle)) (f : FileMeta) : Prop :=
  exists level files h, (level, files) ∈ expired /\ h ∈ files /\ fh_meta h = f.
Section edit.
Context (t : Table) (m : gmap Z AddFile) (file_id : Z) (e : option Z) (expired : list (Level.t * list FileHandle))
  (i : CompactionInputFiles) (files : list FileHandle).
Hypothesis Hok : table_ok t m file_id.
Hypothesis Hex : expired_ssts (levels_controller (tb_version t)) e = @Ok E _ expired.
Hypothesis Hlv : ci_level i ∈ lc_level_list (levels_controller (tb_version t)).
Hypothesis Hit : @iter_ssts_at_level E (levels_controller (tb_version t)) (ci_level i) = Ok files.
Hypothesis Hsub : ci_files i ⊆+ files.
Abbreviation deleted := (deletes_of (expired ++ [(ci_level i, ci_files i)])).

Lemma deletes_held d : d ∈ deleted -> exists f, d = MkDeleteFile (df_level d) (fh_id f) /\ valid_level (df_level d) /\
    m !! fh_id f = Some (MkAddFile (df_level d) (fh_meta f)) /\ (f ∈ ci_files i \/ gone expired (fh_meta f)).
Proof.
  intros Hd. pose proof (to_holds _ _ _ Hok) as Hh. apply deletes_of_elem in Hd as (level & fs & f & Hin & Hf & ->).
  exists f. cbn [df_level]. split; [done|]. apply elem_of_app in Hin as [Hin|Hin%list_elem_of_singleton].
  - destruct (expired_held _ _ _ _ _ _ Hex Hin Hf) as (Hl & _ & all & Hall & Hfa).
    destruct (level_file_held _ _ _ _ _ Hh Hl Hall Hfa) as [Hv Hm]. split_and!; [done|done|]. right. by exists level, fs, f.
  - injection Hin as -> ->. destruct (level_file_held _ _ _ _ f Hh Hlv Hit) as [Hv Hm]; [by eapply elem_of_submseteq|].
    split_and!; [done|done|by left].
Qed.
Lemma deleted_ids f level : m !! fm_id f = Some (MkAddFile level f) ->
  fm_id f ∈ df_file_id <$> deleted <-> f ∈ fh_meta <$> ci_files i \/ gone expired f.
Proof.
  intros Hf. split.
  - intros (d & Hd & HdD)%list_elem_of_fmap. destruct (deletes_held d HdD) as (h & Heq & _ & Hm & Hor).
    assert (f = fh_meta h) as -> by (rewrite Heq in Hd; cbn in Hd; rewrite Hd in Hf; congruence).
    destruct Hor as [Hi|Hg]; [left; by apply list_elem_of_fmap_2|by right].
  - intros Hor. apply list_elem_of_fmap. destruct Hor as [Hin|(lv & fs & h & Hin & Hhf & <-)].
    + apply list_elem_of_fmap in Hin as (h & -> & Hin). exists (MkDeleteFile (ci_level i) (fh_id h)). split; [done|].
      apply deletes_of_elem. exists (ci_level i), (ci_files i), h. split_and!; [apply elem_of_app; right; left|done|done].
    + exists (MkDeleteFile lv (fh_id h)). split; [done|]. apply deletes_of_elem. exists lv, fs, h.
      split_and!; [apply elem_of_app; by left|done|done].
Qed.

Lemma compaction_files out flushed fl' ssts' : valid_level (ci_output_level i) -> fm_id out = file_id ->
  exists v', apply_edit (tb_version t)
    (MkVersionEdit flushed [] [MkAddFile (ci_output_level i) out] deleted 0) = @Ok E _ v' /\
    forall f, f ∈ table_files (MkTable v' fl' ssts') <->
      (f ∈ table_files t /\ f ∉ fh_meta <$> ci_files i /\ ~ gone expired f) \/ f = out.
Proof.
  intros Hvl Hid. pose proof (to_holds _ _ _ Hok) as Hh. pose proof (to_fresh _ _ _ Hok) as Hfresh.
  destruct (add_files_holds (E:=E) [MkAddFile (ci_output_level i) out] _ _ Hh) as (lc1 & Hlc1 & Hh1); [by rewrite <- Hid in Hfresh|].
  destruct (delete_files_holds (E:=E) deleted _ _ Hh1) as (lc2 & Hlc2 & Hh2).
  { intros d Hd. destruct (deletes_held d Hd) as (f & Heq & Hv & Hm & _). split; [done|]. intros a Ha.
    rewrite Heq in Ha. cbn [df_file_id] in Ha.
    unfold file_added in Ha. cbn [foldl af_file] in Ha. rewrite lookup_insert_ne in Ha by (rewrite Hid; intros Hx; congruence).
    rewrite Hm in Ha. by injection Ha as <-. }
  unfold apply_edit. cbn [ve_files_to_add ve_files_to_delete]. rewrite Hlc1. cbn [rbind]. rewrite Hlc2. cbn [rbind].
  eexists. split; [done|]. intros f. rewrite (table_files_spec (MkTable (MkVersion _ lc2 _ _) fl' ssts') _ f Hh2), (table_files_spec _ _ f Hh).
  setoid_rewrite foldl_deleted_lookup. unfold file_added. cbn [foldl af_file]. rewrite Hid. setoid_rewrite lookup_insert_Some.
  split.
  - intros (level & [[Hx Hy]|[Hx Hy]] & Hnd); [injection Hy as _ ->; by right|]. left. split; [by exists level|].
    rewrite (deleted_ids f level Hy) in Hnd. split; intros Hz; apply Hnd; auto.
  - intros [((level & Hf) & Hn & Hg)| ->].
    + exists level. split; [right; split; [intros Hx; congruence|done]|]. rewrite (deleted_ids f level Hf). by intros [?|?].
    + exists (ci_output_level i). split; [left; by rewrite Hid|]. rewrite Hid. intros (d & Hd & HdD)%list_elem_of_fmap.
      destruct (deletes_held d HdD) as (h & Heq & _ & Hm & _). rewrite Heq in Hd. cbn in Hd. congruence.
Qed.
End edit.

Context {SB : SortByKey sort_by_key}.
Lemma next_valid level : valid_level level -> forall next, Level.next level = @Ok E _ next -> valid_level next.
Proof. intros [-> | ->] next [= <-]; by right. Qed.
Lemma picked_task ctx lc fl now task fl' : pick_compaction sort_by_key ctx lc fl now = @Ok E _ (task, fl') ->
  expired_ssts lc (Timestamp.expire_time now <$> pc_ttl ctx) = @Ok E _ (ct_expired task).
Proof. intros Hp. unfold pick_compaction in Hp. inv_ok. unfold task_build in *. by simplify_eq. Qed.

(** Files beside the inputs are on one side of them. *)
Lemma beside_adjacent ctx lc fl e fl' i files k lo g :
  takes_run (E:=E) ctx lc fl e fl' i files k lo -> ci_files i <> [] -> beside ctx lc fl e i g -> g ∉ fh_meta <$> ci_files i ->
  (forall f, f ∈ fh_meta <$> ci_files i -> fm_max_seq f <= fm_max_seq g) \/
  (forall f, f ∈ fh_meta <$> ci_files i -> fm_max_seq g <= fm_max_seq f).
Proof.
  intros [[_ Hit] _ _ Hfs _ _ _ Hadj] Hne Hb Hn. destruct Hb as [(fs & h & Hfs' & Hh & <- & Hfl & He & Hg)|[Hup|Hdn]].
  - rewrite Hit in Hfs'. injection Hfs' as <-. assert (Hnh : h ∉ ci_files i) by (intros Hx; apply Hn; by apply list_elem_of_fmap_2).
    assert (Hsome : exists f, f ∈ ci_files i) by (destruct (ci_files i); [done|eexists; left]).
    destruct Hsome as (f0 & Hf0). destruct (Hadj h Hh Hfl He) as [H1|H1];
      [rewrite (Hg f0 Hf0); by apply Hfs|done|left|right]; intros f (h' & -> & Hin)%list_elem_of_fmap; by apply H1.
  - left. intros g' (h & -> & Hin)%list_elem_of_fmap. by apply Hup.
  - right. intros g' (h & -> & Hin)%list_elem_of_fmap. by apply Hdn.
Qed.

(** C10. A compaction does not change what is read: for a key that no expired file
    holds, the table returns the same row before and after the files of the task
    are merged and replaced, if the sequences tell the files apart and every other
    file that holds the key is one the picker compared the inputs with, or is
    older or newer than all inputs. *)
Theorem compaction_preserves_reads ctx now file_id info t m task fl' i k :
  table_ok t m file_id -> min_threshold (tier_opts ctx) <> 0%nat ->
  pick_compaction sort_by_key ctx (levels_controller (tb_version t)) (tb_flags t) now = @Ok E _ (task, fl') ->
  ct_inputs task = [i] ->
  let e := Timestamp.expire_time now <$> pc_ttl ctx in
  let ins := fh_meta <$> ci_files i in
  (forall f, f ∈ table_files t -> TimeRange.is_expired (fm_time_range f) e = true -> sst_rows (tb_ssts t) f !! k = None) ->
  (forall f g, f ∈ table_files t -> g ∈ table_files t -> fm_max_seq f = fm_max_seq g ->
     f ∈ ins \/ has (tb_ssts t) k f -> has (tb_ssts t) k g -> f = g) ->
  (forall g, g ∈ table_files t -> has (tb_ssts t) k g -> g ∉ ins ->
     beside ctx (levels_controller (tb_version t)) (tb_flags t) e i g) ->
  exists t', run_compaction ctx now file_id info t = @Ok E _ t' /\ read_row t' k = read_row t k.
Proof.
  intros Hok Hlo Hp Hi e ins Hexp Hties Hbes. pose proof (to_holds _ _ _ Hok) as Hh.
  destruct (pick_takes_run sort_by_key ctx _ _ now task fl' i (to_sizes _ _ _ Hok) Hp) as (files & g & lo & Hrun); [rewrite Hi; left|].
  pose proof (picked_task _ _ _ _ _ _ Hp) as Hex. fold e in Hrun, Hex.
  pose proof Hrun as [[Hlv Hit] Hout Hsub _ Hmin Hlen _ _].
  assert (Hne : ci_files i <> []) by (intros Hnil; rewrite Hnil in Hlen; cbn in Hlen; destruct Hmin; lia).
  assert (Hheld : forall f, f ∈ files -> valid_level (ci_level i) /\ m !! fh_id f = Some (MkAddFile (ci_level i) (fh_meta f)))
    by (intros f Hf; by eapply level_file_held).
  assert (Hins : forall f, f ∈ ins -> f ∈ table_files t).
  { intros f (h & -> & Hin)%list_elem_of_fmap. rewrite (table_files_spec _ _ _ Hh). exists (ci_level i).
    by apply Hheld; eapply elem_of_submseteq. }
  assert (Hsome : exists f, f ∈ ci_files i) by (destruct (ci_files i); [done|eexists; left]).
  assert (Hvl : valid_level (ci_output_level i)).
  { destruct Hsome as (f0 & Hf0). apply (next_valid (ci_level i)); [|done]. apply (Hheld f0). by eapply elem_of_submseteq. }
  destruct (merge_meta_ok ins) as ([range s] & Hmeta); [by intros ?%fmap_nil_inv|intros f Hf; by apply (to_ranges _ _ _ Hok), Hins|].
  set (out := MkFileMeta file_id (si_file_size info) (si_row_num info) range s (si_storage_format info)).
  destruct (compaction_files t m file_id e _ i files Hok Hex Hlv Hit Hsub out (Z.max s 0) (task_drop task fl')
    (<[file_id := snd <$> newest (tb_ssts t) ins]> (tb_ssts t)) Hvl eq_refl) as (v' & Hv' & Hfiles').
  exists (MkTable v' (task_drop task fl') (<[file_id := snd <$> newest (tb_ssts t) ins]> (tb_ssts t))). split.
  { unfold run_compaction. rewrite Hp. cbn [rbind fst snd]. destruct task as [inputs expired]. cbn [ct_inputs ct_expired] in *. subst inputs.
    rewrite (compact_one _ _ _ _ _ range s) by done. cbn [rbind fst snd]. fold out. by rewrite Hv'. }
  unfold read_row. cbn [tb_ssts]. apply (read_replaced _ _ _ ins _ (gone (ct_expired task)) out); try done.
  - intros f (level & fs & h & Hin & Hf & <-). destruct (expired_held _ _ _ _ _ _ Hex Hin Hf) as (Hl & He & all & Hall & Hfa).
    apply Hexp; [|done]. rewrite (table_files_spec _ _ _ Hh). exists level. by apply (level_file_held _ _ _ _ _ Hh Hl Hall Hfa).
  - unfold sst_rows. cbn [out fm_id]. by rewrite lookup_insert_eq.
  - intros f Hf. unfold sst_rows. rewrite lookup_insert_ne; [done|]. intros Heq. apply (table_files_spec _ _ _ Hh) in Hf as [level Hf].
    rewrite <- Heq, (to_fresh _ _ _ Hok) in Hf. done.
  - by apply (merge_meta_max ins range).
  - intros f Hf Hk Hn. by apply (beside_adjacent _ _ _ _ _ _ _ _ _ f Hrun Hne (Hbes f Hf Hk Hn)).
Qed.

(** ** Tables that are flushed and compacted, one step after the other *)
Inductive table_run (ctx : PickerContext) : Table -> Prop :=
| tr_new : table_run ctx (MkTable version_new ∅ ∅)
| tr_flush t file rows t' : table_run ctx t -> (forall f, f ∈ table_files t -> fm_id f <> fm_id file /\ fm_max_seq f < fm_max_seq file) ->
    flush_file file rows t = @Ok E _ t' -> table_run ctx t'
| tr_compact t now file_id info t' : table_run ctx t -> (forall f, f ∈ table_files t -> fm_id f <> file_id) ->
    run_compaction ctx now file_id info t = @Ok E _ t' -> table_run ctx t'.
End compact.

Definition small_runs : PickerContext :=
  MkPickerContext 2000 None (TimeWindow (MkTimeWindow (MkSizeTiered 2 16 25) Milliseconds)).
Definition rows_of_key (k v : nat) : gmap nat nat := {[ k := v ]}.
Abbreviation demo_table := (Table (K:=nat) (V:=nat)).
Definition empty_table : demo_table := MkTable version_new ∅ ∅.
Definition get (r : res unit demo_table) : demo_table := ok_or r empty_table.
Definition flush (file : FileMeta) (rows : gmap nat nat) (t : demo_table) : demo_table := get (flush_file file rows t).
Definition compact (file_id : Z) (t : demo_table) : demo_table :=
  get (run_compaction stable_sort small_runs 10000 file_id (MkSstInfo 20 2 Columnar) t).
Definition flushed_three : demo_table :=
  flush (sst 3 0 2000 10 3) (rows_of_key 8 3) (flush (sst 2 0 2000 10 2) (rows_of_key 7 2)
    (flush (sst 1 0 2000 10 1) (rows_of_key 7 1) empty_table)).
Definition compacted_once : demo_table := flush (sst 5 0 2000 10 4) (rows_of_key 9 4) (compact 4 flushed_three).

Lemma flush_run file rows t : table_run (E:=unit) stable_sort small_runs t ->
  forallb (fun f => negb (fm_id f =? fm_id file) && (fm_max_seq f <? fm_max_seq file)) (table_files t) = true ->
  flush_file file rows t = @Ok unit _ (flush file rows t) -> table_run (E:=unit) stable_sort small_runs (flush file rows t).
Proof.
  intros Ht Hf. apply tr_flush; [done|]. intros f Hin. rewrite forallb_forall in Hf. apply list_elem_of_In, Hf in Hin. lia.
Qed.
Lemma compact_run file_id t : table_run (E:=unit) stable_sort small_runs t ->
  forallb (fun f => negb (fm_id f =? file_id)) (table_files t) = true ->
  run_compaction stable_sort small_runs 10000 file_id (MkSstInfo 20 2 Columnar) t = @Ok unit _ (compact file_id t) ->
  table_run (E:=unit) stable_sort small_runs (compact file_id t).
Proof.
  intros Ht Hf. apply tr_compact; [done|]. intros f Hin. rewrite forallb_forall in Hf. apply list_elem_of_In, Hf in Hin. lia.
Qed.
Lemma flushed_three_run : table_run (E:=unit) stable_sort small_runs flushed_three.
Proof.
  do 3 (apply flush_run; [|vm_compute; reflexivity|vm_compute; reflexivity]). apply tr_new.
Qed.

(** C29. The picker compares a file only with those of its level: after two flushed
    files have been merged into the next level, an older file that was left behind
    is merged with a newer one, and the row of the older file hides the newer row
    of the merged file.  No two steps overlap. *)
Theorem compaction_returns_old_row :
  exists (t t' : demo_table) info,
    table_run (E:=unit) stable_sort small_runs t /\ run_compaction (E:=unit) stable_sort small_runs 10000 6 info t = Ok t' /\
    read_row t 7%nat = Some 2%nat /\ read_row t' 7%nat = Some 1%nat.
Proof.
  exists compacted_once, (compact 6 compacted_once), (MkSstInfo 20 2 Columnar). split_and!; [|vm_compute; reflexivity..].
  apply flush_run; [|vm_compute; reflexivity|vm_compute; reflexivity].
  apply compact_run; [apply flushed_three_run|vm_compute; reflexivity|vm_compute; reflexivity].
Qed.

Lemma flush_holds file rows t m : lc_holds (levels_controller (tb_version t)) m -> m !! fm_id file = None ->
  flush_file file rows t = @Ok unit _ (flush file rows t) ->
  lc_holds (levels_controller (tb_version (flush file rows t))) (<[fm_id file := MkAddFile 0 file]> m).
Proof.
  intros Hh Hf Hok. destruct (add_files_holds (E:=unit) [MkAddFile 0 file] _ _ Hh) as (lc & Hlc & Hh'); [split_and!; [by left|done|done]|].
  unfold flush_file, apply_edit in Hok. cbn [ve_files_to_add ve_files_to_delete] in Hok. rewrite Hlc in Hok. cbn [rbind delete_files rfold] in Hok.
  injection Hok as Hok. rewrite <- Hok. exact Hh'.
Qed.
Lemma flushed_three_ok : exists m, table_ok (E:=unit) flushed_three m 4.
Proof.
  exists (<[3 := MkAddFile 0 (sst 3 0 2000 10 3)]> (<[2 := MkAddFile 0 (sst 2 0 2000 10 2)]>
    (<[1 := MkAddFile 0 (sst 1 0 2000 10 1)]> ∅))). split.
  - do 3 (apply flush_holds; [|vm_compute; reflexivity|vm_compute; reflexivity]). apply lc_holds_new.
  - intros level files Hf. unfold iter_ssts_at_level in Hf. destruct (Level.as_usize level) as [|[|[|n]]];
      vm_compute in Hf; simplify_eq; split; repeat constructor; vm_compute; discriminate.
  - vm_compute. reflexivity.
  - apply Forall_forall. vm_compute. repeat constructor; discriminate.
Qed.
Lemma compaction_preserves_reads_witness :
  exists t', run_compaction (E:=unit) stable_sort small_runs 10000 4 (MkSstInfo 20 2 Columnar) flushed_three = Ok t' /\
    read_row t' 7%nat = read_row flushed_three 7%nat.
Proof.
  destruct flushed_three_ok as [m Hok].
  destruct (pick_compaction (E:=unit) stable_sort small_runs (levels_controller (tb_version flushed_three)) (tb_flags flushed_three) 10000)
    as [[task fl']| |] eqn:Hp; [|by vm_compute in Hp..].
  assert (Hi : exists i, ct_inputs task = [i] /\ fh_meta <$> ci_files i = [sst 3 0 2000 10 3; sst 2 0 2000 10 2]).
  { vm_compute in Hp. simplify_eq. eexists. split; reflexivity. }
  destruct Hi as (i & Hi & Hins).
  assert (Hfiles : table_files flushed_three = [sst 1 0 2000 10 1; sst 2 0 2000 10 2; sst 3 0 2000 10 3]) by (vm_compute; reflexivity).
  apply (compaction_preserves_reads (E:=unit) stable_sort small_runs 10000 4 (MkSstInfo 20 2 Columnar) flushed_three m task fl' i 7%nat);
    [exact Hok|discriminate|exact Hp|exact Hi| | |].
  - intros f Hf He. discriminate He.
  - intros f g Hf Hg Hs _ _. rewrite Hfiles in Hf, Hg. rewrite !elem_of_cons, elem_of_nil in Hf, Hg.
    destruct Hf as [->|[->|[->|[]]]], Hg as [->|[->|[->|[]]]]; (discriminate Hs || reflexivity).
  - intros g Hg _ Hn. right. right. rewrite Hfiles in Hg. rewrite Hins in Hn. rewrite !elem_of_cons, elem_of_nil in Hg. destruct Hg as [->|[->|[->|[]]]]; [|destruct Hn; right; left|destruct Hn; left].
    intros f Hf. apply (list_elem_of_fmap_2 fh_meta) in Hf. rewrite Hins in Hf. unfold fh_max_sequence.
    rewrite !elem_of_cons, elem_of_nil in Hf. destruct Hf as [->|[->|[]]]; cbn; lia.
Defined.
