(* ===== verification/CompactionScheduler.v ===== *)
(** * The compaction scheduler

    Models [analytic_engine/src/compaction/scheduler.rs]: the queue of pending
    requests, the limits on memory and on running tasks, and the worker that
    receives requests, picks a task for a table and starts it.

    A request is the id of its table.  The tasks that run, those that wait
    for room in the bounded channel and the worker take their steps in any order;
    the compaction itself is an edit of the levels of the table ([Compaction]). *)

From Stdlib Require Import ZArith Lia.
From stdpp Require Import base tactics option list sorting numbers gmap sets.
From S2P Require Import Prelude Time BTree SstFile Picker.

#[local] Open Scope Z_scope.

(** ** [RequestQueue]: first in, first out, one value per key *)
Section queue.
Context {K V : Type} `{Countable K}.
Record RequestQueue := MkQueue { rq_keys : list K; rq_values : gmap K V }.
Definition queue_new : RequestQueue := MkQueue [] ∅.
Definition push_back (q : RequestQueue) (key : K) (value : V) : RequestQueue * bool :=
  match rq_values q !! key with
  | None => (MkQueue (rq_keys q ++ [key]) (<[key := value]> (rq_values q)), true)
  | Some _ => (MkQueue (rq_keys q) (<[key := value]> (rq_values q)), false)
  end.
Definition pop_front (q : RequestQueue) : option V * RequestQueue :=
  match rq_keys q with
  | key :: keys => (rq_values q !! key, MkQueue keys (delete key (rq_values q)))
  | [] => (None, q)
  end.
Definition queue_len (q : RequestQueue) : nat := size (rq_values q).
Definition queue_is_empty (q : RequestQueue) : bool := bool_decide (queue_len q = 0%nat).
End queue.
Arguments RequestQueue : clear implicits.
Arguments RequestQueue _ _ {_ _}.

(** ** [OngoingTaskLimit]: [request_buf] and [ongoing_tasks] *)
Section limits.
Context (max_pending : nat).
(** The loop of [add_request] that drops the oldest requests; [None] when the
    fuel is not enough. *)
Fixpoint drop_oldest (fuel : nat) (q : RequestQueue Z Z) : option (RequestQueue Z Z) :=
  if (max_pending <=? queue_len q)%nat then
    match fuel with 0%nat => None | S fuel => drop_oldest fuel (pop_front q).2 end
  else Some q.
Definition add_request (fuel : nat) (q : RequestQueue Z Z) (request : Z) : option (RequestQueue Z Z) :=
  match drop_oldest fuel q with
  | Some q => Some (push_back q request request).1
  | None => None
  end.
(** [drain_requests]: at most [max_num] of them. *)
Fixpoint drain_requests (max_num : nat) (q : RequestQueue Z Z) : list Z * RequestQueue Z Z :=
  match max_num with
  | 0%nat => ([], q)
  | S max_num =>
      match pop_front q with
      | (Some req, q) => let (reqs, q) := drain_requests max_num q in (req :: reqs, q)
      | (None, q) => ([], q)
      end
  end.
End limits.

(** ** [MemoryLimit] and [MemoryUsageToken] *)
Definition apply_token (usage bytes : Z) : Z := as_u 64 (usage + bytes).
Definition drop_token (usage bytes : Z) : Z := as_u 64 (usage - bytes).
(** [try_apply_token]: the token and the usage; a token that is not handed out is
    dropped at once. *)
Definition try_apply_token (limit usage bytes : Z) : option Z * Z :=
  let usage := apply_token usage bytes in
  if limit <? usage then (None, drop_token usage bytes) else (Some bytes, usage).

(** ** The worker *)
Inductive ScheduleTask := Request (table : Z) | Schedule | Exit.
(** The options are fixed; [None]: no segment duration yet ([new_picker_context]). *)
Record TableState := MkTableState { ts_levels : LevelsController; ts_flags : flags; ts_context : option PickerContext }.
(** A task that runs in the background; once it is finished, the messages it has
    still to send. *)
Record OngoingTask := MkOngoing { og_table : Z; og_task : CompactionTask; og_token : Z; og_sends : option (list ScheduleTask) }.
Record SchedulerConfig := MkConfig { schedule_channel_len : nat; max_ongoing_tasks : nat; memory_limit : Z; max_pending_compaction_tasks : nat }.
(** Between two receives, or in [compact_tables], about to send to itself. *)
Inductive WorkerPc := Receiving | SendingSchedule.
Record Worker := MkWorker {
  wk_tables : gmap Z TableState;
  wk_request_buf : RequestQueue Z Z;
  wk_ongoing : nat;
  wk_usage : Z;
  wk_running : list OngoingTask;
  wk_channel : list ScheduleTask;
  wk_pc : WorkerPc
}.
Definition with_buf (w : Worker) (q : RequestQueue Z Z) : Worker :=
  MkWorker (wk_tables w) q (wk_ongoing w) (wk_usage w) (wk_running w) (wk_channel w) (wk_pc w).
Definition with_tables (w : Worker) (t : gmap Z TableState) : Worker :=
  MkWorker t (wk_request_buf w) (wk_ongoing w) (wk_usage w) (wk_running w) (wk_channel w) (wk_pc w).
Definition with_channel (w : Worker) (c : list ScheduleTask) : Worker :=
  MkWorker (wk_tables w) (wk_request_buf w) (wk_ongoing w) (wk_usage w) (wk_running w) c (wk_pc w).
Definition with_pc (w : Worker) (pc : WorkerPc) : Worker :=
  MkWorker (wk_tables w) (wk_request_buf w) (wk_ongoing w) (wk_usage w) (wk_running w) (wk_channel w) pc.
Definition with_flags (t : TableState) (fl : flags) : TableState := MkTableState (ts_levels t) fl (ts_context t).

Section worker.
Context {E : Type} (sort_by_key : (FileHandle -> Z) -> list FileHandle -> list FileHandle) (cfg : SchedulerConfig).

(** [handle_table_compaction_request] and the start of [do_table_compaction_task];
    a task without a token is dropped, which unmarks its files. *)
Definition handle_table_compaction_request (now : Z) (w : Worker) (table : Z) : res E Worker :=
  match wk_tables w !! table with
  | None => Ok w
  | Some t =>
      match ts_context t with
      | None => Ok w
      | Some ctx =>
          let? picked := pick_compaction sort_by_key ctx (ts_levels t) (ts_flags t) now in
          let? size := estimated_total_input_file_size picked.1 in
          match try_apply_token (memory_limit cfg) (wk_usage w) size with
          | (None, usage) =>
              Ok (MkWorker (<[table := with_flags t (task_drop picked.1 picked.2)]> (wk_tables w)) (wk_request_buf w)
                    (wk_ongoing w) usage (wk_running w) (wk_channel w) (wk_pc w))
          | (Some token, usage) =>
              Ok (MkWorker (<[table := with_flags t picked.2]> (wk_tables w)) (wk_request_buf w) (S (wk_ongoing w)) usage
                    (wk_running w ++ [MkOngoing table picked.1 token None]) (wk_channel w) (wk_pc w))
          end
      end
  end.
Definition handle_schedule_task (now : Z) (fuel : nat) (w : Worker) (task : ScheduleTask) : res E (option Worker) :=
  match task with
  | Request table =>
      if (max_ongoing_tasks cfg <=? wk_ongoing w)%nat then
        Ok (with_buf w <$> add_request (max_pending_compaction_tasks cfg) fuel (wk_request_buf w) table)
      else let? w := handle_table_compaction_request now w table in Ok (Some w)
  | Schedule =>
      if (wk_ongoing w <? max_ongoing_tasks cfg)%nat then
        let (pending, q) := drain_requests (max_ongoing_tasks cfg - wk_ongoing w) (wk_request_buf w) in
        let? w := rfold (handle_table_compaction_request now) pending (with_buf w q) in Ok (Some w)
      else Ok (Some w)
  | Exit => Ok (Some w)
  end.
(** [compact_tables], up to the send. *)
Fixpoint add_requests (fuel : nat) (tables : list Z) (q : RequestQueue Z Z) : option (RequestQueue Z Z) :=
  match tables with
  | [] => Some q
  | table :: tables =>
      match add_request (max_pending_compaction_tasks cfg) fuel q table with
      | Some q => add_requests fuel tables q
      | None => None
      end
  end.
(** The end of a task: [finish_task], and what is left to be sent: to the worker
    if requests are pending, and a request for the same table if there was
    something to compact. *)
Definition finish_task (w : Worker) (before after : list OngoingTask) (o : OngoingTask) (success : bool) : Worker :=
  let wake := if queue_is_empty (wk_request_buf w) then [] else [Schedule] in
  let again := match ct_inputs (og_task o), success with _ :: _, true => [Request (og_table o)] | _, _ => [] end in
  MkWorker (wk_tables w) (wk_request_buf w) (wk_ongoing w - 1) (wk_usage w)
    (before ++ MkOngoing (og_table o) (og_task o) (og_token o) (Some (wake ++ again)) :: after) (wk_channel w) (wk_pc w).
Definition task_send (w : Worker) (before after : list OngoingTask) (o : OngoingTask) (m : ScheduleTask) (ms : list ScheduleTask) : Worker :=
  MkWorker (wk_tables w) (wk_request_buf w) (wk_ongoing w) (wk_usage w)
    (before ++ MkOngoing (og_table o) (og_task o) (og_token o) (Some ms) :: after) (wk_channel w ++ [m]) (wk_pc w).
(** Its token and its task are dropped. *)
Definition end_task (w : Worker) (before after : list OngoingTask) (o : OngoingTask) : Worker :=
  let tables := match wk_tables w !! og_table o with
    | Some t => <[og_table o := with_flags t (task_drop (og_task o) (ts_flags t))]> (wk_tables w)
    | None => wk_tables w
    end in
  MkWorker tables (wk_request_buf w) (wk_ongoing w) (drop_token (wk_usage w) (og_token o)) (before ++ after) (wk_channel w) (wk_pc w).

(** The levels of a table change by edits. *)
Inductive levels_edit : LevelsController -> LevelsController -> Prop :=
| le_add lc level f lc' : @add_sst_to_level E lc level f = Ok lc' -> levels_edit lc lc'
| le_remove lc level ids lc' : @remove_ssts_from_level E lc level ids = Ok lc' -> levels_edit lc lc'.

(** One step, at a time [now] that does not go back. *)
Inductive wstep : Z * Worker -> Z * Worker -> Prop :=
| ws_clock now now' w : now <= now' <= Timestamp.MAX -> wstep (now, w) (now', w)
(** [try_send] of a request from outside. *)
| ws_try_send now w table : (length (wk_channel w) < schedule_channel_len cfg)%nat ->
    wstep (now, w) (now, with_channel w (wk_channel w ++ [Request table]))
| ws_receive now w m ms fuel w' : wk_pc w = Receiving -> wk_channel w = m :: ms ->
    handle_schedule_task now fuel (with_channel w ms) m = Ok (Some w') -> wstep (now, w) (now, w')
(** No message came in time. *)
| ws_timeout now w tables fuel q : wk_pc w = Receiving -> wk_channel w = [] ->
    (forall id, id ∈ tables <-> is_Some (wk_tables w !! id)) -> add_requests fuel tables (wk_request_buf w) = Some q ->
    wstep (now, w) (now, with_pc (with_buf w q) SendingSchedule)
(** The worker sends to itself. *)
| ws_self_send now w : wk_pc w = SendingSchedule -> (length (wk_channel w) < schedule_channel_len cfg)%nat ->
    wstep (now, w) (now, with_pc (with_channel w (wk_channel w ++ [Schedule])) Receiving)
| ws_edit now w id t lc' : wk_tables w !! id = Some t -> levels_edit (ts_levels t) lc' ->
    wstep (now, w) (now, with_tables w (<[id := MkTableState lc' (ts_flags t) (ts_context t)]> (wk_tables w)))
| ws_finish now w before after o success : wk_running w = before ++ o :: after -> og_sends o = None ->
    wstep (now, w) (now, finish_task w before after o success)
| ws_task_send now w before after o m ms : wk_running w = before ++ o :: after -> og_sends o = Some (m :: ms) ->
    (length (wk_channel w) < schedule_channel_len cfg)%nat ->
    wstep (now, w) (now, task_send w before after o m ms)
| ws_end now w before after o : wk_running w = before ++ o :: after -> og_sends o = Some [] ->
    wstep (now, w) (now, end_task w before after o).
End worker.

(** ** The queue *)
Section queue_laws.
Context {K V : Type} `{Countable K}.

(** Every key that has a value waits once. *)
Record queue_ok (q : RequestQueue K V) : Prop := {
  qo_nodup : NoDup (rq_keys q);
  qo_values : forall k, k ∈ rq_keys q <-> is_Some (rq_values q !! k)
}.
Lemma queue_new_ok : queue_ok queue_new.
Proof. split; [constructor|]. intros k. cbn. rewrite lookup_empty. split; [by intros ?%elem_of_nil|by intros []]. Qed.
Lemma queue_len_keys q : queue_ok q -> queue_len q = length (rq_keys q).
Proof.
  intros [Hnd Hv]. unfold queue_len. rewrite <- size_dom, <- (size_list_to_set (C:=gset K)) by done. f_equal.
  apply set_eq. intros k. rewrite elem_of_dom, elem_of_list_to_set. by rewrite Hv.
Qed.
Lemma push_back_ok q k v : queue_ok q -> queue_ok (push_back q k v).1 /\
  rq_keys (push_back q k v).1 = rq_keys q ++ (if (push_back q k v).2 then [k] else []) /\
  rq_values (push_back q k v).1 !! k = Some v /\ ((push_back q k v).2 = true <-> k ∉ rq_keys q).
Proof.
  intros [Hnd Hv]. unfold push_back. destruct (rq_values q !! k) as [w|] eqn:Hk; cbn [fst snd rq_keys rq_values].
  - assert (Hin : k ∈ rq_keys q) by (apply Hv; by rewrite Hk). split_and!.
    + split; cbn; [done|]. intros k'. rewrite Hv. destruct (decide (k' = k)) as [->|Hne].
      * rewrite lookup_insert_eq, Hk. split; by eexists.
      * by rewrite lookup_insert_ne.
    + by rewrite app_nil_r.
    + apply lookup_insert_eq.
    + done.
  - assert (Hin : k ∉ rq_keys q) by (rewrite Hv, Hk; by intros []). split_and!.
    + split; cbn.
      * apply NoDup_app. split_and!; [done| |repeat constructor; apply not_elem_of_nil].
        intros x Hx ->%list_elem_of_singleton. done.
      * intros k'. rewrite elem_of_app, list_elem_of_singleton, Hv. destruct (decide (k' = k)) as [->|Hne].
        -- rewrite lookup_insert_eq. split; [by eexists|by right].
        -- rewrite lookup_insert_ne by done. split; [by intros [?|?]|by left].
    + done.
    + apply lookup_insert_eq.
    + done.
Qed.
Lemma pop_front_ok q : queue_ok q -> queue_ok (pop_front q).2 /\ rq_keys (pop_front q).2 = drop 1 (rq_keys q) /\
  ((pop_front q).1 = None <-> rq_keys q = []).
Proof.
  intros [Hnd Hv]. unfold pop_front. destruct (rq_keys q) as [|k ks] eqn:Hq; cbn [fst snd].
  - split_and!; [split; by rewrite Hq|by rewrite Hq|done].
  - apply NoDup_cons in Hnd as [Hk Hnd]. split_and!; cbn.
    + split; cbn; [done|]. intros k'. destruct (decide (k' = k)) as [->|Hne].
      * rewrite lookup_delete_eq. split; [done|by intros []].
      * rewrite lookup_delete_ne by done. rewrite <- Hv, elem_of_cons. split; [by right|by intros [?|?]].
    + by rewrite drop_0.
    + destruct (proj1 (Hv k) ltac:(left)) as [v ->]. done.
Qed.
End queue_laws.

Section requests.
Context (max_pending : nat).
Lemma drop_oldest_ok (q : RequestQueue Z Z) : max_pending <> 0%nat -> queue_ok q -> exists q',
  (forall fuel, (queue_len q <= fuel)%nat -> drop_oldest max_pending fuel q = Some q') /\ queue_ok q' /\
  rq_keys q' = drop (S (queue_len q) - max_pending) (rq_keys q) /\ (queue_len q' < max_pending)%nat.
Proof.
  intros Hm. remember (queue_len q) as n eqn:Hn. revert q Hn. induction n as [|n IH]; intros q Hn Hq.
  - exists q. split_and!; [|done|by replace (1 - max_pending)%nat with 0%nat by lia|lia].
    intros [|fuel] _; cbn [drop_oldest]; by rewrite (proj2 (Nat.leb_gt _ _)) by lia.
  - destruct (decide (max_pending <= S n)%nat) as [Hle|Hgt].
    + destruct (pop_front_ok q Hq) as (Hq' & Hk & _).
      assert (Hl : queue_len (pop_front q).2 = n).
      { rewrite queue_len_keys, Hk by done. rewrite (queue_len_keys q Hq) in Hn. rewrite length_drop. lia. }
      destruct (IH _ (eq_sym Hl) Hq') as (q' & Hf & Hok & Hks & Hlen). exists q'. split_and!; [|done| |done].
      * intros [|fuel] Hfu; [lia|]. cbn [drop_oldest]. rewrite <- Hn, (proj2 (Nat.leb_le _ _)) by lia. apply Hf. lia.
      * rewrite Hks, Hk, drop_drop. f_equal. lia.
    + exists q. split_and!; [|done| |lia].
      * intros [|fuel] Hfu; [lia|]. cbn [drop_oldest]. rewrite <- Hn, (proj2 (Nat.leb_gt _ _)) by lia. done.
      * replace (S (S n) - max_pending)%nat with 0%nat by lia. by rewrite drop_0.
Qed.
Lemma drop_oldest_loops fuel (q : RequestQueue Z Z) : drop_oldest 0 fuel q = None.
Proof. revert q. induction fuel as [|fuel IH]; intros q; cbn; [done|]. apply IH. Qed.

Lemma add_request_ok (q : RequestQueue Z Z) r : max_pending <> 0%nat -> queue_ok q -> exists q',
  (forall fuel, (queue_len q <= fuel)%nat -> add_request max_pending fuel q r = Some q') /\ queue_ok q' /\
  (queue_len q' <= max_pending)%nat /\
  exists kept, kept = drop (S (queue_len q) - max_pending) (rq_keys q) /\
    rq_keys q' = kept ++ (if decide (r ∈ kept) then [] else [r]).
Proof.
  intros Hm Hq. destruct (drop_oldest_ok q Hm Hq) as (q0 & Hf & Hok & Hk & Hlen). exists (push_back q0 r r).1.
  destruct (push_back_ok q0 r r Hok) as (Hok' & Hk' & _ & Hnew).
  assert (Hkeys : rq_keys (push_back q0 r r).1 = rq_keys q0 ++ (if decide (r ∈ rq_keys q0) then [] else [r])).
  { rewrite Hk'. f_equal. revert Hnew. destruct (decide (r ∈ rq_keys q0)) as [Hr|Hr], (push_back q0 r r).2; naive_solver. }
  split_and!; [|done| |].
  - intros fuel Hfu. unfold add_request. by rewrite (Hf fuel Hfu).
  - rewrite queue_len_keys by done. rewrite Hkeys, length_app. rewrite queue_len_keys in Hlen by done.
    destruct (decide _); cbn; lia.
  - exists (rq_keys q0). by rewrite Hkeys.
Qed.

(** Adding a request ends exactly when some requests may wait: the oldest ones
    are dropped until there is room, the request is queued unless its table waits
    already, and never more than the limit wait.  With a limit of zero the loop
    that drops requests never ends. *)
Theorem add_request_terminates (q : RequestQueue Z Z) r : queue_ok q ->
  (max_pending <> 0%nat -> exists q', (forall fuel, (queue_len q <= fuel)%nat -> add_request max_pending fuel q r = Some q') /\
     queue_ok q' /\ (queue_len q' <= max_pending)%nat /\
     exists kept, kept = drop (S (queue_len q) - max_pending) (rq_keys q) /\
       rq_keys q' = kept ++ (if decide (r ∈ kept) then [] else [r])) /\
  (max_pending = 0%nat -> forall fuel, add_request max_pending fuel q r = None).
Proof.
  intros Hq. split; [intros Hm; by apply add_request_ok|]. intros -> fuel. unfold add_request. by rewrite drop_oldest_loops.
Qed.
End requests.
Lemma add_request_terminates_witness :
  exists q', add_request 2 2 (MkQueue [4; 7] (<[4 := 4]> {[ 7 := 7 ]})) 9 = Some q' /\ rq_keys q' = [7; 9].
Proof.
  destruct (add_request_terminates 2 (MkQueue [4; 7] (<[4 := 4]> {[ 7 := 7 ]})) 9) as [H _].
  - split; cbn.
    + repeat constructor; set_solver.
    + intros k. rewrite !elem_of_cons, elem_of_nil. rewrite lookup_insert_is_Some', lookup_singleton_is_Some. naive_solver.
  - destruct (H ltac:(done)) as (q' & Hf & _ & _ & kept & -> & Hk). exists q'. split; [apply Hf; vm_compute; lia|]. rewrite Hk. reflexivity.
Defined.

(** ** What the worker keeps to *)
Ltac wsimpl := cbn [wk_tables wk_request_buf wk_ongoing wk_usage wk_running wk_channel wk_pc with_buf with_tables with_channel with_pc].
Section runs.
Context {E : Type} (sort_by_key : (FileHandle -> Z) -> list FileHandle -> list FileHandle) {SB : SortByKey sort_by_key}
  (cfg : SchedulerConfig).

Abbreviation handle := (handle_table_compaction_request (E:=E) sort_by_key cfg).
Abbreviation step := (wstep (E:=E) sort_by_key cfg).

(** The sizes of a table add up, a task fits in what is left above the limit, and
    the time to live is not negative. *)
Definition tables_ok (w : Worker) : Prop := forall id t, wk_tables w !! id = Some t ->
  levels_sizes_ok (E:=E) (ts_levels t) /\
  forall ctx, ts_context t = Some ctx -> memory_limit cfg + max_input_sstable_size (tier_opts ctx) < 2 ^ 64 /\
    forall ttl, pc_ttl ctx = Some ttl -> 0 <= ttl.
Definition worker_new (tables : gmap Z TableState) : Worker := MkWorker tables queue_new 0 0 [] [] Receiving.
Inductive reach : Z * Worker -> Prop :=
| reach_new now tables : (forall id t, tables !! id = Some t -> ts_levels t = levels_new /\ ts_flags t = ∅) -> reach (now, worker_new tables)
| reach_step s s' : reach s -> tables_ok s.2 -> step s s' -> reach s'.

Definition active (o : OngoingTask) : bool := match og_sends o with None => true | Some _ => false end.
Definition num_active (l : list OngoingTask) : nat := length (filter (fun o => active o = true) l).
Definition tokens (l : list OngoingTask) : Z := foldr (fun o acc => og_token o + acc) 0 l.
Lemma tokens_app a b : tokens (a ++ b) = tokens a + tokens b.
Proof. induction a as [|o a IH]; [done|]. cbn. unfold tokens in *. lia. Qed.
Lemma num_active_app a b : num_active (a ++ b) = (num_active a + num_active b)%nat.
Proof. unfold num_active. by rewrite filter_app, length_app. Qed.

(** The limits: on pending requests, running tasks, memory and the channel. *)
Record limits_ok (w : Worker) : Prop := {
  lo_queue : queue_ok (wk_request_buf w);
  lo_pending : (queue_len (wk_request_buf w) <= max_pending_compaction_tasks cfg)%nat;
  lo_ongoing : wk_ongoing w = num_active (wk_running w);
  lo_tasks : (wk_ongoing w <= max_ongoing_tasks cfg)%nat;
  lo_usage : wk_usage w = tokens (wk_running w);
  lo_tokens : Forall (fun o => 0 <= og_token o) (wk_running w);
  lo_memory : wk_usage w <= memory_limit cfg
}.
Lemma tokens_nonneg l : Forall (fun o => 0 <= og_token o) l -> 0 <= tokens l.
Proof. induction 1; cbn; [lia|]. unfold tokens in *. lia. Qed.

Hypothesis Hlimit : 0 <= memory_limit cfg < 2 ^ 64.

(** The estimated size of a picked task. *)
Lemma estimated_size ctx lc fl now task fl' : levels_sizes_ok (E:=E) lc -> pick_compaction sort_by_key ctx lc fl now = @Ok E _ (task, fl') ->
  forall size, estimated_total_input_file_size task = @Ok E _ size -> 0 <= size /\ (size = 0 \/ size <= max_input_sstable_size (tier_opts ctx)).
Proof.
  intros Hsz Hp size Hs. pose proof (pick_takes_run (E:=E) sort_by_key ctx lc fl now task fl') as Hrun. pose proof Hp as Hpick.
  unfold pick_compaction in Hp. inv_ok. unfold task_build in *. simplify_eq. cbn [ct_inputs] in Hrun.
  unfold estimated_total_input_file_size in Hs. cbn [ct_inputs] in Hs.
  match goal with H : pick_compact_candidates _ _ _ _ _ _ = Ok ?o |- _ => destruct o as [i|]; [|cbn in Hs; injection Hs as <-; lia] end.
  destruct (Hrun i Hsz Hpick ltac:(left)) as (files & k & lo & Hr).
  assert (Hok : sizes_ok (ci_files i)) by (eapply sizes_ok_sub; [apply (tr_sub _ _ _ _ _ _ _ _ _ Hr)|by eapply Hsz, Hr]).
  cbn [rfold] in Hs. change (rfold (fun acc f => u64_op (acc + fh_size f)) (ci_files i) 0) with (total_size (E:=E) (ci_files i)) in Hs.
  rewrite total_size_ok in Hs by done. cbn [rbind] in Hs. destruct Hok as [Hn Hlt]. pose proof (size_of_nonneg _ Hn).
  rewrite u64_op_ok in Hs by (unfold uint; lia). cbn in Hs. injection Hs as <-. pose proof (tr_size _ _ _ _ _ _ _ _ _ Hr). lia.
Qed.

Lemma handle_limits now w table w' : tables_ok w -> limits_ok w -> (wk_ongoing w < max_ongoing_tasks cfg)%nat ->
  handle now w table = Ok w' -> limits_ok w' /\ tables_ok w' /\ (wk_ongoing w' <= S (wk_ongoing w))%nat.
Proof.
  intros Ht [Hq Hp Ho Hto Hu Htk Hm] Hlt Hh. unfold handle_table_compaction_request in Hh.
  destruct (wk_tables w !! table) as [t|] eqn:Hw; [|injection Hh as <-; split_and!; [by split|done|lia]].
  destruct (ts_context t) as [ctx|] eqn:Hc; [|injection Hh as <-; split_and!; [by split|done|lia]].
  destruct (Ht _ _ Hw) as [Hsz Hmax]. destruct (Hmax _ Hc) as [Hmem _].
  apply rbind_ok in Hh as ([task fl'] & Hpick & Hh). apply rbind_ok in Hh as (size & Hsize & Hh). cbn [fst snd] in *.
  destruct (estimated_size _ _ _ _ _ _ Hsz Hpick size Hsize) as [H0 H1]. pose proof (tokens_nonneg _ Htk) as Htn.
  assert (Hts : forall fl, tables_ok (with_tables w (<[table := with_flags t fl]> (wk_tables w)))).
  { intros fl id t'. cbn. intros [[<- <-]|[_ Hx]]%lookup_insert_Some; [|by apply (Ht id)]. cbn. split; [done|].
    intros ctx' Hc'. by apply Hmax. }
  assert (Happ : apply_token (wk_usage w) size = wk_usage w + size) by (unfold apply_token; apply as_u_id; unfold uint; lia).
  unfold try_apply_token in Hh. rewrite Happ in Hh. destruct (Z.ltb_spec (memory_limit cfg) (wk_usage w + size)).
  - assert (Hd : drop_token (wk_usage w + size) size = wk_usage w).
    { unfold drop_token. rewrite as_u_id; unfold uint; lia. }
    rewrite Hd in Hh. injection Hh as <-. split_and!; [by split|apply (Hts (task_drop task fl'))|cbn; lia].
  - injection Hh as <-. split_and!; [|apply (Hts fl')|cbn; lia]. split; wsimpl; [done|done| |lia| | |lia].
    + rewrite num_active_app. change (num_active [_]) with 1%nat. lia.
    + rewrite tokens_app. change (tokens [_]) with (size + 0). lia.
    + apply Forall_app. split; [done|]. by repeat constructor.
Qed.

Lemma add_request_some max fuel (q q' : RequestQueue Z Z) r : add_request max fuel q r = Some q' -> queue_ok q ->
  queue_ok q' /\ (queue_len q' <= max)%nat.
Proof.
  assert (Hd : forall fuel (q q' : RequestQueue Z Z), drop_oldest max fuel q = Some q' -> queue_ok q -> queue_ok q' /\ (queue_len q' < max)%nat).
  { intros fuel'. induction fuel' as [|n IH]; intros p p' Hp Hok; cbn [drop_oldest] in Hp; destruct (Nat.leb_spec max (queue_len p)).
    - done.
    - by injection Hp as <-.
    - apply (IH _ _ Hp). by apply pop_front_ok.
    - by injection Hp as <-. }
  unfold add_request. destruct (drop_oldest max fuel q) as [q0|] eqn:Hq; [|done]. intros [= <-] Hok.
  destruct (Hd _ _ _ Hq Hok) as [Hok0 Hlen]. destruct (push_back_ok q0 r r Hok0) as (Hok' & Hk & _). split; [done|].
  rewrite queue_len_keys, Hk, length_app by done. rewrite queue_len_keys in Hlen by done. destruct (push_back q0 r r).2; cbn; lia.
Qed.
Lemma drain_ok n : forall (q q' : RequestQueue Z Z) reqs, drain_requests n q = (reqs, q') -> queue_ok q ->
  queue_ok q' /\ (queue_len q' <= queue_len q)%nat /\ (length reqs <= n)%nat.
Proof.
  induction n as [|n IH]; intros q q' reqs Hd Hok; cbn [drain_requests] in Hd; [injection Hd as <- <-; split_and!; [done|lia|cbn; lia]|].
  destruct (pop_front_ok q Hok) as (Hok' & Hk & _). destruct (pop_front q) as [[r|] p] eqn:Hp; cbn [snd] in *.
  - destruct (drain_requests n p) as [rs p'] eqn:Hr. injection Hd as <- <-. destruct (IH _ _ _ Hr Hok') as (H1 & H2 & H3).
    split_and!; [done| |cbn; lia]. rewrite (queue_len_keys p Hok'), Hk, length_drop in H2. rewrite (queue_len_keys q Hok). lia.
  - injection Hd as <- <-. split_and!; [done| |cbn; lia]. rewrite (queue_len_keys p Hok'), Hk, length_drop, (queue_len_keys q Hok). lia.
Qed.
Lemma handle_all_limits now reqs : forall w w', tables_ok w -> limits_ok w ->
  (wk_ongoing w + length reqs <= max_ongoing_tasks cfg)%nat -> rfold (handle now) reqs w = Ok w' -> limits_ok w'.
Proof.
  induction reqs as [|r reqs IH]; intros w w' Ht Hl Hn Hr; cbn [rfold] in Hr; [by injection Hr as <-|].
  apply rbind_ok in Hr as (w1 & Hh & Hr). cbn in Hn. destruct (handle_limits now w r w1 Ht Hl) as (Hl1 & Ht1 & Ho1); [lia|done|].
  apply (IH w1 w'); try done. lia.
Qed.
Lemma handle_schedule_limits now fuel w m w' : tables_ok w -> limits_ok w ->
  handle_schedule_task (E:=E) sort_by_key cfg now fuel w m = Ok (Some w') -> limits_ok w'.
Proof.
  intros Ht Hl Hh. destruct m as [table| |]; cbn [handle_schedule_task] in Hh; [| |by injection Hh as <-].
  - destruct (Nat.leb_spec (max_ongoing_tasks cfg) (wk_ongoing w)) as [|Hlt].
    + destruct (add_request _ _ _ _) as [q|] eqn:Hq; [|done]. injection Hh as <-.
      destruct Hl as [Hok Hp Ho Hto Hu Htk Hm]. destruct (add_request_some _ _ _ _ _ Hq Hok). by split.
    + apply rbind_ok in Hh as (w1 & Hh & [= <-]). by apply (handle_limits now w table w1 Ht Hl Hlt Hh).
  - destruct (Nat.ltb_spec (wk_ongoing w) (max_ongoing_tasks cfg)) as [Hlt|]; [|by injection Hh as <-].
    destruct (drain_requests _ _) as [reqs q] eqn:Hd. apply rbind_ok in Hh as (w1 & Hh & [= <-]).
    destruct Hl as [Hok Hp Ho Hto Hu Htk Hm]. destruct (drain_ok _ _ _ _ Hd Hok) as (Hq & Hlen & Hn).
    apply (handle_all_limits now reqs (with_buf w q)); [done|split; wsimpl; try done; lia|wsimpl; lia|done].
Qed.
Lemma add_requests_some fuel tables : forall q q', add_requests cfg fuel tables q = Some q' -> queue_ok q ->
  (queue_len q <= max_pending_compaction_tasks cfg)%nat -> queue_ok q' /\ (queue_len q' <= max_pending_compaction_tasks cfg)%nat.
Proof.
  induction tables as [|t tables IH]; intros q q' Ha Hok Hlen; cbn [add_requests] in Ha; [by injection Ha as <-|].
  destruct (add_request _ _ _ _) as [q1|] eqn:Hq; [|done]. destruct (add_request_some _ _ _ _ _ Hq Hok). by apply (IH q1).
Qed.

(** The counts of the running tasks, one of them singled out. *)
Lemma num_active_one before o after :
  num_active (before ++ o :: after) = (num_active before + (if active o then 1 else 0) + num_active after)%nat.
Proof.
  rewrite num_active_app. unfold num_active. destruct (active o) eqn:Ho.
  - rewrite filter_cons_True by done. cbn. lia.
  - rewrite filter_cons_False by (by rewrite Ho). lia.
Qed.
Lemma tokens_one before o after : tokens (before ++ o :: after) = tokens before + og_token o + tokens after.
Proof. rewrite tokens_app. change (tokens (o :: after)) with (og_token o + tokens after). lia. Qed.
Lemma limits_replace w before o after o' ongoing channel : limits_ok w -> wk_running w = before ++ o :: after ->
  og_token o' = og_token o -> (ongoing + (if active o then 1 else 0) = wk_ongoing w + (if active o' then 1 else 0))%nat ->
  (ongoing <= wk_ongoing w)%nat ->
  limits_ok (MkWorker (wk_tables w) (wk_request_buf w) ongoing (wk_usage w) (before ++ o' :: after) channel (wk_pc w)).
Proof.
  intros [Hok Hp Ho Hto Hu Htk Hm] Hr Htok Hon Hle. rewrite Hr in Ho, Hu, Htk. rewrite num_active_one in Ho. rewrite tokens_one in Hu.
  apply Forall_app in Htk as [H1 [H2 H3]%Forall_cons]. split; wsimpl; try done; try lia.
  - rewrite num_active_one. lia.
  - rewrite tokens_one. lia.
  - apply Forall_app. split; [done|]. constructor; [by rewrite Htok|done].
Qed.
Lemma limits_end w before o after : limits_ok w -> wk_running w = before ++ o :: after -> active o = false ->
  limits_ok (end_task w before after o).
Proof.
  intros [Hok Hp Ho Hto Hu Htk Hm] Hr Ha. rewrite Hr in Ho, Hu, Htk. rewrite num_active_one, Ha in Ho. rewrite tokens_one in Hu.
  apply Forall_app in Htk as [H2 [H3 H4]%Forall_cons]. pose proof (tokens_nonneg _ H2). pose proof (tokens_nonneg _ H4).
  unfold end_task. assert (Hd : drop_token (wk_usage w) (og_token o) = tokens before + tokens after)
    by (unfold drop_token; rewrite as_u_id; unfold uint; lia).
  split; wsimpl; try done; try lia.
  - rewrite num_active_app. lia.
  - by rewrite tokens_app.
  - by apply Forall_app.
Qed.

Lemma step_limits s s' : tables_ok s.2 -> limits_ok s.2 -> step s s' -> limits_ok s'.2.
Proof.
  intros Ht Hl Hs. destruct Hs as [| | now w m ms fuel w' _ _ Hh|now w tables fuel q _ _ _ Ha| | |
    now w before after o success Hr Hn|now w before after o m ms Hr Hn _|now w before after o Hr Hn]; cbn [snd] in *; try done.
  - destruct Hl. by split.
  - eapply handle_schedule_limits; [| |eassumption]; [done|]. destruct Hl. by split.
  - destruct Hl as [Hok Hp Ho Hto Hu Htk Hm]. destruct (add_requests_some _ _ _ _ Ha Hok Hp). by split.
  - destruct Hl. by split.
  - destruct Hl. by split.
  - pose proof (lo_ongoing _ Hl) as Ho. rewrite Hr, num_active_one in Ho. unfold active in Ho. rewrite Hn in Ho.
    apply (limits_replace w before o after); [done|done|done| |lia]. unfold active. rewrite Hn. cbn. lia.
  - apply (limits_replace w before o after); [done|done|done| |lia]. unfold active. rewrite Hn. cbn. lia.
  - apply limits_end; [done|done|]. unfold active. by rewrite Hn.
Qed.

(** Whatever the order of requests, picks, ends of tasks and timeouts, the
    scheduler keeps its limits: a table waits at most once and no more requests
    wait than allowed; the counter of tasks counts those that run, which are never
    more than allowed; and the memory in use is the sum of the tokens handed out,
    never above the limit. *)
Theorem scheduler_keeps_limits s : reach s -> limits_ok s.2.
Proof.
  induction 1 as [now tables Hnew|s s' _ IH Hok Hs]; [|by eapply step_limits].
  split; wsimpl; cbn [snd worker_new wk_request_buf]; [apply queue_new_ok| |done|cbn; lia|done|constructor|cbn; lia].
  rewrite queue_len_keys by apply queue_new_ok. cbn. lia.
Qed.

(** ** The files of the tasks *)
Definition handles (lc : LevelsController) : list FileHandle := concat (level_iter_ssts <$> lc_levels lc).
Lemma concat_insert {A B} (g : A -> list B) (l : list A) i x y extra : l !! i = Some x -> g y ⊆+ extra ++ g x ->
  concat (g <$> <[i := y]> l) ⊆+ extra ++ concat (g <$> l).
Proof.
  intros Hl Hg. pose proof (lookup_lt_Some _ _ _ Hl) as Hlt. rewrite insert_take_drop by done.
  rewrite <- (take_drop_middle l i x Hl) at 3. rewrite !fmap_app, !fmap_cons, !concat_app. cbn [concat].
  transitivity (concat (g <$> take i l) ++ (extra ++ g x) ++ concat (g <$> drop (S i) l)).
  - apply submseteq_app; [done|]. by apply submseteq_app.
  - apply Permutation_submseteq. rewrite <- app_assoc. apply Permutation_app_swap_app.
Qed.
Lemma bt_insert_values k v (m : btree FileOrdKey FileHandle) : (bt_insert ord_key_cmp k v m).*2 ⊆+ [v] ++ m.*2.
Proof.
  induction m as [|[k' v'] m IH]; cbn [bt_insert]; [done|]. destruct (ord_key_cmp k k'); cbn [fmap list_fmap snd app].
  - apply submseteq_skip. by apply submseteq_cons.
  - done.
  - etrans; [apply submseteq_skip, IH|]. apply Permutation_submseteq, Permutation_swap.
Qed.
Lemma bt_remove_values k (m : btree FileOrdKey FileHandle) : (bt_remove ord_key_cmp k m).*2 ⊆+ m.*2.
Proof.
  induction m as [|[k' v'] m IH]; cbn [bt_remove]; [done|]. destruct (ord_key_cmp k k'); cbn [fmap list_fmap snd].
  - by apply submseteq_cons.
  - by apply submseteq_skip.
  - by apply submseteq_skip.
Qed.
Lemma remove_by_ids_values ids : forall s, (file_map (remove_by_ids s ids)).*2 ⊆+ (file_map s).*2.
Proof.
  unfold remove_by_ids. induction ids as [|id ids IH]; intros s; cbn [foldl]; [done|]. rewrite IH. unfold remove_id.
  destruct (id_to_files s !! id); [apply bt_remove_values|done].
Qed.
Lemma edit_handles lc lc' : levels_edit (E:=E) lc lc' -> exists extra, handles lc' ⊆+ extra ++ handles lc /\
  (extra = [] /\ lc_next_addr lc' = lc_next_addr lc \/
   exists f, extra = [f] /\ fh_addr f = lc_next_addr lc /\ lc_next_addr lc' = S (lc_next_addr lc)).
Proof.
  destruct 1 as [lc level f lc' Ha|lc level ids lc' Ha].
  - unfold add_sst_to_level, on_level in Ha. apply rbind_ok in Ha as (lh & Hl & [= <-]).
    exists [MkFileHandle f (lc_next_addr lc)]. split; [|right; by eexists]. unfold handles. cbn [lc_levels].
    destruct (lc_levels lc !! Level.as_usize level) as [lh'|] eqn:Hlh; [|done]. injection Hl as ->.
    eapply concat_insert; [done|]. apply bt_insert_values.
  - unfold remove_ssts_from_level, on_level in Ha. apply rbind_ok in Ha as (lh & Hl & [= <-]).
    exists []. split; [|by left]. unfold handles. cbn [lc_levels].
    destruct (lc_levels lc !! Level.as_usize level) as [lh'|] eqn:Hlh; [|done]. injection Hl as ->.
    eapply concat_insert; [done|]. apply remove_by_ids_values.
Qed.
Lemma level_handles lc level files : @iter_ssts_at_level E lc level = Ok files -> files ⊆+ handles lc.
Proof.
  unfold iter_ssts_at_level. intros Hi. apply rbind_ok in Hi as (lh & Hl & [= <-]).
  destruct (lc_levels lc !! Level.as_usize level) as [lh'|] eqn:Hlh; [|done]. injection Hl as ->.
  unfold handles. rewrite <- (take_drop_middle _ _ _ Hlh), fmap_app, fmap_cons, concat_app. cbn [concat].
  by apply submseteq_inserts_l, submseteq_inserts_r.
Qed.

Definition inputs_of (t : CompactionTask) : list FileHandle := concat (ci_files <$> ct_inputs t).
Definition expired_at (t : TableState) (now : Z) (f : FileHandle) : Prop :=
  exists ctx, ts_context t = Some ctx /\ TimeRange.is_expired (fh_time_range f) (Timestamp.expire_time now <$> pc_ttl ctx) = true.
(** What a picked task holds. *)
Lemma picked_files ctx lc fl now task fl' : levels_sizes_ok (E:=E) lc ->
  pick_compaction sort_by_key ctx lc fl now = @Ok E _ (task, fl') ->
  fl' = mark_files_being_compacted task true fl /\ inputs_of task ⊆+ handles lc /\
  (forall f, f ∈ inputs_of task -> being_compacted fl f = false /\
     TimeRange.is_expired (fh_time_range f) (Timestamp.expire_time now <$> pc_ttl ctx) = false) /\
  (forall f, f ∈ concat (snd <$> ct_expired task) -> f ∈ handles lc /\
     TimeRange.is_expired (fh_time_range f) (Timestamp.expire_time now <$> pc_ttl ctx) = true).
Proof.
  intros Hsz Hp. pose proof (pick_takes_run (E:=E) sort_by_key ctx lc fl now task fl') as Hrun. pose proof Hp as Hpick.
  unfold pick_compaction in Hp. apply rbind_ok in Hp as (expired & Hex & Hp). apply rbind_ok in Hp as (inputs & Hin & [= <- <-]).
  unfold task_build in *. cbn [ct_inputs ct_expired] in *. split; [done|].
  assert (Hi : inputs_of (MkTask (match inputs with Some i => [i] | None => [] end) expired) =
    match inputs with Some i => ci_files i | None => [] end) by (destruct inputs; unfold inputs_of; cbn; by rewrite ?app_nil_r).
  rewrite Hi. split_and!.
  - destruct inputs as [i|]; [|apply submseteq_nil_l]. destruct (Hrun i Hsz Hpick ltac:(left)) as (files & k & lo & Hr).
    rewrite (tr_sub _ _ _ _ _ _ _ _ _ Hr). eapply level_handles, Hr.
  - destruct inputs as [i|]; [|by intros f ?%elem_of_nil]. destruct (Hrun i Hsz Hpick ltac:(left)) as (files & k & lo & Hr).
    intros f Hf. by destruct (tr_files _ _ _ _ _ _ _ _ _ Hr f Hf) as (? & ? & _).
  - intros f Hf. apply list_elem_of_In, in_concat in Hf as (fs & Hfs & Hf). apply list_elem_of_In in Hfs, Hf.
    apply list_elem_of_fmap in Hfs as ([level fs'] & -> & Hel). destruct (expired_held _ _ _ _ _ _ Hex Hel Hf) as (_ & He & all & Hall & Hfa).
    split; [|done]. eapply elem_of_submseteq; [exact Hfa|]. by eapply level_handles.
Qed.

Definition expired_of_task (t : CompactionTask) : list FileHandle := concat (snd <$> ct_expired t).
Definition all_files (t : TableState) (tasks : list CompactionTask) : list FileHandle :=
  handles (ts_levels t) ++ concat (task_files <$> tasks).
(** The tasks of a table: an address stands for one file; the files of the levels
    are distinct, and so are the inputs of all tasks; an input is marked until it
    expires. *)
Record tasks_inv (now : Z) (t : TableState) (tasks : list CompactionTask) : Prop := {
  ti_next : forall f, f ∈ all_files t tasks -> (fh_addr f < lc_next_addr (ts_levels t))%nat;
  ti_same : forall f g, f ∈ all_files t tasks -> g ∈ all_files t tasks -> fh_addr f = fh_addr g -> f = g;
  ti_handles : NoDup (fh_addr <$> handles (ts_levels t));
  ti_inputs : NoDup (fh_addr <$> concat (inputs_of <$> tasks));
  ti_marked : forall f, f ∈ concat (inputs_of <$> tasks) -> being_compacted (ts_flags t) f = true \/ expired_at t now f;
  ti_expired : forall f, f ∈ concat (expired_of_task <$> tasks) -> expired_at t now f
}.
Lemma elem_concat_fmap {A B} (g : A -> list B) l x : x ∈ concat (g <$> l) <-> exists y, y ∈ l /\ x ∈ g y.
Proof.
  rewrite list_elem_of_In, in_concat. setoid_rewrite <- list_elem_of_In. split.
  - intros (fs & Hfs & Hx). apply list_elem_of_fmap in Hfs as (y & -> & Hy). by exists y.
  - intros (y & Hy & Hx). exists (g y). split; [by apply list_elem_of_fmap_2|done].
Qed.
Lemma task_files_split task f : f ∈ task_files task <-> f ∈ inputs_of task \/ f ∈ expired_of_task task.
Proof. unfold task_files. by rewrite elem_of_app. Qed.
Lemma input_in_files tasks f : f ∈ concat (inputs_of <$> tasks) -> f ∈ concat (task_files <$> tasks).
Proof. rewrite !elem_concat_fmap. intros (y & Hy & Hf). exists y. split; [done|]. apply task_files_split. by left. Qed.
Lemma being_mark task b fl f : being_compacted (mark_files_being_compacted task b fl) f = true <->
  (if b then being_compacted fl f = true \/ fh_addr f ∈ fh_addr <$> task_files task
   else being_compacted fl f = true /\ fh_addr f ∉ fh_addr <$> task_files task).
Proof. unfold being_compacted. rewrite bool_decide_eq_true, mark_files_spec. destruct b; by rewrite bool_decide_eq_true. Qed.

Lemma nodup_sub {A B} (g : A -> B) l l' : l ⊆+ l' -> NoDup (g <$> l') -> NoDup (g <$> l).
Proof. intros [k Hk]%submseteq_Permutation. rewrite Hk, fmap_app, NoDup_app. by intros [? _]. Qed.

(** A file of one task that another one unmarks is one that has expired. *)
Lemma unmark now t tasks task f : tasks_inv now t tasks -> f ∈ concat (inputs_of <$> tasks) ->
  (forall g, g ∈ task_files task -> g ∈ all_files t tasks) -> f ∉ inputs_of task ->
  (forall g, g ∈ expired_of_task task -> expired_at t now g) ->
  being_compacted (task_drop task (ts_flags t)) f = true \/ expired_at t now f.
Proof.
  intros Hi Hf Hall Hn He. destruct (ti_marked _ _ _ Hi f Hf) as [Hm|]; [|by right].
  destruct (decide (fh_addr f ∈ fh_addr <$> task_files task)) as [Hin|Hin].
  - right. apply list_elem_of_fmap in Hin as (g & Heq & Hg). rewrite (ti_same _ _ _ Hi f g); [|apply elem_of_app; right; by apply input_in_files|by apply Hall|done].
    apply task_files_split in Hg as [Hg|Hg]; [|by apply He]. destruct Hn.
    rewrite (ti_same _ _ _ Hi f g); [done|apply elem_of_app; right; by apply input_in_files|apply Hall, task_files_split; by left|done].
  - left. by apply being_mark.
Qed.

Lemma pick_inv now t tasks ctx task fl' : tasks_inv now t tasks -> levels_sizes_ok (E:=E) (ts_levels t) -> ts_context t = Some ctx ->
  pick_compaction sort_by_key ctx (ts_levels t) (ts_flags t) now = @Ok E _ (task, fl') ->
  tasks_inv now (with_flags t fl') (tasks ++ [task]) /\ tasks_inv now (with_flags t (task_drop task fl')) tasks.
Proof.
  intros Hi Hsz Hc Hp. destruct (picked_files _ _ _ _ _ _ Hsz Hp) as (-> & Hsub & Hin & Hex).
  assert (Hexp : forall g, g ∈ expired_of_task task -> expired_at t now g) by (intros g Hg; exists ctx; split; [done|by apply Hex]).
  assert (Htf : forall g, g ∈ task_files task -> g ∈ handles (ts_levels t)).
  { intros g [Hg|Hg]%task_files_split; [by eapply elem_of_submseteq|by apply Hex]. }
  assert (Hall : forall g, g ∈ all_files (with_flags t (mark_files_being_compacted task true (ts_flags t))) (tasks ++ [task]) -> g ∈ all_files t tasks).
  { intros g. unfold all_files. cbn. rewrite !elem_of_app, fmap_app, concat_app, elem_of_app. intros [Hg|[Hg|Hg]]; [by left|by right|].
    left. cbn in Hg. rewrite app_nil_r in Hg. by apply Htf. }
  assert (Hdis : forall f, f ∈ concat (inputs_of <$> tasks) -> f ∉ inputs_of task).
  { intros f Hf Hx. destruct (Hin f Hx) as [H1 H2]. destruct (ti_marked _ _ _ Hi f Hf) as [H3|(ctx' & H3 & H4)]; congruence. }
  split; split; cbn [ts_levels ts_flags with_flags].
  - intros f Hf. by apply (ti_next _ _ _ Hi), Hall.
  - intros f g Hf Hg. apply (ti_same _ _ _ Hi); by apply Hall.
  - apply Hi.
  - rewrite fmap_app, concat_app, fmap_app. cbn. rewrite app_nil_r. apply NoDup_app. split_and!; [apply Hi| |].
    + intros a (f & -> & Hf)%list_elem_of_fmap (g & Heq & Hg)%list_elem_of_fmap. apply (Hdis f Hf).
      rewrite (ti_same _ _ _ Hi f g); [done|apply elem_of_app; right; by apply input_in_files| |done].
      apply elem_of_app. left. by eapply elem_of_submseteq.
    + eapply nodup_sub; [done|apply Hi].
  - intros f. rewrite fmap_app, concat_app, elem_of_app. intros [Hf|Hf].
    + destruct (ti_marked _ _ _ Hi f Hf) as [Hm|]; [left; apply being_mark; by left|by right].
    + left. apply being_mark. right. cbn in Hf. rewrite app_nil_r in Hf. apply list_elem_of_fmap_2, task_files_split. by left.
  - intros f. rewrite fmap_app, concat_app, elem_of_app. intros [Hf|Hf]; [by apply (ti_expired _ _ _ Hi)|].
    cbn in Hf. rewrite app_nil_r in Hf. by apply Hexp.
  - apply Hi.
  - apply Hi.
  - apply Hi.
  - apply Hi.
  - intros f Hf. destruct (unmark now t tasks task f Hi Hf) as [Hm|]; [|by apply Hdis|done| |by right].
    + intros g Hg. apply elem_of_app. left. by apply Htf.
    + left. unfold task_drop in *. apply being_mark in Hm as [Hm Hn]. apply being_mark. split; [|done]. apply being_mark. by left.
  - apply Hi.
Qed.

(** Fewer tasks, in another order, with the flags that are left. *)
Lemma end_inv now t l1 task l2 : tasks_inv now t (l1 ++ task :: l2) ->
  tasks_inv now (with_flags t (task_drop task (ts_flags t))) (l1 ++ l2).
Proof.
  intros Hi.
  assert (Hsub : forall {A} (g : CompactionTask -> list A), concat (g <$> l1 ++ l2) ⊆+ concat (g <$> l1 ++ task :: l2)).
  { intros A g. rewrite !fmap_app, fmap_cons, !concat_app. cbn [concat]. apply submseteq_app; [done|]. by apply submseteq_inserts_l. }
  assert (Hel : forall {A} (g : CompactionTask -> list A) x, x ∈ concat (g <$> l1 ++ l2) -> x ∈ concat (g <$> l1 ++ task :: l2))
    by (intros A g x Hx; eapply elem_of_submseteq; [exact Hx|apply Hsub]).
  assert (Htask : forall {A} (g : CompactionTask -> list A) x, x ∈ g task -> x ∈ concat (g <$> l1 ++ task :: l2))
    by (intros A g x Hx; apply elem_concat_fmap; exists task; split; [apply elem_of_app; right; left|done]).
  assert (Hall : forall f, f ∈ all_files t (l1 ++ l2) -> f ∈ all_files t (l1 ++ task :: l2))
    by (intros f; unfold all_files; rewrite !elem_of_app; intros [Hf|Hf]; [by left|right; by apply Hel]).
  split; cbn [ts_levels ts_flags with_flags].
  - intros f Hf. by apply (ti_next _ _ _ Hi), Hall.
  - intros f g Hf Hg. apply (ti_same _ _ _ Hi); by apply Hall.
  - apply Hi.
  - eapply nodup_sub; [apply Hsub|apply Hi].
  - intros f Hf. apply (unmark now t _ task f Hi); [by apply Hel| | |].
    + intros g Hg. apply elem_of_app. right. by apply Htask.
    + intros Hx. pose proof (ti_inputs _ _ _ Hi) as Hnd. rewrite !fmap_app, fmap_cons, concat_app in Hnd. cbn [concat] in Hnd.
      rewrite (Permutation_app_swap_app (concat (inputs_of <$> l1))), <- concat_app, <- fmap_app, fmap_app, NoDup_app in Hnd. destruct Hnd as (_ & Hnd & _).
      apply (Hnd (fh_addr f)); by apply list_elem_of_fmap_2.
    + intros g Hg. apply (ti_expired _ _ _ Hi). by apply Htask.
  - intros f Hf. apply (ti_expired _ _ _ Hi). by apply Hel.
Qed.

Lemma edit_inv now t tasks lc' : tasks_inv now t tasks -> levels_edit (E:=E) (ts_levels t) lc' ->
  tasks_inv now (MkTableState lc' (ts_flags t) (ts_context t)) tasks.
Proof.
  intros Hi He. destruct (edit_handles _ _ He) as (extra & Hsub & Hnew).
  assert (Hall : forall f, f ∈ all_files (MkTableState lc' (ts_flags t) (ts_context t)) tasks -> f ∈ extra \/ f ∈ all_files t tasks).
  { intros f [Hf|Hf]%elem_of_app; [|right; apply elem_of_app; by right]. eapply elem_of_submseteq in Hf; [|exact Hsub].
    apply elem_of_app in Hf as [Hf|Hf]; [by left|right; apply elem_of_app; by left]. }
  assert (Hex : forall f, f ∈ extra -> fh_addr f = lc_next_addr (ts_levels t) /\ (fh_addr f < lc_next_addr lc')%nat).
  { intros f Hf. destruct Hnew as [[-> _]|(g & -> & Ha & Hn)]; [by apply elem_of_nil in Hf|]. apply list_elem_of_singleton in Hf as ->. lia. }
  assert (Hle : (lc_next_addr (ts_levels t) <= lc_next_addr lc')%nat) by (destruct Hnew as [[_ ->]|(g & _ & _ & ->)]; lia).
  split; cbn [ts_levels ts_flags].
  - intros f [Hf|Hf]%Hall; [by apply Hex|]. pose proof (ti_next _ _ _ Hi f Hf). lia.
  - intros f g [Hf|Hf]%Hall [Hg|Hg]%Hall Heq.
    + destruct Hnew as [[-> _]|(h & -> & _)]; [by apply elem_of_nil in Hf|]. apply list_elem_of_singleton in Hf, Hg. congruence.
    + pose proof (ti_next _ _ _ Hi g Hg). destruct (Hex f Hf). lia.
    + pose proof (ti_next _ _ _ Hi f Hf). destruct (Hex g Hg). lia.
    + by apply (ti_same _ _ _ Hi).
  - eapply nodup_sub; [exact Hsub|]. destruct Hnew as [[-> _]|(h & -> & Ha & _)]; [apply Hi|]. cbn. constructor; [|apply Hi].
    intros (g & Heq & Hg)%list_elem_of_fmap. pose proof (ti_next _ _ _ Hi g (proj2 (elem_of_app _ _ _) (or_introl Hg))). lia.
  - apply Hi.
  - apply Hi.
  - apply Hi.
Qed.

Lemma expire_mono now now' ttl : now <= now' <= Timestamp.MAX -> 0 <= ttl -> Timestamp.expire_time now ttl <= Timestamp.expire_time now' ttl.
Proof.
  intros Hn Ht. unfold Timestamp.expire_time, Timestamp.sub_duration_or_min, Timestamp.checked_sub_duration, Timestamp.millis_i64.
  destruct (ttl <=? i64_max); [|done].
  destruct (i64_checked (now - ttl)) as [x|] eqn:Hx; cbn [default].
  - apply i64_checked_some in Hx as [-> Hr]. unfold sint in Hr. rewrite (proj2 (i64_checked_some (now' - ttl) (now' - ttl))); [cbn; lia|].
    split; [done|]. unfold sint, Timestamp.MAX, i64_max in *. lia.
  - destruct (i64_checked (now' - ttl)) as [y|] eqn:Hy; cbn [default]; [|lia]. apply i64_checked_some in Hy as [-> Hr].
    unfold id, sint, Timestamp.MIN, i64_min in *. lia.
Qed.
Lemma clock_inv now now' t tasks : (forall ctx, ts_context t = Some ctx -> forall ttl, pc_ttl ctx = Some ttl -> 0 <= ttl) ->
  now <= now' <= Timestamp.MAX -> tasks_inv now t tasks -> tasks_inv now' t tasks.
Proof.
  intros Httl Hn Hi. assert (He : forall f, expired_at t now f -> expired_at t now' f).
  { intros f (ctx & Hc & He). exists ctx. split; [done|]. destruct (pc_ttl ctx) as [ttl|] eqn:Ht; [|done]. cbn in *.
    pose proof (expire_mono now now' ttl Hn (Httl ctx Hc ttl Ht)). lia. }
  split; try apply Hi.
  - intros f Hf. destruct (ti_marked _ _ _ Hi f Hf); auto.
  - intros f Hf. apply He, (ti_expired _ _ _ Hi), Hf.
Qed.

Definition tasks_of (id : Z) (l : list OngoingTask) : list CompactionTask := og_task <$> filter (fun o => og_table o = id) l.
Definition files_inv (now : Z) (w : Worker) : Prop :=
  forall id t, wk_tables w !! id = Some t -> tasks_inv now t (tasks_of id (wk_running w)).
Lemma tasks_of_app id a b : tasks_of id (a ++ b) = tasks_of id a ++ tasks_of id b.
Proof. unfold tasks_of. by rewrite filter_app, fmap_app. Qed.
Lemma tasks_of_cons id o l : tasks_of id (o :: l) = (if decide (og_table o = id) then [og_task o] else []) ++ tasks_of id l.
Proof. unfold tasks_of. rewrite filter_cons. by destruct (decide _). Qed.

Lemma handle_tables now w table w' : tables_ok w -> handle now w table = Ok w' -> tables_ok w'.
Proof.
  intros Ht Hh. unfold handle_table_compaction_request in Hh. destruct (wk_tables w !! table) as [t|] eqn:Hw; [|by injection Hh as <-].
  destruct (ts_context t) as [ctx|] eqn:Hc; [|by injection Hh as <-].
  apply rbind_ok in Hh as (p & _ & Hh). apply rbind_ok in Hh as (size & _ & Hh).
  assert (Hts : forall fl id t', <[table := with_flags t fl]> (wk_tables w) !! id = Some t' -> levels_sizes_ok (E:=E) (ts_levels t') /\
    forall ctx, ts_context t' = Some ctx -> memory_limit cfg + max_input_sstable_size (tier_opts ctx) < 2 ^ 64 /\
      forall ttl, pc_ttl ctx = Some ttl -> 0 <= ttl).
  { intros fl id t' [[<- <-]|[_ Hx]]%lookup_insert_Some; [exact (Ht _ _ Hw)|exact (Ht _ _ Hx)]. }
  destruct (try_apply_token _ _ _) as [[token|] usage]; injection Hh as <-; intros id t' Hx; exact (Hts _ _ _ Hx).
Qed.
Lemma handle_files now w table w' : tables_ok w -> files_inv now w -> handle now w table = Ok w' -> files_inv now w'.
Proof.
  intros Ht Hf Hh. unfold handle_table_compaction_request in Hh. destruct (wk_tables w !! table) as [t|] eqn:Hw; [|by injection Hh as <-].
  destruct (ts_context t) as [ctx|] eqn:Hc; [|by injection Hh as <-].
  apply rbind_ok in Hh as ([task fl'] & Hp & Hh). apply rbind_ok in Hh as (size & _ & Hh). cbn [fst snd] in Hh.
  destruct (pick_inv now t _ ctx task fl' (Hf _ _ Hw) (proj1 (Ht _ _ Hw)) Hc Hp) as [Hnew Hold].
  destruct (try_apply_token _ _ _) as [[token|] usage]; injection Hh as <-; intros id t'; wsimpl;
    intros [[<- <-]|[Hne Hx]]%lookup_insert_Some.
  - rewrite tasks_of_app, tasks_of_cons. rewrite decide_True by done. exact Hnew.
  - rewrite tasks_of_app, tasks_of_cons. rewrite decide_False by done. cbn. rewrite app_nil_r. by apply Hf.
  - exact Hold.
  - by apply Hf.
Qed.
Lemma handle_all_files now reqs : forall w w', tables_ok w -> files_inv now w -> rfold (handle now) reqs w = Ok w' -> files_inv now w'.
Proof.
  induction reqs as [|r reqs IH]; intros w w' Ht Hf Hr; cbn [rfold] in Hr; [by injection Hr as <-|].
  apply rbind_ok in Hr as (w1 & Hh & Hr). apply (IH w1); [by eapply handle_tables|by eapply handle_files|done].
Qed.
Lemma handle_schedule_files now fuel w m w' : tables_ok w -> files_inv now w ->
  handle_schedule_task (E:=E) sort_by_key cfg now fuel w m = Ok (Some w') -> files_inv now w'.
Proof.
  intros Ht Hf Hh. destruct m as [table| |]; cbn [handle_schedule_task] in Hh; [| |by injection Hh as <-].
  - destruct (_ <=? _)%nat; [destruct (add_request _ _ _ _); [|done]; by injection Hh as <-|].
    apply rbind_ok in Hh as (w1 & Hh & [= <-]). by eapply handle_files.
  - destruct (_ <? _)%nat; [|by injection Hh as <-]. destruct (drain_requests _ _) as [reqs q].
    apply rbind_ok in Hh as (w1 & Hh & [= <-]). by apply (handle_all_files now reqs (with_buf w q)).
Qed.
Lemma end_files now w before after o : wk_running w = before ++ o :: after -> files_inv now w -> files_inv now (end_task w before after o).
Proof.
  intros Hr Hf id t Ht. unfold end_task in *. wsimpl. cbn [wk_tables] in Ht. rewrite tasks_of_app.
  destruct (decide (og_table o = id)) as [Heq|Hne].
  - rewrite Heq in Ht. destruct (wk_tables w !! id) as [t0|] eqn:H0; [|congruence]. rewrite lookup_insert_eq in Ht. injection Ht as <-.
    apply end_inv. specialize (Hf id t0 H0). rewrite Hr, tasks_of_app, tasks_of_cons, decide_True in Hf by done. exact Hf.
  - assert (H0 : wk_tables w !! id = Some t) by (destruct (wk_tables w !! og_table o); [by rewrite lookup_insert_ne in Ht|done]).
    specialize (Hf id t H0). rewrite Hr, tasks_of_app, tasks_of_cons, decide_False in Hf by done. exact Hf.
Qed.
Lemma step_files s s' : tables_ok s.2 -> files_inv s.1 s.2 -> step s s' -> files_inv s'.1 s'.2.
Proof.
  intros Ht Hf Hs. destruct Hs as [now now' w Hn| | now w m ms fuel w' _ _ Hh| | |now w id t lc' Hw He|
    now w before after o success Hr Hn|now w before after o m ms Hr Hn _|now w before after o Hr Hn]; cbn [fst snd] in *; try done.
  - intros id t Hw. apply (clock_inv now); [|done|by apply Hf]. intros ctx Hc. by apply (Ht _ _ Hw).
  - by eapply handle_schedule_files; [| |exact Hh].
  - intros id' t'. wsimpl. intros [[<- <-]|[Hne Hx]]%lookup_insert_Some; [|by apply Hf]. apply edit_inv; [by apply Hf|done].
  - intros id t Hw. specialize (Hf id t Hw). unfold finish_task. wsimpl. rewrite Hr, tasks_of_app, tasks_of_cons in Hf.
    by rewrite tasks_of_app, tasks_of_cons.
  - intros id t Hw. specialize (Hf id t Hw). unfold task_send. wsimpl. rewrite Hr, tasks_of_app, tasks_of_cons in Hf.
    by rewrite tasks_of_app, tasks_of_cons.
  - by apply end_files.
Qed.

(** C30. No file is compacted twice at once: however tasks are picked, refused for
    lack of memory, finished and dropped while files come and go, the inputs of
    all tasks of a table are distinct files. *)
Theorem compaction_tasks_disjoint now w id t : reach (now, w) -> wk_tables w !! id = Some t ->
  NoDup (fh_addr <$> concat (inputs_of <$> tasks_of id (wk_running w))).
Proof.
  intros Hr. assert (H : files_inv now w); [|intros Hw; apply (ti_inputs _ _ _ (H id t Hw))].
  change (files_inv (now, w).1 (now, w).2). remember (now, w) as s eqn:Hs. clear Hs.
  induction Hr as [now' tables Hnew|s s' _ IH Hok Hstep]; [|by eapply step_files].
  intros id' t' Ht. cbn in Ht. destruct (Hnew _ _ Ht) as [Hl Hfl].
  split; unfold all_files; rewrite ?Hl; cbn; [| |by apply NoDup_nil_2|by apply NoDup_nil_2| |]; intros f.
  - by intros Hf%elem_of_nil.
  - by intros g Hf%elem_of_nil.
  - by intros Hf%elem_of_nil.
  - by intros Hf%elem_of_nil.
Qed.
End runs.

(** ** The worker sends to itself *)
Section blocked.
Context {E : Type} (sort_by_key : (FileHandle -> Z) -> list FileHandle -> list FileHandle) (cfg : SchedulerConfig).
Abbreviation step := (wstep (E:=E) sort_by_key cfg).

Definition blocked (w : Worker) : Prop :=
  wk_pc w = SendingSchedule /\ (schedule_channel_len cfg <= length (wk_channel w))%nat.
Lemma blocked_step s s' : blocked s.2 -> step s s' -> blocked s'.2 /\ wk_channel s'.2 = wk_channel s.2.
Proof.
  intros [Hpc Hlen] Hs. destruct Hs; cbn [snd] in *; try congruence; try lia; done.
Qed.
Lemma fill_channel now w n : reach (E:=E) sort_by_key cfg (now, w) -> tables_ok (E:=E) cfg w ->
  (length (wk_channel w) + n = schedule_channel_len cfg)%nat ->
  reach (E:=E) sort_by_key cfg (now, with_channel w (wk_channel w ++ replicate n (Request 0))).
Proof.
  revert w. induction n as [|n IH]; intros w Hr Ht Hn.
  - cbn. rewrite app_nil_r. by destruct w.
  - pose proof (IH (with_channel w (wk_channel w ++ [Request 0]))) as H. wsimpl. cbn [wk_channel with_channel] in H.
    rewrite <- app_assoc in H. cbn in H. apply H; [|done|rewrite length_app; cbn; lia].
    eapply reach_step; [exact Hr|done|]. apply ws_try_send. lia.
Qed.

(** C35. The worker can block itself for good: when no request came in time, it
    sends a message to its own channel and waits for room, but if requests have
    filled the channel meanwhile, only the worker could make room.  From then on no
    request is received, whatever happens. *)
Theorem worker_blocks_itself :
  exists s, reach (E:=E) sort_by_key cfg s /\
    forall s', rtc step s s' -> wk_pc s'.2 = SendingSchedule /\ wk_channel s'.2 = wk_channel s.2.
Proof.
  set (w := with_pc (worker_new ∅) SendingSchedule).
  assert (Hr : reach (E:=E) sort_by_key cfg (0, w)).
  { apply (reach_step sort_by_key cfg (0, worker_new ∅)).
    - apply reach_new. intros id t Ht. by rewrite lookup_empty in Ht.
    - intros id t Ht. cbn in Ht. by rewrite lookup_empty in Ht.
    - apply (ws_timeout sort_by_key cfg 0 (worker_new ∅) [] 0 queue_new); [done|done| |done].
      intros id. cbn. rewrite lookup_empty. split; [by intros ?%elem_of_nil|by intros []]. }
  eexists. split; [apply (fill_channel 0 w (schedule_channel_len cfg) Hr); [|done]|].
  { intros id t Ht. cbn in Ht. by rewrite lookup_empty in Ht. }
  set (s := (0, _)). assert (Hb : blocked s.2) by (split; [done|cbn; rewrite length_replicate; lia]).
  clearbody s. intros s' Hs. enough (blocked s'.2 /\ wk_channel s'.2 = wk_channel s.2) as [[Hpc _] Hc] by done.
  induction Hs as [s|s1 s2 s3 H12 _ IH]; [done|]. destruct (blocked_step _ _ Hb H12) as [Hb2 Hc2]. rewrite <- Hc2. by apply IH.
Qed.
End blocked.

(** ** A concrete scheduler *)
Definition demo_cfg : SchedulerConfig := MkConfig 4 2 100 4.
Definition demo_tier : PickerContext := MkPickerContext 2000 (Some 60000) (SizeTiered (MkSizeTiered 2 16 50)).
Definition demo_table (files : list FileMeta) : TableState :=
  MkTableState (ok_or (add_ssts 0 files levels_new) levels_new) ∅ (Some demo_tier).
Definition demo_worker (files : list FileMeta) : Worker := worker_new {[ 1 := demo_table files ]}.
Definition demo_files : list FileMeta := [sst 1 0 2000 10 1; sst 2 0 2000 20 2].
Definition demo_received : Worker :=
  match handle_schedule_task (E:=unit) stable_sort demo_cfg 5000 0 (demo_worker demo_files) (Request 1) with
  | Ok (Some w) => w
  | _ => demo_worker []
  end.

Lemma demo_tables_ok files : Forall (fun f => 0 <= fm_size f) files ->
  (forall level fs, @iter_ssts_at_level unit (ts_levels (demo_table files)) level = Ok fs -> sizes_ok fs) ->
  forall w, wk_tables w = {[ 1 := demo_table files ]} -> tables_ok (E:=unit) demo_cfg w.
Proof.
  intros _ Hs w Hw id t Ht. rewrite Hw in Ht. apply lookup_singleton_Some in Ht as [<- <-]. split; [exact Hs|].
  intros ctx [= <-]. split; [vm_compute; reflexivity|]. intros ttl [= <-]. lia.
Qed.
Ltac demo_sizes := let H := fresh in intros level fs H; unfold iter_ssts_at_level in H; destruct (Level.as_usize level) as [|[|[|n]]];
  vm_compute in H; simplify_eq; split; repeat constructor; vm_compute; discriminate.
Lemma demo_step files f : Forall (fun f => 0 <= fm_size f) files ->
  (forall level fs, @iter_ssts_at_level unit (ts_levels (demo_table files)) level = Ok fs -> sizes_ok fs) ->
  @add_sst_to_level unit (ts_levels (demo_table files)) 0 f = Ok (ts_levels (demo_table (files ++ [f]))) ->
  reach (E:=unit) stable_sort demo_cfg (5000, demo_worker files) -> reach (E:=unit) stable_sort demo_cfg (5000, demo_worker (files ++ [f])).
Proof.
  intros Hf Hs Ha Hr. eapply reach_step; [exact Hr|by apply (demo_tables_ok files)|].
  pose proof (ws_edit (E:=unit) stable_sort demo_cfg 5000 (demo_worker files) 1 (demo_table files) (ts_levels (demo_table (files ++ [f])))) as H.
  unfold with_tables, demo_worker, worker_new in *. cbn [wk_tables wk_request_buf wk_ongoing wk_usage wk_running wk_channel wk_pc] in H.
  rewrite insert_singleton_eq in H. apply H; [apply lookup_singleton_eq|]. by eapply le_add.
Qed.
Lemma demo_reach : reach (E:=unit) stable_sort demo_cfg (5000, demo_received).
Proof.
  assert (H2 : reach (E:=unit) stable_sort demo_cfg (5000, demo_worker demo_files)).
  { apply (demo_step [sst 1 0 2000 10 1]); [by repeat constructor|demo_sizes|vm_compute; reflexivity|].
    apply (demo_step []); [constructor|demo_sizes|vm_compute; reflexivity|].
    apply reach_new. intros id t [<- <-]%lookup_singleton_Some. done. }
  eapply reach_step; [eapply reach_step; [exact H2| |apply (ws_try_send (E:=unit) stable_sort demo_cfg 5000 _ 1); cbn; lia]| |].
  - apply (demo_tables_ok demo_files); [by repeat constructor|demo_sizes|done].
  - apply (demo_tables_ok demo_files); [by repeat constructor|demo_sizes|done].
  - apply (ws_receive (E:=unit) stable_sort demo_cfg 5000 _ (Request 1) [] 0); [done|done|]. vm_compute. reflexivity.
Qed.
Lemma scheduler_keeps_limits_witness : wk_ongoing demo_received = 1%nat /\ wk_usage demo_received = 30 /\ limits_ok demo_cfg demo_received.
Proof.
  split; [vm_compute; reflexivity|]. split; [vm_compute; reflexivity|].
  apply (scheduler_keeps_limits (E:=unit) stable_sort demo_cfg ltac:(cbn; lia) (5000, demo_received) demo_reach).
Defined.
Lemma compaction_tasks_disjoint_witness :
  fh_id <$> concat (inputs_of <$> tasks_of 1 (wk_running demo_received)) = [2; 1] /\
  NoDup (fh_addr <$> concat (inputs_of <$> tasks_of 1 (wk_running demo_received))).
Proof.
  split; [vm_compute; reflexivity|].
  destruct (wk_tables demo_received !! 1) as [t|] eqn:Ht; [|by vm_compute in Ht].
  exact (compaction_tasks_disjoint (E:=unit) stable_sort demo_cfg 5000 demo_received 1 t demo_reach Ht).
Defined.
