(* ===== verification/Manifest.v ===== *)
(** * The manifest

    Models [analytic_engine/src/manifest/]: the updates of the meta data of a
    table and their messages ([meta_edit.rs], [table/version_edit.rs]), the
    builder that replays them ([meta_snapshot.rs]), and the log with its snapshots
    ([details.rs]), with the part of [table_meta_set_impl.rs] that keeps the meta
    data in memory.

    Schemas and table options are opaque here, with the conversion to and from
    their messages as a class.  The log of a table is a list of updates with their
    sequences, the object store a message per table; both keep what they were
    given ([wal], [object_store]).  One table is followed; the number of updates
    since the last snapshot is counted over all tables. *)

From Stdlib Require Import ZArith Lia String.
From stdpp Require Import base tactics option list sorting numbers gmap sets.
From S2P Require Import Prelude Time BTree SstFile Version.

#[local] Open Scope Z_scope.

(** ** Messages of version edits ([table/version_edit.rs]) *)
Record PbTimeRange := MkPbRange { pr_start : Z; pr_end : Z }.
Record PbAddFile := MkPbAddFile {
  pa_level : Z; pa_file_id : Z; pa_time_range : option PbTimeRange; pa_max_seq : Z; pa_size : Z; pa_row_num : Z;
  pa_storage_format : Z
}.
Record PbDeleteFile := MkPbDeleteFile { pd_level : Z; pd_file_id : Z }.
Inductive ManifestError :=
| TimeRangeNotFound | ConvertTimeRange | EmptyMetaUpdate | EmptyTableSchema | EmptyTableOptions
| ConvertSchema | ConvertTableOptions | ConvertMetaEdit
| ApplyUpdate (* TableNotFound *) | BuildSnapshotNoCause | ApplyUpdateToTableNoCause.

Definition storage_format_to_pb (f : StorageFormat) : Z := match f with Columnar => 0 | Hybrid => 1 end.
(** The accessor of an unknown number gives the default. *)
Definition storage_format_of_pb (n : Z) : StorageFormat := if n =? 1 then Hybrid else Columnar.
Definition time_range_to_pb (r : TimeRange.t) : PbTimeRange := MkPbRange (TimeRange.inclusive_start r) (TimeRange.exclusive_end r).
Definition time_range_of_pb (r : PbTimeRange) : res ManifestError TimeRange.t :=
  match TimeRange.new (pr_start r) (pr_end r) with Some r => Ok r | None => Err ConvertTimeRange end.
Definition add_file_to_pb (v : AddFile) : PbAddFile :=
  MkPbAddFile (af_level v) (fm_id (af_file v)) (Some (time_range_to_pb (fm_time_range (af_file v)))) (fm_max_seq (af_file v))
    (fm_size (af_file v)) (fm_row_num (af_file v)) (storage_format_to_pb (fm_storage_format (af_file v))).
Definition add_file_of_pb (src : PbAddFile) : res ManifestError AddFile :=
  let? time_range := (match pa_time_range src with Some r => time_range_of_pb r | None => Err TimeRangeNotFound end) in
  Ok (MkAddFile (as_u 16 (pa_level src)) (MkFileMeta (pa_file_id src) (pa_size src) (pa_row_num src) time_range (pa_max_seq src)
        (storage_format_of_pb (pa_storage_format src)))).
Definition delete_file_to_pb (v : DeleteFile) : PbDeleteFile := MkPbDeleteFile (df_level v) (df_file_id v).
Definition delete_file_of_pb (src : PbDeleteFile) : res ManifestError DeleteFile :=
  Ok (MkDeleteFile (as_u 16 (pd_level src)) (pd_file_id src)).

(** A loop that converts every element, until one fails. *)
Fixpoint convert_all {A B} (f : A -> res ManifestError B) (l : list A) : res ManifestError (list B) :=
  match l with
  | [] => Ok []
  | x :: l => let? y := f x in let? ys := convert_all f l in Ok (y :: ys)
  end.

(** ** Updates ([meta_edit.rs]) *)
Section meta.
Context {Sc Op : Type}.

Record AddTableMeta := MkAddTable { at_space_id : Z; at_table_id : Z; at_table_name : string; at_schema : Sc; at_opts : Op }.
Record DropTableMeta := MkDropTable { dt_space_id : Z; dt_table_id : Z; dt_table_name : string }.
Record VersionEditMeta := MkEditMeta {
  vx_space_id : Z; vx_table_id : Z; vx_flushed_sequence : Z; vx_files_to_add : list AddFile; vx_files_to_delete : list DeleteFile;
  vx_mems_to_remove : list Z; vx_max_file_id : Z
}.
Record AlterSchemaMeta := MkAlterSchema { as_space_id : Z; as_table_id : Z; as_schema : Sc; as_pre_schema_version : Z }.
Record AlterOptionsMeta := MkAlterOptions { ao_space_id : Z; ao_table_id : Z; ao_options : Op }.
Inductive MetaUpdate :=
| AddTable (v : AddTableMeta)
| DropTable (v : DropTableMeta)
| UpdVersionEdit (v : VersionEditMeta)
| AlterSchema (v : AlterSchemaMeta)
| AlterOptions (v : AlterOptionsMeta).
Definition update_table_id (u : MetaUpdate) : Z :=
  match u with
  | AddTable v => at_table_id v | UpdVersionEdit v => vx_table_id v | AlterSchema v => as_table_id v
  | AlterOptions v => ao_table_id v | DropTable v => dt_table_id v
  end.
Definition update_space_id (u : MetaUpdate) : Z :=
  match u with
  | AddTable v => at_space_id v | UpdVersionEdit v => vx_space_id v | AlterSchema v => as_space_id v
  | AlterOptions v => ao_space_id v | DropTable v => dt_space_id v
  end.
(** [into_version_edit] leaves the memtables out. *)
Definition into_version_edit (v : VersionEditMeta) : VersionEdit :=
  MkVersionEdit (vx_flushed_sequence v) [] (vx_files_to_add v) (vx_files_to_delete v) (vx_max_file_id v).

(** ** [MetaSnapshotBuilder] ([meta_snapshot.rs]) *)
Record MetaSnapshot := MkMetaSnapshot { sn_table_meta : AddTableMeta; sn_version_meta : option TableVersionMeta }.
Record MetaSnapshotBuilder := MkBuilder { sb_table_meta : option AddTableMeta; sb_version_meta : option TableVersionMeta }.
Definition builder_default : MetaSnapshotBuilder := MkBuilder None None.
Definition build (b : MetaSnapshotBuilder) : option MetaSnapshot :=
  (fun v => MkMetaSnapshot v (sb_version_meta b)) <$> sb_table_meta b.
Definition set_at_schema (t : AddTableMeta) (s : Sc) : AddTableMeta :=
  MkAddTable (at_space_id t) (at_table_id t) (at_table_name t) s (at_opts t).
Definition set_at_opts (t : AddTableMeta) (o : Op) : AddTableMeta :=
  MkAddTable (at_space_id t) (at_table_id t) (at_table_name t) (at_schema t) o.
Definition apply_update (b : MetaSnapshotBuilder) (update : MetaUpdate) : res ManifestError MetaSnapshotBuilder :=
  match update, sb_table_meta b with
  | AddTable meta, _ => Ok (MkBuilder (Some meta) (sb_version_meta b))
  | _, None => Err ApplyUpdate
  | UpdVersionEdit meta, Some _ =>
      let? version := meta_apply_edit (default version_meta_default (sb_version_meta b)) (into_version_edit meta) in
      Ok (MkBuilder (sb_table_meta b) (Some version))
  | AlterSchema meta, Some t => Ok (MkBuilder (Some (set_at_schema t (as_schema meta))) (sb_version_meta b))
  | AlterOptions meta, Some t => Ok (MkBuilder (Some (set_at_opts t (ao_options meta))) (sb_version_meta b))
  | DropTable _, Some _ => Ok (MkBuilder None None)
  end.

(** ** Messages of updates and snapshots *)
(** The conversions of schemas and options, which come back from their messages. *)
Class PbConversions (PSc POp : Type) := {
  schema_to_pb : Sc -> PSc;
  schema_of_pb : PSc -> option Sc;
  options_to_pb : Op -> POp;
  options_of_pb : POp -> option Op;
  schema_pb_roundtrip : forall s, schema_of_pb (schema_to_pb s) = Some s;
  options_pb_roundtrip : forall o, options_of_pb (options_to_pb o) = Some o
}.
Context {PSc POp : Type} `{PB : !PbConversions PSc POp}.

Record PbAddTable := MkPbAddTable {
  pt_space_id : Z; pt_table_id : Z; pt_table_name : string; pt_schema : option PSc; pt_options : option POp
}.
Record PbVersionEdit := MkPbEdit {
  pv_space_id : Z; pv_table_id : Z; pv_flushed_sequence : Z; pv_files_to_add : list PbAddFile;
  pv_files_to_delete : list PbDeleteFile; pv_max_file_id : Z
}.
Record PbAlterSchema := MkPbAlterSchema { px_space_id : Z; px_table_id : Z; px_schema : option PSc; px_pre_schema_version : Z }.
Record PbAlterOptions := MkPbAlterOptions { po_space_id : Z; po_table_id : Z; po_options : option POp }.
Inductive PbMeta :=
| PbMetaAddTable (v : PbAddTable)
| PbMetaVersionEdit (v : PbVersionEdit)
| PbMetaAlterSchema (v : PbAlterSchema)
| PbMetaAlterOptions (v : PbAlterOptions)
| PbMetaDropTable (v : DropTableMeta).
Definition PbMetaUpdate := option PbMeta.

Definition need {A} (e : ManifestError) (o : option A) : res ManifestError A := match o with Some x => Ok x | None => Err e end.
Definition add_table_to_pb (v : AddTableMeta) : PbAddTable :=
  MkPbAddTable (at_space_id v) (at_table_id v) (at_table_name v) (Some (schema_to_pb (at_schema v))) (Some (options_to_pb (at_opts v))).
Definition add_table_of_pb (src : PbAddTable) : res ManifestError AddTableMeta :=
  let? table_schema := need EmptyTableSchema (pt_schema src) in
  let? opts := need EmptyTableOptions (pt_options src) in
  let? schema := need ConvertSchema (schema_of_pb table_schema) in
  let? opts := need ConvertTableOptions (options_of_pb opts) in
  Ok (MkAddTable (pt_space_id src) (pt_table_id src) (pt_table_name src) schema opts).
Definition version_edit_to_pb (v : VersionEditMeta) : PbVersionEdit :=
  MkPbEdit (vx_space_id v) (vx_table_id v) (vx_flushed_sequence v) (add_file_to_pb <$> vx_files_to_add v)
    (delete_file_to_pb <$> vx_files_to_delete v) (vx_max_file_id v).
Definition version_edit_of_pb (src : PbVersionEdit) : res ManifestError VersionEditMeta :=
  let? adds := convert_all add_file_of_pb (pv_files_to_add src) in
  let? deletes := convert_all delete_file_of_pb (pv_files_to_delete src) in
  Ok (MkEditMeta (pv_space_id src) (pv_table_id src) (pv_flushed_sequence src) adds deletes [] (pv_max_file_id src)).
Definition alter_schema_to_pb (v : AlterSchemaMeta) : PbAlterSchema :=
  MkPbAlterSchema (as_space_id v) (as_table_id v) (Some (schema_to_pb (as_schema v))) (as_pre_schema_version v).
Definition alter_schema_of_pb (src : PbAlterSchema) : res ManifestError AlterSchemaMeta :=
  let? table_schema := need EmptyTableSchema (px_schema src) in
  let? schema := need ConvertSchema (schema_of_pb table_schema) in
  Ok (MkAlterSchema (px_space_id src) (px_table_id src) schema (px_pre_schema_version src)).
Definition alter_options_to_pb (v : AlterOptionsMeta) : PbAlterOptions :=
  MkPbAlterOptions (ao_space_id v) (ao_table_id v) (Some (options_to_pb (ao_options v))).
Definition alter_options_of_pb (src : PbAlterOptions) : res ManifestError AlterOptionsMeta :=
  let? table_options := need EmptyTableOptions (po_options src) in
  let? options := need ConvertTableOptions (options_of_pb table_options) in
  Ok (MkAlterOptions (po_space_id src) (po_table_id src) options).
Definition update_to_pb (u : MetaUpdate) : PbMetaUpdate :=
  Some (match u with
        | AddTable v => PbMetaAddTable (add_table_to_pb v)
        | UpdVersionEdit v => PbMetaVersionEdit (version_edit_to_pb v)
        | AlterSchema v => PbMetaAlterSchema (alter_schema_to_pb v)
        | AlterOptions v => PbMetaAlterOptions (alter_options_to_pb v)
        | DropTable v => PbMetaDropTable v
        end).
Definition update_of_pb (src : PbMetaUpdate) : res ManifestError MetaUpdate :=
  let? meta := need EmptyMetaUpdate src in
  match meta with
  | PbMetaAddTable v => let? v := add_table_of_pb v in Ok (AddTable v)
  | PbMetaVersionEdit v => let? v := version_edit_of_pb v in Ok (UpdVersionEdit v)
  | PbMetaAlterSchema v => let? v := alter_schema_of_pb v in Ok (AlterSchema v)
  | PbMetaAlterOptions v => let? v := alter_options_of_pb v in Ok (AlterOptions v)
  | PbMetaDropTable v => Ok (DropTable v)
  end.

(** [Snapshot]. *)
Record Snapshot := MkSnapshot { ss_end_seq : Z; ss_data : option MetaSnapshot }.
Record PbSnapshot := MkPbSnapshot { ps_end_seq : Z; ps_meta : option PbAddTable; ps_version_edit : option PbVersionEdit }.
Definition snapshot_edit (t : AddTableMeta) (v : TableVersionMeta) : VersionEditMeta :=
  MkEditMeta (at_space_id t) (at_table_id t) (vm_flushed_sequence v) (ordered_files v) [] [] (vm_max_file_id v).
Definition snapshot_to_pb (src : Snapshot) : PbSnapshot :=
  match ss_data src with
  | Some d => MkPbSnapshot (ss_end_seq src) (Some (add_table_to_pb (sn_table_meta d)))
      ((fun v => version_edit_to_pb (snapshot_edit (sn_table_meta d) v)) <$> sn_version_meta d)
  | None => MkPbSnapshot (ss_end_seq src) None None
  end.
Definition rtranspose {A B} (f : A -> res ManifestError B) (o : option A) : res ManifestError (option B) :=
  match o with Some a => let? b := f a in Ok (Some b) | None => Ok None end.
Definition snapshot_of_pb (src : PbSnapshot) : res ManifestError Snapshot :=
  let? meta := rtranspose add_table_of_pb (ps_meta src) in
  let? version_edit := rtranspose version_edit_of_pb (ps_version_edit src) in
  let? version_meta := rtranspose (fun v => meta_apply_edit version_meta_default (into_version_edit v)) version_edit in
  Ok (MkSnapshot (ps_end_seq src) ((fun v => MkMetaSnapshot v version_meta) <$> meta)).

(** ** The log and the snapshots ([details.rs]) *)
Record Store := MkStore {
  st_log : list (Z * PbMetaUpdate);
  st_last_seq : Z;
  st_snapshot : option PbSnapshot
}.
(** [scan] after a sequence, or from the first one. *)
Definition scan (st : Store) (after : option Z) : list (Z * PbMetaUpdate) :=
  match after with Some n => filter (fun e => n < e.1) (st_log st) | None => st_log st end.
Definition append (st : Store) (u : MetaUpdate) : Store :=
  MkStore (st_log st ++ [(st_last_seq st + 1, update_to_pb u)]) (st_last_seq st + 1) (st_snapshot st).
Definition delete_up_to (st : Store) (inclusive_end : Z) : Store :=
  MkStore (filter (fun e => inclusive_end < e.1) (st_log st)) (st_last_seq st) (st_snapshot st).
Definition store_snapshot (st : Store) (s : Snapshot) : Store := MkStore (st_log st) (st_last_seq st) (Some (snapshot_to_pb s)).
Definition load_snapshot (st : Store) : res ManifestError (option Snapshot) := rtranspose snapshot_of_pb (st_snapshot st).

(** The loop over the updates of the log. *)
Definition replay (latest : Z * MetaSnapshotBuilder) (entries : list (Z * PbMetaUpdate)) : res ManifestError (Z * MetaSnapshotBuilder) :=
  rfold (fun (acc : Z * MetaSnapshotBuilder) e =>
    let? update := update_of_pb e.2 in
    let? b := apply_update acc.2 update in Ok (e.1, b)) entries latest.
Definition create_latest_snapshot_with_prev (st : Store) (prev : Snapshot) : res ManifestError Snapshot :=
  let b := match ss_data prev with Some v => MkBuilder (Some (sn_table_meta v)) (sn_version_meta v) | None => builder_default end in
  let? r := replay (ss_end_seq prev, b) (scan st (Some (ss_end_seq prev))) in
  Ok (MkSnapshot r.1 (build r.2)).
Definition create_latest_snapshot_without_prev (st : Store) : res ManifestError (option Snapshot) :=
  let entries := scan st None in
  let? r := replay (0, builder_default) entries in
  Ok (match entries with [] => None | _ => Some (MkSnapshot r.1 (build r.2)) end).
(** [SnapshotRecoverer::recover]. *)
Definition recover (st : Store) : res ManifestError (option Snapshot) :=
  let? prev := load_snapshot st in
  match prev with
  | Some v => let? s := create_latest_snapshot_with_prev st v in Ok (Some s)
  | None => create_latest_snapshot_without_prev st
  end.

(** ** The table in memory ([table_meta_set_impl.rs]) *)
Record TableMem := MkTableMem { tm_meta : AddTableMeta; tm_version : TableVersion }.
Definition mem_apply_update (mem : option TableMem) (u : MetaUpdate) : res ManifestError (option TableMem) :=
  match u, mem with
  | AddTable meta, _ => Ok (Some (MkTableMem meta version_new))
  | DropTable _, _ => Ok None
  | UpdVersionEdit v, Some t =>
      let? version := apply_edit (tm_version t) (MkVersionEdit (vx_flushed_sequence v) (vx_mems_to_remove v) (vx_files_to_add v)
        (vx_files_to_delete v) (vx_max_file_id v)) in
      Ok (Some (MkTableMem (tm_meta t) version))
  | AlterSchema v, Some t => Ok (Some (MkTableMem (set_at_schema (tm_meta t) (as_schema v)) (tm_version t)))
  | AlterOptions v, Some t => Ok (Some (MkTableMem (set_at_opts (tm_meta t) (ao_options v)) (tm_version t)))
  | _, None => Err ApplyUpdateToTableNoCause
  end.
Definition get_table_snapshot (mem : option TableMem) : res ManifestError (option MetaSnapshot) :=
  match mem with
  | None => Err BuildSnapshotNoCause
  | Some t => let? version := snapshot (tm_version t) in Ok (Some (MkMetaSnapshot (tm_meta t) (Some version)))
  end.
(** [apply_snapshot]: the version of a table that is opened; [order] is the order
    in which the files come out of the map. *)
Definition apply_snapshot (d : MetaSnapshot) (order : list AddFile) : res ManifestError TableMem :=
  let? version := (match sn_version_meta d with Some m => apply_meta version_new m order | None => Ok version_new end) in
  Ok (MkTableMem (sn_table_meta d) version).

(** ** [ManifestImpl] *)
Record Manifest := MkManifest { mf_store : Store; mf_mem : option TableMem; mf_num_updates : Z }.
Definition decrease_num_updates (every num : Z) : Z := if num <? every then 0 else num - every.
(** [Snapshotter::snapshot]: the meta data in memory, stored, then the log is cut. *)
Definition snapshotter_snapshot (m : Manifest) (end_seq : Z) : res ManifestError Store :=
  let? data := get_table_snapshot (mf_mem m) in
  Ok (delete_up_to (store_snapshot (mf_store m) (MkSnapshot end_seq data)) end_seq).
(** [maybe_do_snapshot], when no other snapshot is being taken. *)
Definition maybe_do_snapshot (every : Z) (m : Manifest) (force : bool) : res ManifestError Manifest :=
  if (negb force && (mf_num_updates m <? every))%bool then Ok m
  else
    let? st := snapshotter_snapshot m (st_last_seq (mf_store m)) in
    Ok (MkManifest st (mf_mem m) (decrease_num_updates every (mf_num_updates m))).
Definition store_update_to_wal (m : Manifest) (u : MetaUpdate) : Manifest :=
  MkManifest (append (mf_store m) u) (mf_mem m) (mf_num_updates m + 1).
(** [apply_edit]: a snapshot if it is time, the log, then the memory. *)
Definition manifest_apply_edit (every : Z) (m : Manifest) (u : MetaUpdate) : res ManifestError Manifest :=
  let? m := maybe_do_snapshot every m false in
  let m := store_update_to_wal m u in
  let? mem := mem_apply_update (mf_mem m) u in
  Ok (MkManifest (mf_store m) mem (mf_num_updates m)).
Definition do_snapshot (every : Z) (m : Manifest) : res ManifestError Manifest := maybe_do_snapshot every m true.
(** [recover]: the table that is opened. *)
Definition manifest_recover (m : Manifest) (order : list AddFile) : res ManifestError Manifest :=
  let? s := recover (mf_store m) in
  match s with
  | Some (MkSnapshot _ (Some d)) => let? t := apply_snapshot d order in Ok (MkManifest (mf_store m) (Some t) (mf_num_updates m))
  | _ => Ok m
  end.
End meta.

(** ** Messages come back *)
Section roundtrip.
Context {Sc Op PSc POp : Type} `{PB : !PbConversions (Sc:=Sc) (Op:=Op) PSc POp}.
Abbreviation update := (MetaUpdate (Sc:=Sc) (Op:=Op)).

Definition add_file_ok (a : AddFile) : Prop :=
  uint 16 (af_level a) /\ TimeRange.inclusive_start (fm_time_range (af_file a)) <= TimeRange.exclusive_end (fm_time_range (af_file a)).
Definition delete_file_ok (d : DeleteFile) : Prop := uint 16 (df_level d).
Lemma add_file_roundtrip a : add_file_ok a -> add_file_of_pb (add_file_to_pb a) = Ok a.
Proof.
  intros [Hl Hr]. destruct a as [level [id size rows [start stop] seq format]]. unfold add_file_of_pb, add_file_to_pb. cbn in *.
  unfold time_range_of_pb, TimeRange.new. cbn. rewrite (proj2 (Z.leb_le _ _) Hr). cbn. rewrite as_u_id by done. by destruct format.
Qed.
Lemma delete_file_roundtrip d : delete_file_ok d -> delete_file_of_pb (delete_file_to_pb d) = Ok d.
Proof. intros Hl. destruct d. unfold delete_file_of_pb. cbn in *. by rewrite as_u_id. Qed.
Lemma convert_all_fmap {A B} (f : B -> A) (g : A -> res ManifestError B) l :
  (forall x, x ∈ l -> g (f x) = Ok x) -> convert_all g (f <$> l) = Ok l.
Proof.
  induction l as [|x l IH]; intros H; [done|]. cbn [fmap list_fmap convert_all]. rewrite H by left. cbn [rbind].
  fold (f <$> l). rewrite IH by (intros y Hy; apply H; by right). done.
Qed.
Definition edit_meta_ok (v : VersionEditMeta) : Prop :=
  Forall add_file_ok (vx_files_to_add v) /\ Forall delete_file_ok (vx_files_to_delete v).
(** The memtables are not stored. *)
Definition without_mems (v : VersionEditMeta) : VersionEditMeta :=
  MkEditMeta (vx_space_id v) (vx_table_id v) (vx_flushed_sequence v) (vx_files_to_add v) (vx_files_to_delete v) [] (vx_max_file_id v).
Lemma version_edit_roundtrip v : edit_meta_ok v -> version_edit_of_pb (version_edit_to_pb v) = Ok (without_mems v).
Proof.
  intros [Ha Hd]. unfold version_edit_of_pb, version_edit_to_pb. cbn [pv_files_to_add pv_files_to_delete].
  rewrite Forall_forall in Ha. rewrite Forall_forall in Hd. rewrite convert_all_fmap by (intros x Hx; by apply add_file_roundtrip, Ha).
  cbn [rbind]. rewrite convert_all_fmap by (intros x Hx; by apply delete_file_roundtrip, Hd). done.
Qed.
Lemma add_table_roundtrip (v : AddTableMeta (Sc:=Sc) (Op:=Op)) : add_table_of_pb (add_table_to_pb v) = Ok v.
Proof.
  unfold add_table_of_pb. cbn. rewrite schema_pb_roundtrip. cbn. rewrite options_pb_roundtrip. by destruct v.
Qed.
Definition update_ok (u : update) : Prop := match u with UpdVersionEdit v => edit_meta_ok v | _ => True end.
Definition stored (u : update) : update := match u with UpdVersionEdit v => UpdVersionEdit (without_mems v) | _ => u end.
Lemma update_roundtrip u : update_ok u -> update_of_pb (update_to_pb u) = Ok (stored u).
Proof.
  destruct u as [v|v|v|v|v]; intros Hok; cbn [update_to_pb update_of_pb need rbind].
  - by rewrite add_table_roundtrip.
  - done.
  - by rewrite version_edit_roundtrip.
  - unfold alter_schema_of_pb. cbn. rewrite schema_pb_roundtrip. by destruct v.
  - unfold alter_options_of_pb. cbn. rewrite options_pb_roundtrip. by destruct v.
Qed.
Lemma apply_stored (b : MetaSnapshotBuilder (Sc:=Sc) (Op:=Op)) u : apply_update b (stored u) = apply_update b u.
Proof. by destruct u. Qed.
End roundtrip.

(** ** What the meta data of a table is *)
Section abstract.
Context {Sc Op PSc POp : Type} `{PB : !PbConversions (Sc:=Sc) (Op:=Op) PSc POp}.
Abbreviation update := (MetaUpdate (Sc:=Sc) (Op:=Op)).
Abbreviation builder := (MetaSnapshotBuilder (Sc:=Sc) (Op:=Op)).

(** The table: its description, its files by id and the flushed sequence. *)
Record tableA := MkTableA { ta_meta : AddTableMeta (Sc:=Sc) (Op:=Op); ta_files : gmap Z AddFile; ta_flushed : Z }.
Definition updA (a : option tableA) (u : update) : option tableA :=
  match u, a with
  | AddTable meta, _ => Some (MkTableA meta ∅ 0)
  | DropTable _, _ => None
  | UpdVersionEdit v, Some t =>
      Some (MkTableA (ta_meta t) (edited (ta_files t) (into_version_edit v)) (Z.max (ta_flushed t) (vx_flushed_sequence v)))
  | AlterSchema v, Some t => Some (MkTableA (set_at_schema (ta_meta t) (as_schema v)) (ta_files t) (ta_flushed t))
  | AlterOptions v, Some t => Some (MkTableA (set_at_opts (ta_meta t) (ao_options v)) (ta_files t) (ta_flushed t))
  | _, None => None
  end.
(** The updates the engine makes: a table is created once, and changed and dropped
    while it is there; edits add files with new ids and delete files of their
    level. *)
Definition legal (a : option tableA) (u : update) : Prop :=
  match u, a with
  | AddTable _, None | DropTable _, Some _ | AlterSchema _, Some _ | AlterOptions _, Some _ => True
  | UpdVersionEdit v, Some t =>
      edit_ok (ta_files t) (into_version_edit v) /\ edit_ids_ok (into_version_edit v) /\ edit_meta_ok v
  | _, _ => False
  end.
Definition file_ok (id : Z) (f : AddFile) : Prop :=
  fm_id (af_file f) = id /\ 0 <= id <= id_bound /\ valid_level (af_level f) /\ add_file_ok f.
Definition files_ok (m : gmap Z AddFile) : Prop := forall id f, m !! id = Some f -> file_ok id f.

Record meta_is (meta : TableVersionMeta) (t : tableA) : Prop := {
  mi_files : vm_files meta = ta_files t;
  mi_flushed : vm_flushed_sequence meta = ta_flushed t;
  mi_max : 0 <= vm_max_file_id meta <= id_bound;
  mi_aligned : vm_max_file_id meta mod DEFAULT_ALLOC_STEP = 0;
  mi_ids : forall id f, ta_files t !! id = Some f -> id <= vm_max_file_id meta
}.
Definition builder_is (b : builder) (a : option tableA) : Prop :=
  match a with
  | None => b = builder_default
  | Some t => sb_table_meta b = Some (ta_meta t) /\ meta_is (default version_meta_default (sb_version_meta b)) t
  end.
Definition mem_is (mem : option (TableMem (Sc:=Sc) (Op:=Op))) (a : option tableA) : Prop :=
  match mem, a with
  | None, None => True
  | Some tm, Some t => tm_meta tm = ta_meta t /\ lc_holds (levels_controller (tm_version tm)) (ta_files t) /\
      flushed_sequence (tm_version tm) = ta_flushed t /\ 0 <= max_file_id (tm_version tm) <= id_bound
  | _, _ => False
  end.
Definition table_wf (a : option tableA) : Prop :=
  match a with Some t => files_ok (ta_files t) /\ 0 <= ta_flushed t | None => True end.

Lemma adds_ok_level l : forall m, adds_ok m l -> forall a, a ∈ l -> valid_level (af_level a).
Proof.
  induction l as [|b l IH]; intros m Hok a Ha; [by apply elem_of_nil in Ha|]. destruct Hok as (Hv & _ & Hok).
  apply elem_of_cons in Ha as [->|Ha]; [done|]. by apply (IH _ Hok).
Qed.
Lemma updA_wf a u : table_wf a -> legal a u -> table_wf (updA a u).
Proof.
  destruct u as [v|v|v|v|v], a as [t|]; cbn [table_wf updA legal ta_files ta_flushed]; try done.
  intros [Hf H0] ((Hadd & Hdel) & (Hmax & Hids) & (Hok & _)). split; [|lia]. intros id f Hl. unfold edited in Hl.
    apply foldl_deleted_elem, foldl_added_elem in Hl as [Hl|[Hl <-]]; [by apply Hf|].
    cbn in *. rewrite Forall_forall in Hids. rewrite Forall_forall in Hok. split_and!; [done|apply Hids; done|apply Hids; done|by apply (adds_ok_level _ _ Hadd)|by apply Hok].
Qed.

Lemma meta_edit_is meta t v : meta_is meta t -> files_ok (ta_files t) -> edit_ok (ta_files t) (into_version_edit v) ->
  edit_ids_ok (into_version_edit v) ->
  exists meta', meta_apply_edit meta (into_version_edit v) = @Ok ManifestError _ meta' /\
    meta_is meta' (MkTableA (ta_meta t) (edited (ta_files t) (into_version_edit v)) (Z.max (ta_flushed t) (vx_flushed_sequence v))).
Proof.
  intros [Hf Hfl Hmax Hal Hids] _ [Hadd Hdel] [Hm Hall]. unfold meta_apply_edit. rewrite add_meta_files. cbn [fst snd].
  set (e := into_version_edit v) in *.
  set (mx := foldl Z.max (vm_max_file_id meta) (fm_id ∘ af_file <$> ve_files_to_add e)).
  destruct (max_ids_spec (fm_id ∘ af_file <$> ve_files_to_add e) (vm_max_file_id meta) id_bound) as [Hmx Hin].
  { lia. } { apply Forall_fmap. eapply Forall_impl; [exact Hall|]. cbn. lia. }
  fold mx in Hmx, Hin. destruct (align_up (Z.max mx (ve_max_file_id e)) ltac:(lia)) as [Ha1 Ha2].
  rewrite u64_op_ok by (unfold uint, id_bound, DEFAULT_ALLOC_STEP in *; lia). cbn [rbind].
  rewrite u64_op_ok by (unfold uint, id_bound in *; lia). cbn [rbind].
  eexists. split; [done|]. split; cbn [vm_files vm_flushed_sequence vm_max_file_id ta_files ta_flushed].
  - by rewrite Hf.
  - by rewrite Hfl.
  - lia.
  - done.
  - intros id f Hl. unfold edited in Hl. apply foldl_deleted_elem, foldl_added_elem in Hl as [Hl|[Hl <-]].
    + specialize (Hids _ _ Hl). lia.
    + cut (fm_id (af_file f) <= mx); [lia|]. apply Hin, list_elem_of_fmap. by exists f.
Qed.
Lemma builder_step b a u : builder_is b a -> table_wf a -> legal a u -> exists b', apply_update b u = Ok b' /\ builder_is b' (updA a u).
Proof.
  intros Hb Hw Hl. destruct a as [t|].
  - destruct Hb as [Hm Hv]. destruct u as [v|v|v|v|v]; try done; cbn [apply_update]; rewrite Hm.
    + eexists. done.
    + destruct Hl as (He & Hi & _). destruct (meta_edit_is _ t v Hv (proj1 Hw) He Hi) as (meta' & -> & Hm').
      eexists. split; [done|]. done.
    + eexists. split; [done|]. cbn. split; [done|]. by destruct Hv.
    + eexists. split; [done|]. cbn. split; [done|]. by destruct Hv.
  - cbn in Hb. subst b. destruct u; try done. eexists. split; [done|]. cbn. split; [done|].
    split; cbn [vm_files vm_flushed_sequence vm_max_file_id ta_files ta_flushed]; done.
Qed.
Lemma mem_step mem a u : mem_is mem a -> table_wf a -> legal a u -> exists mem', mem_apply_update mem u = Ok mem' /\ mem_is mem' (updA a u).
Proof.
  intros Hm Hw Hl. destruct mem as [tm|], a as [t|]; try done.
  - destruct Hm as (Hmeta & Hh & Hfl & Hmx). destruct u as [v|v|v|v|v]; try done; cbn [mem_apply_update].
    + by eexists.
    + destruct Hl as ((Hadd & Hdel) & (Hids & _) & _).
      destruct (add_files_holds (E:=ManifestError) _ _ _ Hh Hadd) as (lc1 & Hlc1 & Hh1).
      destruct (delete_files_holds (E:=ManifestError) _ _ _ Hh1 Hdel) as (lc2 & Hlc2 & Hh2).
      unfold apply_edit. cbn in *. rewrite Hlc1. cbn [rbind]. rewrite Hlc2. cbn [rbind].
      eexists. split; [done|]. cbn. split_and!; [done|exact Hh2|by rewrite Hfl|lia|lia].
    + eexists. split; [done|]. cbn. by rewrite Hmeta.
    + eexists. split; [done|]. cbn. by rewrite Hmeta.
  - destruct u; try done. eexists. split; [done|]. cbn. split_and!; [done|apply lc_holds_new|done|lia|unfold id_bound; lia].
Qed.

(** A snapshot of the memory is stored and comes back. *)
Definition of_data (d : option (MetaSnapshot (Sc:=Sc) (Op:=Op))) : builder :=
  match d with Some v => MkBuilder (Some (sn_table_meta v)) (sn_version_meta v) | None => builder_default end.
Lemma ordered_files_adds (meta : TableVersionMeta) :
  (forall id a, vm_files meta !! id = Some a -> fm_id (af_file a) = id /\ valid_level (af_level a)) ->
  adds_ok ∅ (ordered_files meta) /\ foldl file_added ∅ (ordered_files meta) = vm_files meta.
Proof. intros Hw. apply order_adds; [done|]. apply merge_sort_Permutation. Qed.
Lemma ordered_files_elem meta f : f ∈ ordered_files meta -> exists id, vm_files meta !! id = Some f.
Proof.
  unfold ordered_files. rewrite merge_sort_Permutation. intros ([id f'] & -> & Hin)%list_elem_of_fmap. exists id. by apply elem_of_map_to_list.
Qed.
Lemma snapshot_roundtrip mem t end_seq : mem_is mem (Some t) -> table_wf (Some t) ->
  exists d d', get_table_snapshot mem = Ok (Some d) /\
    snapshot_of_pb (snapshot_to_pb (MkSnapshot end_seq (Some d))) = Ok (MkSnapshot end_seq d') /\ builder_is (of_data d') (Some t).
Proof.
  intros Hm [Hf H0]. destruct mem as [tm|]; [|done]. destruct Hm as (Hmeta & Hh & Hfl & Hmx). cbn [get_table_snapshot].
  rewrite (snapshot_holds _ _ Hh). cbn [rbind]. set (meta := MkVersionMeta _ _ _).
  assert (Hw : forall id a, vm_files meta !! id = Some a -> fm_id (af_file a) = id /\ valid_level (af_level a)).
  { intros id a Ha. destruct (Hf id a Ha) as (? & _ & ? & _). done. }
  destruct (ordered_files_adds meta Hw) as [Hadds Hfold].
  assert (Hin : forall f, f ∈ ordered_files meta -> file_ok (fm_id (af_file f)) f).
  { intros f (id & Hl)%ordered_files_elem. pose proof (Hf id f Hl) as Hx. destruct (Hw id f Hl) as [<- _]. done. }
  set (v := snapshot_edit (tm_meta tm) meta).
  destruct (meta_edit_is version_meta_default (MkTableA (ta_meta t) ∅ 0) v) as (meta' & Hedit & Hm').
  { split; done. } { done. } { split; [exact Hadds|]. intros d Hd. by apply elem_of_nil in Hd. }
  { split; [exact Hmx|]. apply Forall_forall. intros f Hfo. destruct (Hin f Hfo) as (_ & ? & _). done. }
  do 2 eexists. split; [done|]. split.
  - unfold snapshot_of_pb, snapshot_to_pb. cbn [ss_data sn_table_meta sn_version_meta fmap option_fmap option_map ps_meta ps_version_edit ps_end_seq rtranspose].
    rewrite add_table_roundtrip. cbn [rbind]. fold v. rewrite version_edit_roundtrip.
    + cbn [rbind rtranspose]. change (into_version_edit (without_mems v)) with (into_version_edit v). rewrite Hedit. done.
    + split; [|constructor]. apply Forall_forall. intros f Hfo. destruct (Hin f Hfo) as (_ & _ & _ & ?). done.
  - cbn [of_data builder_is sb_table_meta sb_version_meta fmap option_fmap option_map sn_table_meta sn_version_meta default id].
    split; [by rewrite Hmeta|]. destruct Hm' as [H1 H2 H3 H4 H5]. cbn [ta_files ta_flushed vx_flushed_sequence] in H1, H2, H5.
    assert (Hed : edited ∅ (into_version_edit v) = ta_files t) by exact Hfold.
    split; [rewrite H1; exact Hed|rewrite H2; cbn; rewrite Hfl; lia|done|done|]. intros id f Hl. apply (H5 id f). by rewrite Hed.
Qed.

(** ** Edits and snapshots in any order *)
Inductive Snapper :=
| SIdle
| SSeq (end_seq : Z)
| SData (end_seq : Z) (data : option (MetaSnapshot (Sc:=Sc) (Op:=Op)))
| SStored (end_seq : Z).
(** [sy_hist]: all updates that were written to the log; [sy_inflight]: those
    among them that are not yet in memory. *)
Record Sys := MkSys {
  sy_hist : list update; sy_store : Store (PSc:=PSc) (POp:=POp); sy_mem : option (TableMem (Sc:=Sc) (Op:=Op));
  sy_inflight : list update; sy_snapper : Snapper
}.
Definition sys_new : Sys := MkSys [] (MkStore [] 0 None) None [] SIdle.
(** What an update does to the table, from the first one on. *)
Definition history (l : list update) : option tableA := foldl updA None l.
(** The calls of [apply_edit] and the snapshots they take.  With [exclusive], a
    snapshot reads the last sequence and the memory while no update is between
    the log and the memory; the code has no such rule. *)
Definition reading (sn : Snapper) : Prop := match sn with SSeq _ => True | _ => False end.
Inductive sys_step (exclusive : bool) : Sys -> Sys -> Prop :=
| sys_append s u : legal (history (sy_hist s)) u -> (exclusive = true -> ~ reading (sy_snapper s)) ->
    sys_step exclusive s (MkSys (sy_hist s ++ [u]) (append (sy_store s) u) (sy_mem s) (sy_inflight s ++ [u]) (sy_snapper s))
| sys_apply s u rest mem' : sy_inflight s = u :: rest -> mem_apply_update (sy_mem s) u = Ok mem' ->
    sys_step exclusive s (MkSys (sy_hist s) (sy_store s) mem' rest (sy_snapper s))
| sys_begin s : sy_snapper s = SIdle -> (exclusive = true -> sy_inflight s = []) ->
    sys_step exclusive s (MkSys (sy_hist s) (sy_store s) (sy_mem s) (sy_inflight s) (SSeq (st_last_seq (sy_store s))))
| sys_data s e d : sy_snapper s = SSeq e -> get_table_snapshot (sy_mem s) = Ok d ->
    sys_step exclusive s (MkSys (sy_hist s) (sy_store s) (sy_mem s) (sy_inflight s) (SData e d))
| sys_store s e d : sy_snapper s = SData e d ->
    sys_step exclusive s (MkSys (sy_hist s) (store_snapshot (sy_store s) (MkSnapshot e d)) (sy_mem s) (sy_inflight s) (SStored e))
| sys_delete s e : sy_snapper s = SStored e ->
    sys_step exclusive s (MkSys (sy_hist s) (delete_up_to (sy_store s) e) (sy_mem s) (sy_inflight s) SIdle)
(** Any step of a snapshot may fail. *)
| sys_fail s : sys_step exclusive s (MkSys (sy_hist s) (sy_store s) (sy_mem s) (sy_inflight s) SIdle).
Inductive sys_reach (exclusive : bool) : Sys -> Prop :=
| sr_new : sys_reach exclusive sys_new
| sr_step s s' : sys_reach exclusive s -> sys_step exclusive s s' -> sys_reach exclusive s'.

(** What recovery finds. *)
Definition recovered (o : option (Snapshot (Sc:=Sc) (Op:=Op))) (a : option tableA) : Prop :=
  builder_is (of_data (match o with Some s => ss_data s | None => None end)) a.

(** *** The log *)
Fixpoint all_legal (a : option tableA) (l : list update) : Prop :=
  match l with [] => True | u :: l => legal a u /\ all_legal (updA a u) l end.
Fixpoint entries (after : Z) (l : list update) : list (Z * PbMetaUpdate (PSc:=PSc) (POp:=POp)) :=
  match l with [] => [] | u :: l => (after + 1, update_to_pb u) :: entries (after + 1) l end.
Lemma entries_app n a b : entries n (a ++ b) = entries n a ++ entries (n + Z.of_nat (length a)) b.
Proof.
  revert n. induction a as [|u a IH]; intros n; cbn [entries app length]; [f_equal; lia|]. rewrite IH. do 2 f_equal. f_equal. lia.
Qed.
Lemma entries_seq n l e : e ∈ entries n l -> n < e.1 <= n + Z.of_nat (length l).
Proof.
  revert n. induction l as [|u l IH]; intros n; cbn [entries length]; [by intros ?%elem_of_nil|].
  intros [->|H]%elem_of_cons; cbn; [lia|]. specialize (IH _ H). lia.
Qed.
(** The entries after a sequence. *)
Lemma entries_after n l k : (k <= length l)%nat ->
  filter (fun e : Z * PbMetaUpdate => n + Z.of_nat k < e.1) (entries n l) = entries (n + Z.of_nat k) (drop k l).
Proof.
  revert n k. induction l as [|u l IH]; intros n k Hk; [by rewrite drop_nil|]. cbn [entries].
  destruct k as [|k]; cbn [drop].
  - rewrite Z.add_0_r. rewrite filter_cons_True by (cbn; lia). cbn [entries]. f_equal. specialize (IH (n + 1) 0%nat ltac:(lia)).
    rewrite drop_0, Z.add_0_r in IH. rewrite <- IH at 2. apply filter_iff_in. intros e He%entries_seq. cbn. lia.
  - rewrite filter_cons_False by (cbn; lia). cbn in Hk. replace (n + Z.of_nat (S k)) with (n + 1 + Z.of_nat k) by lia. apply IH. lia.
Qed.
Lemma all_legal_app a l1 l2 : all_legal a (l1 ++ l2) <-> all_legal a l1 /\ all_legal (foldl updA a l1) l2.
Proof. revert a. induction l1 as [|u l1 IH]; intros a; cbn; [tauto|]. rewrite IH. tauto. Qed.
Lemma all_legal_wf l : forall a, table_wf a -> all_legal a l -> table_wf (foldl updA a l).
Proof. induction l as [|u l IH]; intros a Hw Hl; [done|]. destruct Hl as [Hu Hl]. cbn [foldl]. apply IH; [by apply updA_wf|done]. Qed.
Lemma legal_update_ok a u : legal a u -> update_ok u.
Proof. destruct u, a; cbn; try done. by intros (_ & _ & ?). Qed.

Lemma replay_ok l : forall n q b a, builder_is b a -> table_wf a -> all_legal a l ->
  exists q' b', replay (q, b) (entries n l) = Ok (q', b') /\ builder_is b' (foldl updA a l).
Proof.
  induction l as [|u l IH]; intros n q b a Hb Hw Hl; [by exists q, b|]. destruct Hl as [Hu Hl].
  unfold replay. cbn [entries rfold foldl snd fst]. rewrite update_roundtrip by (by eapply legal_update_ok). cbn [rbind].
  rewrite apply_stored. destruct (builder_step b a u Hb Hw Hu) as (b' & -> & Hb'). cbn [rbind].
  apply IH; [done|by apply updA_wf|done].
Qed.

(** *** The invariant under exclusive snapshots *)
(** The message [p] holds the table after the first [k] updates. *)
Definition covers (p : PbSnapshot (PSc:=PSc) (POp:=POp)) (k : nat) (hist : list update) : Prop :=
  exists d', snapshot_of_pb p = Ok (MkSnapshot (Z.of_nat k) d') /\ builder_is (of_data d') (history (take k hist)).
Record log_ok (st : Store (PSc:=PSc) (POp:=POp)) (hist : list update) (d k : nat) : Prop := {
  lk_seq : st_last_seq st = Z.of_nat (length hist);
  lk_le : (d <= k <= length hist)%nat;
  lk_log : st_log st = entries (Z.of_nat d) (drop d hist);
  lk_snapshot : match st_snapshot st with None => k = 0%nat | Some p => covers p k hist end
}.
Definition snapper_ok (s : Sys) (d k : nat) : Prop :=
  match sy_snapper s with
  | SIdle => True
  | SSeq e => e = Z.of_nat (length (sy_hist s)) /\ sy_inflight s = []
  | SData e data => exists j, e = Z.of_nat j /\ (d <= j <= length (sy_hist s))%nat /\
      covers (snapshot_to_pb (MkSnapshot e data)) j (sy_hist s)
  | SStored e => e = Z.of_nat k
  end.
Record sys_inv (s : Sys) : Prop := {
  si_legal : all_legal None (sy_hist s);
  si_mem : exists applied, sy_hist s = applied ++ sy_inflight s /\ mem_is (sy_mem s) (history applied);
  si_store : exists d k, log_ok (sy_store s) (sy_hist s) d k /\ snapper_ok s d k
}.
Lemma history_app l u : history (l ++ [u]) = updA (history l) u.
Proof. unfold history. by rewrite foldl_app. Qed.
Lemma history_wf l : all_legal None l -> table_wf (history l).
Proof. intros Hl. by apply all_legal_wf. Qed.
Lemma covers_app p k hist u : (k <= length hist)%nat -> covers p k hist -> covers p k (hist ++ [u]).
Proof. intros Hk (d' & Hp & Hb). exists d'. split; [done|]. by rewrite take_app_le. Qed.

Lemma append_inv s u : sys_inv s -> legal (history (sy_hist s)) u -> ~ reading (sy_snapper s) ->
  sys_inv (MkSys (sy_hist s ++ [u]) (append (sy_store s) u) (sy_mem s) (sy_inflight s ++ [u]) (sy_snapper s)).
Proof.
  intros [Hl (ap & Hap & Hm) (d & k & [Hseq Hle Hlog Hsn] & Hs)] Hu Hr. split; cbn.
  - apply all_legal_app. split; [done|]. cbn. done.
  - exists ap. split; [|done]. by rewrite app_assoc, <- Hap.
  - exists d, k. split.
    + split; cbn.
      * rewrite length_app, Hseq. cbn. lia.
      * rewrite length_app. lia.
      * rewrite Hlog, Hseq, drop_app_le by lia. rewrite entries_app, length_drop. cbn. do 3 f_equal; lia.
      * destruct (st_snapshot (sy_store s)); [|done]. apply covers_app; [lia|done].
    + unfold snapper_ok in *. cbn. destruct (sy_snapper s); [done|by destruct Hr| |done].
      destruct Hs as (j & -> & Hj & Hc). exists j. split_and!; [done|lia|rewrite length_app; lia|]. apply covers_app; [lia|done].
Qed.
Lemma apply_inv s u rest mem' : sys_inv s -> sy_inflight s = u :: rest -> mem_apply_update (sy_mem s) u = Ok mem' ->
  sys_inv (MkSys (sy_hist s) (sy_store s) mem' rest (sy_snapper s)).
Proof.
  intros [Hl (ap & Hap & Hm) (d & k & Hk & Hs)] Hi Ha. split; cbn; [done| |].
  - exists (ap ++ [u]). split; [by rewrite <- app_assoc, Hap, Hi|]. rewrite Hap, Hi, all_legal_app in Hl. destruct Hl as [Hl1 [Hu _]].
    destruct (mem_step (sy_mem s) (history ap) u Hm (history_wf _ Hl1) Hu) as (mem2 & Hm2 & Hm2'). rewrite Ha in Hm2. injection Hm2 as ->.
    by rewrite history_app.
  - exists d, k. split; [done|]. unfold snapper_ok in *. cbn. destruct (sy_snapper s); try done. destruct Hs as [_ Hs]. congruence.
Qed.
Lemma data_inv s e data : sys_inv s -> sy_snapper s = SSeq e -> get_table_snapshot (sy_mem s) = Ok data ->
  sys_inv (MkSys (sy_hist s) (sy_store s) (sy_mem s) (sy_inflight s) (SData e data)).
Proof.
  intros [Hl (ap & Hap & Hm) (d & k & Hk & Hs)] Hsn Hg. split; cbn; [done|by exists ap|]. exists d, k. split; [done|].
  unfold snapper_ok in *. rewrite Hsn in Hs. cbn. destruct Hs as [-> Hin]. rewrite Hin, app_nil_r in Hap. subst ap.
  exists (length (sy_hist s)). split; [done|]. split; [pose proof (lk_le _ _ _ _ Hk); lia|]. unfold covers. rewrite take_ge by lia.
  destruct (history (sy_hist s)) as [t|] eqn:Ht; [|destruct (sy_mem s); done].
  destruct (snapshot_roundtrip (sy_mem s) t (Z.of_nat (length (sy_hist s))) Hm) as (d1 & d' & Hg' & Hp & Hb).
  { rewrite <- Ht. by apply history_wf. }
  rewrite Hg in Hg'. injection Hg' as ->. by exists d'.
Qed.
Lemma store_inv s e data : sys_inv s -> sy_snapper s = SData e data ->
  sys_inv (MkSys (sy_hist s) (store_snapshot (sy_store s) (MkSnapshot e data)) (sy_mem s) (sy_inflight s) (SStored e)).
Proof.
  intros [Hl Hm (d & k & [Hseq Hle Hlog Hsn] & Hs)] Hd. split; cbn; [done|done|]. unfold snapper_ok in Hs. rewrite Hd in Hs.
  destruct Hs as (j & -> & Hj & Hc). exists d, j. split; [|done]. split; cbn; done.
Qed.
Lemma delete_inv s e : sys_inv s -> sy_snapper s = SStored e ->
  sys_inv (MkSys (sy_hist s) (delete_up_to (sy_store s) e) (sy_mem s) (sy_inflight s) SIdle).
Proof.
  intros [Hl Hm (d & k & [Hseq Hle Hlog Hsn] & Hs)] Hd. split; cbn; [done|done|]. unfold snapper_ok in Hs. rewrite Hd in Hs. subst e.
  exists k, k. split; [|done]. split; cbn; [done|lia| |done]. rewrite Hlog.
  pose proof (entries_after (Z.of_nat d) (drop d (sy_hist s)) (k - d)) as He. rewrite length_drop in He. specialize (He ltac:(lia)).
  rewrite drop_drop in He. replace (d + (k - d))%nat with k in He by lia. replace (Z.of_nat d + Z.of_nat (k - d)) with (Z.of_nat k) in He by lia.
  exact He.
Qed.
Lemma sys_reach_inv s : sys_reach true s -> sys_inv s.
Proof.
  induction 1 as [|s s' _ IH Hs].
  - split; cbn; [done|by exists []|]. exists 0%nat, 0%nat. split; [|done]. by split.
  - destruct Hs as [s u Hu Hx|s u rest mem' Hi Ha|s Hsn Hx|s e d Hsn Hg|s e d Hsn|s e Hsn|s].
    + apply append_inv; auto.
    + by eapply apply_inv.
    + destruct IH as [Hl Hm (d & k & Hk & Hs)]. split; cbn; [done|done|]. exists d, k. split; [done|].
      unfold snapper_ok. cbn. split; [apply Hk|by apply Hx].
    + by apply data_inv.
    + by apply store_inv.
    + by apply delete_inv.
    + destruct IH as [Hl Hm (d & k & Hk & Hs)]. split; cbn; [done|done|]. by exists d, k.
Qed.
(** Recovery replays what the snapshot does not cover. *)
Lemma recover_log st hist d k : log_ok st hist d k -> all_legal None hist ->
  exists o, recover st = Ok o /\ recovered o (history hist).
Proof.
  intros [Hseq Hle Hlog Hsn] Hl. unfold recover, load_snapshot, rtranspose. destruct (st_snapshot st) as [p|].
  - destruct Hsn as (d' & -> & Hb). cbn [rbind]. unfold create_latest_snapshot_with_prev, scan. cbn [ss_data ss_end_seq].
    pose proof (entries_after (Z.of_nat d) (drop d hist) (k - d)) as He. rewrite length_drop in He. specialize (He ltac:(lia)).
    rewrite drop_drop in He. replace (d + (k - d))%nat with k in He by lia. replace (Z.of_nat d + Z.of_nat (k - d)) with (Z.of_nat k) in He by lia.
    rewrite Hlog, He. rewrite <- (take_drop k hist), all_legal_app in Hl. destruct Hl as [Hl1 Hl2].
    destruct (replay_ok (drop k hist) (Z.of_nat k) (Z.of_nat k) (of_data d') _ Hb (history_wf _ Hl1) Hl2) as (q & b & Hr & Hb').
    unfold of_data in Hr. rewrite Hr. cbn [rbind]. eexists. split; [done|]. unfold recovered. cbn [ss_data fst snd].
    unfold history in Hb' |- *. rewrite <- foldl_app, take_drop in Hb'.
    destruct (foldl updA None hist) as [t|]; [|change (b = builder_default) in Hb'; by subst b]. destruct Hb' as [Hm Hv]. unfold build. rewrite Hm. cbn. done.
  - subst k. assert (d = 0%nat) as -> by lia. rewrite drop_0 in Hlog. change (Z.of_nat 0) with 0 in Hlog.
    unfold create_latest_snapshot_without_prev, scan. rewrite Hlog.
    destruct (replay_ok hist 0 0 builder_default None eq_refl I Hl) as (q & b & Hr & Hb'). rewrite Hr. cbn [rbind]. eexists. split; [done|].
    unfold recovered. unfold history. destruct hist as [|u hist]; [done|]. cbn [entries ss_data fst snd].
    destruct (foldl updA None (u :: hist)) as [t|]; [|change (b = builder_default) in Hb'; by subst b]. destruct Hb' as [Hm Hv]. unfold build. rewrite Hm. cbn. done.
Qed.


(** ** Calls one after the other *)
(** The calls made for a table and the updates they wrote; the updates of other
    tables are counted too.  A call that fails leaves the manifest as it was. *)
Inductive calls (every : Z) : Manifest (Sc:=Sc) (Op:=Op) (PSc:=PSc) (POp:=POp) -> list update -> Prop :=
| calls_new n : calls every (MkManifest (MkStore [] 0 None) None n) []
| calls_others m h n : calls every m h -> calls every (MkManifest (mf_store m) (mf_mem m) n) h
| calls_edit m h u m' : calls every m h -> legal (history h) u -> manifest_apply_edit every m u = Ok m' -> calls every m' (h ++ [u])
| calls_snapshot m h m' : calls every m h -> do_snapshot every m = Ok m' -> calls every m' h.
(** The manifest between calls. *)
Definition quiet (m : Manifest (Sc:=Sc) (Op:=Op) (PSc:=PSc) (POp:=POp)) (h : list update) : Sys := MkSys h (mf_store m) (mf_mem m) [] SIdle.
Lemma snapshot_steps every m force m' h : sys_reach true (quiet m h) -> maybe_do_snapshot every m force = Ok m' -> sys_reach true (quiet m' h).
Proof.
  intros Hr Hs. unfold maybe_do_snapshot in Hs. destruct (_ && _)%bool; [by injection Hs as <-|].
  apply rbind_ok in Hs as (st & Hd & [= <-]). apply rbind_ok in Hd as (d & Hd & [= <-]). unfold quiet. cbn [mf_store mf_mem].
  set (e := st_last_seq (mf_store m)).
  pose proof (sr_step true _ _ Hr (sys_begin true (quiet m h) eq_refl (fun _ => eq_refl))) as H1. cbn [quiet sy_hist sy_store sy_mem sy_inflight] in H1.
  pose proof (sr_step true _ _ H1 (sys_data true (MkSys h (mf_store m) (mf_mem m) [] (SSeq e)) e d eq_refl Hd)) as H2. cbn in H2.
  pose proof (sr_step true _ _ H2 (sys_store true (MkSys h (mf_store m) (mf_mem m) [] (SData e d)) e d eq_refl)) as H3.
  exact (sr_step true _ _ H3 (sys_delete true (MkSys h (store_snapshot (mf_store m) (MkSnapshot e d)) (mf_mem m) [] (SStored e)) e eq_refl)).
Qed.
Lemma edit_steps every m u m' h : sys_reach true (quiet m h) -> legal (history h) u -> manifest_apply_edit every m u = Ok m' ->
  sys_reach true (quiet m' (h ++ [u])).
Proof.
  intros Hr Hu He. unfold manifest_apply_edit in He. apply rbind_ok in He as (m1 & Hs & He). apply rbind_ok in He as (mem & Hm & [= <-]).
  pose proof (snapshot_steps _ _ _ _ _ Hr Hs) as Hr1. unfold quiet. cbn [mf_store mf_mem].
  pose proof (sr_step true _ _ Hr1 (sys_append true (quiet m1 h) u Hu (fun _ H => H))) as H1.
  exact (sr_step true _ _ H1 (sys_apply true (MkSys (h ++ [u]) (append (mf_store m1) u) (mf_mem m1) [u] SIdle) u [] mem eq_refl Hm)).
Qed.
Lemma calls_reach every m h : calls every m h -> sys_reach true (quiet m h).
Proof.
  induction 1 as [n|m h n _ IH|m h u m' _ IH Hu He|m h m' _ IH Hs]; [apply sr_new|exact IH|by eapply edit_steps|by eapply snapshot_steps].
Qed.


(** When an edit fails: only the creation of a table does, and it does exactly
    when a snapshot is due, because the snapshot is taken of the table that is not
    there yet. *)
Theorem create_table_fails_when_snapshot_due every m h u : calls every m h -> legal (history h) u ->
  (every <= mf_num_updates m /\ (exists meta, u = AddTable meta) /\ manifest_apply_edit every m u = Err BuildSnapshotNoCause) \/
  ((mf_num_updates m < every \/ forall meta, u <> AddTable meta) /\ exists m', manifest_apply_edit every m u = Ok m').
Proof.
  intros Hc Hu. pose proof (sys_reach_inv _ (calls_reach _ _ _ Hc)) as [Hl (ap & Hap & Hm) _]. cbn in *. rewrite app_nil_r in Hap. subst ap.
  destruct (mem_step _ _ _ Hm (history_wf _ Hl) Hu) as (mem' & Ha & _).
  unfold manifest_apply_edit, maybe_do_snapshot, snapshotter_snapshot, store_update_to_wal. cbn [negb andb]. destruct (Z.ltb_spec (mf_num_updates m) every) as [Hlt|Hge].
  { right. split; [by left|]. cbn [rbind mf_mem mf_store mf_num_updates]. rewrite Ha. by eexists. }
  destruct (history h) as [t|] eqn:Ht.
  - right. split; [right; intros meta ->; done|].
    destruct (snapshot_roundtrip (mf_mem m) t 0 Hm) as (d & _ & -> & _); [rewrite <- Ht; by apply history_wf|].
    cbn [rbind mf_mem mf_store mf_num_updates]. rewrite Ha. by eexists.
  - left. split; [done|]. destruct u; try done. split; [by eexists|]. by destruct (mf_mem m).
Qed.
End abstract.

(** ** A concrete table *)
#[export] Instance unit_pb : PbConversions (Sc:=unit) (Op:=unit) unit unit.
Proof. refine {| schema_to_pb := id; schema_of_pb := Some; options_to_pb := id; options_of_pb := Some |}; done. Defined.
Definition demo_create : MetaUpdate (Sc:=unit) (Op:=unit) := AddTable (MkAddTable 1 7 "t" tt tt).
Definition demo_flush (id seq : Z) : MetaUpdate (Sc:=unit) (Op:=unit) :=
  UpdVersionEdit (MkEditMeta 1 7 seq [MkAddFile 0 (MkFileMeta id 10 1 (TimeRange.Mk 0 10) seq Columnar)] [] [] id).
Definition demo_store : Store (PSc:=unit) (POp:=unit) := MkStore [] 0 None.
Definition run_edits (every : Z) (us : list (MetaUpdate (Sc:=unit) (Op:=unit))) : res ManifestError (Manifest (PSc:=unit) (POp:=unit)) :=
  rfold (manifest_apply_edit every) us (MkManifest demo_store None 0).
Definition file_ids (o : option (Snapshot (Sc:=unit) (Op:=unit))) : list Z :=
  match o with
  | Some (MkSnapshot _ (Some d)) => (fun f => fm_id (af_file f)) <$> ordered_files (default version_meta_default (sn_version_meta d))
  | _ => []
  end.
Definition mem_ids (mem : option (TableMem (Sc:=unit) (Op:=unit))) : list Z :=
  match mem with Some t => concat ((fun lh => fh_id <$> level_iter_ssts lh) <$> lc_levels (levels_controller (tm_version t))) | None => [] end.
Lemma demo_flush_legal id seq t : 0 <= id <= id_bound -> ta_files t !! id = None -> legal (Some t) (demo_flush id seq).
Proof.
  intros Hid Hf. split_and!.
  - split; cbn; [|intros d Hd; by apply elem_of_nil in Hd]. split_and!; [by left|done|done].
  - split; [done|]. repeat constructor; cbn; lia.
  - split; [|constructor]. repeat constructor; cbn; lia.
Qed.
Definition demo_table (files : gmap Z AddFile) (flushed : Z) : option (tableA (Sc:=unit) (Op:=unit)) :=
  Some (MkTableA (MkAddTable 1 7 "t" tt tt) files flushed).

Definition get_sys (r : res ManifestError (option (TableMem (Sc:=unit) (Op:=unit)))) : option TableMem :=
  match r with Ok m => m | _ => None end.
Definition raced : Sys (Sc:=unit) (Op:=unit) (PSc:=unit) (POp:=unit) :=
  let mem1 := get_sys (mem_apply_update None demo_create) in
  let mem2 := get_sys (mem_apply_update mem1 (demo_flush 1 5)) in
  let st := append (append demo_store demo_create) (demo_flush 1 5) in
  let data := match get_table_snapshot mem1 with Ok d => d | _ => None end in
  MkSys [demo_create; demo_flush 1 5] (delete_up_to (store_snapshot st (MkSnapshot 2 data)) 2) mem2 [] SIdle.

(** C26. As the code takes snapshots, an edit that is in the log but not yet in
    memory is lost: the snapshot carries the sequence of the edit and the memory
    without it, and the log is deleted up to that sequence.  The edit has returned,
    its file is in the memory, and recovery does not find it. *)
Theorem snapshot_race_loses_edit :
  exists (s : Sys (Sc:=unit) (Op:=unit) (PSc:=unit) (POp:=unit)) o, sys_reach false s /\ sy_inflight s = [] /\ sy_snapper s = SIdle /\
    mem_ids (sy_mem s) = [1] /\ recover (sy_store s) = Ok o /\ file_ids o = [].
Proof.
  exists raced. eexists. split; [|split_and!; vm_compute; reflexivity].
  assert (H1 : sys_reach false (MkSys [demo_create] (append demo_store demo_create) (get_sys (mem_apply_update None demo_create)) [] SIdle)).
  { eapply sr_step; [eapply sr_step; [apply sr_new|apply (sys_append false sys_new demo_create); done]|].
    apply (sys_apply false (MkSys [demo_create] (append demo_store demo_create) None [demo_create] SIdle) demo_create []); done. }
  eapply sr_step in H1; [|eapply (sys_append false _ (demo_flush 1 5)); [apply demo_flush_legal; [unfold id_bound; lia|reflexivity]|done]].
  eapply sr_step in H1; [|apply sys_begin; done].
  eapply sr_step in H1; [|eapply sys_data; [reflexivity|vm_compute; reflexivity]].
  eapply sr_step in H1; [|eapply sys_apply; [reflexivity|vm_compute; reflexivity]].
  eapply sr_step in H1; [|eapply sys_store; reflexivity].
  eapply sr_step in H1; [|eapply sys_delete; reflexivity].
  exact H1.
Qed.

Lemma demo_calls every m : run_edits every [demo_create; demo_flush 1 5] = Ok m -> calls every m [demo_create; demo_flush 1 5].
Proof.
  unfold run_edits. cbn [rfold]. intros H. apply rbind_ok in H as (m1 & H1 & H). apply rbind_ok in H as (m2 & H2 & [= <-]).
  apply (calls_edit every m1 [demo_create]); [|apply demo_flush_legal; [unfold id_bound; lia|reflexivity]|done].
  apply (calls_edit every (MkManifest demo_store None 0) []); [apply calls_new|done|done].
Qed.
Lemma create_table_fails_when_snapshot_due_witness :
  manifest_apply_edit 10000 (MkManifest demo_store None 10000) demo_create = Err BuildSnapshotNoCause.
Proof.
  destruct (create_table_fails_when_snapshot_due 10000 (MkManifest demo_store None 10000) [] demo_create (calls_new 10000 10000) I)
    as [(_ & _ & H)|([H|H] & _)]; [exact H|cbn in H; lia|]. by destruct (H (MkAddTable 1 7 "t" tt tt)).
Defined.
