(* ===== verification/TableKv.v ===== *)
(** * Key-value tables

    Models [components/table_kv/src]: the interface [TableKv] of a key-value
    service with tables ([lib.rs]), as a class whose laws say what the service
    does to its tables, and the implementation in memory ([memory.rs]), which
    keeps them.

    A table is the list of its entries in the order of the keys.  A scan is the
    list of what its iterator yields.  A call of a service may fail at any time;
    a write that fails may have applied some of its operations. *)

From Stdlib Require Import ZArith Lia String.
From stdpp Require Import base tactics option list sorting numbers gmap strings.
From S2P Require Import Prelude Bytes BTree.

#[local] Open Scope Z_scope.

(** ** Requests ([lib.rs]) *)
Inductive KeyBoundary :=
| KbIncluded (k : bytes)
| KbExcluded (k : bytes)
| MinIncluded
| MaxIncluded.
Record ScanRequest := MkScanRequest { sq_start : KeyBoundary; sq_end : KeyBoundary; sq_reverse : bool }.
Inductive WriteOp :=
| WInsert (k v : bytes)
| WInsertOrUpdate (k v : bytes)
| WDelete (k : bytes).

Definition table := list (bytes * bytes).
Definition table_sorted : table -> Prop := bt_sorted bytes_cmp.

(** The entries a request asks for. *)
Definition above (b : KeyBoundary) (k : bytes) : bool :=
  match b with
  | KbIncluded s => match bytes_cmp k s with Lt => false | _ => true end
  | KbExcluded s => match bytes_cmp k s with Gt => true | _ => false end
  | MinIncluded => true
  | MaxIncluded => false
  end.
Definition below (b : KeyBoundary) (k : bytes) : bool :=
  match b with
  | KbIncluded s => match bytes_cmp k s with Gt => false | _ => true end
  | KbExcluded s => match bytes_cmp k s with Lt => true | _ => false end
  | MinIncluded => false
  | MaxIncluded => true
  end.
Definition in_range (r : ScanRequest) (k : bytes) : bool := above (sq_start r) k && below (sq_end r) k.
Definition range_of (r : ScanRequest) (t : table) : table :=
  let l := filter (fun kv => in_range r kv.1 = true) t in if sq_reverse r then rev l else l.

(** What a write does to a table, operation by operation. *)
Definition apply_op (t : table) (op : WriteOp) : table :=
  match op with
  | WInsert k v | WInsertOrUpdate k v => bt_insert bytes_cmp k v t
  | WDelete k => bt_remove bytes_cmp k t
  end.
Definition op_fits (t : table) (op : WriteOp) : bool :=
  match op with WInsert k _ => match bt_get bytes_cmp k t with Some _ => false | None => true end | _ => true end.
Fixpoint ops_fit (t : table) (ops : list WriteOp) : bool :=
  match ops with [] => true | op :: ops => op_fits t op && ops_fit (apply_op t op) ops end.

(** ** The interface *)
Class TableKv (K E : Type) := {
  is_primary_key_duplicate : E -> bool;
  kv_table_exists : K -> string -> res E bool;
  kv_create_table : K -> string -> K * res E unit;
  kv_drop_table : K -> string -> K * res E unit;
  kv_write : K -> string -> list WriteOp -> K * res E unit;
  kv_scan : K -> string -> ScanRequest -> res E (list (bytes * bytes));
  kv_get : K -> string -> bytes -> res E (option bytes)
}.
Abbreviation tables_view := (gmap string table).
Definition view_sorted (v : tables_view) : Prop := map_Forall (fun _ => table_sorted) v.

(** A range the services accept: it does not end before it starts. *)
Definition range_ok (r : ScanRequest) : Prop :=
  match sq_start r, sq_end r with
  | KbIncluded a, KbIncluded b | KbIncluded a, KbExcluded b | KbExcluded a, KbIncluded b => bytes_cmp a b <> Gt
  | KbExcluded a, KbExcluded b => bytes_cmp a b = Lt
  | _, _ => True
  end.

Class TableKvLaws (K E : Type) `{TableKv K E} := {
  kv_view : K -> tables_view;
  kv_ok : K -> Prop;
  kv_view_sorted : forall k, kv_ok k -> view_sorted (kv_view k);
  kv_exists_law : forall k n b, kv_ok k -> kv_table_exists k n = Ok b -> b = bool_decide (is_Some (kv_view k !! n));
  kv_exists_panic : forall k n, kv_ok k -> kv_table_exists k n <> Panic;
  kv_create_law : forall k n k' r, kv_ok k -> kv_create_table k n = (k', r) ->
    kv_ok k' /\ (kv_view k' = kv_view k /\ (r = Ok tt -> is_Some (kv_view k !! n)) \/
                 kv_view k !! n = None /\ kv_view k' = <[n := []]> (kv_view k));
  kv_create_panic : forall k n k', kv_ok k -> kv_create_table k n <> (k', Panic);
  kv_drop_law : forall k n k' r, kv_ok k -> kv_drop_table k n = (k', r) ->
    kv_ok k' /\ (kv_view k' = delete n (kv_view k) \/ kv_view k' = kv_view k /\ r <> Ok tt);
  kv_write_law : forall k n ops k' r, kv_ok k -> kv_write k n ops = (k', r) ->
    kv_ok k' /\
    match kv_view k !! n with
    | None => kv_view k' = kv_view k /\ r <> Ok tt
    | Some t => exists done, done `prefix_of` ops /\ ops_fit t done = true /\
        kv_view k' = <[n := foldl apply_op t done]> (kv_view k) /\ (r = Ok tt -> done = ops)
    end;
  kv_write_duplicate : forall k n ops k' e, kv_ok k -> kv_write k n ops = (k', Err e) -> is_primary_key_duplicate e = true ->
    exists t, kv_view k !! n = Some t /\ ops_fit t ops = false;
  kv_write_panic : forall k n ops k', kv_ok k -> kv_write k n ops <> (k', Panic);
  kv_scan_law : forall k n r l, kv_ok k -> kv_scan k n r = Ok l -> exists t : table, kv_view k !! n = Some t /\ l = range_of r t;
  kv_scan_panic : forall k n r, kv_ok k -> range_ok r -> kv_scan k n r <> Panic;
  kv_get_law : forall k n key o, kv_ok k -> kv_get k n key = Ok o -> exists t : table, kv_view k !! n = Some t /\ o = bt_get bytes_cmp key t;
  kv_get_panic : forall k n key, kv_ok k -> kv_get k n key <> Panic
}.

(** ** The implementation in memory ([memory.rs]) *)
Module Memory.
Inductive Error :=
| TableNotFound (table_name : string)
| PrimaryKeyDuplicate.
Abbreviation MemoryImpl := (gmap string table).

Definition table_insert (t : table) (key value : bytes) : res Error table :=
  match bt_get bytes_cmp key t with Some _ => Err PrimaryKeyDuplicate | None => Ok (bt_insert bytes_cmp key value t) end.
Definition table_insert_or_update (t : table) (key value : bytes) : res Error table := Ok (bt_insert bytes_cmp key value t).
Definition table_delete (t : table) (key : bytes) : res Error table := Ok (bt_remove bytes_cmp key t).
Definition table_get (t : table) (key : bytes) : option bytes := bt_get bytes_cmp key t.

Inductive Bound := BIncluded (k : bytes) | BExcluded (k : bytes) | BUnbounded.
Definition to_range (start stop : KeyBoundary) : option (Bound * Bound) :=
  match (match start with
         | KbIncluded k => Some (BIncluded k) | KbExcluded k => Some (BExcluded k) | MinIncluded => Some BUnbounded
         | MaxIncluded => None end),
        (match stop with
         | KbIncluded k => Some (BIncluded k) | KbExcluded k => Some (BExcluded k) | MinIncluded => None
         | MaxIncluded => Some BUnbounded end) with
  | Some a, Some b => Some (a, b)
  | _, _ => None
  end.
(** [BTreeMap::range], which unwinds on a range that ends before it starts. *)
Definition after_bound (b : Bound) (k : bytes) : bool :=
  match b with
  | BIncluded s => match bytes_cmp k s with Lt => false | _ => true end
  | BExcluded s => match bytes_cmp k s with Gt => true | _ => false end
  | BUnbounded => true
  end.
Definition before_bound (b : Bound) (k : bytes) : bool :=
  match b with
  | BIncluded s => match bytes_cmp k s with Gt => false | _ => true end
  | BExcluded s => match bytes_cmp k s with Lt => true | _ => false end
  | BUnbounded => true
  end.
Definition bound_key (b : Bound) : option bytes := match b with BIncluded k | BExcluded k => Some k | BUnbounded => None end.
Definition excluded (b : Bound) : bool := match b with BExcluded _ => true | _ => false end.
Definition bt_range (t : table) (range : Bound * Bound) : res Error table :=
  let? _ := match bound_key range.1, bound_key range.2 with
    | Some a, Some b => rassert (match bytes_cmp a b with Gt => false | Eq => negb (excluded range.1 && excluded range.2) | Lt => true end)
    | _, _ => Ok tt
    end in
  Ok (filter (fun kv => (after_bound range.1 kv.1 && before_bound range.2 kv.1)%bool = true) t).
Definition table_scan (t : table) (request : ScanRequest) : res Error table :=
  match to_range (sq_start request) (sq_end request) with
  | Some range => let? l := bt_range t range in Ok (if sq_reverse request then rev l else l)
  | None => Ok []
  end.

Definition find_table (m : MemoryImpl) (table_name : string) : res Error table :=
  match m !! table_name with Some t => Ok t | None => Err (TableNotFound table_name) end.
Definition table_exists (m : MemoryImpl) (table_name : string) : res Error bool := Ok (bool_decide (is_Some (m !! table_name))).
Definition create_table (m : MemoryImpl) (table_name : string) : MemoryImpl * res Error unit :=
  (match m !! table_name with Some _ => m | None => <[table_name := []]> m end, Ok tt).
Definition drop_table (m : MemoryImpl) (table_name : string) : MemoryImpl * res Error unit := (delete table_name m, Ok tt).
Definition truncate_table (m : MemoryImpl) (table_name : string) : MemoryImpl * res Error unit :=
  (match m !! table_name with Some _ => <[table_name := []]> m | None => m end, Ok tt).
(** The operations of a batch one after the other, until one fails. *)
Fixpoint write_ops (t : table) (ops : list WriteOp) : table * res Error unit :=
  match ops with
  | [] => (t, Ok tt)
  | op :: ops =>
      match (match op with
             | WInsert k v => table_insert t k v
             | WInsertOrUpdate k v => table_insert_or_update t k v
             | WDelete k => table_delete t k
             end) with
      | Ok t => write_ops t ops
      | Err e => (t, Err e)
      | Panic => (t, Panic)
      end
  end.
Definition write (m : MemoryImpl) (table_name : string) (write_batch : list WriteOp) : MemoryImpl * res Error unit :=
  match find_table m table_name with
  | Ok t => let (t, r) := write_ops t write_batch in (<[table_name := t]> m, r)
  | Err e => (m, Err e)
  | Panic => (m, Panic)
  end.
Definition scan (m : MemoryImpl) (table_name : string) (request : ScanRequest) : res Error (list (bytes * bytes)) :=
  let? t := find_table m table_name in table_scan t request.
Definition get (m : MemoryImpl) (table_name : string) (key : bytes) : res Error (option bytes) :=
  let? t := find_table m table_name in Ok (table_get t key).
Definition get_batch (m : MemoryImpl) (table_name : string) (keys : list bytes) : res Error (list (option bytes)) :=
  let? t := find_table m table_name in Ok (table_get t <$> keys).
Definition delete_key (m : MemoryImpl) (table_name : string) (key : bytes) : MemoryImpl * res Error unit := write m table_name [WDelete key].
Definition delete_batch (m : MemoryImpl) (table_name : string) (keys : list bytes) : MemoryImpl * res Error unit :=
  write m table_name (WDelete <$> keys).
End Memory.

#[export] Instance memory_kv : TableKv Memory.MemoryImpl Memory.Error := {|
  is_primary_key_duplicate := fun e => match e with Memory.PrimaryKeyDuplicate => true | _ => false end;
  kv_table_exists := Memory.table_exists;
  kv_create_table := Memory.create_table;
  kv_drop_table := Memory.drop_table;
  kv_write := Memory.write;
  kv_scan := Memory.scan;
  kv_get := Memory.get
|}.

(** ** The memory keeps the laws *)
Lemma apply_op_sorted t op : table_sorted t -> table_sorted (apply_op t op).
Proof. destruct op; cbn; [apply bt_insert_sorted|apply bt_insert_sorted|apply bt_remove_sorted]; apply _. Qed.
Lemma apply_ops_sorted ops t : table_sorted t -> table_sorted (foldl apply_op t ops).
Proof. revert t. induction ops as [|op ops IH]; intros t Ht; [done|]. by apply IH, apply_op_sorted. Qed.
Lemma memory_write_ops ops t t' r : Memory.write_ops t ops = (t', r) ->
  exists done, done `prefix_of` ops /\ ops_fit t done = true /\ t' = foldl apply_op t done /\
    match r with Ok _ => done = ops | Err e => e = Memory.PrimaryKeyDuplicate /\ ops_fit t ops = false | Panic => False end.
Proof.
  revert t. induction ops as [|op ops IH]; intros t H; cbn [Memory.write_ops] in H.
  { injection H as <- <-. exists []. split_and!; done. }
  assert (Hstep : op_fits t op = true -> Memory.write_ops (apply_op t op) ops = (t', r) -> exists done, done `prefix_of` op :: ops /\
    ops_fit t done = true /\ t' = foldl apply_op t done /\
    match r with Ok _ => done = op :: ops | Err e => e = Memory.PrimaryKeyDuplicate /\ ops_fit t (op :: ops) = false | Panic => False end).
  { intros Hfit Hw. apply IH in Hw as (done & Hp & Hf & -> & Hr). exists (op :: done). cbn [ops_fit foldl]. rewrite Hfit. cbn [andb].
    split_and!; [by apply prefix_cons|done|done|]. destruct r; [by subst|done|done]. }
  destruct op as [k v|k v|k]; cbn [op_fits apply_op] in Hstep.
  - unfold Memory.table_insert in H. destruct (bt_get bytes_cmp k t) eqn:Hg; [|by apply Hstep].
    injection H as <- <-. exists []. split_and!; [apply prefix_nil|done|done|done|]. cbn. by rewrite Hg.
  - by apply Hstep.
  - by apply Hstep.
Qed.
Lemma memory_scan_range t r l : Memory.table_scan t r = Ok l -> l = range_of r t.
Proof.
  unfold Memory.table_scan, range_of. intros H. destruct (Memory.to_range (sq_start r) (sq_end r)) as [range|] eqn:Hr.
  - apply rbind_ok in H as (l' & Hl & [= <-]). unfold Memory.bt_range in Hl. apply rbind_ok in Hl as (? & _ & [= <-]).
    assert (Heq : forall k, in_range r k = (Memory.after_bound range.1 k && Memory.before_bound range.2 k)%bool).
    { intros k. unfold in_range. unfold Memory.to_range in Hr. destruct (sq_start r), (sq_end r); try discriminate Hr; injection Hr as <-; done. }
    assert (filter (fun kv => in_range r kv.1 = true) t =
      filter (fun kv => (Memory.after_bound range.1 kv.1 && Memory.before_bound range.2 kv.1)%bool = true) t) as ->; [|done].
    apply list_filter_iff. intros kv. by rewrite Heq.
  - injection H as <-. assert (filter (fun kv => in_range r kv.1 = true) t = []) as ->; [|by destruct (sq_reverse r)].
    apply elem_of_nil_inv. intros kv. rewrite list_elem_of_filter. unfold in_range. intros [Hin _].
    unfold Memory.to_range in Hr. destruct (sq_start r), (sq_end r); try done; cbn in Hin; by rewrite ?andb_false_r in Hin.
Qed.
Lemma memory_scan_panic t r : range_ok r -> Memory.table_scan t r <> Panic.
Proof.
  unfold Memory.table_scan, Memory.to_range, Memory.bt_range, range_ok. intros Hok.
  destruct (sq_start r) as [a|a| |], (sq_end r) as [b|b| |]; cbn; try done;
    destruct (bytes_cmp a b); done.
Qed.
#[export] Instance memory_kv_laws : TableKvLaws Memory.MemoryImpl Memory.Error.
Proof.
  refine {| kv_view := fun m : Memory.MemoryImpl => m; kv_ok := view_sorted |}; cbn [kv_table_exists kv_create_table kv_drop_table kv_write kv_scan kv_get is_primary_key_duplicate memory_kv]; cbn beta.
  - done.
  - intros m n b _ Hb. unfold Memory.table_exists in Hb. by injection Hb as <-.
  - done.
  - intros m n m' r Hs Hc. unfold Memory.create_table in Hc. injection Hc as <- <-. destruct (m !! n) as [t|] eqn:Hn.
    + split; [done|]. left. split; [done|by eexists].
    + split; [by apply map_Forall_insert_2; [constructor|]|by right].
  - done.
  - intros m n m' r Hs Hc. unfold Memory.drop_table in Hc. injection Hc as <- <-. split; [by apply map_Forall_delete|by left].
  - intros m n ops m' r Hs Hw. unfold Memory.write, Memory.find_table in Hw. destruct (m !! n) as [t|] eqn:Hn.
    + destruct (Memory.write_ops t ops) as [t' r'] eqn:Ho. injection Hw as <- <-. apply memory_write_ops in Ho as (done & Hp & Hf & -> & Hr).
      split; [apply map_Forall_insert_2; [apply apply_ops_sorted; by apply (Hs n)|done]|].
      exists done. split_and!; [done|done|done|]. intros ->. done.
    + injection Hw as <- <-. split; [done|]. by split.
  - intros m n ops m' e Hs Hw He. unfold Memory.write, Memory.find_table in Hw. destruct (m !! n) as [t|] eqn:Hn; [|injection Hw as <- <-; done].
    destruct (Memory.write_ops t ops) as [t' r'] eqn:Ho. injection Hw as <- ->. apply memory_write_ops in Ho as (done & _ & _ & _ & _ & Hr).
    by exists t.
  - intros m n ops m' Hs Hw. unfold Memory.write, Memory.find_table in Hw. destruct (m !! n) as [t|] eqn:Hn; [|done].
    destruct (Memory.write_ops t ops) as [t' r'] eqn:Ho. injection Hw as <- ->. by apply memory_write_ops in Ho as (done & _ & _ & _ & []).
  - intros m n r l Hs Hl. unfold Memory.scan, Memory.find_table in Hl. destruct (m !! n) as [t|]; [|done]. exists t. split; [done|].
    by apply memory_scan_range.
  - intros m n r Hs Hok. unfold Memory.scan, Memory.find_table. destruct (m !! n) as [t|]; [|done]. by apply memory_scan_panic.
  - intros m n key o Hs Hg. unfold Memory.get, Memory.find_table in Hg. destruct (m !! n) as [t|]; [|done]. injection Hg as <-. by exists t.
  - intros m n key Hs. unfold Memory.get, Memory.find_table. by destruct (m !! n).
Defined.

(** ** Ranges *)
Lemma range_of_elem r t kv : kv ∈ range_of r t <-> kv ∈ t /\ in_range r kv.1 = true.
Proof.
  unfold range_of. assert (kv ∈ filter (fun kv => in_range r kv.1 = true) t <-> kv ∈ t /\ in_range r kv.1 = true) as <-.
  { rewrite list_elem_of_filter. tauto. }
  destruct (sq_reverse r); [|done]. rewrite !list_elem_of_In. symmetry. apply in_rev.
Qed.
Lemma range_of_sorted r t : table_sorted t -> sq_reverse r = false -> table_sorted (range_of r t).
Proof. intros Ht Hr. unfold range_of. rewrite Hr. by apply ssorted_filter. Qed.
Lemma table_sorted_last t kv : table_sorted t -> last t = Some kv -> forall kv', kv' ∈ t -> kv' = kv \/ bytes_cmp kv'.1 kv.1 = Lt.
Proof.
  intros Ht Hl kv' Hin. destruct (exists_last (l:=t)) as (t' & x & ->); [by intros ->|]. rewrite last_snoc in Hl. injection Hl as ->.
  apply elem_of_app in Hin as [Hin|Hin]; [right|left; by apply list_elem_of_singleton in Hin].
  unfold table_sorted, bt_sorted in Ht. rewrite StronglySorted_app in Ht. destruct Ht as (Hc & _ & _). apply Hc; [done|by left].
Qed.
