(* ===== verification/KvEncoder.v ===== *)
(** * Keys and values of the log

    Models [wal/src/kv_encoder.rs] with the batches of [log_batch.rs] and the
    boundaries of [manager.rs]: how log entries and their meta data are encoded as
    entries of a key-value store.

    A payload, and the decoder of one, are of the caller (traits [Payload] and
    [PayloadDecoder]).  Every encoder clears its buffer, so that it gives bytes. *)

From Stdlib Require Import ZArith Lia.
From stdpp Require Import base tactics option list numbers.
From S2P Require Import Prelude Bytes Datum Varint MemComparable BTree.

#[local] Open Scope Z_scope.

Definition LOG_KEY_ENCODING_V0 : Z := 0.
Definition NEWEST_LOG_KEY_ENCODING_VERSION : Z := LOG_KEY_ENCODING_V0.
Definition LOG_VALUE_ENCODING_V0 : Z := 0.
Definition NEWEST_LOG_VALUE_ENCODING_VERSION : Z := LOG_VALUE_ENCODING_V0.
Definition META_KEY_ENCODING_V0 : Z := 0.
Definition NEWEST_META_KEY_ENCODING_VERSION : Z := META_KEY_ENCODING_V0.
Definition META_VALUE_ENCODING_V0 : Z := 0.
Definition NEWEST_META_VALUE_ENCODING_VERSION : Z := META_VALUE_ENCODING_V0.

Inductive WalNamespace := NsMeta | NsLog.
Definition namespace_u8 (n : WalNamespace) : Z := match n with NsMeta => 0 | NsLog => 1 end.
Inductive MetaKeyType := MaxSeq.
Definition meta_key_type_u8 (t : MetaKeyType) : Z := match t with MaxSeq => 0 end.

Inductive KvEncError :=
| EncodeLogKey (source : BytesError)
| EncodeLogValueHeader (source : BytesError)
| EncodeLogValuePayload
| DecodeLogKey (source : BytesError)
| DecodeLogValueHeader (source : BytesError)
| EncodeMetaKey (source : BytesError)
| EncodeMetaValue (source : BytesError)
| DecodeMetaKey (source : BytesError)
| DecodeMetaValue (source : BytesError)
| InvalidMetaKeyType (expect : MetaKeyType) (given : Z)
| InvalidNamespace (expect : WalNamespace) (given : Z)
| InvalidVersion (expect given : Z).

(** ** Keys of the old design *)
Record LogKeyEncoder := MkLogKeyEncoder { lk_version : Z; lk_namespace : WalNamespace }.
Definition log_key_encoder_newest : LogKeyEncoder := MkLogKeyEncoder NEWEST_LOG_KEY_ENCODING_VERSION NsLog.
Definition log_key_is_valid (e : LogKeyEncoder) (buf : bytes) : res KvEncError bool :=
  let? (namespace, _) := rcontext DecodeLogKey (try_get_u8 buf) in
  Ok (namespace =? namespace_u8 (lk_namespace e)).
Definition log_key_encode (e : LogKeyEncoder) (buf : wbuf) (log_key : Z * Z) : res KvEncError wbuf :=
  let? buf := rcontext EncodeLogKey (try_put_u8 buf (namespace_u8 (lk_namespace e))) in
  let? buf := rcontext EncodeLogKey (try_put_u64 buf log_key.1) in
  let? buf := rcontext EncodeLogKey (try_put_u64 buf log_key.2) in
  rcontext EncodeLogKey (try_put_u8 buf (lk_version e)).
Definition log_key_decode (e : LogKeyEncoder) (buf : bytes) : res KvEncError ((Z * Z) * bytes) :=
  let? (namespace, buf) := rcontext DecodeLogKey (try_get_u8 buf) in
  let? _ := ensure (namespace =? namespace_u8 (lk_namespace e)) (InvalidNamespace (lk_namespace e) namespace) in
  let? (region_id, buf) := rcontext DecodeLogKey (try_get_u64 buf) in
  let? (sequence, buf) := rcontext DecodeLogKey (try_get_u64 buf) in
  let? (version, buf) := rcontext DecodeLogKey (try_get_u8 buf) in
  let? _ := ensure (version =? lk_version e) (InvalidVersion (lk_version e) version) in
  Ok ((region_id, sequence), buf).

(** ** Values *)
Class Payload (T : Type) := payload_encode_to : wbuf -> T -> res unit wbuf.
Definition log_value_encode {T} `{Payload T} (version : Z) (buf : wbuf) (payload : T) : res KvEncError wbuf :=
  let? buf := rcontext EncodeLogValueHeader (try_put_u8 buf version) in
  rcontext (fun _ => EncodeLogValuePayload) (payload_encode_to buf payload).
Definition log_value_decode (version : Z) (buf : bytes) : res KvEncError bytes :=
  let? (v, buf) := rcontext DecodeLogValueHeader (try_get_u8 buf) in
  let? _ := ensure (v =? version) (InvalidVersion version v) in
  Ok buf.

(** ** Meta data: the largest sequence of a region *)
Record MetaKeyEncoder := MkMetaKeyEncoder { mk_version : Z; mk_key_type : MetaKeyType; mk_namespace : WalNamespace }.
Definition meta_key_is_valid (e : MetaKeyEncoder) (buf : bytes) : res KvEncError bool :=
  let? (namespace, buf) := rcontext DecodeMetaKey (try_get_u8 buf) in
  let? (key_type, _) := rcontext DecodeMetaKey (try_get_u8 buf) in
  Ok ((namespace =? namespace_u8 (mk_namespace e)) && (key_type =? meta_key_type_u8 (mk_key_type e)))%bool.
Definition meta_key_encode (e : MetaKeyEncoder) (buf : wbuf) (region_id : Z) : res KvEncError wbuf :=
  let? buf := rcontext EncodeMetaKey (try_put_u8 buf (namespace_u8 (mk_namespace e))) in
  let? buf := rcontext EncodeMetaKey (try_put_u8 buf (meta_key_type_u8 (mk_key_type e))) in
  let? buf := rcontext EncodeMetaKey (try_put_u64 buf region_id) in
  rcontext EncodeMetaKey (try_put_u8 buf (mk_version e)).
Definition meta_key_decode (e : MetaKeyEncoder) (buf : bytes) : res KvEncError (Z * bytes) :=
  let? (namespace, buf) := rcontext DecodeMetaKey (try_get_u8 buf) in
  let? _ := ensure (namespace =? namespace_u8 (mk_namespace e)) (InvalidNamespace (mk_namespace e) namespace) in
  let? (key_type, buf) := rcontext DecodeMetaKey (try_get_u8 buf) in
  let? _ := ensure (key_type =? meta_key_type_u8 (mk_key_type e)) (InvalidMetaKeyType (mk_key_type e) key_type) in
  let? (region_id, buf) := rcontext DecodeMetaKey (try_get_u64 buf) in
  let? (version, buf) := rcontext DecodeMetaKey (try_get_u8 buf) in
  let? _ := ensure (version =? mk_version e) (InvalidVersion (mk_version e) version) in
  Ok (region_id, buf).
Definition max_seq_encode (version : Z) (buf : wbuf) (max_seq : Z) : res KvEncError wbuf :=
  let? buf := rcontext EncodeMetaValue (try_put_u8 buf version) in
  rcontext EncodeMetaValue (try_put_u64 buf max_seq).
Definition max_seq_decode (version : Z) (buf : bytes) : res KvEncError (Z * bytes) :=
  let? (v, buf) := rcontext DecodeMetaValue (try_get_u8 buf) in
  let? _ := ensure (v =? version) (InvalidVersion version v) in
  rcontext DecodeMetaValue (try_get_u64 buf).

(** [MaxSeqMetaEncoding], whose errors [manager::Error] wraps. *)
Inductive WalError := WalEncoding (source : KvEncError) | WalDecoding (source : KvEncError).
Definition meta_newest : MetaKeyEncoder := MkMetaKeyEncoder NEWEST_META_KEY_ENCODING_VERSION MaxSeq NsMeta.
Definition encoded {E} (r : res E wbuf) : res E bytes := let? b := r in Ok (wb_data b).
Definition is_max_seq_meta_key (buf : bytes) : res WalError bool := rcontext WalDecoding (meta_key_is_valid meta_newest buf).
Definition encode_meta_key (region_id : Z) : res WalError bytes :=
  rcontext WalEncoding (encoded (meta_key_encode meta_newest bytes_mut_new region_id)).
Definition encode_meta_value (max_seq : Z) : res WalError bytes :=
  rcontext WalEncoding (encoded (max_seq_encode NEWEST_META_VALUE_ENCODING_VERSION bytes_mut_new max_seq)).
Definition decode_meta_key (buf : bytes) : res WalError Z :=
  let? r := rcontext WalDecoding (meta_key_decode meta_newest buf) in Ok r.1.
Definition decode_meta_value (buf : bytes) : res WalError Z :=
  let? r := rcontext WalDecoding (max_seq_decode NEWEST_META_VALUE_ENCODING_VERSION buf) in Ok r.1.

(** ** [LogEncoding] *)
Definition log_encode_key (log_key : Z * Z) : res KvEncError bytes :=
  encoded (log_key_encode log_key_encoder_newest bytes_mut_new log_key).
Definition log_encode_value {T} `{Payload T} (payload : T) : res KvEncError bytes :=
  encoded (log_value_encode NEWEST_LOG_VALUE_ENCODING_VERSION bytes_mut_new payload).
Definition is_log_key (buf : bytes) : res KvEncError bool := log_key_is_valid log_key_encoder_newest buf.
Definition log_decode_key (buf : bytes) : res KvEncError (Z * Z) :=
  let? r := log_key_decode log_key_encoder_newest buf in Ok r.1.
Definition log_decode_value (buf : bytes) : res KvEncError bytes := log_value_decode NEWEST_LOG_VALUE_ENCODING_VERSION buf.

(** ** Batches ([log_batch.rs], [LogBatchEncoder]) *)
Record WalLocation := MkLocation { wl_region_id : Z; wl_table_id : Z }.
Record LogWriteBatch := MkLogBatch { lb_location : WalLocation; lb_entries : list bytes }.
Record LogEntry := MkLogEntry { le_table_id : Z; le_sequence : Z; le_payload : bytes }.
Definition batch_encode {T} `{Payload T} (location : WalLocation) (payload : T) : res WalError LogWriteBatch :=
  let? b := rcontext WalEncoding (log_encode_value payload) in Ok (MkLogBatch location [b]).
Definition encode_batch {T} `{Payload T} (location : WalLocation) (raw_payload_batch : list T) : res WalError LogWriteBatch :=
  rfold (fun wb raw_payload =>
    let? b := rcontext WalEncoding (log_encode_value raw_payload) in
    Ok (MkLogBatch (lb_location wb) (lb_entries wb ++ [b]))) raw_payload_batch (MkLogBatch location []).

(** ** Keys with a table ([CommonLogKey]) *)
Record CommonLogKey := MkCommonKey { ck_region_id : Z; ck_table_id : Z; ck_sequence_num : Z }.
(** Derived [Ord]: field by field. *)
Definition common_key_cmp (a b : CommonLogKey) : comparison :=
  cmp_then (ck_region_id a ?= ck_region_id b)
    (cmp_then (ck_table_id a ?= ck_table_id b) (ck_sequence_num a ?= ck_sequence_num b)).
Record CommonLogKeyEncoder := MkCommonKeyEncoder { cke_version : Z; cke_namespace : WalNamespace }.
Definition common_key_encoder_newest : CommonLogKeyEncoder := MkCommonKeyEncoder NEWEST_LOG_KEY_ENCODING_VERSION NsLog.
Definition common_key_is_valid (e : CommonLogKeyEncoder) (buf : bytes) : res KvEncError bool :=
  let? (namespace, _) := rcontext DecodeLogKey (try_get_u8 buf) in
  Ok (namespace =? namespace_u8 (cke_namespace e)).
Definition common_key_encode (e : CommonLogKeyEncoder) (buf : wbuf) (log_key : CommonLogKey) : res KvEncError wbuf :=
  let? buf := rcontext EncodeLogKey (try_put_u8 buf (namespace_u8 (cke_namespace e))) in
  let? buf := rcontext EncodeLogKey (try_put_u64 buf (ck_region_id log_key)) in
  let? buf := rcontext EncodeLogKey (try_put_u64 buf (ck_table_id log_key)) in
  let? buf := rcontext EncodeLogKey (try_put_u64 buf (ck_sequence_num log_key)) in
  rcontext EncodeLogKey (try_put_u8 buf (cke_version e)).
Definition common_key_decode (e : CommonLogKeyEncoder) (buf : bytes) : res KvEncError (CommonLogKey * bytes) :=
  let? (namespace, buf) := rcontext DecodeLogKey (try_get_u8 buf) in
  let? _ := ensure (namespace =? namespace_u8 (cke_namespace e)) (InvalidNamespace (cke_namespace e) namespace) in
  let? (region_id, buf) := rcontext DecodeLogKey (try_get_u64 buf) in
  let? (table_id, buf) := rcontext DecodeLogKey (try_get_u64 buf) in
  let? (sequence_num, buf) := rcontext DecodeLogKey (try_get_u64 buf) in
  let? (version, buf) := rcontext DecodeLogKey (try_get_u8 buf) in
  let? _ := ensure (version =? cke_version e) (InvalidVersion (cke_version e) version) in
  Ok (MkCommonKey region_id table_id sequence_num, buf).
(** [CommonLogEncoding::newest]. *)
Definition encode_key (log_key : CommonLogKey) : res KvEncError bytes :=
  encoded (common_key_encode common_key_encoder_newest bytes_mut_new log_key).
Definition common_is_log_key (buf : bytes) : res KvEncError bool := common_key_is_valid common_key_encoder_newest buf.
Definition decode_key (buf : bytes) : res KvEncError CommonLogKey :=
  let? r := common_key_decode common_key_encoder_newest buf in Ok r.1.
Definition decode_value (buf : bytes) : res KvEncError bytes := log_value_decode NEWEST_LOG_VALUE_ENCODING_VERSION buf.

(** ** Boundaries of a read ([manager.rs]) *)
Definition MAX_SEQUENCE_NUMBER : Z := u64_max.
Definition MIN_SEQUENCE_NUMBER : Z := 0.
Inductive ReadBoundary := RbMax | RbMin | RbIncluded (n : Z) | RbExcluded (n : Z).
Definition as_start_sequence_number (b : ReadBoundary) : option Z :=
  match b with
  | RbMax => Some MAX_SEQUENCE_NUMBER
  | RbMin => Some MIN_SEQUENCE_NUMBER
  | RbIncluded n => Some n
  | RbExcluded n => if n =? MAX_SEQUENCE_NUMBER then None else Some (n + 1)
  end.
Definition as_end_sequence_number (b : ReadBoundary) : option Z :=
  match b with
  | RbMax => Some MAX_SEQUENCE_NUMBER
  | RbMin => Some MIN_SEQUENCE_NUMBER
  | RbIncluded n => Some n
  | RbExcluded n => if n =? MIN_SEQUENCE_NUMBER then None else Some (n - 1)
  end.

(** ** The bytes of a key *)
Definition key_ok (k : CommonLogKey) : Prop := uint 64 (ck_region_id k) /\ uint 64 (ck_table_id k) /\ uint 64 (ck_sequence_num k).
Definition key_bytes (k : CommonLogKey) : bytes :=
  [1] ++ be_bytes 8 (ck_region_id k) ++ be_bytes 8 (ck_table_id k) ++ be_bytes 8 (ck_sequence_num k) ++ [0].

Lemma encoded_writes {E} (f : wbuf -> res E wbuf) bs : writes f bs -> len bs <= u64_max -> encoded (f bytes_mut_new) = Ok bs.
Proof.
  intros Hf Hl. unfold encoded. rewrite (writes_room f bs) by (done || (unfold remaining_mut, bytes_mut_new; cbn; lia)).
  cbn [rbind put wb_data bytes_mut_new app]. done.
Qed.
Lemma key_writes k : writes (fun b => common_key_encode common_key_encoder_newest b k) (key_bytes k).
Proof.
  unfold common_key_encode, key_bytes.
  repeat (eapply (writes_bind (fun b => rcontext EncodeLogKey _)); [apply writes_context, writes_try_put|]).
  apply writes_context, writes_try_put.
Qed.
Lemma encode_key_ok k : encode_key k = Ok (key_bytes k).
Proof.
  apply (encoded_writes _ _ (key_writes k)). unfold key_bytes. rewrite !length_app, !length_be_bytes. cbn [length]. unfold u64_max. lia.
Qed.
Lemma key_reads k : key_ok k -> reads (common_key_decode common_key_encoder_newest) (key_bytes k) k.
Proof.
  intros (Hr & Ht & Hs) rest. unfold common_key_decode, key_bytes. rewrite <- !app_assoc. cbn [app].
  rewrite try_get_u8_cons. cbn [rcontext rbind]. cbn [ensure common_key_encoder_newest cke_namespace namespace_u8 Z.eqb rbind].
  rewrite reads_u64 by done. cbn [rcontext rbind]. rewrite reads_u64 by done. cbn [rcontext rbind]. rewrite reads_u64 by done.
  cbn [rcontext rbind app]. rewrite try_get_u8_cons. cbn [rcontext rbind]. by destruct k.
Qed.
Lemma decode_key_ok k : key_ok k -> decode_key (key_bytes k) = Ok k.
Proof. intros Hk. unfold decode_key. pose proof (key_reads k Hk []) as H. rewrite app_nil_r in H. by rewrite H. Qed.
Lemma is_log_key_ok k : common_is_log_key (key_bytes k) = Ok true.
Proof. done. Qed.
Lemma key_bytes_order a b : key_ok a -> key_ok b -> bytes_cmp (key_bytes a) (key_bytes b) = common_key_cmp a b.
Proof.
  intros (Hra & Hta & Hsa) (Hrb & Htb & Hsb). unfold key_bytes. cbn [app bytes_cmp]. rewrite Z.compare_refl. cbn [cmp_then].
  unfold common_key_cmp. rewrite !order_code by done. f_equal. f_equal. by destruct (_ ?= _).
Qed.
Lemma key_bytes_inj a b : key_ok a -> key_ok b -> key_bytes a = key_bytes b -> a = b.
Proof. intros Ha Hb He. apply decode_key_ok in Ha. apply decode_key_ok in Hb. congruence. Qed.
Lemma decode_value_ok p : decode_value (0 :: p) = Ok p.
Proof. unfold decode_value, log_value_decode. by rewrite try_get_u8_cons. Qed.
