(* ===== verification/TableUnit.v ===== *)
(** * The log of a table on a key-value service

    Models [wal/src/table_kv_impl/table_unit.rs], with the entries of [model.rs]
    it stores, the names of [encoding.rs] and the batching of [manager.rs]: a
    table unit is an append-only log, the entries of which are in the tables of
    the buckets, ordered by time, and the start of which is in a meta table.

    The service is any [TableKv].  Entries of the meta table are JSON ([serde]),
    used through the class [JsonCodec].  A unit is used by one writer at a time
    (its [writer] lock); readers take the sequences they read from its state. *)

From Stdlib Require Import ZArith Lia String.
From stdpp Require Import base tactics option list sorting numbers gmap strings pretty.
From S2P Require Import Prelude Bytes Datum Varint MemComparable BTree TableKv KvEncoder.

#[local] Open Scope Z_scope.

(** ** Entries ([model.rs]) *)
Record BucketEntry := MkBucketEntry { be_shard_num : Z; be_gmt_start_ms : Z; be_gmt_end_ms : Z }.
Record Bucket := MkBucket { bk_entry : BucketEntry; bk_wal_shard_names : list string }.
Definition gmt_start_ms (b : Bucket) : Z := be_gmt_start_ms (bk_entry b).
(** The table of a region; the remainder by no tables unwinds. *)
Definition wal_shard_table {E} (b : Bucket) (region_id : Z) : res E string :=
  match bk_wal_shard_names b with
  | [] => Panic
  | names => unwrap (names !! Z.to_nat (region_id mod len names))
  end.
Record TableUnitEntry := MkUnitEntry { te_table_id : Z; te_start_sequence : Z }.
Definition table_unit_entry_new (table_id : Z) : TableUnitEntry := MkUnitEntry table_id MIN_SEQUENCE_NUMBER.
Class JsonCodec (T : Type) := {
  json_encode : T -> option bytes;
  json_decode : bytes -> option T;
  json_roundtrip : forall e, exists b, json_encode e = Some b /\ json_decode b = Some e
}.
(** [as_bytes] of a string, and the keys of the meta table ([encoding.rs]). *)
Definition as_bytes (s : string) : bytes := (fun a => Z.of_N (Ascii.N_of_ascii a)) <$> String.list_ascii_of_string s.
Definition TABLE_UNIT_META_PREFIX : string := "v1/table".
Definition format_table_unit_key (table_id : Z) : string := TABLE_UNIT_META_PREFIX +:+ "/" +:+ pretty (Z.to_N table_id).

Inductive TableUnitError (E : Type) :=
| GetValue (source : E)
| DecodeEntry
| EncodeEntry
| LogCodec (source : KvEncError)
| ScanTable (source : E)
| WriteValue (source : E)
| SequenceOverflow (table_id : Z)
| WriteLog (source : E)
| TableUnitNotExists (region_id : Z)
| DeleteLogs (source : E)
| LoadLastSequence (table_id : Z).
Arguments GetValue {E}. Arguments DecodeEntry {E}. Arguments EncodeEntry {E}. Arguments LogCodec {E}. Arguments ScanTable {E}.
Arguments WriteValue {E}. Arguments SequenceOverflow {E}. Arguments WriteLog {E}. Arguments TableUnitNotExists {E}.
Arguments DeleteLogs {E}. Arguments LoadLastSequence {E}.

Section unit.
Context {K E : Type} {KV : TableKv K E} {JC : JsonCodec TableUnitEntry}.
Abbreviation R := (res (TableUnitError E)).

(** ** Opening *)
Record TableUnitState := MkUnitState { tu_region_id : Z; tu_table_id : Z; tu_start_sequence : Z; tu_last_sequence : Z }.
Definition load_table_unit_entry (kv : K) (meta_table : string) (table_id : Z) : R (option TableUnitEntry) :=
  let? value := rcontext GetValue (kv_get kv meta_table (as_bytes (format_table_unit_key table_id))) in
  match value with
  | Some b => match json_decode b with Some e => Ok (Some e) | None => Err DecodeEntry end
  | None => Ok None
  end.
Definition load_last_sequence_from_table (kv : K) (table_name : string) (region_id table_id : Z) : R (option Z) :=
  let? first_key := rcontext LogCodec (encode_key (MkCommonKey region_id table_id MIN_SEQUENCE_NUMBER)) in
  let? last_key := rcontext LogCodec (encode_key (MkCommonKey region_id table_id MAX_SEQUENCE_NUMBER)) in
  let? iter := rcontext ScanTable (kv_scan kv table_name (MkScanRequest (KbIncluded first_key) (KbIncluded last_key) true)) in
  match iter with
  | [] => Ok None
  | (key, _) :: _ =>
      let? is_log := rcontext LogCodec (common_is_log_key key) in
      if negb is_log then Ok None
      else let? log_key := rcontext LogCodec (decode_key key) in Ok (Some (ck_sequence_num log_key))
  end.
(** The buckets from the latest on. *)
Fixpoint load_last_loop (kv : K) (region_id table_id : Z) (buckets : list Bucket) (start_sequence : Z) : R Z :=
  match buckets with
  | [] => Ok (if 0 <? start_sequence then start_sequence - 1 else start_sequence)
  | bucket :: buckets =>
      let? table_name := wal_shard_table bucket region_id in
      let? found := load_last_sequence_from_table kv table_name region_id table_id in
      match found with
      | Some sequence =>
          let? next := u64_op (sequence + 1) in
          let? _ := ensure (start_sequence <=? next) (LoadLastSequence table_id) in
          Ok sequence
      | None => load_last_loop kv region_id table_id buckets start_sequence
      end
  end.
Definition load_last_sequence (kv : K) (region_id table_id : Z) (buckets : list Bucket) (start_sequence : Z) : R Z :=
  load_last_loop kv region_id table_id (rev buckets) start_sequence.
Definition open (kv : K) (meta_table : string) (region_id table_id : Z) (buckets : list Bucket) : R (option TableUnitState) :=
  let? entry := load_table_unit_entry kv meta_table table_id in
  match entry with
  | None => Ok None
  | Some e =>
      let? last := load_last_sequence kv region_id table_id buckets (te_start_sequence e) in
      Ok (Some (MkUnitState region_id table_id (te_start_sequence e) last))
  end.

(** ** Writing ([TableUnitWriter]) *)
Definition insert_or_load_table_unit_entry (kv : K) (meta_table : string) (entry : TableUnitEntry) : K * R TableUnitEntry :=
  match json_encode entry with
  | None => (kv, Err EncodeEntry)
  | Some value =>
      match kv_write kv meta_table [WInsert (as_bytes (format_table_unit_key (te_table_id entry))) value] with
      | (kv, Ok _) => (kv, Ok entry)
      | (kv, Err e) =>
          if is_primary_key_duplicate e then
            (kv, let? o := load_table_unit_entry kv meta_table (te_table_id entry) in
                 match o with Some e => Ok e | None => Err (TableUnitNotExists (te_table_id entry)) end)
          else (kv, Err (WriteValue e))
      | (kv, Panic) => (kv, Panic)
      end
  end.
Definition open_or_create (kv : K) (meta_table : string) (region_id table_id : Z) (buckets : list Bucket) : K * R TableUnitState :=
  let (kv, entry) := match load_table_unit_entry kv meta_table table_id with
    | Ok (Some e) => (kv, Ok e)
    | Ok None => insert_or_load_table_unit_entry kv meta_table (table_unit_entry_new table_id)
    | Err e => (kv, Err e)
    | Panic => (kv, Panic)
    end in
  (kv, let? e := entry in
       let? last := load_last_sequence kv region_id table_id buckets (te_start_sequence e) in
       Ok (MkUnitState region_id table_id (te_start_sequence e) last)).
Definition update_table_unit_entry (kv : K) (meta_table : string) (entry : TableUnitEntry) : K * R unit :=
  match json_encode entry with
  | None => (kv, Err EncodeEntry)
  | Some value =>
      let (kv, r) := kv_write kv meta_table [WInsertOrUpdate (as_bytes (format_table_unit_key (te_table_id entry))) value] in
      (kv, rcontext WriteValue r)
  end.
(** The atomic addition wraps around. *)
Definition alloc_sequence_num (u : TableUnitState) (number : Z) : TableUnitState * R Z :=
  if tu_last_sequence u <? MAX_SEQUENCE_NUMBER then
    (MkUnitState (tu_region_id u) (tu_table_id u) (tu_start_sequence u) (as_u 64 (tu_last_sequence u + number)),
     u64_op (tu_last_sequence u + 1))
  else (u, Err (SequenceOverflow (tu_table_id u))).
Fixpoint write_batch (region_id table_id next_sequence_num : Z) (entries : list bytes) : R (list WriteOp * Z) :=
  match entries with
  | [] => Ok ([], next_sequence_num)
  | payload :: entries =>
      let? key := rcontext LogCodec (encode_key (MkCommonKey region_id table_id next_sequence_num)) in
      let? next := u64_op (next_sequence_num + 1) in
      let? (wb, next) := write_batch region_id table_id next entries in
      Ok (WInsert key payload :: wb, next)
  end.
Definition write_log (kv : K) (u : TableUnitState) (bucket : Bucket) (batch : LogWriteBatch) : K * TableUnitState * R Z :=
  let region_id := wl_region_id (lb_location batch) in
  let table_id := wl_table_id (lb_location batch) in
  let (u, first) := alloc_sequence_num u (len (lb_entries batch)) in
  let prepared := (let? next := first in
                   let? (wb, next) := write_batch region_id table_id next (lb_entries batch) in
                   let? max_sequence_num := u64_op (next - 1) in
                   let? table_name := wal_shard_table bucket region_id in
                   Ok (wb, max_sequence_num, table_name)) in
  match prepared with
  | Ok (wb, max_sequence_num, table_name) =>
      let (kv, r) := kv_write kv table_name wb in
      (kv, u, let? _ := rcontext WriteLog r in Ok max_sequence_num)
  | Err e => (kv, u, Err e)
  | Panic => (kv, u, Panic)
  end.
Definition delete_entries_up_to (kv : K) (u : TableUnitState) (meta_table : string) (sequence_num : Z) : K * TableUnitState * R unit :=
  if sequence_num <? MAX_SEQUENCE_NUMBER then
    let sequence_num := if tu_last_sequence u <? sequence_num then tu_last_sequence u else sequence_num in
    let start := if tu_start_sequence u <=? sequence_num then u64_op (sequence_num + 1) else Ok (tu_start_sequence u) in
    match start with
    | Ok start =>
        match update_table_unit_entry kv meta_table (MkUnitEntry (tu_table_id u) start) with
        | (kv, Ok _) => (kv, MkUnitState (tu_region_id u) (tu_table_id u) start (tu_last_sequence u), Ok tt)
        | (kv, r) => (kv, u, r)
        end
    | Err e => (kv, u, Err e)
    | Panic => (kv, u, Panic)
    end
  else (kv, u, Err (SequenceOverflow (tu_table_id u))).

(** ** Cleaning *)
Definition delete_batch (kv : K) (table_name : string) (batch : list bytes) : K * R unit :=
  let (kv, r) := kv_write kv table_name (WDelete <$> batch) in (kv, rcontext DeleteLogs r).
Fixpoint clean_logs_from_iter (kv : K) (batch_size : nat) (table_name : string) (batch : list bytes) (iter : list (bytes * bytes))
  : K * R unit :=
  match iter with
  | [] => (kv, Ok tt)
  | (key, _) :: rest =>
      let batch := batch ++ [key] in
      let '(kv, r, batch) := if (batch_size <=? length batch)%nat
        then let (kv, r) := delete_batch kv table_name batch in (kv, r, []) else (kv, Ok tt, batch) in
      match r with
      | Ok _ => match rest with
                | [] => delete_batch kv table_name batch
                | _ => clean_logs_from_iter kv batch_size table_name batch rest
                end
      | r => (kv, r)
      end
  end.
Fixpoint clean_buckets (kv : K) (u : TableUnitState) (batch_size : nat) (request : ScanRequest) (buckets : list Bucket) : K * R unit :=
  match buckets with
  | [] => (kv, Ok tt)
  | bucket :: buckets =>
      match (let? table_name := wal_shard_table bucket (tu_region_id u) in
             let? iter := rcontext ScanTable (kv_scan kv table_name request) in Ok (table_name, iter)) with
      | Ok (table_name, iter) =>
          match clean_logs_from_iter kv batch_size table_name [] iter with
          | (kv, Ok _) => clean_buckets kv u batch_size request buckets
          | r => r
          end
      | Err e => (kv, Err e)
      | Panic => (kv, Panic)
      end
  end.
Definition clean_deleted_logs (kv : K) (u : TableUnitState) (batch_size : nat) (buckets : list Bucket) : K * R unit :=
  match (let? first_key := rcontext LogCodec (encode_key (MkCommonKey (tu_region_id u) (tu_table_id u) MIN_SEQUENCE_NUMBER)) in
         let? last_key := rcontext LogCodec (encode_key (MkCommonKey (tu_region_id u) (tu_table_id u) (tu_start_sequence u))) in
         Ok (MkScanRequest (KbIncluded first_key) (KbExcluded last_key) false)) with
  | Ok request => clean_buckets kv u batch_size request buckets
  | Err e => (kv, Err e)
  | Panic => (kv, Panic)
  end.

(** ** Reading ([TableLogIterator]) *)
Record TableLogIterator := MkLogIter {
  ti_buckets : list Bucket;
  ti_max_log_key : CommonLogKey;
  ti_current_log_key : CommonLogKey;
  ti_current_bucket_index : nat;
  ti_current_iter : option (list (bytes * bytes))
}.
Definition iter_new_empty : TableLogIterator := MkLogIter [] (MkCommonKey 0 0 0) (MkCommonKey 0 0 0) 0 None.
Definition iter_new (buckets : list Bucket) (min_log_key max_log_key : CommonLogKey) : TableLogIterator :=
  MkLogIter buckets max_log_key min_log_key 0 None.
Definition no_more_data (it : TableLogIterator) : bool :=
  (length (ti_buckets it) <=? ti_current_bucket_index it)%nat ||
  match common_key_cmp (ti_current_log_key it) (ti_max_log_key it) with Gt => true | _ => false end.
Definition new_scan_request (it : TableLogIterator) : R ScanRequest :=
  let? start := rcontext LogCodec (encode_key (ti_current_log_key it)) in
  let? stop := rcontext LogCodec (encode_key (ti_max_log_key it)) in
  Ok (MkScanRequest (KbIncluded start) (KbIncluded stop) false).
(** [n] buckets remain. *)
Fixpoint scan_buckets_loop (kv : K) (request : ScanRequest) (n : nat) (it : TableLogIterator) : R (bool * TableLogIterator) :=
  match n with
  | O => Ok (false, it)
  | S n =>
      let i := ti_current_bucket_index it in
      let? bucket := unwrap (ti_buckets it !! i) in
      let? _ := match i with
        | O => Ok tt
        | S j => let? before := unwrap (ti_buckets it !! j) in rassert (gmt_start_ms before <? gmt_start_ms bucket)
        end in
      let? table_name := wal_shard_table bucket (ck_region_id (ti_max_log_key it)) in
      let? iter := rcontext ScanTable (kv_scan kv table_name request) in
      match iter with
      | [] => scan_buckets_loop kv request n (MkLogIter (ti_buckets it) (ti_max_log_key it) (ti_current_log_key it) (S i) None)
      | _ => Ok (true, MkLogIter (ti_buckets it) (ti_max_log_key it) (ti_current_log_key it) i (Some iter))
      end
  end.
Definition scan_buckets (kv : K) (it : TableLogIterator) : R (bool * TableLogIterator) :=
  let? request := new_scan_request it in
  scan_buckets_loop kv request (length (ti_buckets it) - ti_current_bucket_index it) it.
Definition step_current_iter (it : TableLogIterator) : R TableLogIterator :=
  match ti_current_iter it with
  | Some (_ :: []) => Ok (MkLogIter (ti_buckets it) (ti_max_log_key it) (ti_current_log_key it) (S (ti_current_bucket_index it)) None)
  | Some (_ :: rest) => Ok (MkLogIter (ti_buckets it) (ti_max_log_key it) (ti_current_log_key it) (ti_current_bucket_index it) (Some rest))
  | Some [] => Panic
  | None => Ok it
  end.
Definition next_log_entry (kv : K) (it : TableLogIterator) : R (option LogEntry * TableLogIterator) :=
  if no_more_data it then Ok (None, it)
  else
    let? (found, it) := match ti_current_iter it with Some _ => Ok (true, it) | None => scan_buckets kv it end in
    if negb found then let? _ := rassert (no_more_data it) in Ok (None, it)
    else
      let? current := unwrap (ti_current_iter it ≫= head) in
      let? log_key := rcontext LogCodec (decode_key current.1) in
      let? payload := rcontext LogCodec (decode_value current.2) in
      let it := MkLogIter (ti_buckets it) (ti_max_log_key it) log_key (ti_current_bucket_index it) (ti_current_iter it) in
      let? it := step_current_iter it in
      Ok (Some (MkLogEntry (ck_table_id log_key) (ck_sequence_num log_key) payload), it).
Definition read_log (u : TableUnitState) (buckets : list Bucket) (location : WalLocation) (start stop : ReadBoundary) : TableLogIterator :=
  match as_start_sequence_number start, as_end_sequence_number stop with
  | Some s, Some e =>
      iter_new buckets (MkCommonKey (wl_region_id location) (wl_table_id location) (Z.max (tu_start_sequence u) s))
        (MkCommonKey (wl_region_id location) (wl_table_id location) (Z.min (tu_last_sequence u) e))
  | _, _ => iter_new_empty
  end.
(** [scan_log] of [namespace.rs]: all tables of a region. *)
Definition scan_log (buckets : list Bucket) (region_id : Z) : TableLogIterator :=
  iter_new buckets (MkCommonKey region_id 0 0) (MkCommonKey region_id u64_max u64_max).

(** ** Batches ([BatchLogIteratorAdapter] of [manager.rs]) *)
Fixpoint next_batch (kv : K) (batch_size : nat) (it : TableLogIterator) (buffer : list LogEntry)
  : R (list LogEntry * option TableLogIterator) :=
  match batch_size with
  | O => Ok (buffer, Some it)
  | S n =>
      let? (e, it) := next_log_entry kv it in
      match e with
      | Some e => next_batch kv n it (buffer ++ [e])
      | None => Ok (buffer, None)
      end
  end.
Definition next_log_entries (kv : K) (batch_size : nat) (iter : option TableLogIterator) : R (list LogEntry * option TableLogIterator) :=
  match iter with None => Ok ([], None) | Some it => next_batch kv batch_size it [] end.
(** The loop of a reader: batches until one is empty. *)
Fixpoint read_batches (kv : K) (fuel : nat) (batch_size : nat) (iter : option TableLogIterator) : R (list LogEntry) :=
  match fuel with
  | O => Panic
  | S fuel =>
      let? (batch, iter) := next_log_entries kv batch_size iter in
      match batch with
      | [] => Ok []
      | _ => let? rest := read_batches kv fuel batch_size iter in Ok (batch ++ rest)
      end
  end.
End unit.

(** ** Tables of log entries *)
Definition entry := (CommonLogKey * bytes)%type.
Definition kv_of (e : entry) : bytes * bytes := (key_bytes e.1, 0 :: e.2).
Definition log_table (t : table) (es : list entry) : Prop := t = kv_of <$> es /\ Forall (fun e => key_ok e.1) es.
Definition key_lt (a b : entry) : Prop := common_key_cmp a.1 b.1 = Lt.
(** The entries of a table with sequences between two. *)
Definition between (r tb lo hi : Z) (e : entry) : Prop :=
  ck_region_id e.1 = r /\ ck_table_id e.1 = tb /\ lo <= ck_sequence_num e.1 <= hi.
#[export] Instance between_dec r tb lo hi e : Decision (between r tb lo hi e).
Proof. unfold between. apply _. Defined.
Definition of_unit (r tb : Z) (e : entry) : Prop := ck_region_id e.1 = r /\ ck_table_id e.1 = tb.
#[export] Instance of_unit_dec r tb e : Decision (of_unit r tb e).
Proof. unfold of_unit. apply _. Defined.

Lemma key_cmp_between a lo hi r tb : 
  common_key_cmp a (MkCommonKey r tb lo) <> Lt -> common_key_cmp a (MkCommonKey r tb hi) <> Gt ->
  ck_region_id a = r /\ ck_table_id a = tb /\ lo <= ck_sequence_num a <= hi.
Proof.
  unfold common_key_cmp. cbn [ck_region_id ck_table_id ck_sequence_num].
  destruct (Z.compare_spec (ck_region_id a) r), (Z.compare_spec (ck_table_id a) tb), (Z.compare_spec (ck_sequence_num a) lo),
    (Z.compare_spec (ck_sequence_num a) hi); cbn; intros; try done; lia.
Qed.
Lemma key_cmp_between_2 a lo hi r tb : ck_region_id a = r -> ck_table_id a = tb -> lo <= ck_sequence_num a <= hi ->
  common_key_cmp a (MkCommonKey r tb lo) <> Lt /\ common_key_cmp a (MkCommonKey r tb hi) <> Gt.
Proof.
  intros <- <- Hs. unfold common_key_cmp. cbn [ck_region_id ck_table_id ck_sequence_num]. rewrite !Z.compare_refl. cbn [cmp_then].
  rewrite Z.compare_lt_iff, Z.compare_gt_iff. lia.
Qed.
Lemma log_table_sorted t es : log_table t es -> table_sorted t -> StronglySorted key_lt es.
Proof.
  intros [-> Hk] Hs. unfold table_sorted, bt_sorted in Hs. induction es as [|e es IH]; [constructor|]. apply Forall_cons in Hk as [He Hk].
  cbn in Hs. apply StronglySorted_inv in Hs as [Hs Ha]. constructor; [by apply IH|]. apply Forall_forall. intros e' Hin.
  apply Forall_fmap in Ha. rewrite Forall_forall in Ha. rewrite Forall_forall in Hk. specialize (Ha e' Hin). cbn in Ha. unfold key_lt.
  by rewrite <- key_bytes_order by auto.
Qed.
Lemma ssorted_lookup_lt {A} (R : A -> A -> Prop) l i j x y : StronglySorted R l -> l !! i = Some x -> l !! j = Some y -> (i < j)%nat -> R x y.
Proof.
  intros Hs Hi Hj Hij. rewrite <- (take_drop_middle l i x Hi) in Hs, Hj. apply StronglySorted_app in Hs as (_ & _ & Hs).
  apply StronglySorted_inv in Hs as [_ Hx]. apply lookup_lt_Some in Hi. rewrite lookup_app_r in Hj by (rewrite length_take; lia).
  rewrite length_take, Nat.min_l in Hj by lia. destruct (j - i)%nat as [|d] eqn:Hd; [lia|]. cbn in Hj.
  rewrite Forall_forall in Hx. by eapply Hx, list_elem_of_lookup_2.
Qed.
(** A scan from one sequence of a unit to another. *)
Lemma range_entries r tb lo hi rev t es : log_table t es -> uint 64 r -> uint 64 tb -> uint 64 lo -> uint 64 hi ->
  range_of (MkScanRequest (KbIncluded (key_bytes (MkCommonKey r tb lo))) (KbIncluded (key_bytes (MkCommonKey r tb hi))) rev) t =
  (let l := kv_of <$> filter (between r tb lo hi) es in if rev then List.rev l else l).
Proof.
  intros [-> Hk] Hr Ht Hlo Hhi. unfold range_of. cbn [sq_reverse]. rewrite (filter_fmap_iff kv_of _ (between r tb lo hi)); [done|].
  intros e He. rewrite Forall_forall in Hk. specialize (Hk e He). cbn beta. unfold in_range, above, below. cbn [sq_start sq_end kv_of fst].
  rewrite !key_bytes_order by (done || by split_and!). split.
  - intros Hin. apply key_cmp_between; intros Hc; rewrite Hc in Hin; [done|]. by rewrite andb_false_r in Hin.
  - intros (Hr1 & Ht1 & Hs1). destruct (key_cmp_between_2 e.1 lo hi r tb Hr1 Ht1 Hs1) as [H1 H2].
    destruct (common_key_cmp e.1 (MkCommonKey r tb lo)); destruct (common_key_cmp e.1 (MkCommonKey r tb hi)); done.
Qed.
(** Cleaning scans the sequences below one. *)
Lemma range_entries_below r tb hi t es : log_table t es -> uint 64 r -> uint 64 tb -> uint 64 hi ->
  range_of (MkScanRequest (KbIncluded (key_bytes (MkCommonKey r tb 0))) (KbExcluded (key_bytes (MkCommonKey r tb hi))) false) t =
  kv_of <$> filter (between r tb 0 (hi - 1)) es.
Proof.
  intros [-> Hk] Hr Ht Hhi. unfold range_of. cbn [sq_reverse]. rewrite (filter_fmap_iff kv_of _ (between r tb 0 (hi - 1))); [done|].
  intros e He. rewrite Forall_forall in Hk. specialize (Hk e He). cbn beta. unfold in_range, above, below. cbn [sq_start sq_end kv_of fst].
  rewrite !key_bytes_order by (done || by split_and!). destruct e as [[r1 t1 s1] v]. destruct Hk as (Hr1 & Ht1 & Hs1).
  unfold between, common_key_cmp. cbn [ck_region_id ck_table_id ck_sequence_num fst] in *. unfold uint in *.
  destruct (Z.compare_spec r1 r), (Z.compare_spec t1 tb), (Z.compare_spec s1 0), (Z.compare_spec s1 hi); cbn;
    (split; [intros; try done; lia|intros; try done; lia]).
Qed.

(** ** Reading *)
Section reading.
Context {K E : Type} {KV : TableKv K E} {KL : TableKvLaws K E}.
Context (r tb : Z) (Hr : uint 64 r) (Htb : uint 64 tb).

Definition shard_of (b : Bucket) : option string := bk_wal_shard_names b !! Z.to_nat (r mod len (bk_wal_shard_names b)).
Lemma wal_shard_table_ok {F} b name : shard_of b = Some name -> wal_shard_table (E:=F) b r = Ok name.
Proof. unfold shard_of, wal_shard_table. intros H. destruct (bk_wal_shard_names b) as [|n ns]; [done|]. by rewrite H. Qed.
Definition bucket_log (kv : K) (b : Bucket) (es : list entry) : Prop :=
  exists name t, shard_of b = Some name /\ kv_view kv !! name = Some t /\ log_table t es.
Definition by_time : list Bucket -> Prop := StronglySorted (fun a b => gmt_start_ms a < gmt_start_ms b).
Definition seq_lt (a b : entry) : Prop := ck_sequence_num a.1 < ck_sequence_num b.1.

(** What is left to read: the rest of the table being read, then the later tables. *)
Definition entry_of (e : entry) : LogEntry := MkLogEntry (ck_table_id e.1) (ck_sequence_num e.1) e.2.
Section iterator.
Context (kv : K) (Hkv : kv_ok kv) (bs : list Bucket) (ess : list (list entry)) (Hb : Forall2 (bucket_log kv) bs ess) (Ht : by_time bs).
Context (lo hi : Z) (Hlo : uint 64 lo) (Hhi : uint 64 hi).
Definition wanted : list (list entry) := (fun es => filter (between r tb lo hi) es) <$> ess.
Record iter_at (it : TableLogIterator) (left : list entry) : Prop := {
  ia_buckets : ti_buckets it = bs;
  ia_max : ti_max_log_key it = MkCommonKey r tb hi;
  ia_cur : exists cur, ti_current_log_key it = MkCommonKey r tb cur /\ uint 64 cur /\ lo <= cur /\ Forall (fun e => cur <= ck_sequence_num e.1) left;
  ia_in : Forall (between r tb lo hi) left;
  ia_sorted : StronglySorted seq_lt left;
  ia_ok : Forall (fun e => key_ok e.1) left;
  ia_left : match ti_current_iter it with
    | None => left = concat (drop (ti_current_bucket_index it) wanted)
    | Some l => (ti_current_bucket_index it < length bs)%nat /\
        exists s, l = kv_of <$> s /\ s <> [] /\ left = s ++ concat (drop (S (ti_current_bucket_index it)) wanted)
    end
}.

Lemma no_more_left it left : iter_at it left -> no_more_data it = true -> left = [].
Proof.
  intros [Hbu Hm (cur & Hc & _ & _ & Hcur) Hin _ _ Hl] Hn. unfold no_more_data in Hn. rewrite Hbu, Hm, Hc in Hn.
  apply orb_true_iff in Hn as [Hn|Hn].
  - apply Nat.leb_le in Hn. destruct (ti_current_iter it); [lia|]. rewrite Hl, drop_ge; [done|]. unfold wanted.
    rewrite length_fmap. by rewrite <- (Forall2_length _ _ _ Hb).
  - destruct left as [|e left]; [done|]. apply Forall_cons in Hin as [(_ & _ & He) _]. apply Forall_cons in Hcur as [Hcur _].
    unfold common_key_cmp in Hn. cbn in Hn. rewrite !Z.compare_refl in Hn. cbn in Hn. destruct (Z.compare_spec cur hi); [done|done|lia].
Qed.
(** The scan of a bucket starts at the entry read last, below which nothing is left. *)
Lemma scan_bucket i b cur rest : bs !! i = Some b -> uint 64 cur -> lo <= cur ->
  Forall (fun e => cur <= ck_sequence_num e.1) (concat (drop i wanted)) ->
  rest = default [] (wanted !! i) ->
  match kv_scan kv (default EmptyString (shard_of b))
    (MkScanRequest (KbIncluded (key_bytes (MkCommonKey r tb cur))) (KbIncluded (key_bytes (MkCommonKey r tb hi))) false) with
  | Ok l => l = kv_of <$> rest
  | Err _ => True
  | Panic => cur > hi
  end.
Proof.
  intros Hi Hcu Hle Hcur ->. destruct (Forall2_lookup_l _ _ _ _ _ Hb Hi) as (es & He & name & t & Hn & Hv & Hlt). rewrite Hn. cbn [from_option id].
  assert (Hw : wanted !! i = Some (filter (between r tb lo hi) es)) by (unfold wanted; by rewrite list_lookup_fmap, He). rewrite Hw. cbn [from_option id].
  match goal with |- context [kv_scan ?a ?b ?c] => destruct (kv_scan a b c) as [l| |] eqn:Hs end; [|done|].
  - apply kv_scan_law in Hs as (t' & Hv' & ->); [|done]. rewrite Hv in Hv'. injection Hv' as <-. rewrite (range_entries r tb cur hi false t es) by done.
    cbn zeta. f_equal. apply filter_iff_in. intros e Hin. unfold between. split; [intros (H1 & H2 & H3); split_and!; (done || lia)|].
    intros (H1 & H2 & H3). split_and!; try done; try lia.
    rewrite (drop_S _ _ _ Hw) in Hcur. cbn [concat] in Hcur. apply Forall_app in Hcur as [Hcur _]. rewrite Forall_forall in Hcur. apply (Hcur e).
    apply list_elem_of_filter. by split_and!.
  - destruct (decide (cur > hi)); [done|]. exfalso. revert Hs. apply kv_scan_panic; [done|]. unfold range_ok. cbn [sq_start sq_end].
    rewrite key_bytes_order by by split_and!. unfold common_key_cmp. cbn. rewrite !Z.compare_refl. cbn. rewrite Z.compare_gt_iff. lia.
Qed.

Definition scan_error (e : TableUnitError E) : Prop := exists source, e = ScanTable source.
Lemma drop_wanted i b : bs !! i = Some b -> drop i wanted = default [] (wanted !! i) :: drop (S i) wanted.
Proof.
  intros Hi. assert (is_Some (wanted !! i)) as [w Hw]; [|by rewrite Hw; apply drop_S].
  unfold wanted. rewrite list_lookup_fmap, fmap_is_Some. apply lookup_lt_is_Some. rewrite <- (Forall2_length _ _ _ Hb). by eapply lookup_lt_Some.
Qed.
Lemma scan_buckets_ok cur n it left : iter_at it left -> ti_current_iter it = None -> ti_current_log_key it = MkCommonKey r tb cur -> cur <= hi ->
  n = (length bs - ti_current_bucket_index it)%nat ->
  match scan_buckets_loop kv (MkScanRequest (KbIncluded (key_bytes (MkCommonKey r tb cur))) (KbIncluded (key_bytes (MkCommonKey r tb hi))) false) n it with
  | Ok (true, it') => iter_at it' left /\ ti_current_iter it' <> None
  | Ok (false, it') => left = [] /\ no_more_data it' = true
  | Err e => scan_error e
  | Panic => False
  end.
Proof.
  revert it. induction n as [|n IH]; intros it Hat Hnone Hk Hch Hn; cbn [scan_buckets_loop].
  { split; [|unfold no_more_data; rewrite (ia_buckets _ _ Hat); apply orb_true_iff; left; apply Nat.leb_le; lia].
    apply (no_more_left _ _ Hat). unfold no_more_data. rewrite (ia_buckets _ _ Hat). apply orb_true_iff. left. apply Nat.leb_le. lia. }
  destruct Hat as [Hbu Hm (cur' & Hc & Hcu & Hle & Hcur) Hin Hso Hok Hl]. rewrite Hk in Hc. injection Hc as <-. rewrite Hnone in Hl. rewrite Hbu, Hm.
  set (i := ti_current_bucket_index it) in *. destruct (lookup_lt_is_Some_2 bs i ltac:(lia)) as [b Hi]. rewrite Hi. cbn [unwrap rbind].
  assert (Hassert : forall F, match i with
    | O => @Ok F _ tt
    | S j => let? before := unwrap (bs !! j) in rassert (gmt_start_ms before <? gmt_start_ms b)
    end = Ok tt).
  { intros F. destruct i as [|j]; [done|]. destruct (lookup_lt_is_Some_2 bs j) as [b' Hj]; [apply lookup_lt_Some in Hi; lia|]. rewrite Hj. cbn [unwrap rbind].
    unfold rassert. rewrite (proj2 (Z.ltb_lt _ _)); [done|]. unfold by_time in Ht. eapply (ssorted_lookup_lt (fun a b => gmt_start_ms a < gmt_start_ms b) bs j (S j)); [done|done|done|lia]. }
  rewrite Hassert. cbn [rbind]. pose proof (scan_bucket i b cur _ Hi Hcu Hle ltac:(by rewrite <- Hl) eq_refl) as Hs.
  destruct (Forall2_lookup_l _ _ _ _ _ Hb Hi) as (es & He & name & t & Hname & Hv & Hlt). rewrite (wal_shard_table_ok _ _ Hname). rewrite Hname in Hs.
  cbn [rbind]. cbn [from_option id] in Hs. pose proof (drop_wanted i b Hi) as Hd. set (w := default [] (wanted !! i)) in *.
  destruct (kv_scan kv name _) as [l| |]; cbn [rcontext rbind]; [|by eexists|lia]. subst l. rewrite Hd in Hl. cbn [concat] in Hl.
  destruct w as [|e w]; cbn [fmap list_fmap].
  - apply IH; [split; cbn [ti_buckets ti_max_log_key ti_current_log_key ti_current_iter ti_current_bucket_index]; try done|done|done|done|cbn; lia].
    rewrite Hk. by exists cur.
  - split; [|done]. split; cbn [ti_buckets ti_max_log_key ti_current_log_key ti_current_iter ti_current_bucket_index]; try done.
    + rewrite Hk. by exists cur.
    + split; [by eapply lookup_lt_Some|]. exists (e :: w). by split_and!.
Qed.

(** The current iterator yields its first entry. *)
Lemma yield_head it left l : iter_at it left -> ti_current_iter it = Some l ->
  exists e left', left = e :: left' /\ head l = Some (kv_of e) /\ key_ok e.1 /\
  exists it', step_current_iter (E:=E) (MkLogIter (ti_buckets it) (ti_max_log_key it) e.1 (ti_current_bucket_index it) (ti_current_iter it)) = Ok it' /\
    iter_at it' left'.
Proof.
  intros [Hbu Hm (cur & Hc & Hcu & Hle & Hcur) Hin Hso Hok Hl] Hi. rewrite Hi in Hl. destruct Hl as (Hlt & s & -> & Hs & Hl).
  destruct s as [|e s]; [done|]. cbn [app] in Hl. exists e, (s ++ concat (drop (S (ti_current_bucket_index it)) wanted)). rewrite Hl in *.
  apply Forall_cons in Hin as [He Hin]. apply Forall_cons in Hok as [Hke Hok]. apply StronglySorted_inv in Hso as [Hso Hgt].
  apply Forall_cons in Hcur as [Hce Hcur]. split_and!; [done|done|done|]. rewrite Hi. unfold step_current_iter. cbn [ti_current_iter fmap list_fmap].
  assert (He1 : e.1 = MkCommonKey r tb (ck_sequence_num e.1)).
  { destruct He as (H1 & H2 & _). destruct e as [[? ? ?] ?]. cbn in *. by subst. }
  assert (Hnext : exists cur0, e.1 = MkCommonKey r tb cur0 /\ uint 64 cur0 /\ lo <= cur0 /\
    Forall (fun e' => cur0 <= ck_sequence_num e'.1) (s ++ concat (drop (S (ti_current_bucket_index it)) wanted))).
  { exists (ck_sequence_num e.1). split_and!; [done|apply Hke|apply He|]. eapply Forall_impl; [exact Hgt|]. intros e' H'. unfold seq_lt in H'. lia. }
  destruct s as [|e' s]; cbn [fmap list_fmap]; eexists; (split; [reflexivity|]);
    split; cbn [ti_buckets ti_max_log_key ti_current_log_key ti_current_iter ti_current_bucket_index]; try done.
  split; [done|]. exists (e' :: s). by split_and!.
Qed.
Lemma next_ok it left : iter_at it left ->
  match next_log_entry kv it with
  | Ok (None, it') => left = []
  | Ok (Some e, it') => exists x left', left = x :: left' /\ e = entry_of x /\ iter_at it' left'
  | Err e => scan_error e
  | Panic => False
  end.
Proof.
  intros Hat. unfold next_log_entry. destruct (no_more_data it) eqn:Hn; [by apply (no_more_left it)|].
  assert (Hfound : match (match ti_current_iter it with Some _ => @Ok (TableUnitError E) _ (true, it) | None => scan_buckets kv it end) with
    | Ok (true, it') => iter_at it' left /\ ti_current_iter it' <> None
    | Ok (false, it') => left = [] /\ no_more_data it' = true
    | Err e => scan_error e
    | Panic => False
    end).
  { destruct (ti_current_iter it) as [l|] eqn:Hi; [by rewrite Hi|]. unfold scan_buckets, new_scan_request. rewrite !encode_key_ok. cbn [rcontext rbind].
    destruct (ia_cur _ _ Hat) as (cur & Hc & Hcu & Hle & Hcur). rewrite (ia_max _ _ Hat), Hc, (ia_buckets _ _ Hat).
    apply (scan_buckets_ok cur); try done. unfold no_more_data in Hn. apply orb_false_iff in Hn as [_ Hn]. rewrite Hc, (ia_max _ _ Hat) in Hn.
    unfold common_key_cmp in Hn. cbn in Hn. rewrite !Z.compare_refl in Hn. cbn in Hn. destruct (Z.compare_spec cur hi); [lia|lia|done]. }
  destruct (match ti_current_iter it with Some _ => _ | None => _ end) as [[[] it']| |]; cbn [rbind negb]; [| |done|done].
  - destruct Hfound as [Hat' Hi']. destruct (ti_current_iter it') as [l|] eqn:Hi; [|done].
    destruct (yield_head _ _ _ Hat' Hi) as (e & left' & -> & Hh & Hk & it'' & Hst & Hat''). cbn [mbind option_bind]. rewrite Hh.
    cbn [unwrap rbind kv_of fst snd]. rewrite decode_key_ok by done. cbn [rcontext rbind]. rewrite decode_value_ok. cbn [rcontext rbind].
    rewrite <- Hi, Hst. cbn [rbind]. exists e, left'. by split_and!.
  - destruct Hfound as [-> ->]. cbn [rassert rbind]. done.
Qed.

(** Batches of any size, until one is empty. *)
Lemma next_batch_ok n it left buffer : iter_at it left ->
  match next_batch kv n it buffer with
  | Ok (batch, iter) => exists l1 l2, left = l1 ++ l2 /\ batch = buffer ++ (entry_of <$> l1) /\ (n <> 0%nat -> l1 = [] -> l2 = []) /\
      match iter with Some it' => iter_at it' l2 | None => l2 = [] end
  | Err e => scan_error e
  | Panic => False
  end.
Proof.
  revert it left buffer. induction n as [|n IH]; intros it left buffer Hat; cbn [next_batch].
  { exists [], left. rewrite app_nil_r. split_and!; done. }
  pose proof (next_ok it left Hat) as Hn. destruct (next_log_entry kv it) as [[[e|] it']| |]; cbn [rbind]; [| |done|done].
  - destruct Hn as (x & left' & -> & -> & Hat'). specialize (IH it' left' (buffer ++ [entry_of x]) Hat').
    destruct (next_batch kv n it' _) as [[batch iter]| |]; [|done|done]. destruct IH as (l1 & l2 & -> & -> & _ & Hi).
    exists (x :: l1), l2. rewrite <- app_assoc. split_and!; [done|done|discriminate|done].
  - subst left. exists [], []. split_and!; [done|by rewrite app_nil_r|done|done].
Qed.
Lemma read_batches_ok fuel n it left : (0 < n)%nat -> iter_at it left -> (length left < fuel)%nat ->
  match read_batches kv fuel n (Some it) with
  | Ok l => l = entry_of <$> left
  | Err e => scan_error e
  | Panic => False
  end.
Proof.
  intros Hn0. revert it left. induction fuel as [|fuel IH]; intros it left Hat Hf; [lia|]. cbn [read_batches next_log_entries].
  pose proof (next_batch_ok n it left [] Hat) as Hn. destruct (next_batch kv n it []) as [[batch iter]| |]; cbn [rbind]; [|done|done].
  destruct Hn as (l1 & l2 & -> & -> & Hz & Hi). cbn [app]. destruct l1 as [|x l1]; cbn [fmap list_fmap]; [by rewrite Hz by (done || lia)|].
  rewrite length_app in Hf. cbn in Hf. destruct iter as [it'|].
  - specialize (IH it' l2 Hi ltac:(lia)). destruct (read_batches kv fuel n (Some it')) as [l| |]; cbn [rbind]; [|done|done]. subst l.
    rewrite fmap_app. done.
  - subst l2. destruct fuel as [|fuel]; [lia|]. cbn. by rewrite !app_nil_r.
Qed.
End iterator.
End reading.
