(* ===== verification/UnitLog.v ===== *)
(** * A table unit is a log

    The operations of [TableUnit] in any order, with failures of the service and
    restarts: a table unit refines a log from which entries are read back by
    sequence.  One location (a table in a region) is followed; the other users of
    the tables are steps that keep its entries.

    Entries are written to the bucket of the current time.  The log is read bucket
    by bucket, so it is read in order only if time does not go back between writes;
    the steps require it, and the end of the file has what happens otherwise. *)

From Stdlib Require Import ZArith Lia String.
From stdpp Require Import base tactics option list sorting numbers gmap strings.
From S2P Require Import Prelude Bytes Datum Varint MemComparable BTree TableKv KvEncoder TableUnit.

#[local] Open Scope Z_scope.

Ltac u64 := unfold uint, u64_max in *; lia.

(** ** Writes to a table, by its elements *)
Lemma insert_ops_elem (l : list (bytes * bytes)) t kv : table_sorted t -> NoDup l.*1 -> (forall k, k ∈ l.*1 -> k ∉ t.*1) ->
  kv ∈ foldl apply_op t ((fun kv => WInsert kv.1 kv.2) <$> l) <-> kv ∈ t \/ kv ∈ l.
Proof.
  revert t. induction l as [|[k v] l IH]; intros t Ht Hnd Hfresh; [cbn; set_solver|]. cbn [fmap list_fmap foldl apply_op fst snd].
  cbn in Hnd. apply NoDup_cons in Hnd as [Hk Hnd].
  assert (Hins : forall kv', kv' ∈ bt_insert bytes_cmp k v t <-> kv' = (k, v) \/ kv' ∈ t).
  { intros kv'. rewrite (bt_insert_iff bytes_cmp) by done. split; [tauto|]. intros [?|Hin]; [by left|right]. split; [done|]. intros Heq.
    apply (Hfresh k); [by left|]. rewrite <- Heq. by apply list_elem_of_fmap_2. }
  fold ((fun kv => WInsert kv.1 kv.2) <$> l). rewrite IH; [rewrite Hins, elem_of_cons; tauto|by apply (apply_op_sorted t (WInsert k v))|done|].
  intros k' Hk' Hin. apply list_elem_of_fmap_1 in Hin as (kv' & -> & [->|Hin]%Hins); [done|]. apply (Hfresh kv'.1); [by right|].
  by apply list_elem_of_fmap_2.
Qed.
Lemma delete_ops_elem ks t kv : table_sorted t -> kv ∈ foldl apply_op t (WDelete <$> ks) <-> kv ∈ t /\ kv.1 ∉ ks.
Proof.
  revert t. induction ks as [|k ks IH]; intros t Ht; [cbn; set_solver|]. cbn [fmap list_fmap foldl apply_op].
  fold (WDelete <$> ks). rewrite IH by (by apply (apply_op_sorted t (WDelete k))). rewrite (bt_remove_iff bytes_cmp) by done. set_solver.
Qed.
Lemma prefix_fmap {A B} (f : A -> B) l p : p `prefix_of` f <$> l -> exists l', l' `prefix_of` l /\ p = f <$> l'.
Proof.
  intros [q Hq]. apply fmap_app_inv in Hq as (l1 & l2 & -> & -> & ->). exists l1. split; [by exists l2|done].
Qed.

(** Payloads with the sequences from one on. *)
Fixpoint number (s : Z) (ps : list bytes) : list (Z * bytes) := match ps with [] => [] | p :: ps => (s, p) :: number (s + 1) ps end.
Lemma number_length s ps : length (number s ps) = length ps.
Proof. revert s. induction ps as [|p ps IH]; intros s; cbn; [done|by rewrite IH]. Qed.
Lemma number_elem s ps e : e ∈ number s ps -> s <= e.1 < s + len ps.
Proof.
  revert s. induction ps as [|p ps IH]; intros s; cbn [number length]; [set_solver|]. intros [->|Hin]%elem_of_cons; [cbn; lia|].
  apply IH in Hin. lia.
Qed.
Lemma number_sorted s ps : StronglySorted (fun a b : Z * bytes => a.1 < b.1) (number s ps).
Proof.
  revert s. induction ps as [|p ps IH]; intros s; cbn [number]; constructor; [done|]. apply Forall_forall. intros e He%number_elem. cbn. lia.
Qed.

(** ** The log of one table *)
Section system.
Context {K E : Type} {KV : TableKv K E} {KL : TableKvLaws K E} {JC : JsonCodec TableUnitEntry}.
Context (r tb : Z) (Hr : uint 64 r) (Htb : uint 64 tb) (meta_table : string).

Definition in_bucket (kv : K) (b : Bucket) (e : entry) : Prop :=
  key_ok e.1 /\ exists name t, shard_of r b = Some name /\ kv_view kv !! name = Some t /\ kv_of e ∈ t.
Definition bucket_ok (kv : K) (b : Bucket) : Prop :=
  exists name t, shard_of r b = Some name /\ kv_view kv !! name = Some t /\ forall x, x ∈ t -> exists e, x = kv_of e /\ key_ok e.1.
Definition unit_key (s : Z) (x : bytes) : entry := (MkCommonKey r tb s, x).
Record layout (kv : K) (bs : list Bucket) : Prop := {
  la_kv : kv_ok kv;
  la_time : by_time bs;
  la_tables : Forall (bucket_ok kv) bs;
  la_unique : forall b1 b2 n, b1 ∈ bs -> b2 ∈ bs -> shard_of r b1 = Some n -> shard_of r b2 = Some n -> b1 = b2;
  la_meta : Forall (fun b => shard_of r b <> Some meta_table) bs;
  la_order : forall b1 b2 s1 x1 s2 x2, b1 ∈ bs -> b2 ∈ bs -> gmt_start_ms b1 < gmt_start_ms b2 ->
    in_bucket kv b1 (unit_key s1 x1) -> in_bucket kv b2 (unit_key s2 x2) -> s1 < s2
}.
(** What the log holds. *)
Definition logged (kv : K) (bs : list Bucket) (s : Z) (x : bytes) : Prop := exists b, b ∈ bs /\ in_bucket kv b (unit_key s x).
Lemma kv_of_inj e1 e2 : key_ok e1.1 -> key_ok e2.1 -> kv_of e1 = kv_of e2 -> e1 = e2.
Proof.
  unfold kv_of. intros H1 H2 Heq. assert (Hk : key_bytes e1.1 = key_bytes e2.1) by congruence. assert (Hv : e1.2 = e2.2) by congruence.
  apply key_bytes_inj in Hk; [|done|done]. destruct e1, e2; cbn in *; by subst.
Qed.
Lemma unit_key_ok s x : uint 64 s -> key_ok (unit_key s x).1.
Proof. by intros. Qed.

Lemma log_table_of t : (forall x, x ∈ t -> exists e, x = kv_of e /\ key_ok e.1) -> exists es, log_table t es.
Proof.
  induction t as [|x t IH]; intros H; [by exists []|]. destruct (H x) as (e & -> & He); [by left|].
  destruct IH as (es & -> & Hes); [intros y Hy; apply H; by right|]. exists (e :: es). split; [done|by constructor].
Qed.
Lemma log_table_elem t es e : log_table t es -> key_ok e.1 -> kv_of e ∈ t <-> e ∈ es.
Proof.
  intros [-> Hk] He. rewrite list_elem_of_fmap. rewrite Forall_forall in Hk. split; [|intros Hin; by exists e].
  intros (e' & Heq & Hin). apply kv_of_inj in Heq as ->; auto.
Qed.
Definition stored (ess : list (list entry)) : list entry := concat (filter (of_unit r tb) <$> ess).

Lemma unit_sorted es : StronglySorted key_lt es -> StronglySorted seq_lt (filter (of_unit r tb) es).
Proof.
  intros Hs. apply (ssorted_filter _ (of_unit r tb)) in Hs. assert (Hu : Forall (of_unit r tb) (filter (of_unit r tb) es)).
  { apply Forall_forall. intros e He. by apply list_elem_of_filter in He as [? _]. }
  induction Hs as [|e l Hs IH Hf]; [constructor|]. apply Forall_cons in Hu as [[Hu1 Hu2] Hu]. constructor; [by apply IH|].
  rewrite Forall_forall in Hf, Hu. apply Forall_forall. intros e' He'. specialize (Hf e' He'). destruct (Hu e' He') as [Hu1' Hu2'].
  unfold key_lt, common_key_cmp, seq_lt in *. rewrite Hu1, Hu1', Hu2, Hu2', !Z.compare_refl in Hf. cbn in Hf. by apply Z.compare_lt_iff.
Qed.
(** The tables of a layout as lists of entries. *)
Lemma layout_log kv bs : layout kv bs -> exists ess, Forall2 (bucket_log r kv) bs ess /\ StronglySorted seq_lt (stored ess) /\
  Forall (fun e => key_ok e.1) (stored ess) /\
  forall s x, unit_key s x ∈ stored ess <-> logged kv bs s x.
Proof.
  intros [Hkv Ht Htab _ _ Hord]. revert Ht Htab Hord. induction bs as [|b bs IH]; intros Ht Htab Hord.
  { exists []. split_and!; [constructor|constructor|constructor|]. intros s x. unfold logged. set_solver. }
  apply Forall_cons in Htab as [(name & t & Hn & Hv & Hall) Htab]. apply StronglySorted_inv in Ht as [Ht Hfirst]. rewrite Forall_forall in Hfirst.
  destruct IH as (ess & Hb & Hs & Hok & Hel); [done|done|intros b1 b2 s1 x1 s2 x2 H1 H2; apply (Hord b1 b2); by right|].
  destruct (log_table_of t Hall) as (es & Hes). exists (es :: ess). cbn [stored concat fmap list_fmap].
  pose proof (log_table_sorted _ _ Hes (kv_view_sorted kv Hkv name t Hv)) as Hsort.
  assert (Hin : forall s x, unit_key s x ∈ filter (of_unit r tb) es <-> in_bucket kv b (unit_key s x)).
  { intros s x. rewrite list_elem_of_filter. split.
    - intros [_ Hx]. assert (key_ok (unit_key s x).1) as Hk by (destruct Hes as [_ Hk]; rewrite Forall_forall in Hk; by apply (Hk _ Hx)).
      split; [done|]. exists name, t. split_and!; [done|done|]. by apply (log_table_elem t es).
    - intros (Hk & name' & t' & Hn' & Hv' & Hx). split; [done|]. apply (log_table_elem t es); [done|done|]. congruence. }
  assert (Hform : forall (e : entry) (l : list entry), e ∈ filter (of_unit r tb) l -> e = unit_key (ck_sequence_num e.1) e.2).
  { intros e l [[H1 H2] _]%list_elem_of_filter. destruct e as [[? ? ?] ?]. cbn in *. by subst. }
  split_and!.
  - constructor; [by exists name, t|done].
  - apply StronglySorted_app. split_and!; [|by apply unit_sorted|done]. intros e1 e2 H1 H2. pose proof (Hform _ _ H1) as Hf1.
    assert (e2 = unit_key (ck_sequence_num e2.1) e2.2) as Hf2.
    { apply list_elem_of_In, in_concat in H2 as (l & Hl & He2). apply list_elem_of_In in Hl, He2. apply list_elem_of_fmap in Hl as (l' & -> & _). by eapply Hform. }
    rewrite Hf1 in H1. rewrite Hf2 in H2.
    apply Hin in H1. apply Hel in H2 as (b2 & Hb2 & H2).
    apply (Hord b b2 _ e1.2 _ e2.2); [by left|by right|by apply Hfirst|done|done].
  - apply Forall_app. split; [|done]. apply Forall_forall. intros e [_ He]%list_elem_of_filter. destruct Hes as [_ Hk].
    rewrite Forall_forall in Hk. by apply Hk.
  - intros s x. rewrite elem_of_app, (Hin s x). fold (stored ess). rewrite (Hel s x). unfold logged. split.
    + intros [Hx|(b' & Hb' & Hx)]; [exists b; split; [by left|done]|exists b'; split; [by right|done]].
    + intros (b' & [->|Hb']%elem_of_cons & Hx); [by left|right; by exists b'].
Qed.
Definition boundary_ok (b : ReadBoundary) : Prop := match b with RbIncluded n | RbExcluded n => uint 64 n | _ => True end.
Definition in_bounds (start stop : ReadBoundary) (s : Z) : Prop :=
  exists a b, as_start_sequence_number start = Some a /\ as_end_sequence_number stop = Some b /\ a <= s <= b.
Lemma boundary_start_range b a : boundary_ok b -> as_start_sequence_number b = Some a -> uint 64 a.
Proof.
  unfold MAX_SEQUENCE_NUMBER, u64_max, uint. destruct b; cbn [as_start_sequence_number boundary_ok]; unfold MAX_SEQUENCE_NUMBER, MIN_SEQUENCE_NUMBER, u64_max;
    intros Hb H; simplify_eq; try done. destruct (Z.eqb_spec n (2 ^ 64 - 1)); simplify_eq. unfold uint in Hb. lia.
Qed.
Lemma boundary_end_range b a : boundary_ok b -> as_end_sequence_number b = Some a -> uint 64 a.
Proof.
  unfold uint. destruct b; cbn [as_end_sequence_number boundary_ok]; unfold MAX_SEQUENCE_NUMBER, MIN_SEQUENCE_NUMBER, u64_max;
    intros Hb H; simplify_eq; try done. destruct (Z.eqb_spec n 0); simplify_eq. unfold uint in Hb. lia.
Qed.
Lemma wanted_stored ess lo hi : concat (wanted r tb ess lo hi) = filter (between r tb lo hi) (stored ess).
Proof.
  unfold wanted, stored. induction ess as [|es ess IH]; [done|]. cbn [fmap list_fmap concat]. rewrite filter_app, <- IH. f_equal.
  rewrite list_filter_filter. apply list_filter_iff. intros e. unfold between, of_unit. tauto.
Qed.
Lemma stored_unit ess e : e ∈ stored ess -> of_unit r tb e.
Proof.
  unfold stored. intros He. apply list_elem_of_In, in_concat in He as (l & Hl & He). apply list_elem_of_In in Hl, He.
  apply list_elem_of_fmap in Hl as (es & -> & _). by apply list_elem_of_filter in He as [? _].
Qed.
Lemma stored_ok ess : Forall (fun e => key_ok e.1) (stored ess) -> forall lo hi, Forall (fun e => key_ok e.1) (filter (between r tb lo hi) (stored ess)).
Proof. intros H lo hi. apply Forall_forall. intros e [_ He]%list_elem_of_filter. rewrite Forall_forall in H. by apply H. Qed.
Lemma empty_read kv fuel n : read_batches (E:=E) kv (S fuel) (S n) (Some iter_new_empty) = Ok [].
Proof. done. Qed.

(** Reading a layout gives the entries between the sequences. *)
Lemma read_layout kv bs u start stop n fuel ess : layout kv bs -> uint 64 (tu_start_sequence u) -> uint 64 (tu_last_sequence u) ->
  boundary_ok start -> boundary_ok stop -> (0 < n)%nat ->
  Forall2 (bucket_log r kv) bs ess -> StronglySorted seq_lt (stored ess) -> Forall (fun e => key_ok e.1) (stored ess) ->
  (length (stored ess) < fuel)%nat ->
  match read_batches kv fuel n (Some (read_log u bs (MkLocation r tb) start stop)) with
  | Ok l => exists es, l = entry_of <$> es /\ StronglySorted seq_lt es /\
      forall e, e ∈ es <-> e ∈ stored ess /\ in_bounds start stop (ck_sequence_num e.1) /\
        tu_start_sequence u <= ck_sequence_num e.1 <= tu_last_sequence u
  | Err e => scan_error e
  | Panic => False
  end.
Proof.
  intros Hl Hs Hla Hb1 Hb2 Hn Hb Hso Hok Hf. unfold read_log, in_bounds.
  destruct (as_start_sequence_number start) as [a|] eqn:Ha, (as_end_sequence_number stop) as [z|] eqn:Hz;
    try (destruct fuel as [|fuel]; [lia|]; destruct n as [|n]; [lia|]; rewrite empty_read; exists []; split_and!; [done|constructor|set_solver]).
  cbn [wl_region_id wl_table_id]. set (lo := Z.max (tu_start_sequence u) a). set (hi := Z.min (tu_last_sequence u) z).
  assert (uint 64 lo) as Hlo by (apply boundary_start_range in Ha; [|done]; unfold lo, uint in *; lia).
  assert (uint 64 hi) as Hhi by (apply boundary_end_range in Hz; [|done]; unfold hi, uint in *; lia).
  set (es := filter (between r tb lo hi) (stored ess)).
  assert (Hin : Forall (between r tb lo hi) es) by (apply Forall_forall; intros e He; by apply list_elem_of_filter in He as [? _]).
  assert (Hat : iter_at r tb bs ess lo hi (iter_new bs (MkCommonKey r tb lo) (MkCommonKey r tb hi)) es).
  { split; cbn [ti_buckets ti_max_log_key ti_current_log_key ti_current_iter ti_current_bucket_index iter_new]; try done.
    - exists lo. split_and!; [done|done|lia|]. eapply Forall_impl; [exact Hin|]. intros e (_ & _ & ?). lia.
    - by apply ssorted_filter.
    - by apply stored_ok.
    - rewrite drop_0. by rewrite wanted_stored. }
  pose proof (read_batches_ok r tb Hr Htb kv (la_kv _ _ Hl) bs ess Hb (la_time _ _ Hl) lo hi Hhi fuel n _ es Hn Hat) as Hread.
  specialize (Hread ltac:(pose proof (length_filter (between r tb lo hi) (stored ess)); unfold es; lia)).
  destruct (read_batches kv fuel n _) as [l| |]; [|done|done]. exists es. split_and!; [done|by apply ssorted_filter|].
  intros e. unfold es. rewrite list_elem_of_filter. split.
  - intros [(H1 & H2 & H3) He]. split_and!; [done|exists a, z|lia|lia]. split_and!; [done|done|lia|lia].
  - intros (He & (a' & z' & Ha' & Hz' & Hin') & Hu). simplify_eq. split; [|done].
    assert (of_unit r tb e) as [H1 H2] by (by eapply stored_unit). split_and!; try done; lia.
Qed.

(** *** Single steps *)
Definition unit_batch (ps : list bytes) : LogWriteBatch := MkLogBatch (MkLocation r tb) (cons 0 <$> ps).
Definition entry_ops (l : list (Z * bytes)) : list WriteOp :=
  (fun kv : bytes * bytes => WInsert kv.1 kv.2) <$> ((fun e : Z * bytes => kv_of (unit_key e.1 e.2)) <$> l).
Lemma write_batch_number s ps : s + len ps <= u64_max -> 0 <= s ->
  write_batch (E:=E) r tb s (cons 0 <$> ps) = Ok (entry_ops (number s ps), s + len ps).
Proof.
  revert s. induction ps as [|p ps IH]; intros s Hs H0; cbn [fmap list_fmap write_batch number].
  { cbn [length]. by rewrite Z.add_0_r. }
  cbn [length] in Hs. rewrite encode_key_ok. cbn [rcontext rbind]. rewrite u64_op_ok by u64. cbn [rbind]. fold (cons 0 <$> ps).
  rewrite IH by lia. cbn [rbind length]. f_equal. f_equal. lia.
Qed.
Lemma write_log_number kv u b ps : 0 <= tu_last_sequence u -> tu_last_sequence u + len ps < u64_max -> 
  write_log kv u b (unit_batch ps) =
  match shard_of r b with
  | None => (kv, MkUnitState (tu_region_id u) (tu_table_id u) (tu_start_sequence u) (tu_last_sequence u + len ps), Panic)
  | Some name =>
      let (kv, res) := kv_write kv name (entry_ops (number (tu_last_sequence u + 1) ps)) in
      (kv, MkUnitState (tu_region_id u) (tu_table_id u) (tu_start_sequence u) (tu_last_sequence u + len ps),
       let? _ := rcontext WriteLog res in Ok (tu_last_sequence u + len ps))
  end.
Proof.
  intros H0 Hl. unfold write_log, alloc_sequence_num, unit_batch. cbn [lb_location lb_entries wl_region_id wl_table_id]. rewrite length_fmap.
  unfold MAX_SEQUENCE_NUMBER. rewrite (proj2 (Z.ltb_lt _ _)) by lia. rewrite as_u_id by u64.
  rewrite u64_op_ok by u64. cbn [rbind]. rewrite write_batch_number by lia. cbn [rbind]. rewrite u64_op_ok by u64. cbn [rbind].
  replace (tu_last_sequence u + 1 + len ps - 1) with (tu_last_sequence u + len ps) by lia. unfold shard_of, wal_shard_table.
  destruct (bk_wal_shard_names b) as [|n ns]; [done|]. by destruct ((n :: ns) !! _).
Qed.
(** A write to the table of a bucket adds a prefix of the entries. *)
Definition adds (kv kv' : K) (b : Bucket) (new : list (Z * bytes)) : Prop :=
  exists name t t', shard_of r b = Some name /\ kv_view kv !! name = Some t /\ kv_view kv' = <[name := t']> (kv_view kv) /\
    table_sorted t' /\ forall x, x ∈ t' <-> x ∈ t \/ exists e, e ∈ new /\ x = kv_of (unit_key e.1 e.2).
Lemma kv_of_key_inj e1 e2 : key_ok e1.1 -> key_ok e2.1 -> (kv_of e1).1 = (kv_of e2).1 -> e1.1 = e2.1.
Proof. intros H1 H2 Heq. by apply key_bytes_inj. Qed.
Lemma entry_keys_nodup l : StronglySorted (fun a b : Z * bytes => a.1 < b.1) l -> Forall (fun e : Z * bytes => uint 64 e.1) l ->
  NoDup ((fun e : Z * bytes => kv_of (unit_key e.1 e.2)) <$> l).*1.
Proof.
  induction 1 as [|e l Hs IH Hf]; intros Hok; [constructor|]. apply Forall_cons in Hok as [He Hok]. cbn [fmap list_fmap]. constructor; [|by apply IH].
  intros (kv' & Hk & Hin)%list_elem_of_fmap. apply list_elem_of_fmap in Hin as (e' & -> & Hin).
  rewrite Forall_forall in Hf, Hok. apply kv_of_key_inj in Hk; [|done|apply unit_key_ok; by apply Hok]. injection Hk as Hk. specialize (Hf e' Hin). lia.
Qed.
Lemma entry_write kv b name new kv' res : kv_ok kv -> bucket_ok kv b -> shard_of r b = Some name ->
  StronglySorted (fun a b : Z * bytes => a.1 < b.1) new -> Forall (fun e : Z * bytes => uint 64 e.1) new ->
  (forall e x, e ∈ new -> ~ in_bucket kv b (unit_key e.1 x)) ->
  kv_write kv name (entry_ops new) = (kv', res) ->
  kv_ok kv' /\ exists done, done `prefix_of` new /\ adds kv kv' b done /\ (res = Ok tt -> done = new).
Proof.
  intros Hkv (name' & t & Hn & Hv & Hall) Hname Hs Hok Hfresh Hw. rewrite Hname in Hn. injection Hn as <-.
  apply kv_write_law in Hw as [Hkv' Hw]; [|done]. rewrite Hv in Hw. destruct Hw as (ops & Hp & _ & Hview & Hres). split; [done|].
  unfold entry_ops in Hp. apply prefix_fmap in Hp as (kvs & Hp & ->). apply prefix_fmap in Hp as (done & Hp & ->).
  pose proof (kv_view_sorted kv Hkv name t Hv) as Ht. destruct Hp as [rest ->]. apply StronglySorted_app in Hs as (_ & Hs & _).
  apply Forall_app in Hok as [Hok _]. exists done. split_and!; [by exists rest| |].
  - exists name, t, (foldl apply_op t (entry_ops done)). split_and!; [done|done|done|by apply apply_ops_sorted|]. intros x. unfold entry_ops.
    rewrite insert_ops_elem; [|done|by apply entry_keys_nodup|].
    + f_equiv. rewrite list_elem_of_fmap. split; intros (e & H1 & H2); by exists e.
    + intros k Hk Hin. apply list_elem_of_fmap in Hk as (kv0 & -> & Hk). apply list_elem_of_fmap in Hk as (e & -> & Hk).
      apply list_elem_of_fmap in Hin as (y & Hx & Hin). destruct (Hall y Hin) as (e' & -> & He').
      rewrite Forall_forall in Hok. apply kv_of_key_inj in Hx; [|apply unit_key_ok; by apply Hok|done].
      apply (Hfresh e e'.2); [apply elem_of_app; by left|]. split; [apply unit_key_ok; by apply Hok|]. exists name, t. split_and!; [done|done|]. 
      replace (unit_key e.1 e'.2) with e'; [done|]. destruct e' as [ck v]. cbn in Hx |- *. by rewrite <- Hx.
  - intros ->. specialize (Hres eq_refl). unfold entry_ops in Hres. rewrite fmap_app, fmap_app in Hres.
    apply (f_equal length) in Hres. rewrite !length_app, !length_fmap in Hres. destruct rest; [by rewrite app_nil_r|cbn in Hres; lia].
Qed.

(** *** Changes of the tables *)
Lemma layout_keep kv kv' bs : layout kv bs -> kv_ok kv' -> Forall (bucket_ok kv') bs ->
  (forall b1 b2 s1 x1 s2 x2, b1 ∈ bs -> b2 ∈ bs -> gmt_start_ms b1 < gmt_start_ms b2 ->
    in_bucket kv' b1 (unit_key s1 x1) -> in_bucket kv' b2 (unit_key s2 x2) -> s1 < s2) -> layout kv' bs.
Proof. intros [] ? ? ?. by split. Qed.
Lemma bucket_sub kv kv' b name t t' : kv_view kv !! name = Some t -> shard_of r b = Some name -> kv_view kv' !! name = Some t' ->
  (forall x, x ∈ t' -> x ∈ t) -> bucket_ok kv b -> bucket_ok kv' b.
Proof.
  intros Hv Hn Hv' Hsub (name' & t0 & Hn' & Hv0 & Hall). exists name, t'. split_and!; [done|done|]. intros x Hx. apply Hall.
  rewrite Hn in Hn'. injection Hn' as <-. rewrite Hv in Hv0. injection Hv0 as <-. auto.
Qed.
Lemma bucket_same kv kv' b name : shard_of r b <> Some name -> (forall n, n <> name -> kv_view kv' !! n = kv_view kv !! n) ->
  (bucket_ok kv b -> bucket_ok kv' b) /\ forall e, in_bucket kv' b e <-> in_bucket kv b e.
Proof.
  intros Hne Hsame. split.
  - intros (n & t & Hn & Hv & Hall). exists n, t. rewrite Hsame by congruence. by split_and!.
  - intros e. split; (intros (Hk & n & t & Hn & Hv & Hin); split; [done|]; exists n, t; split_and!; [done| |done]).
    + by rewrite <- Hsame by congruence.
    + by rewrite Hsame by congruence.
Qed.
Lemma shard_dec b name : {shard_of r b = Some name} + {shard_of r b <> Some name}.
Proof. apply (decide_rel eq). Defined.

Lemma adds_bucket kv kv' bs b new b' : layout kv bs -> b ∈ bs -> adds kv kv' b new -> Forall (fun e : Z * bytes => uint 64 e.1) new -> b' ∈ bs ->
  bucket_ok kv' b' /\ forall s x, in_bucket kv' b' (unit_key s x) <-> in_bucket kv b' (unit_key s x) \/ b' = b /\ (s, x) ∈ new.
Proof.
  intros [_ _ Htab Huniq _ _] Hb (name & t & t' & Hn & Hv & Hview & _ & Hel) Hnew Hb'. rewrite Forall_forall in Htab. rewrite Forall_forall in Hnew.
  assert (Hv' : kv_view kv' !! name = Some t') by (rewrite Hview; apply lookup_insert_eq).
  destruct (shard_dec b' name) as [Hs|Hs].
  - rewrite <- (Huniq b b' name Hb Hb' Hn Hs) in *. destruct (Htab b Hb) as (n0 & t0 & Hn0 & Hv0 & Hall0).
    assert (n0 = name) as -> by congruence. assert (t0 = t) as -> by congruence. split.
    + exists name, t'. split_and!; [done|done|]. intros x [Hx|(e & He & ->)]%Hel; [by apply Hall0|]. eexists. split; [done|]. apply unit_key_ok. by apply Hnew.
    + intros s x. split.
      * intros (Hk & n1 & t1 & Hn1 & Hv1 & Hx). assert (n1 = name) as -> by congruence. assert (t1 = t') as -> by congruence. apply Hel in Hx as [Hx|(e & He & Hx)].
        -- left. split; [done|]. by exists name, t.
        -- right. split; [done|]. apply kv_of_inj in Hx; [|done|apply unit_key_ok; by apply Hnew]. destruct e as [s' x'].
           unfold unit_key in Hx. cbn in Hx. by simplify_eq.
      * intros [(Hk & n1 & t1 & Hn1 & Hv1 & Hx)|[_ Hx]].
        -- assert (n1 = name) as -> by congruence. assert (t1 = t) as -> by congruence. split; [done|]. exists name, t'. split_and!; [done|done|]. apply Hel. by left.
        -- split; [apply unit_key_ok; by apply (Hnew _ Hx)|]. exists name, t'. split_and!; [done|done|]. apply Hel. right. by exists (s, x).
  - destruct (bucket_same kv kv' b' name Hs) as [H1 H2]; [intros n Hne; rewrite Hview; by apply lookup_insert_ne|].
    split; [by apply H1, Htab|]. intros s x. rewrite H2. split; [by left|]. intros [?|[-> _]]; done.
Qed.
(** An appended entry is above all entries of its bucket and of the earlier ones; the later ones have none. *)
Lemma adds_layout kv kv' bs b new : layout kv bs -> kv_ok kv' -> b ∈ bs -> adds kv kv' b new ->
  Forall (fun e : Z * bytes => uint 64 e.1) new ->
  (forall s x, logged kv bs s x -> Forall (fun e : Z * bytes => s < e.1) new) ->
  (forall b' s x, b' ∈ bs -> gmt_start_ms b < gmt_start_ms b' -> ~ in_bucket kv b' (unit_key s x)) ->
  layout kv' bs /\ (forall s x, logged kv' bs s x <-> logged kv bs s x \/ (s, x) ∈ new) /\
  kv_view kv' !! meta_table = kv_view kv !! meta_table.
Proof.
  intros Hl Hkv' Hbi Hadd Hnew Habove Hlast. pose proof Hl as [_ _ _ _ Hmeta Hord]. rewrite Forall_forall in Hmeta.
  pose proof (fun b' => adds_bucket kv kv' bs b new b' Hl Hbi Hadd Hnew) as Hb. split_and!.
  - apply (layout_keep kv); [done|done|apply Forall_forall; intros; by apply Hb|].
    intros b1 b2 s1 x1 s2 x2 H1 H2 Hlt Hin1 Hin2. apply Hb in Hin1; [|done].
    apply Hb in Hin2; [|done]. destruct Hin2 as [Hin2|[-> Hin2]].
    + destruct Hin1 as [Hin1|[-> _]]; [by apply (Hord b1 b2 s1 x1 s2 x2)|]. by destruct (Hlast b2 s2 x2).
    + destruct Hin1 as [Hin1|[-> _]]; [|lia].
      assert (Forall (fun e : Z * bytes => s1 < e.1) new) as Hab; [|rewrite Forall_forall in Hab; by apply (Hab (s2, x2))].
      apply (Habove s1 x1). by exists b1.
  - intros s x. unfold logged. split.
    + intros (b' & Hb' & Hin). apply Hb in Hin as [Hin|[-> Hin]]; [left; by exists b'|by right|done].
    + intros [(b' & Hb' & Hin)|Hin]; [exists b'; split; [done|]; apply Hb; [done|by left]|exists b; split; [done|]; apply Hb; [done|by right]].
  - destruct Hadd as (name & t & t' & Hn & Hv & Hview & _). rewrite Hview. apply lookup_insert_ne. intros <-. by apply (Hmeta b).
Qed.

(** Cleaning takes entries below the start. *)
Record shrinks (kv kv' : K) (bs : list Bucket) (start : Z) : Prop := {
  sh_ok : kv_ok kv';
  sh_tables : Forall (bucket_ok kv') bs;
  sh_sub : forall b e, b ∈ bs -> in_bucket kv' b e -> in_bucket kv b e;
  sh_keep : forall b s x, b ∈ bs -> start <= s -> in_bucket kv b (unit_key s x) -> in_bucket kv' b (unit_key s x);
  sh_meta : kv_view kv' !! meta_table = kv_view kv !! meta_table
}.
Lemma shrinks_refl kv bs start : layout kv bs -> shrinks kv kv bs start.
Proof. intros []. by split. Qed.
Lemma shrinks_trans kv1 kv2 kv3 bs start : shrinks kv1 kv2 bs start -> shrinks kv2 kv3 bs start -> shrinks kv1 kv3 bs start.
Proof. intros [] []. split; [done|done|naive_solver|naive_solver|congruence]. Qed.
Lemma shrinks_layout kv kv' bs start : layout kv bs -> shrinks kv kv' bs start -> layout kv' bs.
Proof.
  intros Hl [Hok Ht Hs _ _]. apply (layout_keep kv); [done|done|done|]. intros b1 b2 s1 x1 s2 x2 H1 H2 Hlt Hi1 Hi2.
  apply (la_order _ _ Hl b1 b2 s1 x1 s2 x2 H1 H2 Hlt); by apply Hs.
Qed.
Lemma shrinks_logged kv kv' bs start : shrinks kv kv' bs start ->
  (forall s x, logged kv' bs s x -> logged kv bs s x) /\ (forall s x, start <= s -> logged kv bs s x -> logged kv' bs s x).
Proof.
  intros [_ _ Hs Hk _]. split.
  - intros s x (b & Hb & Hi). exists b. eauto.
  - intros s x Hle (b & Hb & Hi). exists b. eauto.
Qed.
Definition old_key (start : Z) (k : bytes) : Prop := exists s, uint 64 s /\ s < start /\ k = key_bytes (MkCommonKey r tb s).
Lemma delete_shrinks kv bs b name start keys kv' res : layout kv bs -> b ∈ bs -> shard_of r b = Some name -> Forall (old_key start) keys ->
  delete_batch (E:=E) kv name keys = (kv', res) -> shrinks kv kv' bs start.
Proof.
  intros Hl Hb Hn Hkeys Hd. pose proof Hl as [Hkv _ Htab Huniq Hmeta _]. rewrite Forall_forall in Htab, Hmeta. unfold delete_batch in Hd.
  destruct (kv_write kv name (WDelete <$> keys)) as [kv1 res1] eqn:Hw. injection Hd as <- <-.
  apply kv_write_law in Hw as [Hok Hw]; [|done]. destruct (Htab b Hb) as (n0 & t & Hn0 & Hv & Hall).
  assert (n0 = name) as -> by congruence. rewrite Hv in Hw. destruct Hw as (ops & Hp & _ & Hview & _).
  apply prefix_fmap in Hp as (ks & [rest ->] & ->). apply Forall_app in Hkeys as [Hks _]. rewrite Forall_forall in Hks.
  set (t' := foldl apply_op t (WDelete <$> ks)) in Hview.
  assert (Hel : forall x, x ∈ t' <-> x ∈ t /\ x.1 ∉ ks) by (intros x; apply delete_ops_elem; by apply (kv_view_sorted kv Hkv name)).
  assert (Hv' : kv_view kv1 !! name = Some t') by (rewrite Hview; apply lookup_insert_eq).
  assert (Hother : forall n, n <> name -> kv_view kv1 !! n = kv_view kv !! n) by (intros n Hne; rewrite Hview; by apply lookup_insert_ne).
  assert (Hsame : forall b', b' ∈ bs -> shard_of r b' = Some name -> b' = b) by (intros b' Hb' Hs; by apply (Huniq b' b name)).
  split; [done| | | |apply Hother; intros <-; by apply (Hmeta b)].
  - apply Forall_forall. intros b' Hb'. destruct (shard_dec b' name) as [Hs|Hs].
    + rewrite (Hsame b' Hb' Hs). apply (bucket_sub kv kv1 b name t t'); [done|done|done| |by apply Htab]. intros x Hx. by apply Hel in Hx as [? _].
    + by apply (bucket_same kv kv1 b' name Hs Hother), Htab.
  - intros b' e Hb'. destruct (shard_dec b' name) as [Hs|Hs]; [|by apply (bucket_same kv kv1 b' name Hs Hother)].
    intros (Hk & n1 & t1 & Hn1 & Hv1 & Hx). assert (n1 = name) as -> by congruence. assert (t1 = t') as -> by congruence.
    split; [done|]. exists name, t. apply Hel in Hx as [Hx _]. by split_and!.
  - intros b' s x Hb' Hle. destruct (shard_dec b' name) as [Hs|Hs]; [|by apply (bucket_same kv kv1 b' name Hs Hother)].
    intros (Hk & n1 & t1 & Hn1 & Hv1 & Hx). assert (n1 = name) as -> by congruence. assert (t1 = t) as -> by congruence.
    split; [done|]. exists name, t'. split_and!; [done|done|]. apply Hel. split; [done|]. intros (s' & Hs' & Hlt & Heq)%Hks.
    apply (kv_of_key_inj (unit_key s x) (unit_key s' x) Hk) in Heq; [|by apply unit_key_ok]. injection Heq as ->. lia.
Qed.
Lemma clean_iter_shrinks b name start n l : shard_of r b = Some name -> Forall (old_key start) l.*1 ->
  forall kv bs batch kv' res, layout kv bs -> b ∈ bs -> Forall (old_key start) batch ->
  clean_logs_from_iter (E:=E) kv n name batch l = (kv', res) -> shrinks kv kv' bs start.
Proof.
  intros Hn Hl. induction l as [|[k v] l IH]; intros kv bs batch kv' res Hlay Hb Hbatch Hc; cbn [clean_logs_from_iter] in Hc.
  { injection Hc as <- <-. by apply shrinks_refl. }
  cbn in Hl. apply Forall_cons in Hl as [Hk Hl]. assert (Hbatch' : Forall (old_key start) (batch ++ [k])) by (apply Forall_app; by split; [|constructor]).
  destruct (n <=? length (batch ++ [k]))%nat.
  - destruct (delete_batch kv name (batch ++ [k])) as [kv1 r1] eqn:Hd. apply (delete_shrinks kv bs b name start) in Hd as Hsh; [|done|done|done|done].
    pose proof (shrinks_layout _ _ _ _ Hlay Hsh) as Hlay1. destruct r1 as [[]| |]; [|by injection Hc as <- <-..].
    apply (shrinks_trans _ _ _ _ _ Hsh). destruct l as [|x l].
    + by apply (delete_shrinks kv1 bs b name start) in Hc.
    + by apply (IH Hl kv1 bs [] kv' res).
  - destruct l as [|x l].
    + by apply (delete_shrinks kv bs b name start) in Hc.
    + by apply (IH Hl kv bs (batch ++ [k]) kv' res).
Qed.
Lemma range_old_keys t es start : log_table t es -> Forall (old_key start) (kv_of <$> filter (between r tb 0 (start - 1)) es).*1.
Proof.
  intros [_ Hk]. rewrite Forall_forall in Hk. apply Forall_forall. intros k (x & -> & Hx)%list_elem_of_fmap.
  apply list_elem_of_fmap in Hx as (e & -> & He). apply list_elem_of_filter in He as [(H1 & H2 & H3) He]. specialize (Hk e He).
  exists (ck_sequence_num e.1). split_and!; [apply Hk|lia|]. destruct e as [[? ? ?] ?]. cbn in *. by subst.
Qed.
Lemma clean_shrinks u n start l kv bs kv' res : layout kv bs -> uint 64 start -> l ⊆ bs -> tu_region_id u = r ->
  clean_buckets kv u n (MkScanRequest (KbIncluded (key_bytes (MkCommonKey r tb 0))) (KbExcluded (key_bytes (MkCommonKey r tb start))) false) l = (kv', res) ->
  shrinks kv kv' bs start.
Proof.
  revert kv. induction l as [|b l IH]; intros kv Hl Hst Hsub Hu Hc; cbn [clean_buckets] in Hc.
  { injection Hc as <- <-. by apply shrinks_refl. }
  assert (Hb : b ∈ bs) by (apply Hsub; by left). pose proof (la_tables _ _ Hl) as Htab. rewrite Forall_forall in Htab.
  destruct (Htab b Hb) as (name & t & Hn & Hv & Hall). rewrite Hu, (wal_shard_table_ok r b name Hn) in Hc. cbn [rbind] in Hc.
  destruct (kv_scan kv name _) as [iter|e|] eqn:Hscan; cbn [rcontext rbind] in Hc; [|injection Hc as <- <-; by apply shrinks_refl..].
  apply kv_scan_law in Hscan as (t1 & Hv1 & ->); [|apply Hl]. assert (t1 = t) as -> by congruence.
  destruct (log_table_of t Hall) as (es & Hes). rewrite (range_entries_below r tb start t es) in Hc by done.
  destruct (clean_logs_from_iter kv n name [] _) as [kv1 r1] eqn:Hci.
  apply (clean_iter_shrinks b name start n) with (bs := bs) in Hci; [|done| |done|done|constructor].
  - destruct r1 as [[]| |]; [|by injection Hc as <- <-..]. apply (shrinks_trans _ _ _ _ _ Hci).
    apply (IH kv1); [by apply (shrinks_layout _ _ _ _ Hl Hci)|done|set_solver|done|done].
  - by apply (range_old_keys t).
Qed.

(** *** The entry of the unit in the meta table *)
Definition meta_key : bytes := as_bytes (format_table_unit_key tb).
Definition meta_is (kv : K) (o : option Z) : Prop :=
  exists mt : table, kv_view kv !! meta_table = Some mt /\
  match o with
  | None => bt_get bytes_cmp meta_key mt = None
  | Some p => exists b, bt_get bytes_cmp meta_key mt = Some b /\ json_decode b = Some (MkUnitEntry tb p)
  end.
Lemma meta_is_view kv kv' o : kv_view kv' !! meta_table = kv_view kv !! meta_table -> meta_is kv o -> meta_is kv' o.
Proof. intros Heq (mt & Hv & Ho). exists mt. by rewrite Heq. Qed.
Lemma load_entry_ok kv o : kv_ok kv -> meta_is kv o ->
  match load_table_unit_entry kv meta_table tb with Ok e => e = MkUnitEntry tb <$> o | Err _ => True | Panic => False end.
Proof.
  intros Hkv (mt & Hv & Ho). unfold load_table_unit_entry. fold meta_key. destruct (kv_get kv meta_table meta_key) as [v| |] eqn:Hg; cbn [rcontext rbind].
  - apply kv_get_law in Hg as (mt' & Hv' & ->); [|done]. assert (mt' = mt) as -> by congruence. destruct o as [p|].
    + destruct Ho as (b & -> & Hd). by rewrite Hd.
    + by rewrite Ho.
  - done.
  - by apply kv_get_panic in Hg.
Qed.
(** A write of the entry. *)
Lemma meta_layout kv kv' bs : layout kv bs -> kv_ok kv' -> (forall n, n <> meta_table -> kv_view kv' !! n = kv_view kv !! n) ->
  layout kv' bs /\ forall s x, logged kv' bs s x <-> logged kv bs s x.
Proof.
  intros Hl Hok Hother. pose proof Hl as [_ _ Htab _ Hmeta Hord]. rewrite Forall_forall in Htab, Hmeta.
  pose proof (fun b (Hb : b ∈ bs) => bucket_same kv kv' b meta_table (Hmeta b Hb) Hother) as Hsame. split.
  - apply (layout_keep kv); [done|done|apply Forall_forall; intros b Hb; by apply (Hsame b Hb), Htab|].
    intros b1 b2 s1 x1 s2 x2 H1 H2. rewrite (proj2 (Hsame b1 H1)), (proj2 (Hsame b2 H2)). by apply (Hord b1 b2).
  - intros s x. unfold logged. split; intros (b & Hb & Hin); exists b; (split; [done|]); by apply (Hsame b Hb).
Qed.
Lemma meta_write kv bs o p v op kv' res : layout kv bs -> meta_is kv o -> json_decode v = Some (MkUnitEntry tb p) ->
  op = WInsert meta_key v \/ op = WInsertOrUpdate meta_key v -> kv_write kv meta_table [op] = (kv', res) ->
  layout kv' bs /\ (forall s x, logged kv' bs s x <-> logged kv bs s x) /\ res <> Panic /\
  (meta_is kv' (Some p) \/ meta_is kv' o /\ res <> Ok tt).
Proof.
  intros Hl Hm Hv Hop Hw. pose proof (la_kv _ _ Hl) as Hkv. assert (res <> Panic) as Hnp by (intros ->; by apply kv_write_panic in Hw).
  pose proof Hm as (mt & Hmt & _). apply kv_write_law in Hw as [Hok Hw]; [|done]. rewrite Hmt in Hw. destruct Hw as (ops & Hp & _ & Hview & Hres).
  destruct (meta_layout kv kv' bs Hl Hok) as [Hl' Hlog]; [intros n Hn; rewrite Hview; by apply lookup_insert_ne|]. split_and!; [done|done|done|].
  destruct ops as [|op' ops].
  - right. split; [|by intros Hr'; specialize (Hres Hr')]. apply (meta_is_view kv); [|done]. rewrite Hview. cbn. by rewrite lookup_insert_eq.
  - left. destruct Hp as [rest Hp]. injection Hp as <- Hp. symmetry in Hp. apply app_nil in Hp as [-> ->].
    exists (bt_insert bytes_cmp meta_key v mt). split; [rewrite Hview, lookup_insert_eq; by destruct Hop as [-> | ->]|]. exists v. split; [|done].
    apply (bt_get_elem bytes_cmp); [apply (apply_op_sorted mt (WInsert meta_key v)); by apply (kv_view_sorted kv Hkv meta_table)|].
    apply (bt_insert_iff bytes_cmp); [by apply (kv_view_sorted kv Hkv meta_table)|by left].
Qed.

(** *** Opening finds the last sequence *)
Lemma last_from_table kv b name : kv_ok kv -> bucket_ok kv b -> shard_of r b = Some name ->
  match load_last_sequence_from_table kv name r tb with
  | Ok None => forall s x, ~ in_bucket kv b (unit_key s x)
  | Ok (Some last) => (exists x, in_bucket kv b (unit_key last x)) /\ forall s x, in_bucket kv b (unit_key s x) -> s <= last
  | Err _ => True
  | Panic => False
  end.
Proof.
  intros Hkv (n0 & t & Hn & Hv & Hall) Hname. assert (n0 = name) as -> by congruence. destruct (log_table_of t Hall) as (es & Hes).
  assert (Hin : forall s x, in_bucket kv b (unit_key s x) <-> unit_key s x ∈ filter (of_unit r tb) es).
  { intros s x. rewrite list_elem_of_filter. split.
    - intros (Hk & n1 & t1 & Hn1 & Hv1 & Hx). split; [done|]. apply (log_table_elem t es); [done|done|]. congruence.
    - intros [_ Hx]. assert (key_ok (unit_key s x).1) as Hk by (destruct Hes as [_ Hk]; rewrite Forall_forall in Hk; by apply (Hk _ Hx)).
      split; [done|]. exists name, t. split_and!; [done|done|]. by apply (log_table_elem t es). }
  unfold load_last_sequence_from_table. rewrite !encode_key_ok. cbn [rcontext rbind]. unfold MIN_SEQUENCE_NUMBER, MAX_SEQUENCE_NUMBER.
  assert (uint 64 0) as H0 by u64. assert (uint 64 u64_max) as Hmax by u64.
  match goal with |- context [kv_scan ?a ?c ?q] => destruct (kv_scan a c q) as [l|e|] eqn:Hscan; cbn [rcontext rbind] end; [|done|].
  2: { apply kv_scan_panic in Hscan; [done|done|]. unfold range_ok. cbn [sq_start sq_end].
       rewrite key_bytes_order by (by split_and!). unfold common_key_cmp. cbn. by rewrite !Z.compare_refl. }
  apply kv_scan_law in Hscan as (t1 & Hv1 & ->); [|done]. assert (t1 = t) as -> by congruence.
  rewrite (range_entries r tb 0 u64_max true t es) by done. cbn zeta iota.
  pose proof (log_table_sorted _ _ Hes (kv_view_sorted kv Hkv name t Hv)) as Hsort.
  assert (filter (between r tb 0 u64_max) es = filter (of_unit r tb) es) as ->.
  { destruct Hes as [_ Hk]. rewrite Forall_forall in Hk. apply filter_iff_in. intros e He. specialize (Hk e He). destruct Hk as (_ & _ & Hs).
    unfold between, of_unit. split; [tauto|]. intros [? ?]. split_and!; [done|done|..]; u64. }
  pose proof (unit_sorted es Hsort) as Hs. 
  assert (Hk : Forall (fun e => of_unit r tb e /\ key_ok e.1) (filter (of_unit r tb) es)).
  { apply Forall_forall. intros e [? He]%list_elem_of_filter. split; [done|]. destruct Hes as [_ Hk]. rewrite Forall_forall in Hk. by apply Hk. }
  revert Hin Hs Hk. generalize (filter (of_unit r tb) es) as l. clear. intros l Hin Hs Hk.
  destruct l as [|e l _] using rev_ind.
  { cbn. intros s x Hx%Hin. set_solver. }
  rewrite fmap_app. cbn [fmap list_fmap]. rewrite rev_unit. unfold kv_of at 1. cbv beta iota. apply Forall_app in Hk as [_ Hk]. apply Forall_singleton in Hk as [[H1 H2] Hk].
  rewrite is_log_key_ok by done. cbn [rcontext rbind negb]. rewrite decode_key_ok by done. cbn [rcontext rbind]. split.
  - exists e.2. apply Hin. apply elem_of_app. right. apply list_elem_of_singleton. destruct e as [[? ? ?] ?]. cbn in *. by subst.
  - intros s x [Hx|<-%list_elem_of_singleton]%Hin%elem_of_app; [|cbn; lia]. apply StronglySorted_app in Hs as (Hlt & _ & _).
    specialize (Hlt _ e Hx ltac:(by left)). unfold seq_lt in Hlt. cbn in Hlt. lia.
Qed.
Lemma layout_init kv bs bs' : layout kv (bs ++ bs') -> layout kv bs.
Proof.
  intros [Hkv Ht Htab Hu Hm Ho]. apply StronglySorted_app in Ht as (_ & Ht & _). apply Forall_app in Htab as [Htab _]. apply Forall_app in Hm as [Hm _].
  split; [done|done|done| |done|].
  - intros b1 b2 n H1 H2. apply Hu; apply elem_of_app; by left.
  - intros b1 b2 s1 x1 s2 x2 H1 H2. apply (Ho b1 b2); apply elem_of_app; by left.
Qed.
Lemma logged_snoc kv bs b s x : logged kv (bs ++ [b]) s x <-> logged kv bs s x \/ in_bucket kv b (unit_key s x).
Proof.
  unfold logged. split.
  - intros (b' & [Hb| ->%list_elem_of_singleton]%elem_of_app & Hin); [left; by exists b'|by right].
  - intros [(b' & Hb & Hin)|Hin]; [exists b'|exists b]; (split; [apply elem_of_app|done]); [by left|right; by left].
Qed.
Lemma load_last_ok kv bs start : layout kv bs -> 0 <= start <= u64_max -> (forall s x, logged kv bs s x -> 0 <= s < u64_max) ->
  match load_last_sequence kv r tb bs start with
  | Ok last => 0 <= last < u64_max /\ start <= last + 1 /\ forall s x, logged kv bs s x -> s <= last
  | Err _ => True
  | Panic => False
  end.
Proof.
  unfold load_last_sequence. induction bs as [|b bs IH] using rev_ind; intros Hl Hs Hlim.
  { cbn. destruct (Z.ltb_spec 0 start); (split_and!; [unfold u64_max in *; lia..|]); intros s x (b & Hb & _); set_solver. }
  rewrite rev_app_distr. cbn [rev app load_last_loop]. pose proof (la_tables _ _ Hl) as Htab. apply Forall_app in Htab as [_ Hb].
  rewrite Forall_singleton in Hb. destruct Hb as (name & t & Hn & Hv & Hall). rewrite (wal_shard_table_ok r b name Hn). cbn [rbind].
  pose proof (last_from_table kv b name (la_kv _ _ Hl)) as Hlast. specialize (Hlast ltac:(by exists name, t) Hn).
  destruct (load_last_sequence_from_table kv name r tb) as [[last|]| |]; cbn [rbind]; [| |done|done].
  - destruct Hlast as [(x & Hx) Hmax]. assert (0 <= last < u64_max) as Hr' by (apply (Hlim last x), logged_snoc; by right).
    rewrite u64_op_ok by u64. cbn [rbind]. unfold ensure. destruct (Z.leb_spec start (last + 1)); cbn [rbind]; [|done].
    split_and!; [lia|lia|lia|]. intros s x' [(b' & Hb' & Hin)|Hin]%logged_snoc; [|by apply (Hmax s x')].
    apply Z.lt_le_incl, (la_order _ _ Hl b' b s x' last x); [apply elem_of_app; by left|apply elem_of_app; right; by left| |done|done].
    pose proof (la_time _ _ Hl) as Ht. apply StronglySorted_app in Ht as (Ht & _ & _). apply Ht; [done|by left].
  - specialize (IH (layout_init _ _ _ Hl) Hs). specialize (IH ltac:(intros s x Hx; apply (Hlim s x), logged_snoc; by left)).
    destruct (load_last_loop kv r tb (rev bs) start) as [last| |]; [|done|done]. destruct IH as (H1 & H2 & H3). split_and!; [lia|lia|done|].
    intros s x [Hin|Hin]%logged_snoc; [by apply (H3 s x)|by destruct (Hlast s x)].
Qed.

(** *** Operations of a unit on its log *)
Lemma open_or_create_ok kv bs o kv' res : layout kv bs -> meta_is kv o -> 0 <= default 0 o <= u64_max ->
  (forall s x, logged kv bs s x -> 0 <= s < u64_max) ->
  open_or_create kv meta_table r tb bs = (kv', res) ->
  layout kv' bs /\ (forall s x, logged kv' bs s x <-> logged kv bs s x) /\
  exists o', meta_is kv' o' /\ default 0 o' = default 0 o /\
  match res with
  | Ok u => exists last, u = MkUnitState r tb (default 0 o) last /\ o' <> None /\ 0 <= last < u64_max /\ default 0 o <= last + 1 /\
      forall s x, logged kv bs s x -> s <= last
  | Err _ => True
  | Panic => False
  end.
Proof.
  intros Hl Hm Hp Hlim Hop. unfold open_or_create in Hop. pose proof (load_entry_ok kv o (la_kv _ _ Hl) Hm) as Hload.
  assert (Hfin : forall kv1 p, layout kv1 bs -> (forall s x, logged kv1 bs s x <-> logged kv bs s x) -> meta_is kv1 (Some p) -> p = default 0 o ->
    (kv1, let? last := load_last_sequence (E:=E) kv1 r tb bs p in Ok (MkUnitState r tb p last)) = (kv', res) ->
    layout kv' bs /\ (forall s x, logged kv' bs s x <-> logged kv bs s x) /\
    exists o', meta_is kv' o' /\ default 0 o' = default 0 o /\
    match res with
    | Ok u => exists last, u = MkUnitState r tb (default 0 o) last /\ o' <> None /\ 0 <= last < u64_max /\ default 0 o <= last + 1 /\
        forall s x, logged kv bs s x -> s <= last
    | Err _ => True
    | Panic => False
    end).
  { intros kv1 p Hl1 Hlog1 Hm1 -> Heq. injection Heq as <- <-. split_and!; [done|done|]. eexists. split_and!; [done|done|].
    pose proof (load_last_ok kv1 bs (default 0 o) Hl1 Hp) as Hlast. specialize (Hlast ltac:(intros s x Hx; by apply (Hlim s x), Hlog1)).
    destruct (load_last_sequence kv1 r tb bs (default 0 o)) as [last| |]; cbn [rbind]; [|done|done]. destruct Hlast as (H1 & H2 & H3).
    exists last. split_and!; [done|done|lia|lia|lia|]. intros s x Hx. by apply (H3 s x), Hlog1. }
  destruct (load_table_unit_entry kv meta_table tb) as [e|e|]; [|injection Hop as <- <-; split_and!; [done|done|by exists o]|done].
  subst e. destruct o as [p|]; cbn [fmap option_fmap option_map] in Hop.
  { by apply (Hfin kv p). }
  unfold insert_or_load_table_unit_entry, table_unit_entry_new in Hop. destruct (json_roundtrip (MkUnitEntry tb MIN_SEQUENCE_NUMBER)) as (v & Henc & Hdec).
  rewrite Henc in Hop. cbn [te_table_id] in Hop. fold meta_key in Hop.
  destruct (kv_write kv meta_table [WInsert meta_key v]) as [kv1 r1] eqn:Hw.
  destruct (meta_write kv bs None MIN_SEQUENCE_NUMBER v (WInsert meta_key v) kv1 r1 Hl Hm Hdec ltac:(by left) Hw) as (Hl1 & Hlog1 & Hnp & Hm1).
  destruct r1 as [[]|e|]; [| |done].
  { destruct Hm1 as [Hm1|[_ ?]]; [|done]. by apply (Hfin kv1 MIN_SEQUENCE_NUMBER). }
  destruct (is_primary_key_duplicate e) eqn:Hdup.
  { apply kv_write_duplicate in Hw as (mt & Hv & Hfit); [|apply Hl|done]. destruct Hm as (mt' & Hv' & Hnone).
    assert (mt' = mt) as -> by congruence. cbn in Hfit. by rewrite Hnone in Hfit. }
  injection Hop as <- <-. split_and!; [done|done|]. destruct Hm1 as [Hm1|[Hm1 _]]; eexists; (split_and!; [done|done|done]).
Qed.
Lemma delete_ok kv bs o u seq kv' u' res : layout kv bs -> meta_is kv o -> tu_region_id u = r -> tu_table_id u = tb ->
  0 <= tu_start_sequence u <= tu_last_sequence u + 1 -> tu_last_sequence u < u64_max -> 0 <= seq ->
  delete_entries_up_to kv u meta_table seq = (kv', u', res) ->
  layout kv' bs /\ (forall s x, logged kv' bs s x <-> logged kv bs s x) /\ res <> Panic /\
  exists start o', u' = MkUnitState r tb start (tu_last_sequence u) /\ meta_is kv' o' /\
    tu_start_sequence u <= start <= tu_last_sequence u + 1 /\
    (res <> Ok tt /\ start = tu_start_sequence u /\
       (o' = o \/ exists p, o' = Some p /\ tu_start_sequence u <= p <= tu_last_sequence u + 1) \/
     res = Ok tt /\ o' = Some start /\ start = Z.max (tu_start_sequence u) (Z.min seq (tu_last_sequence u) + 1)).
Proof.
  intros Hl Hm Hur Hut Hst Hla Hseq Hd. assert (Hu : u = MkUnitState r tb (tu_start_sequence u) (tu_last_sequence u)) by (destruct u; cbn in *; by subst).
  unfold delete_entries_up_to in Hd. destruct (Z.ltb_spec seq MAX_SEQUENCE_NUMBER) as [Hlt|_].
  2: { injection Hd as <- <- <-. split_and!; [done|done|done|]. exists (tu_start_sequence u), o. split_and!; [done|done|lia|lia|]. left. by split_and!; [| |left]. }
  unfold MAX_SEQUENCE_NUMBER in Hlt.
  replace (if tu_last_sequence u <? seq then tu_last_sequence u else seq) with (Z.min seq (tu_last_sequence u)) in Hd
    by (destruct (Z.ltb_spec (tu_last_sequence u) seq); lia).
  set (start := Z.max (tu_start_sequence u) (Z.min seq (tu_last_sequence u) + 1)) in *.
  assert ((if tu_start_sequence u <=? Z.min seq (tu_last_sequence u) then u64_op (Z.min seq (tu_last_sequence u) + 1) else Ok (tu_start_sequence u))
    = Ok (E:=TableUnitError E) start) as Hstart.
  { unfold start. destruct (Z.leb_spec (tu_start_sequence u) (Z.min seq (tu_last_sequence u))); [rewrite u64_op_ok by u64|]; f_equal; lia. }
  rewrite Hstart in Hd. cbn beta iota in Hd. unfold update_table_unit_entry in Hd.
  destruct (json_roundtrip (MkUnitEntry (tu_table_id u) start)) as (v & Henc & Hdec). rewrite Henc in Hd. cbn [te_table_id] in Hd. rewrite Hut in *.
  fold meta_key in Hd. destruct (kv_write kv meta_table [WInsertOrUpdate meta_key v]) as [kv1 r1] eqn:Hw.
  destruct (meta_write kv bs o start v (WInsertOrUpdate meta_key v) kv1 r1 Hl Hm Hdec ltac:(by right) Hw) as (Hl1 & Hlog1 & Hnp & Hm1).
  assert (Hrange : tu_start_sequence u <= start <= tu_last_sequence u + 1) by (unfold start; lia).
  destruct r1 as [[]|e|]; cbn [rcontext] in Hd; [| |done]; injection Hd as <- <- <-; (split_and!; [done|done|done|]).
  - destruct Hm1 as [Hm1|[_ ?]]; [|done]. exists start, (Some start). split_and!; [by rewrite Hur|done|lia|lia|]. right. by split_and!.
  - exists (tu_start_sequence u). destruct Hm1 as [Hm1|[Hm1 _]]; eexists; (split_and!; [done|done|lia|lia|]); left; (split_and!; [done|done|]).
    + right. by exists start.
    + by left.
Qed.
Lemma open_ok kv bs o : layout kv bs -> meta_is kv o -> 0 <= default 0 o <= u64_max -> (forall s x, logged kv bs s x -> 0 <= s < u64_max) ->
  match open kv meta_table r tb bs with
  | Ok (Some u) => exists last, u = MkUnitState r tb (default 0 o) last /\ 0 <= last < u64_max /\ default 0 o <= last + 1 /\
      forall s x, logged kv bs s x -> s <= last
  | Ok None => o = None
  | Err _ => True
  | Panic => False
  end.
Proof.
  intros Hl Hm Hp Hlim. unfold open. pose proof (load_entry_ok kv o (la_kv _ _ Hl) Hm) as Hload.
  destruct (load_table_unit_entry kv meta_table tb) as [e| |]; cbn [rbind]; [|done|done]. subst e. destruct o as [p|]; [|done].
  cbn [fmap option_fmap option_map te_start_sequence default from_option id] in *. pose proof (load_last_ok kv bs p Hl Hp Hlim) as Hlast.
  destruct (load_last_sequence kv r tb bs p) as [last| |]; cbn [rbind]; [|done|done]. destruct Hlast as (H1 & H2 & H3). exists last. by split_and!; [|lia|lia| |].
Qed.

(** *** The system *)
Record USys := MkSys {
  us_kv : K;
  us_buckets : list Bucket;
  us_unit : option TableUnitState;
  us_acked : list (Z * bytes);
  us_tried : list (Z * bytes)
}.
(** Operations of the unit; [us_close] is a restart.  A write goes to a bucket after
    which there is nothing of the unit; its entries are acknowledged if it succeeds. *)
Inductive us_op : USys -> USys -> Prop :=
| us_close kv bs o acked tried :
    us_op (MkSys kv bs o acked tried) (MkSys kv bs None acked tried)
| us_open kv bs u acked tried :
    open kv meta_table r tb bs = Ok (Some u) ->
    us_op (MkSys kv bs None acked tried) (MkSys kv bs (Some u) acked tried)
| us_create kv bs acked tried kv' res :
    open_or_create kv meta_table r tb bs = (kv', res) ->
    us_op (MkSys kv bs None acked tried) (MkSys kv' bs (match res with Ok u => Some u | _ => None end) acked tried)
| us_write kv bs u acked tried b ps kv' u' res :
    b ∈ bs -> (forall b' s x, b' ∈ bs -> gmt_start_ms b < gmt_start_ms b' -> ~ in_bucket kv b' (unit_key s x)) ->
    tu_last_sequence u + len ps < u64_max -> write_log kv u b (unit_batch ps) = (kv', u', res) ->
    us_op (MkSys kv bs (Some u) acked tried)
      (MkSys kv' bs (Some u') (match res with Ok _ => acked ++ number (tu_last_sequence u + 1) ps | _ => acked end)
        (tried ++ number (tu_last_sequence u + 1) ps))
| us_delete kv bs u acked tried sequence_num kv' u' res :
    0 <= sequence_num -> delete_entries_up_to kv u meta_table sequence_num = (kv', u', res) ->
    us_op (MkSys kv bs (Some u) acked tried) (MkSys kv' bs (Some u') acked tried)
| us_clean kv bs u acked tried batch_size kv' res :
    clean_deleted_logs kv u batch_size bs = (kv', res) ->
    us_op (MkSys kv bs (Some u) acked tried) (MkSys kv' bs (Some u) acked tried).
(** With the steps of others: the other users of the tables; a new bucket; a bucket in
    which all of the unit is deleted goes out of use. *)
Definition below_start (kv : K) (o : option TableUnitState) (s : Z) : Prop :=
  match o with Some u => s < tu_start_sequence u | None => forall p, meta_is kv p -> s < default 0 p end.
Inductive us_step : USys -> USys -> Prop :=
| us_do sys sys' : us_op sys sys' -> us_step sys sys'
| us_other kv kv' bs o acked tried :
    kv_ok kv' -> Forall (bucket_ok kv') bs ->
    (forall b s x, b ∈ bs -> in_bucket kv' b (unit_key s x) <-> in_bucket kv b (unit_key s x)) ->
    (forall p, meta_is kv p -> meta_is kv' p) ->
    us_step (MkSys kv bs o acked tried) (MkSys kv' bs o acked tried)
| us_bucket kv bs1 bs2 b o acked tried :
    by_time (bs1 ++ b :: bs2) -> bucket_ok kv b -> shard_of r b <> Some meta_table -> Forall (fun b' => shard_of r b' <> shard_of r b) (bs1 ++ bs2) ->
    (forall s x, ~ in_bucket kv b (unit_key s x)) ->
    us_step (MkSys kv (bs1 ++ bs2) o acked tried) (MkSys kv (bs1 ++ b :: bs2) o acked tried)
| us_purge kv b bs1 bs2 o acked tried :
    (forall s x, in_bucket kv b (unit_key s x) -> below_start kv o s) ->
    us_step (MkSys kv (bs1 ++ b :: bs2) o acked tried) (MkSys kv (bs1 ++ bs2) o acked tried).
Inductive us_start : USys -> Prop :=
| us_init kv bs : layout kv bs -> meta_is kv None -> (forall s x, ~ logged kv bs s x) -> us_start (MkSys kv bs None [] []).

Definition unit_inv (kv : K) (bs : list Bucket) (o : option TableUnitState) (acked : list (Z * bytes)) (p : Z) : Prop :=
  match o with
  | Some u => tu_region_id u = r /\ tu_table_id u = tb /\ 0 <= tu_start_sequence u <= p /\ p <= tu_last_sequence u + 1 /\
      0 <= tu_last_sequence u < u64_max /\ (forall s x, logged kv bs s x -> s <= tu_last_sequence u) /\
      forall s x, (s, x) ∈ acked -> s <= tu_last_sequence u /\ (s < tu_start_sequence u \/ logged kv bs s x)
  | None => forall s x, (s, x) ∈ acked -> s < p \/ logged kv bs s x
  end.
Record us_inv (sys : USys) : Prop := {
  ui_layout : layout (us_kv sys) (us_buckets sys);
  ui_sorted : StronglySorted (fun a b : Z * bytes => a.1 < b.1) (us_acked sys);
  ui_logged : forall s x, logged (us_kv sys) (us_buckets sys) s x -> (s, x) ∈ us_tried sys /\ 0 <= s < u64_max;
  ui_meta : exists o, meta_is (us_kv sys) o /\ 0 <= default 0 o <= u64_max /\
    unit_inv (us_kv sys) (us_buckets sys) (us_unit sys) (us_acked sys) (default 0 o)
}.
Lemma unit_inv_logged kv kv' bs bs' o acked p : (forall s x, logged kv' bs' s x <-> logged kv bs s x) ->
  unit_inv kv bs o acked p -> unit_inv kv' bs' o acked p.
Proof.
  intros Hlog Hi. destruct o as [u|]; cbn in *.
  - destruct Hi as (H1 & H2 & H3 & H4 & H5 & H6 & H7). split_and!; try done; try lia; [intros s x Hx; by apply (H6 s x), Hlog|].
    intros s x Hx. destruct (H7 s x Hx) as [Ha Hb]. split; [done|]. by rewrite Hlog.
  - intros s x Hx. rewrite Hlog. by apply Hi.
Qed.
(** A step that keeps the entries of the unit. *)
Lemma inv_same kv kv' bs bs' o o' acked tried : us_inv (MkSys kv bs o acked tried) -> layout kv' bs' ->
  (forall s x, logged kv' bs' s x <-> logged kv bs s x) ->
  (forall p, meta_is kv p -> 0 <= default 0 p <= u64_max -> unit_inv kv bs o acked (default 0 p) ->
    exists p', meta_is kv' p' /\ 0 <= default 0 p' <= u64_max /\ unit_inv kv bs o' acked (default 0 p')) ->
  us_inv (MkSys kv' bs' o' acked tried).
Proof.
  intros [_ Hs Hlo (p & Hm & Hp & Hu)] Hl Hlog Hmeta. cbn in *. split; cbn; [done|done|intros s x Hx; by apply Hlo, Hlog|].
  destruct (Hmeta p Hm Hp Hu) as (p' & Hm' & Hp' & Hu'). exists p'. split_and!; [done|lia|lia|]. by apply (unit_inv_logged kv kv' bs bs').
Qed.
Lemma inv_other kv kv' bs o acked tried : kv_ok kv' -> Forall (bucket_ok kv') bs ->
  (forall b s x, b ∈ bs -> in_bucket kv' b (unit_key s x) <-> in_bucket kv b (unit_key s x)) ->
  (forall p, meta_is kv p -> meta_is kv' p) ->
  us_inv (MkSys kv bs o acked tried) -> us_inv (MkSys kv' bs o acked tried).
Proof.
  intros Hok Htab Hsame Hmeta Hi. apply (inv_same kv kv' bs bs o o); [done| | |].
  - apply (layout_keep kv); [apply Hi|done|done|]. intros b1 b2 s1 x1 s2 x2 H1 H2.
    rewrite !Hsame by done. by apply (la_order _ _ (ui_layout _ Hi) b1 b2).
  - intros s x. unfold logged. split; intros (b & Hb & Hx); exists b; (split; [done|]); by apply (Hsame b s x Hb).
  - intros p Hm Hp Hu. exists p. auto.
Qed.
Lemma logged_middle kv bs1 b bs2 s x : logged kv (bs1 ++ b :: bs2) s x <-> logged kv (bs1 ++ bs2) s x \/ in_bucket kv b (unit_key s x).
Proof.
  unfold logged. split.
  - intros (b' & Hb & Hin). apply elem_of_app in Hb as [Hb|[->|Hb]%elem_of_cons]; [left| by right|left]; exists b'; (split; [apply elem_of_app|done]); tauto.
  - intros [(b' & Hb & Hin)|Hin]; [exists b'|exists b]; (split; [|done]); rewrite elem_of_app, elem_of_cons; [apply elem_of_app in Hb|]; tauto.
Qed.
Lemma inv_bucket kv bs1 bs2 b o acked tried : by_time (bs1 ++ b :: bs2) -> bucket_ok kv b -> shard_of r b <> Some meta_table ->
  Forall (fun b' => shard_of r b' <> shard_of r b) (bs1 ++ bs2) -> (forall s x, ~ in_bucket kv b (unit_key s x)) ->
  us_inv (MkSys kv (bs1 ++ bs2) o acked tried) -> us_inv (MkSys kv (bs1 ++ b :: bs2) o acked tried).
Proof.
  intros Ht Hb Hm Hfresh Hempty Hi. pose proof (ui_layout _ Hi) as [Hkv _ Htab Huniq Hmeta Hord]. cbn in *. rewrite Forall_forall in Hfresh.
  assert (Hmem : forall b', b' ∈ bs1 ++ b :: bs2 <-> b' = b \/ b' ∈ bs1 ++ bs2) by (intros b'; rewrite !elem_of_app, elem_of_cons; tauto).
  apply (inv_same kv kv (bs1 ++ bs2) (bs1 ++ b :: bs2) o o); [done| | |intros p Hp ? ?; by exists p].
  - rewrite Forall_forall in Htab, Hmeta. split; [done|done|apply Forall_forall; by intros b' [->|?]%Hmem; auto| |apply Forall_forall; by intros b' [->|?]%Hmem; auto|].
    + intros b1 b2 n [->|H1]%Hmem [->|H2]%Hmem Hn1 Hn2; [done| | |by apply (Huniq b1 b2 n)].
      * destruct (Hfresh b2 H2). congruence.
      * destruct (Hfresh b1 H1). congruence.
    + intros b1 b2 s1 x1 s2 x2 [->|H1]%Hmem [->|H2]%Hmem Hlt Hx1 Hx2; [by destruct (Hempty s1 x1)..| |by apply (Hord b1 b2 s1 x1 s2 x2)].
      by destruct (Hempty s2 x2).
  - intros s x. rewrite logged_middle. split; [|by left]. intros [?|Hx]; [done|]. by destruct (Hempty s x).
Qed.
Lemma inv_purge kv b bs1 bs2 o acked tried : (forall s x, in_bucket kv b (unit_key s x) -> below_start kv o s) ->
  us_inv (MkSys kv (bs1 ++ b :: bs2) o acked tried) -> us_inv (MkSys kv (bs1 ++ bs2) o acked tried).
Proof.
  intros Hold [[Hkv Ht Htab Huniq Hmeta Hord] Hs Hlo (p & Hm & Hp & Hu)]. cbn in *.
  assert (Hmem : forall b', b' ∈ bs1 ++ bs2 -> b' ∈ bs1 ++ b :: bs2) by (intros b'; rewrite !elem_of_app, elem_of_cons; tauto).
  rewrite Forall_forall in Htab, Hmeta. split; cbn; [|done|intros s x Hx; apply Hlo, logged_middle; by left|].
  - split; [done| |apply Forall_forall; auto|intros b1 b2 n H1 H2; apply Huniq; auto|apply Forall_forall; auto|intros b1 b2 s1 x1 s2 x2 H1 H2; apply (Hord b1 b2); auto].
    apply StronglySorted_app in Ht as (H1 & H2 & H3). apply StronglySorted_inv in H3 as [H3 _]. apply StronglySorted_app. split_and!; [|done|done].
    intros x y Hx Hy. apply H1; [done|by right].
  - exists p. split; [done|split; [lia|]]. destruct o as [u|].
    2: { intros s x Hx. destruct (Hu s x Hx) as [?|[?|Hin]%logged_middle]; [by left|by right|]. left. by apply (Hold s x). }
    destruct Hu as (H1 & H2 & H3 & H4 & H5 & H6 & H7). unfold unit_inv. split_and!; try done; try lia.
    + intros s x Hx. apply (H6 s x), logged_middle. by left.
    + intros s x Hx. destruct (H7 s x Hx) as [Hle Hor]. split; [done|]. destruct Hor as [?|[?|Hin]%logged_middle]; [by left|by right|].
      left. by apply (Hold s x).
Qed.
Lemma inv_opened kv bs acked p u last : u = MkUnitState r tb p last -> 0 <= p <= last + 1 -> 0 <= last < u64_max ->
  (forall s x, logged kv bs s x -> s <= last) -> unit_inv kv bs None acked p -> unit_inv kv bs (Some u) acked p.
Proof.
  intros -> Hp Hla Hlog Hi. cbn in *. split_and!; try done; try lia. intros s x Hx. destruct (Hi s x Hx) as [Hlt|Hin].
  - split; [lia|by left].
  - split; [by apply (Hlog s x)|by right].
Qed.
Lemma inv_close kv bs o acked tried : us_inv (MkSys kv bs o acked tried) -> us_inv (MkSys kv bs None acked tried).
Proof.
  intros Hi. apply (inv_same kv kv bs bs o None); [done|apply Hi|done|]. intros p Hm Hp Hu. exists p. split; [done|split; [lia|]].
  destruct o as [u|]; [|done]. destruct Hu as (_ & _ & H3 & H4 & _ & _ & H7). intros s x Hx. destruct (H7 s x Hx) as [_ [?|?]]; [left; lia|by right].
Qed.
Lemma inv_open kv bs u acked tried : open kv meta_table r tb bs = Ok (Some u) ->
  us_inv (MkSys kv bs None acked tried) -> us_inv (MkSys kv bs (Some u) acked tried).
Proof.
  intros Ho Hi. apply (inv_same kv kv bs bs None (Some u)); [done|apply Hi|done|]. intros p Hm Hp Hu. exists p. split; [done|split; [lia|]].
  pose proof (open_ok kv bs p (ui_layout _ Hi) Hm Hp) as Hok. rewrite Ho in Hok.
  destruct Hok as (last & -> & H1 & H2 & H3); [intros s x Hx; by apply (ui_logged _ Hi) in Hx as [_ ?]|]. by apply (inv_opened _ _ _ _ _ last); [|lia| | |].
Qed.
Lemma inv_create kv bs acked tried kv' res : open_or_create kv meta_table r tb bs = (kv', res) ->
  us_inv (MkSys kv bs None acked tried) -> us_inv (MkSys kv' bs (match res with Ok u => Some u | _ => None end) acked tried).
Proof.
  intros Ho Hi. pose proof (ui_meta _ Hi) as (p0 & Hm0 & Hp0 & _). cbn in *.
  destruct (open_or_create_ok kv bs p0 kv' res (ui_layout _ Hi) Hm0 Hp0) as (Hl & Hlog & _); [|done|].
  { intros s x Hx. by apply (ui_logged _ Hi) in Hx as [_ ?]. }
  apply (inv_same kv kv' bs bs None); [done|done|done|]. intros p Hm Hp Hu.
  destruct (open_or_create_ok kv bs p kv' res (ui_layout _ Hi) Hm Hp) as (_ & _ & o' & Hm' & Hd & Hres); [|done|].
  { intros s x Hx. by apply (ui_logged _ Hi) in Hx as [_ ?]. }
  exists o'. rewrite Hd. split; [done|split; [lia|]]. destruct res as [u| |]; [|done|done].
  destruct Hres as (last & -> & _ & H1 & H2 & H3). by apply (inv_opened _ _ _ _ _ last); [|lia| | |].
Qed.
Lemma inv_write kv bs u acked tried b ps kv' u' res : b ∈ bs ->
  (forall b' s x, b' ∈ bs -> gmt_start_ms b < gmt_start_ms b' -> ~ in_bucket kv b' (unit_key s x)) ->
  tu_last_sequence u + len ps < u64_max -> write_log kv u b (unit_batch ps) = (kv', u', res) ->
  us_inv (MkSys kv bs (Some u) acked tried) ->
  us_inv (MkSys kv' bs (Some u') (match res with Ok _ => acked ++ number (tu_last_sequence u + 1) ps | _ => acked end)
    (tried ++ number (tu_last_sequence u + 1) ps)).
Proof.
  intros Hb Hlast Hlen Hw [Hl Hs Hlo (p & Hm & Hp & (H1 & H2 & H3 & H4 & H5 & H6 & H7))]. cbn in *.
  rewrite write_log_number in Hw by lia. pose proof (la_tables _ _ Hl) as Htab. rewrite Forall_forall in Htab.
  pose proof (Htab b Hb) as Hbok. pose proof Hbok as (name & t & Hn & Hv & _). rewrite Hn in Hw.
  set (new := number (tu_last_sequence u + 1) ps) in *.
  assert (Hnew : forall e, e ∈ new -> tu_last_sequence u < e.1 <= tu_last_sequence u + len ps) by (intros e He%number_elem; lia).
  assert (Hnew64 : Forall (fun e : Z * bytes => uint 64 e.1) new) by (apply Forall_forall; intros e He%Hnew; u64).
  destruct (kv_write kv name (entry_ops new)) as [kv1 r1] eqn:Hkw.
  apply (entry_write kv b name new) in Hkw as (Hok & fin & Hpre & Hadd & Hdone); [|apply Hl|done|done|apply number_sorted|done|].
  2: { intros e x He Hin. assert (e.1 <= tu_last_sequence u) by (apply (H6 e.1 x); by exists b). specialize (Hnew e He). lia. }
  assert (Hsub : forall e, e ∈ fin -> e ∈ new) by (intros e He; destruct Hpre as [rest ->]; apply elem_of_app; by left).
  destruct (adds_layout kv kv1 bs b fin Hl Hok Hb Hadd) as (Hl' & Hlog & Hmeta); [| |done|].
  { apply Forall_forall. intros e He%Hsub. rewrite Forall_forall in Hnew64. by apply Hnew64. }
  { intros s x Hx. apply Forall_forall. intros e He%Hsub%Hnew. specialize (H6 s x Hx). lia. }
  injection Hw as <- <- <-. split; cbn.
  - done.
  - destruct r1; [|done..]. cbn. apply StronglySorted_app. split_and!; [|done|apply number_sorted].
    intros [s x] e Ha He%Hnew. destruct (H7 s x Ha) as [Hle _]. cbn. lia.
  - intros s x [Hx|Hx]%Hlog.
    + destruct (Hlo s x Hx). split; [apply elem_of_app; by left|lia].
    + apply Hsub in Hx. split; [apply elem_of_app; by right|]. apply Hnew in Hx. cbn in Hx. lia.
  - exists p. split; [by apply (meta_is_view kv)|split; [lia|]]. split_and!; cbn; try done; try lia.
    + intros s x [Hx|Hx]%Hlog; [specialize (H6 s x Hx); lia|]. apply Hsub, Hnew in Hx. cbn in Hx. lia.
    + assert (Ha : forall s x, (s, x) ∈ acked -> s <= tu_last_sequence u + len ps /\ (s < tu_start_sequence u \/ logged kv1 bs s x)).
      { intros s x Hx. destruct (H7 s x Hx) as [Hle Hor]. split; [lia|]. rewrite Hlog. tauto. }
      destruct r1 as [[]| |]; cbn; [|done|done]. intros s x [Hx|Hx]%elem_of_app; [by apply Ha|]. split; [apply Hnew in Hx; cbn in Hx; lia|].
      right. apply Hlog. right. by rewrite (Hdone eq_refl).
Qed.
Lemma inv_delete kv bs u acked tried seq kv' u' res : 0 <= seq -> delete_entries_up_to kv u meta_table seq = (kv', u', res) ->
  us_inv (MkSys kv bs (Some u) acked tried) -> us_inv (MkSys kv' bs (Some u') acked tried).
Proof.
  intros Hseq Hd Hi. pose proof (ui_meta _ Hi) as (p0 & Hm0 & Hp0 & Hu0). cbn in Hm0, Hp0, Hu0.
  assert (Hdel : forall p, meta_is kv p -> unit_inv kv bs (Some u) acked (default 0 p) -> _) by
    (intros p Hm (H1 & H2 & H3 & H4 & H5 & _); exact (delete_ok kv bs p u seq kv' u' res (ui_layout _ Hi) Hm H1 H2 ltac:(lia) ltac:(lia) Hseq Hd)).
  destruct (Hdel p0 Hm0 Hu0) as (Hl & Hlog & _). apply (inv_same kv kv' bs bs (Some u)); [done|done|done|]. intros p Hm Hp Hu.
  destruct (Hdel p Hm Hu) as (_ & _ & _ & start & o' & -> & Hm' & Hst & Hor). destruct Hu as (H1 & H2 & H3 & H4 & H5 & H6 & H7). exists o'.
  assert (start <= default 0 o' <= tu_last_sequence u + 1).
  { destruct Hor as [(_ & -> & [->|(q & -> & Hq)])|(_ & -> & _)]; cbn [default from_option id]; unfold id in *; lia. }
  split; [done|split; [unfold u64_max in *; lia|]]. split_and!; cbn; try done; try lia. intros s x Hx. destruct (H7 s x Hx) as [Hle [Hlt|Hin]]; (split; [done|]); [left; lia|by right].
Qed.
Lemma inv_clean kv bs u acked tried n kv' res : clean_deleted_logs kv u n bs = (kv', res) ->
  us_inv (MkSys kv bs (Some u) acked tried) -> us_inv (MkSys kv' bs (Some u) acked tried).
Proof.
  intros Hc [Hl Hs Hlo (p & Hm & Hp & (H1 & H2 & H3 & H4 & H5 & H6 & H7))]. cbn in *. unfold clean_deleted_logs in Hc.
  rewrite !encode_key_ok, H1, H2 in Hc. cbn [rcontext rbind] in Hc.
  apply (clean_shrinks u n (tu_start_sequence u) bs kv bs) in Hc as Hsh; [|done|u64|done|done].
  destruct (shrinks_logged _ _ _ _ Hsh) as [Hsub Hkeep]. split; cbn.
  - by apply (shrinks_layout _ _ _ _ Hl Hsh).
  - done.
  - intros s x Hx. by apply Hlo, Hsub.
  - exists p. split; [apply (meta_is_view kv); [apply Hsh|done]|split; [lia|]]. split_and!; cbn; try done; try lia.
    + intros s x Hx. by apply (H6 s x), Hsub.
    + intros s x Hx. destruct (H7 s x Hx) as [Hle [Hlt|Hin]]; (split; [done|]); [by left|]. destruct (Z.lt_ge_cases s (tu_start_sequence u)); [by left|].
      right. by apply Hkeep.
Qed.
Lemma us_step_inv sys sys' : us_step sys sys' -> us_inv sys -> us_inv sys'.
Proof.
  intros [? ? Hop| | |] Hi; [|by apply (inv_other kv)|by apply inv_bucket|by eapply inv_purge].
  destruct Hop; [by eapply inv_close|by apply inv_open|by eapply inv_create|by eapply inv_write|by eapply inv_delete|by eapply inv_clean].
Qed.
Lemma us_start_inv sys : us_start sys -> us_inv sys.
Proof.
  intros [kv bs Hl Hm Hno]. split; cbn; [done|constructor|intros s x Hx; by destruct (Hno s x)|]. exists None.
  split; [done|split; [done|]]. intros s x Hx. set_solver.
Qed.
Lemma unit_key_of e : of_unit r tb e -> e = unit_key (ck_sequence_num e.1) e.2.
Proof. intros [H1 H2]. destruct e as [[? ? ?] ?]. cbn in *. by subst. Qed.
Lemma stored_tried sys ess : us_inv sys -> StronglySorted seq_lt (stored ess) ->
  (forall s x, unit_key s x ∈ stored ess <-> logged (us_kv sys) (us_buckets sys) s x) -> (length (stored ess) <= length (us_tried sys))%nat.
Proof.
  intros Hi Hs Hel. rewrite <- (length_fmap (fun e : entry => (ck_sequence_num e.1, e.2)) (stored ess)). apply NoDup_incl_length.
  - apply NoDup_ListNoDup. clear Hel. induction Hs as [|e l Hs IH Hf]; [constructor|]. cbn [fmap list_fmap]. constructor; [|done].
    intros (e' & Heq & Hin)%list_elem_of_fmap. rewrite Forall_forall in Hf. specialize (Hf e' Hin). unfold seq_lt in Hf. injection Heq as Heq _. lia.
  - intros y Hy. apply list_elem_of_In. apply list_elem_of_In, list_elem_of_fmap in Hy as (e & -> & He).
    apply (ui_logged _ Hi), Hel. rewrite <- (unit_key_of e); [done|by eapply stored_unit].
Qed.

(** Reading an open unit gives what is left of what was written. *)
Definition reads_log (sys : USys) (start stop : ReadBoundary) (read : res (TableUnitError E) (list LogEntry)) : Prop :=
  match us_unit sys, read with
  | Some u, Ok l =>
      StronglySorted (fun a b => le_sequence a < le_sequence b) l /\
      Forall (fun e => le_table_id e = tb /\ (le_sequence e, le_payload e) ∈ us_tried sys /\ in_bounds start stop (le_sequence e) /\
        tu_start_sequence u <= le_sequence e) l /\
      Forall (fun e : Z * bytes => in_bounds start stop e.1 -> tu_start_sequence u <= e.1 -> MkLogEntry tb e.1 e.2 ∈ l) (us_acked sys)
  | _, Err e => scan_error e
  | _, _ => False
  end.
Lemma read_inv sys u start stop batch_size fuel : us_inv sys -> us_unit sys = Some u -> boundary_ok start -> boundary_ok stop -> (0 < batch_size)%nat ->
  (length (us_tried sys) < fuel)%nat ->
  reads_log sys start stop (read_batches (us_kv sys) fuel batch_size (Some (read_log u (us_buckets sys) (MkLocation r tb) start stop))).
Proof.
  intros Hi Hu Hb1 Hb2 Hn Hf. unfold reads_log. rewrite Hu.
  destruct (layout_log _ _ (ui_layout _ Hi)) as (ess & Hbl & Hso & Hok & Hel). pose proof (stored_tried sys ess Hi Hso Hel) as Hlen.
  pose proof (ui_meta _ Hi) as (p & _ & Hp & Hinv). rewrite Hu in Hinv. destruct Hinv as (H1 & H2 & H3 & H4 & H5 & H6 & H7).
  pose proof (read_layout _ _ u start stop batch_size fuel ess (ui_layout _ Hi) ltac:(u64) ltac:(u64) Hb1 Hb2 Hn Hbl Hso Hok ltac:(lia)) as Hread.
  destruct (read_batches _ _ _ _) as [l|e|]; [|done|done]. destruct Hread as (es & -> & Hs & Hes). split_and!.
  - clear - Hs. induction Hs as [|e l Hs IH Hx]; [constructor|]. cbn [fmap list_fmap]. constructor; [done|]. by apply Forall_fmap.
  - apply Forall_fmap, Forall_forall. intros e He%Hes. destruct He as (He & Hin & Hr1).
    assert (of_unit r tb e) as [Ha Hb] by (by eapply stored_unit). unfold compose. cbn [entry_of le_table_id le_sequence le_payload].
    split_and!; [done| |done|lia]. apply (ui_logged _ Hi), Hel. by rewrite <- (unit_key_of e).
  - apply Forall_forall. intros [s x] Hx Hin Hle. destruct (H7 s x Hx) as [Hla [?|Hlog]]; [cbn in *; lia|]. apply list_elem_of_fmap.
    exists (unit_key s x). split; [done|]. apply Hes. split_and!; [by apply Hel|done|cbn in *; lia|cbn in *; lia].
Qed.
End system.
