(* ===== verification/WalUnits.v ===== *)
(** * Many table units over the same tables

    The operations of a table unit keep the logs of all other tables, so a system
    of any number of units over the buckets of one namespace refines one log for
    each table: the steps of others that [UnitLog] allows are the operations of the
    other units.  At the end are runs on the tables in memory, and what happens
    outside of the steps. *)

From Stdlib Require Import ZArith Lia String.
From stdpp Require Import base tactics option list sorting numbers gmap strings pretty.
From S2P Require Import Prelude Bytes Datum Varint MemComparable BTree TableKv KvEncoder TableUnit UnitLog.

#[local] Open Scope Z_scope.

(** ** Keys *)
#[local] Instance byte_inj : Inj (=) (=) (fun a => Z.of_N (Ascii.N_of_ascii a)).
Proof. intros a b Hab%N2Z.inj. rewrite <- (Ascii.ascii_N_embedding a), <- (Ascii.ascii_N_embedding b). by rewrite Hab. Qed.
Lemma as_bytes_inj s1 s2 : as_bytes s1 = as_bytes s2 -> s1 = s2.
Proof.
  unfold as_bytes. intros Heq. apply (inj (fmap (fun a => Z.of_N (Ascii.N_of_ascii a)))) in Heq.
  rewrite <- (String.string_of_list_ascii_of_string s1), <- (String.string_of_list_ascii_of_string s2). by rewrite Heq.
Qed.
Lemma table_unit_key_inj t1 t2 : 0 <= t1 -> 0 <= t2 -> meta_key t1 = meta_key t2 -> t1 = t2.
Proof.
  unfold meta_key. intros H1 H2 Heq%as_bytes_inj. unfold format_table_unit_key in Heq. apply (inj (String.append _)) in Heq.
  apply (inj (String.append _)) in Heq. apply (inj pretty) in Heq. lia.
Qed.

(** ** The frame of a unit *)
Section frame.
Context {K E : Type} {KV : TableKv K E} {KL : TableKvLaws K E} {JC : JsonCodec TableUnitEntry}.
Context (r tb : Z) (Hr : uint 64 r) (Htb : uint 64 tb) (meta_table : string).
Context (r2 tb2 : Z) (Hr2 : uint 64 r2) (Htb2 : uint 64 tb2) (meta_table2 : string) (Hne : tb <> tb2).

Record keeps (kv kv' : K) (bs : list Bucket) : Prop := {
  ke_ok : kv_ok kv';
  ke_tables : Forall (bucket_ok r kv') bs;
  ke_log : forall b s x, b ∈ bs -> in_bucket r kv' b (unit_key r tb s x) <-> in_bucket r kv b (unit_key r tb s x);
  ke_meta : forall p, meta_is tb meta_table kv p -> meta_is tb meta_table kv' p
}.
Lemma keeps_step kv kv' bs o acked tried : keeps kv kv' bs -> us_step r tb meta_table (MkSys kv bs o acked tried) (MkSys kv' bs o acked tried).
Proof. intros []. by apply us_other. Qed.
Lemma keeps_refl kv bs : layout r tb meta_table kv bs -> keeps kv kv bs.
Proof. intros []. by split. Qed.
Lemma keeps_trans kv1 kv2 kv3 bs : keeps kv1 kv2 bs -> keeps kv2 kv3 bs -> keeps kv1 kv3 bs.
Proof.
  intros [_ _ Hl1 Hm1] [Ho Ht Hl2 Hm2]. split; [done|done| |intros p Hp; by apply Hm2, Hm1]. intros b s x Hb. rewrite Hl2 by done. by apply Hl1.
Qed.
Lemma keeps_layout kv kv' bs : layout r tb meta_table kv bs -> keeps kv kv' bs -> layout r tb meta_table kv' bs.
Proof.
  intros Hl [Hok Htab Hlog _]. apply (layout_keep r tb meta_table kv); [done|done|done|]. intros b1 b2 s1 x1 s2 x2 H1 H2.
  rewrite !Hlog by done. by apply (la_order _ _ _ _ _ Hl).
Qed.
Lemma keeps_view kv kv' bs : layout r tb meta_table kv bs -> kv_ok kv' -> kv_view kv' = kv_view kv -> keeps kv kv' bs.
Proof.
  intros Hl Hok Hv. pose proof (la_tables _ _ _ _ _ Hl) as Ht. split; [done| | |].
  - eapply Forall_impl; [exact Ht|]. intros b (n & t & Hn & Hvt & Hall). exists n, t. by rewrite Hv.
  - intros b s x _. unfold in_bucket. by rewrite Hv.
  - intros p. by apply meta_is_view; rewrite Hv.
Qed.

(** Writes of entries of the other unit. *)
Definition foreign (op : WriteOp) : Prop :=
  exists s, uint 64 s /\ let k := key_bytes (MkCommonKey r2 tb2 s) in op = WDelete k \/ exists v, op = WInsert k (0 :: v).
Lemma foreign_key s s2 : uint 64 s -> uint 64 s2 -> key_bytes (MkCommonKey r tb s) <> key_bytes (MkCommonKey r2 tb2 s2).
Proof. intros Hs Hs2 Heq. apply key_bytes_inj in Heq; [|by split_and!..]. congruence. Qed.
Lemma foreign_ops ops t : Forall foreign ops -> table_sorted t ->
  (forall x, x ∈ foldl apply_op t ops -> x ∈ t \/ exists e, x = kv_of e /\ key_ok e.1) /\
  (forall s x, uint 64 s -> kv_of (unit_key r tb s x) ∈ foldl apply_op t ops <-> kv_of (unit_key r tb s x) ∈ t).
Proof.
  intros Hf. revert t. induction Hf as [|op ops Hop Hf IH]; intros t Ht; [cbn; split; [by left|done]|]. cbn [foldl].
  destruct (IH (apply_op t op) (apply_op_sorted _ _ Ht)) as [IH1 IH2]. destruct Hop as (s2 & Hs2 & Hop). split.
  - intros x [Hx|?]%IH1; [|by right]. destruct Hop as [->|(v & ->)]; cbn [apply_op] in Hx.
    + apply (bt_remove_iff bytes_cmp) in Hx as [? _]; [by left|done].
    + apply (bt_insert_iff bytes_cmp) in Hx as [->|[? _]]; [right|by left|done]. exists (MkCommonKey r2 tb2 s2, v). split; [done|by split_and!].
  - intros s x Hs. rewrite IH2 by done. pose proof (foreign_key s s2 Hs Hs2) as Hk. destruct Hop as [->|(v & ->)]; cbn [apply_op].
    + rewrite (bt_remove_iff bytes_cmp) by done. split; [by intros [? _]|]. intros Hx. split; [done|]. exact Hk.
    + rewrite (bt_insert_iff bytes_cmp) by done. split; [|intros Hx; right; split; [done|exact Hk]].
      intros [Heq|[? _]]; [|done]. exfalso. apply Hk. by apply (f_equal fst) in Heq.
Qed.
Lemma foreign_write kv bs name ops kv' res : layout r tb meta_table kv bs -> name <> meta_table -> Forall foreign ops ->
  kv_write kv name ops = (kv', res) -> keeps kv kv' bs.
Proof.
  intros Hl Hn Hf Hw. pose proof (la_kv _ _ _ _ _ Hl) as Hkv. apply kv_write_law in Hw as [Hok Hw]; [|done].
  destruct (kv_view kv !! name) as [t|] eqn:Ht; [|destruct Hw as [Hv _]; by apply keeps_view]. destruct Hw as (fin & [rest ->] & _ & Hv & _).
  apply Forall_app in Hf as [Hf _]. destruct (foreign_ops fin t Hf (kv_view_sorted kv Hkv name t Ht)) as [Hsub Hsame].
  pose proof (la_tables _ _ _ _ _ Hl) as Htab. rewrite Forall_forall in Htab.
  assert (Hv' : kv_view kv' !! name = Some (foldl apply_op t fin)) by (rewrite Hv; apply lookup_insert_eq).
  assert (Hother : forall n, n <> name -> kv_view kv' !! n = kv_view kv !! n) by (intros n Hne'; rewrite Hv; by apply lookup_insert_ne).
  split; [done| | |intros p; apply meta_is_view, Hother; congruence].
  - apply Forall_forall. intros b Hb. destruct (shard_dec r b name) as [Hs|Hs]; [|by apply (bucket_same r kv kv' b name Hs Hother), Htab].
    destruct (Htab b Hb) as (n0 & t0 & Hn0 & Ht0 & Hall). assert (n0 = name) as -> by congruence. assert (t0 = t) as -> by congruence.
    exists name, (foldl apply_op t fin). split_and!; [done|done|]. intros x [Hx|?]%Hsub; auto.
  - intros b s x Hb. destruct (shard_dec r b name) as [Hs|Hs]; [|by apply (bucket_same r kv kv' b name Hs Hother)].
    split; intros (Hk & n1 & t1 & Hn1 & Ht1 & Hin); (split; [done|]); assert (n1 = name) as -> by congruence.
    + assert (t1 = foldl apply_op t fin) as -> by congruence. exists name, t. split_and!; [done|done|]. apply Hsame; [apply Hk|done].
    + assert (t1 = t) as -> by congruence. exists name, (foldl apply_op t fin). split_and!; [done|done|]. apply Hsame; [apply Hk|done].
Qed.
(** Writes of the entry of the other unit. *)
Lemma foreign_meta kv bs op v kv' res : layout r tb meta_table kv bs -> Forall (fun b => shard_of r b <> Some meta_table2) bs ->
  op = WInsert (meta_key tb2) v \/ op = WInsertOrUpdate (meta_key tb2) v -> kv_write kv meta_table2 [op] = (kv', res) -> keeps kv kv' bs.
Proof.
  intros Hl Hsh Hop Hw. pose proof (la_kv _ _ _ _ _ Hl) as Hkv. apply kv_write_law in Hw as [Hok Hw]; [|done].
  destruct (kv_view kv !! meta_table2) as [mt|] eqn:Hmt; [|destruct Hw as [Hv _]; by apply keeps_view]. destruct Hw as (fin & Hp & _ & Hv & _).
  assert (Hother : forall n, n <> meta_table2 -> kv_view kv' !! n = kv_view kv !! n) by (intros n Hn; rewrite Hv; by apply lookup_insert_ne).
  pose proof (la_tables _ _ _ _ _ Hl) as Htab. rewrite Forall_forall in Hsh, Htab. split; [done| | |].
  - apply Forall_forall. intros b Hb. by apply (bucket_same r kv kv' b meta_table2 (Hsh b Hb) Hother), Htab.
  - intros b s x Hb. by apply (bucket_same r kv kv' b meta_table2 (Hsh b Hb) Hother).
  - intros p Hm. destruct (decide (meta_table = meta_table2)) as [<-|Hmn]; [|by apply (meta_is_view tb meta_table kv), Hm; apply Hother].
    destruct Hm as (mt' & Hmt' & Hm). assert (mt' = mt) as -> by congruence. exists (foldl apply_op mt fin). split; [rewrite Hv; apply lookup_insert_eq|].
    assert (bt_get bytes_cmp (meta_key tb) (foldl apply_op mt fin) = bt_get bytes_cmp (meta_key tb) mt) as ->; [|done].
    assert (meta_key tb <> meta_key tb2) as Hk by (intros Heq%table_unit_key_inj; [done|u64..]).
    destruct fin as [|op' fin]; [done|]. destruct Hp as [rest Hp]. injection Hp as <- Hp. symmetry in Hp. apply app_nil in Hp as [-> ->].
    assert (bytes_cmp (meta_key tb) (meta_key tb2) <> Eq) as Hc by (by rewrite (cmp_eq (cmp := bytes_cmp))).
    destruct Hop as [-> | ->]; cbn [foldl apply_op]; rewrite (bt_get_insert bytes_cmp) by (by apply (kv_view_sorted kv Hkv meta_table)); by destruct (bytes_cmp _ _).
Qed.
(** Cleaning of the other unit. *)
Lemma old_key_foreign start k : old_key r2 tb2 start k -> foreign (WDelete k).
Proof. intros (s & Hs & _ & ->). exists s. split; [done|by left]. Qed.
Lemma foreign_delete kv bs name keys start kv' res : layout r tb meta_table kv bs -> name <> meta_table -> Forall (old_key r2 tb2 start) keys ->
  delete_batch (E:=E) kv name keys = (kv', res) -> keeps kv kv' bs.
Proof.
  intros Hl Hn Hk Hd. unfold delete_batch in Hd. destruct (kv_write kv name (WDelete <$> keys)) as [kv1 r1] eqn:Hw. injection Hd as <- <-.
  apply (foreign_write kv bs name _ kv1 r1 Hl Hn) in Hw; [done|]. apply Forall_fmap. eapply Forall_impl; [exact Hk|]. intros k. by apply old_key_foreign.
Qed.
Lemma foreign_clean_iter bs name start n l : name <> meta_table -> Forall (old_key r2 tb2 start) l.*1 ->
  forall kv batch kv' res, layout r tb meta_table kv bs -> Forall (old_key r2 tb2 start) batch ->
  clean_logs_from_iter (E:=E) kv n name batch l = (kv', res) -> keeps kv kv' bs.
Proof.
  intros Hn Hl. induction l as [|[k v] l IH]; intros kv batch kv' res Hlay Hbatch Hc; cbn [clean_logs_from_iter] in Hc.
  { injection Hc as <- <-. by apply keeps_refl. }
  cbn in Hl. apply Forall_cons in Hl as [Hk Hl]. assert (Hbatch' : Forall (old_key r2 tb2 start) (batch ++ [k])) by (apply Forall_app; by split; [|constructor]).
  destruct (n <=? length (batch ++ [k]))%nat.
  - destruct (delete_batch kv name (batch ++ [k])) as [kv1 r1] eqn:Hd. apply (foreign_delete kv bs name _ start) in Hd as Hke; [|done|done|done].
    pose proof (keeps_layout _ _ _ Hlay Hke) as Hlay1. destruct r1 as [[]| |]; [|by injection Hc as <- <-..].
    apply (keeps_trans _ _ _ _ Hke). destruct l as [|x l]; [by apply (foreign_delete kv1 bs name _ start) in Hc|by apply (IH Hl kv1 [] kv' res)].
  - destruct l as [|x l]; [by apply (foreign_delete kv bs name _ start) in Hc|by apply (IH Hl kv (batch ++ [k]) kv' res)].
Qed.
Lemma foreign_clean u n start l kv bs kv' res : layout r tb meta_table kv bs -> layout r2 tb2 meta_table2 kv bs -> uint 64 start -> l ⊆ bs ->
  Forall (fun b => shard_of r2 b <> Some meta_table) bs -> tu_region_id u = r2 ->
  clean_buckets kv u n (MkScanRequest (KbIncluded (key_bytes (MkCommonKey r2 tb2 0))) (KbExcluded (key_bytes (MkCommonKey r2 tb2 start))) false) l = (kv', res) ->
  keeps kv kv' bs.
Proof.
  intros Hl Hl2 Hst Hsub Hsh Hu. revert kv Hl Hl2. induction l as [|b l IH]; intros kv Hl Hl2 Hc; cbn [clean_buckets] in Hc.
  { injection Hc as <- <-. by apply keeps_refl. }
  assert (Hb : b ∈ bs) by (apply Hsub; by left). pose proof (la_tables _ _ _ _ _ Hl2) as Htab. rewrite Forall_forall in Htab.
  destruct (Htab b Hb) as (name & t & Hn & Hv & Hall). rewrite Hu, (wal_shard_table_ok r2 b name Hn) in Hc. cbn [rbind] in Hc.
  destruct (kv_scan kv name _) as [iter|e|] eqn:Hscan; cbn [rcontext rbind] in Hc; [|injection Hc as <- <-; by apply keeps_refl..].
  apply kv_scan_law in Hscan as (t1 & Hv1 & ->); [|apply Hl]. assert (t1 = t) as -> by congruence.
  destruct (log_table_of t Hall) as (es & Hes). rewrite (range_entries_below r2 tb2 start t es) in Hc by done.
  destruct (clean_logs_from_iter kv n name [] _) as [kv1 r1] eqn:Hci.
  pose proof (range_old_keys r2 tb2 t es start Hes) as Hold. rewrite Forall_forall in Hsh.
  apply (clean_iter_shrinks r2 tb2 Hr2 Htb2 meta_table2 b name start n) with (bs := bs) in Hci as Hsk; [|done|done|done|done|constructor].
  apply (foreign_clean_iter bs name start n) in Hci as Hke; [|intros ->; by apply (Hsh b)|done|done|constructor].
  destruct r1 as [[]| |]; [|by injection Hc as <- <-..]. apply (keeps_trans _ _ _ _ Hke).
  apply (IH ltac:(set_solver) kv1); [by apply (keeps_layout kv)|by apply (shrinks_layout r2 tb2 meta_table2 _ _ _ _ Hl2 Hsk)|done].
Qed.
Lemma entry_ops_foreign l : Forall (fun e : Z * bytes => uint 64 e.1) l -> Forall foreign (entry_ops r2 tb2 l).
Proof.
  intros Hl. unfold entry_ops. apply Forall_fmap, Forall_fmap. eapply Forall_impl; [exact Hl|]. intros e He. exists e.1. split; [done|]. right. by exists e.2.
Qed.
(** An operation of one unit is a step of others for any unit of another table. *)
Lemma foreign_op kv bs o acked tried sys' : layout r tb meta_table kv bs ->
  Forall (fun b => shard_of r b <> Some meta_table2) bs -> Forall (fun b => shard_of r2 b <> Some meta_table) bs ->
  us_inv r2 tb2 meta_table2 (MkSys kv bs o acked tried) -> us_op r2 tb2 meta_table2 (MkSys kv bs o acked tried) sys' ->
  us_buckets sys' = bs /\ keeps kv (us_kv sys') bs.
Proof.
  intros Hl Hsh Hsh2 Hi Hop. inversion Hop; subst; cbn [us_kv us_buckets]; (split; [done|]).
  - by apply keeps_refl.
  - by apply keeps_refl.
  - rename select (open_or_create _ _ _ _ _ = _) into Ho. unfold open_or_create in Ho.
    destruct (load_table_unit_entry kv meta_table2 tb2) as [[e|]| |]; try (injection Ho as <- <-; by apply keeps_refl).
    unfold insert_or_load_table_unit_entry, table_unit_entry_new in Ho. destruct (json_encode _) as [v|]; [|injection Ho as <- <-; by apply keeps_refl].
    cbn [te_table_id] in Ho. fold (meta_key tb2) in Ho. destruct (kv_write kv meta_table2 _) as [kv1 r1] eqn:Hw.
    assert (kv' = kv1) as -> by (destruct r1 as [|e|]; [| destruct (is_primary_key_duplicate e)|]; by injection Ho). by eapply foreign_meta; [| |left|].
  - rename select (write_log _ _ _ _ = _) into Hw. pose proof (ui_meta _ _ _ _ Hi) as (p & _ & _ & (_ & _ & _ & _ & Hla & _)). cbn in Hla.
    rewrite write_log_number in Hw by (done || lia). destruct (shard_of r2 b) as [name|] eqn:Hn; [|injection Hw as <- <- <-; by apply keeps_refl].
    destruct (kv_write kv name _) as [kv1 r1] eqn:Hkw. injection Hw as <- <- <-. apply (foreign_write kv bs name _ kv1 r1 Hl) in Hkw; [done| |].
    + intros ->. rewrite Forall_forall in Hsh2. by apply (Hsh2 b).
    + apply entry_ops_foreign, Forall_forall. intros e He%number_elem. u64.
  - rename select (delete_entries_up_to _ _ _ _ = _) into Hd. pose proof (ui_meta _ _ _ _ Hi) as (p & _ & _ & (_ & Hut & _)). cbn in Hut.
    unfold delete_entries_up_to in Hd. destruct (_ <? MAX_SEQUENCE_NUMBER); [|injection Hd as <- <- <-; by apply keeps_refl].
    match type of Hd with context [match ?s with Ok _ => _ | Err _ => _ | Panic => _ end] => destruct s as [start| |] end;
      [|injection Hd as <- <- <-; by apply keeps_refl..].
    unfold update_table_unit_entry in Hd. destruct (json_encode _) as [v|]; [|injection Hd as <- <- <-; by apply keeps_refl].
    cbn [te_table_id] in Hd. rewrite Hut in Hd. fold (meta_key tb2) in Hd. destruct (kv_write kv meta_table2 _) as [kv1 r1] eqn:Hw.
    assert (kv' = kv1) as -> by (destruct r1 as [[]| |]; by injection Hd). by eapply foreign_meta; [| |right|].
  - rename select (clean_deleted_logs _ _ _ _ = _) into Hc. pose proof (ui_meta _ _ _ _ Hi) as (p & _ & Hp & (Hur & Hut & Hst & _)). cbn in Hur, Hut, Hst.
    unfold clean_deleted_logs in Hc. rewrite !encode_key_ok, Hur, Hut in Hc. cbn [rcontext rbind] in Hc.
    apply (foreign_clean u batch_size (tu_start_sequence u) bs kv bs) in Hc; [done|done|apply Hi|u64|done|done|done].
Qed.
End frame.

(** ** The units of a namespace *)
Section wal.
Context {K E : Type} {KV : TableKv K E} {KL : TableKvLaws K E} {JC : JsonCodec TableUnitEntry}.
Context (region : Z -> Z) (meta_of : Z -> string) (Hregion : forall tb, uint 64 tb -> uint 64 (region tb)).
Record WSys := MkWal {
  ws_kv : K;
  ws_buckets : list Bucket;
  ws_units : Z -> option TableUnitState;
  ws_acked : Z -> list (Z * bytes);
  ws_tried : Z -> list (Z * bytes)
}.
Definition upd {A} (f : Z -> A) (tb : Z) (a : A) (t : Z) : A := if t =? tb then a else f t.
Definition unit_at (ws : WSys) (tb : Z) : USys := MkSys (ws_kv ws) (ws_buckets ws) (ws_units ws tb) (ws_acked ws tb) (ws_tried ws tb).
Definition set_unit (ws : WSys) (tb : Z) (sys : USys) : WSys :=
  MkWal (us_kv sys) (us_buckets sys) (upd (ws_units ws) tb (us_unit sys)) (upd (ws_acked ws) tb (us_acked sys)) (upd (ws_tried ws) tb (us_tried sys)).
(** Names of tables that hold logs or units. *)
Definition used (bs : list Bucket) (n : string) : Prop := (exists b, b ∈ bs /\ n ∈ bk_wal_shard_names b) \/ exists tb, n = meta_of tb.
Definition new_bucket (kv : K) (bs : list Bucket) (b : Bucket) : Prop :=
  bk_wal_shard_names b <> [] /\ forall n, n ∈ bk_wal_shard_names b -> kv_view kv !! n = Some ([] : table) /\ ~ used bs n.
Inductive ws_step : WSys -> WSys -> Prop :=
| ws_op ws tb sys : uint 64 tb -> us_op (region tb) tb (meta_of tb) (unit_at ws tb) sys -> ws_step ws (set_unit ws tb sys)
| ws_env kv kv' bs us acked tried : kv_ok kv' -> (forall n, used bs n -> kv_view kv' !! n = kv_view kv !! n) ->
    ws_step (MkWal kv bs us acked tried) (MkWal kv' bs us acked tried)
| ws_bucket kv bs1 bs2 b us acked tried : by_time (bs1 ++ b :: bs2) -> new_bucket kv (bs1 ++ bs2) b ->
    ws_step (MkWal kv (bs1 ++ bs2) us acked tried) (MkWal kv (bs1 ++ b :: bs2) us acked tried)
| ws_purge kv bs1 bs2 b us acked tried :
    (forall tb s x, uint 64 tb -> in_bucket (region tb) kv b (unit_key (region tb) tb s x) -> below_start tb (meta_of tb) kv (us tb) s) ->
    ws_step (MkWal kv (bs1 ++ b :: bs2) us acked tried) (MkWal kv (bs1 ++ bs2) us acked tried).
Inductive ws_start : WSys -> Prop :=
| ws_init kv : kv_ok kv -> (forall tb, uint 64 tb -> kv_view kv !! meta_of tb = Some ([] : table)) ->
    ws_start (MkWal kv [] (fun _ => None) (fun _ => []) (fun _ => [])).

Record ws_inv (ws : WSys) : Prop := {
  wi_units : forall tb, uint 64 tb -> us_inv (region tb) tb (meta_of tb) (unit_at ws tb);
  wi_names : forall b n tb, b ∈ ws_buckets ws -> n ∈ bk_wal_shard_names b -> n <> meta_of tb
}.
Lemma shard_name r b n : shard_of r b = Some n -> n ∈ bk_wal_shard_names b.
Proof. unfold shard_of. apply list_elem_of_lookup_2. Qed.
Lemma shard_meta ws tb1 tb2 : ws_inv ws -> Forall (fun b => shard_of (region tb1) b <> Some (meta_of tb2)) (ws_buckets ws).
Proof. intros [_ Hn]. apply Forall_forall. intros b Hb Hs. apply shard_name in Hs. by apply (Hn b (meta_of tb2) tb2). Qed.
Lemma ws_op_inv ws tb sys : uint 64 tb -> us_op (region tb) tb (meta_of tb) (unit_at ws tb) sys -> ws_inv ws -> ws_inv (set_unit ws tb sys).
Proof.
  intros Htb Hop Hi. pose proof (wi_units _ Hi tb Htb) as Hu.
  assert (Hbs : us_buckets sys = ws_buckets ws) by (unfold unit_at in Hop; by inversion Hop). split.
  - intros tb' Htb'. unfold unit_at, set_unit, upd. cbn [ws_kv ws_buckets ws_units ws_acked ws_tried]. destruct (Z.eqb_spec tb' tb) as [->|Hne].
    + replace (MkSys _ _ _ _ _) with sys by (by destruct sys). apply (us_step_inv _ _ (Hregion tb Htb) Htb _ (unit_at ws tb)); [by apply us_do|done].
    + rewrite Hbs. pose proof (wi_units _ Hi tb' Htb') as Hu'.
      destruct (foreign_op (region tb') tb' (Hregion tb' Htb') Htb' (meta_of tb') (region tb) tb (Hregion tb Htb) Htb (meta_of tb) Hne
        (ws_kv ws) (ws_buckets ws) (ws_units ws tb) (ws_acked ws tb) (ws_tried ws tb) sys) as [_ Hke];
        [apply Hu'|by apply shard_meta|by apply shard_meta|done|done|].
      apply (us_step_inv _ _ (Hregion tb' Htb') Htb' _ (unit_at ws tb')); [|done]. by apply keeps_step.
  - cbn [set_unit ws_buckets]. rewrite Hbs. apply Hi.
Qed.
Lemma ws_env_inv kv kv' bs us acked tried : kv_ok kv' -> (forall n, used bs n -> kv_view kv' !! n = kv_view kv !! n) ->
  ws_inv (MkWal kv bs us acked tried) -> ws_inv (MkWal kv' bs us acked tried).
Proof.
  intros Hok Hsame Hi. split; [|apply Hi]. intros tb Htb. pose proof (wi_units _ Hi tb Htb) as Hu.
  apply (us_step_inv _ _ (Hregion tb Htb) Htb _ (unit_at (MkWal kv bs us acked tried) tb)); [|done]. pose proof (la_tables _ _ _ _ _ (ui_layout _ _ _ _ Hu)) as Htab.
  cbn in Htab. rewrite Forall_forall in Htab.
  assert (Hin : forall b n, b ∈ bs -> shard_of (region tb) b = Some n -> kv_view kv' !! n = kv_view kv !! n).
  { intros b n Hb Hn. apply Hsame. left. exists b. split; [done|]. by eapply shard_name. }
  apply us_other; [done| | |].
  - apply Forall_forall. intros b Hb. destruct (Htab b Hb) as (n & t & Hn & Hv & Hall). exists n, t. split_and!; [done|by rewrite (Hin b)|done].
  - intros b s x Hb. split; intros (Hk & n & t & Hn & Hv & Hx); (split; [done|]); exists n, t; (split_and!; [done| |done]).
    + by rewrite <- (Hin b).
    + by rewrite (Hin b).
  - intros p. apply meta_is_view, Hsame. right. by exists tb.
Qed.
Lemma ws_bucket_inv kv bs1 bs2 b us acked tried : by_time (bs1 ++ b :: bs2) -> new_bucket kv (bs1 ++ bs2) b ->
  ws_inv (MkWal kv (bs1 ++ bs2) us acked tried) -> ws_inv (MkWal kv (bs1 ++ b :: bs2) us acked tried).
Proof.
  intros Ht [Hnn Hnew] Hi. split.
  - intros tb Htb. assert (exists n, shard_of (region tb) b = Some n) as [n Hn].
    { unfold shard_of. apply lookup_lt_is_Some. destruct (bk_wal_shard_names b) as [|m ms]; [done|]. cbn [length].
      pose proof (Z.mod_pos_bound (region tb) (Z.of_nat (S (length ms)))). lia. }
    destruct (Hnew n (shard_name _ _ _ Hn)) as [Hv Hfree].
    apply (us_step_inv _ _ (Hregion tb Htb) Htb _ (unit_at (MkWal kv (bs1 ++ bs2) us acked tried) tb)); [|by apply Hi].
    apply us_bucket; [done| | | |].
    + exists n, []. split_and!; [done|done|]. set_solver.
    + rewrite Hn. intros [= ->]. apply Hfree. right. by exists tb.
    + apply Forall_forall. intros b' Hb' Heq. rewrite Hn in Heq. apply Hfree. left. exists b'. split; [done|]. by eapply shard_name.
    + intros s x (_ & n' & t & Hn' & Hv' & Hin). assert (n' = n) as -> by congruence. assert (Some t = Some []) as [= ->] by (etransitivity; [symmetry; exact Hv'|exact Hv]). set_solver.
  - cbn. intros b' n tb Hb' Hin ->. rewrite elem_of_app, elem_of_cons in Hb'.
    assert (b' = b \/ b' ∈ bs1 ++ bs2) as [->|Hb] by (rewrite elem_of_app; tauto).
    + destruct (Hnew _ Hin) as [_ Hfree]. apply Hfree. right. by exists tb.
    + by apply (wi_names _ Hi b' (meta_of tb) tb).
Qed.
Lemma ws_reach_inv ws0 ws : ws_start ws0 -> rtc ws_step ws0 ws -> ws_inv ws.
Proof.
  intros Hst Hreach. assert (ws_inv ws0) as Hi.
  { destruct Hst as [kv Hkv Hm]. split; [|set_solver]. intros tb Htb. apply us_start_inv; [by apply Hregion|done|]. apply us_init.
    - split; [done|constructor|constructor|set_solver|constructor|set_solver].
    - exists []. split; [by apply Hm|done].
    - intros s x (b & Hb & _). set_solver. }
  clear Hst. induction Hreach as [|ws1 ws2 ws3 Hstep _ IH]; [done|]. apply IH. clear IH.
  destruct Hstep as [ws tb sys Htb Hop| | |kv bs1 bs2 b us acked tried Hold]; [by apply ws_op_inv|by apply (ws_env_inv kv)|by apply ws_bucket_inv|].
  split; [|intros b' n tb Hb'; apply (wi_names _ Hi b' n tb); cbn in *; rewrite elem_of_app in *; rewrite elem_of_cons; tauto].
  intros tb Htb. apply (us_step_inv _ _ (Hregion tb Htb) Htb _ (unit_at (MkWal kv (bs1 ++ b :: bs2) us acked tried) tb)); [|by apply Hi].
  apply us_purge. intros s x. by apply Hold.
Qed.

End wal.

(** ** Runs on the tables in memory *)
#[local] Instance pair_codec : JsonCodec TableUnitEntry.
Proof.
  refine {| json_encode e := Some [te_table_id e; te_start_sequence e];
            json_decode b := match b with [i; s] => Some (MkUnitEntry i s) | _ => None end |}.
  abstract (intros []; eauto).
Defined.
Definition bucket1 : Bucket := MkBucket (MkBucketEntry 1 0 10) ["wal_1"%string].
Definition bucket2 : Bucket := MkBucket (MkBucketEntry 1 10 20) ["wal_2"%string].
Definition tables0 : Memory.MemoryImpl := {["meta"%string := []; "wal_1"%string := []; "wal_2"%string := []]}.
Definition run_buckets : list Bucket := [bucket1; bucket2].
Definition run_unit (tb start last : Z) : TableUnitState := MkUnitState 1 tb start last.
(** Tables 7 and 8 are created and written; the first entry of table 7 is deleted and
    cleaned, and its unit is opened again. *)
Definition run_created7 : Memory.MemoryImpl := Eval vm_compute in (open_or_create tables0 "meta" 1 7 run_buckets).1.
Definition run_created8 : Memory.MemoryImpl := Eval vm_compute in (open_or_create run_created7 "meta" 1 8 run_buckets).1.
Definition run_written1 : Memory.MemoryImpl := Eval vm_compute in (write_log run_created8 (run_unit 7 0 0) bucket1 (unit_batch 1 7 [[97]; [98]])).1.1.
Definition run_written2 : Memory.MemoryImpl := Eval vm_compute in (write_log run_written1 (run_unit 8 0 0) bucket1 (unit_batch 1 8 [[120]])).1.1.
Definition run_written3 : Memory.MemoryImpl := Eval vm_compute in (write_log run_written2 (run_unit 7 0 2) bucket2 (unit_batch 1 7 [[99]])).1.1.
Definition run_deleted : Memory.MemoryImpl := Eval vm_compute in (delete_entries_up_to run_written3 (run_unit 7 0 3) "meta" 1).1.1.
Definition run_cleaned : Memory.MemoryImpl := Eval vm_compute in (clean_deleted_logs run_deleted (run_unit 7 2 3) 1 run_buckets).1.
Definition run_log : list (Z * bytes) := [(1, [97]); (2, [98]); (3, [99])].
Abbreviation run_sys := (MkSys (K:=Memory.MemoryImpl)).
Abbreviation run_step := (ws_step (K:=Memory.MemoryImpl) (fun _ => 1) (fun _ => "meta"%string)).
Definition run_start : WSys := MkWal tables0 [] (fun _ => None) (fun _ => []) (fun _ => []).
Definition run_ready : WSys := MkWal tables0 run_buckets (fun _ => None) (fun _ => []) (fun _ => []).
Definition run_end : WSys :=
  let ws := set_unit run_ready 7 (run_sys run_created7 run_buckets (Some (run_unit 7 0 0)) [] []) in
  let ws := set_unit ws 8 (run_sys run_created8 run_buckets (Some (run_unit 8 0 0)) [] []) in
  let ws := set_unit ws 7 (run_sys run_written1 run_buckets (Some (run_unit 7 0 2)) [(1, [97]); (2, [98])] [(1, [97]); (2, [98])]) in
  let ws := set_unit ws 8 (run_sys run_written2 run_buckets (Some (run_unit 8 0 1)) [(1, [120])] [(1, [120])]) in
  let ws := set_unit ws 7 (run_sys run_written3 run_buckets (Some (run_unit 7 0 3)) run_log run_log) in
  let ws := set_unit ws 7 (run_sys run_deleted run_buckets (Some (run_unit 7 2 3)) run_log run_log) in
  let ws := set_unit ws 7 (run_sys run_cleaned run_buckets (Some (run_unit 7 2 3)) run_log run_log) in
  let ws := set_unit ws 7 (run_sys run_cleaned run_buckets None run_log run_log) in
  set_unit ws 7 (run_sys run_cleaned run_buckets (Some (run_unit 7 2 3)) run_log run_log).

Lemma no_entries kv b n s x tb : shard_of 1 b = Some n -> kv_view kv !! n = Some [] -> ~ in_bucket (K:=Memory.MemoryImpl) 1 kv b (unit_key 1 tb s x).
Proof.
  intros Hn Hv (_ & n' & t & Hn' & Hv' & Hin). assert (n' = n) as -> by congruence.
  assert (Some t = Some []) as [= ->] by (etransitivity; [symmetry; exact Hv'|exact Hv]). set_solver.
Qed.
Lemma run_started : ws_start (fun _ => "meta"%string) run_start.
Proof.
  apply ws_init; [|done]. apply map_Forall_lookup. intros n t Hn.
  assert (t = []) as ->; [|constructor]. change (tables0 !! n = Some t) in Hn. unfold tables0 in Hn. rewrite !lookup_insert_Some, lookup_singleton_Some in Hn. naive_solver.
Qed.
Lemma run_bucketed : rtc run_step run_start run_ready.
Proof.
  apply rtc_l with (MkWal tables0 [bucket1] (fun _ => None) (fun _ => []) (fun _ => [])).
  { apply (ws_bucket _ _ tables0 [] []); [repeat constructor|]. split; [done|]. intros n ->%list_elem_of_singleton. split; [done|].
    intros [(b & Hb & _)|[_ ?]]; [set_solver|done]. }
  apply rtc_once, (ws_bucket _ _ tables0 [bucket1] []); [repeat constructor|]. split; [done|]. intros n ->%list_elem_of_singleton. split; [done|].
  intros [(b & ->%list_elem_of_singleton & Hin%list_elem_of_singleton)|[_ ?]]; done.
Qed.
Lemma last_bucket kv b tb s x : b ∈ run_buckets -> gmt_start_ms bucket2 < gmt_start_ms b -> ~ in_bucket (K:=Memory.MemoryImpl) 1 kv b (unit_key 1 tb s x).
Proof. intros Hb Hlt. repeat (apply elem_of_cons in Hb as [->|Hb]); [by vm_compute in Hlt..|set_solver]. Qed.
Lemma first_bucket kv b tb s x : kv_view kv !! "wal_2"%string = Some [] -> b ∈ run_buckets -> gmt_start_ms bucket1 < gmt_start_ms b ->
  ~ in_bucket (K:=Memory.MemoryImpl) 1 kv b (unit_key 1 tb s x).
Proof.
  intros Hv Hb Hlt. repeat (apply elem_of_cons in Hb as [->|Hb]); [by vm_compute in Hlt| |set_solver]. by apply (no_entries _ _ "wal_2").
Qed.
Lemma run_ops :
  us_op 1 7 "meta" (run_sys tables0 run_buckets None [] []) (run_sys run_created7 run_buckets (Some (run_unit 7 0 0)) [] []) /\
  us_op 1 8 "meta" (run_sys run_created7 run_buckets None [] []) (run_sys run_created8 run_buckets (Some (run_unit 8 0 0)) [] []) /\
  us_op 1 7 "meta" (run_sys run_created8 run_buckets (Some (run_unit 7 0 0)) [] [])
    (run_sys run_written1 run_buckets (Some (run_unit 7 0 2)) [(1, [97]); (2, [98])] [(1, [97]); (2, [98])]) /\
  us_op 1 8 "meta" (run_sys run_written1 run_buckets (Some (run_unit 8 0 0)) [] [])
    (run_sys run_written2 run_buckets (Some (run_unit 8 0 1)) [(1, [120])] [(1, [120])]) /\
  us_op 1 7 "meta" (run_sys run_written2 run_buckets (Some (run_unit 7 0 2)) [(1, [97]); (2, [98])] [(1, [97]); (2, [98])])
    (run_sys run_written3 run_buckets (Some (run_unit 7 0 3)) run_log run_log) /\
  us_op 1 7 "meta" (run_sys run_written3 run_buckets (Some (run_unit 7 0 3)) run_log run_log)
    (run_sys run_deleted run_buckets (Some (run_unit 7 2 3)) run_log run_log) /\
  us_op 1 7 "meta" (run_sys run_deleted run_buckets (Some (run_unit 7 2 3)) run_log run_log)
    (run_sys run_cleaned run_buckets (Some (run_unit 7 2 3)) run_log run_log) /\
  us_op 1 7 "meta" (run_sys run_cleaned run_buckets None run_log run_log)
    (run_sys run_cleaned run_buckets (Some (run_unit 7 2 3)) run_log run_log).
Proof.
  split_and!.
  - apply (us_create 1 7 "meta" tables0 run_buckets [] [] run_created7 (Ok (run_unit 7 0 0))). vm_compute. reflexivity.
  - apply (us_create 1 8 "meta" run_created7 run_buckets [] [] run_created8 (Ok (run_unit 8 0 0))). vm_compute. reflexivity.
  - apply (us_write 1 7 "meta" run_created8 run_buckets (run_unit 7 0 0) [] [] bucket1 [[97]; [98]] run_written1 (run_unit 7 0 2) (Ok 2));
      [by left| |vm_compute; reflexivity|vm_compute; reflexivity]. intros b s x. apply first_bucket. vm_compute. reflexivity.
  - apply (us_write 1 8 "meta" run_written1 run_buckets (run_unit 8 0 0) [] [] bucket1 [[120]] run_written2 (run_unit 8 0 1) (Ok 1));
      [by left| |vm_compute; reflexivity|vm_compute; reflexivity]. intros b s x. apply first_bucket. vm_compute. reflexivity.
  - apply (us_write 1 7 "meta" run_written2 run_buckets (run_unit 7 0 2) [(1, [97]); (2, [98])] [(1, [97]); (2, [98])] bucket2 [[99]]
      run_written3 (run_unit 7 0 3) (Ok 3)); [right; by left| |vm_compute; reflexivity|vm_compute; reflexivity]. intros b s x. apply last_bucket.
  - apply (us_delete 1 7 "meta" run_written3 run_buckets (run_unit 7 0 3) run_log run_log 1 run_deleted (run_unit 7 2 3) (Ok tt)); [lia|].
    vm_compute. reflexivity.
  - apply (us_clean 1 7 "meta" run_deleted run_buckets (run_unit 7 2 3) run_log run_log 1 run_cleaned (Ok tt)). vm_compute. reflexivity.
  - apply us_open. vm_compute. reflexivity.
Qed.
Ltac run_op u op := eapply rtc_l; [eapply (ws_op (fun _ => 1) (fun _ => "meta"%string) _ _ _ u); exact op|].
Lemma run_reach : rtc run_step run_start run_end.
Proof.
  destruct run_ops as (H1 & H2 & H3 & H4 & H5 & H6 & H7 & H8). assert (uint 64 7 /\ uint 64 8) as [U7 U8] by (unfold uint; lia).
  etransitivity; [exact run_bucketed|].
  run_op U7 H1.
  run_op U8 H2.
  run_op U7 H3.
  run_op U8 H4.
  run_op U7 H5.
  run_op U7 H6.
  run_op U7 H7.
  run_op U7 (us_close 1 7 "meta" run_cleaned run_buckets (Some (run_unit 7 2 3)) run_log run_log).
  run_op U7 H8.
  apply rtc_refl.
Qed.


(** ** What the steps leave out *)
(** [scan_log] of a region, from which a region is replayed, misses entries: the
    scan of a bucket starts at the last key read in the bucket before, so entries in
    it of a table with a smaller id are skipped.  Here table 8 writes to the first
    bucket and table 7 to the second one; both are acknowledged, and only the first
    is scanned, though reading table 7 by itself gives it. *)
Theorem scan_log_skips_entries :
  let '(kv1, u8, r8) := write_log tables0 (MkUnitState 1 8 0 0) bucket1 (unit_batch 1 8 [[97]]) in
  let '(kv2, u7, r7) := write_log kv1 (MkUnitState 1 7 0 0) bucket2 (unit_batch 1 7 [[98]]) in
  r8 = Ok 1 /\ r7 = Ok 1 /\
  read_batches kv2 4 2 (Some (scan_log run_buckets 1)) = Ok [MkLogEntry 8 1 [97]] /\
  read_batches kv2 4 2 (Some (read_log u7 run_buckets (MkLocation 1 7) RbMin RbMax)) = Ok [MkLogEntry 7 1 [98]].
Proof. vm_compute. auto. Qed.

(** A write to an older bucket than one written before (the clock went back, or a
    writer took its bucket before another one got the lock) hides the entry before,
    and its sequence is given again after a restart. *)
Theorem older_bucket_hides_entry :
  let '(kv0, r0) := open_or_create tables0 "meta" 1 7 run_buckets in
  let '(kv1, u1, r1) := write_log kv0 (run_unit 7 0 0) bucket2 (unit_batch 1 7 [[97]]) in
  let '(kv2, u2, r2) := write_log kv1 u1 bucket1 (unit_batch 1 7 [[98]]) in
  r0 = Ok (run_unit 7 0 0) /\ r1 = Ok 1 /\ r2 = Ok 2 /\
  read_batches kv2 4 2 (Some (read_log u2 run_buckets (MkLocation 1 7) RbMin RbMax)) = Ok [MkLogEntry 7 2 [98]] /\
  open kv2 "meta" 1 7 run_buckets = Ok (Some (run_unit 7 0 1)).
Proof. vm_compute. auto. Qed.

(** A service that refuses the writes it is told to. *)
Definition Flaky : Type := Memory.MemoryImpl * list bool.
Inductive FlakyError := Refused | FlakyMemory (e : Memory.Error).
#[local] Instance flaky_kv : TableKv Flaky FlakyError := {|
  is_primary_key_duplicate e := match e with FlakyMemory e => is_primary_key_duplicate e | Refused => false end;
  kv_table_exists k n := rcontext FlakyMemory (kv_table_exists k.1 n);
  kv_create_table k n := let (m, r) := kv_create_table k.1 n in ((m, k.2), rcontext FlakyMemory r);
  kv_drop_table k n := let (m, r) := kv_drop_table k.1 n in ((m, k.2), rcontext FlakyMemory r);
  kv_write k n ops :=
    match k.2 with
    | true :: fs => ((k.1, fs), Err Refused)
    | fs => let (m, r) := kv_write k.1 n ops in ((m, tail fs), rcontext FlakyMemory r)
    end;
  kv_scan k n q := rcontext FlakyMemory (kv_scan k.1 n q);
  kv_get k n key := rcontext FlakyMemory (kv_get k.1 n key)
|}.
Lemma rcontext_panic {E1 E2 A} (f : E1 -> E2) (x : res E1 A) : rcontext f x = Panic -> x = Panic.
Proof. by destruct x. Qed.
Lemma flaky_write k n ops k' r : kv_write (K:=Flaky) k n ops = (k', r) ->
  (k'.1 = k.1 /\ r = Err Refused) \/ exists r', kv_write k.1 n ops = (k'.1, r') /\ r = rcontext FlakyMemory r'.
Proof.
  cbn. destruct k as [m [|[] fs]]; cbn [fst snd]; destruct (Memory.write m n ops) as [m' r'] eqn:Hw; intros [= <- <-]; cbn; eauto.
Qed.
#[local] Instance flaky_kv_laws : TableKvLaws Flaky FlakyError.
Proof.
  refine {| kv_view k := kv_view k.1; kv_ok k := kv_ok k.1 |}.
  - intros k. apply kv_view_sorted.
  - intros k n b Hk Hb%rcontext_ok. by apply kv_exists_law.
  - intros k n Hk Hp%rcontext_panic. by apply kv_exists_panic in Hp.
  - intros k n k' r Hk Hc. change ((let (m, r) := kv_create_table k.1 n in ((m, k.2), rcontext FlakyMemory r)) = (k', r)) in Hc.
    destruct (kv_create_table k.1 n) as [m r'] eqn:Hm. injection Hc as <- <-.
    destruct (kv_create_law k.1 n m r' Hk Hm) as [Hok Hor]. split; [exact Hok|]. destruct Hor as [[Hv Hr]|Hr]; [left|by right].
    split; [exact Hv|]. intros ?%rcontext_ok. auto.
  - intros k n k' Hk Hc. change ((let (m, r) := kv_create_table k.1 n in ((m, k.2), rcontext FlakyMemory r)) = (k', Panic)) in Hc.
    destruct (kv_create_table k.1 n) as [m r'] eqn:Hm. injection Hc as _ Hp%rcontext_panic. subst r'. by apply kv_create_panic in Hm.
  - intros k n k' r Hk Hc. change ((let (m, r) := kv_drop_table k.1 n in ((m, k.2), rcontext FlakyMemory r)) = (k', r)) in Hc.
    destruct (kv_drop_table k.1 n) as [m r'] eqn:Hm. injection Hc as <- <-.
    destruct (kv_drop_law k.1 n m r' Hk Hm) as [Hok Hor]. split; [exact Hok|]. destruct Hor as [?|[Hv Hr]]; [by left|right].
    split; [exact Hv|]. intros ?%rcontext_ok. auto.
  - intros k n ops k' r Hk [[Heq ->]|(r' & Hw & ->)]%flaky_write.
    + rewrite Heq. split; [done|]. destruct (kv_view k.1 !! n) as [t|] eqn:Ht; [|by split]. exists []. cbn. split_and!; [apply prefix_nil|done| |done].
      by rewrite insert_id.
    + apply kv_write_law in Hw as [Hok Hw]; [|done]. split; [done|]. destruct (kv_view k.1 !! n) as [t|].
      * destruct Hw as (fin & H1 & H2 & H3 & H4). exists fin. split_and!; [done|done|done|]. intros ?%rcontext_ok. auto.
      * destruct Hw as [H1 H2]. split; [done|]. intros ?%rcontext_ok. auto.
  - intros k n ops k' e Hk [[_ [= ->]]|(r' & Hw & Hr)]%flaky_write Hd; [done|]. destruct r' as [|e'|]; [done| |done]. injection Hr as ->.
    by apply (kv_write_duplicate k.1 n ops k'.1 e').
  - intros k n ops k' Hk [[_ ?]|(r' & Hw & Hr)]%flaky_write; [done|]. symmetry in Hr. apply rcontext_panic in Hr as ->. by apply kv_write_panic in Hw.
  - intros k n q l Hk Hl%rcontext_ok. by apply kv_scan_law.
  - intros k n q Hk Hq Hp%rcontext_panic. by apply kv_scan_panic in Hp.
  - intros k n key o Hk Hg%rcontext_ok. by apply kv_get_law.
  - intros k n key Hk Hp%rcontext_panic. by apply kv_get_panic in Hp.
Defined.
