(* ===== verification/WalNamespace.v ===== *)
(** * Namespaces of the write-ahead log

    Models [wal/src/table_kv_impl/namespace.rs], with the entries of [model.rs], the
    names of [encoding.rs] and the manager of [wal.rs]: a namespace keeps its buckets
    (tables of log entries by day, or one bucket for ever), creates and purges them,
    and its table units.

    A bucket set is a [BTreeMap] by start time.  Table units are a hash map by
    location; in what order they are cleaned is not specified, here it is the order
    of [map_to_list].  What the clock shows is an argument; so is [chrono], which
    formats timestamps, as the class [Chrono].  Entries are JSON ([JsonCodec]).
    Buckets found expired when a namespace is opened are purged by a task of the
    runtime: they are kept in the state until [purge_outdated], the task, runs. *)

From Stdlib Require Import ZArith Lia String Ascii.
From stdpp Require Import base tactics option list sorting numbers gmap strings pretty.
From S2P Require Import Prelude Time Bytes Datum Varint MemComparable BTree TableKv KvEncoder TableUnit UnitLog WalUnits.

#[local] Open Scope Z_scope.

(** ** Entries ([model.rs]) *)
Definition MAX_NAME_LEN : Z := 16.
Definition DAY_MS : Z := 1000 * 3600 * 24.
Inductive ModelError :=
| EmptyName | NameTooLong | NotAlphanumeric | NoAlphanumeric
| InvalidTtl (ttl : Z).
Definition is_ascii_alphanumeric (c : ascii) : bool :=
  let n := N_of_ascii c in
  ((48 <=? n) && (n <=? 57) || (65 <=? n) && (n <=? 90) || (97 <=? n) && (n <=? 122))%N.
Fixpoint validate_chars (cs : list ascii) (contains_alphanumeric : bool) : res ModelError bool :=
  match cs with
  | [] => Ok contains_alphanumeric
  | c :: cs =>
      let? _ := ensure (is_ascii_alphanumeric c || Ascii.eqb c "_") NotAlphanumeric in
      validate_chars cs (if is_ascii_alphanumeric c then true else contains_alphanumeric)
  end.
Definition validate_name (name : string) : res ModelError unit :=
  let? _ := ensure (negb (String.eqb name "")) EmptyName in
  let? _ := ensure (Z.of_nat (String.length name) <=? MAX_NAME_LEN) NameTooLong in
  let? contains_alphanumeric := validate_chars (list_ascii_of_string name) false in
  ensure contains_alphanumeric NoAlphanumeric.

Record WalShardEntry := MkWalShard { we_enable_ttl : bool; we_ttl : option Z; we_shard_num : nat }.
Record NamespaceEntry := MkNsEntry { ne_name : string; ne_wal : WalShardEntry; ne_table_unit_meta_shard_num : nat }.
Definition validate (e : NamespaceEntry) : res ModelError unit :=
  let? _ := validate_name (ne_name e) in
  match we_ttl (ne_wal e) with
  | Some wal_ttl =>
      let? _ := ensure (negb (wal_ttl =? 0)) (InvalidTtl wal_ttl) in
      ensure (wal_ttl mod DAY_MS =? 0) (InvalidTtl wal_ttl)
  | None => Ok tt
  end.
Record NamespaceConfig := MkNsConfig {
  nc_wal_shard_num : nat;
  nc_table_unit_meta_shard_num : nat;
  nc_ttl : option Z;
  nc_init_scan_batch_size : Z;
  nc_clean_scan_batch_size : nat
}.
Definition DEFAULT_BATCH_SIZE : Z := 100.
Definition sanitize (c : NamespaceConfig) : NamespaceConfig :=
  if nc_init_scan_batch_size c <=? 0 then
    MkNsConfig (nc_wal_shard_num c) (nc_table_unit_meta_shard_num c) (nc_ttl c) DEFAULT_BATCH_SIZE (nc_clean_scan_batch_size c)
  else c.
Definition is_some {A} (o : option A) : bool := match o with Some _ => true | None => false end.
Definition new_namespace_entry (c : NamespaceConfig) (namespace_name : string) : res ModelError NamespaceEntry :=
  let entry := MkNsEntry namespace_name (MkWalShard (is_some (nc_ttl c)) (nc_ttl c) (nc_wal_shard_num c)) (nc_table_unit_meta_shard_num c) in
  let? _ := validate entry in Ok entry.

Definition new_timed (shard_num gmt_start_ms bucket_duration_ms : Z) : option BucketEntry :=
  match Timestamp.checked_add_i64 gmt_start_ms bucket_duration_ms with
  | Some gmt_end_ms => Some (MkBucketEntry shard_num gmt_start_ms gmt_end_ms)
  | None => None
  end.
Definition new_permanent (shard_num : Z) : BucketEntry := MkBucketEntry shard_num Timestamp.ZERO Timestamp.MAX.
Definition is_permanent (e : BucketEntry) : bool := be_gmt_end_ms e =? Timestamp.MAX.
(** The subtraction may overflow. *)
Definition bucket_duration {F} (e : BucketEntry) : res F (option Z) :=
  if is_permanent e then Ok None
  else
    let? _ := rassert (be_gmt_start_ms e <=? be_gmt_end_ms e) in
    let? duration_ms := i64_op (be_gmt_end_ms e - be_gmt_start_ms e) in
    Ok (Some (as_u 64 duration_ms)).
Definition is_expired (e : BucketEntry) (min_timestamp_not_expired : Z) : bool :=
  if is_permanent e then false else be_gmt_end_ms e <=? min_timestamp_not_expired.

(** ** Names ([encoding.rs]) *)
(** [%Y-%m-%dT%H:%M:%S] and [%Y%m%d%H%M%S] of a timestamp of milliseconds, if [chrono] has it. *)
Class Chrono := {
  bucket_timestamp : Z -> option string;
  wal_timestamp : Z -> option string
}.
Definition META_NAMESPACE_PREFIX : string := "v1/namespace".
Definition META_BUCKET_PREFIX : string := "v1/bucket".
(** [{:0>6}]. *)
Definition zeros (n : nat) : string := string_of_list_ascii (replicate n "0"%char).
Definition pad6 (n : nat) : string := let s := pretty (N.of_nat n) in zeros (6 - String.length s) +:+ s.
(** [Display] of [ReadableDuration] ([common_util/src/config.rs]). *)
Definition SECOND : Z := 1000.
Definition MINUTE : Z := 60 * SECOND.
Definition HOUR : Z := 60 * MINUTE.
Definition DAY : Z := 24 * HOUR.
Definition decimal (n : Z) : string := pretty (Z.to_N n).
Definition duration_to_string (dur : Z) : string :=
  let part (m : Z) (u : string) (d : Z) := if m <=? d then (decimal (d / m) +:+ u, d mod m) else (EmptyString, d) in
  let '(d, r) := part DAY "d"%string dur in
  let '(h, r) := part HOUR "h"%string r in
  let '(m, r) := part MINUTE "m"%string r in
  let '(s, r) := part SECOND "s"%string r in
  let ms := if 0 <? r then decimal r +:+ "ms" else EmptyString in
  let out := d +:+ h +:+ m +:+ s +:+ ms in
  if String.eqb out "" then "0s" else out.
Definition scan_request_for_prefix (prefix : string) : ScanRequest := MkScanRequest (KbExcluded (as_bytes prefix)) MaxIncluded false.
Definition format_namespace_key (namespace : string) : string := META_NAMESPACE_PREFIX +:+ "/" +:+ namespace.
Definition bucket_key_prefix (namespace : string) : string := META_BUCKET_PREFIX +:+ "/" +:+ namespace +:+ "/".
Definition format_timed_bucket_key `{Chrono} (namespace : string) (duration gmt_start_ms : Z) : option string :=
  match bucket_timestamp gmt_start_ms with
  | Some dt => Some (META_BUCKET_PREFIX +:+ "/" +:+ namespace +:+ "/" +:+ duration_to_string duration +:+ "/" +:+ dt)
  | None => None
  end.
Definition format_permanent_bucket_key (namespace : string) : string := META_BUCKET_PREFIX +:+ "/" +:+ namespace +:+ "/permanent".
Definition format_table_unit_meta_name (namespace : string) (shard_id : nat) : string := "table_unit_meta_" +:+ namespace +:+ "_" +:+ pad6 shard_id.
Definition format_timed_wal_name `{Chrono} (namespace : string) (gmt_start_ms : Z) (shard_id : nat) : option string :=
  match wal_timestamp gmt_start_ms with
  | Some dt => Some ("wal_" +:+ namespace +:+ "_" +:+ dt +:+ "_" +:+ pad6 shard_id)
  | None => None
  end.
Definition format_permanent_wal_name (namespace : string) (shard_id : nat) : string := "wal_" +:+ namespace +:+ "_permanent_" +:+ pad6 shard_id.

(** ** Bucket sets *)
Definition BUCKET_DURATION_MS : Z := 1000 * 3600 * 24.
Definition META_TABLE_NAME : string := "meta".
Inductive BucketSet :=
| Timed (buckets : list (Z * Bucket))
| Permanent (bucket : option Bucket).
Definition bucket_set_new (has_ttl : bool) : BucketSet := if has_ttl then Timed [] else Permanent None.
(** Overwriting a bucket unwinds. *)
Definition insert_bucket {F} (s : BucketSet) (b : Bucket) : res F BucketSet :=
  match s with
  | Timed m => match bt_get Z.compare (gmt_start_ms b) m with Some _ => Panic | None => Ok (Timed (bt_insert Z.compare (gmt_start_ms b) b m)) end
  | Permanent o => match o with Some _ => Panic | None => Ok (Permanent (Some b)) end
  end.
Definition get_bucket (s : BucketSet) (start_ms : Z) : option Bucket :=
  match s with Timed m => bt_get Z.compare start_ms m | Permanent o => o end.
Definition expired_buckets (s : BucketSet) (now ttl : Z) : list Bucket :=
  match s with
  | Timed m =>
      match Timestamp.checked_sub_duration now ttl with
      | Some earliest => filter (fun b => is_expired (bk_entry b) earliest = true) (snd <$> filter (fun kv => kv.1 <= earliest) m)
      | None => []
      end
  | Permanent _ => []
  end.
Definition buckets (s : BucketSet) : list Bucket :=
  match s with Timed m => snd <$> m | Permanent (Some b) => [b] | Permanent None => [] end.
Definition remove_timed_bucket (s : BucketSet) (start_ms : Z) : BucketSet :=
  match s with Timed m => Timed (bt_remove Z.compare start_ms m) | Permanent o => Permanent o end.

(** ** The namespace *)
Inductive NsError (E : Type) :=
| NsCreateTable (source : E)
| InitTableUnitMeta (source : E)
| LoadBuckets (source : option E)
| BucketMeta (source : option E)
| BucketOutOfRange (timestamp : Z)
| NsEncode
| NsDecode (key : string)
| PersistValue (key : string) (source : E)
| PurgeBucket (source : option E)
| NsGetValue (key : string) (source : E)
| ValueNotFound (key : string)
| BuildNamespace (source : ModelError)
| OpenTableUnit (source : TableUnitError E)
| CreateTableUnit (source : TableUnitError E)
| WriteTableUnit (source : TableUnitError E)
| DeleteEntries (source : TableUnitError E)
| CleanLog (source : TableUnitError E).
Arguments NsCreateTable {E}. Arguments InitTableUnitMeta {E}. Arguments LoadBuckets {E}. Arguments BucketMeta {E}. Arguments BucketOutOfRange {E}.
Arguments NsEncode {E}. Arguments NsDecode {E}. Arguments PersistValue {E}. Arguments PurgeBucket {E}. Arguments NsGetValue {E}.
Arguments ValueNotFound {E}. Arguments BuildNamespace {E}. Arguments OpenTableUnit {E}. Arguments CreateTableUnit {E}. Arguments WriteTableUnit {E}.
Arguments DeleteEntries {E}. Arguments CleanLog {E}.

Section namespace.
Context {K E : Type} {KV : TableKv K E} {JT : JsonCodec TableUnitEntry} {JB : JsonCodec BucketEntry} {JN : JsonCodec NamespaceEntry} {CH : Chrono}.
Record NamespaceInner := MkInner {
  in_kv : K;
  in_entry : NamespaceEntry;
  in_bucket_set : BucketSet;
  in_table_units : gmap (Z * Z) TableUnitState;
  in_meta_table_name : string;
  in_table_unit_meta_tables : list string;
  in_config : NamespaceConfig;
  in_outdated : list Bucket
}.
Definition in_name (i : NamespaceInner) : string := ne_name (in_entry i).
Definition set_kv (i : NamespaceInner) (kv : K) : NamespaceInner :=
  MkInner kv (in_entry i) (in_bucket_set i) (in_table_units i) (in_meta_table_name i) (in_table_unit_meta_tables i) (in_config i) (in_outdated i).
Definition set_bucket_set (i : NamespaceInner) (s : BucketSet) : NamespaceInner :=
  MkInner (in_kv i) (in_entry i) s (in_table_units i) (in_meta_table_name i) (in_table_unit_meta_tables i) (in_config i) (in_outdated i).
Definition set_table_units (i : NamespaceInner) (u : gmap (Z * Z) TableUnitState) : NamespaceInner :=
  MkInner (in_kv i) (in_entry i) (in_bucket_set i) u (in_meta_table_name i) (in_table_unit_meta_tables i) (in_config i) (in_outdated i).
Definition set_outdated (i : NamespaceInner) (bs : list Bucket) : NamespaceInner :=
  MkInner (in_kv i) (in_entry i) (in_bucket_set i) (in_table_units i) (in_meta_table_name i) (in_table_unit_meta_tables i) (in_config i) bs.
Definition list_buckets (i : NamespaceInner) : list Bucket := buckets (in_bucket_set i).

(** Operations change the namespace and may fail. *)
Definition M (A : Type) : Type := NamespaceInner -> NamespaceInner * res (NsError E) A.
Definition mret {A} (a : A) : M A := fun i => (i, Ok a).
Definition mbind {A B} (m : M A) (k : A -> M B) : M B :=
  fun i => match m i with (i, Ok a) => k a i | (i, Err e) => (i, Err e) | (i, Panic) => (i, Panic) end.
Definition mlift {A} (r : res (NsError E) A) : M A := fun i => (i, r).
Definition mask : M NamespaceInner := fun i => (i, Ok i).
Definition mput (f : NamespaceInner -> NamespaceInner) : M unit := fun i => (f i, Ok tt).
Definition mkv {F A} (g : F -> NsError E) (f : K -> K * res F A) : M A :=
  fun i => let (kv, r) := f (in_kv i) in (set_kv i kv, rcontext g r).
#[local] Notation "'let!' x := m 'in' k" := (mbind m (fun x => k)) (at level 200, x pattern, m at level 100, k at level 200).

Definition table_unit_meta_table (table_id : Z) : M string :=
  let! i := mask in
  mlift (match in_table_unit_meta_tables i with
         | [] => Panic
         | names => unwrap (names !! Z.to_nat (table_id mod len names))
         end).
Definition create_table_if_needed (g : E -> NsError E) (table_name : string) : M unit :=
  let! exists_ := mkv g (fun kv => (kv, kv_table_exists kv table_name)) in
  if exists_ : bool then mret tt else mkv g (fun kv => kv_create_table kv table_name).
Fixpoint create_tables (g : E -> NsError E) (names : list string) : M unit :=
  match names with
  | [] => mret tt
  | n :: names => let! _ := create_table_if_needed g n in create_tables g names
  end.
Definition init_table_unit_meta : M unit := let! i := mask in create_tables InitTableUnitMeta (in_table_unit_meta_tables i).

(** [Bucket::new]. *)
Fixpoint wal_shard_names (namespace : string) (entry : BucketEntry) (shard_ids : list nat) : res (NsError E) (list string) :=
  match shard_ids with
  | [] => Ok []
  | shard_id :: shard_ids =>
      let? table_name := if is_permanent entry then Ok (format_permanent_wal_name namespace shard_id)
        else match format_timed_wal_name namespace (be_gmt_start_ms entry) shard_id with Some n => Ok n | None => Err (BucketMeta None) end in
      let? names := wal_shard_names namespace entry shard_ids in
      Ok (table_name :: names)
  end.
Definition bucket_new (namespace : string) (entry : BucketEntry) : res (NsError E) Bucket :=
  let? names := wal_shard_names namespace entry (seq 0 (Z.to_nat (be_shard_num entry))) in Ok (MkBucket entry names).
Definition format_bucket_key (b : Bucket) (namespace : string) : res (NsError E) string :=
  let? d := bucket_duration (bk_entry b) in
  match d with
  | Some bucket_duration =>
      match format_timed_bucket_key namespace bucket_duration (gmt_start_ms b) with Some k => Ok k | None => Err (BucketMeta None) end
  | None => Ok (format_permanent_bucket_key namespace)
  end.
Definition open_bucket (b : Bucket) : M Bucket :=
  let! _ := create_tables (fun e => BucketMeta (Some e)) (bk_wal_shard_names b) in
  let! i := mask in
  let! s := mlift (insert_bucket (in_bucket_set i) b) in
  let! _ := mput (fun i => set_bucket_set i s) in
  mret b.

(** ** Loading, creating and purging buckets *)
Fixpoint starts_with (prefix k : bytes) : bool :=
  match prefix, k with
  | [], _ => true
  | p :: prefix, b :: k => (p =? b) && starts_with prefix k
  | _ :: _, [] => false
  end.
Definition outdated (i : NamespaceInner) (now : Z) (entry : BucketEntry) : bool :=
  match we_ttl (ne_wal (in_entry i)) with
  | Some ttl => match Timestamp.checked_sub_duration now ttl with Some earliest => is_expired entry earliest | None => false end
  | None => false
  end.
Fixpoint load_loop (now : Z) (key_prefix : bytes) (iter : list (bytes * bytes)) (outdated_buckets : list Bucket) : M (list Bucket) :=
  match iter with
  | [] => mret outdated_buckets
  | (key, value) :: iter =>
      if negb (starts_with key_prefix key) then mret outdated_buckets
      else
        let! entry := mlift (match json_decode value with Some e => Ok e | None => Err (LoadBuckets None) end) in
        let! i := mask in
        let! b := mlift (bucket_new (in_name i) entry) in
        if outdated i now entry then load_loop now key_prefix iter (outdated_buckets ++ [b])
        else let! _ := open_bucket b in load_loop now key_prefix iter outdated_buckets
  end.
Definition load_buckets (now : Z) : M unit :=
  let! i := mask in
  let key_prefix := bucket_key_prefix (in_name i) in
  let! iter := mkv (fun e => LoadBuckets (Some e)) (fun kv => (kv, kv_scan kv (in_meta_table_name i) (scan_request_for_prefix key_prefix))) in
  let! outdated_buckets := load_loop now (as_bytes key_prefix) iter [] in
  mput (fun i => set_outdated i outdated_buckets).

Fixpoint drop_tables (kv : K) (names : list string) : K :=
  match names with [] => kv | n :: names => drop_tables (kv_drop_table kv n).1 names end.
Fixpoint purge_loop (kv : K) (namespace : string) (bs : list Bucket) (batch : list WriteOp) : K * res (NsError E) (list WriteOp) :=
  match bs with
  | [] => (kv, Ok batch)
  | b :: bs =>
      let kv := drop_tables kv (bk_wal_shard_names b) in
      match format_bucket_key b namespace with
      | Ok key => purge_loop kv namespace bs (batch ++ [WDelete (as_bytes key)])
      | Err e => (kv, Err e)
      | Panic => (kv, Panic)
      end
  end.
Definition purge_buckets (bs : list Bucket) (namespace meta_table_name : string) : M unit :=
  fun i =>
    match purge_loop (in_kv i) namespace bs [] with
    | (kv, Ok batch) => let (kv, r) := kv_write kv meta_table_name batch in (set_kv i kv, rcontext (fun e => PurgeBucket (Some e)) r)
    | (kv, Err _) => (set_kv i kv, Err (PurgeBucket None))
    | (kv, Panic) => (set_kv i kv, Panic)
    end.
(** The task of the runtime. *)
Definition purge_outdated : M unit :=
  let! i := mask in
  let! _ := mput (fun i => set_outdated i []) in
  purge_buckets (in_outdated i) (in_name i) (in_meta_table_name i).
Definition purge_expired_buckets (now : Z) : M unit :=
  let! i := mask in
  match we_ttl (ne_wal (in_entry i)) with
  | Some ttl =>
      match expired_buckets (in_bucket_set i) now ttl with
      | [] => mret tt
      | expired =>
          let! _ := mput (fun i => set_bucket_set i (foldl (fun s b => remove_timed_bucket s (gmt_start_ms b)) (in_bucket_set i) expired)) in
          purge_buckets expired (in_name i) (in_meta_table_name i)
      end
  | None => mret tt
  end.

(** ** [BucketCreator] *)
Definition get_value (key : string) : M bytes :=
  let! i := mask in
  let! o := mkv (NsGetValue key) (fun kv => (kv, kv_get kv (in_meta_table_name i) (as_bytes key))) in
  mlift (match o with Some v => Ok v | None => Err (ValueNotFound key) end).
Definition get_bucket_by_key (key : string) : M Bucket :=
  let! value := get_value key in
  let! entry := mlift (match json_decode value with Some e => Ok e | None => Err (NsDecode key) end) in
  let! i := mask in
  mlift (bucket_new (in_name i) entry).
Definition try_persist_bucket (b : Bucket) : M Bucket :=
  let! i := mask in
  let! key := mlift (format_bucket_key b (in_name i)) in
  let! value := mlift (match json_encode (bk_entry b) with Some v => Ok v | None => Err NsEncode end) in
  fun i =>
    match kv_write (in_kv i) (in_meta_table_name i) [WInsert (as_bytes key) value] with
    | (kv, Ok _) => (set_kv i kv, Ok b)
    | (kv, Err e) =>
        if is_primary_key_duplicate e then get_bucket_by_key key (set_kv i kv) else (set_kv i kv, Err (PersistValue key e))
    | (kv, Panic) => (set_kv i kv, Panic)
    end.
Definition create_bucket (b : Bucket) : M Bucket := let! b := try_persist_bucket b in open_bucket b.
Definition creator_get_or_create_bucket (start_ms : Z) : M Bucket :=
  let! i := mask in
  match get_bucket (in_bucket_set i) start_ms with
  | Some b => mret b
  | None =>
      let shard_num := Z.of_nat (we_shard_num (ne_wal (in_entry i))) in
      let! entry := mlift (if is_some (nc_ttl (in_config i))
        then match new_timed shard_num start_ms BUCKET_DURATION_MS with Some e => Ok e | None => Err (BucketOutOfRange start_ms) end
        else Ok (new_permanent shard_num)) in
      let! _ := mlift (rassert (Bool.eqb (is_permanent entry) (negb (is_some (nc_ttl (in_config i)))))) in
      let! b := mlift (bucket_new (in_name i) entry) in
      create_bucket b
  end.
Definition floor_bucket (timestamp : Z) : M Z :=
  let! o := mlift (Timestamp.checked_floor_by_i64 timestamp BUCKET_DURATION_MS) in
  mlift (match o with Some s => Ok s | None => Err (BucketOutOfRange timestamp) end).
Definition get_or_create_bucket (timestamp : Z) : M Bucket :=
  let! start_ms := floor_bucket timestamp in
  let! i := mask in
  match get_bucket (in_bucket_set i) start_ms with
  | Some b => mret b
  | None => creator_get_or_create_bucket start_ms
  end.
Definition create_next_bucket (now : Z) : M Bucket :=
  let! now_start := floor_bucket now in
  let! next_start := mlift (match Timestamp.checked_add_i64 now_start BUCKET_DURATION_MS with
    | Some s => Ok s | None => Err (BucketOutOfRange now_start) end) in
  creator_get_or_create_bucket next_start.
Definition ignore {A} (m : M A) : M unit := fun i => match m i with (i, Panic) => (i, Panic) | (i, _) => (i, Ok tt) end.
Definition bucket_monitor_routine (now : Z) : M unit := let! _ := ignore (create_next_bucket now) in ignore (purge_expired_buckets now).

(** ** Table units *)
Definition loc (location : WalLocation) : Z * Z := (wl_region_id location, wl_table_id location).
Definition insert_or_get_table_unit (location : WalLocation) (u : TableUnitState) : M TableUnitState :=
  let! i := mask in
  match in_table_units i !! loc location with
  | Some v => mret v
  | None => let! _ := mput (fun i => set_table_units i (<[loc location := u]> (in_table_units i))) in mret u
  end.
Definition open_table_unit (location : WalLocation) : M (option TableUnitState) :=
  let! meta := table_unit_meta_table (wl_table_id location) in
  let! i := mask in
  let! o := mkv OpenTableUnit (fun kv => (kv, open kv meta (wl_region_id location) (wl_table_id location) (list_buckets i))) in
  match o with
  | Some u => let! u := insert_or_get_table_unit location u in mret (Some u)
  | None => mret None
  end.
Definition get_or_open_table_unit (location : WalLocation) : M (option TableUnitState) :=
  let! i := mask in
  match in_table_units i !! loc location with Some u => mret (Some u) | None => open_table_unit location end.
Definition create_table_unit (location : WalLocation) : M TableUnitState :=
  let! meta := table_unit_meta_table (wl_table_id location) in
  let! i := mask in
  let! u := mkv CreateTableUnit (fun kv => open_or_create kv meta (wl_region_id location) (wl_table_id location) (list_buckets i)) in
  insert_or_get_table_unit location u.
Definition get_or_create_table_unit (location : WalLocation) : M TableUnitState :=
  let! i := mask in
  match in_table_units i !! loc location with Some u => mret u | None => create_table_unit location end.
(** A unit is shared: what it does to its sequences is seen by all. *)
Definition on_unit {A} (g : TableUnitError E -> NsError E) (location : WalLocation)
  (f : K -> TableUnitState -> K * TableUnitState * res (TableUnitError E) A) (u : TableUnitState) : M A :=
  fun i =>
    let '(kv, u, r) := f (in_kv i) u in
    (set_table_units (set_kv i kv) (<[loc location := u]> (in_table_units i)), rcontext g r).
Definition ns_write_log (now : Z) (batch : LogWriteBatch) : M Z :=
  let! b := get_or_create_bucket now in
  let! u := get_or_create_table_unit (lb_location batch) in
  on_unit WriteTableUnit (lb_location batch) (fun kv u => write_log kv u b batch) u.
Definition last_sequence (location : WalLocation) : M Z :=
  let! o := get_or_open_table_unit location in
  mret (match o with Some u => tu_last_sequence u | None => MIN_SEQUENCE_NUMBER end).
Definition close_region (region_id : Z) : M unit :=
  mput (fun i => set_table_units i (filter (fun kv => tu_region_id kv.2 <> region_id) (in_table_units i))).
Definition ns_read_log (location : WalLocation) (start stop : ReadBoundary) : M TableLogIterator :=
  let! i := mask in
  let bs := list_buckets i in
  let! o := get_or_open_table_unit location in
  mret (match o with Some u => read_log u bs location start stop | None => iter_new_empty end).
Definition delete_entries (location : WalLocation) (sequence_num : Z) : M unit :=
  let! o := get_or_open_table_unit location in
  match o with
  | Some u =>
      let! meta := table_unit_meta_table (wl_table_id location) in
      on_unit DeleteEntries location (fun kv u => delete_entries_up_to kv u meta sequence_num) u
  | None => mret tt
  end.
Definition ns_scan_log (region_id : Z) : M TableLogIterator := let! i := mask in mret (scan_log (list_buckets i) region_id).
Fixpoint clean_units (bs : list Bucket) (batch_size : nat) (us : list TableUnitState) : M unit :=
  match us with
  | [] => mret tt
  | u :: us => let! _ := mkv CleanLog (fun kv => clean_deleted_logs kv u batch_size bs) in clean_units bs batch_size us
  end.
Definition ns_clean_deleted_logs : M unit :=
  let! i := mask in
  clean_units (list_buckets i) (nc_clean_scan_batch_size (in_config i)) ((map_to_list (in_table_units i)).*2).
Definition log_cleaner_routine : M unit := ignore ns_clean_deleted_logs.

(** ** Opening a namespace *)
Definition ns_new (kv : K) (meta_table_name : string) (entry : NamespaceEntry) (config : NamespaceConfig) (now : Z)
  : NamespaceInner * res (NsError E) unit :=
  let table_unit_meta_tables := format_table_unit_meta_name (ne_name entry) <$> seq 0 (ne_table_unit_meta_shard_num entry) in
  let inner := MkInner kv entry (bucket_set_new (is_some (nc_ttl config))) ∅ meta_table_name table_unit_meta_tables config [] in
  (let! _ := init_table_unit_meta in load_buckets now) inner.
(** A failure to see whether the table is there counts as its absence. *)
Definition is_table_created (kv : K) (table_name : string) : bool := match kv_table_exists kv table_name with Ok v => v | _ => false end.
Definition init_meta_table (kv : K) (meta_table_name : string) : K * res (NsError E) unit :=
  if is_table_created kv meta_table_name then (kv, Ok tt)
  else let (kv, r) := kv_create_table kv meta_table_name in (kv, rcontext NsCreateTable r).
Definition load_namespace_from_meta (kv : K) (meta_table_name namespace_name : string) : res (NsError E) (option NamespaceEntry) :=
  let key := format_namespace_key namespace_name in
  let? value_opt := rcontext (NsGetValue key) (kv_get kv meta_table_name (as_bytes key)) in
  match value_opt with
  | Some value => match json_decode value with Some e => Ok (Some e) | None => Err (NsDecode key) end
  | None => Ok None
  end.
Definition get_namespace_entry_by_key (kv : K) (meta_table_name key : string) : res (NsError E) NamespaceEntry :=
  let? value_opt := rcontext (NsGetValue key) (kv_get kv meta_table_name (as_bytes key)) in
  match value_opt with
  | Some value => match json_decode value with Some e => Ok e | None => Err (NsDecode key) end
  | None => Err (ValueNotFound key)
  end.
(** The entry to open the namespace with, persisted unless another client did it. *)
Definition try_persist_namespace (kv : K) (meta_table_name namespace : string) (config : NamespaceConfig) : K * res (NsError E) NamespaceEntry :=
  match new_namespace_entry config namespace with
  | Ok entry =>
      let key := format_namespace_key namespace in
      match json_encode entry with
      | Some value =>
          match kv_write kv meta_table_name [WInsert (as_bytes key) value] with
          | (kv, Ok _) => (kv, Ok entry)
          | (kv, Err e) =>
              if is_primary_key_duplicate e then (kv, get_namespace_entry_by_key kv meta_table_name key) else (kv, Err (PersistValue key e))
          | (kv, Panic) => (kv, Panic)
          end
      | None => (kv, Err NsEncode)
      end
  | Err e => (kv, Err (BuildNamespace e))
  | Panic => (kv, Panic)
  end.
(** The tables after the call, and the namespace if it is open. *)
Definition ns_open (kv : K) (name : string) (config : NamespaceConfig) (now : Z) : K * res (NsError E) NamespaceInner :=
  let config := sanitize config in
  let (kv, r) := init_meta_table kv META_TABLE_NAME in
  match (let? _ := r in load_namespace_from_meta kv META_TABLE_NAME name) with
  | Ok o =>
      let (kv, r) := match o with
        | Some entry => (kv, let? _ := rassert (Bool.eqb (we_enable_ttl (ne_wal entry)) (is_some (nc_ttl config))) in Ok entry)
        | None => try_persist_namespace kv META_TABLE_NAME name config
        end in
      match r with
      | Ok entry => let (inner, r) := ns_new kv META_TABLE_NAME entry config now in (in_kv inner, let? _ := r in Ok inner)
      | Err e => (kv, Err e)
      | Panic => (kv, Panic)
      end
  | Err e => (kv, Err e)
  | Panic => (kv, Panic)
  end.
Definition ns_close (i : NamespaceInner) : NamespaceInner := set_table_units i ∅.
End namespace.
