(* ===== verification/NamespaceBuckets.v ===== *)
(** * The buckets of a namespace

    Theorems about [WalNamespace.v].  The names of tables and meta records tell
    buckets apart ([ChronoLaws]); [ns_wf] is the invariant of a namespace on a service
    that keeps [TableKvLaws], with any operation free to fail: every operation keeps
    it, so do the tasks of the runtime, other users of the service, and opening the
    namespace again ([ns_step]). *)

From Stdlib Require Import ZArith Lia String Ascii.
From stdpp Require Import base tactics option list sorting numbers gmap strings pretty.
From S2P Require Import Prelude Strings Time Bytes Datum Varint MemComparable BTree TableKv KvEncoder TableUnit UnitLog WalUnits WalNamespace.

#[local] Open Scope Z_scope.

(** ** Names are unique *)
Class ChronoLaws {CH : Chrono} := {
  (** A format to the second tells timestamps of whole seconds apart. *)
  wal_timestamp_inj : forall s s' d, s mod 1000 = 0 -> s' mod 1000 = 0 -> wal_timestamp s = Some d -> wal_timestamp s' = Some d -> s = s';
  bucket_timestamp_inj : forall s s' d, s mod 1000 = 0 -> s' mod 1000 = 0 -> bucket_timestamp s = Some d -> bucket_timestamp s' = Some d -> s = s';
  (** Digits, with a sign for years out of four digits. *)
  wal_timestamp_digits : forall s d, wal_timestamp s = Some d ->
    Forall (fun c => c = "+"%char \/ c = "-"%char \/ (48 <= N_of_ascii c <= 57)%N) (list_ascii_of_string d);
  (** Both formats take the same timestamps. *)
  timestamps_both : forall s, is_Some (wal_timestamp s) <-> is_Some (bucket_timestamp s)
}.
Definition plain (l : list ascii) : Prop := "_"%char ∉ l.
Lemma digits_plain l : Forall (fun c => (48 <= N_of_ascii c <= 57)%N) l -> plain l.
Proof. intros Hl Hin. rewrite Forall_forall in Hl. specialize (Hl _ Hin). vm_compute in Hl. naive_solver. Qed.
Lemma pad6_plain n : plain (chars (pad6 n)).
Proof.
  apply digits_plain. unfold pad6. rewrite chars_app. apply Forall_app. split.
  - unfold zeros. rewrite list_ascii_of_string_of_list_ascii. by apply Forall_replicate.
  - apply digits_pretty.
Qed.
Lemma timestamp_plain `{ChronoLaws} s d : wal_timestamp s = Some d -> plain (chars d) /\ d <> "permanent"%string.
Proof.
  intros Hd%wal_timestamp_digits. split.
  - intros Hin. rewrite Forall_forall in Hd. specialize (Hd _ Hin) as [?|[?|Hd]]; [done|done|]. vm_compute in Hd. naive_solver.
  - intros ->. inversion Hd as [|? ? [?|[?|Hc]]]; [done|done|]. vm_compute in Hc. naive_solver.
Qed.
Lemma wal_name_inj ns1 t1 p1 ns2 t2 p2 : plain (chars t1) -> plain (chars p1) -> plain (chars t2) -> plain (chars p2) ->
  ("wal_" +:+ ns1 +:+ "_" +:+ t1 +:+ "_" +:+ p1 = "wal_" +:+ ns2 +:+ "_" +:+ t2 +:+ "_" +:+ p2)%string -> ns1 = ns2 /\ t1 = t2 /\ p1 = p2.
Proof.
  intros Ht1 Hp1 Ht2 Hp2 Heq. apply (inj (String.append _)) in Heq. apply (f_equal chars) in Heq. rewrite !chars_app in Heq.
  change (chars "_") with ["_"%char] in Heq. rewrite !app_assoc in Heq. rewrite <- !app_assoc in Heq.
  assert (forall (a b c : list ascii), a ++ ["_"%char] ++ b ++ ["_"%char] ++ c = (a ++ "_"%char :: b) ++ "_"%char :: c) as Hre.
  { intros a b c. by rewrite <- app_assoc. }
  rewrite !Hre in Heq. apply last_sep in Heq as [Heq Hp]; [|done|done]. apply last_sep in Heq as [Hn Ht]; [|done|done].
  split_and!; by apply chars_inj.
Qed.

(** ** Buckets of a namespace *)
Section keeping.
Context {K E : Type} {KV : TableKv K E} {KL : TableKvLaws K E} {JT : JsonCodec TableUnitEntry} {JB : JsonCodec BucketEntry} {JN : JsonCodec NamespaceEntry}.
Context {CH : Chrono} {CL : ChronoLaws}.
Context (name : string) (shard_num : nat) (has_ttl : bool).

Definition entry_ok (e : BucketEntry) : Prop :=
  be_shard_num e = Z.of_nat shard_num /\
  if has_ttl then be_gmt_start_ms e mod BUCKET_DURATION_MS = 0 /\ be_gmt_end_ms e = be_gmt_start_ms e + BUCKET_DURATION_MS /\
    sint 64 (be_gmt_start_ms e) /\ sint 64 (be_gmt_end_ms e)
  else e = new_permanent (Z.of_nat shard_num).
Definition named (b : Bucket) : Prop := bucket_new (E:=E) name (bk_entry b) = Ok b /\ entry_ok (bk_entry b).
Definition bucket_key (b : Bucket) (key : string) : Prop := format_bucket_key (E:=E) b name = Ok key.
(** The meta table has a record of each bucket, and no other with the prefix. *)
Definition meta_ok (mt : table) : Prop := forall k v, (k, v) ∈ mt -> starts_with (as_bytes (bucket_key_prefix name)) k = true ->
  exists b key, named b /\ bucket_key b key /\ k = as_bytes key /\ json_decode v = Some (bk_entry b).
Definition persisted (mt : table) (b : Bucket) : Prop :=
  exists key v, bucket_key b key /\ (as_bytes key, v) ∈ mt /\ json_decode v = Some (bk_entry b).
Definition tables_exist (kv : K) (b : Bucket) : Prop := forall n, n ∈ bk_wal_shard_names b -> is_Some (kv_view kv !! n).
Definition set_ok (s : BucketSet) : Prop :=
  match s with
  | Timed m => has_ttl = true /\ bt_sorted Z.compare m /\ forall s b, (s, b) ∈ m -> s = gmt_start_ms b
  | Permanent _ => has_ttl = false
  end.
Record ns_wf (i : NamespaceInner (K:=K)) : Prop := {
  nw_name : in_name i = name;
  nw_shards : we_shard_num (ne_wal (in_entry i)) = shard_num;
  nw_ttl : is_some (nc_ttl (in_config i)) = has_ttl;
  nw_meta_name : in_meta_table_name i = META_TABLE_NAME;
  nw_kv : kv_ok (in_kv i);
  nw_set : set_ok (in_bucket_set i);
  nw_outdated : Forall named (in_outdated i);
  nw_unit_meta : META_TABLE_NAME ∉ in_table_unit_meta_tables i;
  nw_meta : exists mt : table, kv_view (in_kv i) !! META_TABLE_NAME = Some mt /\ meta_ok mt /\
    Forall (fun b => named b /\ tables_exist (in_kv i) b /\ persisted mt b) (list_buckets i)
}.

(** *** Entries and names *)
Lemma entry_permanent e : entry_ok e -> is_permanent e = negb has_ttl.
Proof.
  intros [_ He]. unfold is_permanent. destruct has_ttl; cbn [negb].
  - destruct He as (Hm & -> & _). apply Z.eqb_neq. unfold Timestamp.MAX, i64_max, BUCKET_DURATION_MS in *.
    intros Heq. apply Z.mod_divide in Hm as [q Hq]; [|lia]. rewrite Hq in Heq. lia.
  - by subst.
Qed.
Lemma entry_duration {F} e : entry_ok e -> bucket_duration (F:=F) e = Ok (if has_ttl then Some BUCKET_DURATION_MS else None).
Proof.
  intros He. unfold bucket_duration. rewrite (entry_permanent e He). destruct He as [_ He]. destruct has_ttl; [|done]. cbn [negb].
  destruct He as (_ & -> & Hs & Hs'). rewrite Z.add_simpl_l. unfold rassert. rewrite (proj2 (Z.leb_le _ _)) by (unfold BUCKET_DURATION_MS; lia). done.
Qed.
Lemma named_eq b1 b2 : named b1 -> named b2 -> bk_entry b1 = bk_entry b2 -> b1 = b2.
Proof. intros [H1 _] [H2 _] Heq. congruence. Qed.
Lemma timed_entry_eq e1 e2 : entry_ok e1 -> entry_ok e2 -> be_gmt_start_ms e1 = be_gmt_start_ms e2 -> e1 = e2.
Proof.
  intros [Hn1 H1] [Hn2 H2] Hs. destruct e1 as [a1 b1 c1], e2 as [a2 b2 c2]. cbn in *. destruct has_ttl; [|congruence].
  destruct H1 as (_ & H1 & _), H2 as (_ & H2 & _). f_equal; lia.
Qed.
Lemma shard_names_form e ids names : wal_shard_names (E:=E) name e ids = Ok names -> entry_ok e -> forall n, n ∈ names ->
  exists t p, n = ("wal_" +:+ name +:+ "_" +:+ t +:+ "_" +:+ pad6 p)%string /\
    if has_ttl then wal_timestamp (be_gmt_start_ms e) = Some t else t = "permanent"%string.
Proof.
  intros Hw He. pose proof (entry_permanent e He) as Hp. revert names Hw. induction ids as [|id ids IH]; intros names Hw n Hn; cbn [wal_shard_names] in Hw.
  { injection Hw as <-. set_solver. }
  rewrite Hp in Hw. apply rbind_ok in Hw as (tn & Ht & Hw). apply rbind_ok in Hw as (ns & Hns & [= <-]). apply elem_of_cons in Hn as [->|Hn]; [|by apply (IH ns)].
  destruct has_ttl; cbn [negb] in Ht.
  - unfold format_timed_wal_name in Ht. destruct (wal_timestamp _) as [t|] eqn:Hts; [|done]. injection Ht as <-. by exists t, id.
  - injection Ht as <-. by exists "permanent"%string, id.
Qed.
Lemma bucket_names_form b n : named b -> n ∈ bk_wal_shard_names b ->
  exists t p, n = ("wal_" +:+ name +:+ "_" +:+ t +:+ "_" +:+ pad6 p)%string /\
    if has_ttl then wal_timestamp (gmt_start_ms b) = Some t else t = "permanent"%string.
Proof.
  intros [Hb He] Hn. unfold bucket_new in Hb. apply rbind_ok in Hb as (ns & Hns & Heq). injection Heq as Heq.
  apply (shard_names_form _ _ _ Hns He). by rewrite <- Heq in Hn.
Qed.
Lemma start_seconds b : has_ttl = true -> named b -> gmt_start_ms b mod 1000 = 0.
Proof.
  intros Ht [_ [_ He]]. rewrite Ht in He. destruct He as (Hm & _). unfold gmt_start_ms. apply Z.mod_divide in Hm as [q Hq]; [|done].
  rewrite Hq. unfold BUCKET_DURATION_MS. apply Z.mod_divide; [done|]. exists (q * 86400). lia.
Qed.
(** Tables of different buckets have different names. *)
Lemma names_disjoint b1 b2 n : named b1 -> named b2 -> n ∈ bk_wal_shard_names b1 -> n ∈ bk_wal_shard_names b2 -> b1 = b2.
Proof.
  intros H1 H2 Hn1 Hn2. apply named_eq; [done|done|]. destruct (bucket_names_form b1 n H1 Hn1) as (t1 & p1 & -> & Ht1).
  destruct (bucket_names_form b2 _ H2 Hn2) as (t2 & p2 & Heq & Ht2). destruct has_ttl eqn:Httl.
  - apply wal_name_inj in Heq as (_ & <- & _); [|by eapply timestamp_plain|apply pad6_plain|by eapply timestamp_plain|apply pad6_plain].
    apply timed_entry_eq; [apply H1|apply H2|]. apply (wal_timestamp_inj _ _ t1); [by apply start_seconds|by apply start_seconds|done|done].
  - destruct H1 as [_ [_ He1]], H2 as [_ [_ He2]]. rewrite Httl in He1, He2. congruence.
Qed.
Lemma name_not_meta b n : named b -> n ∈ bk_wal_shard_names b -> n <> META_TABLE_NAME.
Proof. intros Hb Hn. destruct (bucket_names_form b n Hb Hn) as (t & p & -> & _). done. Qed.

(** *** Keys of the meta table *)
Lemma as_bytes_app s1 s2 : as_bytes (s1 +:+ s2) = as_bytes s1 ++ as_bytes s2.
Proof. unfold as_bytes. by rewrite chars_app, fmap_app. Qed.
Lemma starts_with_app p k : starts_with p (p ++ k) = true.
Proof. induction p as [|b p IH]; [done|]. cbn. by rewrite Z.eqb_refl. Qed.
Lemma key_form b key : named b -> bucket_key b key ->
  exists t, key = bucket_key_prefix name +:+ t /\
    if has_ttl then exists dt, t = ("1d/" +:+ dt)%string /\ bucket_timestamp (gmt_start_ms b) = Some dt else t = "permanent"%string.
Proof.
  intros [_ He] Hk. unfold bucket_key, format_bucket_key in Hk. rewrite (entry_duration _ He) in Hk. cbn [rbind] in Hk. destruct has_ttl.
  - unfold format_timed_bucket_key in Hk. destruct (bucket_timestamp _) as [dt|]; [|done]. injection Hk as <-.
    exists ("1d/" +:+ dt)%string. split; [|by exists dt]. apply chars_inj. unfold bucket_key_prefix. rewrite !chars_app.
    change (chars (duration_to_string BUCKET_DURATION_MS)) with (chars "1d"). change (chars "1d/") with (chars "1d" ++ chars "/"). by rewrite <- !app_assoc.
  - injection Hk as <-. exists "permanent"%string. split; [|done]. apply chars_inj. unfold format_permanent_bucket_key, bucket_key_prefix.
    rewrite !chars_app. change (chars "/permanent") with (chars "/" ++ chars "permanent"). by rewrite <- !app_assoc.
Qed.
Lemma key_starts b key : named b -> bucket_key b key -> starts_with (as_bytes (bucket_key_prefix name)) (as_bytes key) = true.
Proof. intros Hb Hk. destruct (key_form b key Hb Hk) as (t & -> & _). rewrite as_bytes_app. apply starts_with_app. Qed.
Lemma key_inj b1 b2 key : named b1 -> named b2 -> bucket_key b1 key -> bucket_key b2 key -> b1 = b2.
Proof.
  intros H1 H2 Hk1 Hk2. apply named_eq; [done|done|]. destruct (key_form b1 key H1 Hk1) as (t1 & -> & Ht1).
  destruct (key_form b2 _ H2 Hk2) as (t2 & Heq & Ht2). apply (inj (String.append _)) in Heq as <-. destruct has_ttl eqn:Httl.
  - destruct Ht1 as (d1 & -> & Hd1), Ht2 as (d2 & Heq & Hd2). apply (inj (String.append _)) in Heq as <-. apply timed_entry_eq; [apply H1|apply H2|].
    apply (bucket_timestamp_inj _ _ d1); [by apply start_seconds|by apply start_seconds|done|done].
  - destruct H1 as [_ [_ He1]], H2 as [_ [_ He2]]. rewrite Httl in He1, He2. congruence.
Qed.

(** *** Reasoning about operations *)
(** What stays while tables are created: all but the tables, of which none goes. *)
Record ext (i0 i : NamespaceInner (K:=K)) : Prop := {
  ex_rest : i = set_kv i0 (in_kv i);
  ex_kv : kv_ok (in_kv i);
  ex_grow : forall n, is_Some (kv_view (in_kv i0) !! n) -> is_Some (kv_view (in_kv i) !! n);
  ex_meta : kv_view (in_kv i) !! META_TABLE_NAME = kv_view (in_kv i0) !! META_TABLE_NAME
}.
Lemma ext_refl i : kv_ok (in_kv i) -> ext i i.
Proof. intros H. split; [by destruct i|done|done|done]. Qed.
Lemma ext_trans i0 i1 i2 : ext i0 i1 -> ext i1 i2 -> ext i0 i2.
Proof. intros [H1 _ Hg1 Hm1] [H2 Hk Hg2 Hm2]. split; [by rewrite H2, H1|done|auto|congruence]. Qed.
Lemma tables_exist_ext i0 i b : ext i0 i -> tables_exist (in_kv i0) b -> tables_exist (in_kv i) b.
Proof. intros He Ht n Hn. by apply (ex_grow _ _ He), Ht. Qed.
Lemma ext_wf i0 i : ext i0 i -> ns_wf i0 -> ns_wf i.
Proof.
  intros He [Hn Hs Ht Hm Hk Hset Hod Hum (mt & Hmt & Hmok & Hbs)]. pose proof (ex_rest _ _ He) as Hr. destruct He as [_ Hkv Hg Hmeta].
  rewrite Hr. split; [done|done|done|done|exact Hkv|done|done|done|]. exists mt. cbn [set_kv in_kv]. rewrite Hmeta. split_and!; [done|done|].
  eapply Forall_impl; [exact Hbs|]. intros b (H1 & H2 & H3). split_and!; [done| |done]. intros n Hin. by apply Hg, H2.
Qed.
(** An operation that only creates tables. *)
Definition creates {A} (m : M (K:=K) (E:=E) A) (Q : A -> NamespaceInner -> Prop) : Prop :=
  forall i i' r, kv_ok (in_kv i) -> m i = (i', r) -> ext i i' /\ match r with Ok a => Q a i' | Err _ => True | Panic => False end.
Lemma create_table_grows kv n kv' r : kv_ok kv -> n <> META_TABLE_NAME -> kv_create_table kv n = (kv', r) ->
  kv_ok kv' /\ (forall n', is_Some (kv_view kv !! n') -> is_Some (kv_view kv' !! n')) /\
  kv_view kv' !! META_TABLE_NAME = kv_view kv !! META_TABLE_NAME /\ (r = Ok tt -> is_Some (kv_view kv' !! n)).
Proof.
  intros Hkv Hn Hc. destruct (kv_create_law kv n kv' r Hkv Hc) as [Hok [[Hv Hr]|[Hnone Hv]]]; rewrite Hv; (split; [done|]).
  - done.
  - split_and!; [|by rewrite lookup_insert_ne|intros _; rewrite lookup_insert_eq; by eexists]. intros n' Hs.
    destruct (decide (n' = n)) as [->|Hne]; [rewrite lookup_insert_eq; by eexists|by rewrite lookup_insert_ne].
Qed.
Lemma create_if_needed_ok g n : n <> META_TABLE_NAME -> creates (create_table_if_needed g n) (fun _ i => is_Some (kv_view (in_kv i) !! n)).
Proof.
  intros Hn i i' r Hkv Hc. unfold create_table_if_needed, mbind, mkv in Hc. destruct (kv_table_exists (in_kv i) n) as [b|e|] eqn:Hb; cbn [rcontext] in Hc.
  - apply kv_exists_law in Hb; [|done]. assert (Hi : set_kv i (in_kv i) = i) by (by destruct i). rewrite Hi in Hc. destruct b.
    + injection Hc as <- <-. split; [by apply ext_refl|]. symmetry in Hb. by apply bool_decide_eq_true in Hb.
    + destruct (kv_create_table (in_kv i) n) as [kv' r'] eqn:Hk. injection Hc as <- <-. destruct (create_table_grows _ _ _ _ Hkv Hn Hk) as (H1 & H2 & H3 & H4).
      split; [by split|]. destruct r' as [[]| |]; cbn; [by apply H4|done|]. by apply kv_create_panic in Hk.
  - injection Hc as <- <-. split; [|done]. replace (set_kv i (in_kv i)) with i by (by destruct i). by apply ext_refl.
  - by apply kv_exists_panic in Hb.
Qed.
Lemma create_tables_ok g ns : META_TABLE_NAME ∉ ns -> creates (create_tables g ns) (fun _ i => forall n, n ∈ ns -> is_Some (kv_view (in_kv i) !! n)).
Proof.
  induction ns as [|n ns IH]; intros Hm i i' r Hkv Hc; cbn [create_tables] in Hc.
  { injection Hc as <- <-. split; [by apply ext_refl|set_solver]. }
  unfold mbind in Hc. destruct (create_table_if_needed g n i) as [i1 r1] eqn:H1. apply create_if_needed_ok in H1 as [He1 Hr1]; [|set_solver|done].
  destruct r1 as [a| |]; [|injection Hc as <- <-; by split|done]. apply IH in Hc as [He2 Hr2]; [|set_solver|apply He1].
  split; [by eapply ext_trans|]. destruct r as [[]| |]; [|done|done]. intros n' [->|Hn']%elem_of_cons; [|by apply Hr2]. by apply (ex_grow _ _ He2).
Qed.

(** *** Creating buckets *)
Lemma set_elem s : set_ok s -> forall b', b' ∈ buckets s <-> match s with Timed m => (gmt_start_ms b', b') ∈ m | Permanent o => o = Some b' end.
Proof.
  intros Hs b'. destruct s as [m|[b0|]]; cbn [buckets].
  - destruct Hs as (_ & _ & Hst). rewrite list_elem_of_fmap. split; [|intros Hin; by exists (gmt_start_ms b', b')].
    intros ([s1 b1] & -> & Hin). cbn. by rewrite <- (Hst s1 b1 Hin).
  - rewrite list_elem_of_singleton. naive_solver.
  - set_solver.
Qed.
Lemma insert_bucket_ok {F} s b : set_ok s -> get_bucket s (gmt_start_ms b) = None ->
  exists s', insert_bucket (F:=F) s b = Ok s' /\ set_ok s' /\ forall b', b' ∈ buckets s' <-> b' = b \/ b' ∈ buckets s.
Proof.
  intros Hs Hget. destruct s as [m|[b0|]]; cbn [insert_bucket get_bucket] in *; [|done|].
  - rewrite Hget. eexists. split; [done|]. destruct Hs as (Ht & Hso & Hst).
    assert (Hel : forall kv, kv ∈ bt_insert Z.compare (gmt_start_ms b) b m <-> kv = (gmt_start_ms b, b) \/ kv ∈ m).
    { intros [s1 b1]. rewrite (bt_insert_iff Z.compare) by done. split; [tauto|]. intros [?|Hin]; [by left|right]. split; [done|]. cbn. intros ->.
      apply (bt_get_elem Z.compare) in Hin; [|done]. congruence. }
    split; [split_and!; [done|by apply (bt_insert_sorted Z.compare)|]|].
    + intros s1 b1 [[= -> ->]|Hin]%Hel; [done|by apply Hst].
    + intros b'. cbn [buckets]. rewrite !list_elem_of_fmap. split.
      * intros ([s1 b1] & -> & [[= -> ->]|Hin]%Hel); [by left|right]. by exists (s1, b1).
      * intros [->|([s1 b1] & -> & Hin)]; [exists (gmt_start_ms b, b)|exists (s1, b1)]; (split; [done|apply Hel]); [by left|by right].
  - eexists. split; [done|]. split; [done|]. intros b'. cbn. set_solver.
Qed.
(** What a creation keeps of the namespace: its buckets, and it may add one. *)
Definition adds_bucket (i i' : NamespaceInner (K:=K)) (b : Bucket) : Prop := forall b', b' ∈ list_buckets i' <-> b' = b \/ b' ∈ list_buckets i.
Definition is_persisted (i : NamespaceInner (K:=K)) (b : Bucket) : Prop :=
  exists mt : table, kv_view (in_kv i) !! META_TABLE_NAME = Some mt /\ persisted mt b.
Lemma open_bucket_ok b i i' r : ns_wf i -> named b -> is_persisted i b -> get_bucket (in_bucket_set i) (gmt_start_ms b) = None ->
  open_bucket b i = (i', r) -> ns_wf i' /\
  match r with Ok b' => b' = b /\ adds_bucket i i' b | Err _ => list_buckets i' = list_buckets i | Panic => False end.
Proof.
  intros Hwf Hb (mt & Hmt & Hper) Hget Ho. unfold open_bucket, mbind, mask, mlift, mput, mret in Ho.
  destruct (create_tables _ (bk_wal_shard_names b) i) as [i1 r1] eqn:Hc. apply create_tables_ok in Hc as [He Hr1]; [| |apply Hwf].
  2: { intros Hin. by apply (name_not_meta b _ Hb) in Hin. }
  pose proof (ext_wf _ _ He Hwf) as Hwf1. pose proof (ex_rest _ _ He) as Hrest. assert (in_bucket_set i1 = in_bucket_set i) as Hset by (by rewrite Hrest).
  destruct r1 as [[]| |]; [|injection Ho as <- <-; split; [done|unfold list_buckets; by rewrite Hset]|done].
  rewrite Hset in Ho. destruct (insert_bucket_ok (F:=NsError E) (in_bucket_set i) b (nw_set _ Hwf) Hget) as (s' & Hins & Hok & Hel). rewrite Hins in Ho.
  injection Ho as <- <-. split; [|split; [done|exact Hel]]. destruct Hwf1 as [Hn Hsh Ht Hm Hk _ Hod Hum (mt1 & Hmt1 & Hmok & Hbs)].
  split; [done|done|done|done|done|done|done|done|]. exists mt1. cbn [set_bucket_set in_kv]. split_and!; [done|done|]. apply Forall_forall.
  intros b' [->|Hb']%Hel.
  - split_and!; [done|exact Hr1|]. assert (mt1 = mt) as -> by (rewrite (ex_meta _ _ He) in Hmt1; congruence). done.
  - rewrite Forall_forall in Hbs. apply Hbs. unfold list_buckets. by rewrite Hset.
Qed.
(** A write to the meta table that adds at most the record of a bucket. *)
Lemma meta_insert_wf i b key v kv' res : ns_wf i -> named b -> bucket_key b key -> json_decode v = Some (bk_entry b) ->
  kv_write (in_kv i) META_TABLE_NAME [WInsert (as_bytes key) v] = (kv', res) ->
  ns_wf (set_kv i kv') /\ res <> Panic /\ (res = Ok tt -> is_persisted (set_kv i kv') b).
Proof.
  intros Hwf Hb Hkey Hdec Hw. pose proof Hwf as [Hn Hsh Ht Hm Hk Hset Hod Hum (mt & Hmt & Hmok & Hbs)].
  assert (res <> Panic) as Hnp by (intros ->; by apply kv_write_panic in Hw). apply kv_write_law in Hw as [Hok Hw]; [|done]. rewrite Hmt in Hw.
  destruct Hw as (fin & Hp & Hfit & Hview & Hres). pose proof (kv_view_sorted _ Hk _ _ Hmt) as Hsort.
  assert (Hel : forall x, x ∈ mt -> x ∈ foldl apply_op mt fin).
  { intros x Hx. destruct fin as [|op fin]; [done|]. destruct Hp as [rest Hp]. injection Hp as <- Hp. symmetry in Hp. apply app_nil in Hp as [-> ->].
    cbn [foldl apply_op]. apply (bt_insert_iff bytes_cmp); [done|]. right. split; [done|]. intros Heq. cbn in Hfit.
    destruct x as [k' v']. cbn in Heq. subst k'. apply (bt_get_elem bytes_cmp) in Hx; [|done]. by rewrite Hx in Hfit. }
  assert (Hnew : forall x, x ∈ foldl apply_op mt fin -> x = (as_bytes key, v) \/ x ∈ mt).
  { intros x Hx. destruct fin as [|op fin]; [by right|]. destruct Hp as [rest Hp]. injection Hp as <- Hp. symmetry in Hp. apply app_nil in Hp as [-> ->].
    cbn [foldl apply_op] in Hx. apply (bt_insert_iff bytes_cmp) in Hx; [|done]. tauto. }
  assert (Hmt' : kv_view kv' !! META_TABLE_NAME = Some (foldl apply_op mt fin)) by (rewrite Hview; apply lookup_insert_eq).
  split_and!; [|done|].
  - split; [done|done|done|done|done|done|done|done|]. exists (foldl apply_op mt fin). split_and!; [done| |].
    + intros k' v' [[= -> ->]|Hin]%Hnew Hst; [by exists b, key|by apply Hmok].
    + eapply Forall_impl; [exact Hbs|]. intros b' (H1 & H2 & (key' & v' & H3 & H4 & H5)). split_and!; [done| |exists key', v'; auto].
      intros n Hin. cbn [set_kv in_kv]. rewrite Hview. destruct (decide (n = META_TABLE_NAME)) as [->|Hne]; [rewrite lookup_insert_eq; by eexists|].
      rewrite lookup_insert_ne by done. by apply H2.
  - intros ->. specialize (Hres eq_refl) as ->. exists (foldl apply_op mt [WInsert (as_bytes key) v]). split; [done|]. exists key, v. split_and!; [done| |done].
    cbn [foldl apply_op]. apply (bt_insert_iff bytes_cmp); [done|by left].
Qed.
Lemma get_bucket_by_key_ok i b key i' r : ns_wf i -> named b -> bucket_key b key -> get_bucket_by_key key i = (i', r) ->
  i' = i /\ match r with Ok b' => b' = b /\ is_persisted i b | Err _ => True | Panic => False end.
Proof.
  intros Hwf Hb Hkey Hg. pose proof Hwf as [Hn Hsh Ht Hm Hk Hset Hod Hum (mt & Hmt & Hmok & Hbs)]. assert (Hi : set_kv i (in_kv i) = i) by (by destruct i).
  unfold get_bucket_by_key, get_value, mbind, mask, mkv, mlift in Hg. rewrite Hm in Hg.
  destruct (kv_get (in_kv i) META_TABLE_NAME (as_bytes key)) as [[v|]|e|] eqn:Hget; cbn [rcontext] in Hg; rewrite ?Hi in Hg;
    [|injection Hg as <- <-; by split|injection Hg as <- <-; by split|by apply kv_get_panic in Hget].
  apply kv_get_law in Hget as (mt' & Hmt' & Hv); [|done]. assert (mt' = mt) as -> by congruence. symmetry in Hv.
  apply (bt_get_elem bytes_cmp) in Hv; [|by apply (kv_view_sorted _ Hk META_TABLE_NAME)].
  destruct (Hmok _ _ Hv (key_starts b key Hb Hkey)) as (b0 & key0 & Hb0 & Hkey0 & Heq & Hdec). apply as_bytes_inj in Heq as <-.
  assert (b0 = b) as -> by (by apply (key_inj b0 b key)). rewrite Hdec, Hn in Hg. destruct Hb as [Hnew He]. rewrite Hnew in Hg. injection Hg as <- <-.
  split; [done|]. split; [done|]. exists mt. split; [done|]. by exists key, v.
Qed.
Lemma try_persist_ok i b i' r : ns_wf i -> named b -> try_persist_bucket b i = (i', r) ->
  ns_wf i' /\ i' = set_kv i (in_kv i') /\ match r with Ok b' => b' = b /\ is_persisted i' b | Err _ => True | Panic => False end.
Proof.
  intros Hwf Hb Ht. assert (Hi : i = set_kv i (in_kv i)) by (by destruct i). unfold try_persist_bucket, mbind, mask, mlift in Ht. rewrite (nw_name _ Hwf) in Ht.
  destruct (format_bucket_key b name) as [key| |] eqn:Hkey; [|injection Ht as <- <-; by split_and!|].
  2: { unfold format_bucket_key in Hkey. destruct Hb as [_ He]. rewrite (entry_duration _ He) in Hkey. cbn [rbind] in Hkey.
       destruct has_ttl; [|done]. by destruct (format_timed_bucket_key _ _ _). }
  destruct (json_roundtrip (bk_entry b)) as (v & Henc & Hdec). rewrite Henc, (nw_meta_name _ Hwf) in Ht.
  destruct (kv_write (in_kv i) META_TABLE_NAME _) as [kv1 r1] eqn:Hw.
  destruct (meta_insert_wf i b key v kv1 r1 Hwf Hb Hkey Hdec Hw) as (Hwf1 & Hnp & Hper). destruct r1 as [[]|e|]; [| |done].
  - injection Ht as <- <-. split_and!; [done|done|done|by apply Hper].
  - destruct (is_primary_key_duplicate e); [|injection Ht as <- <-; by split_and!].
    apply (get_bucket_by_key_ok _ b) in Ht as [-> Hr]; [|done|done|done]. split_and!; [done|done|]. destruct r; [naive_solver|done|done].
Qed.
Lemma get_bucket_ok i start_ms b : ns_wf i -> get_bucket (in_bucket_set i) start_ms = Some b ->
  b ∈ list_buckets i /\ (has_ttl = true -> gmt_start_ms b = start_ms).
Proof.
  intros Hwf Hget. pose proof (nw_set _ Hwf) as Hset. unfold list_buckets. rewrite (set_elem _ Hset). destruct (in_bucket_set i) as [m|o]; cbn [get_bucket] in Hget.
  - destruct Hset as (_ & Hso & Hst). apply (bt_get_elem Z.compare) in Hget; [|done]. pose proof (Hst _ _ Hget) as ->. done.
  - cbn in Hset. split; [done|congruence].
Qed.
Lemma new_entry_ok start_ms : start_ms mod BUCKET_DURATION_MS = 0 -> sint 64 start_ms ->
  match (if has_ttl then match new_timed (Z.of_nat shard_num) start_ms BUCKET_DURATION_MS with Some e => Ok e | None => Err (BucketOutOfRange start_ms) end
      else Ok (new_permanent (Z.of_nat shard_num))) : res (NsError E) BucketEntry with
  | Ok e => entry_ok e /\ (has_ttl = true -> be_gmt_start_ms e = start_ms) | Err _ => True | Panic => False end.
Proof.
  intros Hal Hsi. unfold entry_ok. destruct has_ttl; [|split_and!; done]. unfold new_timed, Timestamp.checked_add_i64.
  destruct (i64_checked (start_ms + BUCKET_DURATION_MS)) as [z|] eqn:Hz; [|done]. apply i64_checked_some in Hz as [Hz Hs]. subst z. by split_and!.
Qed.
Lemma bucket_new_no_panic e : bucket_new (E:=E) name e <> Panic.
Proof.
  unfold bucket_new. destruct (wal_shard_names name e _) eqn:Hn; [done|done|]. intros _. revert Hn.
  generalize (seq 0 (Z.to_nat (be_shard_num e))) as ids. induction ids as [|id ids IH]; [done|]. cbn [wal_shard_names].
  destruct (is_permanent e); [|destruct (format_timed_wal_name _ _ _); [|done]]; cbn [rbind]; destruct (wal_shard_names name e ids); cbn; auto; done.
Qed.
Lemma create_bucket_ok i b i' r : ns_wf i -> named b -> get_bucket (in_bucket_set i) (gmt_start_ms b) = None -> create_bucket b i = (i', r) ->
  ns_wf i' /\ match r with Ok b' => b' = b /\ adds_bucket i i' b | Err _ => list_buckets i' = list_buckets i | Panic => False end.
Proof.
  intros Hwf Hb Hget Hc. unfold create_bucket, mbind in Hc. destruct (try_persist_bucket b i) as [i1 r1] eqn:Ht.
  apply try_persist_ok in Ht as (Hwf1 & Hrest & Hr1); [|done|done]. assert (in_bucket_set i1 = in_bucket_set i) as Hset1 by (by rewrite Hrest).
  destruct r1 as [b1| |]; [|injection Hc as <- <-; split; [done|unfold list_buckets; by rewrite Hset1]|done].
  destruct Hr1 as [-> Hper]. apply open_bucket_ok in Hc as [Hwf2 Hr2]; [|done|done|done|by rewrite Hset1].
  split; [done|]. destruct r as [b2| |]; [|unfold list_buckets in *; by rewrite Hr2, Hset1|done]. destruct Hr2 as [-> Hadd].
  split; [done|]. intros b'. rewrite (Hadd b'). unfold list_buckets. by rewrite Hset1.
Qed.
Lemma creator_ok i start_ms i' r : ns_wf i -> start_ms mod BUCKET_DURATION_MS = 0 -> sint 64 start_ms ->
  creator_get_or_create_bucket start_ms i = (i', r) ->
  ns_wf i' /\
  match r with
  | Ok b => adds_bucket i i' b /\ named b /\ (has_ttl = true -> gmt_start_ms b = start_ms)
  | Err _ => list_buckets i' = list_buckets i
  | Panic => False
  end.
Proof.
  intros Hwf Hal Hsi Hc. unfold creator_get_or_create_bucket, mbind, mask, mlift in Hc. rewrite (nw_shards _ Hwf), (nw_ttl _ Hwf) in Hc.
  destruct (get_bucket (in_bucket_set i) start_ms) as [b|] eqn:Hget.
  { injection Hc as <- <-. destruct (get_bucket_ok _ _ _ Hwf Hget) as [Hin Hst]. destruct (nw_meta _ Hwf) as (mt & _ & _ & Hbs). rewrite Forall_forall in Hbs.
    split_and!; [done| |by apply Hbs|done]. intros b'. split; [by right|]. by intros [->|?]. }
  pose proof (new_entry_ok start_ms Hal Hsi) as Hent.
  match type of Hent with match ?x with _ => _ end => destruct x as [e| |] end; [|injection Hc as <- <-; by split|done].
  destruct Hent as [He Hst]. rewrite (entry_permanent e He) in Hc. unfold rassert in Hc. rewrite Bool.eqb_reflx in Hc. cbn [rbind] in Hc.
  rewrite (nw_name _ Hwf) in Hc. destruct (bucket_new name e) as [b| |] eqn:Hnew; [|injection Hc as <- <-; by split|by apply bucket_new_no_panic in Hnew].
  assert (bk_entry b = e) as Hbe by (unfold bucket_new in Hnew; apply rbind_ok in Hnew as (ns & _ & [= <-]); done).
  assert (named b) as Hb by (split; rewrite Hbe; done). assert (has_ttl = true -> gmt_start_ms b = start_ms) as Hst' by (unfold gmt_start_ms; by rewrite Hbe).
  apply create_bucket_ok in Hc as [Hwf2 Hr2]; [|done|done|].
  - split; [done|]. destruct r as [b2| |]; [|done|done]. by destruct Hr2 as [-> Hadd].
  - pose proof (nw_set _ Hwf) as Hset. destruct (in_bucket_set i) as [m|o]; cbn [get_bucket] in *; [|done]. destruct Hset as (Ht & _). by rewrite Hst'.
Qed.
Lemma floor_ok now (i i' : NamespaceInner (K:=K)) (r : res (NsError E) Z) : sint 64 now -> floor_bucket now i = (i', r) ->
  i' = i /\ match r with
  | Ok s => s mod BUCKET_DURATION_MS = 0 /\ sint 64 s /\ s <= now < s + BUCKET_DURATION_MS
  | Err _ => True | Panic => False end.
Proof.
  intros Hnow Hf. assert (sint 64 BUCKET_DURATION_MS) as Hd by done. unfold floor_bucket, mbind, mlift in Hf. rewrite checked_floor_spec in Hf by done.
  destruct ((0 <=? now) || (i64_min <=? now - (BUCKET_DURATION_MS - 1))) eqn:Hc; injection Hf as <- <-; [|done]. split; [done|].
  assert (0 < BUCKET_DURATION_MS) as Hp by done. revert Hd Hc Hp. generalize BUCKET_DURATION_MS as d. intros d Hd Hc Hp.
  pose proof (Z.div_mod now d ltac:(lia)). pose proof (Z.mod_pos_bound now d Hp). split_and!; [rewrite Z.mul_comm; apply Z.mod_mul; lia| |lia|lia].
  apply orb_true_iff in Hc as [Hc|Hc]; apply Z.leb_le in Hc; unfold sint, i64_min in *; change (64 - 1) with 63 in *; [|lia].
  assert (0 <= now / d) by (apply Z.div_pos; lia). nia.
Qed.
(** Writes go to the bucket of the time. *)
Lemma get_or_create_ok now i i' r : ns_wf i -> sint 64 now -> get_or_create_bucket now i = (i', r) ->
  ns_wf i' /\
  match r with
  | Ok b => adds_bucket i i' b /\ named b /\ (has_ttl = true -> gmt_start_ms b <= now < be_gmt_end_ms (bk_entry b))
  | Err _ => list_buckets i' = list_buckets i
  | Panic => False
  end.
Proof.
  intros Hwf Hnow Hg. unfold get_or_create_bucket in Hg. unfold mbind at 1 in Hg. destruct (floor_bucket now i) as [i1 r1] eqn:Hf.
  apply floor_ok in Hf as [-> Hr1]; [|done]. destruct r1 as [s| |]; [|injection Hg as <- <-; by split|done]. destruct Hr1 as (Hal & Hs & Hin).
  assert (creator_get_or_create_bucket s i = (i', r)) as Hc.
  { unfold mbind, mask in Hg. destruct (get_bucket (in_bucket_set i) s) as [b|] eqn:Hb; [|done].
    unfold creator_get_or_create_bucket, mbind, mask. by rewrite Hb. }
  apply creator_ok in Hc as [Hwf' Hr]; [|done|done|done]. split; [done|]. destruct r as [b| |]; [|done|done]. destruct Hr as (Hadd & Hb & Hst).
  split_and!; [done|done|]. intros Ht. specialize (Hst Ht). destruct Hb as [_ [_ He]]. rewrite Ht in He. destruct He as (_ & He & _).
  unfold gmt_start_ms in *. lia.
Qed.
Lemma create_next_ok now i i' r : ns_wf i -> sint 64 now -> create_next_bucket now i = (i', r) ->
  ns_wf i' /\ match r with Ok b => adds_bucket i i' b /\ named b | Err _ => list_buckets i' = list_buckets i | Panic => False end.
Proof.
  intros Hwf Hnow Hg. unfold create_next_bucket in Hg. unfold mbind at 1 in Hg. destruct (floor_bucket now i) as [i1 r1] eqn:Hf.
  apply floor_ok in Hf as [-> Hr1]; [|done]. destruct r1 as [s| |]; [|injection Hg as <- <-; by split|done]. destruct Hr1 as (Hal & Hs & Hin).
  unfold mbind, mlift in Hg. unfold Timestamp.checked_add_i64 in Hg. destruct (i64_checked (s + BUCKET_DURATION_MS)) as [z|] eqn:Hz;
    [|injection Hg as <- <-; by split]. apply i64_checked_some in Hz as [Hz Hs']. subst z.
  apply creator_ok in Hg as [Hwf' Hr]; [| done| |done].
  - split; [done|]. destruct r; [naive_solver|done|done].
  - rewrite <- Hal. replace (s + BUCKET_DURATION_MS) with (s + 1 * BUCKET_DURATION_MS) by lia. by apply Z.mod_add.
Qed.

(** *** Purging *)
Lemma drop_tables_ok names kv : kv_ok kv -> kv_ok (drop_tables kv names) /\
  forall n, n ∉ names -> kv_view (drop_tables kv names) !! n = kv_view kv !! n.
Proof.
  revert kv. induction names as [|m names IH]; intros kv Hkv; [done|]. cbn [drop_tables]. destruct (kv_drop_table kv m) as [kv1 r1] eqn:Hd.
  apply kv_drop_law in Hd as [Hok Hv]; [|done]. cbn [fst]. destruct (IH kv1 Hok) as [Hok2 Hsame]. split; [done|]. intros n Hn.
  rewrite Hsame by set_solver. destruct Hv as [-> |[-> _]]; [|done]. apply lookup_delete_ne. set_solver.
Qed.
Lemma purge_loop_ok bs kv batch kv' r : kv_ok kv -> Forall named bs -> purge_loop (E:=E) kv name bs batch = (kv', r) ->
  kv_ok kv' /\ (forall n, (forall b, b ∈ bs -> n ∉ bk_wal_shard_names b) -> kv_view kv' !! n = kv_view kv !! n) /\
  match r with
  | Ok ops => exists keys, ops = batch ++ (WDelete <$> (as_bytes <$> keys)) /\ Forall2 bucket_key bs keys
  | Err _ => True | Panic => False end.
Proof.
  revert kv batch. induction bs as [|b bs IH]; intros kv batch Hkv Hb Hp; cbn [purge_loop] in Hp.
  { injection Hp as <- <-. split_and!; [done|done|]. exists []. by rewrite app_nil_r. }
  apply Forall_cons in Hb as [Hb Hbs]. destruct (drop_tables_ok (bk_wal_shard_names b) kv Hkv) as [Hok Hsame].
  destruct (format_bucket_key b name) as [key| |] eqn:Hkey.
  - apply IH in Hp as (Hok' & Hsame' & Hr); [|done|done]. split_and!; [done| |].
    + intros n Hn. rewrite Hsame' by (intros b' Hb'; apply Hn; by right). apply Hsame, Hn. by left.
    + destruct r as [ops| |]; [|done|done]. destruct Hr as (keys & -> & Hf). exists (key :: keys). split; [by rewrite <- app_assoc|]. by constructor.
  - injection Hp as <- <-. split_and!; [done| |done]. intros n Hn. apply Hsame, Hn. by left.
  - unfold format_bucket_key in Hkey. destruct Hb as [_ He]. rewrite (entry_duration _ He) in Hkey. cbn [rbind] in Hkey.
    destruct has_ttl; [|done]. by destruct (format_timed_bucket_key _ _ _).
Qed.
#[local] Instance delete_inj : Inj (=) (=) WDelete.
Proof. by intros k1 k2 [= ->]. Qed.
Lemma meta_delete_wf i bs keys kv' res : ns_wf i -> Forall named bs -> Forall (fun b => b ∉ list_buckets i) bs -> Forall2 bucket_key bs keys ->
  kv_write (in_kv i) META_TABLE_NAME (WDelete <$> (as_bytes <$> keys)) = (kv', res) ->
  ns_wf (set_kv i kv') /\ res <> Panic /\ (res = Ok tt -> Forall (fun b => ~ is_persisted (set_kv i kv') b) bs).
Proof.
  intros Hwf Hb Hout Hf Hw. pose proof Hwf as [Hn Hsh Ht Hm Hk Hset Hod Hum (mt & Hmt & Hmok & Hbs)]. rewrite Forall_forall in Hb, Hout, Hbs.
  assert (res <> Panic) as Hnp by (intros ->; by apply kv_write_panic in Hw).
  apply kv_write_law in Hw as [Hok Hw]; [|done]. rewrite Hmt in Hw. destruct Hw as (fin & Hpre & _ & Hview & Hres).
  apply prefix_fmap in Hpre as (ks & Hpre & ->). pose proof (kv_view_sorted _ Hk _ _ Hmt) as Hsort.
  set (mt2 := foldl apply_op mt (WDelete <$> ks)) in Hview. assert (Hel : forall x, x ∈ mt2 <-> x ∈ mt /\ x.1 ∉ ks) by (intros x; by apply delete_ops_elem).
  assert (Hmt2 : kv_view kv' !! META_TABLE_NAME = Some mt2) by (rewrite Hview; apply lookup_insert_eq).
  assert (Hks : forall k, k ∈ ks -> exists b key, b ∈ bs /\ bucket_key b key /\ k = as_bytes key).
  { intros k Hin. destruct Hpre as [rest Hpre]. assert (k ∈ as_bytes <$> keys) as Hin' by (rewrite Hpre; apply elem_of_app; by left).
    apply list_elem_of_fmap in Hin' as (key & -> & Hin'). apply list_elem_of_lookup in Hin' as [j Hj].
    destruct (Forall2_lookup_r _ _ _ _ _ Hf Hj) as (b & Hbj & Hkb). exists b, key. split_and!; [by eapply list_elem_of_lookup_2|done|done]. }
  split_and!; [|done|].
  - split; [done|done|done|done|done|done|done|done|]. exists mt2. cbn [set_kv in_kv]. split_and!; [done| |].
    + intros k v [Hin _]%Hel. by apply Hmok.
    + apply Forall_forall. intros b Hin. destruct (Hbs b Hin) as (Hnb & Htab & (key & v & Hkey & Hmem & Hdec)). split_and!; [done| |].
      * intros n Hnm. rewrite Hview. destruct (decide (n = META_TABLE_NAME)) as [->|Hne]; [rewrite lookup_insert_eq; by eexists|].
        rewrite lookup_insert_ne by done. by apply Htab.
      * exists key, v. split_and!; [done| |done]. apply Hel. split; [done|]. cbn. intros (b' & key' & Hb' & Hkey' & Heq)%Hks.
        apply as_bytes_inj in Heq as <-. assert (b' = b) as -> by (apply (key_inj b' b key); auto). by apply (Hout b Hb').
  - intros Hr2. specialize (Hres Hr2). apply (inj (fmap WDelete)) in Hres as ->.
    apply Forall_forall. intros b Hin (mt' & Hmt' & (key & v & Hkey & Hmem & _)). cbn [set_kv in_kv] in Hmt'. assert (mt' = mt2) as -> by congruence.
    apply Hel in Hmem as [_ Hmem]. apply Hmem. cbn. apply list_elem_of_fmap_2. apply list_elem_of_lookup in Hin as [j Hj].
    destruct (Forall2_lookup_l _ _ _ _ _ Hf Hj) as (key' & Hkj & Hkey'). unfold bucket_key in *. assert (key' = key) as -> by congruence. by eapply list_elem_of_lookup_2.
Qed.
Lemma purge_ok i bs i' r : ns_wf i -> Forall named bs -> Forall (fun b => b ∉ list_buckets i) bs ->
  purge_buckets bs name META_TABLE_NAME i = (i', r) ->
  ns_wf i' /\ i' = set_kv i (in_kv i') /\ r <> Panic /\ (r = Ok tt -> Forall (fun b => ~ is_persisted i' b) bs).
Proof.
  intros Hwf Hb Hout Hp. unfold purge_buckets in Hp. pose proof Hwf as [Hn Hsh Ht Hm Hk Hset Hod Hum (mt & Hmt & Hmok & Hbs)].
  destruct (purge_loop (in_kv i) name bs []) as [kv1 r1] eqn:Hl. apply purge_loop_ok in Hl as (Hok & Hsame & Hr); [|done|done].
  rewrite Forall_forall in Hb, Hbs. assert (Hwf1 : ns_wf (set_kv i kv1)).
  { split; [done|done|done|done|done|done|done|done|]. exists mt. split_and!; [|done|].
    - cbn [set_kv in_kv]. rewrite Hsame; [done|]. intros b Hin Hnm. by apply (name_not_meta b META_TABLE_NAME (Hb b Hin)).
    - apply Forall_forall. intros b Hin. destruct (Hbs b Hin) as (Hnb & Hex & Hper). split_and!; [done| |done]. intros n Hnm.
      cbn [set_kv in_kv]. rewrite Hsame; [by apply Hex|]. intros b' Hb' Hnm'. assert (b' = b) as -> by (apply (names_disjoint b' b n); auto).
      rewrite Forall_forall in Hout. by apply (Hout b Hb'). }
  destruct r1 as [ops| |]; [|injection Hp as <- <-; by split_and!|done].
  destruct Hr as (keys & -> & Hf). cbn [app] in Hp. destruct (kv_write kv1 META_TABLE_NAME _) as [kv2 r2] eqn:Hw. injection Hp as <- <-.
  apply (meta_delete_wf (set_kv i kv1) bs keys kv2 r2) in Hw as (Hwf2 & Hnp & Hnone); [|done|by apply Forall_forall|done|done].
  split_and!; [done|done|by destruct r2|]. intros Hr2. apply rcontext_ok in Hr2. by apply Hnone.
Qed.
Lemma remove_buckets l m : has_ttl = true -> bt_sorted Z.compare m -> (forall s b, (s, b) ∈ m -> s = gmt_start_ms b) ->
  exists m', foldl (fun s b => remove_timed_bucket s (gmt_start_ms b)) (Timed m) l = Timed m' /\ set_ok (Timed m') /\
    forall b, (gmt_start_ms b, b) ∈ m' <-> (gmt_start_ms b, b) ∈ m /\ Forall (fun e => gmt_start_ms e <> gmt_start_ms b) l.
Proof.
  intros Ht. revert m. induction l as [|e l IH]; intros m Hs Hst; cbn [foldl].
  { exists m. split_and!; [done|done|]. intros b. split; [by intros|by intros [? _]]. }
  cbn [remove_timed_bucket]. destruct (IH (bt_remove Z.compare (gmt_start_ms e) m)) as (m' & Hm' & Hok & Hel).
  - by apply (bt_remove_sorted Z.compare).
  - intros s b [Hin _]%(bt_remove_iff Z.compare); [by apply Hst|done].
  - exists m'. split_and!; [done|done|]. intros b. rewrite Hel, (bt_remove_iff Z.compare) by done. rewrite Forall_cons. cbn [fst]. naive_solver.
Qed.
Lemma start_inj m b1 b2 : bt_sorted Z.compare m -> (gmt_start_ms b1, b1) ∈ m -> (gmt_start_ms b2, b2) ∈ m -> gmt_start_ms b1 = gmt_start_ms b2 -> b1 = b2.
Proof.
  intros Hs H1 H2 Heq. apply (bt_get_elem Z.compare) in H1, H2; [|done|done]. congruence.
Qed.
Lemma expired_elem m now ttl b : set_ok (Timed m) -> Forall named (buckets (Timed m)) -> b ∈ expired_buckets (Timed m) now ttl <->
  b ∈ buckets (Timed m) /\ match Timestamp.checked_sub_duration now ttl with Some earliest => is_expired (bk_entry b) earliest = true | None => False end.
Proof.
  intros Hset Hnb. cbn [expired_buckets]. destruct (Timestamp.checked_sub_duration now ttl) as [earliest|]; [|set_solver].
  rewrite list_elem_of_filter, list_elem_of_fmap. rewrite (set_elem _ Hset). destruct Hset as (Ht & Hs & Hst). split.
  - intros [He ([s b'] & -> & Hin)]. apply list_elem_of_filter in Hin as [_ Hin]. split; [|done]. cbn. by rewrite <- (Hst s b' Hin).
  - intros [Hin He]. split; [done|]. exists (gmt_start_ms b, b). split; [done|]. apply list_elem_of_filter. split; [|done]. cbn.
    rewrite Forall_forall in Hnb. destruct (Hnb b) as [_ Hok]; [cbn; apply list_elem_of_fmap; by exists (gmt_start_ms b, b)|].
    unfold is_expired in He. rewrite (entry_permanent _ Hok), Ht in He. cbn [negb] in He. apply Z.leb_le in He.
    destruct Hok as [_ Hok]. rewrite Ht in Hok. destruct Hok as (_ & Hend & _). unfold gmt_start_ms. unfold BUCKET_DURATION_MS in Hend. lia.
Qed.
Lemma purge_expired_ok now i i' r : ns_wf i -> purge_expired_buckets now i = (i', r) ->
  ns_wf i' /\ r <> Panic /\ forall b, b ∈ list_buckets i' <-> b ∈ list_buckets i /\ outdated i now (bk_entry b) = false.
Proof.
  intros Hwf Hp. pose proof Hwf as [Hn Hsh Ht Hm Hk Hset Hod Hum (mt & Hmt & Hmok & Hbs)]. rewrite Forall_forall in Hbs.
  assert (Hnb : Forall named (list_buckets i)) by (apply Forall_forall; intros b Hb; by apply Hbs).
  unfold purge_expired_buckets, mbind, mask, mput, mret in Hp. unfold outdated. destruct (we_ttl (ne_wal (in_entry i))) as [ttl|].
  2: { injection Hp as <- <-. split_and!; [done|done|]. intros b. split; [by split|by intros [? _]]. }
  unfold list_buckets in *. destruct (in_bucket_set i) as [m|o] eqn:Hs.
  2: { cbn [expired_buckets] in Hp. injection Hp as <- <-. rewrite Hs. split_and!; [done|done|]. intros b. split; [|by intros [? _]]. intros Hb. split; [done|].
       destruct (Timestamp.checked_sub_duration now ttl); [|done]. destruct (Hbs b Hb) as ([_ He] & _). unfold is_expired.
       rewrite (entry_permanent _ He). cbn in Hset. by rewrite Hset. }
  pose proof (expired_elem m now ttl) as Hex. destruct (expired_buckets (Timed m) now ttl) as [|e0 exp] eqn:Hexp.
  { injection Hp as <- <-. rewrite Hs. split_and!; [done|done|]. intros b. split; [|by intros [? _]]. intros Hb. split; [done|].
    destruct (Timestamp.checked_sub_duration now ttl) as [earliest|]; [|done]. apply not_true_is_false. intros He.
    assert (b ∈ ([] : list Bucket)); [by apply Hex|set_solver]. }
  cbv beta iota zeta in Hp. cbn [set_bucket_set in_bucket_set in_name in_entry in_meta_table_name] in Hp. rewrite Hs in Hp.
  pose proof Hset as (Httl & Hso & Hst). destruct (remove_buckets (e0 :: exp) m Httl Hso Hst) as (m' & Hm' & Hok' & Hel). rewrite Hm' in Hp.
  set (i1 := set_bucket_set i (Timed m')) in Hp.
  assert (Hin : forall b, b ∈ buckets (Timed m') <-> b ∈ buckets (Timed m) /\ b ∉ e0 :: exp).
  { intros b. rewrite (set_elem _ Hok'), (set_elem _ Hset), Hel. split; intros [Hb Hx]; (split; [done|]).
    - intros Hin. rewrite Forall_forall in Hx. by apply (Hx b).
    - apply Forall_forall. intros e He Heq. apply Hx. apply Hex in He as Hem; [|done|done]. destruct Hem as [Hem _]. apply (set_elem _ Hset) in Hem.
      by rewrite <- (start_inj m e b Hso Hem Hb Heq). }
  assert (Hwf1 : ns_wf i1).
  { split; [done|done|done|done|done|done|done|done|]. exists mt. split_and!; [done|done|]. apply Forall_forall. intros b [Hb _]%Hin. by apply Hbs. }
  rewrite Hm in Hp. replace (in_name i) with name in Hp by done. apply purge_ok in Hp as (Hwf' & Hi' & Hnp & _); [|done| |].
  - split_and!; [done|done|]. intros b. rewrite Hi'. change (b ∈ buckets (Timed m') <-> b ∈ buckets (Timed m) /\ match Timestamp.checked_sub_duration now ttl with
      Some earliest => is_expired (bk_entry b) earliest | None => false end = false). rewrite Hin. split; intros [Hb Hx]; (split; [done|]).
    + apply not_true_is_false. intros He. apply Hx, Hex; [done|done|]. split; [done|]. by destruct (Timestamp.checked_sub_duration now ttl).
    + intros He%Hex; [|done|done]. destruct He as [_ He]. destruct (Timestamp.checked_sub_duration now ttl); [congruence|done].
  - apply Forall_forall. intros b He%Hex; [|done|done]. destruct He as [He _]. by apply Hbs.
  - apply Forall_forall. intros b He Hb. change (b ∈ buckets (Timed m')) in Hb. apply Hin in Hb as [_ ?]. done.
Qed.

(** *** Loading *)
Lemma absent_get i b : ns_wf i -> named b -> b ∉ list_buckets i -> get_bucket (in_bucket_set i) (gmt_start_ms b) = None.
Proof.
  intros Hwf Hb Hout. pose proof (nw_set _ Hwf) as Hset. pose proof (nw_meta _ Hwf) as (mt & _ & _ & Hbs). rewrite Forall_forall in Hbs.
  unfold list_buckets in *. pose proof (set_elem _ Hset) as Hel. destruct (in_bucket_set i) as [m|[b'|]]; cbn [get_bucket]; [| |done].
  - destruct (bt_get Z.compare (gmt_start_ms b) m) as [b'|] eqn:Hg; [|done]. destruct Hset as (Ht & Hs & Hst). apply (bt_get_elem Z.compare) in Hg; [|done].
    pose proof (Hst _ _ Hg) as Heq. assert (b' ∈ buckets (Timed m)) as Hin by (apply Hel; by rewrite <- Heq).
    assert (b' = b) as ->; [|done]. destruct (Hbs b' Hin) as (Hb' & _). apply named_eq; [done|done|]. apply timed_entry_eq; [apply Hb'|apply Hb|done].
  - assert (b' ∈ buckets (Permanent (Some b'))) as Hin by (by left). destruct (Hbs b' Hin) as ([Hn [_ He]] & _). destruct Hb as [Hn' [_ He']].
    cbn in Hset. rewrite Hset in He, He'. assert (b' = b) as ->; [|done]. congruence.
Qed.
Lemma open_bucket_rest b i i' r : kv_ok (in_kv i) -> named b -> open_bucket b i = (i', r) ->
  in_entry i' = in_entry i /\ kv_view (in_kv i') !! META_TABLE_NAME = kv_view (in_kv i) !! META_TABLE_NAME.
Proof.
  intros Hkv Hb Ho. unfold open_bucket, mbind, mask, mlift, mput, mret in Ho.
  destruct (create_tables _ (bk_wal_shard_names b) i) as [i1 r1] eqn:Hc. apply create_tables_ok in Hc as [He _]; [| |done].
  2: { intros Hin. by apply (name_not_meta b _ Hb) in Hin. }
  assert (in_entry i1 = in_entry i) as Hent by (by rewrite (ex_rest _ _ He)). pose proof (ex_meta _ _ He) as Hm.
  destruct r1 as [[]| |]; [|injection Ho as <- <-; by split..]. destruct (insert_bucket (in_bucket_set i1) b); injection Ho as <- <-; by split.
Qed.
Definition bucket_prefix : bytes := as_bytes (bucket_key_prefix name).
(** Once a key has not the prefix, none after it has. *)
Definition contiguous (iter : list (bytes * bytes)) : Prop :=
  StronglySorted (fun x y => starts_with bucket_prefix x.1 = false -> starts_with bucket_prefix y.1 = false) iter.
Definition loadable (iter : list (bytes * bytes)) (b : Bucket) : Prop :=
  named b /\ exists k v, (k, v) ∈ iter /\ starts_with bucket_prefix k = true /\ json_decode v = Some (bk_entry b).
Lemma loadable_cons k v iter b : json_decode v = Some (bk_entry b) -> starts_with bucket_prefix k = true -> named b ->
  forall b', loadable ((k, v) :: iter) b' <-> b' = b \/ loadable iter b'.
Proof.
  intros Hd Hs Hb b'. split.
  - intros (Hb' & k' & v' & [[= -> ->]|Hin]%elem_of_cons & Hst & Hd').
    + left. apply named_eq; [done|done|]. congruence.
    + right. split; [done|]. by exists k', v'.
  - intros [->|(Hb' & k' & v' & Hin & Hst & Hd')]; (split; [done|]); [exists k, v|exists k', v']; (split_and!; [|done|done]); [by left|by right].
Qed.
Lemma loadable_end k v iter b : contiguous ((k, v) :: iter) -> starts_with bucket_prefix k = false -> ~ loadable ((k, v) :: iter) b.
Proof.
  intros Hc Hs (_ & k' & v' & [[= -> ->]|Hin]%elem_of_cons & Hst & _); [congruence|]. apply StronglySorted_inv in Hc as [_ Hf]. rewrite Forall_forall in Hf.
  specialize (Hf _ Hin Hs). cbn in Hf. congruence.
Qed.
Lemma load_loop_ok now iter : forall outs (i i' : NamespaceInner) (r : res (NsError E) (list Bucket)) (mt : table), ns_wf i ->
  kv_view (in_kv i) !! META_TABLE_NAME = Some mt ->
  (forall x, x ∈ iter -> x ∈ mt) -> NoDup iter.*1 -> contiguous iter -> (forall b, loadable iter b -> b ∉ list_buckets i) ->
  load_loop now bucket_prefix iter outs i = (i', r) ->
  ns_wf i' /\ match r with
  | Ok outs' => (forall b, b ∈ list_buckets i' <-> b ∈ list_buckets i \/ loadable iter b /\ outdated i now (bk_entry b) = false) /\
      (forall b, b ∈ outs' <-> b ∈ outs \/ loadable iter b /\ outdated i now (bk_entry b) = true)
  | Err _ => True | Panic => False end.
Proof.
  induction iter as [|[k v] iter IH]; intros outs i i' r mt Hwf Hmt Hin Hnd Hc Hout Hl; cbn [load_loop] in Hl.
  { injection Hl as <- <-. split; [done|]. assert (forall b, ~ loadable [] b) as Hno by (intros b (_ & k & v & Hx & _); set_solver).
    split; intros b; (split; [by left|]); intros [?|[Hx _]]; [done|by apply Hno in Hx|done|by apply Hno in Hx]. }
  destruct (starts_with bucket_prefix k) eqn:Hs; cbn [negb] in Hl.
  2: { injection Hl as <- <-. split; [done|]. split; intros b; (split; [by left|]); intros [?|[Hx _]]; [done| |done|]; by apply loadable_end in Hx. }
  pose proof (nw_meta _ Hwf) as (mt' & Hmt' & Hmok & _). assert (mt' = mt) as -> by congruence.
  destruct (Hmok k v (Hin _ ltac:(by left)) Hs) as (b & key & Hb & Hkey & -> & Hdec). unfold mbind at 1, mlift in Hl. rewrite Hdec in Hl.
  unfold mbind at 1, mask in Hl. unfold mbind at 1 in Hl. rewrite (nw_name _ Hwf), (proj1 Hb) in Hl.
  pose proof (loadable_cons _ v iter b Hdec Hs Hb) as Hcons. cbn in Hnd. apply NoDup_cons in Hnd as [Hk Hnd].
  assert (Hfresh : ~ loadable iter b).
  { intros (_ & k' & v' & Hin' & Hst' & Hdec'). apply Hk. destruct (Hmok k' v' (Hin _ ltac:(by right)) Hst') as (b2 & key2 & Hb2 & Hkey2 & -> & Hd2).
    assert (b2 = b) as -> by (apply named_eq; [done|done|congruence]). unfold bucket_key in *. assert (key2 = key) as -> by congruence.
    by apply (list_elem_of_fmap_2 fst) in Hin'. }
  apply StronglySorted_inv in Hc as [Hc _]. assert (Hbout : b ∉ list_buckets i) by (apply Hout, Hcons; by left).
  destruct (outdated i now (bk_entry b)) eqn:Hod.
  - apply (IH _ _ _ _ mt) in Hl as [Hwf' Hr]; [|done|done|intros x Hx; apply Hin; by right|done|done|intros b' Hb'; apply Hout, Hcons; by right].
    split; [done|]. destruct r as [outs'| |]; [|done|done]. destruct Hr as [Hr1 Hr2]. split; intros b'.
    + rewrite Hr1, Hcons. split; [tauto|]. intros [?|[[->|?] ?]]; [tauto|congruence|tauto].
    + rewrite Hr2, elem_of_app, list_elem_of_singleton, Hcons. split; [|tauto]. intros [[?| ->]|[? ?]]; tauto.
  - unfold mbind in Hl. destruct (open_bucket b i) as [i1 r1] eqn:Ho. pose proof (open_bucket_rest _ _ _ _ (nw_kv _ Hwf) Hb Ho) as [Hent Hmt1].
    apply open_bucket_ok in Ho as [Hwf1 Hr1]; [|done|done| |by apply absent_get].
    2: { exists mt. split; [done|]. exists key, v. split_and!; [done|apply Hin; by left|done]. }
    destruct r1 as [b1| |]; [|injection Hl as <- <-; by split|done]. destruct Hr1 as [_ Hadd].
    apply (IH _ _ _ _ mt) in Hl as [Hwf' Hr]; [|done|by rewrite Hmt1|intros x Hx; apply Hin; by right|done|done|].
    + split; [done|]. destruct r as [outs'| |]; [|done|done]. unfold outdated in *. rewrite Hent in Hr. destruct Hr as [Hr1 Hr2]. split; intros b'.
      * rewrite Hr1, (Hadd b'), Hcons. split; [|tauto]. intros [[->|?]|[? ?]]; tauto.
      * rewrite Hr2, Hcons. split; [tauto|]. intros [?|[[->|?] ?]]; [tauto|congruence|tauto].
    + intros b' Hb' [->|?]%Hadd; [done|]. apply (Hout b'); [apply Hcons; by right|done].
Qed.
Lemma prefix_order p : forall k k', bytes_cmp k p = Gt -> starts_with p k = false -> bytes_cmp k k' = Lt -> starts_with p k' = false.
Proof.
  induction p as [|x p IH]; intros k k' Hg Hs Hlt; [done|]. destruct k as [|y k]; [done|]. destruct k' as [|z k']; [done|]. cbn in *.
  destruct (Z.compare_spec y x) as [->|Hyx|Hyx]; cbn in Hg; [|done|].
  - rewrite Z.eqb_refl in Hs. cbn in Hs. destruct (Z.compare_spec x z) as [->|Hxz|Hxz]; cbn in Hlt; [|by rewrite (proj2 (Z.eqb_neq _ _)) by lia|done].
    rewrite Z.eqb_refl. cbn. by apply (IH k).
  - destruct (Z.compare_spec y z) as [->|Hyz|Hyz]; cbn in Hlt; [| |done]; by rewrite (proj2 (Z.eqb_neq _ _)) by lia.
Qed.
Lemma above_prefix p t : t <> [] -> bytes_cmp (p ++ t) p = Gt.
Proof. intros Ht. induction p as [|x p IH]; [by destruct t|]. cbn. by rewrite Z.compare_refl. Qed.
Abbreviation bucket_scan := (scan_request_for_prefix (bucket_key_prefix name)).
Lemma scan_above mt x : x ∈ range_of bucket_scan mt <-> x ∈ mt /\ bytes_cmp x.1 bucket_prefix = Gt.
Proof.
  rewrite range_of_elem. unfold in_range, above, below, bucket_prefix. cbn [scan_request_for_prefix sq_start sq_end]. rewrite andb_true_r.
  destruct (bytes_cmp x.1 _); naive_solver.
Qed.
Lemma scan_contiguous mt : table_sorted mt -> contiguous (range_of bucket_scan mt).
Proof.
  intros Hs. apply (range_of_sorted bucket_scan) in Hs; [|done]. assert (Hab : Forall (fun x => bytes_cmp x.1 bucket_prefix = Gt) (range_of bucket_scan mt)).
  { apply Forall_forall. intros x Hx. by apply scan_above in Hx as [_ ?]. }
  unfold contiguous. induction Hs as [|x l Hs IH Hf]; [constructor|]. apply Forall_cons in Hab as [Hx Hab]. constructor; [by apply IH|].
  rewrite Forall_forall in Hf. apply Forall_forall. intros y Hy Hst. by apply (prefix_order _ x.1 y.1 Hx Hst), Hf.
Qed.
Lemma scan_nodup mt : table_sorted mt -> NoDup (range_of bucket_scan mt).*1.
Proof.
  intros Hs. apply (range_of_sorted bucket_scan) in Hs; [|done]. induction Hs as [|x l Hs IH Hf]; [constructor|]. cbn. constructor; [|done].
  rewrite Forall_forall in Hf. intros (y & Hy & Hin)%list_elem_of_fmap. specialize (Hf y Hin). cbn in Hf. rewrite Hy in Hf.
  by rewrite (cmp_refl bytes_cmp) in Hf.
Qed.
Lemma scan_loadable mt b : meta_ok mt -> loadable (range_of bucket_scan mt) b <-> named b /\ persisted mt b.
Proof.
  intros Hmok. split.
  - intros (Hb & k & v & [Hin _]%scan_above & Hst & Hd). split; [done|]. destruct (Hmok k v Hin Hst) as (b' & key & Hb' & Hkey & -> & Hd').
    assert (b' = b) as -> by (apply named_eq; [done|done|congruence]). by exists key, v.
  - intros [Hb (key & v & Hkey & Hin & Hd)]. split; [done|]. exists (as_bytes key), v. split_and!; [|by apply (key_starts b)|done].
    apply scan_above. split; [done|]. cbn [fst]. destruct (key_form b key Hb Hkey) as (t & -> & Ht). rewrite as_bytes_app, above_prefix; [done|].
    destruct has_ttl; [destruct Ht as (dt & -> & _)|subst t]; done.
Qed.
Lemma load_buckets_ok now i i' r : ns_wf i -> list_buckets i = [] -> load_buckets now i = (i', r) ->
  ns_wf i' /\ match r with
  | Ok _ => (forall b, b ∈ list_buckets i' <-> named b /\ is_persisted i b /\ outdated i now (bk_entry b) = false) /\
      (forall b, b ∈ in_outdated i' <-> named b /\ is_persisted i b /\ outdated i now (bk_entry b) = true)
  | Err _ => True | Panic => False end.
Proof.
  intros Hwf Hnil Hl. unfold load_buckets in Hl. unfold mbind at 1, mask in Hl. unfold mbind at 1, mkv in Hl. rewrite (nw_name _ Hwf), (nw_meta_name _ Hwf) in Hl.
  pose proof (nw_meta _ Hwf) as (mt & Hmt & Hmok & _). assert (Hi : set_kv i (in_kv i) = i) by (by destruct i). rewrite Hi in Hl.
  destruct (kv_scan (in_kv i) META_TABLE_NAME _) as [iter|e|] eqn:Hsc; cbn [rcontext] in Hl; [|injection Hl as <- <-; by split|].
  2: { by apply kv_scan_panic in Hsc; [|apply Hwf|]. }
  apply kv_scan_law in Hsc as (mt' & Hmt' & ->); [|apply Hwf]. assert (mt' = mt) as -> by congruence.
  pose proof (kv_view_sorted _ (nw_kv _ Hwf) _ _ Hmt) as Hs. unfold mbind in Hl. fold bucket_prefix in Hl.
  destruct (load_loop now bucket_prefix _ [] i) as [i1 r1] eqn:Hload.
  apply (load_loop_ok now _ [] i i1 r1 mt) in Hload as [Hwf1 Hr1];
    [|done|done|intros x Hx; by apply scan_above in Hx as [? _]|by apply scan_nodup|by apply scan_contiguous|by rewrite Hnil; set_solver].
  assert (Hper : forall b, loadable (range_of bucket_scan mt) b <-> named b /\ is_persisted i b).
  { intros b. rewrite (scan_loadable mt b Hmok). split; intros [Hb Hx]; (split; [done|]); [by exists mt|].
    destruct Hx as (mt' & Hmt2 & Hx). assert (mt' = mt) as -> by congruence. done. }
  destruct r1 as [outs| |]; [|injection Hl as <- <-; by split|done]. injection Hl as <- <-. destruct Hr1 as [Hr1 Hr2].
  split.
  { destruct Hwf1. split; try done. apply Forall_forall. intros b [?|[Hx _]]%Hr2; [set_solver|by apply Hper in Hx as [? _]]. }
  split; intros b.
  - change (list_buckets (set_outdated i1 outs)) with (list_buckets i1). rewrite Hr1, Hnil, Hper. set_solver.
  - cbn [set_outdated in_outdated]. rewrite Hr2, Hper. set_solver.
Qed.
Lemma create_tables_entry g ns : forall i i' r, create_tables (K:=K) (E:=E) g ns i = (i', r) -> in_entry i' = in_entry i.
Proof.
  induction ns as [|n ns IH]; intros i i' r Hc; cbn [create_tables] in Hc; [by injection Hc as <- <-|]. unfold mbind in Hc.
  destruct (create_table_if_needed g n i) as [i1 r1] eqn:H1. assert (in_entry i1 = in_entry i) as Hent.
  { unfold create_table_if_needed, mbind, mkv in H1. destruct (kv_table_exists _ _) as [[]| |]; cbn [rcontext] in H1; [by injection H1 as <- <-| |by injection H1 as <- <-..].
    destruct (kv_create_table _ n). by injection H1 as <- <-. }
  destruct r1; [apply IH in Hc; congruence|by injection Hc as <- <-..].
Qed.
Lemma open_bucket_entry b i i' r : open_bucket (K:=K) (E:=E) b i = (i', r) -> in_entry i' = in_entry i.
Proof.
  intros Ho. unfold open_bucket, mbind, mask, mlift, mput, mret in Ho. destruct (create_tables _ _ i) as [i1 r1] eqn:Hc.
  apply create_tables_entry in Hc. destruct r1 as [[]| |]; [|by injection Ho as <- <-..]. destruct (insert_bucket _ b); by injection Ho as <- <-.
Qed.
Lemma load_loop_entry now p iter : forall outs i i' r, load_loop (K:=K) (E:=E) now p iter outs i = (i', r) -> in_entry i' = in_entry i.
Proof.
  induction iter as [|[k v] iter IH]; intros outs i i' r Hl; cbn [load_loop] in Hl; [by injection Hl as <- <-|].
  destruct (starts_with p k); cbn [negb] in Hl; [|by injection Hl as <- <-]. unfold mbind, mask, mlift in Hl.
  destruct (json_decode v) as [e|]; [|by injection Hl as <- <-]. destruct (bucket_new (in_name i) e) as [b| |]; [|by injection Hl as <- <-..].
  destruct (outdated i now e); [by apply IH in Hl|]. destruct (open_bucket b i) as [i1 r1] eqn:Ho.
  assert (in_entry i1 = in_entry i) as Hent by (by eapply open_bucket_entry). destruct r1; [apply IH in Hl; congruence|by injection Hl as <- <-..].
Qed.
Lemma load_entry now i i' r : load_buckets (K:=K) (E:=E) now i = (i', r) -> in_entry i' = in_entry i.
Proof.
  intros Hl. unfold load_buckets, mbind, mask, mkv, mput in Hl. destruct (kv_scan (in_kv i) _ _) as [iter| |]; cbn [rcontext] in Hl; [|by injection Hl as <- <-..].
  destruct (load_loop now _ iter [] _) as [i1 r1] eqn:Hload. apply load_loop_entry in Hload. destruct r1; by injection Hl as <- <-.
Qed.

(** *** Operations of units leave the buckets *)
Record grows (kv kv' : K) : Prop := {
  gr_ok : kv_ok kv';
  gr_tables : forall n, is_Some (kv_view kv !! n) -> is_Some (kv_view kv' !! n);
  gr_meta : kv_view kv' !! META_TABLE_NAME = kv_view kv !! META_TABLE_NAME
}.
Lemma grows_refl kv : kv_ok kv -> grows kv kv.
Proof. by intros. Qed.
Lemma grows_trans kv1 kv2 kv3 : grows kv1 kv2 -> grows kv2 kv3 -> grows kv1 kv3.
Proof. intros [] []. split; [done|auto|congruence]. Qed.
Lemma write_grows kv n ops kv' (r : res E unit) : kv_ok kv -> n <> META_TABLE_NAME -> kv_write kv n ops = (kv', r) -> grows kv kv'.
Proof.
  intros Hkv Hn Hw. apply kv_write_law in Hw as [Hok Hw]; [|done]. destruct (kv_view kv !! n) as [t|] eqn:Ht.
  - destruct Hw as (fin & _ & _ & Hv & _). split; [done| |]; rewrite Hv; [|by apply lookup_insert_ne]. intros n' Hs.
    destruct (decide (n' = n)) as [->|Hne]; [rewrite lookup_insert_eq; by eexists|by rewrite lookup_insert_ne].
  - destruct Hw as [Hv _]. split; [done| |]; by rewrite Hv.
Qed.
Lemma write_log_grows kv u b batch kv' u' (r : res (TableUnitError E) Z) : kv_ok kv -> named b -> write_log kv u b batch = (kv', u', r) -> grows kv kv'.
Proof.
  intros Hkv Hb Hw. unfold write_log in Hw. destruct (alloc_sequence_num u _) as [u1 first].
  match type of Hw with context [match ?p with Ok _ => _ | Err _ => _ | Panic => _ end] => destruct p as [[[wb mx] tn]| |] eqn:Hp end;
    [|injection Hw as <- <- <-; by apply grows_refl..].
  destruct (kv_write kv tn wb) as [kv1 r1] eqn:Hkw. injection Hw as <- <- <-. apply (write_grows kv tn wb kv1 r1); [done| |done].
  apply rbind_ok in Hp as (n0 & _ & Hp). apply rbind_ok in Hp as ([wb0 n1] & _ & Hp). apply rbind_ok in Hp as (m & _ & Hp).
  apply rbind_ok in Hp as (tn' & Htn & [= -> -> ->]). apply (name_not_meta b); [done|]. unfold wal_shard_table in Htn.
  destruct (bk_wal_shard_names b) as [|n2 ns]; [done|]. destruct ((n2 :: ns) !! _) eqn:Hlk; [|done]. cbn in Htn. injection Htn as <-. by eapply list_elem_of_lookup_2.
Qed.
Lemma open_or_create_grows kv meta rg tbl bs kv' (r : res (TableUnitError E) TableUnitState) : kv_ok kv -> meta <> META_TABLE_NAME ->
  open_or_create kv meta rg tbl bs = (kv', r) -> grows kv kv'.
Proof.
  intros Hkv Hm Ho. unfold open_or_create in Ho.
  destruct (load_table_unit_entry kv meta tbl) as [[e|]| |]; try (injection Ho as <- <-; by apply grows_refl).
  unfold insert_or_load_table_unit_entry in Ho. destruct (json_encode _) as [v|]; [|injection Ho as <- <-; by apply grows_refl].
  destruct (kv_write kv meta _) as [kv1 r1] eqn:Hw. assert (kv' = kv1) as -> by (destruct r1 as [|e|]; [| destruct (is_primary_key_duplicate e)|]; by injection Ho).
  by apply write_grows in Hw.
Qed.
Lemma delete_grows kv u meta s kv' u' (r : res (TableUnitError E) unit) : kv_ok kv -> meta <> META_TABLE_NAME ->
  delete_entries_up_to kv u meta s = (kv', u', r) -> grows kv kv'.
Proof.
  intros Hkv Hm Hd. unfold delete_entries_up_to in Hd. destruct (_ <? MAX_SEQUENCE_NUMBER); [|injection Hd as <- <- <-; by apply grows_refl].
  match type of Hd with context [match ?s with Ok _ => _ | Err _ => _ | Panic => _ end] => destruct s as [start| |] end;
    [|injection Hd as <- <- <-; by apply grows_refl..].
  unfold update_table_unit_entry in Hd. destruct (json_encode _) as [v|]; [|injection Hd as <- <- <-; by apply grows_refl].
  destruct (kv_write kv meta _) as [kv1 r1] eqn:Hw. assert (kv' = kv1) as -> by (destruct r1 as [[]| |]; by injection Hd). by apply write_grows in Hw.
Qed.
Lemma clean_iter_grows n name0 l : name0 <> META_TABLE_NAME -> forall kv batch kv' (r : res (TableUnitError E) unit), kv_ok kv ->
  clean_logs_from_iter kv n name0 batch l = (kv', r) -> grows kv kv'.
Proof.
  intros Hn. assert (Hdel : forall kv ks kv' (r : res (TableUnitError E) unit), kv_ok kv -> delete_batch kv name0 ks = (kv', r) -> grows kv kv').
  { intros kv ks kv' r Hkv Hd. unfold delete_batch in Hd. destruct (kv_write kv name0 _) as [kv1 r1] eqn:Hw. injection Hd as <- <-. by apply write_grows in Hw. }
  induction l as [|[k v] l IH]; intros kv batch kv' r Hkv Hc; cbn [clean_logs_from_iter] in Hc; [injection Hc as <- <-; by apply grows_refl|].
  destruct (n <=? length (batch ++ [k]))%nat.
  - destruct (delete_batch kv name0 (batch ++ [k])) as [kv1 r1] eqn:Hd. apply Hdel in Hd as Hg; [|done].
    destruct r1 as [[]| |]; [|by injection Hc as <- <-..]. apply (grows_trans _ _ _ Hg).
    destruct l; [by apply Hdel in Hc; [|apply Hg]|by apply (IH kv1 [] kv' r); [apply Hg|]].
  - destruct l; [by apply Hdel in Hc|by apply (IH kv (batch ++ [k]) kv' r)].
Qed.
Lemma clean_buckets_grows u n q l : Forall named l -> forall kv kv' (r : res (TableUnitError E) unit), kv_ok kv ->
  clean_buckets kv u n q l = (kv', r) -> grows kv kv'.
Proof.
  induction l as [|b l IH]; intros Hb kv kv' r Hkv Hc; cbn [clean_buckets] in Hc; [injection Hc as <- <-; by apply grows_refl|].
  apply Forall_cons in Hb as [Hb Hl]. destruct (wal_shard_table b (tu_region_id u)) as [tn| |] eqn:Htn; cbn [rbind] in Hc;
    [|injection Hc as <- <-; by apply grows_refl..].
  assert (tn <> META_TABLE_NAME) as Hnm.
  { apply (name_not_meta b); [done|]. unfold wal_shard_table in Htn. destruct (bk_wal_shard_names b) as [|n2 ns]; [done|].
    destruct ((n2 :: ns) !! _) eqn:Hlk; [|done]. cbn in Htn. injection Htn as <-. by eapply list_elem_of_lookup_2. }
  destruct (kv_scan kv tn q) as [iter| |]; cbn [rcontext rbind] in Hc; [|injection Hc as <- <-; by apply grows_refl..].
  destruct (clean_logs_from_iter kv n tn [] iter) as [kv1 r1] eqn:Hci. apply clean_iter_grows in Hci; [|done|done].
  destruct r1 as [[]| |]; [|by injection Hc as <- <-..]. apply (grows_trans _ _ _ Hci). apply (IH Hl kv1 kv' r); [apply Hci|done].
Qed.
(** An operation that keeps the buckets. *)
Definition quiet {A} (m : M (K:=K) (E:=E) A) (Q : A -> Prop) : Prop := forall i i' r, ns_wf i -> m i = (i', r) ->
  ns_wf i' /\ list_buckets i' = list_buckets i /\ match r with Ok a => Q a | _ => True end.
Lemma quiet_ret {A} (a : A) (Q : A -> Prop) : Q a -> quiet (mret a) Q.
Proof. intros Ha i i' r Hwf [= <- <-]. by split_and!. Qed.
Lemma quiet_bind {A B} (m : M A) (k : A -> M B) Q R : quiet m Q -> (forall a, Q a -> quiet (k a) R) -> quiet (mbind m k) R.
Proof.
  intros Hm Hk i i' r Hwf Hb. unfold mbind in Hb. destruct (m i) as [i1 r1] eqn:H1. apply Hm in H1 as (Hwf1 & Hl & Hr); [|done].
  destruct r1 as [a| |]; [|injection Hb as <- <-; by split_and!..]. apply (Hk a Hr) in Hb as (Hwf2 & Hl2 & Hr2); [|done]. split_and!; [done|congruence|done].
Qed.
Lemma quiet_mask : quiet mask ns_wf.
Proof. intros i i' r Hwf [= <- <-]. by split_and!. Qed.
Lemma quiet_lift {A} (r : res (NsError E) A) : quiet (mlift r) (fun a => r = Ok a).
Proof. intros i i' r' Hwf [= <- <-]. split_and!; [done|done|]. by destruct r. Qed.
Lemma grows_wf i kv : grows (in_kv i) kv -> ns_wf i -> ns_wf (set_kv i kv).
Proof. intros [Hok Ht Hm]. apply ext_wf. by split. Qed.
Lemma quiet_kv {F A} (g : F -> NsError E) (f : K -> K * res F A) : (forall kv kv' r, kv_ok kv -> f kv = (kv', r) -> grows kv kv') -> quiet (mkv g f) (fun _ => True).
Proof.
  intros Hf i i' r Hwf Hk. unfold mkv in Hk. destruct (f (in_kv i)) as [kv' r'] eqn:Hr. injection Hk as <- <-. apply Hf in Hr; [|apply Hwf].
  split_and!; [by apply grows_wf|done|by destruct r']. 
Qed.
Lemma quiet_units (f : gmap (Z * Z) TableUnitState -> gmap (Z * Z) TableUnitState) :
  quiet (mput (fun i => set_table_units i (f (in_table_units i)))) (fun _ => True).
Proof. intros i i' r Hwf [= <- <-]. split_and!; [by destruct Hwf; split|done|done]. Qed.
Lemma quiet_meta_table tbl : quiet (table_unit_meta_table tbl) (fun n => n <> META_TABLE_NAME).
Proof.
  eapply quiet_bind; [apply quiet_mask|]. intros i0 Hwf0 i i' r Hwf [= <- <-]. split_and!; [done|done|]. pose proof (nw_unit_meta _ Hwf0) as Hum.
  destruct (in_table_unit_meta_tables i0) as [|n ns]; [done|]. destruct ((n :: ns) !! _) as [m|] eqn:Hlk; [|done]. cbn. intros ->.
  by apply list_elem_of_lookup_2 in Hlk.
Qed.
Lemma quiet_insert_unit l u : quiet (insert_or_get_table_unit l u) (fun _ => True).
Proof.
  eapply quiet_bind; [apply quiet_mask|]. intros i0 _. destruct (in_table_units i0 !! loc l); [by apply quiet_ret|].
  eapply quiet_bind; [apply quiet_units|]. intros _ _. by apply quiet_ret.
Qed.
Lemma quiet_open_unit l : quiet (open_table_unit l) (fun _ => True).
Proof.
  eapply quiet_bind; [apply quiet_meta_table|]. intros meta Hmeta. eapply quiet_bind; [apply quiet_mask|]. intros i0 _.
  eapply quiet_bind; [apply quiet_kv; by intros kv kv' r Hkv [= <- <-]|]. intros [u|] _; [|by apply quiet_ret].
  eapply quiet_bind; [apply quiet_insert_unit|]. intros u' _. by apply quiet_ret.
Qed.
Lemma quiet_get_unit l : quiet (get_or_open_table_unit l) (fun _ => True).
Proof.
  eapply quiet_bind; [apply quiet_mask|]. intros i0 _. destruct (in_table_units i0 !! loc l); [by apply quiet_ret|apply quiet_open_unit].
Qed.
Lemma quiet_create_unit l : quiet (get_or_create_table_unit l) (fun _ => True).
Proof.
  eapply quiet_bind; [apply quiet_mask|]. intros i0 _. destruct (in_table_units i0 !! loc l); [by apply quiet_ret|].
  eapply quiet_bind; [apply quiet_meta_table|]. intros meta Hmeta. eapply quiet_bind; [apply quiet_mask|]. intros i1 _.
  eapply quiet_bind; [apply quiet_kv; intros kv kv' r Hkv Ho; by apply open_or_create_grows in Ho|]. intros u _. apply quiet_insert_unit.
Qed.
Lemma quiet_on_unit {A} g l f u : (forall kv u kv' u' (r : res (TableUnitError E) A), kv_ok kv -> f kv u = (kv', u', r) -> grows kv kv') ->
  quiet (on_unit g l f u) (fun _ => True).
Proof.
  intros Hf i i' r Hwf Ho. unfold on_unit in Ho. destruct (f (in_kv i) u) as [[kv u'] r'] eqn:Hr. injection Ho as <- <-. apply Hf in Hr; [|apply Hwf].
  split_and!; [|done|by destruct r']. destruct (grows_wf i kv Hr Hwf). by split.
Qed.
Lemma quiet_delete l s : quiet (delete_entries l s) (fun _ => True).
Proof.
  eapply quiet_bind; [apply quiet_get_unit|]. intros [u|] _; [|by apply quiet_ret]. eapply quiet_bind; [apply quiet_meta_table|].
  intros meta Hm. apply quiet_on_unit. intros kv u0 kv' u' r Hkv Hd. by apply delete_grows in Hd.
Qed.
Lemma quiet_read l start stop : quiet (ns_read_log l start stop) (fun _ => True).
Proof. eapply quiet_bind; [apply quiet_mask|]. intros i0 _. eapply quiet_bind; [apply quiet_get_unit|]. intros o _. by apply quiet_ret. Qed.
Lemma quiet_last l : quiet (last_sequence l) (fun _ => True).
Proof. eapply quiet_bind; [apply quiet_get_unit|]. intros o _. by apply quiet_ret. Qed.
Lemma wf_named i : ns_wf i -> Forall named (list_buckets i).
Proof. intros [_ _ _ _ _ _ _ _ (mt & _ & _ & Hbs)]. eapply Forall_impl; [exact Hbs|]. by intros b (? & _). Qed.
Lemma quiet_clean : quiet ns_clean_deleted_logs (fun _ => True).
Proof.
  eapply quiet_bind; [apply quiet_mask|]. intros i0 Hwf0. pose proof (wf_named _ Hwf0) as Hnb. generalize ((map_to_list (in_table_units i0)).*2) as us.
  induction us as [|u us IH]; cbn [clean_units]; [by apply quiet_ret|]. eapply quiet_bind; [|by intros]. apply quiet_kv. intros kv kv' r Hkv Hc.
  unfold clean_deleted_logs in Hc. rewrite !encode_key_ok in Hc. cbn [rcontext rbind] in Hc. by apply clean_buckets_grows in Hc.
Qed.
(** Writing may add the bucket of the time. *)
Lemma write_ok now batch i i' r : ns_wf i -> sint 64 now -> ns_write_log now batch i = (i', r) ->
  ns_wf i' /\ (list_buckets i' = list_buckets i \/ exists b, adds_bucket i i' b).
Proof.
  intros Hwf Hnow Hw. unfold ns_write_log in Hw. unfold mbind at 1 in Hw. destruct (get_or_create_bucket now i) as [i1 r1] eqn:Hg.
  apply get_or_create_ok in Hg as [Hwf1 Hr1]; [|done|done]. destruct r1 as [b| |]; [|injection Hw as <- <-; split; [done|by left]|done].
  destruct Hr1 as (Hadd & Hb & _).
  assert (quiet (mbind (get_or_create_table_unit (lb_location batch)) (fun u => on_unit WriteTableUnit (lb_location batch) (fun kv u => write_log kv u b batch) u))
    (fun _ => True)) as Hq.
  { eapply quiet_bind; [apply quiet_create_unit|]. intros u _. apply quiet_on_unit. intros kv u0 kv' u' r' Hkv Hwl. by apply write_log_grows in Hwl. }
  apply Hq in Hw as (Hwf2 & Hl & _); [|done]. split; [done|]. right. exists b. intros b'. by rewrite Hl.
Qed.

(** *** Runs of a namespace *)
Definition meta_state (kv : K) : Prop := kv_ok kv /\ exists mt : table, kv_view kv !! META_TABLE_NAME = Some mt /\ meta_ok mt.
Definition has_record (kv : K) (b : Bucket) : Prop := exists mt : table, kv_view kv !! META_TABLE_NAME = Some mt /\ persisted mt b.
Lemma new_ok kv entry config now i' r : meta_state kv -> ne_name entry = name -> we_shard_num (ne_wal entry) = shard_num ->
  is_some (nc_ttl config) = has_ttl -> ns_new kv META_TABLE_NAME entry config now = (i', r) ->
  r = Ok tt -> ns_wf i' /\ in_entry i' = entry /\
    forall b, b ∈ list_buckets i' <-> named b /\ has_record kv b /\ outdated i' now (bk_entry b) = false.
Proof.
  intros (Hkv & mt & Hmt & Hmok) Hn Hs Ht Hnew ->. unfold ns_new in Hnew. cbv zeta in Hnew.
  match type of Hnew with mbind _ _ ?i = _ => set (i0 := i) in * end.
  assert (Hnil : list_buckets i0 = []) by (unfold i0, list_buckets, bucket_set_new; cbn; rewrite Ht; by destruct has_ttl).
  assert (Hum : META_TABLE_NAME ∉ in_table_unit_meta_tables i0) by (intros (id & Hid & _)%list_elem_of_fmap; done).
  assert (Hwf0 : ns_wf i0).
  { split; [done|done|done|done|done| |constructor|done|].
    - unfold i0, bucket_set_new. cbn. rewrite Ht. destruct has_ttl eqn:Hb; cbn; [|done]. split_and!; [done|constructor|set_solver].
    - exists mt. rewrite Hnil. by split_and!. }
  unfold mbind in Hnew. destruct (init_table_unit_meta i0) as [i1 r1] eqn:Hinit. unfold init_table_unit_meta, mbind, mask in Hinit.
  apply create_tables_ok in Hinit as [He _]; [|done|done]. pose proof (ext_wf _ _ He Hwf0) as Hwf1. destruct r1 as [[]| |]; [|done|done].
  assert (Hrest : list_buckets i1 = [] /\ in_entry i1 = entry) by (rewrite (ex_rest _ _ He); by split). destruct Hrest as [Hnil1 Hent1].
  assert (Hent : in_entry i' = entry).
  { rewrite <- Hent1. by eapply load_entry. }
  apply load_buckets_ok in Hnew as [Hwf' [Hr _]]; [|done|done]. split_and!; [done|done|]. intros b. rewrite Hr. unfold is_persisted, outdated.
  rewrite (ex_meta _ _ He), Hent1, Hent. done.
Qed.
Lemma list_by_time i : ns_wf i -> by_time (list_buckets i).
Proof.
  intros Hwf. pose proof (nw_set _ Hwf) as Hset. unfold list_buckets, by_time. destruct (in_bucket_set i) as [m|[b|]]; cbn [buckets]; [|repeat constructor|constructor].
  destruct Hset as (_ & Hs & Hst). induction Hs as [|[s b] m Hs IH Hf]; [constructor|]. cbn [fmap list_fmap snd]. constructor.
  - apply IH. intros s' b' Hin. apply Hst. by right.
  - apply Forall_forall. intros b' ([s' b2] & -> & Hin)%list_elem_of_fmap. rewrite Forall_forall in Hf. specialize (Hf _ Hin). cbn in Hf.
    pose proof (Hst s b ltac:(by left)). pose proof (Hst s' b2 ltac:(by right)). change (s < s') in Hf. change (gmt_start_ms b < gmt_start_ms b2). lia.
Qed.
(** All operations, the tasks of the runtime, the other users of the service (who
    keep the records and tables of the namespace) and restarts. *)
Inductive ns_step : NamespaceInner (K:=K) -> NamespaceInner -> Prop :=
| ns_do_write now batch i i' r : sint 64 now -> ns_write_log now batch i = (i', r) -> ns_step i i'
| ns_do_read l start stop i i' r : ns_read_log l start stop i = (i', r) -> ns_step i i'
| ns_do_last l i i' r : last_sequence l i = (i', r) -> ns_step i i'
| ns_do_delete l s i i' r : delete_entries l s i = (i', r) -> ns_step i i'
| ns_do_close region_id i i' r : close_region (E:=E) region_id i = (i', r) -> ns_step i i'
| ns_do_clean i i' r : log_cleaner_routine i = (i', r) -> ns_step i i'
| ns_do_monitor now i i' r : sint 64 now -> bucket_monitor_routine now i = (i', r) -> ns_step i i'
| ns_do_purge i i' r : Forall (fun b => b ∉ list_buckets i) (in_outdated i) -> purge_outdated i = (i', r) -> ns_step i i'
| ns_do_other i kv : kv_ok kv -> (forall b, b ∈ list_buckets i -> tables_exist kv b) ->
    (exists mt mt' : table, kv_view (in_kv i) !! META_TABLE_NAME = Some mt /\ kv_view kv !! META_TABLE_NAME = Some mt' /\
      forall k v, starts_with bucket_prefix k = true -> (k, v) ∈ mt' <-> (k, v) ∈ mt) -> ns_step i (set_kv i kv)
| ns_do_restart i config now i' : is_some (nc_ttl config) = has_ttl -> ns_new (in_kv i) META_TABLE_NAME (in_entry i) config now = (i', Ok tt) -> ns_step i i'.
Lemma ignore_ok {A} (m : M (K:=K) (E:=E) A) i i' r : ignore m i = (i', r) -> exists r', m i = (i', r').
Proof. unfold ignore. destruct (m i) as [i1 [a| |]]; intros [= <- <-]; by eexists. Qed.
Lemma wf_meta_state i : ns_wf i -> meta_state (in_kv i).
Proof. intros Hwf. split; [apply Hwf|]. destruct (nw_meta _ Hwf) as (mt & H1 & H2 & _). by exists mt. Qed.
Lemma other_wf i kv : ns_wf i -> kv_ok kv -> (forall b, b ∈ list_buckets i -> tables_exist kv b) ->
  (exists mt mt' : table, kv_view (in_kv i) !! META_TABLE_NAME = Some mt /\ kv_view kv !! META_TABLE_NAME = Some mt' /\
    forall k v, starts_with bucket_prefix k = true -> (k, v) ∈ mt' <-> (k, v) ∈ mt) -> ns_wf (set_kv i kv).
Proof.
  intros [Hn Hsh Ht Hm Hk Hset Hod Hum (mt0 & Hmt0 & Hmok & Hbs)] Hok Htab (mt & mt' & Hmt & Hmt' & Hsame). assert (mt0 = mt) as -> by congruence.
  split; [done|done|done|done|done|done|done|done|]. exists mt'. split_and!; [done| |].
  - intros k v Hin Hst. apply Hmok; [|done]. by apply Hsame.
  - rewrite Forall_forall in Hbs. apply Forall_forall. intros b Hb. destruct (Hbs b Hb) as (Hnb & _ & (key & v & Hkey & Hin & Hd)). split_and!; [done|by apply Htab|].
    exists key, v. split_and!; [done| |done]. apply Hsame; [by apply (key_starts b)|done].
Qed.
Lemma ns_step_wf i i' : ns_step i i' -> ns_wf i -> ns_wf i'.
Proof.
  intros Hstep Hwf. destruct Hstep as [now batch i i' r Hnow H|l start stop i i' r H|l i i' r H|l s i i' r H|rg i i' r H|i i' r H|now i i' r Hnow H
    |i i' r Hout H|i kv Hok Htab Hmeta|i config now i' Ht H].
  - by apply write_ok in H as [? _].
  - by apply quiet_read in H as [? _].
  - by apply quiet_last in H as [? _].
  - by apply quiet_delete in H as [? _].
  - by apply quiet_units in H as [? _].
  - apply ignore_ok in H as [r' H]. by apply quiet_clean in H as [? _].
  - unfold bucket_monitor_routine, mbind in H. destruct (ignore (create_next_bucket now) i) as [i1 r1] eqn:H1. apply ignore_ok in H1 as [r' H1].
    apply create_next_ok in H1 as [Hwf1 _]; [|done|done]. destruct r1 as [[]| |]; [|by injection H as <- <-..].
    apply ignore_ok in H as [r2 H]. by apply purge_expired_ok in H as [? _].
  - unfold purge_outdated, mbind, mask, mput in H. rewrite (nw_name _ Hwf), (nw_meta_name _ Hwf) in H.
    apply purge_ok in H as [? _]; [done| |apply Hwf|done]. destruct Hwf. by split.
  - by apply other_wf.
  - eapply new_ok in H as [? _]; [done|by apply wf_meta_state|apply Hwf|apply Hwf|done|done].
Qed.
(** A namespace as [ns_new] leaves it on a service whose meta table is sound. *)
Definition ns_start (i : NamespaceInner (K:=K)) : Prop :=
  exists kv entry config now, meta_state kv /\ ne_name entry = name /\ we_shard_num (ne_wal entry) = shard_num /\
    is_some (nc_ttl config) = has_ttl /\ ns_new kv META_TABLE_NAME entry config now = (i, Ok tt).
Lemma ns_reach_wf i0 i : ns_start i0 -> rtc ns_step i0 i -> ns_wf i.
Proof.
  intros (kv & entry & config & now & Hm & Hn & Hs & Ht & Hnew) Hreach.
  assert (Hwf : ns_wf i0) by (by eapply new_ok in Hnew as [? _]). clear Hnew. induction Hreach as [|i0 i1 i2 Hstep _ IH]; [done|]. apply IH. by eapply ns_step_wf.
Qed.
(** What holds of the buckets of a namespace. *)
Record buckets_ok (i : NamespaceInner (K:=K)) : Prop := {
  bo_order : by_time (list_buckets i);
  bo_tables : forall b n, b ∈ list_buckets i -> n ∈ bk_wal_shard_names b -> is_Some (kv_view (in_kv i) !! n) /\ n <> META_TABLE_NAME;
  bo_apart : forall b1 b2 n, b1 ∈ list_buckets i -> b2 ∈ list_buckets i -> n ∈ bk_wal_shard_names b1 -> n ∈ bk_wal_shard_names b2 -> b1 = b2
}.
Lemma wf_buckets_ok i : ns_wf i -> buckets_ok i.
Proof.
  intros Hwf. pose proof (wf_named _ Hwf) as Hnb. rewrite Forall_forall in Hnb. split.
  - by apply list_by_time.
  - intros b n Hb Hn. destruct (nw_meta _ Hwf) as (mt & _ & _ & Hbs). rewrite Forall_forall in Hbs. destruct (Hbs b Hb) as (_ & Hte & _).
    split; [by apply Hte|]. by apply (name_not_meta b); [apply Hnb|].
  - intros b1 b2 n H1 H2. apply names_disjoint; by apply Hnb.
Qed.
Lemma wf_has_record i b : ns_wf i -> b ∈ list_buckets i -> named b /\ has_record (in_kv i) b.
Proof.
  intros Hwf Hb. destruct (nw_meta _ Hwf) as (mt & Hmt & _ & Hbs). rewrite Forall_forall in Hbs. destruct (Hbs b Hb) as (Hn & _ & Hp). split; [done|by exists mt].
Qed.
(** What a write, the monitor and a restart make of the buckets. *)
Record buckets_kept (i : NamespaceInner (K:=K)) : Prop := {
  bk_write : forall now i' r, sint 64 now -> get_or_create_bucket now i = (i', r) ->
    match r with
    | Ok b => adds_bucket i i' b /\ (has_ttl = true -> gmt_start_ms b <= now < be_gmt_end_ms (bk_entry b))
    | Err _ => list_buckets i' = list_buckets i
    | Panic => False
    end;
  bk_purge : forall now i' r, purge_expired_buckets now i = (i', r) ->
    r <> Panic /\ forall b, b ∈ list_buckets i' <-> b ∈ list_buckets i /\ outdated i now (bk_entry b) = false;
  bk_restart : forall config now i', is_some (nc_ttl config) = has_ttl -> ns_new (in_kv i) META_TABLE_NAME (in_entry i) config now = (i', Ok tt) ->
    forall b, b ∈ list_buckets i -> outdated i now (bk_entry b) = false -> b ∈ list_buckets i'
}.
Lemma wf_buckets_kept i : ns_wf i -> buckets_kept i.
Proof.
  intros Hwf. split.
  - intros now i' r Hnow Hg. apply get_or_create_ok in Hg as [_ Hr]; [|done|done]. destruct r; [by destruct Hr as (? & _ & ?)|done|done].
  - intros now i' r Hp. by apply purge_expired_ok in Hp as (_ & ? & ?).
  - intros config now i' Ht Hnew b Hb Ho. eapply new_ok in Hnew as (_ & Hent & Hiff); [|by apply wf_meta_state|apply Hwf|apply Hwf|done|done].
    apply Hiff. destruct (wf_has_record i b Hwf Hb). split_and!; [done|done|]. unfold outdated in *. by rewrite Hent.
Qed.
(** C28. The buckets of a namespace are sound in every reachable state: they are
    ordered by time without two of a start, the tables of each are in the service,
    and no table is of two buckets or the meta table.  A write at a time goes to a
    bucket that contains it, the monitor takes away the expired buckets and no
    others, and opening the namespace again finds each bucket that is not expired;
    none of these unwinds. *)
Theorem namespace_keeps_buckets i0 i : ns_start i0 -> rtc ns_step i0 i -> buckets_ok i /\ buckets_kept i.
Proof. intros Hs Hr. pose proof (ns_reach_wf _ _ Hs Hr). split; [by apply wf_buckets_ok|by apply wf_buckets_kept]. Qed.
End keeping.

(** ** A namespace on the tables in memory *)
#[local] Instance bucket_codec : JsonCodec BucketEntry.
Proof.
  refine {| json_encode e := Some [be_shard_num e; be_gmt_start_ms e; be_gmt_end_ms e];
            json_decode b := match b with [n; s; e] => Some (MkBucketEntry n s e) | _ => None end |}.
  abstract (intros []; eauto).
Defined.
#[local] Instance unit_codec : JsonCodec TableUnitEntry.
Proof.
  refine {| json_encode e := Some [te_table_id e; te_start_sequence e];
            json_decode b := match b with [i; s] => Some (MkUnitEntry i s) | _ => None end |}.
  abstract (intros []; eauto).
Defined.
(** Seconds since the epoch. *)
#[local] Instance seconds : Chrono := {| bucket_timestamp s := Some (pretty (s / 1000)); wal_timestamp s := Some (pretty (s / 1000)) |}.
Lemma seconds_inj s s' d : s mod 1000 = 0 -> s' mod 1000 = 0 -> Some (pretty (s / 1000)) = Some d -> Some (pretty (s' / 1000)) = Some d -> s = s'.
Proof.
  intros H1 H2 [= <-] [= Heq]. apply (inj pretty) in Heq. rewrite (Z.div_mod s 1000), (Z.div_mod s' 1000) by lia. lia.
Qed.
Lemma pretty_digits (n : N) : Forall (fun c => c = "+"%char \/ c = "-"%char \/ (48 <= N_of_ascii c <= 57)%N) (chars (pretty n)).
Proof.
  eapply (Forall_impl (fun c => (48 <= N_of_ascii c <= 57)%N)); [|by auto]. unfold pretty, pretty_N. case_decide; [by repeat constructor|].
  apply digits_pretty_go. constructor.
Qed.
#[local] Instance seconds_laws : ChronoLaws.
Proof.
  split.
  - exact seconds_inj.
  - exact seconds_inj.
  - intros s d [= <-]. generalize (s / 1000) as z. intros [|p|p]; [apply (pretty_digits 0)|apply (pretty_digits (N.pos p))|].
    change (pretty (Z.neg p)) with (String "-" (pretty (N.pos p))). cbn [chars]. constructor; [by right; left|apply (pretty_digits (N.pos p))].
  - intros s. split; intros _; by eexists.
Qed.
Definition day : Z := BUCKET_DURATION_MS.
Definition run_entry : NamespaceEntry := MkNsEntry "wal" (MkWalShard true (Some day) 2) 1.
Definition run_config : NamespaceConfig := MkNsConfig 2 1 (Some day) 100 100.
Definition run_service : Memory.MemoryImpl := {[META_TABLE_NAME := []]}.
Definition run_opened := ns_new run_service META_TABLE_NAME run_entry run_config 1000.
Definition run_batch (tb : Z) : LogWriteBatch := unit_batch 1 tb [[97]].
(** Two writes a day apart, the monitor, a restart after the first of the buckets has
    expired, and a write, whose sequence is the first one again. *)
Definition run_first := ns_write_log 1000 (run_batch 7) run_opened.1.
Definition run_second := ns_write_log (day + 1000) (run_batch 8) run_first.1.
Definition run_monitor := bucket_monitor_routine (day + 2000) run_second.1.
Definition run_restart := ns_new (in_kv run_monitor.1) META_TABLE_NAME (in_entry run_monitor.1) run_config (2 * day + 3000).
Definition run_last := ns_write_log (2 * day + 4000) (run_batch 7) run_restart.1.
Lemma run_ns_start : ns_start (K:=Memory.MemoryImpl) "wal" 2 true run_opened.1.
Proof.
  exists run_service, run_entry, run_config, 1000. split_and!; [|done|done|done|vm_compute; reflexivity]. split.
  - by apply map_Forall_singleton; constructor.
  - exists []. split; [done|]. intros k v Hin. by apply not_elem_of_nil in Hin.
Qed.
Lemma run_ns_reach : rtc (ns_step (K:=Memory.MemoryImpl) "wal" true) run_opened.1 run_last.1.
Proof.
  eapply rtc_l; [eapply (ns_do_write _ _ 1000 (run_batch 7)); [unfold sint; lia|apply surjective_pairing]|].
  eapply rtc_l; [eapply (ns_do_write _ _ (day + 1000) (run_batch 8)); [by vm_compute|apply surjective_pairing]|].
  eapply rtc_l; [eapply (ns_do_monitor _ _ (day + 2000)); [by vm_compute|apply surjective_pairing]|].
  eapply rtc_l; [eapply (ns_do_restart _ _ _ run_config (2 * day + 3000) run_restart.1); vm_compute; reflexivity|].
  eapply rtc_l; [eapply (ns_do_write _ _ (2 * day + 4000) (run_batch 7)); [by vm_compute|apply surjective_pairing]|].
  apply rtc_refl.
Qed.
Lemma namespace_keeps_buckets_witness :
  (gmt_start_ms <$> list_buckets run_second.1) = [0; day] /\
  (gmt_start_ms <$> list_buckets run_restart.1) = [day; 2 * day] /\
  run_last.2 = Ok 1 /\
  buckets_ok (K:=Memory.MemoryImpl) run_last.1 /\ buckets_kept (K:=Memory.MemoryImpl) true run_last.1.
Proof.
  split; [vm_compute; reflexivity|]. split; [vm_compute; reflexivity|]. split; [vm_compute; reflexivity|].
  exact (namespace_keeps_buckets "wal" 2 true run_opened.1 run_last.1 run_ns_start run_ns_reach).
Defined.

(** A service that never drops a table. *)
Record Sticky := MkSticky { sticky : Memory.MemoryImpl }.
#[local] Instance sticky_kv : TableKv Sticky Memory.Error := {|
  is_primary_key_duplicate e := is_primary_key_duplicate e;
  kv_table_exists k n := kv_table_exists (sticky k) n;
  kv_create_table k n := let (m, r) := kv_create_table (sticky k) n in (MkSticky m, r);
  kv_drop_table k n := (k, Err (Memory.TableNotFound n));
  kv_write k n ops := let (m, r) := kv_write (sticky k) n ops in (MkSticky m, r);
  kv_scan k n q := kv_scan (sticky k) n q;
  kv_get k n key := kv_get (sticky k) n key
|}.
Lemma sticky_write k n ops k' r : kv_write k n ops = (k', r) -> kv_write (sticky k) n ops = (sticky k', r).
Proof. change (kv_write k n ops) with (let (m, r) := kv_write (sticky k) n ops in (MkSticky m, r)). destruct (kv_write (sticky k) n ops). by intros [= <- <-]. Qed.
Lemma sticky_create k n k' r : kv_create_table k n = (k', r) -> kv_create_table (sticky k) n = (sticky k', r).
Proof. change (kv_create_table k n) with (let (m, r) := kv_create_table (sticky k) n in (MkSticky m, r)). destruct (kv_create_table (sticky k) n). by intros [= <- <-]. Qed.
#[local] Instance sticky_kv_laws : TableKvLaws Sticky Memory.Error.
Proof.
  refine {| kv_view k := kv_view (sticky k); kv_ok k := kv_ok (sticky k) |}.
  - intros k. apply (kv_view_sorted (sticky k)).
  - intros k. exact (kv_exists_law (sticky k)).
  - intros k. exact (kv_exists_panic (sticky k)).
  - intros k n k' r Hk Hc%sticky_create. by apply kv_create_law in Hc.
  - intros k n k' Hk Hc%sticky_create. by apply kv_create_panic in Hc.
  - intros k n k' r Hk [= <- <-]. split; [done|by right].
  - intros k n ops k' r Hk Hc%sticky_write. by apply kv_write_law in Hc.
  - intros k n ops k' e Hk Hc%sticky_write. exact (kv_write_duplicate (sticky k) n ops _ e Hk Hc).
  - intros k n ops k' Hk Hc%sticky_write. by apply kv_write_panic in Hc.
  - intros k. exact (kv_scan_law (sticky k)).
  - intros k. exact (kv_scan_panic (sticky k)).
  - intros k. exact (kv_get_law (sticky k)).
  - intros k. exact (kv_get_panic (sticky k)).
Defined.
(** Tables of an expired bucket that cannot be dropped are never dropped: the
    failure is logged, the record of the bucket is deleted all the same, and no
    later start of the namespace finds the bucket to try again. *)
Theorem failed_drop_leaks_tables :
  let '(i0, r0) := ns_new (MkSticky run_service) META_TABLE_NAME run_entry run_config 1000 in
  let '(i1, r1) := ns_write_log 1000 (run_batch 7) i0 in
  let '(i2, r2) := purge_expired_buckets (3 * day) i1 in
  let '(i3, r3) := ns_new (in_kv i2) META_TABLE_NAME run_entry run_config (3 * day) in
  r0 = Ok tt /\ r1 = Ok 1 /\ r2 = Ok tt /\ r3 = Ok tt /\ list_buckets i3 = [] /\ in_outdated i3 = [] /\
  Forall (fun n => is_Some (kv_view (in_kv i3) !! n)) (list_buckets i1 ≫= bk_wal_shard_names) /\ length (list_buckets i1) = 1%nat.
Proof. vm_compute. split_and!; try done. repeat (constructor; [by eexists|]). constructor. Qed.
