(* ===== verification/WalReplayer.v ===== *)
(** * Replaying the write-ahead log

    Models [analytic_engine/src/instance/wal_replayer.rs]: the entries of the log that
    are not flushed are put into the memtables of the tables that are opened, table by
    table ([TableBasedReplay]) or in one pass over the log of the region
    ([RegionBasedReplay]).

    A table is shared ([TableDataRef]) and changed in place: the tables are a map by
    id, and the slice of references is a list of ids.  What replaying uses of a table,
    its memtables and its flushes is the class [ReplayTable]; what a flush in the
    background does by the next operation is part of the state of the table.  The
    serial executors of the tables are locked while they are replayed, so nothing else
    writes to them.  An iterator over the log is the list of what the calls of
    [next_log_entries] return, one after the other, with decoded payloads; after the
    last one the buffer is empty. *)

From Stdlib Require Import ZArith Lia.
From stdpp Require Import base tactics option list sorting numbers gmap strings.
From S2P Require Import Prelude Bytes TableKv KvEncoder TableUnit UnitLog WalUnits.

#[local] Open Scope Z_scope.

Inductive ReadPayload (RG : Type) :=
| PlWrite (row_group : RG)
| PlAlterSchema
| PlAlterOptions.
Arguments PlWrite {RG}. Arguments PlAlterSchema {RG}. Arguments PlAlterOptions {RG}.
(** [LogEntry<P>]. *)
Record PayloadEntry (P : Type) := MkPayloadEntry { pe_table_id : Z; pe_sequence : Z; pe_payload : P }.
Arguments MkPayloadEntry {P}. Arguments pe_table_id {P}. Arguments pe_sequence {P}. Arguments pe_payload {P}.

(** What is used of a table: [flushed_sequence] of its current version, the version of
    its schema and of the one of a row group, [MemTableWriter::write],
    [should_flush_table], [schedule_flush] and [set_last_sequence]. *)
Class ReplayTable (T RG GE : Type) := {
  rt_id : T -> Z;
  rt_shard_id : T -> Z;
  rt_flushed_sequence : T -> Z;
  rt_schema_version : T -> Z;
  rg_schema_version : RG -> Z;
  rt_write : T -> Z -> RG -> T * res GE unit;
  rt_should_flush : T -> bool;
  rt_schedule_flush : T -> T * res GE unit;
  rt_set_last_sequence : T -> Z -> T
}.
(** Sequences up to [rt_bound] are flushed or in a memtable.  Whatever is flushed was
    written before, flushed sequences only grow, and no operation unwinds. *)
Class ReplayTableLaws (T RG GE : Type) {RT : ReplayTable T RG GE} := {
  rt_bound : T -> Z;
  rt_flushed_bound : forall t, rt_flushed_sequence t <= rt_bound t;
  rt_write_law : forall t s rg t' r, rt_write t s rg = (t', r) ->
    r <> Panic /\ rt_flushed_sequence t <= rt_flushed_sequence t' /\ rt_bound t' <= Z.max (rt_bound t) s;
  rt_schedule_law : forall t t' r, rt_schedule_flush t = (t', r) ->
    r <> Panic /\ rt_flushed_sequence t <= rt_flushed_sequence t' /\ rt_bound t' <= rt_bound t;
  rt_set_last_law : forall t s, rt_flushed_sequence t <= rt_flushed_sequence (rt_set_last_sequence t s) /\
    rt_bound (rt_set_last_sequence t s) <= rt_bound t
}.

Inductive EngineError (GE : Type) := ReplayWalWithCause (source : GE).
Arguments ReplayWalWithCause {GE}.
Inductive ReplayMode := RegionBased | TableBased.
Record TableBatch := MkTableBatch { tb_table_id : Z; tb_range : nat * nat }.
Definition u64_MAX : Z := 2 ^ 64 - 1.

(** ** Splitting a batch *)
Section split.
Context {P : Type}.
Definition get_table_id (log_batch : list (PayloadEntry P)) (i : nat) : res unit Z := unwrap (pe_table_id <$> log_batch !! i).
(** The loop; [fuel] is the number of its rounds. *)
Fixpoint split_loop (fuel : nat) (log_batch : list (PayloadEntry P)) (start_log_idx curr_log_idx : nat) (start_table_id : Z)
  (table_batches : list TableBatch) : res unit (list TableBatch) :=
  match fuel with
  | O => Err tt
  | S fuel =>
      let time_to_break := (curr_log_idx =? length log_batch)%nat in
      let? found_end_idx := if time_to_break then Ok true
        else let? current_table_id := get_table_id log_batch curr_log_idx in Ok (negb (current_table_id =? start_table_id)) in
      let? (start_log_idx, start_table_id, table_batches) :=
        if found_end_idx : bool then
          let table_batches := table_batches ++ [MkTableBatch start_table_id (start_log_idx, curr_log_idx)] in
          let start_log_idx := curr_log_idx in
          let? start_table_id := if time_to_break then Ok u64_MAX else get_table_id log_batch start_log_idx in
          Ok (start_log_idx, start_table_id, table_batches)
        else Ok (start_log_idx, start_table_id, table_batches) in
      if time_to_break then Ok table_batches
      else split_loop fuel log_batch start_log_idx (S curr_log_idx) start_table_id table_batches
  end.
Definition split_log_batch_by_table (log_batch : list (PayloadEntry P)) : res unit (list TableBatch) :=
  match log_batch with
  | [] => Ok []
  | _ => let? start_table_id := get_table_id log_batch 0 in split_loop (S (length log_batch)) log_batch 0 0 start_table_id []
  end.
(** [VecDeque::range]. *)
Definition batch_range (log_batch : list (PayloadEntry P)) (r : nat * nat) : list (PayloadEntry P) := take (r.2 - r.1) (drop r.1 log_batch).
End split.

(** ** Replaying *)
Section replay.
Context {T RG GE : Type} {RT : ReplayTable T RG GE}.
Abbreviation entry := (PayloadEntry (ReadPayload RG)).
Abbreviation Error := (EngineError GE).
Abbreviation tables := (gmap Z T).
Abbreviation FailedTables := (gmap Z Error).
(** What the calls of [next_log_entries] return. *)
Abbreviation BatchLogIterator := (list (res GE (list entry))).
Record WalManager := MkWalManager {
  wal_read_batch : WalLocation -> ReadBoundary -> ReadBoundary -> res GE BatchLogIterator;
  wal_scan : Z -> res GE BatchLogIterator
}.
Record ReplayContext := MkReplayContext { rc_shard_id : Z; rc_wal_manager : WalManager }.

Definition create_wal_location (table_id shard_id : Z) : WalLocation := MkLocation shard_id table_id.

(** One round of the loop over the entries. *)
Definition replay_entry (flushed_sequence : Z) (t : T) (log_entry : entry) : T * res Error unit :=
  let sequence := pe_sequence log_entry in
  if sequence <=? flushed_sequence then (t, Ok tt)
  else
    match pe_payload log_entry with
    | PlWrite row_group =>
        if negb (rt_schema_version t =? rg_schema_version row_group) then (t, Ok tt)
        else
          let (t, r) := rt_write t sequence row_group in
          match rcontext ReplayWalWithCause r with
          | Ok _ =>
              let (t, r) := if rt_should_flush t then rt_schedule_flush t else (t, Ok tt) in
              match rcontext ReplayWalWithCause r with
              | Ok _ => (rt_set_last_sequence t sequence, Ok tt)
              | r => (t, r)
              end
          | r => (t, r)
          end
    | PlAlterSchema | PlAlterOptions => (rt_set_last_sequence t sequence, Ok tt)
    end.
Fixpoint replay_entries (flushed_sequence : Z) (t : T) (log_entries : list entry) : T * res Error unit :=
  match log_entries with
  | [] => (t, Ok tt)
  | e :: es => match replay_entry flushed_sequence t e with (t, Ok _) => replay_entries flushed_sequence t es | (t, r) => (t, r) end
  end.
Definition replay_table_log_entries (t : T) (log_entries : list entry) : T * res Error unit :=
  replay_entries (rt_flushed_sequence t) t log_entries.

(** [TableBasedReplay]. *)
Fixpoint recover_loop (log_iter : BatchLogIterator) (t : T) : T * res Error unit :=
  match log_iter with
  | [] => (t, Ok tt)
  | call :: log_iter =>
      match rcontext ReplayWalWithCause call with
      | Ok [] => (t, Ok tt)
      | Ok log_entry_buf =>
          match replay_table_log_entries t log_entry_buf with
          | (t, Ok _) => recover_loop log_iter t
          | (t, r) => (t, r)
          end
      | Err e => (t, Err e)
      | Panic => (t, Panic)
      end
  end.
Definition recover_table_logs (ctx : ReplayContext) (t : T) : T * res Error unit :=
  match rcontext ReplayWalWithCause
    (wal_read_batch (rc_wal_manager ctx) (create_wal_location (rt_id t) (rt_shard_id t)) (RbExcluded (rt_flushed_sequence t)) RbMax) with
  | Ok log_iter => recover_loop log_iter t
  | Err e => (t, Err e)
  | Panic => (t, Panic)
  end.
(** A table by its reference. *)
Definition on_table (id : Z) (f : T -> T * res Error unit) (ts : tables) : tables * res Error unit :=
  match ts !! id with Some t => let (t, r) := f t in (<[id := t]> ts, r) | None => (ts, Panic) end.
Fixpoint table_based_run (ctx : ReplayContext) (table_datas : list Z) (ts : tables) (faileds : FailedTables) : tables * res Error FailedTables :=
  match table_datas with
  | [] => (ts, Ok faileds)
  | id :: ids =>
      match on_table id (recover_table_logs ctx) ts with
      | (ts, Ok _) => table_based_run ctx ids ts faileds
      | (ts, Err e) => table_based_run ctx ids ts (<[id := e]> faileds)
      | (ts, Panic) => (ts, Panic)
      end
  end.

(** [RegionBasedReplay].  [serial_exec_ctxs] has the tables that are replayed. *)
Fixpoint replay_table_batches (log_batch : list entry) (serial_exec_ctxs : gset Z) (table_batches : list TableBatch) (ts : tables)
  (faileds : FailedTables) : tables * res Error FailedTables :=
  match table_batches with
  | [] => (ts, Ok faileds)
  | b :: bs =>
      match faileds !! tb_table_id b with
      | Some _ => replay_table_batches log_batch serial_exec_ctxs bs ts faileds
      | None =>
          if bool_decide (tb_table_id b ∈ serial_exec_ctxs) then
            match on_table (tb_table_id b) (fun t => replay_table_log_entries t (batch_range log_batch (tb_range b))) ts with
            | (ts, Ok _) => replay_table_batches log_batch serial_exec_ctxs bs ts faileds
            | (ts, Err e) => replay_table_batches log_batch serial_exec_ctxs bs ts (<[tb_table_id b := e]> faileds)
            | (ts, Panic) => (ts, Panic)
            end
          else replay_table_batches log_batch serial_exec_ctxs bs ts faileds
      end
  end.
Definition replay_single_batch (log_batch : list entry) (serial_exec_ctxs : gset Z) (ts : tables) (faileds : FailedTables)
  : tables * res Error FailedTables :=
  match split_log_batch_by_table log_batch with
  | Ok table_batches => replay_table_batches log_batch serial_exec_ctxs table_batches ts faileds
  | _ => (ts, Panic)
  end.
Fixpoint region_loop (log_iter : BatchLogIterator) (serial_exec_ctxs : gset Z) (ts : tables) (faileds : FailedTables)
  : tables * res Error FailedTables :=
  match log_iter with
  | [] => (ts, Ok faileds)
  | call :: log_iter =>
      match rcontext ReplayWalWithCause call with
      | Ok [] => (ts, Ok faileds)
      | Ok log_entry_buf =>
          match replay_single_batch log_entry_buf serial_exec_ctxs ts faileds with
          | (ts, Ok faileds) => region_loop log_iter serial_exec_ctxs ts faileds
          | (ts, r) => (ts, r)
          end
      | Err e => (ts, Err e)
      | Panic => (ts, Panic)
      end
  end.
Definition replay_region_logs (ctx : ReplayContext) (table_datas : list Z) (ts : tables) : tables * res Error FailedTables :=
  match rcontext ReplayWalWithCause (wal_scan (rc_wal_manager ctx) (rc_shard_id ctx)) with
  | Ok log_iter => region_loop log_iter (list_to_set table_datas) ts ∅
  | Err e => (ts, Err e)
  | Panic => (ts, Panic)
  end.
(** [WalReplayer::replay]. *)
Definition replay (mode : ReplayMode) (ctx : ReplayContext) (table_datas : list Z) (ts : tables) : tables * res Error FailedTables :=
  match mode with
  | RegionBased => replay_region_logs ctx table_datas ts
  | TableBased => table_based_run ctx table_datas ts ∅
  end.
End replay.

(** ** A batch is split into runs *)
Section split_ok.
Context {P : Type}.
Implicit Types (l : list (PayloadEntry P)) (b : TableBatch).
Definition is_run l b : Prop :=
  (b.(tb_range).1 < b.(tb_range).2 <= length l)%nat /\ Forall (fun e => pe_table_id e = tb_table_id b) (batch_range l (tb_range b)).
(** The runs up to a position: of one table each, one after the other, maximal. *)
Definition runs_to l (n : nat) (bs : list TableBatch) : Prop :=
  concat ((fun b => batch_range l (tb_range b)) <$> bs) = take n l /\ Forall (is_run l) bs /\
  forall i b1 b2, bs !! i = Some b1 -> bs !! S i = Some b2 -> tb_table_id b1 <> tb_table_id b2.
Lemma runs_push l start curr tid bs : runs_to l start bs -> (start < curr <= length l)%nat ->
  Forall (fun e => pe_table_id e = tid) (batch_range l (start, curr)) -> (forall b, last bs = Some b -> tb_table_id b <> tid) ->
  runs_to l curr (bs ++ [MkTableBatch tid (start, curr)]).
Proof.
  intros (Hc & Hf & Ha) Hr He Hlast. split_and!.
  - rewrite fmap_app, concat_app, Hc. cbn. unfold batch_range. cbn. rewrite app_nil_r, take_take_drop. f_equal. lia.
  - apply Forall_app. split; [done|]. repeat constructor; cbn; [lia|lia|done].
  - intros i b1 b2 H1 H2. apply lookup_app_Some in H2 as [H2|[Hge H2]].
    + apply (Ha i); [|done]. rewrite lookup_app_l in H1; [done|]. apply lookup_lt_Some in H2. lia.
    + apply list_lookup_singleton_Some in H2 as [Hi <-]. cbn. rewrite lookup_app_l in H1 by lia. apply Hlast. rewrite last_lookup. rewrite <- H1. f_equal. lia.
Qed.
Lemma range_grow l start curr (Q : PayloadEntry P -> Prop) e : (start <= curr)%nat -> l !! curr = Some e -> Forall Q (batch_range l (start, curr)) -> Q e ->
  Forall Q (batch_range l (start, S curr)).
Proof.
  intros Hr Hl Hf He. unfold batch_range in *. cbn in *. replace (S curr - start)%nat with (S (curr - start)) by lia.
  rewrite (take_S_r _ _ e); [by apply Forall_app; split; [|repeat constructor]|]. rewrite lookup_drop. rewrite <- Hl. f_equal. lia.
Qed.
Lemma range_head l start curr e Q : (start < curr)%nat -> l !! start = Some e -> Forall Q (batch_range l (start, curr)) -> Q e.
Proof.
  intros Hr Hl Hf. unfold batch_range in Hf. cbn in Hf. rewrite Forall_lookup in Hf. apply (Hf 0%nat). rewrite lookup_take_lt by lia.
  rewrite lookup_drop, <- Hl. f_equal. lia.
Qed.
Lemma split_loop_ok fuel l : forall start curr e0 bs, (length l - curr < fuel)%nat -> (start <= curr <= length l)%nat -> l !! start = Some e0 -> runs_to l start bs ->
  Forall (fun e => pe_table_id e = pe_table_id e0) (batch_range l (start, curr)) -> (forall b, last bs = Some b -> tb_table_id b <> pe_table_id e0) ->
  exists bs', split_loop fuel l start curr (pe_table_id e0) bs = Ok bs' /\ runs_to l (length l) bs'.
Proof.
  induction fuel as [|fuel IH]; intros start curr e0 bs Hf Hr He0 Hruns Hsame Hlast; [lia|]. pose proof (lookup_lt_Some _ _ _ He0) as Hlt. cbn [split_loop].
  destruct (Nat.eqb_spec curr (length l)) as [->|Hne]; cbn [rbind].
  - eexists. split; [done|]. apply runs_push; [done|lia|done|done].
  - destruct (lookup_lt_is_Some_2 l curr ltac:(lia)) as [e He]. unfold get_table_id. rewrite He. cbn [fmap option_fmap option_map unwrap rbind].
    destruct (Z.eqb_spec (pe_table_id e) (pe_table_id e0)) as [Heq|Hdiff]; cbn [negb rbind].
    + apply IH; [lia|lia|done|done|by apply (range_grow l start curr _ e); [lia| | |]|done].
    + assert (start < curr)%nat by (destruct (decide (start = curr)) as [->|]; [congruence|lia]).
      apply IH; [lia|lia|done|by apply runs_push; [|lia| |]| |].
      * apply (range_grow l curr curr _ e); [lia|done| |done]. unfold batch_range. cbn. rewrite Nat.sub_diag. constructor.
      * intros b. rewrite last_snoc. intros [= <-]. cbn. congruence.
Qed.
Lemma split_runs l : exists bs, split_log_batch_by_table l = Ok bs /\ runs_to l (length l) bs.
Proof.
  unfold split_log_batch_by_table. destruct l as [|e l].
  { exists []. split; [done|]. split; [done|]. split; [constructor|done]. }
  assert (get_table_id (e :: l) 0 = Ok (pe_table_id e)) as -> by done. cbn [rbind].
  apply split_loop_ok; cbn; [lia|lia|done| |constructor|done]. split; [done|]. split; [constructor|done].
Qed.
End split_ok.

(** A batch of log entries is split by table: the ranges are one after the other,
    cover the batch, and each is a longest run of entries of its table. *)
Theorem split_log_batch_spec {P} (l : list (PayloadEntry P)) :
  exists bs, split_log_batch_by_table l = Ok bs /\
    concat ((fun b => batch_range l (tb_range b)) <$> bs) = l /\
    Forall (fun b => batch_range l (tb_range b) <> [] /\ Forall (fun e => pe_table_id e = tb_table_id b) (batch_range l (tb_range b))) bs /\
    (forall i b1 b2, bs !! i = Some b1 -> bs !! S i = Some b2 -> tb_table_id b1 <> tb_table_id b2).
Proof.
  destruct (split_runs l) as (bs & Hs & Hc & Hf & Ha). exists bs. rewrite take_ge in Hc by lia. split_and!; [done|done| |done].
  eapply Forall_impl; [exact Hf|]. intros b [Hr He]. split; [|done]. intros Hnil. apply (f_equal length) in Hnil. unfold batch_range in Hnil.
  rewrite length_take, length_drop in Hnil. cbn in Hnil. lia.
Qed.

(** ** The log of a table, entry by entry *)
Section modes.
Context {T RG GE : Type} {RT : ReplayTable T RG GE} {RL : ReplayTableLaws T RG GE}.
Abbreviation entry := (PayloadEntry (ReadPayload RG)).
Abbreviation Error := (EngineError GE).
Implicit Types (t : T) (e : entry) (es : list entry).

(** The reference: each entry against the flushed sequence of the moment. *)
Fixpoint apply_log t es : T * res Error unit :=
  match es with
  | [] => (t, Ok tt)
  | e :: es => match replay_entry (rt_flushed_sequence t) t e with (t, Ok _) => apply_log t es | (t, r) => (t, r) end
  end.
Definition increasing es : Prop := StronglySorted (fun a b : entry => pe_sequence a < pe_sequence b) es.
(** Entries that are flushed or new to the table. *)
Definition unreplayed t es : Prop := increasing es /\ Forall (fun e => pe_sequence e <= rt_flushed_sequence t \/ rt_bound t < pe_sequence e) es.

Lemma entry_step f t e t' r : replay_entry f t e = (t', r) ->
  r <> Panic /\ rt_flushed_sequence t <= rt_flushed_sequence t' /\
  (pe_sequence e <= f /\ t' = t /\ r = Ok tt \/ f < pe_sequence e /\ rt_bound t' <= Z.max (rt_bound t) (pe_sequence e)).
Proof.
  unfold replay_entry. destruct (Z.leb_spec (pe_sequence e) f) as [Hle|Hgt]; [intros [= <- <-]; split_and!; [done|lia|by left]|].
  destruct (pe_payload e) as [rg| |].
  - destruct (negb _); [intros [= <- <-]; split_and!; [done|lia|right; lia]|].
    destruct (rt_write t (pe_sequence e) rg) as [t1 r1] eqn:Hw. apply rt_write_law in Hw as (Hp1 & Hf1 & Hb1).
    destruct r1 as [[]| |]; cbn [rcontext]; [|intros [= <- <-]; split_and!; [done|lia|right; lia]|done].
    destruct (if rt_should_flush t1 then rt_schedule_flush t1 else (t1, Ok tt)) as [t2 r2] eqn:Hs.
    assert (r2 <> Panic /\ rt_flushed_sequence t1 <= rt_flushed_sequence t2 /\ rt_bound t2 <= rt_bound t1) as (Hp2 & Hf2 & Hb2).
    { destruct (rt_should_flush t1); [by apply rt_schedule_law|]. injection Hs as <- <-. split_and!; [done|lia|lia]. }
    destruct (rt_set_last_law t2 (pe_sequence e)) as [Hf3 Hb3].
    destruct r2 as [[]| |]; cbn [rcontext]; [|intros [= <- <-]; split_and!; [done|lia|right; lia]|done].
    intros [= <- <-]. split_and!; [done|lia|right; lia].
  - destruct (rt_set_last_law t (pe_sequence e)). intros [= <- <-]. split_and!; [done|lia|right; lia].
  - destruct (rt_set_last_law t (pe_sequence e)). intros [= <- <-]. split_and!; [done|lia|right; lia].
Qed.
Lemma unreplayed_step t e es t' r : unreplayed t (e :: es) -> replay_entry (rt_flushed_sequence t) t e = (t', r) -> unreplayed t' es.
Proof.
  intros [Hs Hf] Hr. apply StronglySorted_inv in Hs as [Hs Hlt]. apply Forall_cons in Hf as [He Hf]. split; [done|].
  apply entry_step in Hr as (_ & Hmono & [(_ & -> & _)|[Hgt Hb]]); [done|]. rewrite Forall_forall in Hf, Hlt. apply Forall_forall. intros e' He'.
  specialize (Hf e' He'). specialize (Hlt e' He'). cbn in Hlt. lia.
Qed.
Lemma replay_entries_apply f es : forall t, increasing es -> f <= rt_flushed_sequence t ->
  Forall (fun e => pe_sequence e <= f \/ rt_bound t < pe_sequence e) es -> replay_entries f t es = apply_log t es.
Proof.
  induction es as [|e es IH]; intros t Hs Hf Hall; [done|]. apply StronglySorted_inv in Hs as [Hs Hlt]. apply Forall_cons in Hall as [He Hall].
  cbn [replay_entries apply_log]. pose proof (rt_flushed_bound t) as Hfb.
  assert (replay_entry f t e = replay_entry (rt_flushed_sequence t) t e) as Heq.
  { unfold replay_entry. destruct He as [He|He].
    - by rewrite (proj2 (Z.leb_le _ f)), (proj2 (Z.leb_le _ (rt_flushed_sequence t))) by lia.
    - by rewrite (proj2 (Z.leb_gt _ f)), (proj2 (Z.leb_gt _ (rt_flushed_sequence t))) by lia. }
  rewrite Heq. destruct (replay_entry (rt_flushed_sequence t) t e) as [t' r] eqn:Hr. apply entry_step in Hr as (_ & Hmono & Hcase).
  destruct r as [[]| |]; [|done|done]. apply IH; [done|lia|]. rewrite Forall_forall in Hall, Hlt. apply Forall_forall. intros e' He'.
  specialize (Hall e' He'). specialize (Hlt e' He'). cbn in Hlt. destruct Hcase as [(_ & -> & _)|[Hgt Hb]]; lia.
Qed.
Lemma replay_table_apply t es : unreplayed t es -> replay_table_log_entries t es = apply_log t es.
Proof. intros [Hs Hf]. by apply replay_entries_apply; [|lia|]. Qed.
Lemma apply_log_app es1 es2 : forall t, apply_log t (es1 ++ es2) = match apply_log t es1 with (t, Ok _) => apply_log t es2 | (t, r) => (t, r) end.
Proof. induction es1 as [|e es1 IH]; intros t; [done|]. cbn [app apply_log]. destruct (replay_entry _ t e) as [t' [[]| |]]; [apply IH|done|done]. Qed.
Lemma unreplayed_app es1 es2 : forall t, unreplayed t (es1 ++ es2) ->
  unreplayed t es1 /\ forall t' x, apply_log t es1 = (t', Ok x) -> unreplayed t' es2.
Proof.
  intros t H. split.
  - destruct H as [Hs Hf]. apply Forall_app in Hf as [Hf _]. split; [|done]. by apply StronglySorted_app_1_l in Hs.
  - revert t H. induction es1 as [|e es1 IH]; intros t H t' x Ha; cbn in Ha, H; [by injection Ha as <- <-|].
    destruct (replay_entry _ t e) as [t1 [[]| |]] eqn:Hr; [|done|done]. apply (IH t1) with x; [by eapply unreplayed_step|done].
Qed.
Lemma apply_log_no_panic es : forall t, (apply_log t es).2 <> Panic.
Proof.
  induction es as [|e es IH]; intros t; [done|]. cbn [apply_log]. destruct (replay_entry _ t e) as [t' r] eqn:Hr. apply entry_step in Hr as (Hp & _).
  destruct r; [apply IH|done|done].
Qed.
(** Entries that are flushed make no difference. *)
Lemma apply_log_filter es : forall t f, f <= rt_flushed_sequence t -> Forall (fun e => pe_sequence e <= f \/ rt_flushed_sequence t < pe_sequence e) es ->
  increasing es -> apply_log t (filter (fun e => f < pe_sequence e) es) = apply_log t es.
Proof.
  induction es as [|e es IH]; intros t f Hf Hall Hs; [done|]. apply StronglySorted_inv in Hs as [Hs Hlt]. apply Forall_cons in Hall as [He Hall].
  destruct (decide (f < pe_sequence e)) as [Hgt|Hle].
  - rewrite (filter_all _ (e :: es)); [done|]. intros e' [->|He']%elem_of_cons; [done|]. rewrite Forall_forall in Hlt. specialize (Hlt e' He'). cbn in Hlt. lia.
  - rewrite filter_cons_False by done. rewrite (IH t f Hf Hall Hs). cbn [apply_log]. unfold replay_entry. by rewrite (proj2 (Z.leb_le _ _)) by lia.
Qed.

(** ** What is left after some entries of the region *)
Definition of_table (id : Z) es : list entry := filter (fun e => pe_table_id e = id) es.
Definition failure (r : res Error unit) : option Error := match r with Err e => Some e | _ => None end.
Definition replayed (ts0 : gmap Z T) (ids : gset Z) es (ts : gmap Z T) (faileds : gmap Z Error) : Prop :=
  forall id, if decide (id ∈ ids) then
    exists t0, ts0 !! id = Some t0 /\ ts !! id = Some (apply_log t0 (of_table id es)).1 /\ faileds !! id = failure (apply_log t0 (of_table id es)).2
  else ts !! id = ts0 !! id /\ faileds !! id = None.
Lemma replayed_unique ts0 ids es ts f ts' f' : replayed ts0 ids es ts f -> replayed ts0 ids es ts' f' -> ts = ts' /\ f = f'.
Proof.
  intros H1 H2. split; apply map_eq; intros id; specialize (H1 id); specialize (H2 id); destruct (decide (id ∈ ids)).
  - destruct H1 as (t1 & E1 & -> & _), H2 as (t2 & E2 & -> & _). congruence.
  - destruct H1, H2. congruence.
  - destruct H1 as (t1 & E1 & _ & ->), H2 as (t2 & E2 & _ & ->). congruence.
  - destruct H1, H2. congruence.
Qed.
Lemma of_table_same id es : Forall (fun e => pe_table_id e = id) es -> of_table id es = es.
Proof. intros Hf. apply filter_all. by apply Forall_forall. Qed.
Lemma of_table_other id id' es : Forall (fun e => pe_table_id e = id) es -> id' <> id -> of_table id' es = [].
Proof.
  intros Hf Hne. induction Hf as [|e es He _ IH]; [done|]. unfold of_table in *. rewrite filter_cons_False by congruence. done.
Qed.
Lemma of_table_app id es1 es2 : of_table id (es1 ++ es2) = of_table id es1 ++ of_table id es2.
Proof. apply filter_app. Qed.

(** One run of entries of a table, at any place of the loop. *)
Lemma replay_run ts0 ids es ts faileds id run : replayed ts0 ids es ts faileds -> Forall (fun e => pe_table_id e = id) run ->
  (forall t0, ts0 !! id = Some t0 -> id ∈ ids -> unreplayed t0 (of_table id es ++ run)) ->
  (is_Some (faileds !! id) -> replayed ts0 ids (es ++ run) ts faileds) /\
  (id ∉ ids -> replayed ts0 ids (es ++ run) ts faileds) /\
  (faileds !! id = None -> id ∈ ids ->
     match on_table id (fun t => replay_table_log_entries t run) ts with
     | (ts', Ok _) => replayed ts0 ids (es ++ run) ts' faileds
     | (ts', Err e) => replayed ts0 ids (es ++ run) ts' (<[id := e]> faileds)
     | (_, Panic) => False
     end).
Proof.
  intros Hr Hrun Hun. assert (Hother : forall id', id' <> id -> of_table id' (es ++ run) = of_table id' es).
  { intros id' Hne. by rewrite of_table_app, (of_table_other id id' run), app_nil_r. }
  assert (Hid : of_table id (es ++ run) = of_table id es ++ run) by (by rewrite of_table_app, (of_table_same id run)).
  split_and!.
  - intros [e He] id'. specialize (Hr id'). destruct (decide (id' = id)) as [->|Hne]; [|by rewrite Hother].
    destruct (decide (id ∈ ids)); [|done]. destruct Hr as (t0 & Ht0 & Ht & Hf). exists t0. rewrite Hid, apply_log_app.
    destruct (apply_log t0 (of_table id es)) as [t [[]| |]]; [|done|done]. cbn in Hf. congruence.
  - intros Hni id'. specialize (Hr id'). destruct (decide (id' = id)) as [->|Hne]; [|by rewrite Hother]. by rewrite decide_False in Hr |- *.
  - intros Hnone Hin. pose proof (Hr id) as Hrid. rewrite decide_True in Hrid by done. destruct Hrid as (t0 & Ht0 & Ht & Hf).
    pose proof (unreplayed_app _ _ _ (Hun t0 Ht0 Hin)) as [_ Hun']. pose proof (apply_log_no_panic (of_table id es) t0) as Hnp.
    destruct (apply_log t0 (of_table id es)) as [t r1] eqn:Ha. cbn in Ht, Hf, Hnp. destruct r1 as [[]| |]; [|cbn in Hf; congruence|done].
    unfold on_table. rewrite Ht, replay_table_apply by (by eapply Hun'). pose proof (apply_log_no_panic run t) as Hnp2.
    destruct (apply_log t run) as [t' r] eqn:Ha'. cbn in Hnp2.
    assert (Hafter : apply_log t0 (of_table id (es ++ run)) = (t', r)) by (by rewrite Hid, apply_log_app, Ha).
    destruct r as [[]|err|]; [| |done]; intros id'; specialize (Hr id'); (destruct (decide (id' = id)) as [->|Hne]; [|by rewrite Hother, !lookup_insert_ne by done]);
      rewrite decide_True by done; exists t0; rewrite Hafter; by rewrite !lookup_insert_eq.
Qed.
Lemma replay_table_batches_ok ts0 (ids : gset Z) log_batch bs : forall es ts faileds, replayed ts0 ids es ts faileds -> Forall (is_run log_batch) bs ->
  (forall id t0, ts0 !! id = Some t0 -> id ∈ ids -> unreplayed t0 (of_table id (es ++ concat ((fun b => batch_range log_batch (tb_range b)) <$> bs)))) ->
  exists ts' faileds', replay_table_batches log_batch ids bs ts faileds = (ts', Ok faileds') /\
    replayed ts0 ids (es ++ concat ((fun b => batch_range log_batch (tb_range b)) <$> bs)) ts' faileds'.
Proof.
  induction bs as [|b bs IH]; intros es ts faileds Hr Hruns Hun; [exists ts, faileds; by rewrite app_nil_r|].
  apply Forall_cons in Hruns as [[_ Hrun] Hruns]. cbn [fmap list_fmap concat] in *.
  set (run := batch_range log_batch (tb_range b)) in *. rewrite app_assoc in *. cbn [replay_table_batches].
  destruct (replay_run ts0 ids es ts faileds (tb_table_id b) run Hr Hrun) as (Hfailed & Hout & Hgo).
  { intros t0 Ht0 Hin. specialize (Hun _ t0 Ht0 Hin). rewrite !of_table_app, (of_table_same _ run) in Hun by done. by apply unreplayed_app in Hun as [? _]. }
  destruct (faileds !! tb_table_id b) as [e|] eqn:Hf; [apply IH; [by apply Hfailed|done|done]|].
  case_bool_decide as Hin; [|apply IH; [by apply Hout|done|done]].
  specialize (Hgo eq_refl Hin). destruct (on_table _ _ ts) as [ts1 [[]|e|]]; [by apply IH|by apply IH|done].
Qed.
Lemma region_loop_ok ts0 (ids : gset Z) bs : forall es ts faileds, replayed ts0 ids es ts faileds -> Forall (fun b => b <> []) bs ->
  (forall id t0, ts0 !! id = Some t0 -> id ∈ ids -> unreplayed t0 (of_table id (es ++ concat bs))) ->
  exists ts' faileds', region_loop (Ok <$> bs) ids ts faileds = (ts', Ok faileds') /\ replayed ts0 ids (es ++ concat bs) ts' faileds'.
Proof.
  induction bs as [|b bs IH]; intros es ts faileds Hr Hne Hun; [exists ts, faileds; by rewrite app_nil_r|].
  apply Forall_cons in Hne as [Hb Hne]. cbn [fmap list_fmap concat region_loop rcontext] in *. rewrite app_assoc in *.
  destruct (split_runs b) as (tbs & Hsplit & Hc & Hruns & _). rewrite take_ge in Hc by lia.
  destruct (replay_table_batches_ok ts0 ids b tbs es ts faileds Hr Hruns) as (ts1 & f1 & Heq & Hr1).
  { rewrite Hc. intros id t0 Ht0 Hin. specialize (Hun id t0 Ht0 Hin). rewrite (of_table_app id (es ++ b)) in Hun. by apply unreplayed_app in Hun as [? _]. }
  rewrite Hc in Hr1. destruct b as [|e b]; [done|]. unfold replay_single_batch. rewrite Hsplit, Heq. by apply IH.
Qed.

Lemma recover_loop_ok bs : forall t, Forall (fun b => b <> []) bs -> unreplayed t (concat bs) -> recover_loop (Ok <$> bs) t = apply_log t (concat bs).
Proof.
  induction bs as [|b bs IH]; intros t Hne Hun; [done|]. apply Forall_cons in Hne as [Hb Hne]. cbn [fmap list_fmap concat recover_loop rcontext] in *.
  apply unreplayed_app in Hun as [Hu1 Hu2]. rewrite apply_log_app. destruct b as [|e b]; [done|]. rewrite replay_table_apply by done.
  destruct (apply_log t (e :: b)) as [t' [[]| |]]; [|done|done]. apply IH; [done|]. by eapply Hu2.
Qed.

(** What a log gives to be read: the entries of the region, and those of each table
    after its flushed sequence, in batches. *)
Record log_of (ctx : ReplayContext (RG:=RG) (GE:=GE)) (table_datas : list Z) (ts : gmap Z T) es : Prop := {
  lo_scan : exists bs, wal_scan (rc_wal_manager ctx) (rc_shard_id ctx) = Ok (Ok <$> bs) /\ Forall (fun b => b <> []) bs /\ concat bs = es;
  lo_read : forall id t, id ∈ table_datas -> ts !! id = Some t ->
    exists bs, wal_read_batch (rc_wal_manager ctx) (MkLocation (rt_shard_id t) (rt_id t)) (RbExcluded (rt_flushed_sequence t)) RbMax = Ok (Ok <$> bs) /\
      Forall (fun b => b <> []) bs /\ concat bs = filter (fun e => rt_flushed_sequence t < pe_sequence e) (of_table id es);
  lo_increasing : forall id, increasing (of_table id es)
}.
(** Tables as they are recovered from the manifest, with nothing in memory. *)
Definition recovered (table_datas : list Z) (ts : gmap Z T) : Prop :=
  NoDup table_datas /\ forall id, id ∈ table_datas -> exists t, ts !! id = Some t /\ rt_bound t = rt_flushed_sequence t.

Lemma unreplayed_log t es : rt_bound t = rt_flushed_sequence t -> increasing es -> unreplayed t es.
Proof. intros Hb Hs. split; [done|]. apply Forall_forall. intros e _. lia. Qed.
Lemma recover_table_ok ctx table_datas ts es id t : log_of ctx table_datas ts es -> id ∈ table_datas -> ts !! id = Some t ->
  rt_bound t = rt_flushed_sequence t -> recover_table_logs ctx t = apply_log t (of_table id es).
Proof.
  intros Hlog Hin Ht Hb. destruct (lo_read _ _ _ _ Hlog id t Hin Ht) as (bs & Hread & Hne & Hc). unfold recover_table_logs, create_wal_location.
  rewrite Hread. cbn [rcontext]. pose proof (lo_increasing _ _ _ _ Hlog id) as Hs.
  rewrite recover_loop_ok, Hc; [|done|].
  - apply apply_log_filter; [lia| |done]. apply Forall_forall. intros e _. lia.
  - rewrite Hc. apply unreplayed_log; [done|]. by apply ssorted_filter.
Qed.
Lemma table_based_ok ctx table_datas ts0 es : log_of ctx table_datas ts0 es -> forall left (fin : gset Z) ts faileds, NoDup left -> (forall id, id ∈ left -> id ∈ table_datas /\ id ∉ fin) ->
  (forall id, id ∈ left -> exists t, ts0 !! id = Some t /\ rt_bound t = rt_flushed_sequence t) ->
  replayed ts0 fin es ts faileds ->
  exists ts' faileds', table_based_run ctx left ts faileds = (ts', Ok faileds') /\ replayed ts0 (fin ∪ list_to_set left) es ts' faileds'.
Proof.
  intros Hlog. induction left as [|id left IH]; intros fin ts faileds Hnd Hleft Hrec Hr.
  { exists ts, faileds. split; [done|]. by rewrite list_to_set_nil, (right_id_L ∅ (∪)). }
  apply NoDup_cons in Hnd as [Hni Hnd]. destruct (Hleft id ltac:(by left)) as [Hin Hnf]. destruct (Hrec id ltac:(by left)) as (t & Ht & Hb).
  assert (Hts : ts !! id = Some t /\ faileds !! id = None) by (specialize (Hr id); rewrite decide_False in Hr by done; destruct Hr as [-> ->]; done).
  destruct Hts as [Hts Hfs]. cbn [table_based_run]. unfold on_table. rewrite Hts, (recover_table_ok _ _ _ _ _ _ Hlog Hin Ht Hb).
  pose proof (apply_log_no_panic (of_table id es) t) as Hnp. destruct (apply_log t (of_table id es)) as [t' r] eqn:Ha. cbn in Hnp.
  assert (Hnext : replayed ts0 (fin ∪ {[id]}) es (<[id := t']> ts) (match r with Err e => <[id := e]> faileds | _ => faileds end)).
  { intros id'. specialize (Hr id'). destruct (decide (id' = id)) as [->|Hne].
    - rewrite decide_True by set_solver. exists t. rewrite Ha, lookup_insert_eq. split_and!; [done|done|]. destruct r; cbn; [done|by rewrite lookup_insert_eq|done].
    - rewrite lookup_insert_ne by done. assert (match r with Err e => <[id := e]> faileds | _ => faileds end !! id' = faileds !! id') as ->
        by (destruct r; [done|by rewrite lookup_insert_ne|done]).
      destruct (decide (id' ∈ fin)); [rewrite decide_True by set_solver; done|rewrite decide_False by set_solver; done]. }
  rewrite list_to_set_cons, (assoc_L (∪)).
  destruct r as [[]|e|]; [| |done]; (apply IH; [done| |intros id' Hid'; apply Hrec; by right|done]); intros id' Hid';
    (destruct (Hleft id' ltac:(by right)); split; [done|set_solver]).
Qed.
Lemma replayed_nothing ts ids : (forall id, id ∈ ids -> is_Some (ts !! id)) -> replayed ts ids [] ts ∅.
Proof. intros Hids id. destruct (decide (id ∈ ids)) as [Hin|]; [|done]. destruct (Hids id Hin) as [t Ht]. by exists t. Qed.

Lemma replay_both ctx table_datas ts es : recovered table_datas ts -> log_of ctx table_datas ts es ->
  exists ts' faileds, replay TableBased ctx table_datas ts = (ts', Ok faileds) /\ replay RegionBased ctx table_datas ts = (ts', Ok faileds) /\
    forall id t, ts !! id = Some t ->
      if decide (id ∈ table_datas) then
        ts' !! id = Some (apply_log t (of_table id es)).1 /\ faileds !! id = failure (apply_log t (of_table id es)).2
      else ts' !! id = Some t /\ faileds !! id = None.
Proof.
  intros [Hnd Hrec] Hlog. destruct (lo_scan _ _ _ _ Hlog) as (bs & Hscan & Hne & Hc). pose proof (lo_increasing _ _ _ _ Hlog) as Hs.
  destruct (table_based_ok ctx table_datas ts es Hlog table_datas ∅ ts ∅) as (ts1 & f1 & Heq1 & Hr1); [done|set_solver|done|intros id; by rewrite decide_False by set_solver|].
  rewrite (left_id_L ∅ (∪)) in Hr1.
  destruct (region_loop_ok ts (list_to_set table_datas) bs [] ts ∅) as (ts2 & f2 & Heq2 & Hr2).
  { apply replayed_nothing. intros id Hid%elem_of_list_to_set. destruct (Hrec id Hid) as (t & Ht & _). by exists t. }
  { done. }
  { intros id t Ht Hid%elem_of_list_to_set. rewrite app_nil_l, Hc. apply unreplayed_log; [|done]. destruct (Hrec id Hid) as (t' & Ht' & Hb). congruence. }
  cbn [app] in Hr2. rewrite Hc in Hr2. destruct (replayed_unique _ _ _ _ _ _ _ Hr1 Hr2) as [<- <-]. exists ts1, f1. split_and!; [done| |].
  - unfold replay, replay_region_logs. rewrite Hscan. exact Heq2.
  - intros id t Ht. specialize (Hr1 id). rewrite (decide_ext (id ∈ list_to_set table_datas) (id ∈ table_datas)) in Hr1 by apply elem_of_list_to_set.
    destruct (decide (id ∈ table_datas)); [destruct Hr1 as (t0 & Ht0 & H1 & H2); assert (t0 = t) as -> by congruence; done|rewrite Ht in Hr1; done].
Qed.
End modes.

(** ** The log in tables of a key-value service *)
Section kv_log.
Context {K E : Type} {KV : TableKv K E} {T RG GE : Type} {RT : ReplayTable T RG GE}.
Abbreviation entry := (PayloadEntry (ReadPayload RG)).
Context (lift : TableUnitError E -> GE) (undecodable : GE) (decode : bytes -> option (ReadPayload RG)).
(** [WalDecoder]. *)
Definition decode_entry (e : LogEntry) : res GE entry :=
  match decode (le_payload e) with Some p => Ok (MkPayloadEntry (le_table_id e) (le_sequence e) p) | None => Err undecodable end.
Fixpoint decode_entries (l : list LogEntry) : res GE (list entry) :=
  match l with [] => Ok [] | e :: l => let? e := decode_entry e in let? l := decode_entries l in Ok (e :: l) end.
(** What the calls return until one is empty or fails. *)
Fixpoint log_calls (kv : K) (fuel : nat) (batch_size : nat) (iter : option TableLogIterator) : list (res GE (list entry)) :=
  match fuel with
  | O => []
  | S fuel =>
      match next_log_entries kv batch_size iter with
      | Ok ([], _) => []
      | Ok (batch, iter) => match decode_entries batch with Ok es => Ok es :: log_calls kv fuel batch_size iter | r => [r] end
      | Err e => [Err (lift e)]
      | Panic => [Panic]
      end
  end.
(** [read_batch] and [scan] of [wal.rs], with the open units and the buckets of the
    namespace. *)
Definition kv_wal (kv : K) (units : Z -> option TableUnitState) (buckets : list Bucket) (batch_size fuel : nat) : WalManager (RG:=RG) (GE:=GE) := {|
  wal_read_batch l start stop :=
    Ok (match units (wl_table_id l) with Some u => log_calls kv fuel batch_size (Some (read_log u buckets l start stop)) | None => [] end);
  wal_scan region_id := Ok (log_calls kv fuel batch_size (Some (scan_log buckets region_id)))
|}.

Lemma decode_entries_no_panic l : decode_entries l <> Panic.
Proof.
  induction l as [|e l IH]; [done|]. cbn. unfold decode_entry. destruct (decode (le_payload e)); [|done]. cbn. by destruct (decode_entries l).
Qed.
Lemma decode_entries_fmap l es : decode_entries l = Ok es -> Forall2 (fun e e' => decode_entry e = Ok e') l es.
Proof.
  revert es. induction l as [|e l IH]; intros es Hd; cbn in Hd; [injection Hd as <-; constructor|].
  apply rbind_ok in Hd as (e' & He & Hd). apply rbind_ok in Hd as (es' & Hes & [= <-]). constructor; auto.
Qed.
Definition readable (e : LogEntry) : Prop := is_Some (decode (le_payload e)).
Lemma decode_entries_total l : Forall readable l -> exists es, decode_entries l = Ok es.
Proof.
  induction 1 as [|e l [p Hp] _ [es IH]]; [by exists []|]. cbn. unfold decode_entry. rewrite Hp. cbn. rewrite IH. cbn. by eexists.
Qed.
Lemma decode_entries_app l1 l2 es1 es2 : decode_entries l1 = Ok es1 -> decode_entries l2 = Ok es2 -> decode_entries (l1 ++ l2) = Ok (es1 ++ es2).
Proof.
  revert es1. induction l1 as [|e l1 IH]; intros es1 H1 H2; cbn in *; [by injection H1 as <-|].
  apply rbind_ok in H1 as (e' & He & Hd). apply rbind_ok in Hd as (es' & Hes & [= <-]). rewrite He. cbn. by rewrite (IH es').
Qed.
Lemma log_calls_ok kv n fuel : forall iter l, read_batches kv fuel n iter = Ok l -> Forall readable l ->
  exists bs es, log_calls kv fuel n iter = Ok <$> bs /\ Forall (fun b => b <> []) bs /\ concat bs = es /\ decode_entries l = Ok es.
Proof.
  induction fuel as [|fuel IH]; intros iter l Hr Hd; cbn in Hr; [done|]. apply rbind_ok in Hr as ([batch iter'] & Hn & Hr). cbn [log_calls]. rewrite Hn.
  destruct batch as [|e batch]; [injection Hr as <-; exists [], []; by split_and!|]. apply rbind_ok in Hr as (rest & Hrest & [= <-]).
  apply (Forall_app _ (e :: batch) rest) in Hd as [Hd1 Hd2]. destruct (decode_entries_total _ Hd1) as [es1 He1]. destruct (IH _ _ Hrest Hd2) as (bs & es & Hc & Hne & Hcat & Hdec).
  rewrite He1, Hc. exists (es1 :: bs), (es1 ++ es). split_and!; [done| |by rewrite <- Hcat|by apply (decode_entries_app (e :: batch))].
  constructor; [|done]. apply decode_entries_fmap in He1. by inversion He1.
Qed.
(** A read that fails fails after some batches. *)
Lemma log_calls_err kv n fuel : forall iter e, read_batches kv fuel n iter = Err e ->
  exists bs e', log_calls kv fuel n iter = (Ok <$> bs) ++ [Err e'] /\ Forall (fun b => b <> []) bs.
Proof.
  induction fuel as [|fuel IH]; intros iter e Hr; cbn in Hr; [done|]. cbn [log_calls].
  destruct (next_log_entries kv n iter) as [[batch iter']|e1|]; cbn [rbind] in Hr; [|exists [], (lift e1); by split|done].
  destruct batch as [|e0 batch]; [done|]. destruct (read_batches kv fuel n iter') as [rest|e2|] eqn:Hrest; cbn [rbind] in Hr; [done| |done].
  destruct (IH iter' e2 Hrest) as (bs & e' & Hc & Hne). destruct (decode_entries (e0 :: batch)) as [es|e3|] eqn:Hd.
  - exists (es :: bs), e'. rewrite Hc. split; [done|]. constructor; [|done]. apply decode_entries_fmap in Hd. by inversion Hd.
  - by exists [], e3.
  - by apply decode_entries_no_panic in Hd.
Qed.
End kv_log.

Section recovery.
Context {K E : Type} {KV : TableKv K E} {KL : TableKvLaws K E} {JC : JsonCodec TableUnitEntry}.
Context {T RG GE : Type} {RT : ReplayTable T RG GE} {RL : ReplayTableLaws T RG GE}.
Context (lift : TableUnitError E -> GE) (undecodable : GE) (decode : bytes -> option (ReadPayload RG)).
Context (region : Z -> Z) (meta_of : Z -> string) (Hregion : forall tb, uint 64 tb -> uint 64 (region tb)).

Lemma replay_entries_no_panic f (es : list (PayloadEntry (ReadPayload RG))) : forall t, (replay_entries f t es).2 <> Panic.
Proof.
  induction es as [|e es IH]; intros t; [done|]. cbn [replay_entries]. destruct (replay_entry _ t e) as [t' r] eqn:Hr. apply entry_step in Hr as (Hp & _).
  destruct r; [apply IH|done|done].
Qed.
Lemma recover_loop_err bs (e : GE) : Forall (fun b => b <> []) bs -> forall t, exists t' e', recover_loop (RG:=RG) ((Ok <$> bs) ++ [Err e]) t = (t', Err e').
Proof.
  induction 1 as [|b bs Hb _ IH]; intros t; [by exists t, (ReplayWalWithCause e)|]. cbn [fmap list_fmap app recover_loop rcontext]. destruct b as [|e0 b]; [done|].
  pose proof (replay_entries_no_panic (rt_flushed_sequence t) (e0 :: b) t) as Hnp. unfold replay_table_log_entries.
  destruct (replay_entries _ t (e0 :: b)) as [t' [[]|err|]]; [apply IH|by exists t', err|done].
Qed.
(** Entries of the log as they are replayed. *)
Definition is_entry (tb : Z) (e : Z * bytes) (e' : PayloadEntry (ReadPayload RG)) : Prop :=
  exists p, decode e.2 = Some p /\ e' = MkPayloadEntry tb e.1 p.

Abbreviation decodes := (fun e e' => decode_entry (GE:=GE) undecodable decode e = Ok e').
Lemma decode_entry_ok e e' : decodes e e' -> is_entry (le_table_id e) (le_sequence e, le_payload e) e'.
Proof. unfold decode_entry, is_entry. cbn [fst snd]. destruct (decode (le_payload e)) as [p|]; [|done]. intros [= <-]. by exists p. Qed.
Lemma decoded_seq e e' : decodes e e' -> pe_sequence e' = le_sequence e.
Proof. intros (p & _ & ->)%decode_entry_ok. done. Qed.
Lemma decoded_sorted l es : Forall2 decodes l es -> StronglySorted (fun a b => le_sequence a < le_sequence b) l -> increasing es.
Proof.
  induction 1 as [|e e' l es He Hl IH]; intros Hs; [constructor|]. apply StronglySorted_inv in Hs as [Hs Hf]. constructor; [by apply IH|].
  apply Forall_forall. intros y Hy. apply list_elem_of_lookup in Hy as [i Hy]. destruct (Forall2_lookup_r _ _ _ _ _ Hl Hy) as (x & Hx & Hxy).
  rewrite (decoded_seq _ _ He), (decoded_seq _ _ Hxy). rewrite Forall_lookup in Hf. by apply (Hf i x).
Qed.
Lemma decoded_tried tb f start (tried : list (Z * bytes)) l es : Forall2 decodes l es ->
  Forall (fun e => le_table_id e = tb /\ (le_sequence e, le_payload e) ∈ tried /\ in_bounds (RbExcluded f) RbMax (le_sequence e) /\ start <= le_sequence e) l ->
  Forall (fun e' => f < pe_sequence e' /\ exists e, e ∈ tried /\ is_entry tb e e') es.
Proof.
  induction 1 as [|e e' l es He Hl IH]; intros Hall; [constructor|]. apply Forall_cons in Hall as [(Htb & Ht & (a & b & Ha & _ & Hin) & _) Hall].
  constructor; [|by apply IH]. rewrite (decoded_seq _ _ He). split.
  - cbn in Ha. destruct (f =? MAX_SEQUENCE_NUMBER); [done|]. injection Ha as <-. lia.
  - eexists. split; [exact Ht|]. rewrite <- Htb. by apply decode_entry_ok.
Qed.
Lemma decoded_acked tb f start (acked : list (Z * bytes)) l es : Forall2 decodes l es -> start <= f + 1 ->
  Forall (fun e : Z * bytes => in_bounds (RbExcluded f) RbMax e.1 -> start <= e.1 -> MkLogEntry tb e.1 e.2 ∈ l) acked ->
  (forall s x, (s, x) ∈ acked -> s < u64_max) -> Forall (fun e => f < e.1 -> exists e', is_entry tb e e' /\ e' ∈ es) acked.
Proof.
  intros Hl Hst Hack Hmax. rewrite Forall_forall in Hack. apply Forall_forall. intros [s x] Hsx Hf. cbn [fst snd] in *. specialize (Hmax s x Hsx).
  assert (Hin : MkLogEntry tb s x ∈ l).
  { apply (Hack (s, x) Hsx); cbn [fst]; [|lia]. exists (f + 1), MAX_SEQUENCE_NUMBER. unfold MAX_SEQUENCE_NUMBER in *. split_and!; [|done|lia|lia].
    cbn. unfold MAX_SEQUENCE_NUMBER. by rewrite Z_eqb_false by lia. }
  apply list_elem_of_lookup in Hin as [i Hi]. destruct (Forall2_lookup_l _ _ _ _ _ Hl Hi) as (e' & He' & Hd). exists e'.
  split; [by apply decode_entry_ok in Hd|by apply list_elem_of_lookup_2 in He'].
Qed.
End recovery.

(** ** A table that keeps its rows in lists *)
Record DemoTable := MkDemo {
  dm_id : Z; dm_shard : Z; dm_version : Z; dm_flushed : Z; dm_last : Z;
  dm_rows : list (Z * Z);
  dm_files : list (list (Z * Z))
}.
(** Rows of a version and a value; a negative one is refused.  Two rows are flushed. *)
#[local] Instance demo_table : ReplayTable DemoTable (Z * Z) string := {|
  rt_id := dm_id; rt_shard_id := dm_shard; rt_flushed_sequence := dm_flushed; rt_schema_version := dm_version; rg_schema_version := fst;
  rt_write t s rg :=
    if rg.2 <? 0 then (t, Err "refused"%string)
    else (MkDemo (dm_id t) (dm_shard t) (dm_version t) (dm_flushed t) (dm_last t) (dm_rows t ++ [(s, rg.2)]) (dm_files t), Ok tt);
  rt_should_flush t := (2 <=? length (dm_rows t))%nat;
  rt_schedule_flush t :=
    (MkDemo (dm_id t) (dm_shard t) (dm_version t) (foldr Z.max (dm_flushed t) (dm_rows t).*1) (dm_last t) [] (dm_files t ++ [dm_rows t]), Ok tt);
  rt_set_last_sequence t s := MkDemo (dm_id t) (dm_shard t) (dm_version t) (dm_flushed t) s (dm_rows t) (dm_files t)
|}.
Lemma foldr_max_ge f l : f <= foldr Z.max f l.
Proof. induction l as [|x l IH]; cbn; lia. Qed.
#[local] Instance demo_table_laws : ReplayTableLaws DemoTable (Z * Z) string.
Proof.
  refine {| rt_bound t := foldr Z.max (dm_flushed t) (dm_rows t).*1 |}.
  - intros t. apply foldr_max_ge.
  - intros t s rg t' r Hw. cbn in Hw. destruct (rg.2 <? 0); injection Hw as <- <-; (split; [done|]); cbn; [lia|]. rewrite fmap_app, foldr_app. cbn.
    split; [lia|]. induction (dm_rows t).*1 as [|x l IH]; cbn; lia.
  - intros t t' r [= <- <-]. split; [done|]. cbn. pose proof (foldr_max_ge (dm_flushed t) (dm_rows t).*1). lia.
  - intros t s. cbn. lia.
Defined.
Abbreviation demo_write := (fun tb s v => MkPayloadEntry tb s (PlWrite (1, v))).
Definition demo_tables : gmap Z DemoTable := {[7 := MkDemo 7 1 1 1 0 [] []; 8 := MkDemo 8 1 1 0 0 [] []; 9 := MkDemo 9 1 1 0 0 [] []]}.
Definition demo_batches : list (list (PayloadEntry (ReadPayload (Z * Z)))) :=
  [[demo_write 7 1 10; demo_write 7 2 20; demo_write 8 1 1]; [demo_write 8 2 (-1); demo_write 7 3 30; demo_write 9 1 5; demo_write 7 4 40]; [demo_write 8 3 3]].
Definition demo_wal : WalManager (RG:=Z * Z) (GE:=string) := {|
  wal_read_batch l start stop := Ok (match wl_table_id l with
    | 7 => [Ok [demo_write 7 2 20]; Ok [demo_write 7 3 30; demo_write 7 4 40]]
    | 8 => [Ok [demo_write 8 1 1; demo_write 8 2 (-1); demo_write 8 3 3]]
    | _ => [] end);
  wal_scan _ := Ok (Ok <$> demo_batches)
|}.
Lemma demo_recovered : recovered [7; 8] demo_tables.
Proof.
  split; [by repeat constructor; set_solver|]. intros id [->|[->|Hn%elem_of_nil]%elem_of_cons]%elem_of_cons; [| |done].
  - exists (MkDemo 7 1 1 1 0 [] []). by split.
  - exists (MkDemo 8 1 1 0 0 [] []). by split.
Qed.
Lemma demo_log : log_of (MkReplayContext 1 demo_wal) [7; 8] demo_tables (concat demo_batches).
Proof.
  split.
  - exists demo_batches. split; [done|]. split; [by repeat constructor|done].
  - intros id t [->|[->|Hn%elem_of_nil]%elem_of_cons]%elem_of_cons Ht; [| |done]; vm_compute in Ht; injection Ht as <-.
    + exists [[demo_write 7 2 20]; [demo_write 7 3 30; demo_write 7 4 40]]. split; [done|]. split; [by repeat constructor|done].
    + exists [[demo_write 8 1 1; demo_write 8 2 (-1); demo_write 8 3 3]]. split; [done|]. split; [by repeat constructor|done].
  - intros id. unfold of_table, increasing. cbn. repeat (case_decide; subst; try done); repeat (constructor; cbn; try lia).
Qed.

(** ** Replaying from tables in memory *)
#[local] Existing Instance pair_codec.
Definition demo_decode (b : bytes) : option (ReadPayload (Z * Z)) := match b with [v] => Some (PlWrite (1, v)) | _ => None end.
Definition demo_kv_wal := kv_wal (K:=Memory.MemoryImpl) (fun _ => "read"%string) "decode"%string demo_decode.

