(* ===== verification/ShardOpen.v ===== *)
(** * Spaces, and opening the tables of a shard

    Models [analytic_engine/src/space.rs] with the set of tables of [table/data.rs],
    and the life of a table in [instance/engine.rs], [open.rs], [create.rs],
    [close.rs] and [drop.rs]: tables are recovered from the manifest and their logs
    are replayed, and a table that fails does not keep the others from opening.

    A reference to a table is its id, which belongs to one table; what is behind it is
    in [id_to_tables] of its space.  The manifest and the flushes of a table are
    arguments ([ManifestOps], [FlushTable]); what the manifest recovers goes into the
    space by [apply_snapshot] of [table_meta_set_impl.rs].  The stages of an opening
    are a hash map; the order in which it is iterated is not specified, here it is
    the order of [map_to_list]. *)

From Stdlib Require Import ZArith Lia.
From stdpp Require Import base tactics option list sorting numbers gmap strings.
From S2P Require Import Prelude Bytes TableKv KvEncoder TableUnit UnitLog WalUnits WalReplayer.

#[local] Open Scope Z_scope.

Class NamedTable (T : Type) := { nt_name : T -> string; nt_space_id : T -> Z; nt_dropped : T -> bool }.
(** [do_flush] of the flusher. *)
Class FlushTable (T GE : Type) := { do_flush : T -> T * res GE unit }.
Record CreateTableRequest := MkCreate { cr_schema_id : Z; cr_table_name : string; cr_table_id : Z; cr_shard_id : Z }.
Record DropTableRequest := MkDrop { dr_schema_id : Z; dr_table_name : string }.
Record CloseTableRequest := MkClose { cl_schema_id : Z; cl_table_name : string; cl_table_id : Z }.
Record TableDef := MkDef { td_schema_id : Z; td_id : Z; td_name : string }.
Definition build_space_id (schema_id : Z) : Z := schema_id.

Section tables.
Context {T RG GE : Type} {RT : ReplayTable T RG GE} {NT : NamedTable T} {FT : FlushTable T GE}.

(** ** [TableDataSet] *)
Record TableDataSet := MkTableSet { table_datas : gmap string Z; id_to_tables : gmap Z T }.
Definition table_set_new : TableDataSet := MkTableSet ∅ ∅.
Definition insert_if_absent (s : TableDataSet) (t : T) : bool * TableDataSet :=
  match table_datas s !! nt_name t with
  | Some _ => (false, s)
  | None => (true, MkTableSet (<[nt_name t := rt_id t]> (table_datas s)) (<[rt_id t := t]> (id_to_tables s)))
  end.
Definition set_find_table (s : TableDataSet) (table_name : string) : option T :=
  match table_datas s !! table_name with Some id => id_to_tables s !! id | None => None end.
Definition set_find_table_by_id (s : TableDataSet) (table_id : Z) : option T := id_to_tables s !! table_id.
Definition set_remove_table (s : TableDataSet) (table_name : string) : option T * TableDataSet :=
  match table_datas s !! table_name with
  | Some id => (id_to_tables s !! id, MkTableSet (delete table_name (table_datas s)) (delete id (id_to_tables s)))
  | None => (None, s)
  end.
(** A table behind its reference. *)
Definition set_table (s : TableDataSet) (id : Z) (t : T) : TableDataSet := MkTableSet (table_datas s) (<[id := t]> (id_to_tables s)).

(** ** [Space] *)
Record Space := MkSpace { sp_table_datas : TableDataSet; sp_open_failed_tables : list string }.
Definition space_new : Space := MkSpace table_set_new [].
Definition with_set (sp : Space) (s : TableDataSet) : Space := MkSpace s (sp_open_failed_tables sp).
Definition insert_table {F} (sp : Space) (t : T) : res F Space :=
  let (success, s) := insert_if_absent (sp_table_datas sp) t in
  let? _ := rassert success in Ok (with_set sp s).
Definition insert_open_failed_table (sp : Space) (table_name : string) : Space :=
  MkSpace (sp_table_datas sp) (sp_open_failed_tables sp ++ [table_name]).
Definition is_open_failed_table (sp : Space) (table_name : string) : bool := bool_decide (table_name ∈ sp_open_failed_tables sp).
Definition find_table_by_id (sp : Space) (table_id : Z) : option T := set_find_table_by_id (sp_table_datas sp) table_id.
Definition space_find_table (sp : Space) (table_name : string) : option T := set_find_table (sp_table_datas sp) table_name.

(** [Spaces], by id. *)
Abbreviation Spaces := (gmap Z Space).
Definition find_or_create_space (spaces : Spaces) (space_id : Z) : Spaces :=
  match spaces !! space_id with Some _ => spaces | None => <[space_id := space_new]> spaces end.
(** A space by its reference. *)
Definition the_space (spaces : Spaces) (space_id : Z) : Space := default space_new (spaces !! space_id).

(** ** Errors, and the manifest *)
Inductive OpenError :=
| OpenTablesOfShard
| ReadMetaUpdate (table_id : Z) (source : GE)
| ReplayFailed (e : EngineError GE)
| CreateOpenFailedTable (table : string)
| InvalidOptions (table_id : Z)
| WriteManifest (table_id : Z) (source : GE)
| TableNotExist (table_id : Z)
| SpaceNotExist (space_id : Z)
| FlushTableFailed (table_id : Z) (source : GE)
| DoManifestSnapshot (table_id : Z) (source : GE).
(** What the manifest gives: the table recovered from the log and the snapshots, the
    table added by an edit, and whether dropping and snapshots are stored. *)
Record ManifestOps := MkManifestOps {
  mo_recover : Z -> Z -> Z -> res GE (option T);
  mo_merge_options : CreateTableRequest -> bool;
  mo_add_table : CreateTableRequest -> res GE T;
  mo_drop_table : Z -> Z -> res GE unit;
  mo_do_snapshot : Z -> Z -> res GE unit
}.
Definition insert_into_space (no_space : GE) (spaces : Spaces) (t : T) : res GE Spaces :=
  match spaces !! nt_space_id t with
  | Some sp => let? sp := insert_table sp t in Ok (<[nt_space_id t := sp]> spaces)
  | None => Err no_space
  end.
Context (no_space : GE) (mo : ManifestOps).

(** ** [ShardOpener] *)
Inductive TableOpenStage :=
| RecoverTableMeta (table_def : TableDef) (space : Z)
| RecoverTableData (table_data space : Z)
| Failed (e : OpenError)
| Success (o : option (Z * Z)).
Abbreviation Stages := (gmap Z TableOpenStage).
Definition init_stage (spaces : Spaces) (stages : Stages) (table_def : TableDef) : Stages :=
  let space := build_space_id (td_schema_id table_def) in
  <[td_id table_def :=
      match find_table_by_id (the_space spaces space) (td_id table_def) with
      | Some _ => Success (Some (space, td_id table_def))
      | None => RecoverTableMeta table_def space
      end]> stages.
Definition opener_init (spaces : Spaces) (table_defs : list TableDef) : Stages := foldl (init_stage spaces) ∅ table_defs.

Definition recover_single_table_meta (spaces : Spaces) (shard_id : Z) (table_def : TableDef) : Spaces * res OpenError unit :=
  match mo_recover mo (build_space_id (td_schema_id table_def)) (td_id table_def) shard_id with
  | Ok (Some t) =>
      match insert_into_space no_space spaces t with
      | Ok spaces => (spaces, Ok tt)
      | Err e => (spaces, Err (ReadMetaUpdate (td_id table_def) e))
      | Panic => (spaces, Panic)
      end
  | Ok None => (spaces, Ok tt)
  | Err e => (spaces, Err (ReadMetaUpdate (td_id table_def) e))
  | Panic => (spaces, Panic)
  end.
(** One stage, as the table's meta data is recovered. *)
Definition meta_stage (shard_id table_id : Z) (st : TableOpenStage) (spaces : Spaces) : Spaces * res OpenError TableOpenStage :=
  match st with
  | RecoverTableMeta table_def space =>
      match recover_single_table_meta spaces shard_id table_def with
      | (spaces, Ok _) =>
          (spaces, Ok (match find_table_by_id (the_space spaces space) table_id with
                       | Some _ => RecoverTableData table_id space
                       | None => Success None
                       end))
      | (spaces, Err e) => (spaces, Ok (Failed e))
      | (spaces, Panic) => (spaces, Panic)
      end
  | Success _ => (spaces, Ok st)
  | RecoverTableData _ _ | Failed _ => (spaces, Err OpenTablesOfShard)
  end.
Fixpoint recover_table_metas (shard_id : Z) (l : list (Z * TableOpenStage)) (spaces : Spaces) (stages : Stages) : Spaces * res OpenError Stages :=
  match l with
  | [] => (spaces, Ok stages)
  | (table_id, st) :: l =>
      match meta_stage shard_id table_id st spaces with
      | (spaces, Ok st) => recover_table_metas shard_id l spaces (<[table_id := st]> stages)
      | (spaces, Err e) => (spaces, Err e)
      | (spaces, Panic) => (spaces, Panic)
      end
  end.

(** The tables to replay, with their spaces. *)
Fixpoint replay_table_datas (l : list (Z * TableOpenStage)) : res OpenError (list (Z * Z)) :=
  match l with
  | [] => Ok []
  | (_, RecoverTableData table_data space) :: l => let? rest := replay_table_datas l in Ok ((table_data, space) :: rest)
  | (_, Failed _) :: l | (_, Success _) :: l => replay_table_datas l
  | (_, RecoverTableMeta _ _) :: _ => Err OpenTablesOfShard
  end.
(** What is behind references, and back after the replay. *)
Definition tables_of (spaces : Spaces) (refs : list (Z * Z)) : gmap Z T :=
  list_to_map (omap (fun r => (fun t => (r.1, t)) <$> find_table_by_id (the_space spaces r.2) r.1) refs).
Definition put_table (spaces : Spaces) (ts : gmap Z T) (r : Z * Z) : Spaces :=
  match ts !! r.1 with
  | Some t => let sp := the_space spaces r.2 in <[r.2 := with_set sp (set_table (sp_table_datas sp) r.1 t)]> spaces
  | None => spaces
  end.
Definition put_tables (spaces : Spaces) (ts : gmap Z T) (refs : list (Z * Z)) : Spaces := foldl (fun spaces r => put_table spaces ts r) spaces refs.
Fixpoint replay_results (refs : list (Z * Z)) (faileds : gmap Z (EngineError GE)) (stages : Stages) : res OpenError Stages :=
  match refs with
  | [] => Ok stages
  | (table_id, _) :: refs =>
      let? stage := unwrap (stages !! table_id) in
      match stage, faileds !! table_id with
      | RecoverTableData table_data space, None => replay_results refs faileds (<[table_id := Success (Some (space, table_data))]> stages)
      | RecoverTableData _ _, Some e => replay_results refs faileds (<[table_id := Failed (ReplayFailed e)]> stages)
      | _, _ => Err OpenTablesOfShard
      end
  end.
Definition recover_table_datas (mode : ReplayMode) (ctx : ReplayContext) (spaces : Spaces) (stages : Stages) : Spaces * res OpenError Stages :=
  match replay_table_datas (map_to_list stages) with
  | Ok refs =>
      let (ts, r) := replay mode ctx refs.*1 (tables_of spaces refs) in
      let spaces := put_tables spaces ts refs in
      match r with
      | Ok faileds => (spaces, replay_results refs faileds stages)
      | Err e => (spaces, Err (ReplayFailed e))
      | Panic => (spaces, Panic)
      end
  | Err e => (spaces, Err e)
  | Panic => (spaces, Panic)
  end.
Abbreviation OpenTablesOfShardResult := (gmap Z (OpenError + option (Z * Z))).
Fixpoint table_results (l : list (Z * TableOpenStage)) : res OpenError OpenTablesOfShardResult :=
  match l with
  | [] => Ok ∅
  | (table_id, Failed e) :: l => let? rest := table_results l in Ok (<[table_id := inl e]> rest)
  | (table_id, Success data) :: l => let? rest := table_results l in Ok (<[table_id := inr data]> rest)
  | (_, RecoverTableMeta _ _) :: _ | (_, RecoverTableData _ _) :: _ => Err OpenTablesOfShard
  end.
Definition opener_open (mode : ReplayMode) (ctx : ReplayContext) (spaces : Spaces) (stages : Stages) : Spaces * res OpenError OpenTablesOfShardResult :=
  match recover_table_metas (rc_shard_id ctx) (map_to_list stages) spaces stages with
  | (spaces, Ok stages) =>
      match recover_table_datas mode ctx spaces stages with
      | (spaces, Ok stages) => (spaces, table_results (map_to_list stages))
      | (spaces, Err e) => (spaces, Err e)
      | (spaces, Panic) => (spaces, Panic)
      end
  | (spaces, Err e) => (spaces, Err e)
  | (spaces, Panic) => (spaces, Panic)
  end.

(** ** [Instance] *)
(** The names of the tables that failed. *)
Fixpoint mark_failed (shard_result : OpenTablesOfShardResult) (table_defs : list TableDef) (spaces : Spaces) : Spaces * res OpenError unit :=
  match table_defs with
  | [] => (spaces, Ok tt)
  | d :: table_defs =>
      match shard_result !! td_id d with
      | None => (spaces, Err OpenTablesOfShard)
      | Some (inl _) =>
          let space := build_space_id (td_schema_id d) in
          mark_failed shard_result table_defs (<[space := insert_open_failed_table (the_space spaces space) (td_name d)]> spaces)
      | Some (inr _) => mark_failed shard_result table_defs spaces
      end
  end.
Definition open_tables_of_shard (mode : ReplayMode) (ctx : ReplayContext) (spaces : Spaces) (table_defs : list TableDef)
  : Spaces * res OpenError OpenTablesOfShardResult :=
  let spaces := foldl (fun spaces d => find_or_create_space spaces (build_space_id (td_schema_id d))) spaces table_defs in
  match opener_open mode ctx spaces (opener_init spaces table_defs) with
  | (spaces, Ok shard_result) =>
      match mark_failed shard_result table_defs spaces with
      | (spaces, Ok _) => (spaces, Ok shard_result)
      | (spaces, Err e) => (spaces, Err e)
      | (spaces, Panic) => (spaces, Panic)
      end
  | (spaces, r) => (spaces, r)
  end.
Definition instance_find_table (spaces : Spaces) (space_id : Z) (table : string) : option T :=
  match spaces !! space_id with Some sp => space_find_table sp table | None => None end.
Definition set_space_table (spaces : Spaces) (space_id id : Z) (t : T) : Spaces :=
  let sp := the_space spaces space_id in <[space_id := with_set sp (set_table (sp_table_datas sp) id t)]> spaces.
Definition create_table (spaces : Spaces) (request : CreateTableRequest) : Spaces * res OpenError T :=
  let space_id := build_space_id (cr_schema_id request) in
  let spaces := find_or_create_space spaces space_id in
  let sp := the_space spaces space_id in
  if is_open_failed_table sp (cr_table_name request) then (spaces, Err (CreateOpenFailedTable (cr_table_name request)))
  else if negb (mo_merge_options mo request) then (spaces, Err (InvalidOptions (cr_table_id request)))
  else
    match find_table_by_id sp (cr_table_id request) with
    | Some t => (spaces, Ok t)
    | None =>
        match rbind (mo_add_table mo request) (insert_into_space no_space spaces) with
        | Ok spaces =>
            (spaces, match find_table_by_id (the_space spaces space_id) (cr_table_id request) with
                     | Some t => Ok t
                     | None => Err (TableNotExist (cr_table_id request))
                     end)
        | Err e => (spaces, Err (WriteManifest (cr_table_id request) e))
        | Panic => (spaces, Panic)
        end
    end.
Definition drop_table (spaces : Spaces) (request : DropTableRequest) : Spaces * res OpenError bool :=
  let space_id := build_space_id (dr_schema_id request) in
  match spaces !! space_id with
  | None => (spaces, Err (SpaceNotExist space_id))
  | Some sp =>
      match space_find_table sp (dr_table_name request) with
      | None => (spaces, Ok false)
      | Some t =>
          if nt_dropped t then (spaces, Ok false)
          else
            let (t, r) := do_flush t in
            let spaces := set_space_table spaces space_id (rt_id t) t in
            match rcontext (FlushTableFailed (rt_id t)) r with
            | Ok _ =>
                match rcontext (WriteManifest (rt_id t)) (mo_drop_table mo space_id (rt_id t)) with
                | Ok _ =>
                    let sp := the_space spaces space_id in
                    (match space_find_table sp (nt_name t) with
                     | Some t => <[space_id := with_set sp (set_remove_table (sp_table_datas sp) (nt_name t)).2]> spaces
                     | None => spaces
                     end, Ok true)
                | Err e => (spaces, Err e)
                | Panic => (spaces, Panic)
                end
            | Err e => (spaces, Err e)
            | Panic => (spaces, Panic)
            end
      end
  end.
(** The table is found by its id and removed by the name in the request. *)
Definition close_table (spaces : Spaces) (request : CloseTableRequest) : Spaces * res OpenError unit :=
  let space_id := build_space_id (cl_schema_id request) in
  match spaces !! space_id with
  | None => (spaces, Err (SpaceNotExist space_id))
  | Some sp =>
      match find_table_by_id sp (cl_table_id request) with
      | None => (spaces, Ok tt)
      | Some t =>
          let (t, r) := do_flush t in
          let spaces := set_space_table spaces space_id (cl_table_id request) t in
          match rcontext (FlushTableFailed (rt_id t)) r with
          | Ok _ =>
              match rcontext (DoManifestSnapshot (rt_id t)) (mo_do_snapshot mo space_id (rt_id t)) with
              | Ok _ =>
                  let sp := the_space spaces space_id in
                  let (removed_table, s) := set_remove_table (sp_table_datas sp) (cl_table_name request) in
                  (<[space_id := with_set sp s]> spaces, rassert (match removed_table with Some _ => true | None => false end))
              | Err e => (spaces, Err e)
              | Panic => (spaces, Panic)
              end
          | Err e => (spaces, Err e)
          | Panic => (spaces, Panic)
          end
      end
  end.
End tables.

(** ** Opening is table by table *)
Section opening.
Context {T RG GE : Type} {RT : ReplayTable T RG GE} {RL : ReplayTableLaws T RG GE} {NT : NamedTable T}.
Context (no_space : GE) (mo : ManifestOps (T:=T) (GE:=GE)) (ctx : ReplayContext (RG:=RG) (GE:=GE)).
Context (spaces0 : gmap Z (Space (T:=T))) (table_defs : list TableDef) (es : list (PayloadEntry (ReadPayload RG))).
Abbreviation space_of := (fun d => build_space_id (td_schema_id d)).
Abbreviation Error := (OpenError (GE:=GE)).
Abbreviation Stage := (TableOpenStage (GE:=GE)).

Definition opened (d : TableDef) : option T := find_table_by_id (the_space spaces0 (space_of d)) (td_id d).
Definition recovers (d : TableDef) : res GE (option T) := mo_recover mo (space_of d) (td_id d) (rc_shard_id ctx).
(** A table that is recovered from the manifest. *)
Definition recovering (d : TableDef) : option T :=
  match opened d with Some _ => None | None => match recovers d with Ok o => o | _ => None end end.
Definition recovering_tables : list (Z * T) := omap (fun d => (fun t => (td_id d, t)) <$> recovering d) table_defs.
Record request_ok : Prop := {
  ro_ids : NoDup (td_id <$> table_defs);
  ro_names : forall d1 d2, d1 ∈ table_defs -> d2 ∈ table_defs -> space_of d1 = space_of d2 -> td_name d1 = td_name d2 -> d1 = d2;
  ro_absent : forall d t, d ∈ table_defs -> recovering d = Some t -> table_datas (sp_table_datas (the_space spaces0 (space_of d))) !! td_name d = None;
  ro_recovered : forall d t, d ∈ table_defs -> recovering d = Some t ->
    rt_id t = td_id d /\ nt_name t = td_name d /\ nt_space_id t = space_of d /\ rt_bound t = rt_flushed_sequence t;
  ro_recovers : forall d, d ∈ table_defs -> recovers d <> Panic;
  ro_log : log_of ctx recovering_tables.*1 (list_to_map recovering_tables) es
}.
(** What becomes of each table. *)
Definition replay_of (d : TableDef) (t : T) : T * res (EngineError GE) unit := apply_log t (of_table (td_id d) es).
Definition outcome (d : TableDef) : Error + option (Z * Z) :=
  match opened d with
  | Some _ => inr (Some (space_of d, td_id d))
  | None =>
      match recovers d with
      | Ok (Some t) => match failure (replay_of d t).2 with Some e => inl (ReplayFailed e) | None => inr (Some (space_of d, td_id d)) end
      | Ok None => inr None
      | Err e => inl (ReadMetaUpdate (td_id d) e)
      | Panic => inr None
      end
  end.
Definition final_table (d : TableDef) : option T :=
  match recovering d with Some t => Some (replay_of d t).1 | None => opened d end.

Context (Hok : request_ok).
Lemma def_of_id d1 d2 : d1 ∈ table_defs -> d2 ∈ table_defs -> td_id d1 = td_id d2 -> d1 = d2.
Proof.
  intros H1 H2 Heq. apply list_elem_of_lookup in H1 as [i Hi]. apply list_elem_of_lookup in H2 as [j Hj].
  assert (i = j) as -> by (eapply (NoDup_lookup _ i j (td_id d1) (ro_ids Hok)); rewrite list_lookup_fmap, ?Hi, ?Hj; cbn; congruence). congruence.
Qed.

(** *** Spaces and stages at the start *)
Lemma create_spaces ds : forall spaces, let spaces' := foldl (fun spaces d => find_or_create_space (T:=T) spaces (space_of d)) spaces ds in
  (forall s, the_space spaces' s = the_space spaces s) /\ (forall d, d ∈ ds -> is_Some (spaces' !! space_of d)) /\ (forall s, is_Some (spaces !! s) -> is_Some (spaces' !! s)).
Proof.
  induction ds as [|d ds IH]; intros spaces; cbn; [by split_and!; [|intros ? ?%elem_of_nil|]|].
  destruct (IH (find_or_create_space spaces (space_of d))) as (H1 & H2 & H3).
  assert (Hs : (forall s, the_space (find_or_create_space spaces (space_of d)) s = the_space spaces s) /\ is_Some (find_or_create_space spaces (space_of d) !! space_of d) /\
    forall s, is_Some (spaces !! s) -> is_Some (find_or_create_space spaces (space_of d) !! s)).
  { unfold find_or_create_space, the_space. destruct (spaces !! space_of d) as [sp|] eqn:Hd; [split_and!; [done|by rewrite Hd|done]|].
    split_and!; [|by rewrite lookup_insert_eq|].
    - intros s. destruct (decide (s = space_of d)) as [->|Hne]; [by rewrite lookup_insert_eq, Hd|by rewrite lookup_insert_ne].
    - intros s Hs. destruct (decide (s = space_of d)) as [->|Hne]; [by rewrite lookup_insert_eq|by rewrite lookup_insert_ne]. }
  destruct Hs as (Hs1 & Hs2 & Hs3). split_and!.
  - intros s. by rewrite H1, Hs1.
  - intros d' [->|Hd']%elem_of_cons; [by apply H3|by apply H2].
  - intros s Hs. by apply H3, Hs3.
Qed.
Definition stage0 (d : TableDef) : Stage := match opened d with Some _ => Success (Some (space_of d, td_id d)) | None => RecoverTableMeta d (space_of d) end.
Lemma init_stages spaces ds : (forall s, the_space spaces s = the_space spaces0 s) -> NoDup (td_id <$> ds) -> forall acc : gmap Z Stage,
  let stages := foldl (init_stage spaces) acc ds in
  (forall d, d ∈ ds -> stages !! td_id d = Some (stage0 d)) /\ (forall id, id ∉ td_id <$> ds -> stages !! id = acc !! id).
Proof.
  intros Hs. induction ds as [|d ds IH]; intros Hnd acc; cbn; [by split; [intros ? ?%elem_of_nil|]|]. apply NoDup_cons in Hnd as [Hni Hnd].
  destruct (IH Hnd (init_stage spaces acc d)) as [H1 H2]. split.
  - intros d' [->|Hd']%elem_of_cons; [|by apply H1]. rewrite H2 by done. unfold init_stage, stage0, opened. rewrite lookup_insert_eq, Hs. done.
  - intros id Hid. rewrite H2 by set_solver. unfold init_stage. rewrite lookup_insert_ne by set_solver. done.
Qed.

(** *** Meta data *)
Definition stage1 (d : TableDef) : Stage :=
  match opened d with
  | Some _ => Success (Some (space_of d, td_id d))
  | None => match recovers d with
            | Ok (Some _) => RecoverTableData (td_id d) (space_of d)
            | Err e => Failed (ReadMetaUpdate (td_id d) e)
            | _ => Success None
            end
  end.
Definition found (d : TableDef) : option T := match recovering d with Some t => Some t | None => opened d end.
Definition find_in (spaces : gmap Z (Space (T:=T))) (s id : Z) : option T := find_table_by_id (the_space spaces s) id.
Abbreviation names_of := (fun (spaces : gmap Z (Space (T:=T))) s => table_datas (sp_table_datas (the_space spaces s))).
Record meta_inv (l : list (Z * Stage)) (spaces : gmap Z (Space (T:=T))) (stages : gmap Z Stage) : Prop := {
  mi_nodup : NoDup l.*1;
  mi_todo : forall id st, (id, st) ∈ l -> exists d, d ∈ table_defs /\ td_id d = id /\ st = stage0 d;
  mi_done : forall d, d ∈ table_defs -> td_id d ∉ l.*1 -> stages !! td_id d = Some (stage1 d);
  mi_dom : forall id, is_Some (stages !! id) -> exists d, d ∈ table_defs /\ td_id d = id;
  mi_tables : forall d, d ∈ table_defs -> find_in spaces (space_of d) (td_id d) = if decide (td_id d ∈ l.*1) then opened d else found d;
  mi_others : forall s id, (forall d, d ∈ table_defs -> td_id d <> id) -> find_in spaces s id = find_in spaces0 s id;
  mi_names : forall s n i, names_of spaces s !! n = Some i -> names_of spaces0 s !! n = Some i \/
    exists d, d ∈ table_defs /\ td_id d ∉ l.*1 /\ space_of d = s /\ td_name d = n;
  mi_space : forall d, d ∈ table_defs -> is_Some (spaces !! space_of d)
}.
Lemma decide_tail {B} (x id : Z) (l : list Z) (a b : B) : x <> id -> (if decide (x ∈ id :: l) then a else b) = if decide (x ∈ l) then a else b.
Proof. intros Hne. destruct (decide (x ∈ l)); [rewrite decide_True by set_solver|rewrite decide_False by set_solver]; done. Qed.
(** A table that is done without a change to the spaces. *)
Lemma meta_inv_skip d st l spaces stages : d ∈ table_defs -> meta_inv ((td_id d, st) :: l) spaces stages -> found d = opened d ->
  meta_inv l spaces (<[td_id d := stage1 d]> stages).
Proof.
  intros Hd [Hnd Htodo Hdone Hdom Htab Hoth Hnames Hsp] Hf. cbn [fmap list_fmap fst] in *. apply NoDup_cons in Hnd as [Hni Hnd]. split.
  - done.
  - intros id st' Hin. apply Htodo. by right.
  - intros d' Hd' Hn. destruct (decide (td_id d' = td_id d)) as [Heq|Hne]; [rewrite (def_of_id d' d) by done; by rewrite lookup_insert_eq|].
    rewrite lookup_insert_ne by done. apply Hdone; [done|set_solver].
  - intros id Hid. destruct (decide (td_id d = id)) as [<-|Hne]; [by exists d|]. rewrite lookup_insert_ne in Hid by done. by apply Hdom.
  - intros d' Hd'. rewrite (Htab d' Hd'). destruct (decide (td_id d' = td_id d)) as [Heq|Hne]; [|by rewrite decide_tail].
    rewrite (def_of_id d' d Hd' Hd Heq), decide_True, decide_False by (done || by left). done.
  - done.
  - intros s n i Hn. destruct (Hnames s n i Hn) as [?|(d' & ? & ? & ?)]; [by left|]. right. exists d'. set_solver.
  - done.
Qed.
Lemma the_space_insert (spaces : gmap Z (Space (T:=T))) s sp s' : the_space (<[s := sp]> spaces) s' = if decide (s' = s) then sp else the_space spaces s'.
Proof. unfold the_space. destruct (decide (s' = s)) as [->|Hne]; [by rewrite lookup_insert_eq|by rewrite lookup_insert_ne]. Qed.
Lemma meta_inv_insert d t st l spaces stages : d ∈ table_defs -> recovering d = Some t -> meta_inv ((td_id d, st) :: l) spaces stages ->
  exists spaces', insert_into_space no_space spaces t = Ok spaces' /\ meta_inv l spaces' (<[td_id d := stage1 d]> stages).
Proof.
  intros Hd Hrec [Hnd Htodo Hdone Hdom Htab Hoth Hnames Hsp]. destruct (ro_recovered Hok d t Hd Hrec) as (Hid & Hname & Hspace & _).
  cbn [fmap list_fmap fst] in *. apply NoDup_cons in Hnd as [Hni Hnd]. destruct (Hsp d Hd) as [sp Hspd].
  assert (Hthe : the_space spaces (space_of d) = sp) by (unfold the_space; by rewrite Hspd).
  assert (Habs : table_datas (sp_table_datas sp) !! td_name d = None).
  { destruct (table_datas (sp_table_datas sp) !! td_name d) as [i|] eqn:Hn; [|done]. rewrite <- Hthe in Hn. destruct (Hnames _ _ _ Hn) as [Ho|(d' & Hd' & Hnot & Hs' & Hn')].
    - rewrite (ro_absent Hok d t Hd Hrec) in Ho. done.
    - rewrite (ro_names Hok d' d) in Hnot by done. set_solver. }
  unfold insert_into_space, insert_table, insert_if_absent. rewrite Hspace, Hspd, Hname, Habs, Hid. cbn [rassert rbind].
  eexists. split; [done|]. set (s' := MkTableSet _ _). assert (Hfind : forall s id, find_in (<[space_of d := with_set sp s']> spaces) s id =
    if decide (s = space_of d /\ id = td_id d) then Some t else find_in spaces s id).
  { intros s id. unfold find_in, find_table_by_id, set_find_table_by_id. rewrite the_space_insert. destruct (decide (s = space_of d)) as [->|Hne].
    - rewrite Hthe. cbn. destruct (decide (id = td_id d)) as [->|Hid']; [by rewrite lookup_insert_eq, decide_True|by rewrite lookup_insert_ne, decide_False by naive_solver].
    - by rewrite decide_False by naive_solver. }
  split.
  - done.
  - intros id st' Hin. apply Htodo. by right.
  - intros d' Hd' Hn. destruct (decide (td_id d' = td_id d)) as [Heq|Hne]; [rewrite (def_of_id d' d) by done; by rewrite lookup_insert_eq|].
    rewrite lookup_insert_ne by done. apply Hdone; [done|set_solver].
  - intros id Hin. destruct (decide (td_id d = id)) as [<-|Hne]; [by exists d|]. rewrite lookup_insert_ne in Hin by done. by apply Hdom.
  - intros d' Hd'. rewrite Hfind. destruct (decide (td_id d' = td_id d)) as [Heq|Hne].
    + rewrite (def_of_id d' d Hd' Hd Heq), decide_True, decide_False by done. unfold found. by rewrite Hrec.
    + rewrite decide_False by naive_solver. rewrite (Htab d' Hd'). by rewrite decide_tail.
  - intros s id Hother. rewrite Hfind, decide_False; [by apply Hoth|]. intros [-> ->]. by apply (Hother d).
  - intros s n i Hn. rewrite the_space_insert in Hn. destruct (decide (s = space_of d)) as [->|Hne].
    + cbn in Hn. destruct (decide (n = td_name d)) as [->|Hnn]; [right; by exists d|]. rewrite lookup_insert_ne in Hn by done. rewrite <- Hthe in Hn.
      destruct (Hnames _ _ _ Hn) as [?|(d' & ? & ? & ?)]; [by left|]. right. exists d'. set_solver.
    + destruct (Hnames _ _ _ Hn) as [?|(d' & ? & ? & ?)]; [by left|]. right. exists d'. set_solver.
  - intros d' Hd'. destruct (decide (space_of d' = space_of d)) as [->|Hne]; [by rewrite lookup_insert_eq|]. rewrite lookup_insert_ne by done. by apply Hsp.
Qed.
Lemma metas_ok l : forall spaces stages, meta_inv l spaces stages ->
  exists spaces' stages', recover_table_metas no_space mo (rc_shard_id ctx) l spaces stages = (spaces', Ok stages') /\ meta_inv [] spaces' stages'.
Proof.
  induction l as [|[id st] l IH]; intros spaces stages Hi; [by exists spaces, stages|]. destruct (mi_todo _ _ _ Hi id st ltac:(by left)) as (d & Hd & <- & ->).
  cbn [recover_table_metas]. unfold meta_stage. pose proof (mi_tables _ _ _ Hi d Hd) as Htab. rewrite decide_True in Htab by (by left).
  assert (Hrec : recovering d = match opened d with Some _ => None | None => match recovers d with Ok o => o | _ => None end end) by done.
  unfold stage0. destruct (opened d) as [t0|] eqn:Ho.
  { replace (Success (Some (space_of d, td_id d))) with (stage1 d) by (unfold stage1; by rewrite Ho). apply IH. eapply meta_inv_skip; [done|done|].
    unfold found. by rewrite Hrec, Ho. }
  unfold recover_single_table_meta. fold (recovers d). pose proof (ro_recovers Hok d Hd) as Hnp. destruct (recovers d) as [[t|]|e|] eqn:Hr; [| | |done].
  - destruct (meta_inv_insert d t _ l spaces stages Hd Hrec Hi) as (spaces' & Hins & Hi'). rewrite Hins.
    assert (Hnew : find_table_by_id (the_space spaces' (space_of d)) (td_id d) = Some t).
    { pose proof (mi_tables _ _ _ Hi' d Hd) as Hf. unfold find_in in Hf. rewrite Hf, decide_False; [unfold found; by rewrite Hrec|].
      pose proof (mi_nodup _ _ _ Hi) as Hnd. cbn in Hnd. by apply NoDup_cons in Hnd as [? _]. }
    rewrite Hnew. replace (RecoverTableData (td_id d) (space_of d)) with (stage1 d) by (unfold stage1; by rewrite Ho, Hr). by apply IH.
  - unfold find_in in Htab. rewrite Htab. replace (Success None) with (stage1 d) by (unfold stage1; by rewrite Ho, Hr). apply IH.
    eapply meta_inv_skip; [done|done|]. unfold found. by rewrite Hrec.
  - replace (Failed (ReadMetaUpdate (td_id d) e)) with (stage1 d) by (unfold stage1; by rewrite Ho, Hr). apply IH.
    eapply meta_inv_skip; [done|done|]. unfold found. by rewrite Hrec.
Qed.

(** *** Logs *)
Lemma keyed_elem {X A} (g : X -> Z) (f : X -> option A) (l : list X) k a :
  (k, a) ∈ omap (fun x => (fun a => (g x, a)) <$> f x) l <-> exists x, x ∈ l /\ g x = k /\ f x = Some a.
Proof.
  rewrite list_elem_of_omap. split.
  - intros (x & Hx & Hf). apply fmap_Some in Hf as (a0 & Ha & [= -> ->]). by exists x.
  - intros (x & Hx & <- & Hf). exists x. split; [done|]. by rewrite Hf.
Qed.
Lemma keyed_lookup {X A} (g : X -> Z) (f : X -> option A) (l : list X) k a : NoDup (g <$> l) ->
  (list_to_map (omap (fun x => (fun a => (g x, a)) <$> f x) l) : gmap Z A) !! k = Some a <-> exists x, x ∈ l /\ g x = k /\ f x = Some a.
Proof.
  intros Hnd. rewrite <- keyed_elem. symmetry. apply elem_of_list_to_map. induction l as [|x l IH]; [constructor|]. cbn [fmap list_fmap omap list_omap] in *.
  apply NoDup_cons in Hnd as [Hni Hnd]. destruct (f x) as [a'|]; cbn; [|by apply IH]. constructor; [|by apply IH].
  intros ([k' b] & Heq & Hin)%list_elem_of_fmap. cbn in Heq. subst k'. apply keyed_elem in Hin as (y & Hy & Hg & _). apply Hni. rewrite <- Hg.
  by apply list_elem_of_fmap_2.
Qed.
Definition ref_of (st : Z * Stage) : option (Z * Z) := match st.2 with RecoverTableData a b => Some (a, b) | _ => None end.
Lemma replay_datas_refs (l : list (Z * Stage)) : (forall k d s, (k, RecoverTableMeta d s) ∉ l) -> replay_table_datas l = Ok (omap ref_of l).
Proof.
  induction l as [|[k st] l IH]; intros Hl; [done|]. assert (IH' : replay_table_datas l = Ok (omap ref_of l)) by (apply IH; intros k' d s Hin; apply (Hl k' d s); by right).
  cbn [replay_table_datas omap list_omap]. unfold ref_of at 1. cbn [snd]. destruct st as [d s|a b|e|o]; cbn; rewrite ?IH'; [|done|done|done]. exfalso. apply (Hl k d s). by left.
Qed.
Lemma refs_nodup (l : list (Z * Stage)) : NoDup l.*1 -> (forall k a b, (k, RecoverTableData a b) ∈ l -> a = k) -> NoDup (omap ref_of l).*1.
Proof.
  induction l as [|[k st] l IH]; intros Hnd Hl; [constructor|]. cbn [fmap list_fmap] in Hnd. apply NoDup_cons in Hnd as [Hni Hnd].
  assert (IH' : NoDup (omap ref_of l).*1) by (apply IH; [done|]; intros k' a b Hin; apply (Hl k' a b); by right).
  cbn [omap list_omap]. unfold ref_of at 1. cbn [snd]. destruct st as [| a b| |]; cbn; try done. constructor; [|done]. pose proof (Hl k a b ltac:(by left)) as ->.
  intros ([a' b'] & Heq & Hin)%list_elem_of_fmap. cbn in Heq. subst a'. apply list_elem_of_omap in Hin as ([k' st'] & Hin & Hr). unfold ref_of in Hr. cbn in Hr.
  destruct st' as [|a2 b2| |]; try done. injection Hr as -> ->. pose proof (Hl k' k b' ltac:(by right)) as ->. apply Hni. by apply (list_elem_of_fmap_2 fst _ (k', _)) in Hin.
Qed.
Section datas.
Context (spaces : gmap Z (Space (T:=T))) (stages : gmap Z Stage) (Hi : meta_inv [] spaces stages).
Abbreviation refs := (omap ref_of (map_to_list stages)).
Lemma stage_of d : d ∈ table_defs -> stages !! td_id d = Some (stage1 d).
Proof. intros Hd. apply (mi_done _ _ _ Hi d Hd). by intros ?%elem_of_nil. Qed.
Lemma stage_inv k st : (k, st) ∈ map_to_list stages -> exists d, d ∈ table_defs /\ td_id d = k /\ st = stage1 d.
Proof.
  intros Hin%elem_of_map_to_list. destruct (mi_dom _ _ _ Hi k ltac:(by eexists)) as (d & Hd & <-). exists d. rewrite stage_of in Hin by done.
  split_and!; [done|done|congruence].
Qed.
Lemma stage1_data d a b : stage1 d = RecoverTableData a b -> a = td_id d /\ b = space_of d /\ exists t, recovering d = Some t.
Proof.
  unfold stage1, recovering. destruct (opened d); [done|]. destruct (recovers d) as [[t|]| |]; intros H; try done. injection H as <- <-. split_and!; [done|done|by exists t].
Qed.
Lemma elem_of_refs id s : (id, s) ∈ refs <-> exists d, d ∈ table_defs /\ td_id d = id /\ space_of d = s /\ is_Some (recovering d).
Proof.
  rewrite list_elem_of_omap. split.
  - intros ([k st] & Hin & Hr). destruct (stage_inv k st Hin) as (d & Hd & <- & ->). unfold ref_of in Hr. cbn in Hr.
    destruct (stage1 d) as [| a b| |] eqn:Hst; try done. apply stage1_data in Hst as (-> & -> & t & Ht). injection Hr as <- <-. exists d. split_and!; [done|done|done|by exists t].
  - intros (d & Hd & <- & <- & t & Ht). exists (td_id d, stage1 d). split; [by apply elem_of_map_to_list, stage_of|]. unfold ref_of, stage1. cbn.
    unfold recovering in Ht. destruct (opened d); [done|]. destruct (recovers d) as [[t'|]| |]; done.
Qed.
Lemma refs_ok : replay_table_datas (map_to_list stages) = Ok refs /\ NoDup refs.*1.
Proof.
  split.
  - apply replay_datas_refs. intros k d s Hin. destruct (stage_inv _ _ Hin) as (d' & _ & _ & Hst). unfold stage1 in Hst. destruct (opened d'); [done|]. by destruct (recovers d') as [[]| |].
  - apply refs_nodup; [apply NoDup_fst_map_to_list|]. intros k a b Hin. destruct (stage_inv _ _ Hin) as (d & _ & <- & Hst). symmetry in Hst. by apply stage1_data in Hst as [-> _].
Qed.
Lemma refs_tables : tables_of spaces refs = list_to_map recovering_tables.
Proof.
  destruct refs_ok as [_ Hnd]. apply map_eq. intros id. apply option_eq. intros t. unfold tables_of, recovering_tables.
  rewrite (keyed_lookup fst (fun r => find_in spaces r.2 r.1)), (keyed_lookup td_id recovering) by (done || apply Hok).
  assert (Hf : forall d, d ∈ table_defs -> find_in spaces (space_of d) (td_id d) = found d) by (intros d Hd; rewrite (mi_tables _ _ _ Hi d Hd), decide_False; [done|by intros ?%elem_of_nil]).
  split.
  - intros ([id' s] & (d & Hd & <- & <- & t' & Hr)%elem_of_refs & <- & Ht). exists d. cbn [fst snd] in *. rewrite (Hf d Hd) in Ht. unfold found in Ht. rewrite Hr in Ht. by simplify_eq.
  - intros (d & Hd & <- & Hr). exists (td_id d, space_of d). split_and!; [|done|cbn [fst snd]; rewrite (Hf d Hd); unfold found; by rewrite Hr].
    apply elem_of_refs. exists d. split_and!; [done|done|done|by exists t].
Qed.
Lemma recovering_lookup d t : d ∈ table_defs -> recovering d = Some t -> (list_to_map recovering_tables : gmap Z T) !! td_id d = Some t.
Proof. intros Hd Hr. unfold recovering_tables. rewrite (keyed_lookup td_id recovering) by apply Hok. by exists d. Qed.
Lemma refs_replay mode : exists ts faileds, replay mode ctx refs.*1 (tables_of spaces refs) = (ts, Ok faileds) /\
  forall d t, d ∈ table_defs -> recovering d = Some t -> ts !! td_id d = Some (replay_of d t).1 /\ faileds !! td_id d = failure (replay_of d t).2.
Proof.
  destruct refs_ok as [_ Hnd]. assert (Hel : forall id, id ∈ refs.*1 -> exists d t, d ∈ table_defs /\ td_id d = id /\ recovering d = Some t).
  { intros id ([id' s] & -> & (d & Hd & <- & _ & t & Ht)%elem_of_refs)%list_elem_of_fmap. by exists d, t. }
  rewrite refs_tables. destruct (replay_both ctx refs.*1 (list_to_map recovering_tables) es) as (ts & f & Htb & Hrb & Hall).
  - split; [done|]. intros id Hid. destruct (Hel id Hid) as (d & t & Hd & <- & Hr). exists t. split; [by apply recovering_lookup|]. by apply (ro_recovered Hok d t).
  - pose proof (ro_log Hok) as [Hs Hr Hinc]. split; [done| |done]. intros id t Hid Ht. apply Hr; [|done]. destruct (Hel id Hid) as (d & t' & Hd & <- & Hrd).
    apply list_elem_of_fmap. exists (td_id d, t'). split; [done|]. apply list_elem_of_omap. exists d. split; [done|]. by rewrite Hrd.
  - exists ts, f. split; [by destruct mode|]. intros d t Hd Hr. specialize (Hall (td_id d) t (recovering_lookup d t Hd Hr)).
    rewrite decide_True in Hall; [done|]. apply list_elem_of_fmap. exists (td_id d, space_of d). split; [done|]. apply elem_of_refs. exists d. split_and!; [done|done|done|by exists t].
Qed.
End datas.

(** *** Results *)
Lemma put_tables_find (ts : gmap Z T) rs : forall spaces s id, find_in (put_tables spaces ts rs) s id =
  if decide ((id, s) ∈ rs) then match ts !! id with Some t => Some t | None => find_in spaces s id end else find_in spaces s id.
Proof.
  induction rs as [|[id0 s0] rs IH]; intros spaces s id; cbn; [by rewrite decide_False by (by intros ?%elem_of_nil)|]. unfold put_tables in IH. rewrite IH.
  assert (Hput : find_in (put_table spaces ts (id0, s0)) s id = if decide ((id, s) = (id0, s0)) then match ts !! id with Some t => Some t | None => find_in spaces s id end else find_in spaces s id).
  { unfold put_table. cbn [fst snd]. destruct (ts !! id0) as [t|] eqn:Ht.
    - unfold find_in at 1, find_table_by_id, set_find_table_by_id. rewrite the_space_insert. destruct (decide (s = s0)) as [->|Hne]; [|by rewrite decide_False by congruence].
      cbn. destruct (decide (id = id0)) as [->|Hid]; [by rewrite lookup_insert_eq, decide_True, Ht|by rewrite lookup_insert_ne, decide_False by congruence].
    - destruct (decide ((id, s) = (id0, s0))) as [[= -> ->]|]; [by rewrite Ht|done]. }
  rewrite Hput. destruct (decide ((id, s) ∈ rs)) as [Hin|Hin].
  - rewrite (decide_True (P := (id, s) ∈ _ :: _)) by set_solver. by destruct (ts !! id), (decide ((id, s) = (id0, s0))).
  - destruct (decide ((id, s) = (id0, s0))) as [[= -> ->]|Hne]; [by rewrite decide_True by set_solver|]. by rewrite decide_False by set_solver.
Qed.
Lemma replay_results_ok (faileds : gmap Z (EngineError GE)) rs : forall stages : gmap Z Stage, NoDup rs.*1 ->
  (forall id s, (id, s) ∈ rs -> stages !! id = Some (RecoverTableData id s)) ->
  exists stages', replay_results rs faileds stages = Ok stages' /\
    (forall id s, (id, s) ∈ rs -> stages' !! id = Some (match faileds !! id with Some e => Failed (ReplayFailed e) | None => Success (Some (s, id)) end)) /\
    (forall id, id ∉ rs.*1 -> stages' !! id = stages !! id).
Proof.
  induction rs as [|[id s] rs IH]; intros stages Hnd Hst; [exists stages; by split_and!; [|intros ? ? ?%elem_of_nil|]|]. cbn [fmap list_fmap fst] in Hnd.
  apply NoDup_cons in Hnd as [Hni Hnd]. cbn [replay_results]. rewrite (Hst id s) by (by left). cbn [unwrap rbind].
  assert (Hgo : forall st, exists stages', replay_results rs faileds (<[id := st]> stages) = Ok stages' /\ stages' !! id = Some st /\
    (forall id' s', (id', s') ∈ rs -> stages' !! id' = Some (match faileds !! id' with Some e => Failed (ReplayFailed e) | None => Success (Some (s', id')) end)) /\
    (forall id', id' ∉ id :: rs.*1 -> stages' !! id' = stages !! id')).
  { intros st. destruct (IH (<[id := st]> stages) Hnd) as (st' & Hr & H1 & H2).
    - intros id' s' Hin. rewrite lookup_insert_ne; [apply Hst; by right|]. intros ->. apply Hni. by apply (list_elem_of_fmap_2 fst) in Hin.
    - exists st'. split_and!; [done|by rewrite H2, lookup_insert_eq|done|]. intros id' Hn. rewrite H2 by set_solver. rewrite lookup_insert_ne by set_solver. done. }
  destruct (faileds !! id) as [e|] eqn:Hf; [destruct (Hgo (Failed (ReplayFailed e))) as (st' & Hr & H0 & H1 & H2)|destruct (Hgo (Success (Some (s, id)))) as (st' & Hr & H0 & H1 & H2)];
    exists st'; (split_and!; [done| |done]); (intros id' s' [[= -> ->]|Hin]%elem_of_cons; [by rewrite H0, Hf|by apply H1]).
Qed.
Definition result_of (st : Stage) : option (Error + option (Z * Z)) := match st with Failed e => Some (inl e) | Success o => Some (inr o) | _ => None end.
Lemma table_results_ok (l : list (Z * Stage)) : NoDup l.*1 -> (forall k st, (k, st) ∈ l -> is_Some (result_of st)) ->
  exists r, table_results l = Ok r /\ forall k st, (k, st) ∈ l -> r !! k = result_of st.
Proof.
  induction l as [|[k st] l IH]; intros Hnd Hl; [exists ∅; by split; [|intros ? ? ?%elem_of_nil]|]. cbn [fmap list_fmap fst] in Hnd. apply NoDup_cons in Hnd as [Hni Hnd].
  destruct (IH Hnd) as (r & Hr & Hrl); [intros k' st' Hin; apply (Hl k'); by right|]. destruct (Hl k st ltac:(by left)) as [x Hx]. cbn [table_results].
  assert (Hnew : forall k' st', (k', st') ∈ (k, st) :: l -> (<[k := x]> r) !! k' = result_of st').
  { intros k' st' [[= -> ->]|Hin]%elem_of_cons; [by rewrite lookup_insert_eq|]. rewrite lookup_insert_ne; [by apply Hrl|]. intros ->. apply Hni.
    by apply (list_elem_of_fmap_2 fst) in Hin. }
  destruct st as [| |e|o]; try done; cbn in Hx; injection Hx as <-; rewrite Hr; cbn [rbind]; by eexists.
Qed.
Lemma mark_failed_ok (r : gmap Z (Error + option (Z * Z))) ds : (forall d, d ∈ ds -> is_Some (r !! td_id d)) -> forall spaces : gmap Z (Space (T:=T)),
  exists spaces', mark_failed r ds spaces = (spaces', Ok tt) /\ (forall s id, find_in spaces' s id = find_in spaces s id) /\
    forall d e, d ∈ ds -> r !! td_id d = Some (inl e) -> is_open_failed_table (the_space spaces' (space_of d)) (td_name d) = true.
Proof.
  assert (Hmono : forall ds' spaces spaces' x s n, mark_failed (T:=T) r ds' spaces = (spaces', x) -> n ∈ sp_open_failed_tables (the_space spaces s) -> n ∈ sp_open_failed_tables (the_space spaces' s)).
  { induction ds' as [|d ds' IH]; intros spaces spaces' x s n Hm Hn; cbn in Hm; [by injection Hm as <- _|]. destruct (r !! td_id d) as [[e|o]|]; [|by eapply IH|by injection Hm as <- _].
    eapply IH; [exact Hm|]. rewrite the_space_insert. destruct (decide (s = space_of d)) as [->|]; [|done]. cbn. apply elem_of_app. by left. }
  induction ds as [|d ds IH]; intros Hr spaces; [exists spaces; by split_and!; [| |intros ? ? ?%elem_of_nil]|]. cbn [mark_failed].
  destruct (Hr d ltac:(by left)) as [x Hx]. rewrite Hx. assert (Hr' : forall d, d ∈ ds -> is_Some (r !! td_id d)) by (intros d' Hd'; apply Hr; by right).
  destruct x as [e|o].
  - set (sps := <[_ := _]> spaces). destruct (IH Hr' sps) as (sp' & Hm & Hf & Hfail). exists sp'. split_and!; [done| |].
    + intros s id. rewrite Hf. unfold sps, find_in. rewrite the_space_insert. by destruct (decide (s = space_of d)) as [->|].
    + intros d' e' [->|Hd']%elem_of_cons He; [|by eapply Hfail]. apply bool_decide_eq_true. eapply Hmono; [exact Hm|]. unfold sps. rewrite the_space_insert, decide_True by done.
      cbn. apply elem_of_app. right. by left.
  - destruct (IH Hr' spaces) as (sp' & Hm & Hf & Hfail). exists sp'. split_and!; [done|done|]. intros d' e' [->|Hd']%elem_of_cons He; [congruence|by eapply Hfail].
Qed.

Lemma start_inv : let sp0 := foldl (fun spaces d => find_or_create_space spaces (space_of d)) spaces0 table_defs in
  meta_inv (map_to_list (opener_init (GE:=GE) sp0 table_defs)) sp0 (opener_init sp0 table_defs).
Proof.
  cbv zeta. unfold opener_init. destruct (create_spaces table_defs spaces0) as (Hsame & Hex & _). cbv zeta in *. set (sp0 := foldl _ spaces0 table_defs) in *.
  destruct (init_stages sp0 table_defs Hsame (ro_ids Hok) ∅) as [Hst Hno]. cbv zeta in *. set (st0 := foldl _ ∅ table_defs) in *.
  assert (Hdom : forall id st, st0 !! id = Some st -> exists d, d ∈ table_defs /\ td_id d = id /\ st = stage0 d).
  { intros id st Hid. destruct (decide (id ∈ td_id <$> table_defs)) as [(d & -> & Hd)%list_elem_of_fmap|Hn]; [|by rewrite Hno in Hid].
    exists d. rewrite Hst in Hid by done. by simplify_eq. }
  assert (Hkey : forall d, d ∈ table_defs -> td_id d ∈ (map_to_list st0).*1).
  { intros d Hd. apply list_elem_of_fmap. exists (td_id d, stage0 d). split; [done|]. by apply elem_of_map_to_list, Hst. }
  split.
  - apply NoDup_fst_map_to_list.
  - intros id st Hin%elem_of_map_to_list. by apply Hdom.
  - intros d Hd Hn. exfalso. by apply Hn, Hkey.
  - intros id [st Hid]. destruct (Hdom id st Hid) as (d & ? & ? & _). by exists d.
  - intros d Hd. unfold find_in. rewrite Hsame, decide_True; [done|by apply Hkey].
  - intros s id _. unfold find_in. by rewrite Hsame.
  - intros s n i. rewrite Hsame. by left.
  - done.
Qed.
Lemma datas_ok mode sp1 st1 : meta_inv [] sp1 st1 -> exists sp2 st2, recover_table_datas mode ctx sp1 st1 = (sp2, Ok st2) /\
  (forall id st, st2 !! id = Some st -> exists d, d ∈ table_defs /\ td_id d = id /\ result_of st = Some (outcome d)) /\
  (forall d, d ∈ table_defs -> is_Some (st2 !! td_id d) /\ find_in sp2 (space_of d) (td_id d) = final_table d) /\
  forall s id, (forall d, d ∈ table_defs -> td_id d <> id) -> find_in sp2 s id = find_in spaces0 s id.
Proof.
  intros Hi. unfold recover_table_datas. destruct (refs_ok sp1 st1 Hi) as [Hrefs Hnd]. rewrite Hrefs. destruct (refs_replay sp1 st1 Hi mode) as (ts & fs & Hrep & Hall). rewrite Hrep.
  assert (Hel : forall d, d ∈ table_defs -> is_Some (recovering d) -> (td_id d, space_of d) ∈ omap ref_of (map_to_list st1)).
  { intros d Hd Hr. apply (elem_of_refs sp1 st1 Hi). by exists d. }
  destruct (replay_results_ok fs _ st1 Hnd) as (st2 & Hrr & Hin2 & Hout2).
  { intros id s (d & Hd & <- & <- & t & Hr)%(elem_of_refs sp1 st1 Hi). rewrite (stage_of sp1 st1 Hi d Hd). unfold stage1. unfold recovering in Hr.
    destruct (opened d); [done|]. destruct (recovers d) as [[]| |]; done. }
  rewrite Hrr. eexists _, st2. split; [done|].
  assert (Hst2 : forall d, d ∈ table_defs -> exists st, st2 !! td_id d = Some st /\ result_of st = Some (outcome d)).
  { intros d Hd. destruct (recovering d) as [t|] eqn:Hr.
    - rewrite (Hin2 _ _ (Hel d Hd ltac:(by eexists))). eexists. split; [done|]. destruct (Hall d t Hd Hr) as [_ ->]. unfold outcome. unfold recovering in Hr.
      destruct (opened d); [done|]. destruct (recovers d) as [[t'|]| |]; try done. injection Hr as ->. by destruct (failure _).
    - rewrite Hout2; [exists (stage1 d); split; [by apply (stage_of sp1)|]|].
      + unfold stage1, outcome. unfold recovering in Hr. destruct (opened d); [done|]. destruct (recovers d) as [[]| |] eqn:Hrv; done.
      + intros ([id s] & Heq & (d' & Hd' & Hid' & _ & Hr')%(elem_of_refs sp1 st1 Hi))%list_elem_of_fmap. cbn in Heq. subst id.
        rewrite (def_of_id d' d) in Hr' by done. rewrite Hr in Hr'. by destruct Hr'. }
  split_and!.
  - intros id st Hst. assert (Hk : exists d, d ∈ table_defs /\ td_id d = id).
    { destruct (decide (id ∈ (omap ref_of (map_to_list st1)).*1)) as [([id' s] & -> & (d & Hd & Hid & _)%(elem_of_refs sp1 st1 Hi))%list_elem_of_fmap|Hn]; [by exists d|].
      rewrite Hout2 in Hst by done. apply (mi_dom _ _ _ Hi). by exists st. }
    destruct Hk as (d & Hd & <-). exists d. destruct (Hst2 d Hd) as (st' & Hst' & Hres). split_and!; [done|done|]. congruence.
  - intros d Hd. destruct (Hst2 d Hd) as (st & Hst & _). split; [by exists st|]. rewrite put_tables_find. pose proof (mi_tables _ _ _ Hi d Hd) as Ht.
    rewrite decide_False in Ht by (by intros ?%elem_of_nil). unfold final_table. unfold found in Ht. destruct (recovering d) as [t|] eqn:Hr.
    + rewrite decide_True by (apply Hel; [done|by eexists]). by destruct (Hall d t Hd Hr) as [-> _].
    + rewrite decide_False; [done|]. intros (d' & Hd' & Hid & _ & Hr')%(elem_of_refs sp1 st1 Hi). rewrite (def_of_id d' d) in Hr' by done. rewrite Hr in Hr'. by destruct Hr'.
  - intros s id Hother. rewrite put_tables_find, decide_False; [by apply (mi_others _ _ _ Hi)|].
    intros (d' & Hd' & Hid & _)%(elem_of_refs sp1 st1 Hi). by apply (Hother d').
Qed.
Lemma opening_ok mode : exists spaces' results, open_tables_of_shard no_space mo mode ctx spaces0 table_defs = (spaces', Ok results) /\
  (forall d, d ∈ table_defs -> results !! td_id d = Some (outcome d) /\ find_in spaces' (space_of d) (td_id d) = final_table d /\
     (forall e, outcome d = inl e -> is_open_failed_table (the_space spaces' (space_of d)) (td_name d) = true)) /\
  forall s id, (forall d, d ∈ table_defs -> td_id d <> id) -> find_in spaces' s id = find_in spaces0 s id.
Proof.
  unfold open_tables_of_shard, opener_open. destruct (metas_ok _ _ _ start_inv) as (sp1 & st1 & Hm & Hi). rewrite Hm.
  destruct (datas_ok mode sp1 st1 Hi) as (sp2 & st2 & Hdt & Hst2 & Hd2 & Ho2). rewrite Hdt.
  destruct (table_results_ok (map_to_list st2)) as (r & Hr & Hrl).
  { apply NoDup_fst_map_to_list. }
  { intros k st Hin%elem_of_map_to_list. destruct (Hst2 k st Hin) as (d & _ & _ & Hres). by eexists. }
  assert (Hres : forall d, d ∈ table_defs -> r !! td_id d = Some (outcome d)).
  { intros d Hd. destruct (Hd2 d Hd) as [[st Hst] _]. destruct (Hst2 _ st Hst) as (d' & Hd' & Hid & Ho). rewrite (def_of_id d' d) in Ho by done.
    rewrite (Hrl (td_id d) st); [done|]. by apply elem_of_map_to_list. }
  rewrite Hr. destruct (mark_failed_ok r table_defs ltac:(intros d Hd; rewrite Hres by done; by eexists) sp2) as (sp3 & Hmf & Hf & Hfail). rewrite Hmf.
  exists sp3, r. split_and!; [done| |].
  - intros d Hd. split_and!; [by apply Hres|by rewrite Hf; apply Hd2|]. intros e He. apply (Hfail d e Hd). by rewrite Hres, He.
  - intros s id Hother. rewrite Hf. by apply Ho2.
Qed.
End opening.


(** ** A shard of two tables *)
#[local] Existing Instances demo_table demo_table_laws.
#[local] Instance demo_named : NamedTable DemoTable := {| nt_name t := if dm_id t =? 7 then "seven"%string else "eight"%string; nt_space_id _ := 1; nt_dropped _ := false |}.
Definition demo_manifest : ManifestOps (T:=DemoTable) (GE:=string) := {|
  mo_recover _ id _ := match id with 7 => Ok (Some (MkDemo 7 1 1 1 0 [] [])) | 8 => Ok (Some (MkDemo 8 1 1 0 0 [] [])) | 6 => Ok None | _ => Err "manifest"%string end;
  mo_merge_options _ := true;
  mo_add_table r := Ok (MkDemo (cr_table_id r) (cr_shard_id r) 1 0 0 [] []);
  mo_drop_table _ _ := Ok tt;
  mo_do_snapshot _ _ := Ok tt
|}.
Definition demo_defs : list TableDef := [MkDef 1 7 "seven"%string; MkDef 1 8 "eight"%string; MkDef 1 6 "six"%string; MkDef 2 5 "five"%string].
Definition demo_ctx : ReplayContext (RG:=Z * Z) (GE:=string) := MkReplayContext 1 demo_wal.
Lemma demo_def_cases d : d ∈ demo_defs -> d = MkDef 1 7 "seven"%string \/ d = MkDef 1 8 "eight"%string \/ d = MkDef 1 6 "six"%string \/ d = MkDef 2 5 "five"%string.
Proof. unfold demo_defs. set_solver. Qed.
Lemma demo_request : request_ok demo_manifest demo_ctx ∅ demo_defs (concat demo_batches).
Proof.
  split.
  - repeat (constructor; [set_solver|]). constructor.
  - intros d1 d2 H1%demo_def_cases H2%demo_def_cases. by destruct H1 as [->|[->|[->| ->]]], H2 as [->|[->|[->| ->]]].
  - intros d t Hd%demo_def_cases. by destruct Hd as [->|[->|[->| ->]]].
  - intros d t Hd%demo_def_cases. destruct Hd as [->|[->|[->| ->]]]; intros H; vm_compute in H; try done; injection H as <-; by split_and!.
  - intros d Hd%demo_def_cases. by destruct Hd as [->|[->|[->| ->]]].
  - assert (Hts : recovering_tables demo_manifest demo_ctx ∅ demo_defs = [(7, MkDemo 7 1 1 1 0 [] []); (8, MkDemo 8 1 1 0 0 [] [])]) by (vm_compute; reflexivity).
    rewrite Hts. destruct demo_log as [Hs Hr Hinc]. split; [done| |done]. intros id t Hid Ht. apply Hr; [done|].
    cbn in Hid. apply elem_of_cons in Hid as [->|[->|Hn%elem_of_nil]%elem_of_cons]; [| |done]; vm_compute in Ht |- *; done.
Qed.

(** ** What a failed opening leaves *)
Definition lost_entry_wal (broken : bool) : WalManager (RG:=Z * Z) (GE:=string) := {|
  wal_read_batch _ _ _ := if broken then Err "down"%string else Ok [Ok [MkPayloadEntry 8 1 (PlWrite (1, 10))]];
  wal_scan _ := if broken then Err "down"%string else Ok [Ok [MkPayloadEntry 8 1 (PlWrite (1, 10))]]
|}.
Definition lost_entry_ctx (broken : bool) : ReplayContext (RG:=Z * Z) (GE:=string) := MkReplayContext 1 (lost_entry_wal broken).

(** ** The names and ids of a space *)
Section lifecycle.
Context {T RG GE : Type} {RT : ReplayTable T RG GE} {NT : NamedTable T} {FT : FlushTable T GE}.
Context (no_space : GE) (mo : ManifestOps (T:=T) (GE:=GE)).
(** Flushing changes neither, and the manifest adds the table of the request. *)
Context (Hflush : forall (t : T), rt_id (do_flush t).1 = rt_id t /\ nt_name (do_flush t).1 = nt_name t).
Context (Hadd : forall r t, mo_add_table mo r = Ok t -> rt_id t = cr_table_id r /\ nt_name t = cr_table_name r /\ nt_space_id t = build_space_id (cr_schema_id r)).
Definition set_ok (s : TableDataSet (T:=T)) : Prop :=
  (forall n id, table_datas s !! n = Some id -> exists t, id_to_tables s !! id = Some t /\ nt_name t = n) /\
  forall id t, id_to_tables s !! id = Some t -> rt_id t = id /\ table_datas s !! nt_name t = Some id.
Definition spaces_ok (spaces : gmap Z (Space (T:=T))) : Prop := forall s, set_ok (sp_table_datas (the_space spaces s)).

Lemma set_ok_insert s t : set_ok s -> id_to_tables s !! rt_id t = None -> set_ok (insert_if_absent s t).2.
Proof.
  intros [H1 H2] Hid. unfold insert_if_absent. destruct (table_datas s !! nt_name t) as [i|] eqn:Hn; [done|]. cbn. split; cbn.
  - intros n id. destruct (decide (n = nt_name t)) as [->|Hne]; [rewrite lookup_insert_eq; intros [= <-]; exists t; by rewrite lookup_insert_eq|].
    rewrite lookup_insert_ne by done. intros Hl. destruct (H1 n id Hl) as (t' & Ht' & Hn'). exists t'. rewrite lookup_insert_ne; [done|congruence].
  - intros id t'. destruct (decide (id = rt_id t)) as [->|Hne]; [rewrite lookup_insert_eq; intros [= <-]; by rewrite lookup_insert_eq|].
    rewrite lookup_insert_ne by done. intros Hl. destruct (H2 id t' Hl) as [Hi Hn']. split; [done|]. rewrite lookup_insert_ne; [done|congruence].
Qed.
Lemma set_ok_remove s n : set_ok s -> set_ok (set_remove_table s n).2.
Proof.
  intros [H1 H2]. unfold set_remove_table. destruct (table_datas s !! n) as [i|] eqn:Hn; [|done]. cbn. destruct (H1 n i Hn) as (t & Ht & Htn). split; cbn.
  - intros n' id [Hne Hl]%lookup_delete_Some. destruct (H1 n' id Hl) as (t' & Ht' & Hn'). exists t'. rewrite lookup_delete_ne; [done|]. intros ->. congruence.
  - intros id t' [Hne Hl]%lookup_delete_Some. destruct (H2 id t' Hl) as [Hi Hn']. split; [done|]. rewrite lookup_delete_ne; [done|]. intros Heq. congruence.
Qed.
Lemma set_ok_set s id t t0 : set_ok s -> id_to_tables s !! id = Some t0 -> rt_id t = rt_id t0 -> nt_name t = nt_name t0 -> set_ok (set_table s id t).
Proof.
  intros [H1 H2] H0 Hi Hn. split; cbn.
  - intros n id' Hl. destruct (H1 n id' Hl) as (t' & Ht' & Hn'). destruct (decide (id' = id)) as [->|Hne]; [exists t; rewrite lookup_insert_eq; split; [done|congruence]|].
    exists t'. by rewrite lookup_insert_ne.
  - intros id' t'. destruct (decide (id' = id)) as [->|Hne]; [rewrite lookup_insert_eq; intros [= <-]; destruct (H2 _ _ H0) as [? ?]; split; congruence|]. rewrite lookup_insert_ne by done. apply H2.
Qed.
Lemma spaces_ok_insert spaces s sp : spaces_ok spaces -> set_ok (sp_table_datas sp) -> spaces_ok (<[s := sp]> spaces).
Proof. intros Hok Hs s'. rewrite the_space_insert. by destruct (decide (s' = s)). Qed.
Lemma find_or_create_ok spaces s : spaces_ok spaces -> spaces_ok (find_or_create_space spaces s).
Proof. intros Hok. unfold find_or_create_space. destruct (spaces !! s); [done|]. apply spaces_ok_insert; [done|]. by split. Qed.
Lemma find_or_create_is spaces s : (find_or_create_space (T:=T) spaces s) !! s = Some (the_space (find_or_create_space spaces s) s).
Proof. unfold the_space, find_or_create_space. destruct (spaces !! s) eqn:Hs; [by rewrite Hs|by rewrite lookup_insert_eq]. Qed.

Lemma create_ok spaces r spaces' x : spaces_ok spaces -> create_table no_space mo spaces r = (spaces', x) ->
  spaces_ok spaces' /\ (forall t, x = Ok t -> find_in spaces' (build_space_id (cr_schema_id r)) (cr_table_id r) = Some t).
Proof.
  intros Hok Hc. unfold create_table in Hc. pose proof (find_or_create_ok spaces (build_space_id (cr_schema_id r)) Hok) as Hok1. pose proof (find_or_create_is spaces (build_space_id (cr_schema_id r))) as Hsp.
  set (spaces1 := find_or_create_space spaces _) in *. destruct (is_open_failed_table _ _); [by injection Hc as <- <-|]. destruct (negb _); [by injection Hc as <- <-|].
  destruct (find_table_by_id _ (cr_table_id r)) as [t|] eqn:Hf; [injection Hc as <- <-; split; [done|]; intros t' [= <-]; done|].
  destruct (mo_add_table mo r) as [t|e|] eqn:Ha; cbn [rbind] in Hc; [|by injection Hc as <- <-..]. destruct (Hadd r t Ha) as (Hid & Hname & Hspace).
  unfold insert_into_space in Hc. rewrite Hspace, Hsp in Hc. unfold insert_table in Hc. pose proof (set_ok_insert _ t (Hok1 (build_space_id (cr_schema_id r)))) as Hins.
  destruct (insert_if_absent _ t) as [success s] eqn:Hi. destruct success; cbn [rassert rbind] in Hc; [|by injection Hc as <- <-].
  injection Hc as <- Hx. split.
  - apply spaces_ok_insert; [done|]. apply Hins. rewrite Hid. exact Hf.
  - intros t' Ht'. rewrite Ht' in Hx. unfold find_in. match goal with |- ?a = _ => destruct a as [t2|] end; [congruence|done].
Qed.
Lemma flushed_ok spaces s id t0 : spaces_ok spaces -> find_table_by_id (the_space spaces s) id = Some t0 -> spaces_ok (set_space_table spaces s id (do_flush t0).1).
Proof. intros Hok Hf. apply spaces_ok_insert; [done|]. destruct (Hflush t0). by eapply set_ok_set. Qed.
Lemma drop_ok spaces r spaces' x : spaces_ok spaces -> drop_table mo spaces r = (spaces', x) ->
  spaces_ok spaces' /\ (x = Ok true -> instance_find_table spaces' (build_space_id (dr_schema_id r)) (dr_table_name r) = None).
Proof.
  intros Hok Hd. unfold drop_table in Hd. set (s := build_space_id (dr_schema_id r)) in *. destruct (spaces !! s) as [sp|] eqn:Hsp; [|injection Hd as <- <-; by split].
  assert (Hthe : the_space spaces s = sp) by (unfold the_space; by rewrite Hsp). destruct (space_find_table sp (dr_table_name r)) as [t|] eqn:Hf; [|injection Hd as <- <-; by split].
  destruct (nt_dropped t); [injection Hd as <- <-; by split|]. unfold space_find_table, set_find_table in Hf. destruct (table_datas (sp_table_datas sp) !! dr_table_name r) as [id|] eqn:Hn; [|done].
  destruct (Hok s) as [H1 H2]. rewrite Hthe in H1, H2. destruct (H2 id t Hf) as [Hid Hnt]. destruct (H1 _ _ Hn) as (t1 & Ht1 & Hname). assert (t1 = t) as -> by congruence.
  pose proof (flushed_ok spaces s id t Hok ltac:(by rewrite Hthe)) as Hfl. destruct (Hflush t) as [Hfi Hfn]. destruct (do_flush t) as [t' r1]. cbn [fst] in *.
  rewrite Hfi, Hid in Hd. destruct r1 as [[]| |]; cbn [rcontext] in Hd; [|injection Hd as <- <-; by split..].
  destruct (mo_drop_table mo s id) as [[]| |]; cbn [rcontext] in Hd; [|injection Hd as <- <-; by split..].
  unfold space_find_table, set_find_table in Hd. unfold set_space_table in Hd. rewrite Hthe in Hd. rewrite the_space_insert, decide_True in Hd by done. cbn in Hd.
  rewrite Hfn, Hname, Hn, lookup_insert_eq in Hd. injection Hd as <- <-. unfold set_space_table in Hfl. rewrite Hthe in Hfl. split.
  - apply spaces_ok_insert; [done|]. apply set_ok_remove. specialize (Hfl s). by rewrite the_space_insert, decide_True in Hfl.
  - intros _. unfold instance_find_table. rewrite lookup_insert_eq. unfold space_find_table, set_find_table. cbn. unfold set_remove_table. cbn. rewrite ?Hfn, ?Hname, Hn. cbn. by rewrite lookup_delete_eq.
Qed.
Lemma close_ok spaces r spaces' x : spaces_ok spaces -> close_table mo spaces r = (spaces', x) -> spaces_ok spaces'.
Proof.
  intros Hok Hd. unfold close_table in Hd. set (s := build_space_id (cl_schema_id r)) in *. destruct (spaces !! s) as [sp|] eqn:Hsp; [|by injection Hd as <- <-].
  assert (Hthe : the_space spaces s = sp) by (unfold the_space; by rewrite Hsp). destruct (find_table_by_id sp (cl_table_id r)) as [t|] eqn:Hf; [|by injection Hd as <- <-].
  pose proof (flushed_ok spaces s (cl_table_id r) t Hok ltac:(by rewrite Hthe)) as Hfl. destruct (do_flush t) as [t' r1]. cbn [fst] in *.
  destruct r1 as [[]| |]; cbn [rcontext] in Hd; [|by injection Hd as <- <-..]. destruct (mo_do_snapshot mo s (rt_id t')) as [[]| |]; cbn [rcontext] in Hd; [|by injection Hd as <- <-..].
  pose proof (set_ok_remove _ (cl_table_name r) (Hfl s)) as Hrm. destruct (set_remove_table _ _) as [o s']. injection Hd as <- _. by apply spaces_ok_insert.
Qed.
(** Tables are created, dropped and closed. *)
Inductive life_step : gmap Z (Space (T:=T)) -> gmap Z (Space (T:=T)) -> Prop :=
| life_create spaces r spaces' x : create_table no_space mo spaces r = (spaces', x) -> life_step spaces spaces'
| life_drop spaces r spaces' x : drop_table mo spaces r = (spaces', x) -> life_step spaces spaces'
| life_close spaces r spaces' x : close_table mo spaces r = (spaces', x) -> life_step spaces spaces'.
Lemma life_ok spaces : rtc life_step ∅ spaces -> spaces_ok spaces.
Proof.
  intros Hr. assert (Hok : spaces_ok ∅) by (intros s; unfold the_space; rewrite lookup_empty; by split). revert Hok.
  induction Hr as [|a b c Hstep _ IH]; [done|]. intros Hok. apply IH. destruct Hstep as [sp r sp' x H|sp r sp' x H|sp r sp' x H];
    [by apply create_ok in H as [? _]|by apply drop_ok in H as [? _]|by apply close_ok in H].
Qed.
(** Tables are found by name exactly as they are by id, after any tables were
    created, dropped and closed, however these ended; a created table is found by its
    id, and a dropped one is no longer found by its name. *)
Theorem table_lifecycle spaces : rtc life_step ∅ spaces ->
  (forall s n t, instance_find_table spaces s n = Some t <-> find_in spaces s (rt_id t) = Some t /\ nt_name t = n) /\
  (forall r spaces' t, create_table no_space mo spaces r = (spaces', Ok t) -> find_in spaces' (build_space_id (cr_schema_id r)) (cr_table_id r) = Some t) /\
  (forall r spaces', drop_table mo spaces r = (spaces', Ok true) -> instance_find_table spaces' (build_space_id (dr_schema_id r)) (dr_table_name r) = None).
Proof.
  intros Hr%life_ok. split_and!.
  - intros s n t. destruct (Hr s) as [H1 H2]. unfold find_in, instance_find_table, the_space, find_table_by_id, set_find_table_by_id in *.
    destruct (spaces !! s) as [sp|]; cbn in *; [|split; [done|]; intros [Hf _]; by apply H2 in Hf as [_ ?]]. unfold space_find_table, set_find_table.
    split.
    + destruct (table_datas (sp_table_datas sp) !! n) as [id|] eqn:Hn; [|done]. intros Ht. destruct (H1 n id Hn) as (t' & Ht' & Hn'). assert (t' = t) as -> by congruence.
      destruct (H2 id t Ht) as [-> _]. done.
    + intros [Ht <-]. destruct (H2 _ _ Ht) as [_ ->]. done.
  - intros r spaces' t Hc. apply create_ok in Hc as [_ Hf]; [|done]. by apply Hf.
  - intros r spaces' Hd. apply drop_ok in Hd as [_ Hf]; [|done]. by apply Hf.
Qed.
End lifecycle.
#[local] Instance demo_flush : FlushTable DemoTable string := {| do_flush t := rt_schedule_flush t |}.
Definition life_manifest : ManifestOps (T:=DemoTable) (GE:=string) := {|
  mo_recover _ _ _ := Ok None;
  mo_merge_options _ := true;
  mo_add_table r := if ((cr_schema_id r =? 1) && bool_decide (cr_table_name r = if (cr_table_id r =? 7)%Z then "seven"%string else "eight"%string))%bool
    then Ok (MkDemo (cr_table_id r) (cr_shard_id r) 1 0 0 [] []) else Err "manifest"%string;
  mo_drop_table _ _ := Ok tt;
  mo_do_snapshot _ _ := Ok tt
|}.
Definition life_run := (create_table "space"%string life_manifest ∅ (MkCreate 1 "seven" 7 1)).1.
Lemma table_lifecycle_witness : instance_find_table life_run 1 "seven" = Some (MkDemo 7 1 1 0 0 [] []) /\
  forall s n t, instance_find_table life_run s n = Some t <-> find_in life_run s (dm_id t) = Some t /\ nt_name t = n.
Proof.
  split; [vm_compute; reflexivity|]. refine (proj1 (table_lifecycle "space"%string life_manifest _ _ life_run _)).
  - intros t. by split.
  - intros r t Ha. cbn in Ha. destruct (Z.eqb_spec (cr_schema_id r) 1) as [Hs|]; [|done]. case_bool_decide as Hn; [|done]. injection Ha as <-. split_and!; [done|by rewrite Hn|done].
  - eapply rtc_once, (life_create _ _ _ (MkCreate 1 "seven" 7 1)), surjective_pairing.
Defined.
