(* ===== verification/PartitionedLock.v ===== *)
(** * Locks partitioned by the hash of a key

    [common_util/src/partitioned_lock.rs]: a vector of locks, one for every value of
    the low bits of a hash.  A lock is the state it guards: what a caller does under
    the lock is one step, and [with_partition] puts the changed state back. *)

From Stdlib Require Import ZArith Lia.
From stdpp Require Import base tactics option list numbers.
From S2P Require Import Prelude.

#[local] Open Scope Z_scope.

Record Partitioned (T : Type) := MkPartitioned { pt_partitions : list T; pt_mask : Z }.
Arguments MkPartitioned {T}.
Arguments pt_partitions {T}.
Arguments pt_mask {T}.

(** [(lo..hi).map(|_| init()).collect()], with [n] the length of the range. *)
Fixpoint collect_init {E T} (n : nat) (init : res E T) : res E (list T) :=
  match n with
  | O => Ok []
  | S n => let? p := init in let? ps := collect_init n init in Ok (p :: ps)
  end.

(** [1 << partition_bit] of a [usize]. *)
Definition partition_num {E} (partition_bit : Z) : res E Z :=
  if (0 <=? partition_bit) && (partition_bit <? 64) then Ok (Z.shiftl 1 partition_bit) else Panic.

(** [PartitionedMutex::try_new] and [PartitionedMutexAsync::try_new]. *)
Definition mutex_try_new {E T} (init_fn : Z -> res E T) (partition_bit : Z) : res E (Partitioned T) :=
  let? num := partition_num partition_bit in
  let? partitions := collect_init (Z.to_nat num) (init_fn num) in
  Ok (MkPartitioned partitions (num - 1)).

(** [PartitionedRwLock::try_new], whose range starts at 1. *)
Definition rwlock_try_new {E T} (init_fn : Z -> res E T) (partition_bit : Z) : res E (Partitioned T) :=
  let? num := partition_num partition_bit in
  let? partitions := collect_init (Z.to_nat (num - 1)) (init_fn num) in
  Ok (MkPartitioned partitions (num - 1)).

Section locks.
Context {T E : Type}.
Implicit Types p : Partitioned T.

(** [get_partition], the same for the three locks, for the hash of the key. *)
Definition partition_index p (hash : Z) : nat := Z.to_nat (Z.land hash (pt_mask p)).
Definition get_partition p (hash : Z) : res E T := unwrap (pt_partitions p !! partition_index p hash).

(** [lock], with the state of the partition when the guard is dropped. *)
Definition with_partition p (hash : Z) (t : T) : Partitioned T :=
  MkPartitioned (<[partition_index p hash := t]> (pt_partitions p)) (pt_mask p).

(** The locks are as many as the masked hashes, and each guards a [P]. *)
Definition partitions_ok (P : T -> Prop) p : Prop :=
  (exists b, 0 <= b < 64 /\ pt_mask p = Z.ones b /\ length (pt_partitions p) = Z.to_nat (2 ^ b)) /\ Forall P (pt_partitions p).

Lemma collect_init_ok n (init : res E T) ps : collect_init n init = Ok ps ->
  length ps = n /\ Forall (fun t => init = Ok t) ps.
Proof.
  revert ps. induction n as [|n IH]; intros ps; cbn; [intros [= <-]; by split; [|constructor]|].
  destruct init as [t| |] eqn:Hi; cbn; [|done|done]. destruct (collect_init n (Ok t)) as [ts| |]; cbn; [|done|done].
  intros [= <-]. destruct (IH ts eq_refl) as [<- ?]. by split; [|constructor].
Qed.

Lemma collect_init_total n (t : T) : collect_init (E:=E) n (Ok t) = Ok (replicate n t).
Proof. induction n as [|n IH]; cbn; [done|]. by rewrite IH. Qed.


Lemma mutex_try_new_ok (init : Z -> res E T) b p : mutex_try_new init b = Ok p ->
  partitions_ok (fun t => init (2 ^ b) = Ok t) p.
Proof.
  unfold mutex_try_new, partition_num. destruct ((0 <=? b) && (b <? 64)) eqn:Hb; [|done].
  cbn. rewrite Z.shiftl_1_l. destruct (collect_init _ _) as [ps| |] eqn:Hc; [|done|done]. cbn. intros [= <-].
  apply collect_init_ok in Hc as [Hl Hf]. apply andb_true_iff in Hb as [?%Z.leb_le ?%Z.ltb_lt].
  split; [|done]. exists b. cbn. by rewrite Z.ones_equiv, Z.sub_1_r.
Qed.

Lemma land_ones_bound b h : 0 <= b -> 0 <= Z.land h (Z.ones b) < 2 ^ b.
Proof. intros Hb. rewrite Z.land_ones by lia. by apply Z.mod_pos_bound, Z.pow_pos_nonneg. Qed.

Lemma get_partition_ok P p h : partitions_ok P p -> exists t, get_partition p h = Ok t /\ P t /\
  forall t', P t' -> partitions_ok P (with_partition p h t').
Proof.
  intros [(b & Hb & Hm & Hl) HP]. pose proof (land_ones_bound b h ltac:(lia)).
  unfold get_partition, with_partition, partition_index. rewrite Hm.
  destruct (lookup_lt_is_Some_2 (pt_partitions p) (Z.to_nat (Z.land h (Z.ones b)))) as [t Ht]; [lia|].
  exists t. rewrite Ht. split_and!; [done|by eapply Forall_lookup_1|]. intros t' Ht'. split; [|by apply Forall_insert].
  exists b. cbn. by rewrite length_insert.
Qed.

(** A read-write lock built for any number of bits has no partition for the hashes
    whose low bits are all ones: locking such a key unwinds, and locking the others
    does not. *)
Lemma rwlock_misses_partition (init : Z -> res E T) t b p h :
  0 <= b < 64 -> init (2 ^ b) = Ok t -> rwlock_try_new init b = Ok p ->
  (get_partition p h = Panic <-> Z.land h (Z.ones b) = Z.ones b).
Proof.
  intros Hb Hi. unfold rwlock_try_new, partition_num. replace ((0 <=? b) && (b <? 64)) with true by lia. cbn.
  rewrite Z.shiftl_1_l, Hi, collect_init_total. cbn. intros [= <-]. unfold get_partition, partition_index. cbn.
  pose proof (land_ones_bound b h ltac:(lia)) as Hh. rewrite Z.ones_equiv, <- Z.sub_1_r in *.
  destruct (replicate _ _ !! _) as [x|] eqn:Hx; cbn.
  - apply lookup_replicate in Hx as [_ Hx]. split; [done|lia].
  - apply lookup_ge_None_1 in Hx. rewrite length_replicate in Hx. split; [lia|done].
Qed.
End locks.

(** With a single partition every access unwinds. *)
Lemma rwlock_single_partition {E} h : exists p, rwlock_try_new (E:=E) (fun _ => Ok tt) 0 = Ok p /\ get_partition (E:=E) p h = Panic.
Proof. by eexists. Qed.
