(* ===== verification/DiskCache.v ===== *)
(** * The disk cache of the object store

    [components/object_store/src/disk_cache.rs]: pages of objects kept as files of a
    directory, an LRU of their names per partition, an LRU of the sizes of objects.
    [get_range] awaits between its accesses of the cache and of the object store, so
    it is a task ([GetRange]) whose steps are those accesses, and tasks interleave
    ([cstep]).  The directory, the object store, the LRU and the encoding of a page
    are other crates: classes of their operations, with laws.  Left out: the calls
    that only forward to the underlying store other than [put] and [delete]. *)

From Stdlib Require Import ZArith Lia String Ascii.
From stdpp Require Import base tactics option list sorting numbers gmap strings pretty.
From S2P Require Import Prelude Strings Bytes BTree TableUnit PartitionedLock.

#[local] Open Scope Z_scope.

(** ** What the cache calls *)

(** [lru::LruCache] with names as keys. *)
Class Lru (L V : Type) := {
  lru_new : Z -> L;
  lru_cap : L -> Z;
  lru_len : L -> Z;
  lru_get : L -> string -> option V * L;
  lru_push : L -> string -> V -> L;
  lru_pop : L -> option (string * V) * L
}.
(** An LRU returns what was pushed, and forgets entries as it likes; only an empty
    one has nothing to pop. *)
Class LruLaws (L V : Type) `{Lru L V} := {
  lru_entries : L -> list (string * V);
  lru_new_law : forall n, lru_entries (lru_new n) = [] /\ lru_cap (lru_new n) = n;
  lru_len_law : forall l, lru_len l = Z.of_nat (length (lru_entries l));
  lru_get_law : forall l k o l', lru_get l k = (o, l') ->
    lru_entries l' ⊆ lru_entries l /\ lru_cap l' = lru_cap l /\ forall v, o = Some v -> (k, v) ∈ lru_entries l;
  lru_push_law : forall l k v, lru_entries (lru_push l k v) ⊆ (k, v) :: lru_entries l /\ lru_cap (lru_push l k v) = lru_cap l;
  lru_pop_law : forall l o l', lru_pop l = (o, l') ->
    lru_entries l' ⊆ lru_entries l /\ lru_cap l' = lru_cap l /\ (o = None -> lru_entries l = [])
}.

(** The directory of the cache.  [dir_open] opens for reading and writing and creates
    the file if there is none; [dir_write] fills a file just created. *)
Class CacheDir (D : Type) := {
  dir_read : D -> string -> option bytes;
  dir_open : D -> string -> D * option bytes;
  dir_create : D -> string -> D * bool;
  dir_write : D -> string -> bytes -> D * bool;
  dir_remove : D -> string -> D * bool;
  (** the entries read, and whether there was no error before the end *)
  dir_list : D -> option (list string * bool)
}.
(** A call that fails leaves the files alone, but a write that fails leaves a prefix. *)
Class CacheDirLaws (D : Type) `{CacheDir D} := {
  dir_files : D -> gmap string bytes;
  dir_read_law : forall d n b, dir_read d n = Some b -> dir_files d !! n = Some b;
  dir_open_law : forall d n d' o, dir_open d n = (d', o) ->
    match o with
    | Some b => dir_files d' = <[n := b]> (dir_files d) /\ b = default [] (dir_files d !! n)
    | None => dir_files d' = dir_files d
    end;
  dir_create_law : forall d n d' ok, dir_create d n = (d', ok) ->
    dir_files d' = if ok then <[n := []]> (dir_files d) else dir_files d;
  dir_write_law : forall d n b d' ok, dir_write d n b = (d', ok) ->
    exists k, dir_files d' = <[n := take k b]> (dir_files d) /\ (ok = true -> k = length b);
  dir_remove_law : forall d n d' ok, dir_remove d n = (d', ok) ->
    dir_files d' = if ok then delete n (dir_files d) else dir_files d
}.

(** The underlying object store. *)
Class ObjectStore (U E : Type) := {
  os_put : U -> string -> bytes -> U * res E unit;
  os_delete : U -> string -> U * res E unit;
  os_head : U -> string -> U * res E Z;
  os_get_range : U -> string -> Z * Z -> U * res E bytes
}.
Definition slice_of (o : bytes) (r : Z * Z) : bytes := take (Z.to_nat (r.2 - r.1)) (drop (Z.to_nat r.1) o).
(** Any call may fail; a read that succeeds is a read of the object that is there. *)
Class ObjectStoreLaws (U E : Type) `{ObjectStore U E} := {
  os_objects : U -> gmap string bytes;
  os_put_law : forall u l b u' r, os_put u l b = (u', r) -> os_objects u' = os_objects u \/ os_objects u' = <[l := b]> (os_objects u);
  os_delete_law : forall u l u' r, os_delete u l = (u', r) -> os_objects u' = os_objects u \/ os_objects u' = delete l (os_objects u);
  os_head_law : forall u l u' r, os_head u l = (u', r) ->
    os_objects u' = os_objects u /\ r <> Panic /\
    forall n, r = Ok n -> exists o, os_objects u !! l = Some o /\ n = Z.of_nat (length o);
  os_get_range_law : forall u l g u' r, os_get_range u l g = (u', r) ->
    os_objects u' = os_objects u /\ r <> Panic /\
    forall b, r = Ok b -> exists o, os_objects u !! l = Some o /\
      (0 <= g.1 <= g.2 /\ g.2 <= Z.of_nat (length o) -> b = slice_of o g)
}.

(** The message [oss_cache::Bytes], its checksum and its bytes.  In proto3 an empty
    buffer is a message whose fields have their defaults. *)
Class PageCodec := {
  checksum : bytes -> Z;
  pb_encode : Z * bytes -> bytes;
  pb_decode : bytes -> option (Z * bytes);
  pb_roundtrip : forall m, pb_decode (pb_encode m) = Some m;
  pb_decode_empty : pb_decode [] = Some (0, [])
}.

(** ** The code *)

Definition MANIFEST_FILE : string := "manifest.json".
Definition CURRENT_VERSION : Z := 1.

(** [Error]; [Underlying] is an error of the object store, of the same type in the source. *)
Inductive DiskCacheError (E : Type) :=
| DcIo (file : string)
| DcDeserializeManifest
| DcSerializeManifest
| DcInvalidManifest (old new : Z)
| DcPersistCache (file : string)
| DcDecodeCache (file : string)
| DcInvalidCapacity
| DcUnderlying (e : E).
Arguments DcIo {E}.
Arguments DcDeserializeManifest {E}.
Arguments DcSerializeManifest {E}.
Arguments DcInvalidManifest {E}.
Arguments DcPersistCache {E}.
Arguments DcDecodeCache {E}.
Arguments DcInvalidCapacity {E}.
Arguments DcUnderlying {E}.

(** The struct [Manifest] of the cache directory. *)
Record CacheManifest := MkCacheManifest { cm_create_at : string; cm_page_size : Z; cm_version : Z }.

(** [usize] division and subtraction, and [Bytes::slice]. *)
Definition usize_div {E} (a b : Z) : res E Z := if b =? 0 then Panic else Ok (a / b).
Definition usize_sub {E} (a b : Z) : res E Z := u64_op (a - b).
Definition bytes_slice {E} (b : bytes) (r : Z * Z) : res E bytes :=
  if (0 <=? r.1) && (r.1 <=? r.2) && (r.2 <=? Z.of_nat (length b)) then Ok (slice_of b r) else Panic.

(** [str::replace('/', "-")]. *)
Definition slash_to_dash (c : ascii) : ascii := if decide (c = "/"%char) then "-"%char else c.
Definition cache_key (location : string) (range : Z * Z) : string :=
  string_of_list_ascii (slash_to_dash <$> chars location) +:+ "-" +:+ pretty (Z.to_N range.1) +:+ "-" +:+ pretty (Z.to_N range.2).

(** The starts of a [step_by], each mapped to its page. *)
Fixpoint step_pages {E} (n : nat) (start page_size max_size : Z) : res E (list (Z * Z)) :=
  match n with
  | O => Ok []
  | S n =>
      let? stop := u64_op (start + page_size) in
      let? rest := step_pages n stop page_size max_size in
      Ok ((start, Z.min stop max_size) :: rest)
  end.
Definition normalize_range {E} (page_size max_size : Z) (range : Z * Z) : res E (list (Z * Z)) :=
  let? s := usize_div range.1 page_size in
  let? start := u64_op (s * page_size) in
  let? t := u64_op (range.2 + page_size) in
  let? t := usize_sub t 1 in
  let? e := usize_div t page_size in
  let? stop := u64_op (e * page_size) in
  let last := Z.min stop max_size in
  step_pages (Z.to_nat ((last - start + page_size - 1) / page_size)) start page_size max_size.

(** The end of [get_range]: the pages put together. *)
Definition assemble {E} (range : Z * Z) (ranged_bytes : btree Z bytes) : res E bytes :=
  match ranged_bytes with
  | [(range_start, bytes)] =>
      let? lo := usize_sub range.1 range_start in
      let? hi := usize_sub range.2 range_start in
      bytes_slice bytes (lo, hi)
  | _ =>
      let? _ := usize_sub range.2 range.1 in
      match ranged_bytes with
      | [] => Panic
      | (range_start, bytes) :: rest =>
          let? lo := usize_sub range.1 range_start in
          let? first := bytes_slice bytes (lo, Z.of_nat (length bytes)) in
          match last rest with
          | None => Panic
          | Some (range_start, bytes) =>
              let? hi := usize_sub range.2 range_start in
              let? last_part := bytes_slice bytes (0, hi) in
              Ok (first ++ concat (removelast rest).*2 ++ last_part)
          end
      end
  end.

(** [analytic_engine/src/table/sst_util.rs]: where the files of a table are. *)
Definition sst_file_name (id : Z) : string := pretty (Z.to_N id) +:+ "." +:+ "sst".
Definition new_sst_file_path (space_id table_id file_id : Z) : string :=
  pretty (Z.to_N space_id) +:+ "/" +:+ pretty (Z.to_N table_id) +:+ "/" +:+ sst_file_name file_id.

Section store.
Context {L LS D U E : Type} {LU : Lru L unit} {LZ : Lru LS Z} {CD : CacheDir D} {OS : ObjectStore U E} {PC : PageCodec}.
(** [SeaHasher] of a string, and the JSON of the manifest. *)
Context (sea_hash : string -> Z) {JM : JsonCodec CacheManifest}.

Abbreviation error := (DiskCacheError E).
(** [DiskCache]; its [root_dir] is the directory [D] that the calls pass on. *)
Abbreviation DiskCache := (Partitioned L).

(** *** [DiskCache] *)
Definition init_lru (cap num : Z) : res error L :=
  let? cap_per_part := usize_div cap num in
  let? _ := ensure (negb (cap_per_part =? 0)) DcInvalidCapacity in
  Ok (lru_new cap_per_part).
Definition disk_cache_try_new (cap partition_bits : Z) : res error DiskCache :=
  mutex_try_new (init_lru cap) partition_bits.

Definition persist_bytes (d : D) (filename : string) (value : bytes) : D * res error unit :=
  let '(d, created) := dir_create d filename in
  if negb created then (d, Err (DcIo filename)) else
  let '(d, written) := dir_write d filename (pb_encode (checksum value, value)) in
  (d, if written then Ok tt else Err (DcPersistCache filename)).

Definition read_bytes (d : D) (filename : string) : res error bytes :=
  match dir_read d filename with
  | None => Err (DcIo filename)
  | Some buf => match pb_decode buf with None => Err (DcDecodeCache filename) | Some m => Ok m.2 end
  end.

(** Under the lock of the partition: make room. *)
Definition evict (l : L) (d : D) : res error (L * D) :=
  if lru_cap l <=? lru_len l then
    let '(popped, l) := lru_pop l in
    let? kv := unwrap popped in
    Ok (l, (dir_remove d kv.1).1)
  else Ok (l, d).
(** [update_cache]: whether it succeeded, with the cache and the directory after it. *)
Definition update_cache (c : DiskCache) (d : D) (key : string) (value : option bytes) : res error (DiskCache * D * bool) :=
  let? l := get_partition c (sea_hash key) in
  let? (l, d) := evict l d in
  let '(d, persisted) := match value with
    | Some value => let '(d, r) := persist_bytes d key value in (d, match r with Ok _ => true | _ => false end)
    | None => (d, true)
    end in
  if persisted then Ok (with_partition c (sea_hash key) (lru_push l key tt), d, true)
  else Ok (with_partition c (sea_hash key) l, d, false).
Definition cache_insert c d key (value : bytes) := update_cache c d key (Some value).
Definition cache_recover c d filename := update_cache c d filename None.
(** [DiskCache::get]: an error of [read_bytes] is a miss. *)
Definition cache_get (c : DiskCache) (d : D) (key : string) : res error (DiskCache * option bytes) :=
  let? l := get_partition c (sea_hash key) in
  let '(found, l) := lru_get l key in
  let c := with_partition c (sea_hash key) l in
  Ok (c, match found with
         | Some _ => match read_bytes d key with Ok v => Some v | _ => None end
         | None => None
         end).

(** *** [DiskCacheStore] *)
Record DiskCacheStore := MkDiskCacheStore {
  ds_cache : DiskCache;
  ds_cap : Z;
  ds_page_size : Z;
  ds_size_cache : LS
}.

Definition create_manifest_if_not_exists (d : D) (now : string) (page_size : Z) : D * res error CacheManifest :=
  match dir_open d MANIFEST_FILE with
  | (d, None) => (d, Err (DcIo MANIFEST_FILE))
  | (d, Some []) =>
      let manifest := MkCacheManifest now page_size CURRENT_VERSION in
      match json_encode manifest with
      | None => (d, Err DcSerializeManifest)
      | Some buf =>
          let '(d, written) := dir_write d MANIFEST_FILE buf in
          (d, if written then Ok manifest else Err (DcIo MANIFEST_FILE))
      end
  | (d, Some buf) =>
      (d, match json_decode buf with
          | None => Err DcDeserializeManifest
          | Some manifest =>
              let? _ := ensure (cm_page_size manifest =? page_size) (DcInvalidManifest (cm_page_size manifest) page_size) in
              Ok manifest
          end)
  end.

Fixpoint recover_files (c : DiskCache) (d : D) (names : list string) : res error (DiskCache * D) :=
  match names with
  | [] => Ok (c, d)
  | filename :: names =>
      if decide (filename = MANIFEST_FILE) then recover_files c d names
      else let? (c, d, _) := cache_recover c d filename in recover_files c d names
  end.
Definition recover_cache (c : DiskCache) (d : D) : D * res error DiskCache :=
  match dir_list d with
  | None => (d, Err (DcIo "cache_dir"))
  | Some (names, complete) =>
      match recover_files c d names with
      | Ok (c, d) => (d, if complete then Ok c else Err (DcIo "entry when iter cache_dir"))
      | Err e => (d, Err e)
      | Panic => (d, Panic)
      end
  end.

(** [DiskCacheStore::try_new]; the directory keeps what a failed call did to it. *)
Definition store_try_new (d : D) (now : string) (cap page_size partition_bits : Z) : D * res error DiskCacheStore :=
  match (let? page_num := usize_div cap page_size in
         let? _ := ensure (negb (page_num =? 0)) DcInvalidCapacity in Ok page_num) with
  | Err e => (d, Err e)
  | Panic => (d, Panic)
  | Ok page_num =>
      let '(d, m) := create_manifest_if_not_exists d now page_size in
      match (let? _ := m in disk_cache_try_new page_num partition_bits) with
      | Err e => (d, Err e)
      | Panic => (d, Panic)
      | Ok cache =>
          let '(d, r) := recover_cache cache d in
          (d, let? cache := r in Ok (MkDiskCacheStore cache cap page_size (lru_new page_num)))
      end
  end.

(** Where a call of [get_range] is: its next access of the size cache, of the object
    store or of the cache. *)
Inductive GetRange :=
| GrSize
| GrHead
| GrPutSize (size : Z)
| GrLookup (aligned_ranges missing_ranges : list (Z * Z)) (ranged_bytes : btree Z bytes)
| GrFetch (missing_ranges : list (Z * Z)) (ranged_bytes : btree Z bytes)
| GrInsert (range : Z * Z) (page : bytes) (missing_ranges : list (Z * Z)) (ranged_bytes : btree Z bytes)
| GrDone (r : res error bytes).
Record Call := MkCall { gr_location : string; gr_range : Z * Z; gr_at : GetRange }.

(** What the process runs on. *)
Record World := MkWorld { w_dir : D; w_os : U }.

Definition with_size (s : DiskCacheStore) (range : Z * Z) (file_size : Z) : GetRange :=
  match normalize_range (ds_page_size s) file_size range with
  | Ok aligned_ranges => GrLookup aligned_ranges [] []
  | Err e => GrDone (Err e)
  | Panic => GrDone Panic
  end.
Definition with_cache (s : DiskCacheStore) c : DiskCacheStore := MkDiskCacheStore c (ds_cap s) (ds_page_size s) (ds_size_cache s).
Definition with_sizes (s : DiskCacheStore) m : DiskCacheStore := MkDiskCacheStore (ds_cache s) (ds_cap s) (ds_page_size s) m.

(** One step of [get_range]. *)
Definition get_range_step (s : DiskCacheStore) (w : World) (location : string) (range : Z * Z) (pc : GetRange)
    : DiskCacheStore * World * GetRange :=
  match pc with
  | GrSize =>
      let '(o, sizes) := lru_get (ds_size_cache s) location in
      (with_sizes s sizes, w, match o with Some size => with_size s range size | None => GrHead end)
  | GrHead =>
      let '(u, r) := os_head (w_os w) location in
      (s, MkWorld (w_dir w) u,
       match r with Ok size => GrPutSize size | Err e => GrDone (Err (DcUnderlying e)) | Panic => GrDone Panic end)
  | GrPutSize size =>
      (with_sizes s (lru_push (ds_size_cache s) location size), w, with_size s range size)
  | GrLookup [] missing ranged => (s, w, GrFetch missing ranged)
  | GrLookup (r :: todo) missing ranged =>
      match cache_get (ds_cache s) (w_dir w) (cache_key location r) with
      | Ok (c, Some bytes) => (with_cache s c, w, GrLookup todo missing (bt_insert Z.compare r.1 bytes ranged))
      | Ok (c, None) => (with_cache s c, w, GrLookup todo (missing ++ [r]) ranged)
      | Err e => (s, w, GrDone (Err e))
      | Panic => (s, w, GrDone Panic)
      end
  | GrFetch [] ranged => (s, w, GrDone (assemble range ranged))
  | GrFetch (r :: missing) ranged =>
      let '(u, b) := os_get_range (w_os w) location r in
      (s, MkWorld (w_dir w) u,
       match b with Ok bytes => GrInsert r bytes missing ranged | Err e => GrDone (Err (DcUnderlying e)) | Panic => GrDone Panic end)
  | GrInsert r bytes missing ranged =>
      match cache_insert (ds_cache s) (w_dir w) (cache_key location r) bytes with
      | Ok (c, d, _) => (with_cache s c, MkWorld d (w_os w), GrFetch missing (bt_insert Z.compare r.1 bytes ranged))
      | Err e => (s, w, GrDone (Err e))
      | Panic => (s, w, GrDone Panic)
      end
  | GrDone r => (s, w, GrDone r)
  end.
(** A call that no other one interrupts, for a number of steps. *)
Fixpoint run_get_range (n : nat) (s : DiskCacheStore) (w : World) (location : string) (range : Z * Z) (pc : GetRange)
    : DiskCacheStore * World * GetRange :=
  match n with
  | O => (s, w, pc)
  | S n => let '(s, w, pc) := get_range_step s w location range pc in run_get_range n s w location range pc
  end.

(** *** The process
    Up, with its calls, or down.  Objects are written once: a [put] writes the bytes that
    [objects] has for the location. *)
Inductive Process :=
| Up (s : DiskCacheStore) (w : World) (calls : list Call)
| Down (w : World).
Inductive cstep (objects : gmap string bytes) : Process -> Process -> Prop :=
| cs_call s w calls location range :
    0 <= range.1 <= range.2 -> cstep objects (Up s w calls) (Up s w (calls ++ [MkCall location range GrSize]))
| cs_step s w calls i location range pc s' w' pc' :
    calls !! i = Some (MkCall location range pc) -> get_range_step s w location range pc = (s', w', pc') ->
    cstep objects (Up s w calls) (Up s' w' (<[i := MkCall location range pc']> calls))
| cs_put s w calls location bytes u r :
    objects !! location = Some bytes -> os_put (w_os w) location bytes = (u, r) ->
    cstep objects (Up s w calls) (Up s (MkWorld (w_dir w) u) calls)
| cs_delete s w calls location u r :
    os_delete (w_os w) location = (u, r) -> cstep objects (Up s w calls) (Up s (MkWorld (w_dir w) u) calls)
| cs_stop s w calls : cstep objects (Up s w calls) (Down w)
| cs_open w now cap page_size partition_bits d s :
    0 <= page_size -> 0 <= cap -> store_try_new (w_dir w) now cap page_size partition_bits = (d, Ok s) ->
    cstep objects (Down w) (Up s (MkWorld d (w_os w)) [])
| cs_open_fails w now cap page_size partition_bits d e :
    0 <= page_size -> 0 <= cap -> store_try_new (w_dir w) now cap page_size partition_bits = (d, Err e) ->
    cstep objects (Down w) (Down (MkWorld d (w_os w))).
End store.
