(* ===== verification/DiskCacheReads.v ===== *)
(** * Reads through the disk cache

    Theorems about [DiskCache.v].  The pages of a range, put together, are the range
    ([assemble_pages]).  [process_ok] is the invariant of a process with any number of
    calls of [get_range] under way, stopped and opened again at any time, on an object
    store that may fail and in which a location is written once; the underlying calls
    keep their laws.  A call returns after finitely many of its own steps.  At the end,
    an implementation of what the cache calls, with which the theorems are applied. *)

From Stdlib Require Import ZArith Lia String Ascii.
From stdpp Require Import base tactics option list sorting numbers gmap strings pretty relations.
From S2P Require Import Prelude Strings Bytes BTree TableUnit PartitionedLock DiskCache.

#[local] Open Scope Z_scope.

(** ** Pages *)
Lemma slice_of_length o r : 0 <= r.1 <= r.2 -> r.2 <= Z.of_nat (length o) -> Z.of_nat (length (slice_of o r)) = r.2 - r.1.
Proof. intros. unfold slice_of. rewrite length_take, length_drop. lia. Qed.
Lemma slice_of_app o a b c : 0 <= a <= b -> b <= c -> slice_of o (a, b) ++ slice_of o (b, c) = slice_of o (a, c).
Proof.
  intros. unfold slice_of. cbn. replace (Z.to_nat b) with (Z.to_nat a + Z.to_nat (b - a))%nat by lia.
  rewrite <- drop_drop. replace (Z.to_nat (c - a)) with (Z.to_nat (b - a) + Z.to_nat (c - b))%nat by lia.
  apply take_take_drop.
Qed.
Lemma slice_of_slice o a b s e : 0 <= a <= s -> s <= e -> e <= b -> slice_of (slice_of o (a, b)) (s - a, e - a) = slice_of o (s, e).
Proof.
  intros. unfold slice_of. cbn. rewrite skipn_firstn_comm, take_take, drop_drop. f_equal; [lia|]. f_equal. lia.
Qed.
Lemma slice_of_all o : slice_of o (0, Z.of_nat (length o)) = o.
Proof. unfold slice_of. cbn. rewrite Z.sub_0_r, Nat2Z.id, firstn_all. done. Qed.
Lemma bytes_slice_ok {E} b lo hi : 0 <= lo <= hi -> hi <= Z.of_nat (length b) -> bytes_slice (E:=E) b (lo, hi) = Ok (slice_of b (lo, hi)).
Proof. intros. unfold bytes_slice. cbn [fst snd]. destruct (_ && _) eqn:Hb; [done|lia]. Qed.
Lemma bytes_slice_panic {E} b lo hi : Z.of_nat (length b) < hi -> bytes_slice (E:=E) b (lo, hi) = Panic.
Proof. intros. unfold bytes_slice. cbn [fst snd]. destruct (_ && _) eqn:Hb; [lia|done]. Qed.
Lemma usize_sub_ok {E} a b : b <= a -> 0 <= b -> a < 2 ^ 64 -> usize_sub (E:=E) a b = Ok (a - b).
Proof. intros. unfold usize_sub, u64_op. by rewrite (proj2 (uintb_spec 64 _)) by (unfold uint; lia). Qed.

(** [k] pages of [p] bytes from [a], of an object of [n] bytes. *)
Fixpoint pages_at (k : nat) (a p n : Z) : list (Z * Z) :=
  match k with O => [] | S k => (a, Z.min (a + p) n) :: pages_at k (a + p) p n end.

Lemma step_pages_ok {E} k a p n : 0 <= a -> 0 < p -> a + Z.of_nat k * p < 2 ^ 64 ->
  step_pages (E:=E) k a p n = Ok (pages_at k a p n).
Proof.
  revert a. induction k as [|k IH]; intros a Ha Hp Hb; cbn [step_pages pages_at]; [done|].
  unfold u64_op. rewrite (proj2 (uintb_spec 64 _)) by (unfold uint; nia). cbn. by rewrite IH by lia.
Qed.

Lemma elem_pages_at k a p n r : 0 < p -> r ∈ pages_at k a p n ->
  a <= r.1 < a + Z.of_nat k * p /\ r.2 = Z.min (r.1 + p) n /\ r.1 <= a + (Z.of_nat k - 1) * p.
Proof.
  intros Hp. revert a. induction k as [|k IH]; intros a Hr; cbn in Hr; [by apply elem_of_nil in Hr|].
  apply elem_of_cons in Hr as [->|Hr]; cbn; [nia|]. apply IH in Hr as (? & ? & ?). nia.
Qed.

Lemma pages_at_sorted {A} (f : Z * Z -> A) k a p n : 0 < p -> StronglySorted (fun x y => Z.compare x.1 y.1 = Lt) ((fun r => (r.1, f r)) <$> pages_at k a p n).
Proof.
  intros Hp. revert a. induction k as [|k IH]; intros a; cbn; constructor; [apply IH|].
  apply Forall_fmap, Forall_forall. intros r Hr%elem_pages_at; [|done]. cbn. change (a < r.1). lia.
Qed.

Lemma pages_at_concat o k a p n : 0 <= a -> 0 < p -> n = Z.of_nat (length o) -> a + Z.of_nat k * p <= n ->
  concat (slice_of o <$> pages_at k a p n) = slice_of o (a, a + Z.of_nat k * p).
Proof.
  intros Ha Hp Hn. revert a Ha. induction k as [|k IH]; intros a Ha Hb; cbn.
  - unfold slice_of. cbn. by rewrite Z.add_0_r, Z.sub_diag.
  - change (concat ((slice_of o) <$> ?l)) with (concat (slice_of o <$> l)). rewrite IH by nia. rewrite Z.min_l by nia.
    rewrite slice_of_app by nia. f_equal. f_equal. lia.
Qed.

Lemma pages_at_snoc k a p n : pages_at (S k) a p n = pages_at k a p n ++ [(a + Z.of_nat k * p, Z.min (a + Z.of_nat k * p + p) n)].
Proof.
  revert a. induction k as [|k IH]; intros a; [cbn; by rewrite Z.add_0_r|].
  change (pages_at (S (S k)) a p n) with ((a, Z.min (a + p) n) :: pages_at (S k) (a + p) p n). rewrite IH. cbn [pages_at app].
  by replace (a + p + Z.of_nat k * p) with (a + Z.of_nat (S k) * p) by lia.
Qed.

(** The pages that cover a range: [k] of them from [a]. *)
Definition covers (p n : Z) (range : Z * Z) (a : Z) (k : nat) : Prop :=
  a = range.1 / p * p /\
  let stop := (range.2 + p - 1) / p * p in
  Z.of_nat k = Z.max 0 ((Z.min stop n - a + p - 1) / p).

Lemma normalize_range_spec {E} p n range : 0 < p -> 0 <= n < 2 ^ 64 -> 0 <= range.1 <= range.2 ->
  if bool_decide (range.2 + p < 2 ^ 64) then
    exists a k, covers p n range a k /\ normalize_range (E:=E) p n range = Ok (pages_at k a p n)
  else normalize_range (E:=E) p n range = Panic.
Proof.
  intros Hp Hn Hr. unfold normalize_range, usize_div, usize_sub, u64_op. replace (p =? 0) with false by lia. cbn [rbind].
  assert (0 <= range.1 / p * p <= range.1) as Ha.
  { pose proof (Z.div_mod range.1 p ltac:(lia)). pose proof (Z.mod_pos_bound range.1 p Hp). pose proof (Z.div_pos range.1 p ltac:(lia) Hp). nia. }
  case_bool_decide as Hb.
  - rewrite (proj2 (uintb_spec 64 _)) by (unfold uint; lia). cbn [rbind].
    rewrite (proj2 (uintb_spec 64 _)) by (unfold uint; lia). cbn [rbind].
    rewrite (proj2 (uintb_spec 64 _)) by (unfold uint; lia). cbn [rbind].
    set (t := range.2 + p - 1). assert (0 <= t / p * p <= t) as Ht.
    { pose proof (Z.div_mod t p ltac:(lia)). pose proof (Z.mod_pos_bound t p Hp). pose proof (Z.div_pos t p ltac:(lia) Hp). nia. }
    rewrite (proj2 (uintb_spec 64 _)) by (unfold uint; lia). cbn [rbind].
    eexists _, (Z.to_nat ((Z.min (t / p * p) n - range.1 / p * p + p - 1) / p)). split.
    { split; [done|]. cbn. fold t. lia. }
    apply step_pages_ok; [lia|lia|].
    assert ((Z.min (t / p * p) n - range.1 / p * p + p - 1) / p < t / p - range.1 / p + 1); [apply Z.div_lt_upper_bound; nia|]. nia.
  - destruct (uintb 64 (range.1 / p * p)) eqn:Hu; [|done]. cbn [rbind].
    destruct (uintb 64 (range.2 + p)) eqn:Hv; [|done]. apply uintb_spec in Hv. unfold uint in Hv. lia.
Qed.

Lemma covers_facts p n range a k : 0 < p -> 0 <= n -> 0 <= range.1 <= range.2 -> covers p n range a k ->
  0 <= a <= range.1 /\ range.1 < a + p /\
  (k = O -> n < range.2 \/ range.1 = range.2 /\ range.1 mod p = 0) /\
  (k <> O -> a + (Z.of_nat k - 1) * p < Z.min range.2 n /\ (range.2 <= n -> range.2 <= a + Z.of_nat k * p) /\
             ~ (range.1 = range.2 /\ range.1 mod p = 0)).
Proof.
  intros Hp Hn Hr [-> Hk]. cbn in Hk. set (e := (range.2 + p - 1) / p) in *. set (q := range.1 / p) in *.
  pose proof (Z.div_mod range.1 p ltac:(lia)) as Hq. fold q in Hq. pose proof (Z.mod_pos_bound range.1 p Hp).
  pose proof (Z.div_pos range.1 p ltac:(lia) Hp) as Hq0. fold q in Hq0.
  pose proof (Z.div_mod (range.2 + p - 1) p ltac:(lia)) as He. fold e in He. pose proof (Z.mod_pos_bound (range.2 + p - 1) p Hp).
  set (x := Z.min (e * p) n - q * p + p - 1) in *.
  pose proof (Z.div_mod x p ltac:(lia)) as Hx. pose proof (Z.mod_pos_bound x p Hp) as Hxm. set (y := x / p) in *.
  split_and!; [nia|nia|nia| |]; intros Hk0.
  - assert (y <= 0) by lia. assert (Z.min (e * p) n <= q * p) by nia.
    destruct (decide (n < range.2)); [by left|right]. assert (range.1 = range.2) by nia. split; [done|]. nia.
  - assert (Z.of_nat k = y) as -> by lia. split_and!; [|nia|].
    + assert (1 <= y) by lia. assert (q * p + (y - 1) * p < Z.min (e * p) n) by nia.
      assert (q + (y - 1) < e) by nia. assert ((q + (y - 1) + 1) * p <= e * p) by nia. nia.
    + intros [Hse Hz]. assert (e = q); [|nia]. assert (p * e < p * (q + 1)) by nia. assert (p * (q - 1) < p * e) by nia. nia.
Qed.

Lemma assemble_many {E} range a x l b y :
  assemble (E:=E) range ((a, x) :: l ++ [(b, y)]) =
  (let? _ := usize_sub range.2 range.1 in
   let? lo := usize_sub range.1 a in
   let? first := bytes_slice x (lo, Z.of_nat (length x)) in
   let? hi := usize_sub range.2 b in
   let? last_part := bytes_slice y (0, hi) in
   Ok (first ++ concat l.*2 ++ last_part)).
Proof.
  pose proof (last_snoc (b, y) l) as Hl. pose proof (removelast_last l (b, y)) as Hr.
  unfold assemble. destruct (l ++ [(b, y)]) as [|z l'] eqn:Heq; [by destruct l|]. by rewrite Hl, Hr.
Qed.

(** Putting the pages of an object together gives the range asked for, and unwinds if
    the range ends after the object or is empty at the start of a page. *)
Lemma assemble_pages {E} o p range a k : 0 < p -> 0 <= range.1 <= range.2 -> range.2 < 2 ^ 64 ->
  covers p (Z.of_nat (length o)) range a k ->
  let r := assemble (E:=E) range ((fun r => (r.1, slice_of o r)) <$> pages_at k a p (Z.of_nat (length o))) in
  if bool_decide (Z.of_nat (length o) < range.2 \/ range.1 = range.2 /\ range.1 mod p = 0) then r = Panic else r = Ok (slice_of o range).
Proof.
  intros Hp Hr Hb Hc. set (n := Z.of_nat (length o)) in *. destruct (covers_facts p n range a k Hp ltac:(lia) Hr Hc) as (Ha & Has & H0 & H1).
  destruct range as [s e]. cbn [fst snd] in *. destruct k as [|k].
  { rewrite bool_decide_true by auto. cbn. rewrite usize_sub_ok by lia. done. }
  destruct (H1 ltac:(lia)) as (Hlt & Hle & Hne). rewrite pages_at_snoc. set (b := a + Z.of_nat k * p) in *.
  assert (b < Z.min e n) as Hb' by nia. destruct k as [|k].
  - cbn. replace b with a in * by lia. rewrite !usize_sub_ok by lia. cbn.
    pose proof (slice_of_length o (a, Z.min (a + p) n) ltac:(cbn; lia) ltac:(cbn; lia)) as Hlen. cbn [fst snd] in Hlen. case_bool_decide as Hd.
    + apply bytes_slice_panic. lia.
    + rewrite bytes_slice_ok by lia. f_equal. apply slice_of_slice; lia.
  - change (pages_at (S k) a p n) with ((a, Z.min (a + p) n) :: pages_at k (a + p) p n).
    rewrite fmap_app. cbn [fmap list_fmap app fst snd]. rewrite assemble_many. cbn [fst snd].
    assert (a + p <= b) by (unfold b; nia). rewrite Z.min_l by lia. rewrite !usize_sub_ok by lia. cbn [rbind].
    rewrite (slice_of_length o (a, a + p)) by (cbn; lia). cbn [fst snd].
    rewrite bytes_slice_ok by (rewrite ?slice_of_length; cbn; lia). cbn [rbind].
    pose proof (slice_of_length o (b, Z.min (b + p) n) ltac:(cbn; lia) ltac:(cbn; lia)) as Hlen. cbn [fst snd] in Hlen.
    case_bool_decide as Hd; [by rewrite bytes_slice_panic by lia|]. rewrite bytes_slice_ok by lia. cbn [rbind]. f_equal.
    rewrite (slice_of_slice o a (a + p) s (a + p)) by lia.
    replace (0, e - b) with (b - b, e - b) by (f_equal; lia). rewrite slice_of_slice by lia.
    rewrite <- list_fmap_compose. change (snd ∘ (fun r : Z * Z => (r.1, slice_of o r))) with (slice_of o).
    rewrite pages_at_concat by (unfold b in *; nia). replace (a + p + Z.of_nat k * p) with b by (unfold b; lia).
    by rewrite app_assoc, !slice_of_app by lia.
Qed.

(** ** Names of pages *)
Definition undashed (location : string) : Prop := "-"%char ∉ chars location.

Lemma dash_not_digit (n : N) : "-"%char ∉ chars (pretty n).
Proof. apply digits_avoid; [vm_compute; naive_solver|apply digits_pretty]. Qed.
Lemma slash_to_dash_inj (l1 l2 : list ascii) : "-"%char ∉ l1 -> "-"%char ∉ l2 -> slash_to_dash <$> l1 = slash_to_dash <$> l2 -> l1 = l2.
Proof.
  revert l2. induction l1 as [|c1 l1 IH]; intros [|c2 l2] H1 H2 Heq; cbn in Heq; [done|done|done|].
  injection Heq as Hc Hl. rewrite not_elem_of_cons in H1, H2. f_equal; [|by apply IH; naive_solver].
  unfold slash_to_dash in Hc. repeat case_decide; naive_solver.
Qed.
Lemma chars_cache_key location r : chars (cache_key location r) =
  ((slash_to_dash <$> chars location) ++ "-"%char :: chars (pretty (Z.to_N r.1))) ++ "-"%char :: chars (pretty (Z.to_N r.2)).
Proof. unfold cache_key. rewrite !chars_app, list_ascii_of_string_of_list_ascii, <- !app_assoc. done. Qed.
Lemma cache_key_inj l1 r1 l2 r2 : undashed l1 -> undashed l2 -> 0 <= r1.1 -> 0 <= r1.2 -> 0 <= r2.1 -> 0 <= r2.2 ->
  cache_key l1 r1 = cache_key l2 r2 -> l1 = l2 /\ r1 = r2.
Proof.
  intros H1 H2 ? ? ? ? Heq%(f_equal chars). rewrite !chars_cache_key in Heq.
  apply last_sep in Heq as [Heq He%chars_inj]; [|apply dash_not_digit|apply dash_not_digit].
  apply last_sep in Heq as [Heq Hs%chars_inj]; [|apply dash_not_digit|apply dash_not_digit].
  apply slash_to_dash_inj, chars_inj in Heq; [|done|done]. split; [done|].
  apply (inj pretty) in He, Hs. destruct r1, r2; cbn in *. f_equal; lia.
Qed.
Lemma cache_key_not_manifest location r : cache_key location r <> MANIFEST_FILE.
Proof.
  intros Heq%(f_equal chars). rewrite chars_cache_key in Heq. assert ("-"%char ∈ chars MANIFEST_FILE) as Hin.
  { rewrite <- Heq. apply elem_of_app. right. by left. }
  revert Hin. apply (bool_decide_unpack _). by vm_compute.
Qed.

(** The files of tables are at locations without dashes. *)
Lemma sst_path_undashed space_id table_id file_id : undashed (new_sst_file_path space_id table_id file_id).
Proof.
  unfold undashed, new_sst_file_path, sst_file_name. rewrite !chars_app, !not_elem_of_app.
  split_and!; try apply dash_not_digit; apply (bool_decide_unpack _); by vm_compute.
Qed.

(** ** Reads through the cache *)
Section reads.
Context {L LS D U E : Type} {LU : Lru L unit} {LUL : LruLaws L unit} {LZ : Lru LS Z} {LZL : LruLaws LS Z}.
Context {CD : CacheDir D} {CDL : CacheDirLaws D} {OS : ObjectStore U E} {OSL : ObjectStoreLaws U E} {PC : PageCodec}.
Context (sea_hash : string -> Z) {JM : JsonCodec CacheManifest}.
(** What is written at each location, ever. *)
Context (objects : gmap string bytes).
Hypothesis objects_undashed : forall location o, objects !! location = Some o -> undashed location.
Hypothesis objects_sized : forall location o, objects !! location = Some o -> Z.of_nat (length o) < 2 ^ 64.
(** A file that was created is filled. *)
Hypothesis writes_complete : forall d n b, (dir_write (D:=D) d n b).2 = true.

Abbreviation store := (DiskCacheStore (L:=L) (LS:=LS)).
Abbreviation error := (DiskCacheError E).

(** A file named as a page, if it decodes, has the bytes of the page. *)
Definition files_ok (f : gmap string bytes) : Prop :=
  forall location o r raw m, objects !! location = Some o -> 0 <= r.1 -> 0 <= r.2 ->
    f !! cache_key location r = Some raw -> pb_decode raw = Some m -> m.2 = slice_of o r.
Definition has_size (location : string) (n : Z) : Prop := exists o, objects !! location = Some o /\ n = Z.of_nat (length o).
Definition world_ok (w : World (D:=D) (U:=U)) : Prop := files_ok (dir_files (w_dir w)) /\ os_objects (w_os w) ⊆ objects.
Definition lru_ok (l : L) : Prop := 0 < lru_cap l.
Record store_ok (s : store) : Prop := {
  so_cache : partitions_ok lru_ok (ds_cache s);
  so_sizes : forall location n, (location, n) ∈ lru_entries (ds_size_cache s) -> has_size location n;
  so_page : 0 < ds_page_size s
}.

(** What a read through the cache gives: an error of the underlying store, the range
    of the object, or it unwinds. *)
Definition read_ok (p : Z) (location : string) (range : Z * Z) (r : res error bytes) : Prop :=
  match r with
  | Ok b => exists o, objects !! location = Some o /\ range.2 <= Z.of_nat (length o) /\ b = slice_of o range
  | Err e => exists e', e = DcUnderlying e'
  | Panic => 2 ^ 64 <= range.2 + p \/
      exists o, objects !! location = Some o /\ (Z.of_nat (length o) < range.2 \/ range.1 = range.2 /\ range.1 mod p = 0)
  end.

(** What a call has, while the pages [todo] are left: the others. *)
Record pages_ok (p : Z) (o : bytes) (range : Z * Z) (todo : list (Z * Z)) (ranged : btree Z bytes) : Prop := {
  po_range : range.2 + p < 2 ^ 64;
  po_sorted : bt_sorted Z.compare ranged;
  po_pages : exists a k, covers p (Z.of_nat (length o)) range a k /\
    let pages := pages_at k a p (Z.of_nat (length o)) in
    todo ⊆ pages /\ (forall kv, kv ∈ ranged -> exists r, r ∈ pages /\ kv = (r.1, slice_of o r)) /\
    (forall r, r ∈ pages -> r ∈ todo \/ (r.1, slice_of o r) ∈ ranged)
}.
Definition call_at_ok (p : Z) (location : string) (range : Z * Z) (pc : GetRange (E:=E)) : Prop :=
  match pc with
  | GrSize | GrHead => True
  | GrPutSize n => has_size location n
  | GrLookup todo missing ranged => exists o, objects !! location = Some o /\ pages_ok p o range (todo ++ missing) ranged
  | GrFetch missing ranged => exists o, objects !! location = Some o /\ pages_ok p o range missing ranged
  | GrInsert r b missing ranged => exists o, objects !! location = Some o /\ pages_ok p o range (r :: missing) ranged /\ b = slice_of o r
  | GrDone r => read_ok p location range r
  end.
Definition call_ok (p : Z) (c : Call) : Prop := 0 <= (gr_range c).1 <= (gr_range c).2 /\ call_at_ok p (gr_location c) (gr_range c) (gr_at c).
Definition process_ok (P : Process (L:=L) (LS:=LS) (D:=D) (U:=U) (E:=E)) : Prop :=
  match P with
  | Up s w calls => store_ok s /\ world_ok w /\ Forall (call_ok (ds_page_size s)) calls
  | Down w => world_ok w
  end.

(** *** The files *)
Lemma files_ok_delete f n : files_ok f -> files_ok (delete n f).
Proof. intros Hf location o r raw m Ho H1 H2 [_ Hl]%lookup_delete_Some Hm. by eapply Hf. Qed.
Lemma files_ok_insert f location o r c : files_ok f -> objects !! location = Some o -> 0 <= r.1 -> 0 <= r.2 ->
  files_ok (<[cache_key location r := pb_encode (c, slice_of o r)]> f).
Proof.
  intros Hf Ho H1 H2 location' o' r' raw m Ho' H1' H2' Hl Hm. apply lookup_insert_Some in Hl as [[Hk <-]|[_ Hl]]; [|by eapply Hf].
  apply cache_key_inj in Hk as [<- <-]; eauto. rewrite pb_roundtrip in Hm. naive_solver.
Qed.
Lemma files_ok_manifest f b : files_ok f -> files_ok (<[MANIFEST_FILE := b]> f).
Proof.
  intros Hf location o r raw m Ho H1 H2 Hl Hm. apply lookup_insert_Some in Hl as [[Hk _]|[_ Hl]]; [|by eapply Hf].
  by apply symmetry, cache_key_not_manifest in Hk.
Qed.

Lemma persist_page d location o r d' res : files_ok (dir_files d) -> objects !! location = Some o -> 0 <= r.1 -> 0 <= r.2 ->
  persist_bytes (E:=E) d (cache_key location r) (slice_of o r) = (d', res) -> files_ok (dir_files d').
Proof.
  intros Hf Ho H1 H2. unfold persist_bytes. destruct (dir_create d _) as [d1 []] eqn:Hc; cbn; apply dir_create_law in Hc.
  - destruct (dir_write d1 _ _) as [d2 ok] eqn:Hw. intros [= <- _]. pose proof (writes_complete d1 (cache_key location r) (pb_encode (checksum (slice_of o r), slice_of o r))) as Hok.
    rewrite Hw in Hok. cbn in Hok. subst ok. apply dir_write_law in Hw as (k & -> & Hk). rewrite (Hk eq_refl), take_ge by done.
    rewrite Hc, insert_insert_eq. by apply files_ok_insert.
  - intros [= <- _]. by rewrite Hc.
Qed.

Lemma evict_ok l d : lru_ok l -> files_ok (dir_files d) ->
  exists l' d', evict (E:=E) l d = Ok (l', d') /\ lru_ok l' /\ files_ok (dir_files d').
Proof.
  intros Hl Hf. unfold evict. destruct (lru_cap l <=? lru_len l) eqn:Hfull; [|by exists l, d].
  destruct (lru_pop l) as [o l'] eqn:Hp. apply lru_pop_law in Hp as (_ & Hcap & Hnone).
  destruct o as [kv|]; cbn.
  - eexists l', _. split; [done|]. split; [by unfold lru_ok; rewrite Hcap|]. destruct (dir_remove d kv.1) as [d' ok] eqn:Hr. cbn.
    apply dir_remove_law in Hr as ->. destruct ok; [by apply files_ok_delete|done].
  - apply Z.leb_le in Hfull. rewrite lru_len_law, (Hnone eq_refl) in Hfull. unfold lru_ok in Hl. cbn [length] in Hfull. lia.
Qed.

(** A value to persist is the page its key names. *)
Definition value_ok (key : string) (value : option bytes) : Prop :=
  forall v, value = Some v -> exists location o r, objects !! location = Some o /\ 0 <= r.1 /\ 0 <= r.2 /\ key = cache_key location r /\ v = slice_of o r.
Lemma update_cache_ok c d key value : partitions_ok lru_ok c -> files_ok (dir_files d) -> value_ok key value ->
  exists c' d' b, update_cache (E:=E) sea_hash c d key value = Ok (c', d', b) /\ partitions_ok lru_ok c' /\ files_ok (dir_files d').
Proof.
  intros Hc Hf Hv. unfold update_cache. destruct (get_partition_ok (E:=error) lru_ok c (sea_hash key) Hc) as (l & -> & Hl & Hput). cbn [rbind].
  destruct (evict_ok l d Hl Hf) as (l' & d' & -> & Hl' & Hf'). cbn [rbind].
  assert (lru_ok (lru_push l' key tt)) as Hpush by (unfold lru_ok; by rewrite (proj2 (lru_push_law _ _ _))).
  destruct value as [v|]; [|by eexists _, _, _; split_and!; [done|apply Hput|]].
  destruct (Hv v eq_refl) as (location & o & r & Ho & H1 & H2 & -> & ->).
  destruct (persist_bytes d' _ _) as [d2 res] eqn:Hp. apply persist_page in Hp; [|done..].
  destruct res; eexists _, _, _; (split_and!; [done|by apply Hput|done]).
Qed.

Lemma cache_get_ok c d location o r : partitions_ok lru_ok c -> files_ok (dir_files d) -> objects !! location = Some o -> 0 <= r.1 -> 0 <= r.2 ->
  exists c' v, cache_get (E:=E) sea_hash c d (cache_key location r) = Ok (c', v) /\ partitions_ok lru_ok c' /\ forall b, v = Some b -> b = slice_of o r.
Proof.
  intros Hc Hf Ho H1 H2. unfold cache_get. destruct (get_partition_ok (E:=error) lru_ok c (sea_hash (cache_key location r)) Hc) as (l & -> & Hl & Hput). cbn [rbind].
  destruct (lru_get l _) as [found l'] eqn:Hg. apply lru_get_law in Hg as (_ & Hcap & _). eexists _, _. split; [done|].
  split; [apply Hput; unfold lru_ok; by rewrite Hcap|]. intros b. destruct found; [|done]. unfold read_bytes.
  destruct (dir_read d _) as [raw|] eqn:Hr; [|done]. apply dir_read_law in Hr. destruct (pb_decode raw) as [m|] eqn:Hm; [|done].
  intros [= <-]. by eapply Hf.
Qed.

(** *** The pages of a call *)
Section pages.
Context (p : Z) (o : bytes) (range : Z * Z).
Hypothesis p_pos : 0 < p.

Lemma pages_ok_iff todo todo' ranged : (forall r, r ∈ todo <-> r ∈ todo') -> pages_ok p o range todo ranged -> pages_ok p o range todo' ranged.
Proof.
  intros Heq [Hr Hs (a & k & Hc & Hsub & Hin & Hall)]. split; [done|done|]. exists a, k. split; [done|]. cbn zeta. split_and!; [|done|].
  - intros r. rewrite <- Heq. apply Hsub.
  - intros r. rewrite <- Heq. apply Hall.
Qed.
Lemma pages_ok_page r todo ranged : 0 <= range.1 <= range.2 -> pages_ok p o range (r :: todo) ranged -> 0 <= r.1 <= r.2 /\ r.2 <= Z.of_nat (length o).
Proof.
  intros Hr [_ _ (a & k & Hc & Hsub & _)]. destruct (covers_facts p (Z.of_nat (length o)) range a k p_pos ltac:(lia) Hr Hc) as (Ha & _ & _ & Hk).
  assert (r ∈ pages_at k a p (Z.of_nat (length o))) as Hin by (apply Hsub; by left).
  assert (k <> O) as Hk0 by (intros ->; by apply elem_of_nil in Hin). destruct (Hk Hk0) as (Hlt & _ & _).
  apply elem_pages_at in Hin as (? & ? & ?); lia.
Qed.
Lemma pages_ok_insert r todo ranged : pages_ok p o range (r :: todo) ranged ->
  pages_ok p o range todo (bt_insert Z.compare r.1 (slice_of o r) ranged).
Proof.
  intros [Hr Hs (a & k & Hc & Hsub & Hin & Hall)]. split; [done|by apply (bt_insert_sorted Z.compare)|]. exists a, k.
  assert (r ∈ pages_at k a p (Z.of_nat (length o))) as Hp by (apply Hsub; by left).
  split; [done|]. cbn zeta. split_and!; [by intros x Hx; apply Hsub; right| |].
  - intros kv [->|[Hkv _]]%(bt_insert_iff Z.compare); [by exists r|by apply Hin|done].
  - intros x Hx. rewrite (bt_insert_iff Z.compare) by done. destruct (decide (x.1 = r.1)) as [Heq|Hne].
    + right. left. f_equal; [done|]. f_equal. apply elem_pages_at in Hx as (_ & Hx & _), Hp as (_ & Hp & _); [|done|done].
      destruct x, r; cbn in *. congruence.
    + destruct (Hall x Hx) as [[->|?]%elem_of_cons|?]; [done|by left|right; right; done].
Qed.
Lemma pages_ok_done ranged : pages_ok p o range [] ranged -> exists a k, covers p (Z.of_nat (length o)) range a k /\
  ranged = (fun r => (r.1, slice_of o r)) <$> pages_at k a p (Z.of_nat (length o)).
Proof.
  intros [_ Hs (a & k & Hc & _ & Hin & Hall)]. exists a, k. split; [done|].
  apply (ssorted_ext (fun x y => Z.compare x.1 y.1 = Lt)); [| |done|by apply pages_at_sorted|].
  - intros x. by rewrite Z.compare_refl.
  - intros x y z Hxy Hyz. change (x.1 < y.1) in Hxy. change (y.1 < z.1) in Hyz. change (x.1 < z.1). lia.
  - intros kv. rewrite list_elem_of_fmap. split.
    + intros (r & Hr & ->)%Hin. by exists r.
    + intros (r & -> & [?%elem_of_nil|?]%Hall); done.
Qed.
End pages.

Lemma with_size_ok s location range o : store_ok s -> objects !! location = Some o -> 0 <= range.1 <= range.2 ->
  call_at_ok (ds_page_size s) location range (with_size (E:=E) s range (Z.of_nat (length o))).
Proof.
  intros Hs Ho Hr. unfold with_size. pose proof (objects_sized _ _ Ho).
  pose proof (normalize_range_spec (E:=error) (ds_page_size s) (Z.of_nat (length o)) range (so_page _ Hs) ltac:(lia) Hr) as Hn.
  case_bool_decide as Hb.
  - destruct Hn as (a & k & Hc & ->). exists o. rewrite app_nil_r. split; [done|]. split; [done|constructor|].
    exists a, k. split; [done|]. cbn zeta. split_and!; [done|by intros kv ?%elem_of_nil|by left].
  - rewrite Hn. left. lia.
Qed.
Lemma assemble_ok p location range o ranged : 0 < p -> 0 <= range.1 <= range.2 -> objects !! location = Some o ->
  pages_ok p o range [] ranged -> read_ok p location range (assemble range ranged).
Proof.
  intros Hp Hr Ho Hpo. pose proof (po_range _ _ _ _ _ Hpo). apply pages_ok_done in Hpo as (a & k & Hc & ->); [|done].
  pose proof (assemble_pages (E:=error) o p range a k Hp Hr ltac:(lia) Hc) as Ha. cbn zeta in Ha. case_bool_decide as Hb; rewrite Ha.
  - right. by exists o.
  - exists o. split_and!; [done|lia|done].
Qed.

(** *** A step of a call *)
Definition step_ok (location : string) (range : Z * Z) (s s' : store) (w' : World (D:=D) (U:=U)) (pc' : GetRange (E:=E)) : Prop :=
  store_ok s' /\ world_ok w' /\ ds_page_size s' = ds_page_size s /\ call_at_ok (ds_page_size s) location range pc'.

Lemma with_sizes_ok s sizes : store_ok s -> (forall location n, (location, n) ∈ lru_entries sizes -> has_size location n) -> store_ok (with_sizes s sizes).
Proof. by intros [? ? ?] ?. Qed.
Lemma with_cache_ok s c : store_ok s -> partitions_ok lru_ok c -> store_ok (with_cache s c).
Proof. by intros [? ? ?] ?. Qed.
Lemma objects_there w location o : world_ok w -> os_objects (w_os w) !! location = Some o -> objects !! location = Some o.
Proof. intros [_ Hsub] Ho. by eapply lookup_weaken. Qed.

Lemma size_step_ok s w location range s' w' pc' : store_ok s -> world_ok w -> 0 <= range.1 <= range.2 ->
  get_range_step sea_hash s w location range GrSize = (s', w', pc') -> step_ok location range s s' w' pc'.
Proof.
  intros Hs Hw Hr. cbn. destruct (lru_get _ _) as [found sizes] eqn:Hg. intros [= <- <- <-]. apply lru_get_law in Hg as (Hsub & _ & Hfound).
  split_and!; [|done|done|].
  - apply with_sizes_ok; [done|]. intros l n Hin. apply (so_sizes _ Hs), Hsub, Hin.
  - destruct found as [n|]; [|done]. destruct (so_sizes _ Hs _ _ (Hfound n eq_refl)) as (o & Ho & ->). by apply with_size_ok.
Qed.
Lemma head_step_ok s w location range s' w' pc' : store_ok s -> world_ok w ->
  get_range_step sea_hash s w location range GrHead = (s', w', pc') -> step_ok location range s s' w' pc'.
Proof.
  intros Hs [Hf Hu]. cbn. destruct (os_head _ _) as [u r] eqn:Hh. intros [= <- <- <-]. apply os_head_law in Hh as (Heq & Hnp & Hok).
  split_and!; [done| |done|].
  - split; [done|]. cbn. by rewrite Heq.
  - destruct r as [n|e|]; [|by eexists|done]. destruct (Hok n eq_refl) as (o & Ho & ->). exists o. split; [|done]. by eapply lookup_weaken.
Qed.
Lemma put_size_step_ok s w location range n s' w' pc' : store_ok s -> world_ok w -> 0 <= range.1 <= range.2 -> has_size location n ->
  get_range_step sea_hash s w location range (GrPutSize n) = (s', w', pc') -> step_ok location range s s' w' pc'.
Proof.
  intros Hs Hw Hr Hn. cbn. intros [= <- <- <-]. split_and!; [|done|done|].
  - apply with_sizes_ok; [done|]. intros l m Hin%(proj1 (lru_push_law _ _ _)). apply elem_of_cons in Hin as [[= -> ->]|Hin]; [done|by apply (so_sizes _ Hs)].
  - destruct Hn as (o & Ho & ->). by apply with_size_ok.
Qed.
Lemma lookup_step_ok s w location range todo missing ranged s' w' pc' : store_ok s -> world_ok w -> 0 <= range.1 <= range.2 ->
  call_at_ok (ds_page_size s) location range (GrLookup todo missing ranged) ->
  get_range_step sea_hash s w location range (GrLookup todo missing ranged) = (s', w', pc') -> step_ok location range s s' w' pc'.
Proof.
  intros Hs Hw Hr (o & Ho & Hpo). cbn. destruct todo as [|r todo]; [by intros [= <- <- <-]; split_and!; [done..|]; exists o|].
  destruct (pages_ok_page _ o range (so_page _ Hs) r (todo ++ missing) ranged Hr Hpo) as [H1 H2].
  destruct (cache_get_ok (ds_cache s) (w_dir w) location o r (so_cache _ Hs) (proj1 Hw) Ho ltac:(lia) ltac:(lia)) as (c & v & -> & Hc & Hv).
  destruct v as [b|]; intros [= <- <- <-]; (split_and!; [by apply with_cache_ok|done|done|]); exists o; (split; [done|]).
  - rewrite (Hv b eq_refl). by apply pages_ok_insert; [apply (so_page _ Hs)|].
  - eapply pages_ok_iff; [|done]. set_solver.
Qed.
Lemma fetch_step_ok s w location range missing ranged s' w' pc' : store_ok s -> world_ok w -> 0 <= range.1 <= range.2 ->
  call_at_ok (ds_page_size s) location range (GrFetch missing ranged) ->
  get_range_step sea_hash s w location range (GrFetch missing ranged) = (s', w', pc') -> step_ok location range s s' w' pc'.
Proof.
  intros Hs Hw Hr (o & Ho & Hpo). cbn. destruct missing as [|r missing].
  { intros [= <- <- <-]. split_and!; [done..|]. eapply assemble_ok; [apply (so_page _ Hs)|done..]. }
  destruct (pages_ok_page _ o range (so_page _ Hs) r missing ranged Hr Hpo) as [H1 H2].
  destruct (os_get_range _ _ _) as [u b] eqn:Hg. intros [= <- <- <-]. apply os_get_range_law in Hg as (Heq & Hnp & Hok).
  split_and!; [done|split; [apply Hw|cbn; rewrite Heq; apply Hw]|done|]. destruct b as [b|e|]; [|by eexists|done].
  exists o. split_and!; [done|done|]. destruct (Hok b eq_refl) as (o' & Ho' & Hb). apply (objects_there w) in Ho'; [|done].
  rewrite Ho in Ho'. injection Ho' as <-. by apply Hb.
Qed.
Lemma insert_step_ok s w location range r b missing ranged s' w' pc' : store_ok s -> world_ok w -> 0 <= range.1 <= range.2 ->
  call_at_ok (ds_page_size s) location range (GrInsert r b missing ranged) ->
  get_range_step sea_hash s w location range (GrInsert r b missing ranged) = (s', w', pc') -> step_ok location range s s' w' pc'.
Proof.
  intros Hs Hw Hr (o & Ho & Hpo & ->). cbn. destruct (pages_ok_page _ o range (so_page _ Hs) r missing ranged Hr Hpo) as [H1 H2].
  destruct (update_cache_ok (ds_cache s) (w_dir w) (cache_key location r) (Some (slice_of o r)) (so_cache _ Hs) (proj1 Hw)) as (c & d & ok & Hu & Hc & Hf).
  { intros v [= <-]. exists location, o, r. split_and!; [done|lia|lia|done|done]. }
  unfold cache_insert. rewrite Hu. intros [= <- <- <-]. split_and!; [by apply with_cache_ok|split; [done|apply Hw]|done|].
  exists o. split; [done|]. by apply pages_ok_insert; [apply (so_page _ Hs)|].
Qed.

Lemma get_range_step_ok s w location range pc s' w' pc' : store_ok s -> world_ok w -> 0 <= range.1 <= range.2 ->
  call_at_ok (ds_page_size s) location range pc ->
  get_range_step sea_hash s w location range pc = (s', w', pc') -> step_ok location range s s' w' pc'.
Proof.
  intros Hs Hw Hr Hc. destruct pc; [by apply size_step_ok|by apply head_step_ok|by apply put_size_step_ok|by apply lookup_step_ok|
    by apply fetch_step_ok|by apply insert_step_ok|]. cbn. by intros [= <- <- <-].
Qed.

(** *** Opening *)
Lemma create_manifest_ok d now p d' r : files_ok (dir_files d) ->
  create_manifest_if_not_exists (E:=E) d now p = (d', r) -> files_ok (dir_files d').
Proof.
  intros Hf. unfold create_manifest_if_not_exists. destruct (dir_open d MANIFEST_FILE) as [d1 o] eqn:Ho. apply dir_open_law in Ho.
  assert (files_ok (dir_files d1)) as Hf1 by (destruct o; [destruct Ho as [-> _]; by apply files_ok_manifest|by rewrite Ho]).
  destruct o as [[|x buf]|]; [|by intros [= <- _]|by intros [= <- _]]. destruct (json_encode _) as [buf|]; [|by intros [= <- _]].
  destruct (dir_write d1 _ _) as [d2 ok] eqn:Hw. intros [= <- _]. apply dir_write_law in Hw as (k & -> & _). by apply files_ok_manifest.
Qed.
Lemma recover_files_ok c d names : partitions_ok lru_ok c -> files_ok (dir_files d) ->
  exists c' d', recover_files (E:=E) sea_hash c d names = Ok (c', d') /\ partitions_ok lru_ok c' /\ files_ok (dir_files d').
Proof.
  revert c d. induction names as [|n names IH]; intros c d Hc Hf; cbn; [by exists c, d|]. case_decide; [by apply IH|].
  destruct (update_cache_ok c d n None Hc Hf) as (c' & d' & b & Hu & Hc' & Hf'); [done|]. unfold cache_recover. rewrite Hu. cbn. by apply IH.
Qed.
Lemma disk_cache_try_new_ok cap bits c : 0 <= cap -> disk_cache_try_new (E:=E) cap bits = Ok c -> partitions_ok lru_ok c.
Proof.
  intros Hcap [(b & Hb & Hm & Hl) Hall]%mutex_try_new_ok. split; [by exists b|]. eapply Forall_impl; [done|]. intros l. cbn.
  unfold init_lru, usize_div. destruct (_ =? 0) eqn:Hz; [done|]. cbn. destruct (negb _) eqn:Hn; [|done]. cbn. intros [= <-]. unfold lru_ok.
  rewrite (proj2 (lru_new_law _)). assert (0 < 2 ^ bits).
  { destruct (decide (0 <= bits)); [by apply Z.pow_pos_nonneg|]. by rewrite Z.pow_neg_r in Hz by lia. }
  pose proof (Z.div_pos cap (2 ^ bits) Hcap ltac:(lia)). lia.
Qed.
Lemma store_try_new_ok d now cap p bits d' r : 0 <= p -> 0 <= cap -> files_ok (dir_files d) ->
  store_try_new (E:=E) sea_hash d now cap p bits = (d', r) -> files_ok (dir_files d') /\ forall s, r = Ok s -> store_ok s.
Proof.
  intros Hp Hcap Hf. unfold store_try_new, usize_div. destruct (p =? 0) eqn:Hp0; cbn; [by intros [= <- <-]|].
  destruct (negb _) eqn:Hn; cbn; [|by intros [= <- <-]].
  destruct (create_manifest_if_not_exists d now p) as [d1 m] eqn:Hm. apply create_manifest_ok in Hm; [|done].
  destruct m; cbn; [|by intros [= <- <-]..]. destruct (disk_cache_try_new _ _) as [c| |] eqn:Hc; [|by intros [= <- <-]..].
  apply disk_cache_try_new_ok in Hc; [|by apply Z.div_pos; lia]. unfold recover_cache.
  destruct (dir_list d1) as [[names complete]|]; [|by intros [= <- <-]].
  destruct (recover_files_ok c d1 names Hc Hm) as (c' & d2 & -> & Hc' & Hf'). intros [= <- <-]. split; [done|].
  destruct complete; cbn; [|done]. intros s [= <-]. split; cbn; [done| |lia]. intros l n. by rewrite (proj1 (lru_new_law _)), elem_of_nil.
Qed.

(** *** The process *)
Lemma process_step_ok P P' : process_ok P -> cstep sea_hash objects P P' -> process_ok P'.
Proof.
  intros HP Hstep. destruct Hstep as [s w calls location range Hr|s w calls i location range pc s' w' pc' Hi Hs|s w calls location b u r Ho Hu|
    s w calls location u r Hu|s w calls|w now cap p bits d s Hp Hcap Ho|w now cap p bits d e Hp Hcap Ho]; cbn in HP.
  - destruct HP as (? & ? & ?). split_and!; [done|done|]. apply Forall_app. split; [done|]. constructor; [by split|constructor].
  - destruct HP as (Hst & Hw & Hcalls). destruct (Forall_lookup_1 _ _ _ _ Hcalls Hi) as [Hr Hat]. cbn in Hr, Hat.
    apply get_range_step_ok in Hs as (? & ? & Hp & ?); [|done..]. split_and!; [done|done|]. rewrite Hp. by apply Forall_insert.
  - destruct HP as (? & [Hf Hsub] & ?). split_and!; [done| |done]. split; [done|]. cbn. apply os_put_law in Hu as [->| ->]; [done|].
    by apply insert_subseteq_l.
  - destruct HP as (? & [Hf Hsub] & ?). split_and!; [done| |done]. split; [done|]. cbn. apply os_delete_law in Hu as [->| ->]; [done|].
    etransitivity; [apply delete_subseteq|done].
  - by destruct HP as (? & ? & ?).
  - apply store_try_new_ok in Ho as [Hf Hs]; [|done|done|apply HP]. split_and!; [by apply Hs|by split; [|apply HP]|constructor].
  - apply store_try_new_ok in Ho as [Hf _]; [|done|done|apply HP]. by split; [|apply HP].
Qed.

Lemma process_reachable_ok P P' : process_ok P -> rtc (cstep sea_hash objects) P P' -> process_ok P'.
Proof. intros HP. induction 1 as [|P1 P2 P3 H12 _ IH]; [done|]. by eapply IH, process_step_ok. Qed.

End reads.

(** ** Calls return *)
Section returns.
Context {L LS D U E : Type} {LU : Lru L unit} {LZ : Lru LS Z} {CD : CacheDir D} {OS : ObjectStore U E} {PC : PageCodec}.
Context (sea_hash : string -> Z) (location : string) (range : Z * Z).

(** The place of a call after [n] of its own steps, the [i]-th taken in the state [f i]
    in which the other calls left the process. *)
Fixpoint turns (f : nat -> DiskCacheStore (L:=L) (LS:=LS) * World (D:=D) (U:=U)) (n : nat) (pc : GetRange (E:=E)) : GetRange (E:=E) :=
  match n with
  | O => pc
  | S n => turns (fun i => f (S i)) n (get_range_step sea_hash (f O).1 (f O).2 location range pc).2
  end.

(** The steps left once the pages are known. *)
Definition steps_left (pc : GetRange (E:=E)) : option nat :=
  match pc with
  | GrSize | GrHead | GrPutSize _ => None
  | GrLookup todo missing _ => Some (2 + 3 * length todo + 2 * length missing)%nat
  | GrFetch missing _ => Some (1 + 2 * length missing)%nat
  | GrInsert _ _ missing _ => Some (2 + 2 * length missing)%nat
  | GrDone _ => Some O
  end.
Lemma get_range_step_decreases s w pc n : steps_left pc = Some (S n) ->
  exists m, steps_left (get_range_step (L:=L) (LS:=LS) (D:=D) (U:=U) sea_hash s w location range pc).2 = Some m /\ (m <= n)%nat.
Proof.
  destruct pc as [| | |[|r todo] missing ranged|[|r missing] ranged|r b missing ranged|r]; cbn; try done; intros [= <-].
  - eexists. split; [done|]. lia.
  - destruct (cache_get _ _ _ _) as [[c [b|]]|e|]; eexists; (split; [done|]); rewrite ?length_app; cbn; lia.
  - eexists. split; [done|]. lia.
  - destruct (os_get_range _ _ _) as [u [b|e|]]; eexists; (split; [done|]); lia.
  - destruct (cache_insert _ _ _ _ _) as [[[c d] ok]|e|]; eexists; (split; [done|]); cbn; lia.
Qed.
Lemma turns_end f pc n : steps_left pc = Some n -> exists k r, turns f k pc = GrDone r.
Proof.
  revert f pc. induction n as [n IH] using lt_wf_ind. intros f pc Hn. destruct n as [|n]; [destruct pc; try done; by exists O, r|].
  destruct (get_range_step_decreases (f O).1 (f O).2 pc n Hn) as (m & Hm & Hle).
  destruct (IH m ltac:(lia) (fun i => f (S i)) _ Hm) as (k & r & Hk). by exists (S k), r.
Qed.
Lemma turns_first f k pc : (exists j r, turns (fun i => f (k + i)%nat) j (turns f k pc) = GrDone r) -> exists j r, turns f j pc = GrDone r.
Proof.
  revert f pc. induction k as [|k IH]; intros f pc; [done|]. intros (j & r & Hj). cbn in Hj.
  destruct (IH (fun i => f (S i)) (get_range_step sea_hash (f O).1 (f O).2 location range pc).2) as (j' & r' & Hj'); [by exists j, r|]. by exists (S j'), r'.
Qed.

Lemma with_size_left (s : DiskCacheStore (L:=L) (LS:=LS)) n : exists m, steps_left (with_size s range n) = Some m.
Proof. unfold with_size. destruct (normalize_range _ _ _); by eexists. Qed.

End returns.

(** ** Runs *)
Section runs.
Context {L LS D U E : Type} {LU : Lru L unit} {LZ : Lru LS Z} {CD : CacheDir D} {OS : ObjectStore U E} {PC : PageCodec}.
Context (sea_hash : string -> Z) {JM : JsonCodec CacheManifest} (objects : gmap string bytes).

Lemma run_steps n (s : DiskCacheStore (L:=L) (LS:=LS)) (w : World (D:=D) (U:=U)) calls location range (pc : GetRange (E:=E)) s' w' pc' :
  run_get_range sea_hash n s w location range pc = (s', w', pc') ->
  rtc (cstep sea_hash objects) (Up s w (calls ++ [MkCall location range pc])) (Up s' w' (calls ++ [MkCall location range pc'])).
Proof.
  revert s w pc. induction n as [|n IH]; intros s w pc; cbn; [by intros [= <- <- <-]|].
  destruct (get_range_step _ _ _ _ _ _) as [[s1 w1] pc1] eqn:Hs. intros Hr. eapply rtc_l; [|by apply IH].
  replace (calls ++ [MkCall location range pc1]) with (<[length calls := MkCall location range pc1]> (calls ++ [MkCall location range pc])).
  - eapply cs_step; [|done]. by rewrite lookup_app_r, Nat.sub_diag by lia.
  - by rewrite <- (Nat.add_0_r (length calls)), insert_app_r.
Qed.
Lemma call_runs n (s : DiskCacheStore (L:=L) (LS:=LS)) (w : World (D:=D) (U:=U)) calls location range s' w' (pc' : GetRange (E:=E)) :
  0 <= range.1 <= range.2 -> run_get_range sea_hash n s w location range GrSize = (s', w', pc') ->
  rtc (cstep sea_hash objects) (Up s w calls) (Up s' w' (calls ++ [MkCall location range pc'])).
Proof. intros Hr Hn. eapply rtc_l; [by apply cs_call|by eapply run_steps]. Qed.
End runs.

(** ** An implementation of what the cache calls *)
Record LruList (V : Type) := MkLruList { ll_cap : Z; ll_entries : list (string * V) }.
Arguments MkLruList {V}.
Arguments ll_cap {V}.
Arguments ll_entries {V}.
Definition without {V} (k : string) (l : list (string * V)) : list (string * V) := filter (fun kv => kv.1 <> k) l.
#[export] Instance lru_list {V} : Lru (LruList V) V := {
  lru_new n := MkLruList n [];
  lru_cap := ll_cap;
  lru_len l := Z.of_nat (length (ll_entries l));
  lru_get l k :=
    match list_find (fun kv => kv.1 = k) (ll_entries l) with
    | Some (_, kv) => (Some kv.2, MkLruList (ll_cap l) (kv :: without k (ll_entries l)))
    | None => (None, l)
    end;
  lru_push l k v := MkLruList (ll_cap l) (take (Z.to_nat (ll_cap l)) ((k, v) :: without k (ll_entries l)));
  lru_pop l := (last (ll_entries l), MkLruList (ll_cap l) (removelast (ll_entries l)))
}.
#[export] Instance lru_list_laws {V} : LruLaws (LruList V) V.
Proof.
  refine {| lru_entries := ll_entries |}; cbn.
  - done.
  - done.
  - intros l k o l'. destruct (list_find _ _) as [[i kv]|] eqn:Hf; intros [= <- <-]; cbn; [|by split_and!].
    apply list_find_Some in Hf as (Hi & Hk & _). apply list_elem_of_lookup_2 in Hi. split_and!; [|done|].
    + intros x [->|[_ Hx]%list_elem_of_filter]%elem_of_cons; done.
    + intros v [= <-]. rewrite <- Hk. by destruct kv.
  - intros l k v. split; [|done]. intros x Hx%(subseteq_take _ _)%elem_of_cons. destruct Hx as [->|[_ Hx]%list_elem_of_filter]; [by left|by right].
  - intros l o l' [= <- <-]. split_and!; [|done|apply last_None]. destruct (ll_entries l) as [|x es] using rev_ind; cbn; [done|].
    rewrite removelast_last. intros y Hy. apply elem_of_app. by left.
Defined.

(** A directory in memory; the disk is full for the files [full]. *)
Definition dir_mem (full : string -> bool) : CacheDir (gmap string bytes) := {|
  dir_read d n := d !! n;
  dir_open d n := (<[n := default [] (d !! n)]> d, Some (default [] (d !! n)));
  dir_create d n := (<[n := []]> d, true);
  dir_write d n b := if full n then (<[n := []]> d, false) else (<[n := b]> d, true);
  dir_remove d n := (delete n d, true);
  dir_list d := Some ((map_to_list d).*1, true)
|}.
Definition dir_mem_laws full : @CacheDirLaws (gmap string bytes) (dir_mem full).
Proof.
  refine (@Build_CacheDirLaws _ (dir_mem full) (fun d => d) _ _ _ _ _); cbn.
  - done.
  - by intros d n d' o [= <- <-].
  - by intros d n d' ok [= <- <-].
  - intros d n b d' ok. destruct (full n); intros [= <- <-]; [by exists O|]. exists (length b). by rewrite take_ge.
  - by intros d n d' ok [= <- <-].
Defined.

#[export] Instance os_mem : ObjectStore (gmap string bytes) unit := {
  os_put u l b := (<[l := b]> u, Ok tt);
  os_delete u l := (delete l u, Ok tt);
  os_head u l := (u, match u !! l with Some o => Ok (Z.of_nat (length o)) | None => Err tt end);
  os_get_range u l r := (u, match u !! l with Some o => Ok (slice_of o r) | None => Err tt end)
}.
#[export] Instance os_mem_laws : ObjectStoreLaws (gmap string bytes) unit.
Proof.
  refine {| os_objects := fun u => u |}; cbn.
  - intros u l b u' r [= <- _]. by right.
  - intros u l u' r [= <- _]. by right.
  - intros u l u' r [= <- <-]. destruct (u !! l) as [o|]; split_and!; try done. intros n [= <-]. by exists o.
  - intros u l g u' r [= <- <-]. destruct (u !! l) as [o|]; split_and!; try done. intros b [= <-]. by exists o.
Defined.

#[export] Instance page_codec_mem : PageCodec.
Proof.
  refine {| checksum := fun _ => 0; pb_encode := fun m => m.1 :: m.2;
    pb_decode := fun b => match b with [] => Some (0, []) | c :: v => Some (c, v) end |}; [by intros []|done].
Defined.
#[export] Instance manifest_json_mem : JsonCodec CacheManifest.
Proof.
  refine {| json_encode := fun m => Some (cm_page_size m :: cm_version m :: as_bytes (cm_create_at m));
    json_decode := fun b => match b with
      | p :: v :: t => Some (MkCacheManifest (string_of_list_ascii ((fun z => ascii_of_N (Z.to_N z)) <$> t)) p v)
      | _ => None end |}.
  intros [t p v]. eexists. split; [done|]. cbn. do 2 f_equal. unfold as_bytes. rewrite <- list_fmap_compose.
  rewrite <- (string_of_list_ascii_of_string t) at 2. f_equal. rewrite <- (list_fmap_id (chars t)) at 2. apply list_fmap_ext.
  intros _ c _. cbn. by rewrite N2Z.id, ascii_N_embedding.
Defined.

(** A file of twelve bytes, pages of four. *)
Definition demo_location : string := new_sst_file_path 1 2 3.
Definition demo_objects : gmap string bytes := {[ demo_location := [10; 11; 12; 13; 14; 15; 16; 17; 18; 19; 20; 21] ]}.
Definition demo_hash (key : string) : Z := Z.of_nat (String.length key).
Definition demo_world : World (D:=gmap string bytes) (U:=gmap string bytes) := MkWorld ∅ demo_objects.
Lemma demo_location_of l o : demo_objects !! l = Some o -> l = demo_location /\ length o = 12%nat.
Proof. unfold demo_objects. intros [<- <-]%lookup_singleton_Some. done. Qed.

Lemma demo_run :
  let _ := dir_mem (fun _ => false) in
  exists s w calls, rtc (cstep (L:=LruList unit) (LS:=LruList Z) demo_hash demo_objects) (Down demo_world) (Up s w calls) /\
    MkCall demo_location (2, 11) (GrDone (Ok [12; 13; 14; 15; 16; 17; 18; 19; 20])) ∈ calls.
Proof.
  intros dir. eexists _, _, _. split.
  - eapply rtc_l; [eapply (cs_open _ _ _ "now" 64 4 1); [lia|lia|vm_compute; reflexivity]|].
    etransitivity; [eapply (call_runs _ _ 14 _ _ _ demo_location (2, 11)); [cbn; lia|vm_compute; reflexivity]|].
    eapply (call_runs _ _ 14 _ _ _ demo_location (2, 11)); [cbn; lia|vm_compute; reflexivity].
  - by left.
Defined.

