(* ===== verification/MqRegion.v ===== *)
(** * The write-ahead log in a message queue

    [wal/src/message_queue_impl]: a region logs the entries of its tables in one topic
    of a message queue and snapshots of its meta data in another.  [encoding.rs],
    [region_context.rs] (sequences, and where each is in the topic),
    [snapshot_synchronizer.rs], [log_cleaner.rs], [region.rs] and [namespace.rs].

    The message queue ([components/message_queue]) is a class of its operations; a
    consumer may wait for a message for ever, hence [wait].  A write holds the region's
    lock for reading and the table's lock, a snapshot the region's lock for writing, so
    that each is one step.  The timed task that cleans logs is a step of its own. *)

From Stdlib Require Import ZArith Lia String Ascii.
From stdpp Require Import base tactics option list sorting numbers gmap strings pretty.
From S2P Require Import Prelude Strings Bytes Datum Varint MemComparable BTree KvEncoder.

#[local] Open Scope Z_scope.

(** ** Calls that may wait *)
Inductive wait (A : Type) := Returns (a : A) | Blocks.
Arguments Returns {A} a.
Arguments Blocks {A}.
Definition wbind {E A B} (w : wait (res E A)) (k : A -> wait (res E B)) : wait (res E B) :=
  match w with
  | Returns (Ok a) => k a
  | Returns (Err e) => Returns (Err e)
  | Returns Panic => Returns Panic
  | Blocks => Blocks
  end.
Notation "'let!' x := e 'in' k" := (wbind e (fun x => k))
  (at level 10, x pattern, e at level 100, k at level 200) : res_scope.

(** ** The message queue ([components/message_queue/src/lib.rs]) *)
Record Message := MkMessage { mg_key : option bytes; mg_value : option bytes }.
Inductive StartOffset := Earliest | Latest | At (offset : Z).
(** What [next_message] of a consumer gives: a message, its offset and the high
    watermark; an error; or it waits, there being no message. *)
Inductive Poll (E : Type) := Polled (m : Message) (offset high_watermark : Z) | PollFailed (e : E) | Pending.
Arguments Polled {E}.
Arguments PollFailed {E}.
Arguments Pending {E}.
Record ConsumeIterator := MkConsume { ci_topic : string; ci_at : StartOffset }.
Class MessageQueue (M E : Type) := {
  mq_create_topic : M -> string -> M * res E unit;
  mq_high_watermark : M -> string -> res E Z;
  mq_produce : M -> string -> list Message -> M * res E (list Z);
  mq_consume : M -> string -> StartOffset -> res E ConsumeIterator;
  mq_poll : M -> ConsumeIterator -> Poll E;
  mq_delete_to : M -> string -> Z -> M * res E unit
}.
Definition next_message {M E} `{MessageQueue M E} (m : M) (it : ConsumeIterator) : wait (res E (Message * Z * Z * ConsumeIterator)) :=
  match mq_poll m it with
  | Polled msg offset hw => Returns (Ok (msg, offset, hw, MkConsume (ci_topic it) (At (offset + 1))))
  | PollFailed e => Returns (Err e)
  | Pending => Blocks
  end.
(** [to_message]. *)
Definition to_message (log_key log_value : bytes) : Message := MkMessage (Some log_key) (Some log_value).

(** ** Meta data ([region_context.rs]) *)
Record TableMetaData := MkTableMeta {
  td_table_id : Z;
  td_next_sequence_num : Z;
  td_latest_marked_deleted : Z;
  td_current_high_watermark : Z;
  td_safe_delete_offset : option Z
}.
(** [TableMetaInner]; the ordered map is only looked up, extended and filtered. *)
Record TableMetaInner := MkMetaInner {
  ti_next_sequence_num : Z;
  ti_latest_marked_deleted : Z;
  ti_current_high_watermark : Z;
  ti_mapping : gmap Z Z
}.
Definition meta_inner_default : TableMetaInner := MkMetaInner (MIN_SEQUENCE_NUMBER + 1) (MIN_SEQUENCE_NUMBER + 1) 0 ∅.
Definition OFFSET_MAX : Z := 2 ^ 63 - 1.

(** ** Encoding of the meta data ([encoding.rs]) *)
Definition format_wal_data_topic_name (namespace : string) (region_id : Z) : string :=
  namespace +:+ "_data_" +:+ pretty (Z.to_N region_id).
Definition format_wal_meta_topic_name (namespace : string) (region_id : Z) : string :=
  namespace +:+ "_meta_" +:+ pretty (Z.to_N region_id).
Definition NEWEST_MQ_META_KEY_ENCODING_VERSION : Z := 0.
Definition NEWEST_MQ_META_VALUE_ENCODING_VERSION : Z := 0.

Inductive MqEncError :=
| MqEncodeMetaKey (source : BytesError)
| MqEncodeMetaValue (source : BytesError)
| MqDecodeMetaKey (source : BytesError)
| MqDecodeMetaValue (source : option BytesError)
| MqInvalidNamespace (given : Z)
| MqInvalidVersion (given : Z).

Definition mq_meta_key_encode (buf : wbuf) (region_id : Z) : res MqEncError wbuf :=
  let? buf := rcontext MqEncodeMetaKey (try_put_u8 buf (namespace_u8 NsMeta)) in
  let? buf := rcontext MqEncodeMetaKey (try_put_u8 buf NEWEST_MQ_META_KEY_ENCODING_VERSION) in
  rcontext MqEncodeMetaKey (try_put_u64 buf region_id).
Definition mq_meta_key_decode (buf : bytes) : res MqEncError (Z * bytes) :=
  let? (namespace, buf) := rcontext MqDecodeMetaKey (try_get_u8 buf) in
  let? _ := ensure (namespace =? namespace_u8 NsMeta) (MqInvalidNamespace namespace) in
  let? (version, buf) := rcontext MqDecodeMetaKey (try_get_u8 buf) in
  let? _ := ensure (version =? NEWEST_MQ_META_KEY_ENCODING_VERSION) (MqInvalidVersion version) in
  rcontext MqDecodeMetaKey (try_get_u64 buf).

(** The messages of [ceresdbproto::wal_on_mq], and their encoding by prost. *)
Inductive SafeDeleteOffset := PbOffset (offset : Z).
Record TableMetaDataPb := MkTableMetaPb {
  tp_table_id : Z;
  tp_next_sequence_num : Z;
  tp_latest_marked_deleted : Z;
  tp_current_high_watermark : Z;
  tp_safe_delete_offset : option SafeDeleteOffset
}.
Class SnapshotPb := {
  snapshot_pb_encode : list TableMetaDataPb -> bytes;
  snapshot_pb_decode : bytes -> option (list TableMetaDataPb);
  snapshot_pb_roundtrip : forall s, snapshot_pb_decode (snapshot_pb_encode s) = Some s
}.
Definition table_meta_to_pb (t : TableMetaData) : TableMetaDataPb :=
  MkTableMetaPb (td_table_id t) (td_next_sequence_num t) (td_latest_marked_deleted t) (td_current_high_watermark t)
    (PbOffset <$> td_safe_delete_offset t).
Definition table_meta_of_pb (t : TableMetaDataPb) : TableMetaData :=
  MkTableMeta (tp_table_id t) (tp_next_sequence_num t) (tp_latest_marked_deleted t) (tp_current_high_watermark t)
    (match tp_safe_delete_offset t with Some (PbOffset offset) => Some offset | None => None end).

Definition mq_encode_key (region_id : Z) : res MqEncError bytes := encoded (mq_meta_key_encode bytes_mut_new region_id).
Definition mq_decode_key (buf : bytes) : res MqEncError Z := let? r := mq_meta_key_decode buf in Ok r.1.
Definition mq_encode_value `{SnapshotPb} (snapshot : list TableMetaData) : res MqEncError bytes :=
  encoded (let? buf := rcontext MqEncodeMetaValue (try_put_u8 bytes_mut_new NEWEST_MQ_META_VALUE_ENCODING_VERSION) in
           Ok (put buf (snapshot_pb_encode (table_meta_to_pb <$> snapshot)))).
Definition mq_decode_value `{SnapshotPb} (buf : bytes) : res MqEncError (list TableMetaData) :=
  let? (version, buf) := rcontext (fun e => MqDecodeMetaValue (Some e)) (try_get_u8 buf) in
  let? _ := ensure (version =? NEWEST_MQ_META_VALUE_ENCODING_VERSION) (MqInvalidVersion version) in
  match snapshot_pb_decode buf with
  | Some pb => Ok (table_meta_of_pb <$> pb)
  | None => Err (MqDecodeMetaValue None)
  end.

(** ** Tables of a region ([region_context.rs]) *)
Inductive RcError (E : Type) :=
| RcMarkDeleteTo (table_id : Z)
| RcBuild
| RcWriteEncode (source : KvEncError)
| RcWriteProduce (source : E)
| RcWriteNoCause.
Arguments RcMarkDeleteTo {E}.
Arguments RcBuild {E}.
Arguments RcWriteEncode {E}.
Arguments RcWriteProduce {E}.
Arguments RcWriteNoCause {E}.

(** [TableMeta::get_meta_data], with its assertions. *)
Definition get_meta_data {E} (table_id : Z) (inner : TableMetaInner) : res E TableMetaData :=
  if ti_next_sequence_num inner =? ti_latest_marked_deleted inner then
    Ok (MkTableMeta table_id (ti_next_sequence_num inner) (ti_latest_marked_deleted inner) (ti_current_high_watermark inner) None)
  else
    let offset := ti_mapping inner !! ti_latest_marked_deleted inner in
    let? _ := rassert (ti_latest_marked_deleted inner <? ti_next_sequence_num inner) in
    let? _ := rassert (bool_decide (is_Some offset)) in
    Ok (MkTableMeta table_id (ti_next_sequence_num inner) (ti_latest_marked_deleted inner) (ti_current_high_watermark inner) offset).
(** [TableMeta::prepare_for_write]. *)
Definition prepare_for_write {E} (table_id : Z) (inner : TableMetaInner) : res E Z :=
  let? data := get_meta_data table_id inner in Ok (td_next_sequence_num data).

(** [sequences.zip(offsets)], both ranges of [n]. *)
Fixpoint extend_mapping (n : nat) (sequence offset : Z) (mapping : gmap Z Z) : gmap Z Z :=
  match n with
  | O => mapping
  | S n => extend_mapping n (sequence + 1) (offset + 1) (<[sequence := offset]> mapping)
  end.
Definition update_after_write {E} (inner : TableMetaInner) (range_start range_end : Z) : res E TableMetaInner :=
  let? d := i64_op (range_end - range_start) in
  let? d := i64_op (d + 1) in
  let updated_num := as_u 64 d in
  let old_next_sequence_num := ti_next_sequence_num inner in
  let? next_sequence_num := u64_op (old_next_sequence_num + updated_num) in
  let? offsets_end := i64_op (range_end + 1) in
  let mapping := extend_mapping (Z.to_nat (Z.min updated_num (offsets_end - range_start))) old_next_sequence_num range_start (ti_mapping inner) in
  Ok (MkMetaInner next_sequence_num (ti_latest_marked_deleted inner) offsets_end mapping).

(** [TableMeta::mark_delete_to] and [TableWriter::mark_delete_to]. *)
Definition table_mark_delete_to {E} (table_id : Z) (inner : TableMetaInner) (sequence_num : Z) : res (RcError E) TableMetaInner :=
  let? _ := ensure (sequence_num <=? ti_next_sequence_num inner) (RcMarkDeleteTo table_id) in
  let? _ := ensure (ti_latest_marked_deleted inner <=? sequence_num) (RcMarkDeleteTo table_id) in
  match ti_mapping inner !! sequence_num with
  | None =>
      if ti_next_sequence_num inner =? sequence_num then
        Ok (MkMetaInner (ti_next_sequence_num inner) sequence_num (ti_current_high_watermark inner)
              (filter (fun kv => sequence_num <= kv.1) (ti_mapping inner)))
      else Ok inner
  | Some _ =>
      Ok (MkMetaInner (ti_next_sequence_num inner) sequence_num (ti_current_high_watermark inner)
            (filter (fun kv => sequence_num <= kv.1) (ti_mapping inner)))
  end.

(** The messages of a batch, and the sequence after them. *)
Fixpoint build_messages {E} (region_id table_id next_sequence_num : Z) (entries : list bytes) : res (RcError E) (list Message * Z) :=
  match entries with
  | [] => Ok ([], next_sequence_num)
  | payload :: entries =>
      let? key_buf := rcontext RcWriteEncode (encode_key (MkCommonKey region_id table_id next_sequence_num)) in
      let? next := u64_op (next_sequence_num + 1) in
      let? (messages, next) := build_messages region_id table_id next entries in
      Ok (to_message key_buf payload :: messages, next)
  end.

Section region.
Context {M E : Type} {MQ : MessageQueue M E} {SP : SnapshotPb}.

(** [TableWriter::write] under the table's lock: the table's meta data after it. *)
Definition table_write (m : M) (log_topic : string) (region_id : Z) (inner : TableMetaInner) (log_batch : LogWriteBatch)
    : M * TableMetaInner * res (RcError E) Z :=
  let table_id := wl_table_id (lb_location log_batch) in
  match (let? _ := ensure (negb (bool_decide (lb_entries log_batch = []))) RcWriteNoCause in
         let? next := prepare_for_write table_id inner in
         build_messages region_id table_id next (lb_entries log_batch)) with
  | Err e => (m, inner, Err e)
  | Panic => (m, inner, Panic)
  | Ok (messages, next_sequence_num) =>
      let '(m, produced) := mq_produce m log_topic messages in
      match (let? offsets := rcontext RcWriteProduce produced in
             match offsets with
             | [] => Err RcWriteNoCause
             | first :: _ =>
                 let last_offset := default first (last offsets) in
                 let? _ := ensure (first <=? last_offset) RcWriteNoCause in
                 update_after_write inner first last_offset
             end) with
      | Err e => (m, inner, Err e)
      | Panic => (m, inner, Panic)
      | Ok inner => (m, inner, u64_op (next_sequence_num - 1))
      end
  end.

(** [RegionContext]: the tables' meta data. *)
Abbreviation RegionContext := (gmap Z TableMetaInner).
Definition write_table_logs (m : M) (log_topic : string) (region_id : Z) (ctx : RegionContext) (log_batch : LogWriteBatch)
    : M * RegionContext * res (RcError E) Z :=
  let table_id := wl_table_id (lb_location log_batch) in
  let inner := default meta_inner_default (ctx !! table_id) in
  let '(m, inner, r) := table_write m log_topic region_id inner log_batch in
  (m, <[table_id := inner]> ctx, r).
Definition mark_table_delete_to (ctx : RegionContext) (table_id sequence_num : Z) : res (RcError E) RegionContext :=
  match ctx !! table_id with
  | None => Err (RcMarkDeleteTo table_id)
  | Some inner => let? inner := table_mark_delete_to table_id inner sequence_num in Ok (<[table_id := inner]> ctx)
  end.
Fixpoint snapshot_entries {F} (tables : list (Z * TableMetaInner)) : res F (list TableMetaData) :=
  match tables with
  | [] => Ok []
  | (table_id, inner) :: tables =>
      let? data := get_meta_data table_id inner in
      let? entries := snapshot_entries tables in
      Ok (data :: entries)
  end.
Definition make_snapshot {F} (ctx : RegionContext) : res F (list TableMetaData) := snapshot_entries (map_to_list ctx).
Definition get_table_meta_data {F} (ctx : RegionContext) (table_id : Z) : res F (option TableMetaData) :=
  match ctx !! table_id with
  | Some inner => let? data := get_meta_data table_id inner in Ok (Some data)
  | None => Ok None
  end.

(** The loops over the entries of a snapshot: the least safe offset, and the largest
    high watermark. *)
Definition min_safe_offset (entries : list TableMetaData) : Z :=
  fold_left (fun acc e => match td_safe_delete_offset e with Some o => Z.min acc o | None => acc end) entries OFFSET_MAX.
Definition max_high_watermark (entries : list TableMetaData) : Z :=
  fold_left (fun acc e => Z.max acc (td_current_high_watermark e)) entries 0.
(** [RegionMetaSnapshot::safe_delete_offset]. *)
Definition safe_delete_offset (entries : list TableMetaData) : Z :=
  let o := min_safe_offset entries in
  if o =? OFFSET_MAX then max_high_watermark entries else o.

(** [RegionContextBuilder]. *)
Definition meta_inner_of_data (d : TableMetaData) : TableMetaInner :=
  MkMetaInner (td_next_sequence_num d) (td_latest_marked_deleted d) (td_current_high_watermark d)
    (match td_safe_delete_offset d with Some o => {[ td_latest_marked_deleted d := o ]} | None => ∅ end).
Fixpoint apply_region_meta_snapshot (table_metas : RegionContext) (entries : list TableMetaData) : res (RcError E) RegionContext :=
  match entries with
  | [] => Ok table_metas
  | entry :: entries =>
      match table_metas !! td_table_id entry with
      | Some _ => Err RcBuild
      | None => apply_region_meta_snapshot (<[td_table_id entry := meta_inner_of_data entry]> table_metas) entries
      end
  end.
Definition apply_region_meta_delta {F} (table_metas : RegionContext) (table_id sequence_num offset : Z) : res F RegionContext :=
  let meta := default meta_inner_default (table_metas !! table_id) in
  let? next := u64_op (sequence_num + 1) in
  let? hw := i64_op (offset + 1) in
  let mapping := if ti_latest_marked_deleted meta <=? sequence_num then <[sequence_num := offset]> (ti_mapping meta) else ti_mapping meta in
  Ok (<[table_id := MkMetaInner next (ti_latest_marked_deleted meta) hw mapping]> table_metas).

(** ** Snapshots ([snapshot_synchronizer.rs]) and cleaning ([log_cleaner.rs]) *)
Inductive MqCause := CauseMq (e : E) | CauseMeta (e : MqEncError) | CauseLog (e : KvEncError) | CauseContext (e : RcError E).
Inductive SyncError := SyncWithCause (source : MqCause) | SyncNoCause.
Definition sync (m : M) (region_id : Z) (meta_topic : string) (snapshot : list TableMetaData) : M * res SyncError unit :=
  match rcontext (fun e => SyncWithCause (CauseMeta e))
      (let? key := mq_encode_key region_id in let? value := mq_encode_value snapshot in Ok (key, value)) with
  | Err e => (m, Err e)
  | Panic => (m, Panic)
  | Ok (key, value) =>
      let '(m, produced) := mq_produce m meta_topic [to_message key value] in
      match produced with
      | Err e => (m, Err (SyncWithCause (CauseMq e)))
      | Panic => (m, Panic)
      | Ok [offset] =>
          let '(m, deleted) := mq_delete_to m meta_topic offset in
          (m, rcontext (fun e => SyncWithCause (CauseMq e)) deleted)
      | Ok _ => (m, Err SyncNoCause)
      end
  end.
Inductive CleanError := CleanWithCause (source : E) | CleanNoCause.
(** [LogCleaner::maybe_clean_logs], with [last_deleted_offset] after it. *)
Definition maybe_clean_logs (m : M) (log_topic : string) (last_deleted_offset : option Z) (safe : Z)
    : M * option Z * res CleanError unit :=
  match (match last_deleted_offset with
         | Some last => let? _ := ensure (last <=? safe) CleanNoCause in Ok (negb (safe =? last))
         | None => Ok true
         end) with
  | Err e => (m, last_deleted_offset, Err e)
  | Panic => (m, last_deleted_offset, Panic)
  | Ok false => (m, last_deleted_offset, Ok tt)
  | Ok true =>
      match mq_delete_to m log_topic safe with
      | (m, Ok _) => (m, Some safe, Ok tt)
      | (m, Err e) => (m, last_deleted_offset, Err (CleanWithCause e))
      | (m, Panic) => (m, last_deleted_offset, Panic)
      end
  end.

(** ** Regions ([region.rs]) *)
Inductive RegionError :=
| RgWrite (source : RcError E)
| RgScanNoCause
| RgScanWithCause (source : MqCause)
| RgMarkDeleteTo (source : RcError E)
| RgSyncSnapshot (source : SyncError)
| RgCleanSync (source : SyncError)
| RgCleanLogs (source : CleanError)
| RgOpenWithCause (source : MqCause)
| RgOpenNoCause.
Record Region := MkRegion {
  rg_region_id : Z;
  rg_context : RegionContext;
  rg_log_topic : string;
  rg_meta_topic : string;
  rg_last_deleted_offset : option Z
}.
Definition with_context (r : Region) (ctx : RegionContext) : Region :=
  MkRegion (rg_region_id r) ctx (rg_log_topic r) (rg_meta_topic r) (rg_last_deleted_offset r).

Definition open_cause {A} (r : res E A) : wait (res RegionError A) := Returns (rcontext (fun e => RgOpenWithCause (CauseMq e)) r).
Definition open_wait {A} (w : wait (res E A)) : wait (res RegionError A) := match w with Returns r => open_cause r | Blocks => Blocks end.
Definition open_some {A} (o : option A) : wait (res RegionError A) := Returns (match o with Some a => Ok a | None => Err RgOpenNoCause end).
Definition open_check (b : bool) : wait (res RegionError unit) := Returns (ensure b RgOpenNoCause).

(** The tables of the last snapshot, and where to read the log from. *)
Definition recover_region_meta_from_meta (m : M) (region_id : Z) (meta_topic : string) : wait (res RegionError (RegionContext * option Z)) :=
  let! high_watermark := open_cause (mq_high_watermark m meta_topic) in
  if high_watermark =? 0 then Returns (Ok (∅, None)) else
  let! iter := open_cause (mq_consume m meta_topic (At (high_watermark - 1))) in
  let! (message, _, returned_high_watermark, _) := open_wait (next_message m iter) in
  let! _ := open_check (returned_high_watermark =? high_watermark) in
  let! raw_key := open_some (mg_key message) in
  let! raw_value := open_some (mg_value message) in
  let! key := Returns (rcontext (fun e => RgOpenWithCause (CauseMeta e)) (mq_decode_key raw_key)) in
  let! _ := open_check (key =? region_id) in
  let! value := Returns (rcontext (fun e => RgOpenWithCause (CauseMeta e)) (mq_decode_value raw_value)) in
  let min_safe := min_safe_offset value in
  let! metas := Returns (rcontext (fun e => RgOpenWithCause (CauseContext e)) (apply_region_meta_snapshot ∅ value)) in
  Returns (Ok (metas, if min_safe =? OFFSET_MAX then None else Some min_safe)).

(** The loop over the messages of the log, for [fuel] messages. *)
Fixpoint recover_loop (fuel : nat) (m : M) (region_id high_watermark : Z) (iter : ConsumeIterator) (metas : RegionContext)
    : wait (res RegionError RegionContext) :=
  match fuel with
  | O => Blocks
  | S fuel =>
      let! (message, offset, returned_high_watermark, iter) := open_wait (next_message m iter) in
      let! _ := open_check (returned_high_watermark =? high_watermark) in
      let! raw_key := open_some (mg_key message) in
      let! key := Returns (rcontext (fun e => RgOpenWithCause (CauseLog e)) (decode_key raw_key)) in
      let! _ := open_check (ck_region_id key =? region_id) in
      let! metas := Returns (apply_region_meta_delta metas (ck_table_id key) (ck_sequence_num key) offset) in
      let! next := Returns (i64_op (offset + 1)) in
      if next =? high_watermark then Returns (Ok metas) else recover_loop fuel m region_id high_watermark iter metas
  end.
Definition recover_region_meta_from_log (m : M) (region_id : Z) (region_safe_delete_offset : option Z) (log_topic : string)
    (metas : RegionContext) : wait (res RegionError RegionContext) :=
  let start_offset := match region_safe_delete_offset with Some offset => At offset | None => Earliest end in
  let! high_watermark := open_cause (mq_high_watermark m log_topic) in
  if high_watermark =? 0 then Returns (Ok metas) else
  let! iter := open_cause (mq_consume m log_topic start_offset) in
  recover_loop (Z.to_nat high_watermark) m region_id high_watermark iter metas.

Definition region_open (m : M) (namespace : string) (region_id : Z) : M * wait (res RegionError Region) :=
  let log_topic := format_wal_data_topic_name namespace region_id in
  let meta_topic := format_wal_meta_topic_name namespace region_id in
  let '(m, r) := mq_create_topic m log_topic in
  match r with
  | Err e => (m, open_cause (Err e))
  | Panic => (m, Returns Panic)
  | Ok _ =>
      let '(m, r) := mq_create_topic m meta_topic in
      (m, let! _ := open_cause r in
          let! (metas, safe) := recover_region_meta_from_meta m region_id meta_topic in
          let! metas := recover_region_meta_from_log m region_id safe log_topic metas in
          Returns (Ok (MkRegion region_id metas log_topic meta_topic None)))
  end.

Definition region_write (m : M) (r : Region) (log_batch : LogWriteBatch) : M * Region * res RegionError Z :=
  let '(m, ctx, res) := write_table_logs m (rg_log_topic r) (rg_region_id r) (rg_context r) log_batch in
  (m, with_context r ctx, rcontext RgWrite res).

(** [MessageQueueLogIterator]. *)
Record MqLogIterator := MkMqIter {
  mi_region_id : Z;
  mi_table_id : option Z;
  mi_terminate_offset : option Z;
  mi_is_terminated : bool;
  mi_iter : ConsumeIterator
}.
(** [range_scan]. *)
Definition range_scan (m : M) (r : Region) (table_id : option Z) (inclusive_start exclusive_end : Z) : res RegionError MqLogIterator :=
  let? iter := rcontext (fun e => RgScanWithCause (CauseMq e)) (mq_consume m (rg_log_topic r) (At inclusive_start)) in
  Ok (MkMqIter (rg_region_id r) table_id (Some exclusive_end) false iter).
Definition scan_region (m : M) (r : Region) : res RegionError (option MqLogIterator) :=
  let? entries := make_snapshot (rg_context r) in
  let safe := min_safe_offset entries in
  let high_watermark := max_high_watermark entries in
  if safe =? OFFSET_MAX then Ok None else
  let? _ := rassert (safe <? high_watermark) in
  let? it := range_scan m r None safe high_watermark in Ok (Some it).
Definition scan_table (m : M) (r : Region) (table_id : Z) : res RegionError (option MqLogIterator) :=
  let? meta := get_table_meta_data (rg_context r) table_id in
  match meta with
  | None => Ok None
  | Some d =>
      match td_safe_delete_offset d with
      | Some start_offset =>
          let? it := range_scan m r (Some table_id) start_offset (td_current_high_watermark d) in Ok (Some it)
      | None => Ok None
      end
  end.
Definition mq_next_log_entry (m : M) (it : MqLogIterator) : wait (res RegionError (option LogEntry * MqLogIterator)) :=
  if mi_is_terminated it && bool_decide (is_Some (mi_terminate_offset it)) then Returns (Ok (None, it)) else
  let! (message, offset, high_watermark, iter) :=
    match next_message m (mi_iter it) with Returns r => Returns (rcontext (fun e => RgScanWithCause (CauseMq e)) r) | Blocks => Blocks end in
  let! terminated := Returns (match mi_terminate_offset it with
    | Some terminate_offset =>
        let? _ := ensure (terminate_offset <=? high_watermark) RgScanNoCause in
        let? next := i64_op (offset + 1) in
        Ok (if next =? terminate_offset then true else mi_is_terminated it)
    | None => Ok (mi_is_terminated it)
    end) in
  let! raw_key := Returns (unwrap (mg_key message)) in
  let! log_key := Returns (rcontext (fun e => RgScanWithCause (CauseLog e)) (decode_key raw_key)) in
  let! _ := Returns (ensure (ck_region_id log_key =? mi_region_id it) RgScanNoCause) in
  let! log_value := Returns (unwrap (mg_value message)) in
  let! payload := Returns (rcontext (fun e => RgScanWithCause (CauseLog e)) (decode_value log_value)) in
  Returns (Ok (Some (MkLogEntry (ck_table_id log_key) (ck_sequence_num log_key) payload),
    MkMqIter (mi_region_id it) (mi_table_id it) (mi_terminate_offset it) terminated iter)).

(** [Region::mark_delete_to]: the tables are marked, then the snapshot is pushed. *)
Definition region_mark_delete_to (m : M) (r : Region) (table_id sequence_num : Z) : M * Region * res RegionError unit :=
  match rcontext RgMarkDeleteTo (mark_table_delete_to (rg_context r) table_id sequence_num) with
  | Err e => (m, r, Err e)
  | Panic => (m, r, Panic)
  | Ok ctx =>
      let r := with_context r ctx in
      match make_snapshot ctx with
      | Err e => (m, r, Err e)
      | Panic => (m, r, Panic)
      | Ok snapshot =>
          let '(m, synced) := sync m (rg_region_id r) (rg_meta_topic r) snapshot in
          (m, r, rcontext RgSyncSnapshot synced)
      end
  end.
Definition clean_logs (m : M) (r : Region) : M * Region * res RegionError unit :=
  match make_snapshot (rg_context r) with
  | Err e => (m, r, Err e)
  | Panic => (m, r, Panic)
  | Ok snapshot =>
      let '(m, synced) := sync m (rg_region_id r) (rg_meta_topic r) snapshot in
      match synced with
      | Err e => (m, r, Err (RgCleanSync e))
      | Panic => (m, r, Panic)
      | Ok _ =>
          let '(m, last_deleted, cleaned) := maybe_clean_logs m (rg_log_topic r) (rg_last_deleted_offset r) (safe_delete_offset snapshot) in
          (m, MkRegion (rg_region_id r) (rg_context r) (rg_log_topic r) (rg_meta_topic r) last_deleted, rcontext RgCleanLogs cleaned)
      end
  end.

(** ** Namespaces ([namespace.rs], [wal.rs]) *)
Inductive NsError :=
| NsGetSequence (source : RegionError)
| NsReadWithCause (source : RegionError)
| NsReadNoCause
| NsScanWithCause (source : RegionError)
| NsWrite (source : RegionError)
| NsMarkDeleteTo (source : RegionError)
| NsCleanLogs (source : RegionError).
Record NamespaceInner := MkNamespace { ni_namespace : string; ni_regions : gmap Z Region }.
Definition with_region (ns : NamespaceInner) (region_id : Z) (r : Region) : NamespaceInner :=
  MkNamespace (ni_namespace ns) (<[region_id := r]> (ni_regions ns)).

Definition get_or_open_region (m : M) (ns : NamespaceInner) (region_id : Z) : M * NamespaceInner * wait (res RegionError Region) :=
  match ni_regions ns !! region_id with
  | Some r => (m, ns, Returns (Ok r))
  | None =>
      let '(m, w) := region_open m (ni_namespace ns) region_id in
      match w with
      | Returns (Ok r) => (m, with_region ns region_id r, Returns (Ok r))
      | w => (m, ns, w)
      end
  end.
Definition ns_wrap {A} (f : RegionError -> NsError) (w : wait (res RegionError A)) : wait (res NsError A) :=
  match w with Returns r => Returns (rcontext f r) | Blocks => Blocks end.

Definition ns_sequence_num (m : M) (ns : NamespaceInner) (location : WalLocation) : M * NamespaceInner * wait (res NsError Z) :=
  let '(m, ns, w) := get_or_open_region m ns (wl_region_id location) in
  (m, ns, ns_wrap NsGetSequence (
    let! r := w in
    let! meta := Returns (get_table_meta_data (rg_context r) (wl_table_id location)) in
    Returns (match meta with None => Ok MIN_SEQUENCE_NUMBER | Some d => u64_op (td_next_sequence_num d - 1) end))).
Definition ns_write (m : M) (ns : NamespaceInner) (log_batch : LogWriteBatch) : M * NamespaceInner * wait (res NsError Z) :=
  let region_id := wl_region_id (lb_location log_batch) in
  let '(m, ns, w) := get_or_open_region m ns region_id in
  match w with
  | Returns (Ok r) =>
      let '(m, r, res) := region_write m r log_batch in
      (m, with_region ns region_id r, Returns (rcontext NsWrite res))
  | Returns (Err e) => (m, ns, Returns (Err (NsWrite e)))
  | Returns Panic => (m, ns, Returns Panic)
  | Blocks => (m, ns, Blocks)
  end.
(** [WalManager::mark_delete_entries_up_to] calls it with the sequence after. *)
Definition ns_mark_delete_to (m : M) (ns : NamespaceInner) (location : WalLocation) (sequence_num : Z) : M * NamespaceInner * wait (res NsError unit) :=
  let region_id := wl_region_id location in
  let '(m, ns, w) := get_or_open_region m ns region_id in
  match w with
  | Returns (Ok r) =>
      let '(m, r, res) := region_mark_delete_to m r (wl_table_id location) sequence_num in
      (m, with_region ns region_id r, Returns (rcontext NsMarkDeleteTo res))
  | Returns (Err e) => (m, ns, Returns (Err (NsMarkDeleteTo e)))
  | Returns Panic => (m, ns, Returns Panic)
  | Blocks => (m, ns, Blocks)
  end.
Definition mark_delete_entries_up_to (m : M) (ns : NamespaceInner) (location : WalLocation) (sequence_num : Z) : M * NamespaceInner * wait (res NsError unit) :=
  match u64_op (E:=NsError) (sequence_num + 1) with
  | Ok next => ns_mark_delete_to m ns location next
  | _ => (m, ns, Returns Panic)
  end.
Definition ns_close_region (ns : NamespaceInner) (region_id : Z) : NamespaceInner :=
  MkNamespace (ni_namespace ns) (delete region_id (ni_regions ns)).
Definition ns_close (ns : NamespaceInner) : NamespaceInner := MkNamespace (ni_namespace ns) ∅.
(** The cleaner's turn for the regions there were, the first error ending it. *)
Fixpoint ns_clean_regions (m : M) (ns : NamespaceInner) (regions : list Z) : M * NamespaceInner * res NsError unit :=
  match regions with
  | [] => (m, ns, Ok tt)
  | region_id :: regions =>
      match ni_regions ns !! region_id with
      | None => ns_clean_regions m ns regions
      | Some r =>
          let '(m, r, res) := clean_logs m r in
          let ns := with_region ns region_id r in
          match res with
          | Ok _ => ns_clean_regions m ns regions
          | Err e => (m, ns, Err (NsCleanLogs e))
          | Panic => (m, ns, Panic)
          end
      end
  end.
Definition ns_clean_logs (m : M) (ns : NamespaceInner) : M * NamespaceInner * res NsError unit :=
  ns_clean_regions m ns (map_to_list (ni_regions ns)).*1.

(** [ReadTableIterator]; an empty one has no iterator. *)
Record ReadTableIterator := MkReadTable {
  rt_iter : option MqLogIterator;
  rt_table_id : Z;
  rt_start : Z;
  rt_end : Z;
  rt_is_terminated : bool
}.
Record ReadRequest := MkReadRequest { rq_location : WalLocation; rq_start : ReadBoundary; rq_end : ReadBoundary }.
Definition read_table_new (it : MqLogIterator) (request : ReadRequest) : res NsError ReadTableIterator :=
  match as_start_sequence_number (rq_start request), as_end_sequence_number (rq_end request) with
  | Some start, Some stop =>
      let? _ := ensure (start <=? stop) NsReadNoCause in
      Ok (MkReadTable (Some it) (wl_table_id (rq_location request)) start stop false)
  | _, _ => Err NsReadNoCause
  end.
Definition read_table_new_empty : ReadTableIterator := MkReadTable None 0 0 0 true.
Definition ns_read (m : M) (ns : NamespaceInner) (request : ReadRequest) : M * NamespaceInner * wait (res NsError ReadTableIterator) :=
  let '(m, ns, w) := get_or_open_region m ns (wl_region_id (rq_location request)) in
  (m, ns,
   let! it := ns_wrap NsReadWithCause (let! r := w in Returns (scan_table m r (wl_table_id (rq_location request)))) in
   Returns (match it with Some it => read_table_new it request | None => Ok read_table_new_empty end)).
(** The loop of [next_log_entry], for [fuel] entries of the region. *)
Fixpoint read_table_loop (fuel : nat) (m : M) (it : MqLogIterator) (rt : ReadTableIterator) : wait (res NsError (option LogEntry * ReadTableIterator)) :=
  match fuel with
  | O => Blocks
  | S fuel =>
      let! (polled, it) := ns_wrap NsReadWithCause (mq_next_log_entry m it) in
      match polled with
      | Some e =>
          if (le_table_id e =? rt_table_id rt) && (rt_start rt <=? le_sequence e) && (le_sequence e <=? rt_end rt) then
            Returns (Ok (Some e, MkReadTable (Some it) (rt_table_id rt) (rt_start rt) (rt_end rt) (le_sequence e =? rt_end rt)))
          else read_table_loop fuel m it rt
      | None => Returns (Ok (None, MkReadTable (Some it) (rt_table_id rt) (rt_start rt) (rt_end rt) true))
      end
  end.
Definition read_table_next (fuel : nat) (m : M) (rt : ReadTableIterator) : wait (res NsError (option LogEntry * ReadTableIterator)) :=
  if rt_is_terminated rt then Returns (Ok (None, rt)) else
  match rt_iter rt with
  | Some it => read_table_loop fuel m it rt
  | None => Returns (Ok (None, rt))
  end.
(** A reader's loop: entries until there is none, for [n] entries. *)
Fixpoint read_table_all (n fuel : nat) (m : M) (rt : ReadTableIterator) : wait (res NsError (list LogEntry)) :=
  match n with
  | O => Blocks
  | S n =>
      let! (e, rt) := read_table_next fuel m rt in
      match e with
      | None => Returns (Ok [])
      | Some e => let! es := read_table_all n fuel m rt in Returns (Ok (e :: es))
      end
  end.
(** [ScanRegionIterator]: all entries of a region; it adds only the flag. *)
Definition ns_scan (m : M) (ns : NamespaceInner) (region_id : Z) : M * NamespaceInner * wait (res NsError (option MqLogIterator)) :=
  let '(m, ns, w) := get_or_open_region m ns region_id in
  (m, ns, ns_wrap NsScanWithCause (let! r := w in Returns (scan_region m r))).
Fixpoint scan_region_all (n : nat) (m : M) (it : MqLogIterator) : wait (res NsError (list LogEntry)) :=
  match n with
  | O => Blocks
  | S n =>
      let! (e, it) := ns_wrap NsScanWithCause (mq_next_log_entry m it) in
      match e with
      | None => Returns (Ok [])
      | Some e => let! es := scan_region_all n m it in Returns (Ok (e :: es))
      end
  end.
End region.
