(* ===== verification/MqLog.v ===== *)
(** * Invariants of a region's log in a message queue

    A topic as its first offset and its entries, what the context of a region says of
    them ([table_ok], [region_ok]) and what a snapshot of it says ([snap_ok]).  A write,
    a mark and a clean keep them; recovery from a snapshot and the entries after it
    gives a context that agrees with the log again.  No message queue appears here:
    [MqWal.v] connects it. *)

From Stdlib Require Import ZArith Lia String Ascii.
From stdpp Require Import base tactics option list sorting numbers gmap strings pretty relations.
From S2P Require Import Prelude Strings Bytes Datum Varint MemComparable BTree KvEncoder MqRegion.

#[local] Open Scope Z_scope.

(** ** Topics as lists of entries

    A log is its first offset and the entries there are: table, sequence, value. *)
Record entry := MkEntry { en_table : Z; en_seq : Z; en_value : bytes }.
Record log := MkLog { lg_start : Z; lg_entries : list entry }.
Definition lg_end (l : log) : Z := lg_start l + Z.of_nat (length (lg_entries l)).
Definition entry_at (l : log) (o : Z) : option entry := if lg_start l <=? o then lg_entries l !! Z.to_nat (o - lg_start l) else None.
Definition append (l : log) (es : list entry) : log := MkLog (lg_start l) (lg_entries l ++ es).
(** Without the entries before [c]. *)
Definition cut (l : log) (c : Z) : log := MkLog (lg_start l + Z.of_nat (Z.to_nat (c - lg_start l))) (drop (Z.to_nat (c - lg_start l)) (lg_entries l)).

Lemma entry_at_range l o e : entry_at l o = Some e -> lg_start l <= o < lg_end l.
Proof. unfold entry_at, lg_end. destruct (Z.leb_spec (lg_start l) o); [|done]. intros ?%lookup_lt_Some. lia. Qed.
Lemma entry_at_is_some l o : lg_start l <= o < lg_end l -> is_Some (entry_at l o).
Proof. unfold entry_at, lg_end. intros ?. rewrite (proj2 (Z.leb_le _ _)) by lia. apply lookup_lt_is_Some_2. lia. Qed.
Lemma entry_at_append l es o e : entry_at (append l es) o = Some e <->
  entry_at l o = Some e \/ lg_end l <= o /\ es !! Z.to_nat (o - lg_end l) = Some e.
Proof.
  unfold entry_at, append, lg_end. cbn. destruct (Z.leb_spec (lg_start l) o); [|split; [done|intros [?|[? _]]; [done|lia]]].
  rewrite lookup_app_Some. split; intros [?|[? Hx]]; [by left|right|by left|right]; (split; [lia|]);
    [replace (Z.to_nat (o - _)) with (Z.to_nat (o - lg_start l) - length (lg_entries l))%nat by lia; done|
     replace (Z.to_nat (o - lg_start l) - length (lg_entries l))%nat with (Z.to_nat (o - (lg_start l + Z.of_nat (length (lg_entries l))))) by lia; done].
Qed.
Lemma lg_end_append l es : lg_end (append l es) = lg_end l + Z.of_nat (length es).
Proof. unfold lg_end, append. cbn. rewrite length_app. lia. Qed.
Lemma entry_at_cut l c o e : c <= lg_end l -> entry_at (cut l c) o = Some e <-> entry_at l o = Some e /\ c <= o.
Proof.
  intros Hc. unfold entry_at, cut. cbn. destruct (Z.leb_spec (lg_start l) o) as [Ho|Ho].
  - destruct (Z.leb_spec (lg_start l + Z.of_nat (Z.to_nat (c - lg_start l))) o) as [Hx|Hx].
    + rewrite lookup_drop. replace (Z.to_nat (c - lg_start l) + _)%nat with (Z.to_nat (o - lg_start l)) by lia. split; [|naive_solver].
      intros H. split; [done|lia].
    + split; [done|]. intros [? ?]. lia.
  - rewrite (proj2 (Z.leb_gt _ _)) by lia. naive_solver.
Qed.
Lemma lg_start_cut l c : c <= lg_end l -> lg_start (cut l c) = Z.max (lg_start l) c.
Proof. unfold cut, lg_end. cbn. lia. Qed.
Lemma lg_end_cut l c : c <= lg_end l -> lg_end (cut l c) = lg_end l.
Proof. unfold cut, lg_end. cbn. rewrite length_drop. lia. Qed.

(** Offsets of entries. *)
Definition holds (l : log) (P : entry -> Prop) (o : Z) : Prop := exists e, entry_at l o = Some e /\ P e.
#[export] Instance holds_dec l P `{forall e, Decision (P e)} o : Decision (holds l P o).
Proof.
  unfold holds. destruct (entry_at l o) as [e|]; [|right; by intros (? & ? & _)].
  destruct (decide (P e)); [left; by exists e|right; by intros (? & [= <-] & ?)].
Defined.
Lemma last_bounded (Q : Z -> Prop) `{forall o, Decision (Q o)} b o : (forall o, Q o -> o < b) -> Q o ->
  exists x, o <= x /\ Q x /\ forall y, x < y -> ~ Q y.
Proof.
  intros Hb HQ. assert (o < b) as Ho by auto. remember (Z.to_nat (b - o)) as n eqn:Hn. revert b Hb Ho Hn.
  induction n as [|n IH]; intros b Hb Ho Hn; [lia|]. destruct (decide (Q (b - 1))) as [Hq|Hq].
  - exists (b - 1). split_and!; [lia|done|]. intros y Hy ?%Hb. lia.
  - assert (o <> b - 1) by (by intros ->). apply (IH (b - 1)); [|lia|lia]. intros x Hx. pose proof (Hb x Hx). destruct (decide (x = b - 1)) as [->|]; [done|lia].
Qed.
Lemma first_bounded (Q : Z -> Prop) `{forall o, Decision (Q o)} b o : (forall o, Q o -> b <= o) -> Q o ->
  exists x, x <= o /\ Q x /\ forall y, y < x -> ~ Q y.
Proof.
  intros Hb HQ. destruct (last_bounded (fun x => Q (- x)) (- b + 1) (- o)) as (x & Hx & HQx & Hl).
  - intros x ?%Hb. lia.
  - by rewrite Z.opp_involutive.
  - exists (- x). split_and!; [lia|done|]. intros y Hy Hq. apply (Hl (- y)); [lia|by rewrite Z.opp_involutive].
Qed.
Lemma holds_range l P o : holds l P o -> lg_start l <= o < lg_end l.
Proof. intros (e & He & _). by eapply entry_at_range. Qed.

(** ** A table and its log *)
Definition has (l : log) (o t s : Z) : Prop := exists v, entry_at l o = Some (MkEntry t s v).
Definition of_table (l : log) (t o : Z) : Prop := holds l (fun e => en_table e = t) o.
Definition last_at (l : log) (t s o : Z) : Prop := has l o t s /\ forall o', o < o' -> ~ has l o' t s.

(** The meta data [x] of the table [t] in memory, for the log [l].  Sequences go up one
    by one, or back to where a batch that was not acknowledged started; an entry that
    does not continue the batch before it starts one. *)
Record table_ok (l : log) (t : Z) (x : TableMetaInner) : Prop := {
  to_order : 1 <= ti_latest_marked_deleted x <= ti_next_sequence_num x;
  to_hw : 0 <= ti_current_high_watermark x <= lg_end l;
  to_next : ti_next_sequence_num x <= lg_end l + 1;
  to_seq : forall o s, has l o t s -> 1 <= s <= o + 1;
  to_between : forall o1 o2 s1 s2 s, has l o1 t s1 -> has l o2 t s2 -> o1 <= o2 -> s1 <= s <= s2 -> exists o, o1 <= o <= o2 /\ has l o t s;
  to_start : forall o s, has l o t s -> has l (o - 1) t (s - 1) \/
    s <= ti_next_sequence_num x /\ forall o' s', o < o' -> has l o' t s' -> s <= s';
  to_after : forall o s, has l o t s -> ti_current_high_watermark x <= o -> ti_next_sequence_num x <= s;
  to_last : forall o s, has l o t s -> (forall o', o < o' -> ~ of_table l t o') -> ti_next_sequence_num x <= s + 1;
  to_hw_entry : lg_start l < ti_current_high_watermark x -> has l (ti_current_high_watermark x - 1) t (ti_next_sequence_num x - 1);
  to_mapping : forall s, ti_latest_marked_deleted x <= s < ti_next_sequence_num x ->
    exists o, ti_mapping x !! s = Some o /\ last_at l t s o /\ o < ti_current_high_watermark x
}.
(** An entry of [t] written and acknowledged, where [del] and what is before was to be deleted. *)
Definition acked_ok (l : log) (t : Z) (x : TableMetaInner) (del s : Z) (v : bytes) : Prop :=
  s < ti_next_sequence_num x /\
  (del <= s -> ti_latest_marked_deleted x <= s /\ exists o, ti_mapping x !! s = Some o /\ entry_at l o = Some (MkEntry t s v)).

Lemma has_range l o t s : has l o t s -> lg_start l <= o < lg_end l.
Proof. intros (v & Hv). by eapply entry_at_range. Qed.
Lemma has_of_table l o t s : has l o t s -> of_table l t o.
Proof. intros (v & Hv). eexists. by split. Qed.
Lemma of_table_has l t o : of_table l t o -> exists s, has l o t s.
Proof. intros ([t' s v] & He & <-). by exists s, v. Qed.
Lemma has_fun l o t s t' s' : has l o t s -> has l o t' s' -> t = t' /\ s = s'.
Proof. intros (v & Hv) (v' & Hv'). naive_solver. Qed.
#[export] Instance of_table_dec l t o : Decision (of_table l t o).
Proof. unfold of_table. apply _. Defined.
#[export] Instance has_dec l o t s : Decision (has l o t s).
Proof.
  destruct (decide (holds l (fun e => en_table e = t /\ en_seq e = s) o)) as [Hy|Hn].
  - left. destruct Hy as ([t' s' v] & He & <- & <-). by exists v.
  - right. intros (v & Hv). apply Hn. eexists. by split.
Defined.

(** The last entry of a table from an offset on, and the last one with a sequence. *)
Lemma last_of_table l t o : of_table l t o -> exists o' s', o <= o' /\ has l o' t s' /\ forall o'', o' < o'' -> ~ of_table l t o''.
Proof.
  intros Ho. destruct (last_bounded (of_table l t) (lg_end l) o) as (x & Hx & Hq & Hl); [intros ? ?%holds_range; lia|done|].
  apply of_table_has in Hq as [s Hs]. by exists x, s.
Qed.
Lemma last_with_seq l t s o : has l o t s -> exists o', o <= o' /\ last_at l t s o'.
Proof.
  intros Ho. destruct (last_bounded (fun o => has l o t s) (lg_end l) o) as (x & Hx & Hq & Hl); [intros ? ?%has_range; lia|done|].
  by exists x.
Qed.
Lemma first_of_table l t a o : of_table l t o -> a <= o -> exists o' s', a <= o' <= o /\ has l o' t s' /\ forall o'', a <= o'' < o' -> ~ of_table l t o''.
Proof.
  intros Ho Ha. destruct (first_bounded (fun o => a <= o /\ of_table l t o) a o) as (x & Hx & [Hax Hq] & Hl); [tauto|done|].
  apply of_table_has in Hq as [s Hs]. exists x, s. split_and!; [done|done|done|]. intros y [? ?] Hy. by apply (Hl y).
Qed.
Lemma last_at_fun l t s o o' : last_at l t s o -> last_at l t s o' -> o = o'.
Proof. intros [H1 H2] [H1' H2']. destruct (Z.lt_trichotomy o o') as [?|[?|?]]; [by destruct (H2 o')|done|by destruct (H2' o)]. Qed.

Section table.
Context (l : log) (t : Z) (x : TableMetaInner).
Hypothesis ok : table_ok l t x.

(** From an entry on, every sequence up to the next one comes again. *)
Lemma seq_comes o s s' : has l o t s -> s <= s' < ti_next_sequence_num x -> exists o', o <= o' /\ has l o' t s'.
Proof.
  intros Ho Hs. destruct (last_of_table l t o) as (o1 & s1 & Ho1 & H1 & Hl); [by eapply has_of_table|].
  pose proof (to_last _ _ _ ok _ _ H1 Hl). destruct (to_between _ _ _ ok o o1 s s1 s' Ho H1 Ho1) as (o' & ? & ?); [lia|]. exists o'. split; [lia|done].
Qed.
Lemma last_at_below s o o' s' : last_at l t s o -> s < ti_next_sequence_num x -> o < o' -> has l o' t s' -> s <= s'.
Proof.
  intros [Ho Hl] Hs Hlt Ho'. destruct (decide (s <= s')) as [|Hn]; [done|]. destruct (seq_comes o' s' s Ho') as (o'' & ? & H'); [lia|].
  destruct (Hl o''); [lia|done].
Qed.
Lemma last_at_mono s o s' o' : last_at l t s o -> last_at l t s' o' -> s <= s' < ti_next_sequence_num x -> o <= o'.
Proof.
  intros [Ho _] [_ Hl'] Hs. destruct (seq_comes o s s' Ho Hs) as (o'' & ? & H'). destruct (decide (o <= o')) as [|Hn]; [done|]. destruct (Hl' o''); [lia|done].
Qed.
(** An entry that is the first of its table from [a] on, or the last of the sequence
    before the next one, is below what comes later. *)
Lemma first_start a o s : has l o t s -> a < o -> (forall o', a <= o' < o -> ~ of_table l t o') ->
  s <= ti_next_sequence_num x /\ forall o' s', o < o' -> has l o' t s' -> s <= s'.
Proof.
  intros Ho Ha Hf. destruct (to_start _ _ _ ok o s Ho) as [Hp|Hp]; [|done]. destruct (Hf (o - 1)); [lia|by eapply has_of_table].
Qed.
End table.

(** ** Writing *)
Fixpoint batch_entries (t n : Z) (vs : list bytes) : list entry :=
  match vs with [] => [] | v :: vs => MkEntry t n v :: batch_entries t (n + 1) vs end.
Lemma length_batch t n vs : length (batch_entries t n vs) = length vs.
Proof. revert n. induction vs as [|v vs IH]; intros n; cbn; [done|]. by rewrite IH. Qed.
Lemma lookup_batch t n vs i e : batch_entries t n vs !! i = Some e <-> exists v, vs !! i = Some v /\ e = MkEntry t (n + Z.of_nat i) v.
Proof.
  revert n i. induction vs as [|v vs IH]; intros n i; cbn; [naive_solver|]. destruct i as [|i]; cbn.
  - rewrite Z.add_0_r. naive_solver.
  - rewrite IH. by replace (n + 1 + Z.of_nat i) with (n + Z.of_nat (S i)) by lia.
Qed.
Lemma entry_at_written l t n vs i v : vs !! i = Some v -> entry_at (append l (batch_entries t n vs)) (lg_end l + Z.of_nat i) = Some (MkEntry t (n + Z.of_nat i) v).
Proof.
  intros Hi. apply entry_at_append. right. split; [lia|]. rewrite Z.add_simpl_l, Nat2Z.id. apply lookup_batch. by exists v.
Qed.
Lemma has_append l t n vs o t' s : has (append l (batch_entries t n vs)) o t' s <->
  has l o t' s \/ t' = t /\ lg_end l <= o < lg_end l + Z.of_nat (length vs) /\ s = n + (o - lg_end l).
Proof.
  split.
  - intros (v & [He|[Ho He]]%entry_at_append); [left; by exists v|]. apply lookup_batch in He as (v' & Hv & [= -> -> ->]). right.
    apply lookup_lt_Some in Hv. lia.
  - intros [(v & Hv)|(-> & Ho & ->)]; [exists v; apply entry_at_append; by left|].
    destruct (lookup_lt_is_Some_2 vs (Z.to_nat (o - lg_end l))) as [v Hv]; [lia|]. exists v.
    pose proof (entry_at_written l t n vs _ v Hv) as He. by replace (lg_end l + _) with o in He by lia; replace (n + Z.of_nat _) with (n + (o - lg_end l)) in He by lia.
Qed.
Lemma last_at_append l t n vs t' s o : last_at l t' s o -> t' <> t \/ s < n -> last_at (append l (batch_entries t n vs)) t' s o.
Proof. intros [Ho Hl] Hne. split; [apply has_append; by left|]. intros o' Hlt [?|(-> & ? & ->)]%has_append; [by apply (Hl o')|lia]. Qed.

(** Entries of other tables do not matter. *)
Lemma table_ok_other l t n vs t' x : t' <> t -> table_ok l t' x -> table_ok (append l (batch_entries t n vs)) t' x.
Proof.
  intros Hne Hok. pose proof (lg_end_append l (batch_entries t n vs)) as Hend. rewrite length_batch in Hend.
  assert (forall o s, has (append l (batch_entries t n vs)) o t' s <-> has l o t' s) as Hh by (intros o s; rewrite has_append; naive_solver).
  split.
  - apply Hok.
  - pose proof (to_hw _ _ _ Hok). lia.
  - pose proof (to_next _ _ _ Hok). lia.
  - intros o s. rewrite Hh. apply Hok.
  - intros o1 o2 s1 s2 s. rewrite !Hh. intros. destruct (to_between _ _ _ Hok o1 o2 s1 s2 s) as (o & ? & ?); [done..|]. exists o. by rewrite Hh.
  - intros o s. rewrite !Hh. intros [?|[? Hs]]%(to_start _ _ _ Hok); [by left|right]. split; [done|]. intros o' s' ?. rewrite Hh. by apply Hs.
  - intros o s. rewrite Hh. apply Hok.
  - intros o s. rewrite Hh. intros Ho Hl. apply (to_last _ _ _ Hok o s Ho). intros o' Hlt [s' Hs']%of_table_has. eapply (Hl o'); [done|].
    eapply has_of_table, Hh, Hs'.
  - rewrite Hh. apply Hok.
  - intros s (o & ? & ? & ?)%(to_mapping _ _ _ Hok). exists o. split_and!; [done| |done]. apply last_at_append; [done|by left].
Qed.

(** A batch that got into the topic without the writer's knowing. *)
Lemma table_ok_unacked l t x vs : vs <> [] -> table_ok l t x -> table_ok (append l (batch_entries t (ti_next_sequence_num x) vs)) t x.
Proof.
  intros Hvs Hok. set (n := ti_next_sequence_num x) in *. pose proof (lg_end_append l (batch_entries t n vs)) as Hend. rewrite length_batch in Hend.
  assert (0 < length vs)%nat as Hlen by (destruct vs; [done|cbn; lia]). pose proof (to_order _ _ _ Hok). pose proof (to_next _ _ _ Hok).
  split.
  - apply Hok.
  - pose proof (to_hw _ _ _ Hok). lia.
  - lia.
  - intros o s [Ho|(_ & Ho & ->)]%has_append; [by apply Hok|]. lia.
  - intros o1 o2 s1 s2 s H1 [H2|(_ & Ho2 & ->)]%has_append Hle Hs.
    + apply has_append in H1 as [H1|(_ & ? & _)]; [|apply has_range in H2; lia].
      destruct (to_between _ _ _ Hok o1 o2 s1 s2 s) as (o & ? & ?); [done..|]. exists o. split; [done|]. apply has_append. by left.
    + apply has_append in H1 as [H1|(_ & Ho1 & ->)].
      * pose proof (has_range _ _ _ _ H1). destruct (decide (s < n)).
        -- destruct (seq_comes l t x Hok o1 s1 s H1) as (o & ? & Ho); [lia|]. pose proof (has_range _ _ _ _ Ho). exists o. split; [lia|]. apply has_append. by left.
        -- exists (lg_end l + (s - n)). split; [lia|]. apply has_append. right. lia.
      * exists (lg_end l + (s - n)). split; [lia|]. apply has_append. right. lia.
  - intros o s [Ho|(_ & Ho & ->)]%has_append.
    + destruct (to_start _ _ _ Hok o s Ho) as [Hp|[Hle Hl]]; [left; apply has_append; by left|right]. split; [done|].
      intros o' s' Hlt [?|(_ & ? & ->)]%has_append; [by eapply Hl|]. lia.
    + destruct (decide (o = lg_end l)) as [->|Hne].
      * right. split; [lia|]. intros o' s' Hlt [?%has_range|(_ & ? & ->)]%has_append; lia.
      * left. apply has_append. right. lia.
  - intros o s [Ho|(_ & Ho & ->)]%has_append Hge; [by apply (to_after _ _ _ Hok o s)|]. fold n. lia.
  - intros o s Hin Hl. fold n. apply has_append in Hin as [Ho|(_ & Ho & ->)]; [|lia]. exfalso. apply (Hl (lg_end l)); [by apply has_range in Ho; lia|].
    eapply has_of_table, has_append. right. split_and!; [done|lia|lia|done].
  - intros Hlt. apply has_append. left. by apply Hok.
  - intros s Hs. destruct (to_mapping _ _ _ Hok s Hs) as (o & ? & ? & ?). exists o. split_and!; [done| |done]. apply last_at_append; [done|]. right. lia.
Qed.

Lemma lookup_extend_mapping k n o map s : extend_mapping k n o map !! s =
  if decide (n <= s < n + Z.of_nat k) then Some (o + (s - n)) else map !! s.
Proof.
  revert n o map. induction k as [|k IH]; intros n o map; cbn [extend_mapping]; [by rewrite decide_False by lia|]. rewrite IH. destruct (decide (s = n)) as [->|Hne].
  - rewrite decide_False, decide_True by lia. rewrite lookup_insert_eq. f_equal. lia.
  - rewrite lookup_insert_ne by done. repeat case_decide; try done; try lia. f_equal. lia.
Qed.
(** The meta data after a write of [vs] at the end of the log. *)
Definition written (l : log) (x : TableMetaInner) (vs : list bytes) : TableMetaInner :=
  MkMetaInner (ti_next_sequence_num x + Z.of_nat (length vs)) (ti_latest_marked_deleted x) (lg_end l + Z.of_nat (length vs))
    (extend_mapping (length vs) (ti_next_sequence_num x) (lg_end l) (ti_mapping x)).
Lemma table_ok_written l t x vs : vs <> [] -> 0 <= lg_end l -> table_ok l t x ->
  table_ok (append l (batch_entries t (ti_next_sequence_num x) vs)) t (written l x vs).
Proof.
  intros Hvs H0 Hok. pose proof (table_ok_unacked l t x vs Hvs Hok) as Hok'. set (n := ti_next_sequence_num x) in *.
  set (l' := append _ _) in *. pose proof (lg_end_append l (batch_entries t n vs)) as Hend. rewrite length_batch in Hend. fold l' in Hend.
  assert (0 < length vs)%nat as Hlen by (destruct vs; [done|cbn; lia]). pose proof (to_order _ _ _ Hok) as Hord. pose proof (to_next _ _ _ Hok) as Hnx. fold n in Hord, Hnx.
  assert (has l' (lg_end l' - 1) t (n + Z.of_nat (length vs) - 1)) as Hlast by (apply has_append; right; lia).
  split; cbn; fold n.
  - lia.
  - lia.
  - lia.
  - apply Hok'.
  - apply Hok'.
  - intros o s [?|[Hle ?]]%(to_start _ _ _ Hok'); [by left|right]. fold n in Hle. split; [lia|done].
  - intros o s ?%has_range ?. lia.
  - intros o s Ho Hl. destruct (decide (o = lg_end l' - 1)) as [->|Hne].
    + destruct (has_fun _ _ _ _ _ _ Ho Hlast). lia.
    + destruct (Hl (lg_end l' - 1)); [apply has_range in Ho; lia|by eapply has_of_table].
  - intros _. by rewrite <- Hend.
  - intros s Hs. rewrite lookup_extend_mapping. case_decide as Hd.
    + eexists. split; [done|]. split; [|lia]. split; [apply has_append; right; lia|]. intros o' Hlt [Hx|(_ & ? & ?)]%has_append; [apply has_range in Hx; lia|lia].
    + destruct (to_mapping _ _ _ Hok s) as (o & ? & Hla & ?); [fold n; lia|]. exists o. split_and!; [done| |].
      * apply last_at_append; [done|]. right. lia.
      * destruct Hla as [?%has_range _]. lia.
Qed.

(** ** Marking and cutting *)
Definition marked (x : TableMetaInner) (s : Z) : TableMetaInner :=
  MkMetaInner (ti_next_sequence_num x) s (ti_current_high_watermark x) (filter (fun kv => s <= kv.1) (ti_mapping x)).
Lemma table_ok_marked l t x s : ti_latest_marked_deleted x <= s <= ti_next_sequence_num x -> table_ok l t x -> table_ok l t (marked x s).
Proof.
  intros Hs Hok. pose proof (to_order _ _ _ Hok). split; try apply Hok; cbn; [lia|]. intros s' Hs'.
  destruct (to_mapping _ _ _ Hok s') as (o & Hm & Hla & Hlt); [lia|]. exists o. split_and!; [|done|done]. apply map_lookup_filter_Some. split; [done|cbn; lia].
Qed.

(** Where the log can be cut: not before an entry that is kept, and not inside a batch. *)
Definition cut_ok (l : log) (t : Z) (x : TableMetaInner) (c : Z) : Prop :=
  (forall s o, ti_latest_marked_deleted x <= s < ti_next_sequence_num x -> ti_mapping x !! s = Some o -> c <= o) /\
  (forall s, has l c t s -> s <= ti_next_sequence_num x /\ forall o' s', c < o' -> has l o' t s' -> s <= s').
Lemma has_cut l c o t s : c <= lg_end l -> has (cut l c) o t s <-> has l o t s /\ c <= o.
Proof. intros Hc. unfold has. setoid_rewrite (entry_at_cut l c o) ; [|done]. naive_solver. Qed.
Lemma of_table_cut l c o t : c <= lg_end l -> of_table (cut l c) t o <-> of_table l t o /\ c <= o.
Proof.
  intros Hc. split.
  - intros [s Hs]%of_table_has. apply has_cut in Hs as [Hs ?]; [|done]. split; [by eapply has_of_table|done].
  - intros [[s Hs]%of_table_has ?]. eapply has_of_table, has_cut; [done|]. by split.
Qed.
Lemma table_ok_cut l t x c : c <= lg_end l -> cut_ok l t x c -> table_ok l t x -> table_ok (cut l c) t x.
Proof.
  intros Hc [Hkeep Hin] Hok. split; [apply Hok| | | | | | | | |].
  - rewrite lg_end_cut by done. apply Hok.
  - rewrite lg_end_cut by done. apply Hok.
  - intros o s [Ho _]%has_cut; [|done]. by apply Hok.
  - intros o1 o2 s1 s2 s [H1 Hc1]%has_cut [H2 _]%has_cut Hle Hs; [|done|done]. destruct (to_between _ _ _ Hok o1 o2 s1 s2 s) as (o & ? & ?); [done..|].
    exists o. split; [done|]. apply has_cut; [done|]. split; [done|lia].
  - intros o s [Ho Hco]%has_cut; [|done]. destruct (decide (o = c)) as [->|Hne].
    + right. destruct (Hin s Ho) as [? Hl]. split; [done|]. intros o' s' ? [? _]%has_cut; [by eapply Hl|done].
    + destruct (to_start _ _ _ Hok o s Ho) as [?|[? Hl]]; [left; apply has_cut; [done|]; split; [done|lia]|right]. split; [done|].
      intros o' s' ? [? _]%has_cut; [by eapply Hl|done].
  - intros o s [Ho _]%has_cut; [|done]. by apply Hok.
  - intros o s [Ho Hco]%has_cut Hl; [|done]. apply (to_last _ _ _ Hok o s Ho). intros o' Hlt Ho'. apply (Hl o' Hlt). apply of_table_cut; [done|]. split; [done|lia].
  - rewrite lg_start_cut by done. intros Hlt. apply has_cut; [done|]. split; [apply Hok; lia|lia].
  - intros s Hs. destruct (to_mapping _ _ _ Hok s Hs) as (o & Hm & [Ho Hl] & Hlt). exists o. split_and!; [done| |done]. split.
    + apply has_cut; [done|]. split; [done|]. by eapply Hkeep.
    + intros o' ? [? _]%has_cut; [by apply (Hl o')|done].
Qed.

(** ** Snapshots *)
Definition safe_of (x : TableMetaInner) : option Z :=
  if ti_next_sequence_num x =? ti_latest_marked_deleted x then None else ti_mapping x !! ti_latest_marked_deleted x.
Definition data_of (t : Z) (x : TableMetaInner) : TableMetaData :=
  MkTableMeta t (ti_next_sequence_num x) (ti_latest_marked_deleted x) (ti_current_high_watermark x) (safe_of x).
Lemma get_meta_data_ok {E} l t x : table_ok l t x -> get_meta_data (E:=E) t x = Ok (data_of t x).
Proof.
  intros Hok. pose proof (to_order _ _ _ Hok). unfold get_meta_data, data_of, safe_of. destruct (_ =? _) eqn:He; [done|].
  destruct (to_mapping _ _ _ Hok (ti_latest_marked_deleted x)) as (o & -> & _); [lia|]. by rewrite (proj2 (Z.ltb_lt _ _)) by lia.
Qed.
Lemma safe_of_some l t x o : table_ok l t x -> safe_of x = Some o ->
  ti_latest_marked_deleted x < ti_next_sequence_num x /\ last_at l t (ti_latest_marked_deleted x) o /\ o < ti_current_high_watermark x.
Proof.
  intros Hok. pose proof (to_order _ _ _ Hok). unfold safe_of. destruct (_ =? _) eqn:He; [done|]. intros Ho.
  destruct (to_mapping _ _ _ Hok (ti_latest_marked_deleted x)) as (o' & Ho' & ? & ?); [lia|]. rewrite Ho in Ho'. injection Ho' as <-. split; [lia|done].
Qed.
Lemma safe_of_none l t x : table_ok l t x -> safe_of x = None -> ti_latest_marked_deleted x = ti_next_sequence_num x.
Proof.
  intros Hok. pose proof (to_order _ _ _ Hok). unfold safe_of. destruct (_ =? _) eqn:He; [lia|]. intros Ho.
  destruct (to_mapping _ _ _ Hok (ti_latest_marked_deleted x)) as (o' & Ho' & _); [lia|]. congruence.
Qed.

Lemma elem_of_snoc {A} (x y : A) l : x ∈ l ++ [y] <-> x ∈ l \/ x = y.
Proof. rewrite elem_of_app, list_elem_of_singleton. done. Qed.
Lemma min_safe_spec es : (forall e o, e ∈ es -> td_safe_delete_offset e = Some o -> o < OFFSET_MAX) ->
  (min_safe_offset es = OFFSET_MAX /\ forall e, e ∈ es -> td_safe_delete_offset e = None) \/
  (min_safe_offset es < OFFSET_MAX /\ (exists e, e ∈ es /\ td_safe_delete_offset e = Some (min_safe_offset es)) /\
   forall e o, e ∈ es -> td_safe_delete_offset e = Some o -> min_safe_offset es <= o).
Proof.
  unfold min_safe_offset. induction es as [|e es IH] using rev_ind; intros Hb; [left; split; [done|set_solver]|].
  rewrite fold_left_app. cbn. destruct IH as [[Hm Hn]|(Hlt & (e' & He' & Hs') & Hle)]; [set_solver| |]; destruct (td_safe_delete_offset e) as [o|] eqn:He.
  - right. rewrite Hm. assert (o < OFFSET_MAX) by (apply (Hb e o); set_solver). rewrite Z.min_r by lia. split_and!; [done|exists e; set_solver|].
    intros e' o' [Hin%Hn| -> ]%elem_of_snoc; [congruence|]. rewrite He. intros [= <-]. done.
  - left. split; [done|]. set_solver.
  - right. assert (o < OFFSET_MAX) by (apply (Hb e o); set_solver). split_and!; [lia| |].
    + destruct (Z.min_spec (fold_left (fun (acc : Z) (e0 : TableMetaData) => match td_safe_delete_offset e0 with Some o0 => Z.min acc o0 | None => acc end) es OFFSET_MAX) o) as [[? ->]|[? ->] ]; [exists e'; set_solver|exists e; set_solver].
    + intros e1 o1 [Hin| -> ]%elem_of_snoc Ho1; [specialize (Hle _ _ Hin Ho1); lia|]. rewrite He in Ho1. injection Ho1 as <-. lia.
  - right. split_and!; [done|exists e'; set_solver|]. intros e1 o1 [Hin| -> ]%elem_of_snoc Ho1; [by eapply Hle|congruence].
Qed.
Lemma max_hw_spec es : (forall e, e ∈ es -> td_current_high_watermark e <= max_high_watermark es) /\ 0 <= max_high_watermark es /\
  (max_high_watermark es = 0 \/ exists e, e ∈ es /\ td_current_high_watermark e = max_high_watermark es).
Proof.
  unfold max_high_watermark. induction es as [|e es (H1 & H2 & H3)] using rev_ind; [split_and!; [set_solver|done|by left]|]. rewrite fold_left_app. cbn.
  set (h := fold_left _ es 0) in *. split_and!; [|lia|].
  - intros e' [Hin%H1| -> ]%elem_of_snoc; lia.
  - destruct (Z.max_spec h (td_current_high_watermark e)) as [[? ->]|[? ->] ]; [right; exists e; set_solver|].
    destruct H3 as [?|(e' & ? & ?)]; [by left|right; exists e'; set_solver].
Qed.

(** ** Regions *)
Abbreviation context := (gmap Z TableMetaInner).
Record region_ok (l : log) (ctx : context) : Prop := {
  ro_bounds : 0 <= lg_start l /\ lg_end l <= OFFSET_MAX;
  ro_table : forall t x, ctx !! t = Some x -> table_ok l t x;
  ro_absent : forall t o, ctx !! t = None -> ~ of_table l t o;
  ro_start : lg_start l = 0 \/ exists t x, ctx !! t = Some x /\ lg_start l <= ti_current_high_watermark x
}.
Definition snapshot_of (ctx : context) : list TableMetaData := (fun p => data_of p.1 p.2) <$> map_to_list ctx.

Lemma elem_snapshot ctx d : d ∈ snapshot_of ctx <-> exists t x, ctx !! t = Some x /\ d = data_of t x.
Proof.
  unfold snapshot_of. rewrite list_elem_of_fmap. split.
  - intros ([t x] & -> & Hin%elem_of_map_to_list). by exists t, x.
  - intros (t & x & Hx & ->). exists (t, x). split; [done|]. by apply elem_of_map_to_list.
Qed.
Lemma make_snapshot_ok {F} l ctx : region_ok l ctx -> make_snapshot (F:=F) ctx = Ok (snapshot_of ctx).
Proof.
  intros Hok. unfold make_snapshot, snapshot_of. assert (forall t x, (t, x) ∈ map_to_list ctx -> table_ok l t x) as Ht.
  { intros t x Hin%elem_of_map_to_list. by apply (ro_table _ _ Hok). }
  induction (map_to_list ctx) as [|[t x] ts IH]; cbn; [done|]. rewrite (get_meta_data_ok l t x) by (apply Ht; by left). cbn.
  rewrite IH; [done|]. intros t' x' Hin. apply Ht. by right.
Qed.

(** Where the log is read from after the snapshot [S]. *)
Definition replay_from (l : log) (S : list TableMetaData) : Z := if min_safe_offset S =? OFFSET_MAX then lg_start l else min_safe_offset S.
Definition data_default (t : Z) : TableMetaData := MkTableMeta t 1 1 0 None.
Definition snap_map (S : list TableMetaData) : gmap Z TableMetaData := list_to_map ((fun d => (td_table_id d, d)) <$> S).
Definition snap_data (S : list TableMetaData) (t : Z) : TableMetaData := default (data_default t) (snap_map S !! t).
Definition table_of (ctx : context) (t : Z) : TableMetaInner := default meta_inner_default (ctx !! t).

(** The entry [d] of a snapshot for a table whose meta data now is [x]: from [a] on the
    log has what is not in [d]. *)
Record table_snap_ok (l : log) (a t : Z) (d : TableMetaData) (x : TableMetaInner) : Prop := {
  ts_latest : 1 <= td_latest_marked_deleted d <= ti_latest_marked_deleted x;
  ts_next : td_latest_marked_deleted d <= td_next_sequence_num d <= ti_next_sequence_num x;
  ts_hw : 0 <= td_current_high_watermark d <= lg_end l;
  ts_safe : match td_safe_delete_offset d with
            | Some o => a <= o < OFFSET_MAX /\ has l o t (td_latest_marked_deleted d)
            | None => td_latest_marked_deleted d = td_next_sequence_num d
            end;
  ts_first : forall o s, a <= o -> has l o t s -> (forall o', a <= o' < o -> ~ of_table l t o') -> s <= td_latest_marked_deleted d;
  ts_same : (forall o, a <= o -> ~ of_table l t o) ->
    td_next_sequence_num d = ti_next_sequence_num x /\ td_current_high_watermark d = ti_current_high_watermark x;
  ts_after : forall o s, has l o t s -> td_current_high_watermark d <= o -> td_next_sequence_num d <= s;
  ts_hw_entry : lg_start l < td_current_high_watermark d -> has l (td_current_high_watermark d - 1) t (td_next_sequence_num d - 1)
}.
Record snap_ok (l : log) (ctx : context) (S : list TableMetaData) : Prop := {
  so_nodup : NoDup (td_table_id <$> S);
  so_from : lg_start l <= replay_from l S <= lg_end l;
  so_safe : forall e o, e ∈ S -> td_safe_delete_offset e = Some o -> o < OFFSET_MAX;
  so_absent : forall t o, snap_map S !! t = None -> of_table l t o -> replay_from l S <= o;
  so_table : forall t, table_snap_ok l (replay_from l S) t (snap_data S t) (table_of ctx t)
}.

Lemma snapshot_safe_bound l ctx e o : region_ok l ctx -> e ∈ snapshot_of ctx -> td_safe_delete_offset e = Some o -> o < OFFSET_MAX.
Proof.
  intros Hok (t & x & Hx & ->)%elem_snapshot. cbn. intros Ho. pose proof (ro_bounds _ _ Hok).
  destruct (safe_of_some l t x o (ro_table _ _ Hok _ _ Hx) Ho) as (_ & [?%has_range _] & _). lia.
Qed.
(** The cut of a snapshot: the least safe offset, which is an entry's, or no table has one. *)
Lemma snapshot_cases l ctx : region_ok l ctx ->
  (min_safe_offset (snapshot_of ctx) = OFFSET_MAX /\ forall t x, ctx !! t = Some x -> safe_of x = None) \/
  (min_safe_offset (snapshot_of ctx) < OFFSET_MAX /\ (exists t x, ctx !! t = Some x /\ safe_of x = Some (min_safe_offset (snapshot_of ctx))) /\
   forall t x o, ctx !! t = Some x -> safe_of x = Some o -> min_safe_offset (snapshot_of ctx) <= o).
Proof.
  intros Hok. destruct (min_safe_spec (snapshot_of ctx)) as [[Hm Hn]|(Hm & (e & (t & x & Hx & ->)%elem_snapshot & He) & Hle)].
  - intros e o. by apply (snapshot_safe_bound l).
  - left. split; [done|]. intros t x Hx. apply (Hn (data_of t x)). apply elem_snapshot. by exists t, x.
  - right. split_and!; [done|by exists t, x|]. intros t' x' o Hx' Ho. apply (Hle (data_of t' x')); [|done]. apply elem_snapshot. by exists t', x'.
Qed.
Lemma snap_map_snapshot ctx t : snap_map (snapshot_of ctx) !! t = data_of t <$> ctx !! t.
Proof.
  unfold snap_map, snapshot_of. rewrite <- list_fmap_compose.
  assert (((fun d => (td_table_id d, d)) ∘ (fun p : Z * TableMetaInner => data_of p.1 p.2)) <$> map_to_list ctx = (fun p => (p.1, data_of p.1 p.2)) <$> map_to_list ctx) as ->.
  { apply list_fmap_ext. by intros _ [? ?] _. }
  apply option_eq. intros d. rewrite <- elem_of_list_to_map.
  - rewrite list_elem_of_fmap, fmap_Some. split.
    + intros ([t' x] & [= -> ->] & Hin%elem_of_map_to_list). by exists x.
    + intros (x & Hx & ->). exists (t, x). split; [done|]. by apply elem_of_map_to_list.
  - rewrite <- list_fmap_compose. apply NoDup_fst_map_to_list.
Qed.

Lemma snapshot_from l ctx : region_ok l ctx -> lg_start l <= replay_from l (snapshot_of ctx) <= lg_end l.
Proof.
  intros Hok. pose proof (ro_bounds _ _ Hok). assert (lg_start l <= lg_end l) by (unfold lg_end; lia). unfold replay_from.
  destruct (snapshot_cases l ctx Hok) as [[-> _]|(Hm & (t & x & Hx & Ho) & _)]; [by rewrite Z.eqb_refl|].
  rewrite (proj2 (Z.eqb_neq _ _)) by lia. destruct (safe_of_some l t x _ (ro_table _ _ Hok _ _ Hx) Ho) as (_ & [?%has_range _] & _). lia.
Qed.
(** The first entry of a table from there on is not after the one that is kept first. *)
Lemma snapshot_first l ctx t x o s : region_ok l ctx -> ctx !! t = Some x -> let a := replay_from l (snapshot_of ctx) in
  a <= o -> has l o t s -> (forall o', a <= o' < o -> ~ of_table l t o') -> s <= ti_latest_marked_deleted x.
Proof.
  intros Hok Hx a Ha Ho Hf. pose proof (ro_table _ _ Hok _ _ Hx) as Ht.
  assert (o = a -> safe_of x = Some a \/ s <= ti_next_sequence_num x /\ safe_of x = None) as Heq.
  { intros ->. subst a. unfold replay_from in *. destruct (snapshot_cases l ctx Hok) as [[Hm Hn]|(Hm & (t' & x' & Hx' & Ho') & _)].
    - rewrite Hm, Z.eqb_refl in *. right. split; [|by eapply Hn]. destruct (to_start _ _ _ Ht _ _ Ho) as [?%has_range|[? _]]; [lia|done].
    - rewrite (proj2 (Z.eqb_neq _ _)) in * by lia. left. destruct (safe_of_some l t' x' _ (ro_table _ _ Hok _ _ Hx') Ho') as (_ & [Hh _] & _).
      destruct (has_fun _ _ _ _ _ _ Hh Ho) as [-> _]. by rewrite Hx in Hx'; injection Hx' as <-. }
  destruct (safe_of x) as [o1|] eqn:Hs.
  - destruct (safe_of_some l t x o1 Ht Hs) as (Hlt & [Ho1 Hl1] & _). assert (a <= o1) as Ha1.
    { subst a. unfold replay_from. destruct (snapshot_cases l ctx Hok) as [[_ Hn]|(Hm & _ & Hle)]; [by rewrite (Hn _ _ Hx) in Hs|].
      rewrite (proj2 (Z.eqb_neq _ _)) by lia. by apply (Hle t x). }
    destruct (Z.lt_trichotomy o o1) as [Hlt1|[->|Hgt]].
    + destruct (decide (o = a)) as [->|Hne]; [destruct (Heq eq_refl) as [[= ->]|[_ ?]]; [lia|done]|].
      destruct (first_start l t x Ht a o s Ho) as [_ Hl]; [lia|done|]. by apply (Hl o1).
    + destruct (has_fun _ _ _ _ _ _ Ho Ho1) as [_ ->]. done.
    + destruct (Hf o1); [lia|by eapply has_of_table].
  - rewrite (safe_of_none l t x Ht Hs). destruct (decide (o = a)) as [->|Hne]; [by destruct (Heq eq_refl) as [?|[? _]]|].
    destruct (first_start l t x Ht a o s Ho) as [? _]; [lia|done|done].
Qed.
Lemma snapshot_taken l ctx : region_ok l ctx -> snap_ok l ctx (snapshot_of ctx).
Proof.
  intros Hok. assert (NoDup (td_table_id <$> snapshot_of ctx)) as Hnd.
  { unfold snapshot_of. rewrite <- list_fmap_compose. apply NoDup_fst_map_to_list. }
  split; [done|by apply snapshot_from|by intros; eapply snapshot_safe_bound| |].
  - intros t o Hn Ho. rewrite snap_map_snapshot, fmap_None in Hn. by destruct (ro_absent _ _ Hok t o Hn).
  - intros t. unfold snap_data, table_of. rewrite snap_map_snapshot. destruct (ctx !! t) as [x|] eqn:Hx; cbn.
    + pose proof (ro_table _ _ Hok _ _ Hx) as Ht. pose proof (to_order _ _ _ Ht). split; cbn; try apply Ht; try lia; try done.
      * destruct (safe_of x) as [o|] eqn:Ho; [|by eapply safe_of_none]. destruct (safe_of_some l t x o Ht Ho) as (_ & [Hh _] & _). split; [|done].
        pose proof (ro_bounds _ _ Hok). pose proof (has_range _ _ _ _ Hh). split; [|lia]. unfold replay_from.
        destruct (snapshot_cases l ctx Hok) as [[_ Hn]|(Hm & _ & Hle)]; [by rewrite (Hn _ _ Hx) in Ho|]. rewrite (proj2 (Z.eqb_neq _ _)) by lia. by apply (Hle t x).
      * intros o s. by apply snapshot_first.
    + assert (forall o s, ~ has l o t s) as Hno by (intros o s ?%has_of_table; by apply (ro_absent _ _ Hok t o)).
      pose proof (ro_bounds _ _ Hok). assert (lg_start l <= lg_end l) by (unfold lg_end; lia).
      split; cbn; try lia; try done; try (intros; by destruct (Hno o s)).
Qed.

(** Cutting the log at the safe offset of a snapshot. *)
Lemma mapping_from_safe l t x o s o' : table_ok l t x -> safe_of x = Some o -> ti_latest_marked_deleted x <= s < ti_next_sequence_num x ->
  ti_mapping x !! s = Some o' -> o <= o'.
Proof.
  intros Ht Ho Hs Hm. destruct (safe_of_some l t x o Ht Ho) as (_ & Hla & _). destruct (to_mapping _ _ _ Ht s Hs) as (o1 & Hm1 & Hla1 & _).
  rewrite Hm in Hm1. injection Hm1 as <-. by eapply last_at_mono.
Qed.
Lemma snapshot_cut_ok l ctx t x : region_ok l ctx -> ctx !! t = Some x -> cut_ok l t x (safe_delete_offset (snapshot_of ctx)).
Proof.
  intros Hok Hx. pose proof (ro_table _ _ Hok _ _ Hx) as Ht. unfold safe_delete_offset.
  destruct (snapshot_cases l ctx Hok) as [[Hm Hn]|(Hm & (t' & x' & Hx' & Ho') & Hle)].
  - rewrite Hm, Z.eqb_refl. pose proof (safe_of_none l t x Ht (Hn _ _ Hx)) as Heq. split; [intros; lia|]. set (c := max_high_watermark _).
    destruct (max_hw_spec (snapshot_of ctx)) as (Hmax & H0 & Hex). fold c in Hmax, H0, Hex.
    assert (ti_current_high_watermark x <= c) as Hc by (apply (Hmax (data_of t x)), elem_snapshot; by exists t, x).
    intros s Hs. pose proof (to_after _ _ _ Ht c s Hs Hc). assert (s <= ti_next_sequence_num x) as Hle.
    { destruct (to_start _ _ _ Ht c s Hs) as [Hp|[? _]]; [|done]. pose proof (has_range _ _ _ _ Hp).
      destruct Hex as [?|(e & (t' & x' & Hx' & ->)%elem_snapshot & He)]; [pose proof (ro_bounds _ _ Hok); lia|]. cbn in He.
      pose proof (to_hw_entry _ _ _ (ro_table _ _ Hok _ _ Hx')) as Hhw. rewrite He in Hhw.
      destruct (has_fun _ _ _ _ _ _ Hp (Hhw ltac:(lia))) as [-> ?]. rewrite Hx in Hx'. injection Hx' as <-. lia. }
    split; [done|]. intros o' s' Hlt Ho'. pose proof (to_after _ _ _ Ht o' s' Ho' ltac:(lia)). lia.
  - rewrite (proj2 (Z.eqb_neq _ _)) by lia. set (c := min_safe_offset _) in *. split.
    + intros s o Hs Ho. destruct (safe_of x) as [o1|] eqn:Hs1; [|pose proof (safe_of_none l t x Ht Hs1); lia].
      transitivity o1; [by apply (Hle t x)|]. by eapply mapping_from_safe.
    + intros s Hs. destruct (safe_of_some l t' x' c (ro_table _ _ Hok _ _ Hx') Ho') as (Hlt & Hla & _). destruct (has_fun _ _ _ _ _ _ Hs (proj1 Hla)) as [-> ->].
      rewrite Hx in Hx'. injection Hx' as <-. split; [lia|]. intros o' s' Hlt' Hh. by eapply (last_at_below l t' x Ht).
Qed.
Lemma snapshot_cut_bounds l ctx : region_ok l ctx -> lg_start l <= safe_delete_offset (snapshot_of ctx) <= lg_end l.
Proof.
  intros Hok. unfold safe_delete_offset. pose proof (snapshot_from l ctx Hok) as Hf. unfold replay_from in Hf. destruct (_ =? _); [|done].
  destruct (max_hw_spec (snapshot_of ctx)) as (Hmax & H0 & Hex). split.
  - destruct (ro_start _ _ Hok) as [->|(t & x & Hx & Hle)]; [done|]. etransitivity; [done|]. apply (Hmax (data_of t x)), elem_snapshot. by exists t, x.
  - destruct Hex as [->|(e & (t & x & Hx & ->)%elem_snapshot & <-)]; [pose proof (ro_bounds _ _ Hok); lia|]. cbn. apply (to_hw _ _ _ (ro_table _ _ Hok _ _ Hx)).
Qed.
Lemma region_ok_cut l ctx : region_ok l ctx -> region_ok (cut l (safe_delete_offset (snapshot_of ctx))) ctx.
Proof.
  intros Hok. pose proof (snapshot_cut_bounds l ctx Hok) as Hc. pose proof (snapshot_cut_ok l ctx) as Hcut. set (c := safe_delete_offset _) in *.
  pose proof (ro_bounds _ _ Hok). split.
  - rewrite lg_start_cut, lg_end_cut by lia. lia.
  - intros t x Hx. apply table_ok_cut; [lia|by apply Hcut|by apply Hok].
  - intros t o Ht [? _]%of_table_cut; [by apply (ro_absent _ _ Hok t o)|lia].
  - rewrite lg_start_cut, Z.max_r by lia. destruct (decide (c = 0)) as [->|Hne]; [by left|right]. subst c. unfold safe_delete_offset in *.
    destruct (snapshot_cases l ctx Hok) as [[Hm Hn]|(Hm & (t & x & Hx & Ho) & _)].
    + rewrite Hm, Z.eqb_refl in *. destruct (max_hw_spec (snapshot_of ctx)) as (_ & _ & [?|(e & (t & x & Hx & ->)%elem_snapshot & <-)]); [done|]. by exists t, x.
    + rewrite (proj2 (Z.eqb_neq _ _)) in * by lia. exists t, x. split; [done|]. destruct (safe_of_some l t x _ (ro_table _ _ Hok _ _ Hx) Ho) as (_ & _ & ?). lia.
Qed.

(** *** The operations of a region *)
Lemma of_table_append l t n vs t' o : of_table (append l (batch_entries t n vs)) t' o <->
  of_table l t' o \/ t' = t /\ lg_end l <= o < lg_end l + Z.of_nat (length vs).
Proof.
  split.
  - intros [s [Hs|(? & ? & _)]%has_append]%of_table_has; [left; by eapply has_of_table|by right].
  - intros [[s Hs]%of_table_has|[-> Ho]]; eapply has_of_table, has_append; [by left|]. right. split_and!; [done|lia|lia|done].
Qed.
Lemma table_ok_default l t : 0 <= lg_end l -> (forall o, ~ of_table l t o) -> 0 <= lg_start l -> table_ok l t meta_inner_default.
Proof.
  intros Hl Hno Hs. assert (forall o s, ~ has l o t s) as Hh by (intros o s ?%has_of_table; by apply (Hno o)).
  split; unfold meta_inner_default, MIN_SEQUENCE_NUMBER; cbn; [lia..| | | | | | |]; intros; try (by destruct (Hh o s)); try (by destruct (Hh o1 s1)); exfalso; lia.
Qed.
Lemma table_of_ok l ctx t : region_ok l ctx -> table_ok l t (table_of ctx t).
Proof.
  intros Hok. unfold table_of. destruct (ctx !! t) as [x|] eqn:Hx; cbn; [by apply Hok|]. pose proof (ro_bounds _ _ Hok).
  apply table_ok_default; [unfold lg_end; lia| |lia]. intros o. by apply Hok.
Qed.
Lemma table_of_insert ctx t x t' : table_of (<[t := x]> ctx) t' = if decide (t = t') then x else table_of ctx t'.
Proof. unfold table_of. case_decide as Hd; [subst; by rewrite lookup_insert_eq|by rewrite lookup_insert_ne]. Qed.

(** The meta data of one table changes. *)
Lemma region_ok_set l ctx t x : region_ok l ctx -> table_ok l t x -> ti_current_high_watermark (table_of ctx t) <= ti_current_high_watermark x ->
  region_ok l (<[t := x]> ctx).
Proof.
  intros Hok Hx Hhw. split; [apply Hok| | |].
  - intros t' x' [[<- <-]|[_ Hx']]%lookup_insert_Some; [done|by apply Hok].
  - intros t' o [Hn _]%lookup_insert_None. by apply Hok.
  - destruct (ro_start _ _ Hok) as [?|(t' & x' & Hx' & Hle)]; [by left|right]. destruct (decide (t = t')) as [->|Hne].
    + exists t', x. rewrite lookup_insert_eq. split; [done|]. unfold table_of in Hhw. rewrite Hx' in Hhw. cbn in Hhw. lia.
    + exists t', x'. by rewrite lookup_insert_ne.
Qed.
Lemma snap_ok_set l ctx S t x : snap_ok l ctx S -> ti_latest_marked_deleted (table_of ctx t) <= ti_latest_marked_deleted x ->
  ti_next_sequence_num x = ti_next_sequence_num (table_of ctx t) -> ti_current_high_watermark x = ti_current_high_watermark (table_of ctx t) ->
  snap_ok l (<[t := x]> ctx) S.
Proof.
  intros [? ? ? ? Ht] Hl Hn Hh. split; [done..|]. intros t'. rewrite table_of_insert. case_decide as Hd; [subst t'|apply Ht].
  destruct (Ht t) as [[? ?] ? ? ? ? ? ? ?]. split; rewrite ?Hn, ?Hh; try done. lia.
Qed.

(** A batch is appended; the writer learns of it or not. *)
Lemma region_ok_append l ctx t vs x : region_ok l ctx -> vs <> [] -> lg_end l + Z.of_nat (length vs) <= OFFSET_MAX ->
  let l' := append l (batch_entries t (ti_next_sequence_num (table_of ctx t)) vs) in
  x = table_of ctx t \/ x = written l (table_of ctx t) vs -> region_ok l' (<[t := x]> ctx).
Proof.
  intros Hok Hvs Hb l' Hx. pose proof (ro_bounds _ _ Hok). pose proof (table_of_ok l ctx t Hok) as Ht.
  assert (lg_end l' = lg_end l + Z.of_nat (length vs)) as Hend by (unfold l'; by rewrite lg_end_append, length_batch).
  assert (table_ok l' t x) as Htx by (destruct Hx as [->| ->]; [by apply table_ok_unacked|apply table_ok_written; [done|unfold lg_end; lia|done]]).
  assert (ti_current_high_watermark (table_of ctx t) <= ti_current_high_watermark x) as Hhw.
  { destruct Hx as [->| ->]; [done|]. cbn. pose proof (to_hw _ _ _ Ht). lia. }
  split; [cbn; lia| | |].
  - intros t' x' [[<- <-]|[Hne Hx']]%lookup_insert_Some; [done|]. apply table_ok_other; [done|]. by apply Hok.
  - intros t' o [Hn Hne]%lookup_insert_None [Ho|[-> _]]%of_table_append; [|done]. by apply (ro_absent _ _ Hok t' o).
  - destruct (ro_start _ _ Hok) as [?|(t' & x' & Hx' & Hle)]; [by left|right]. destruct (decide (t = t')) as [<-|Hne].
    + exists t, x. rewrite lookup_insert_eq. split; [done|]. unfold table_of in Hhw. rewrite Hx' in Hhw. cbn in *. lia.
    + exists t', x'. by rewrite lookup_insert_ne.
Qed.
Lemma table_snap_append l a t d x x' vs : vs <> [] -> a <= lg_end l ->
  ti_latest_marked_deleted x <= ti_latest_marked_deleted x' -> ti_next_sequence_num x <= ti_next_sequence_num x' ->
  table_snap_ok l a t d x -> table_snap_ok (append l (batch_entries t (ti_next_sequence_num x) vs)) a t d x'.
Proof.
  intros Hvs Ha Hl Hn [H1 H2 H3 H4 H5 H6 H7 H8]. assert (0 < length vs)%nat as Hlen by (destruct vs; [done|cbn; lia]).
  assert (lg_end (append l (batch_entries t (ti_next_sequence_num x) vs)) = lg_end l + Z.of_nat (length vs)) as Hend by (by rewrite lg_end_append, length_batch).
  split; [lia|lia|lia| | | | |].
  - destruct (td_safe_delete_offset d); [|done]. destruct H4 as [? ?]. split; [done|]. apply has_append. by left.
  - intros o s Hao Ho Hf. assert (forall o', a <= o' < o -> ~ of_table l t o') as Hf' by (intros o' Ho' Hin; apply (Hf o' Ho'), of_table_append; by left).
    apply has_append in Ho as [Ho|(_ & Ho & ->)]; [by eapply H5|]. destruct (decide (o = lg_end l)) as [->|Hne].
    + destruct H6 as [Heq _]. { intros o' Ho' Hin. apply (Hf' o'); [|done]. apply holds_range in Hin. lia. }
      destruct (td_safe_delete_offset d) as [o1|]; [|lia]. destruct H4 as [[? _] Ho1]. destruct (Hf' o1); [apply has_range in Ho1; lia|by eapply has_of_table].
    + destruct (Hf (lg_end l)); [lia|]. apply of_table_append. right. lia.
  - intros Hno. destruct (Hno (lg_end l) Ha). apply of_table_append. right. lia.
  - intros o s [Ho|(_ & Ho & ->)]%has_append Hle; [by eapply H7|lia].
  - intros Hlt. apply has_append. left. by apply H8.
Qed.
Lemma table_snap_other l a t d x t' n vs : t <> t' -> table_snap_ok l a t d x -> table_snap_ok (append l (batch_entries t' n vs)) a t d x.
Proof.
  intros Hne [H1 H2 H3 H4 H5 H6 H7 H8].
  assert (forall o s, has (append l (batch_entries t' n vs)) o t s <-> has l o t s) as Hh by (intros o s; rewrite has_append; naive_solver).
  assert (forall o, of_table (append l (batch_entries t' n vs)) t o <-> of_table l t o) as Ho by (intros o; rewrite of_table_append; naive_solver).
  split; [done|done| | | | | |].
  - rewrite lg_end_append. lia.
  - destruct (td_safe_delete_offset d); [|done]. by rewrite Hh.
  - intros o s Ha. rewrite Hh. intros Hs Hf. apply (H5 o s Ha Hs). intros o' ?. rewrite <- Ho. by apply Hf.
  - intros Hf. apply H6. intros o ?. rewrite <- Ho. by apply Hf.
  - intros o s. rewrite Hh. apply H7.
  - intros Hlt. rewrite Hh. by apply H8.
Qed.
Lemma snap_ok_append l ctx S t vs x : snap_ok l ctx S -> vs <> [] ->
  x = table_of ctx t \/ x = written l (table_of ctx t) vs ->
  snap_ok (append l (batch_entries t (ti_next_sequence_num (table_of ctx t)) vs)) (<[t := x]> ctx) S.
Proof.
  intros [Hnd Hf Hs Ha Ht] Hvs Hx. set (l' := append _ _).
  assert (replay_from l' S = replay_from l S) as Hr by done. split; [done| |done| |].
  - rewrite Hr. unfold l'. rewrite lg_end_append. cbn. lia.
  - intros t' o Hn [Ho|[-> Ho]]%of_table_append; rewrite Hr; [by eapply Ha|lia].
  - intros t'. rewrite Hr, table_of_insert. case_decide as Hd; [subst t'|].
    + apply table_snap_append; [done|lia| | |apply Ht]; destruct Hx as [->| ->]; cbn; lia.
    + apply table_snap_other; [done|apply Ht].
Qed.

(** *** Recovery *)
Definition replayed (l : log) (a b t : Z) (d : TableMetaData) (y : option TableMetaInner) (y0 : option TableMetaInner) : Prop :=
  ((forall o, a <= o < b -> ~ of_table l t o) -> y = y0) /\
  forall o s, has l o t s -> a <= o < b -> (forall o', o < o' < b -> ~ of_table l t o') ->
    exists x, y = Some x /\ ti_latest_marked_deleted x = td_latest_marked_deleted d /\ ti_next_sequence_num x = s + 1 /\
      ti_current_high_watermark x = o + 1 /\
      forall s' o', td_latest_marked_deleted d <= s' -> has l o' t s' -> a <= o' < b -> (forall o'', o' < o'' < b -> ~ has l o'' t s') ->
        ti_mapping x !! s' = Some o'.
(** The tables after the snapshot [S] is applied. *)
Definition snap_metas (S : list TableMetaData) : context := meta_inner_of_data <$> snap_map S.
Lemma table_of_snap_metas S t : table_of (snap_metas S) t = meta_inner_of_data (snap_data S t).
Proof. unfold table_of, snap_metas, snap_data. rewrite lookup_fmap. by destruct (snap_map S !! t). Qed.

(** A table's meta data after the delta of an entry. *)
Definition delta_of (x : TableMetaInner) (s o : Z) : TableMetaInner :=
  MkMetaInner (s + 1) (ti_latest_marked_deleted x) (o + 1)
    (if ti_latest_marked_deleted x <=? s then <[s := o]> (ti_mapping x) else ti_mapping x).
Lemma replayed_latest l a b S t metas : replayed l a b t (snap_data S t) (metas !! t) (snap_metas S !! t) ->
  ti_latest_marked_deleted (table_of metas t) = td_latest_marked_deleted (snap_data S t) /\
  forall s' o', td_latest_marked_deleted (snap_data S t) <= s' -> has l o' t s' -> a <= o' < b -> (forall o'', o' < o'' < b -> ~ has l o'' t s') ->
    ti_mapping (table_of metas t) !! s' = Some o'.
Proof.
  intros [H0 H1]. destruct (decide (Exists (fun o => of_table l t o) (seqZ a (b - a)))) as [Hex|Hno].
  - apply Exists_exists in Hex as (o & Ho & Hin). apply elem_of_seqZ in Ho.
    destruct (last_bounded (fun o => a <= o < b /\ of_table l t o) b o) as (z & Hz & [Hzr Hzt] & Hl); [intros ? [? _]; lia|split; [lia|done]|].
    apply of_table_has in Hzt as [s Hs]. destruct (H1 z s Hs Hzr) as (x & Hx & ? & _ & _ & Hm).
    { intros o' Ho' Hin'. apply (Hl o'); [lia|]. split; [lia|done]. }
    unfold table_of. rewrite Hx. by split.
  - assert (forall o, a <= o < b -> ~ of_table l t o) as Hn.
    { intros o Ho Hin. apply Hno, Exists_exists. exists o. split; [apply elem_of_seqZ; lia|done]. }
    pose proof (table_of_snap_metas S t) as Ht. unfold table_of in *. rewrite (H0 Hn), Ht. split; [by destruct (snap_data S t)|].
    intros s' o' _ Hh Ho' _. destruct (Hn o' Ho'). by eapply has_of_table.
Qed.
Lemma replayed_step l a b S metas t s v : a <= b -> entry_at l b = Some (MkEntry t s v) ->
  (forall t', replayed l a b t' (snap_data S t') (metas !! t') (snap_metas S !! t')) ->
  forall t', replayed l a (b + 1) t' (snap_data S t') (<[t := delta_of (table_of metas t) s b]> metas !! t') (snap_metas S !! t').
Proof.
  intros Hab He Hr t'. assert (has l b t s) as Hb by (by exists v). destruct (decide (t = t')) as [<-|Hne].
  - rewrite lookup_insert_eq. destruct (replayed_latest l a b S t metas (Hr t)) as [Hlat Hmap]. split.
    + intros Hn. destruct (Hn b); [lia|by eapply has_of_table].
    + intros o s1 Ho Hrange Hl. assert (o = b) as ->.
      { destruct (decide (o = b)) as [|Hne]; [done|]. destruct (Hl b); [lia|by eapply has_of_table]. }
      destruct (has_fun _ _ _ _ _ _ Ho Hb) as [_ ->]. eexists. split; [done|]. cbn. split_and!; [done|done|done|].
      intros s' o' Hs' Ho' Hr' Hl'. rewrite Hlat. destruct (decide (o' = b)) as [->|Hob].
      * destruct (has_fun _ _ _ _ _ _ Ho' Hb) as [_ ->]. rewrite (proj2 (Z.leb_le _ _)) by done. apply lookup_insert_eq.
      * assert (s' <> s) as Hss by (intros ->; apply (Hl' b); [lia|done]).
        assert (ti_mapping (table_of metas t) !! s' = Some o') as Hm by (apply Hmap; [done|done|lia|intros o'' ?; apply Hl'; lia]).
        destruct (_ <=? _); [by rewrite lookup_insert_ne|done].
  - rewrite lookup_insert_ne by done. assert (~ of_table l t' b) as Hnb by (intros [s' Hs']%of_table_has; by destruct (has_fun _ _ _ _ _ _ Hs' Hb)).
    destruct (Hr t') as [H0 H1]. split.
    + intros Hn. apply H0. intros o Ho. apply Hn. lia.
    + intros o s1 Ho Hrange Hl. assert (o <> b) by (intros ->; apply Hnb; by eapply has_of_table).
      destruct (H1 o s1 Ho) as (x & Hx & ? & ? & ? & Hm); [lia|intros o' ?; apply Hl; lia|]. exists x. split_and!; [done..|].
      intros s' o' Hs' Ho' Hr' Hl'. assert (o' <> b) by (intros ->; apply Hnb; by eapply has_of_table). apply Hm; [done|done|lia|]. intros o'' ?. apply Hl'. lia.
Qed.

Lemma recovered_cases l a t : (forall o, a <= o -> ~ of_table l t o) \/
  exists o s, a <= o /\ has l o t s /\ forall o', o < o' -> ~ of_table l t o'.
Proof.
  destruct (decide (Exists (fun o => of_table l t o) (seqZ a (lg_end l - a)))) as [Hex|Hno].
  - right. apply Exists_exists in Hex as (o & Ho & Hin). apply elem_of_seqZ in Ho. destruct (last_of_table l t o Hin) as (o' & s & ? & ? & ?).
    exists o', s. split_and!; [lia|done|done].
  - left. intros o Ho Hin. apply Hno, Exists_exists. exists o. split; [|done]. apply elem_of_seqZ. apply holds_range in Hin. lia.
Qed.

(** A table after recovery: what was acknowledged is there, if it was not to be deleted. *)
Definition recovers (l : log) (a t : Z) (d : TableMetaData) (x y : TableMetaInner) : Prop :=
  table_ok l t y /\ table_snap_ok l a t d y /\ (forall del s v, acked_ok l t x del s v -> acked_ok l t y del s v) /\
  (lg_start l <= ti_current_high_watermark x -> lg_start l <= ti_current_high_watermark y).
Lemma recovered_none l a t d x : table_ok l t x -> table_snap_ok l a t d x -> (forall o, a <= o -> ~ of_table l t o) ->
  recovers l a t d x (meta_inner_of_data d).
Proof.
  intros Hok Hs Hno. destruct (ts_same _ _ _ _ _ Hs Hno) as [Hn Hh]. pose proof (ts_latest _ _ _ _ _ Hs). pose proof (ts_next _ _ _ _ _ Hs).
  assert (td_latest_marked_deleted d = td_next_sequence_num d) as Heq.
  { pose proof (ts_safe _ _ _ _ _ Hs) as Hsafe. destruct (td_safe_delete_offset d) as [o|]; [|done]. destruct Hsafe as [[? _] Ho].
    destruct (Hno o); [lia|by eapply has_of_table]. }
  split_and!.
  - split; cbn; rewrite ?Hn, ?Hh; [lia|apply Hok..|]. intros s ?. exfalso. lia.
  - destruct Hs. split; cbn; try done; lia.
  - intros del s v [Hlt Hk]. split; [cbn; lia|]. intros Hd. destruct (Hk Hd). exfalso. lia.
  - cbn. by rewrite Hh.
Qed.
Lemma recovered_last l a t d x y o s : table_ok l t x -> table_snap_ok l a t d x -> 0 <= a ->
  a <= o -> has l o t s -> (forall o', o < o' -> ~ of_table l t o') ->
  ti_latest_marked_deleted y = td_latest_marked_deleted d -> ti_next_sequence_num y = s + 1 -> ti_current_high_watermark y = o + 1 ->
  (forall s' o', td_latest_marked_deleted d <= s' -> last_at l t s' o' -> a <= o' -> ti_mapping y !! s' = Some o') ->
  recovers l a t d x y.
Proof.
  intros Hok Hs Ha0 Ha Ho Hl Hlat Hnext Hhw Hmap. pose proof (ts_latest _ _ _ _ _ Hs). pose proof (ts_next _ _ _ _ _ Hs). pose proof (to_order _ _ _ Hok).
  pose proof (to_last _ _ _ Hok o s Ho Hl) as Hge. pose proof (has_range _ _ _ _ Ho) as Hor. pose proof (to_seq _ _ _ Hok o s Ho).
  assert (forall s', td_latest_marked_deleted d <= s' <= s -> exists o', last_at l t s' o' /\ a <= o' <= o) as Hmid.
  { intros s' Hs'. destruct (first_of_table l t a o) as (o1 & s1 & Ho1 & Hh1 & Hf); [by eapply has_of_table|done|].
    pose proof (ts_first _ _ _ _ _ Hs o1 s1 ltac:(lia) Hh1 Hf). destruct (to_between _ _ _ Hok o1 o s1 s s' Hh1 Ho) as (o2 & ? & Hh2); [lia|lia|].
    destruct (last_with_seq l t s' o2 Hh2) as (o3 & ? & Hh3). exists o3. split; [done|]. split; [lia|]. destruct (decide (o3 <= o)) as [|Hgt]; [done|].
    destruct (Hl o3); [lia|]. eapply has_of_table, Hh3. }
  split_and!.
  - split; rewrite ?Hlat, ?Hnext, ?Hhw; [lia|lia|lia|apply Hok|apply Hok| | | | |].
    + intros o' s' [?|[? ?]]%(to_start _ _ _ Hok); [by left|right]. split; [lia|done].
    + intros o' s' Ho' ?. destruct (Hl o'); [lia|by eapply has_of_table].
    + intros o' s' Ho' Hl'. destruct (Z.lt_trichotomy o o') as [?|[<-|?]]; [destruct (Hl o'); [lia|by eapply has_of_table]| |destruct (Hl' o); [lia|by eapply has_of_table]].
      destruct (has_fun _ _ _ _ _ _ Ho Ho'). lia.
    + intros _. by replace (o + 1 - 1) with o by lia; replace (s + 1 - 1) with s by lia.
    + intros s' Hs'. destruct (Hmid s') as (o' & Hla & ?); [lia|]. exists o'. split_and!; [apply Hmap; [lia|done|lia]|done|lia].
  - destruct Hs. split; rewrite ?Hlat, ?Hnext, ?Hhw; try done; [lia|lia|]. intros Hno. destruct (Hno o Ha). by eapply has_of_table.
  - intros del s' v [Hlt Hk]. split; [lia|]. intros Hd. destruct (Hk Hd) as [Hls (o' & Ho' & He)]. split; [lia|]. exists o'. split; [|done].
    destruct (to_mapping _ _ _ Hok s') as (o1 & Hm1 & Hla1 & _); [lia|]. rewrite Ho' in Hm1. injection Hm1 as <-.
    destruct (Hmid s') as (o2 & Hla2 & ?); [lia|]. rewrite (last_at_fun _ _ _ _ _ Hla1 Hla2). apply Hmap; [lia|done|lia].
  - intros _. lia.
Qed.

Lemma recovered_region l ctx S metas : region_ok l ctx -> snap_ok l ctx S ->
  (forall t, replayed l (replay_from l S) (lg_end l) t (snap_data S t) (metas !! t) (snap_metas S !! t)) ->
  region_ok l metas /\ snap_ok l metas S /\ forall t del s v, acked_ok l t (table_of ctx t) del s v -> acked_ok l t (table_of metas t) del s v.
Proof.
  intros Hok HS Hr. set (a := replay_from l S) in *. pose proof (ro_bounds _ _ Hok). pose proof (so_from _ _ _ HS) as Hf. fold a in Hf.
  assert (forall t, recovers l a t (snap_data S t) (table_of ctx t) (table_of metas t)) as Hrec.
  { intros t. pose proof (table_of_ok l ctx t Hok) as Ht. pose proof (so_table _ _ _ HS t) as Hts. destruct (Hr t) as [H0 H1].
    destruct (recovered_cases l a t) as [Hno|(o & s & Ha & Ho & Hl)].
    - assert (table_of metas t = meta_inner_of_data (snap_data S t)) as ->; [|by apply recovered_none].
      rewrite <- table_of_snap_metas. unfold table_of. rewrite H0; [done|]. intros o ?. apply Hno. lia.
    - pose proof (has_range _ _ _ _ Ho). destruct (H1 o s Ho) as (y & Hy & ? & ? & ? & Hm); [lia|intros o' ?; apply Hl; lia|].
      unfold table_of at 2. rewrite Hy. cbn. eapply recovered_last; [done|done|lia|exact Ha|done|done|done|done|done|].
      intros s' o' Hs' [Ho' Hl'] ?. pose proof (has_range _ _ _ _ Ho'). apply Hm; [done|done|lia|]. intros o'' ?. apply Hl'. lia. }
  split_and!.
  - split; [done| | |].
    + intros t y Hy. destruct (Hrec t) as [Ht _]. unfold table_of in Ht at 1. by rewrite Hy in Ht.
    + intros t o Hn Hin. destruct (Hr t) as [H0 H1]. destruct (recovered_cases l a t) as [Hno|(o1 & s & Ha & Ho & Hl)].
      * assert (snap_map S !! t = None) as Hsn.
        { rewrite H0 in Hn; [unfold snap_metas in Hn; by rewrite lookup_fmap, fmap_None in Hn|]. intros o' ?. apply Hno. lia. }
        apply (Hno o); [|done]. by eapply so_absent.
      * pose proof (has_range _ _ _ _ Ho). destruct (H1 o1 s Ho) as (y & Hy & _); [lia|intros o' ?; apply Hl; lia|]. congruence.
    + destruct (ro_start _ _ Hok) as [?|(t & x & Hx & Hle)]; [by left|]. destruct (decide (lg_start l = 0)); [by left|right]. destruct (Hrec t) as (_ & _ & _ & Hhw).
      unfold table_of in Hhw. rewrite Hx in Hhw. cbn in Hhw. specialize (Hhw Hle). destruct (metas !! t) as [y|] eqn:Hy; [by exists t, y|]. cbn in Hhw. lia.
  - destruct HS. split; try done. intros t. apply Hrec.
  - intros t del s v. apply Hrec.
Qed.
