(* ===== verification/MqWal.v ===== *)
(** * The log in a message queue keeps what it acknowledged

    Theorems about [MqRegion.v].  [MessageQueueLaws] is what the log relies on of a
    message queue: a topic is a list of messages with offsets, a call may fail and a
    failed call may have taken effect.  [wal_ok] is the invariant of a namespace with
    its topics, of runs of writes, marks, reads, cleanings, closings and restarts
    ([wstep]).  At the end, a message queue in memory with which the theorems are
    applied. *)

From Stdlib Require Import ZArith Lia String Ascii.
From stdpp Require Import base tactics option list sorting numbers gmap strings pretty relations.
From S2P Require Import Prelude Strings Bytes Datum Varint MemComparable BTree KvEncoder MqRegion MqLog.

#[local] Open Scope Z_scope.

(** ** The message queue *)

(** Any call may fail.  A topic keeps the messages from some offset on: producing
    appends, and may have appended when it fails; deleting drops from the front.  A
    consumer waits only at the end of the topic. *)
Class MessageQueueLaws (M E : Type) `{MessageQueue M E} := {
  mq_log : M -> string -> Z * list Message;
  mq_bounds : forall m t, 0 <= (mq_log m t).1 /\ (mq_log m t).1 + Z.of_nat (length (mq_log m t).2) <= OFFSET_MAX;
  mq_create_law : forall m t m' r, mq_create_topic m t = (m', r) -> r <> Panic /\ forall t', mq_log m' t' = mq_log m t';
  mq_watermark_law : forall m t, mq_high_watermark m t <> Panic /\
    forall n, mq_high_watermark m t = Ok n -> n = (mq_log m t).1 + Z.of_nat (length (mq_log m t).2);
  mq_produce_law : forall m t msgs m' r, mq_produce m t msgs = (m', r) ->
    r <> Panic /\ (forall t', t' <> t -> mq_log m' t' = mq_log m t') /\
    (mq_log m' t = mq_log m t \/ mq_log m' t = ((mq_log m t).1, (mq_log m t).2 ++ msgs)) /\
    forall offsets, r = Ok offsets -> mq_log m' t = ((mq_log m t).1, (mq_log m t).2 ++ msgs) /\
      offsets = seqZ ((mq_log m t).1 + Z.of_nat (length (mq_log m t).2)) (Z.of_nat (length msgs));
  mq_consume_law : forall m t s, mq_consume m t s <> Panic /\ forall it, mq_consume m t s = Ok it -> it = MkConsume t s;
  mq_poll_law : forall m t s o, s = At o \/ s = Earliest /\ o = (mq_log m t).1 ->
    match mq_poll m (MkConsume t s) with
    | Polled msg o' hw => o' = o /\ hw = (mq_log m t).1 + Z.of_nat (length (mq_log m t).2) /\
        (mq_log m t).1 <= o /\ (mq_log m t).2 !! Z.to_nat (o - (mq_log m t).1) = Some msg
    | PollFailed _ => True
    | Pending => (mq_log m t).1 + Z.of_nat (length (mq_log m t).2) <= o
    end;
  mq_delete_law : forall m t o m' r, mq_delete_to m t o = (m', r) ->
    let c := Z.to_nat (Z.min o ((mq_log m t).1 + Z.of_nat (length (mq_log m t).2)) - (mq_log m t).1) in
    let after := ((mq_log m t).1 + Z.of_nat c, drop c (mq_log m t).2) in
    r <> Panic /\ (forall t', t' <> t -> mq_log m' t' = mq_log m t') /\
    (mq_log m' t = mq_log m t \/ mq_log m' t = after) /\ (r = Ok tt -> mq_log m' t = after)
}.

Section wal.
Context {M E : Type} {MQ : MessageQueue M E} {ML : MessageQueueLaws M E} {SP : SnapshotPb}.
Context (name : string).

(** The message of an entry of the region [r]. *)
Definition message_of (r : Z) (e : entry) : Message := to_message (key_bytes (MkCommonKey r (en_table e) (en_seq e))) (en_value e).
Definition entry_ok (r : Z) (e : entry) : Prop := uint 64 r /\ uint 64 (en_table e) /\ uint 64 (en_seq e) /\ exists p, en_value e = 0 :: p.
Definition log_is (m : M) (topic : string) (r : Z) (l : log) : Prop :=
  mq_log m topic = (lg_start l, message_of r <$> lg_entries l) /\ Forall (entry_ok r) (lg_entries l).

Lemma log_is_end m topic r l : log_is m topic r l -> (mq_log m topic).1 + Z.of_nat (length (mq_log m topic).2) = lg_end l.
Proof. intros [-> _]. cbn. by rewrite length_fmap. Qed.
Lemma log_is_bounds m topic r l : log_is m topic r l -> 0 <= lg_start l /\ lg_end l <= OFFSET_MAX.
Proof. intros Hl. pose proof (mq_bounds m topic) as Hb. rewrite (log_is_end _ _ _ _ Hl) in Hb. destruct Hl as [Hl _]. by rewrite Hl in Hb. Qed.
Lemma log_is_entry m topic r l o e : log_is m topic r l -> entry_at l o = Some e -> entry_ok r e /\ decode_key (key_bytes (MkCommonKey r (en_table e) (en_seq e))) = Ok (MkCommonKey r (en_table e) (en_seq e)).
Proof.
  intros [_ Hf] He. unfold entry_at in He. destruct (_ <=? _); [|done]. rewrite Forall_forall in Hf. apply list_elem_of_lookup_2, Hf in He as He'.
  split; [done|]. apply decode_key_ok. by destruct He' as (? & ? & ? & _).
Qed.

(** Polling at an offset of the log. *)
Lemma poll_log m topic r l s o : log_is m topic r l -> s = At o \/ s = Earliest /\ o = lg_start l ->
  match mq_poll m (MkConsume topic s) with
  | Polled msg o' hw => o' = o /\ hw = lg_end l /\ exists e, entry_at l o = Some e /\ msg = message_of r e
  | PollFailed _ => True
  | Pending => lg_end l <= o
  end.
Proof.
  intros Hl Hs. pose proof (mq_poll_law m topic s o) as Hp. rewrite (log_is_end _ _ _ _ Hl) in Hp. destruct Hl as [Hl _]. rewrite Hl in Hp. cbn in Hp. specialize (Hp Hs).
  destruct (mq_poll m _) as [msg o' hw| |]; [|done|done]. destruct Hp as (-> & -> & Hle & Hm). split_and!; [done|done|].
  apply list_lookup_fmap_Some in Hm as (e & -> & He). exists e. split; [|done]. unfold entry_at. by rewrite (proj2 (Z.leb_le _ _)).
Qed.

(** Producing, and deleting. *)
Lemma produce_log m topic r l es m' res : log_is m topic r l -> Forall (entry_ok r) es -> mq_produce m topic (message_of r <$> es) = (m', res) ->
  res <> Panic /\ (log_is m' topic r l \/ log_is m' topic r (append l es)) /\
  forall offsets, res = Ok offsets -> log_is m' topic r (append l es) /\ offsets = seqZ (lg_end l) (Z.of_nat (length es)).
Proof.
  intros Hl Hes Hp. apply mq_produce_law in Hp as (Hnp & _ & Hlog & Hok). rewrite (log_is_end _ _ _ _ Hl), length_fmap in Hok.
  destruct Hl as [Hl Hf]. rewrite Hl in Hlog, Hok. cbn in Hlog, Hok. rewrite <- fmap_app in Hlog, Hok.
  assert (Forall (entry_ok r) (lg_entries (append l es))) as Hf' by (by apply Forall_app).
  split_and!; [done|destruct Hlog as [?|?]; [by left|by right]|]. intros offsets Ho. destruct (Hok offsets Ho) as [? ->]. by split.
Qed.
Lemma delete_log m topic r l o m' res : log_is m topic r l -> mq_delete_to m topic o = (m', res) -> lg_start l <= o <= lg_end l ->
  res <> Panic /\ (log_is m' topic r l \/ log_is m' topic r (cut l o)) /\ (res = Ok tt -> log_is m' topic r (cut l o)).
Proof.
  intros Hl Hd Ho. apply mq_delete_law in Hd. rewrite (log_is_end _ _ _ _ Hl) in Hd. destruct Hl as [Hl Hf]. rewrite Hl in Hd. cbn in Hd.
  rewrite Z.min_l, <- fmap_drop in Hd by lia. destruct Hd as (? & _ & Hlog & Hok). assert (Forall (entry_ok r) (lg_entries (cut l o))) as Hf' by (by apply Forall_drop).
  split_and!; [done|destruct Hlog as [?|?]; [by left|by right]|]. intros Hr. split; [by apply Hok|done].
Qed.

(** *** Writing *)
Lemma offset_op_ok {F} z : 0 <= z <= OFFSET_MAX -> i64_op (E:=F) z = Ok z.
Proof. unfold OFFSET_MAX. intros Hz. apply i64_op_ok. unfold sint. lia. Qed.
Lemma build_messages_spec {F} r t n vs : uint 64 r -> uint 64 t -> uint 64 n -> Forall (fun v => exists p, v = 0 :: p) vs ->
  match build_messages (E:=F) r t n vs with
  | Ok (msgs, n') => msgs = message_of r <$> batch_entries t n vs /\ n' = n + Z.of_nat (length vs) /\ uint 64 n' /\ Forall (entry_ok r) (batch_entries t n vs)
  | Err _ => False
  | Panic => True
  end.
Proof.
  intros Hr Ht. revert n. induction vs as [|v vs IH]; intros n Hn Hvs; cbn; [split_and!; [done|lia|done|constructor]|].
  apply Forall_cons in Hvs as [Hv Hvs]. rewrite encode_key_ok. cbn. destruct (u64_op (n + 1)) as [n1| |] eqn:Hu; cbn; [|by unfold u64_op in Hu; destruct (uintb _ _)|done].
  unfold u64_op in Hu. destruct (uintb 64 (n + 1)) eqn:Hb; [|done]. injection Hu as <-. apply uintb_spec in Hb. specialize (IH (n + 1) Hb Hvs).
  destruct (build_messages _ _ _ _) as [[msgs n']| |]; cbn; [|done|done]. destruct IH as (-> & -> & ? & ?). split_and!; [done|lia|done|by constructor].
Qed.
Lemma update_after_write_ok {F} l x vs : 0 <= lg_end l -> vs <> [] -> lg_end l + Z.of_nat (length vs) <= OFFSET_MAX ->
  uint 64 (ti_next_sequence_num x + Z.of_nat (length vs)) ->
  update_after_write (E:=F) x (lg_end l) (lg_end l + Z.of_nat (length vs) - 1) = Ok (written l x vs).
Proof.
  intros H0 Hvs Hb Hu. assert (0 < length vs)%nat by (destruct vs; [done|cbn; lia]). unfold update_after_write.
  rewrite offset_op_ok by lia. cbn [rbind]. rewrite offset_op_ok by lia. cbn [rbind]. rewrite as_u_id by (unfold OFFSET_MAX in Hb; unfold uint; lia).
  replace (_ - lg_end l + 1) with (Z.of_nat (length vs)) by lia. rewrite u64_op_ok by done. cbn [rbind].
  rewrite offset_op_ok by lia. cbn [rbind]. unfold written. do 2 f_equal; [lia|]. f_equal. lia.
Qed.
Lemma last_seqZ a n : 0 < n -> last (seqZ a n) = Some (a + n - 1).
Proof.
  intros Hn. rewrite last_lookup, length_seqZ. apply lookup_seqZ. lia.
Qed.

(** What a write of [vs] to the table [t] did: nothing, or appended without the writer's
    knowing, or appended and acknowledged. *)
Inductive outcome (l : log) (t : Z) (x : TableMetaInner) (vs : list bytes) : log -> TableMetaInner -> option Z -> Prop :=
| out_none : outcome l t x vs l x None
| out_unacked : vs <> [] -> outcome l t x vs (append l (batch_entries t (ti_next_sequence_num x) vs)) x None
| out_acked : vs <> [] -> outcome l t x vs (append l (batch_entries t (ti_next_sequence_num x) vs)) (written l x vs)
    (Some (ti_next_sequence_num x + Z.of_nat (length vs) - 1)).
Definition ok_of {F A} (r : res F A) : option A := match r with Ok a => Some a | _ => None end.

Lemma table_write_spec m topic r l t x vs m' x' res : log_is m topic r l -> table_ok l t x -> uint 64 r -> uint 64 t ->
  Forall (fun v => exists p, v = 0 :: p) vs ->
  table_write m topic r x (MkLogBatch (MkLocation r t) vs) = (m', x', res) ->
  exists l', log_is m' topic r l' /\ outcome l t x vs l' x' (ok_of res) /\ forall topic', topic' <> topic -> mq_log m' topic' = mq_log m topic'.
Proof.
  intros Hl Hok Hr Ht Hvs. pose proof (log_is_bounds _ _ _ _ Hl) as [H0 H1]. pose proof (to_order _ _ _ Hok). pose proof (to_next _ _ _ Hok).
  assert (0 <= lg_end l) by (unfold lg_end; lia). assert (exists l', log_is m topic r l' /\ outcome l t x vs l' x None /\ forall topic', topic' <> topic -> mq_log m topic' = mq_log m topic') as Hsame.
  { exists l. split_and!; [done|constructor|done]. }
  unfold table_write. cbn [lb_location wl_table_id lb_entries]. case_bool_decide as Hemp; cbn [negb ensure rbind]; [by intros [= <- <- <-]|].
  unfold prepare_for_write. rewrite (get_meta_data_ok l) by done. cbn [rbind td_next_sequence_num data_of].
  pose proof (build_messages_spec (F:=E) r t (ti_next_sequence_num x) vs Hr Ht) as Hb. destruct (build_messages _ _ _ _) as [[msgs n']|e|]; [|by destruct Hb; [unfold uint, OFFSET_MAX in *; lia|]|by intros [= <- <- <-]].
  destruct Hb as (-> & -> & Hn' & Hes); [unfold uint, OFFSET_MAX in *; lia|done|].
  destruct (mq_produce m topic _) as [m1 produced] eqn:Hp. pose proof (mq_produce_law _ _ _ _ _ Hp) as (_ & Hfr & _).
  apply produce_log with (l := l) in Hp as (Hnp & Hlog & Hoff); [|done|done]. rewrite length_batch in Hoff.
  assert (exists l', log_is m1 topic r l' /\ outcome l t x vs l' x None /\ forall topic', topic' <> topic -> mq_log m1 topic' = mq_log m topic') as Hfail.
  { destruct Hlog as [Hlog|Hlog]; eexists; (split_and!; [exact Hlog| |exact Hfr]); by constructor. }
  destruct produced as [offsets|e|]; cbn [rcontext rbind]; [|by intros [= <- <- <-]|done]. destruct (Hoff offsets eq_refl) as [Hlog' ->].
  assert (0 < length vs)%nat as Hlen by (destruct vs; [done|cbn; lia]).
  assert (lg_end l + Z.of_nat (length vs) <= OFFSET_MAX) as Hmax.
  { pose proof (log_is_bounds _ _ _ _ Hlog') as [_ Hx]. by rewrite lg_end_append, length_batch in Hx. }
  pose proof (last_seqZ (lg_end l) (Z.of_nat (length vs)) ltac:(lia)) as Hlast. rewrite (seqZ_cons (lg_end l)) in * by lia. rewrite Hlast. change (default ?a (Some ?b)) with b.
  rewrite (proj2 (Z.leb_le _ _)) by lia. cbn [ensure rbind]. rewrite update_after_write_ok by done.
  rewrite u64_op_ok by (unfold uint in *; lia). intros [= <- <- <-]. eexists. split_and!; [done|by constructor|done].
Qed.

(** *** Topics *)
Abbreviation log_topic r := (format_wal_data_topic_name name r).
Abbreviation meta_topic r := (format_wal_meta_topic_name name r).
Lemma log_meta_topic r r' : log_topic r <> meta_topic r'.
Proof. unfold format_wal_data_topic_name, format_wal_meta_topic_name. intros Heq%(inj (String.append name)). done. Qed.
Lemma log_topic_inj r r' : 0 <= r -> 0 <= r' -> log_topic r = log_topic r' -> r = r'.
Proof. unfold format_wal_data_topic_name. intros ? ? Heq%(inj (String.append name))%(inj (String.append _))%(inj pretty). lia. Qed.
Lemma meta_topic_inj r r' : 0 <= r -> 0 <= r' -> meta_topic r = meta_topic r' -> r = r'.
Proof. unfold format_wal_meta_topic_name. intros ? ? Heq%(inj (String.append name))%(inj (String.append _))%(inj pretty). lia. Qed.
(** What is left alone when the region [r] works. *)
Definition frame (m m' : M) (r : Z) : Prop := forall topic, topic <> log_topic r -> topic <> meta_topic r -> mq_log m' topic = mq_log m topic.
Lemma frame_refl m r : frame m m r.
Proof. done. Qed.
Lemma frame_trans m1 m2 m3 r : frame m1 m2 r -> frame m2 m3 r -> frame m1 m3 r.
Proof. intros H1 H2 t ? ?. by rewrite H2, H1. Qed.

(** *** Snapshots in the meta topic *)
Definition snap_message (r : Z) (S : list TableMetaData) : Message :=
  to_message (0 :: 0 :: be_bytes 8 r) (0 :: snapshot_pb_encode (table_meta_to_pb <$> S)).
Definition meta_is (m : M) (topic : string) (r : Z) (S : list TableMetaData) : Prop :=
  mq_log m topic = (0, []) /\ S = [] \/ exists start before, mq_log m topic = (start, before ++ [snap_message r S]).

Lemma mq_encode_key_ok r : mq_encode_key r = Ok (0 :: 0 :: be_bytes 8 r).
Proof.
  unfold mq_encode_key. change (0 :: 0 :: be_bytes 8 r) with ([0] ++ [0] ++ be_bytes 8 r). apply (encoded_writes (fun b => mq_meta_key_encode b r)).
  - unfold mq_meta_key_encode. repeat (eapply (writes_bind (fun b => rcontext MqEncodeMetaKey _)); [apply writes_context, writes_try_put|]). apply writes_context, writes_try_put.
  - rewrite !length_app, length_be_bytes. cbn. unfold u64_max. lia.
Qed.
Lemma mq_decode_key_ok r : uint 64 r -> mq_decode_key (0 :: 0 :: be_bytes 8 r) = Ok r.
Proof.
  intros Hr. unfold mq_decode_key, mq_meta_key_decode. rewrite try_get_u8_cons. cbn [rcontext rbind]. rewrite try_get_u8_cons. cbn [rcontext rbind].
  cbn [ensure namespace_u8 Z.eqb rbind NEWEST_MQ_META_KEY_ENCODING_VERSION]. pose proof (reads_u64 r Hr []) as H. rewrite app_nil_r in H. by rewrite H.
Qed.
Lemma table_meta_roundtrip (S : list TableMetaData) : table_meta_of_pb <$> (table_meta_to_pb <$> S) = S.
Proof. induction S as [|[? ? ? ? []] S IH]; cbn; [done|f_equal; apply IH..]. Qed.
Lemma mq_value_roundtrip (S : list TableMetaData) : exists b, mq_encode_value S = Ok b /\ b = 0 :: snapshot_pb_encode (table_meta_to_pb <$> S) /\ mq_decode_value b = Ok S.
Proof.
  eexists. split; [done|]. split; [done|]. unfold mq_decode_value. cbn [app wb_data put bytes_mut_new]. rewrite try_get_u8_cons. cbn [rcontext rbind ensure Z.eqb NEWEST_MQ_META_VALUE_ENCODING_VERSION].
  by rewrite snapshot_pb_roundtrip, table_meta_roundtrip.
Qed.

Lemma sync_spec m r topic S0 S m' res : meta_is m topic r S0 -> sync m r topic S = (m', res) ->
  res <> Panic /\ (meta_is m' topic r S0 \/ meta_is m' topic r S) /\ (res = Ok tt -> meta_is m' topic r S) /\
  forall topic', topic' <> topic -> mq_log m' topic' = mq_log m topic'.
Proof.
  intros Hm. unfold sync. rewrite mq_encode_key_ok. cbn [rbind]. destruct (mq_value_roundtrip S) as (b & -> & -> & _). cbn [rbind rcontext].
  change (to_message _ _) with (snap_message r S). destruct (mq_produce m topic _) as [m1 produced] eqn:Hp. apply mq_produce_law in Hp as (Hnp & Hfr & Hlog & Hok).
  assert (meta_is m1 topic r S0 \/ meta_is m1 topic r S) as Heither.
  { destruct Hlog as [Hlog|Hlog]; [left|right; right; by eexists _, _]. unfold meta_is. by rewrite Hlog. }
  destruct produced as [offsets|e|]; [|by intros [= <- <-]|done]. destruct (Hok offsets eq_refl) as [Hlog1 ->]. cbn [length].
  rewrite seqZ_cons by lia. change (seqZ _ (Z.pred (Z.of_nat 1))) with (@nil Z). destruct (mq_delete_to m1 topic _) as [m2 deleted] eqn:Hd.
  intros [= <- <-]. apply mq_delete_law in Hd. rewrite Hlog1 in Hd. cbn in Hd. rewrite length_app in Hd. cbn in Hd.
  destruct Hd as (Hnp2 & Hfr2 & Hlog2 & _). assert (meta_is m2 topic r S) as Hm2.
  { right. destruct Hlog2 as [->| ->]; [by eexists _, _|]. eexists _, _. f_equal.
    replace (Z.to_nat _) with (length (mq_log m topic).2) by lia. by rewrite drop_app_length, (app_nil_l [_]). }
  split_and!; [by destruct deleted|by right|done|]. intros t' Ht'. by rewrite Hfr2, Hfr.
Qed.

(** *** What was acknowledged *)
Record ack := MkAck { ak_region : Z; ak_table : Z; ak_seq : Z; ak_payload : bytes }.
(** Entries of the region [r] that were acknowledged; [del r t] and what is before was to be deleted. *)
Definition kept (acked : list ack) (del : Z -> Z -> Z) (r : Z) (l : log) (ctx : context) : Prop :=
  forall t s p, MkAck r t s p ∈ acked -> acked_ok l t (table_of ctx t) (del r t) s (0 :: p).

Lemma acked_ok_append l t x del s v es : acked_ok l t x del s v -> acked_ok (append l es) t x del s v.
Proof.
  intros [Hn Hk]. split; [done|]. intros Hd. destruct (Hk Hd) as [? (o & ? & ?)]. split; [done|]. exists o. split; [done|]. apply entry_at_append. by left.
Qed.
Lemma acked_ok_written l t x del s v vs : acked_ok l t x del s v ->
  acked_ok (append l (batch_entries t (ti_next_sequence_num x) vs)) t (written l x vs) del s v.
Proof.
  intros [Hn Hk]. split; [cbn; lia|]. intros Hd. destruct (Hk Hd) as [? (o & Hm & ?)]. split; [done|]. exists o. cbn.
  rewrite lookup_extend_mapping, decide_False by lia. split; [done|]. apply entry_at_append. by left.
Qed.
Lemma acked_ok_new l t x del vs i v : table_ok l t x -> vs !! i = Some v ->
  acked_ok (append l (batch_entries t (ti_next_sequence_num x) vs)) t (written l x vs) del (ti_next_sequence_num x + Z.of_nat i) v.
Proof.
  intros Hok Hi. pose proof (to_order _ _ _ Hok). pose proof (lookup_lt_Some _ _ _ Hi). split; [cbn; lia|]. intros _. cbn. split; [lia|].
  eexists. rewrite lookup_extend_mapping, decide_True by lia. split; [done|]. pose proof (entry_at_written l t (ti_next_sequence_num x) vs i v Hi) as He.
  by replace (lg_end l + (_ - _)) with (lg_end l + Z.of_nat i) by lia.
Qed.
Lemma acked_ok_marked l t x del del' s v s0 : acked_ok l t x del s v -> del <= del' -> s0 <= del' -> acked_ok l t (marked x s0) del' s v.
Proof.
  intros [Hn Hk] Hd Hs0. split; [done|]. intros Hds. destruct (Hk ltac:(lia)) as [? (o & Hm & ?)]. cbn. split; [lia|]. exists o. split; [|done].
  apply map_lookup_filter_Some. split; [done|cbn; lia].
Qed.
Lemma acked_ok_del l t x del del' s v : acked_ok l t x del s v -> del <= del' -> acked_ok l t x del' s v.
Proof. intros [Hn Hk] Hd. split; [done|]. intros ?. apply Hk. lia. Qed.
Lemma acked_ok_cut l t x del s v c : c <= lg_end l -> cut_ok l t x c -> acked_ok l t x del s v -> acked_ok (cut l c) t x del s v.
Proof.
  intros Hc [Hkeep _] [Hn Hk]. split; [done|]. intros Hd. destruct (Hk Hd) as [? (o & Hm & He)]. split; [done|]. exists o. split; [done|].
  apply entry_at_cut; [done|]. split; [done|]. by eapply Hkeep.
Qed.

(** ** A region *)
Record region_state (m : M) (r : Z) (l : log) (ctx : context) (S : list TableMetaData) : Prop := {
  rs_id : uint 64 r;
  rs_log : log_is m (log_topic r) r l;
  rs_meta : meta_is m (meta_topic r) r S;
  rs_region : region_ok l ctx;
  rs_snap : snap_ok l ctx S
}.
(** An open region, and where its log was cleaned to. *)
Definition open_as (rg : Region) (r : Z) (l : log) (ctx : context) : Prop :=
  rg_region_id rg = r /\ rg_context rg = ctx /\ rg_log_topic rg = log_topic r /\ rg_meta_topic rg = meta_topic r /\
  forall c, rg_last_deleted_offset rg = Some c -> c <= lg_start l.

Lemma region_state_frame m m' r l ctx S : (forall topic, topic = log_topic r \/ topic = meta_topic r -> mq_log m' topic = mq_log m topic) ->
  region_state m r l ctx S -> region_state m' r l ctx S.
Proof.
  intros Hf [? Hl Hm ? ?]. split; [done| | |done|done].
  - unfold log_is in *. by rewrite Hf by (by left).
  - unfold meta_is in *. by rewrite Hf by (by right).
Qed.

Fixpoint new_acks (r t n : Z) (ps : list bytes) : list ack :=
  match ps with [] => [] | p :: ps => MkAck r t n p :: new_acks r t (n + 1) ps end.
Lemma elem_new_acks r t n ps r' t' s p : MkAck r' t' s p ∈ new_acks r t n ps <-> r' = r /\ t' = t /\ exists i, ps !! i = Some p /\ s = n + Z.of_nat i.
Proof.
  revert n. induction ps as [|p0 ps IH]; intros n; cbn; [rewrite elem_of_nil; naive_solver|]. rewrite elem_of_cons, IH. split.
  - intros [[= -> -> -> ->]|(-> & -> & i & ? & ->)]; split_and!; [done|done|exists O; split; [done|lia]|done|done|exists (S i); split; [done|lia]].
  - intros (-> & -> & [|i] & Hi & ->); cbn in Hi; [left; injection Hi as ->; f_equal; lia|right; split_and!; [done|done|]; exists i; split; [done|lia]].
Qed.
(** The acknowledgements of a batch: its last sequence was returned. *)
Definition acks_of (r t : Z) (ps : list bytes) (res : option Z) : list ack :=
  match res with Some last => new_acks r t (last + 1 - Z.of_nat (length ps)) ps | None => [] end.
Definition encoded_batch (r t : Z) (ps : list bytes) : LogWriteBatch := MkLogBatch (MkLocation r t) (cons 0 <$> ps).

Lemma kept_same acked del r l ctx t : kept acked del r l ctx -> kept acked del r l (<[t := table_of ctx t]> ctx).
Proof. intros Hk t' s p Hin. rewrite table_of_insert. case_decide as Hd; [subst t'|]; by apply Hk. Qed.
Lemma outcome_spec r l ctx S t ps acked del l' x' a : region_ok l ctx -> snap_ok l ctx S -> kept acked del r l ctx -> lg_end l' <= OFFSET_MAX ->
  outcome l t (table_of ctx t) (cons 0 <$> ps) l' x' a ->
  region_ok l' (<[t := x']> ctx) /\ snap_ok l' (<[t := x']> ctx) S /\ kept (acked ++ acks_of r t ps a) del r l' (<[t := x']> ctx) /\
  lg_start l' = lg_start l /\ (forall last, a = Some last -> last = ti_next_sequence_num (table_of ctx t) + Z.of_nat (length ps) - 1) /\
  (forall o e, entry_at l' o = Some e -> entry_at l o = Some e \/ exists p, p ∈ ps /\ en_table e = t /\ en_value e = 0 :: p).
Proof.
  intros Hok HS Hk Hb Hout. pose proof (table_of_ok l ctx t Hok) as Ht.
  assert (lg_end (append l (batch_entries t (ti_next_sequence_num (table_of ctx t)) (cons 0 <$> ps))) = lg_end l + Z.of_nat (length (cons 0 <$> ps))) as Hend
    by (by rewrite lg_end_append, length_batch).
  assert (forall o e, entry_at (append l (batch_entries t (ti_next_sequence_num (table_of ctx t)) (cons 0 <$> ps))) o = Some e ->
    entry_at l o = Some e \/ exists p, p ∈ ps /\ en_table e = t /\ en_value e = 0 :: p) as Hnew.
  { intros o e [?|[_ (v & Hv & ->)%lookup_batch]]%entry_at_append; [by left|right]. apply list_lookup_fmap_Some in Hv as (p & -> & Hp).
    exists p. by apply list_elem_of_lookup_2 in Hp. }
  destruct Hout as [|Hvs|Hvs]; cbn [acks_of]; rewrite ?app_nil_r; [| rewrite Hend in Hb..].
  - split_and!; [by apply region_ok_set|by apply snap_ok_set|by apply kept_same|done|done|by left].
  - split_and!; [apply region_ok_append; auto|apply snap_ok_append; auto| |done|done|done]. intros t' s p Hin. apply acked_ok_append. by eapply kept_same.
  - rewrite length_fmap. split_and!; [apply region_ok_append; auto|apply snap_ok_append; auto| |done|by intros last [= <-]|done].
    intros t' s p [Hin|Hin]%elem_of_app; rewrite table_of_insert.
    + case_decide as Hd; [subst t'; by apply acked_ok_written, Hk|by apply acked_ok_append, Hk].
    + apply elem_new_acks in Hin as (_ & -> & i & Hi & ->). rewrite decide_True by done. replace (_ + 1 - _ + _) with (ti_next_sequence_num (table_of ctx t) + Z.of_nat i) by lia.
      apply acked_ok_new; [done|]. by rewrite list_lookup_fmap, Hi.
Qed.
Lemma region_write_spec m r l ctx S rg t ps acked del m' rg' res : region_state m r l ctx S -> open_as rg r l ctx -> kept acked del r l ctx -> uint 64 t ->
  region_write m rg (encoded_batch r t ps) = (m', rg', res) ->
  exists l' ctx', region_state m' r l' ctx' S /\ open_as rg' r l' ctx' /\ frame m m' r /\
    kept (acked ++ acks_of r t ps (ok_of res)) del r l' ctx' /\
    (forall last, ok_of res = Some last -> last = ti_next_sequence_num (table_of ctx t) + Z.of_nat (length ps) - 1) /\
    (forall o e, entry_at l' o = Some e -> entry_at l o = Some e \/ exists p, p ∈ ps /\ en_table e = t /\ en_value e = 0 :: p).
Proof.
  intros [Hr Hl Hm Hok HS] (Hid & Hctx & Hlt & Hmt & Hlast) Hk Ht. unfold region_write, write_table_logs. rewrite Hid, Hctx, Hlt. cbn [lb_location encoded_batch wl_table_id].
  change (default meta_inner_default (ctx !! t)) with (table_of ctx t). pose proof (table_of_ok l ctx t Hok) as Htok.
  destruct (table_write m (log_topic r) r _ _) as [[m1 x'] wres] eqn:Hw. intros [= <- <- <-].
  apply table_write_spec with (l := l) (t := t) in Hw as (l' & Hl' & Hout & Hfr); [|done|done|done|done|by apply Forall_fmap, Forall_true; eexists].
  replace (ok_of (rcontext RgWrite wres)) with (ok_of wres) by (by destruct wres).
  assert (meta_is m1 (meta_topic r) r S) as Hm1 by (unfold meta_is in *; by rewrite Hfr by (apply not_eq_sym, log_meta_topic)).
  pose proof (log_is_bounds _ _ _ _ Hl') as [_ Hb]. destruct (outcome_spec r l ctx S t ps acked del l' x' _ Hok HS Hk Hb Hout) as (? & ? & ? & Hst & ? & ?).
  exists l', (<[t := x']> ctx). split_and!; [done| |by intros topic ? _; apply Hfr|done|done|done]. unfold open_as. cbn. rewrite Hst. done.
Qed.

(** Marking: [del] grows to the sequence marked. *)
Definition del_to (del : Z -> Z -> Z) (r t s : Z) : Z -> Z -> Z := fun r' t' => if decide (r' = r /\ t' = t) then Z.max (del r' t') s else del r' t'.
Lemma del_to_le del r t s r' t' : del r' t' <= del_to del r t s r' t'.
Proof. unfold del_to. case_decide; lia. Qed.
Lemma kept_del acked del del' r l ctx : (forall t, del r t <= del' r t) -> kept acked del r l ctx -> kept acked del' r l ctx.
Proof. intros Hd Hk t s p Hin. eapply acked_ok_del; [by apply Hk|done]. Qed.

Lemma table_mark_spec {F} l t x s x' : table_ok l t x -> table_mark_delete_to (E:=F) t x s = Ok x' ->
  x' = x \/ x' = marked x s /\ ti_latest_marked_deleted x <= s <= ti_next_sequence_num x.
Proof.
  intros Hok. unfold table_mark_delete_to. destruct (s <=? _) eqn:H1; [|done]. destruct (_ <=? s) eqn:H2; [|done]. cbn.
  destruct (_ !! s); [|destruct (_ =? s)]; intros [= <-]; [right; split; [done|lia]|right; split; [done|lia]|by left].
Qed.
Lemma mark_table_spec {F} r l ctx S acked del t s : region_ok l ctx -> snap_ok l ctx S -> kept acked del r l ctx ->
  match mark_table_delete_to (E:=F) ctx t s with
  | Ok ctx' => region_ok l ctx' /\ snap_ok l ctx' S /\ kept acked (del_to del r t s) r l ctx'
  | Err _ => True
  | Panic => False
  end.
Proof.
  intros Hok HS Hk. unfold mark_table_delete_to. destruct (ctx !! t) as [x|] eqn:Hx; [|done]. pose proof (ro_table _ _ Hok _ _ Hx) as Ht.
  assert (table_of ctx t = x) as Htx by (unfold table_of; by rewrite Hx).
  assert (forall t', kept acked (del_to del r t s) r l (<[t' := table_of ctx t']> ctx)) as Hsame.
  { intros t'. apply kept_same. eapply kept_del; [|done]. intros. apply del_to_le. }
  destruct (table_mark_delete_to t x s) as [x'| |] eqn:Hm; cbn; [|done|].
  - apply (table_mark_spec l) in Hm as [->|[-> Hs]]; [| |done].
    + rewrite <- Htx. split_and!; [by apply region_ok_set; [|rewrite Htx|]|by apply snap_ok_set|apply Hsame].
    + split_and!; [apply region_ok_set; [done|by apply table_ok_marked|by rewrite Htx]|apply snap_ok_set; rewrite ?Htx; cbn; [done|lia|done|done]|].
      intros t' s' p Hin. rewrite table_of_insert. case_decide as Hd; [subst t'|eapply acked_ok_del; [by apply Hk|apply del_to_le]].
      rewrite <- Htx. eapply acked_ok_marked; [by apply Hk|apply del_to_le|]. unfold del_to. rewrite decide_True by done. lia.
  - unfold table_mark_delete_to in Hm. destruct (s <=? _); [|done]. destruct (_ <=? s); [|done]. cbn in Hm. destruct (_ !! s); [done|]. by destruct (_ =? s).
Qed.
Lemma region_mark_spec m r l ctx S rg t s acked del m' rg' res : region_state m r l ctx S -> open_as rg r l ctx -> kept acked del r l ctx ->
  region_mark_delete_to m rg t s = (m', rg', res) ->
  exists ctx' S', region_state m' r l ctx' S' /\ open_as rg' r l ctx' /\ frame m m' r /\ kept acked (del_to del r t s) r l ctx' /\ res <> Panic.
Proof.
  intros Hrs Hopen Hk. pose proof Hrs as [Hr Hl Hm Hok HS]. pose proof Hopen as (Hid & Hctx & Hlt & Hmt & Hlast). unfold region_mark_delete_to. rewrite Hctx.
  pose proof (mark_table_spec (F:=E) r l ctx S acked del t s Hok HS Hk) as Hmark.
  destruct (mark_table_delete_to ctx t s) as [ctx'|e|]; cbn [rcontext]; [|intros [= <- <- <-]|done].
  - destruct Hmark as (Hok' & HS' & Hk'). rewrite (make_snapshot_ok l) by done. destruct (sync m _ _ _) as [m1 synced] eqn:Hsync. intros [= <- <- <-].
    cbn in Hsync. rewrite Hid, Hmt in Hsync. apply sync_spec with (S0 := S) in Hsync as (Hnp & Hor & _ & Hfr); [|done].
    assert (log_is m1 (log_topic r) r l) as Hl1 by (unfold log_is in *; by rewrite Hfr by apply log_meta_topic).
    assert (open_as (with_context rg ctx') r l ctx') as Hopen' by done. assert (frame m m1 r) as Hframe by (intros topic _ ?; by apply Hfr).
    assert (rcontext RgSyncSnapshot synced <> Panic) by (by destruct synced).
    destruct Hor as [Hm1|Hm1]; [exists ctx', S|exists ctx', (snapshot_of ctx')]; split_and!; try done. split; try done. by apply snapshot_taken.
  - exists ctx, S. split_and!; try done. eapply kept_del; [|done]. intros. apply del_to_le.
Qed.

Lemma clean_logs_spec m r l ctx S rg acked del m' rg' res : region_state m r l ctx S -> open_as rg r l ctx -> kept acked del r l ctx ->
  clean_logs m rg = (m', rg', res) ->
  exists l' S', region_state m' r l' ctx S' /\ open_as rg' r l' ctx /\ frame m m' r /\ kept acked del r l' ctx /\
    res <> Panic /\ res <> Err (RgCleanLogs CleanNoCause) /\ forall o e, entry_at l' o = Some e -> entry_at l o = Some e.
Proof.
  intros Hrs Hopen Hk. pose proof Hrs as [Hr Hl Hm Hok HS]. pose proof Hopen as (Hid & Hctx & Hlt & Hmt & Hlast). unfold clean_logs. rewrite Hctx, (make_snapshot_ok l) by done.
  destruct (sync m _ _ _) as [m1 synced] eqn:Hsync. rewrite Hid, Hmt in Hsync. apply sync_spec with (S0 := S) in Hsync as (Hnp & Hor & Hdone & Hfr); [|done].
  assert (log_is m1 (log_topic r) r l) as Hl1 by (unfold log_is in *; by rewrite Hfr by apply log_meta_topic).
  assert (frame m m1 r) as Hframe by (intros topic _ ?; by apply Hfr). pose proof (snapshot_taken l ctx Hok) as Htaken.
  destruct synced as [[]|e|]; [|intros [= <- <- <-]|done].
  - specialize (Hdone eq_refl). pose proof (snapshot_cut_bounds l ctx Hok) as Hc. pose proof (snapshot_cut_ok l ctx) as Hcut. pose proof (region_ok_cut l ctx Hok) as Hokc.
    set (c := safe_delete_offset _) in *. assert (region_state m1 r l ctx (snapshot_of ctx)) as Hrs1 by done. rewrite Hlt. unfold maybe_clean_logs.
    assert (match rg_last_deleted_offset rg with Some last => let? _ := ensure (last <=? c) CleanNoCause in Ok (negb (c =? last)) | None => Ok true end =
      Ok (match rg_last_deleted_offset rg with Some last => negb (c =? last) | None => true end) :> Prelude.res (CleanError (E:=E)) bool) as ->.
    { destruct (rg_last_deleted_offset rg) as [last|]; [|done]. specialize (Hlast last eq_refl). by rewrite (proj2 (Z.leb_le _ _)) by lia. }
    destruct (match rg_last_deleted_offset rg with Some last => _ | None => true end); cycle 1.
    { intros [= <- <- <-]. exists l, (snapshot_of ctx). by split_and!. }
    destruct (mq_delete_to m1 (log_topic r) c) as [m2 deleted] eqn:Hd. pose proof (mq_delete_law _ _ _ _ _ Hd) as (_ & Hfr2 & _).
    apply delete_log with (r := r) (l := l) in Hd as (Hnp2 & Hor2 & Hok2); [|done|lia]. assert (frame m m2 r) as Hframe2 by (eapply frame_trans; [done|]; intros topic ? _; by apply Hfr2).
    assert (meta_is m2 (meta_topic r) r (snapshot_of ctx)) as Hm2 by (unfold meta_is in *; by rewrite Hfr2 by (apply not_eq_sym, log_meta_topic)).
    assert (log_is m2 (log_topic r) r (cut l c) -> region_state m2 r (cut l c) ctx (snapshot_of ctx)) as Hrs2 by (intros; split; try done; by apply snapshot_taken).
    assert (kept acked del r (cut l c) ctx) as Hkc.
    { intros t s p Hin. pose proof (Hk t s p Hin) as Ha. unfold table_of in *. destruct (ctx !! t) as [x|] eqn:Hx; cbn in *.
      - apply acked_ok_cut; [lia|by apply Hcut|done].
      - destruct Ha as [? Ha]. split; [done|]. intros Hds. destruct (Ha Hds) as [_ (o & ? & _)]. done. }
    assert (lg_start (cut l c) = c) as Hstart by (rewrite lg_start_cut; lia).
    assert (forall o e, entry_at (cut l c) o = Some e -> entry_at l o = Some e) as Hsub by (intros o e [? _]%entry_at_cut; [done|lia]).
    destruct deleted as [[]|e|]; [|intros [= <- <- <-]|done].
    + intros [= <- <- <-]. exists (cut l c), (snapshot_of ctx). split_and!; [by apply Hrs2, Hok2| |done|done|done|done|done].
      unfold open_as. cbn. split_and!; try done. intros c' [= <-]. lia.
    + destruct Hor2 as [Hl2|Hl2]; [exists l|exists (cut l c)]; exists (snapshot_of ctx); (split_and!; [by auto| |done|done|done|done|by auto]); unfold open_as; cbn; split_and!; try done.
      intros c' Hc'. specialize (Hlast c' Hc'). lia.
  - destruct Hor as [Hm1|Hm1]; [exists l, S|exists l, (snapshot_of ctx)]; by split_and!.
Qed.

(** *** Opening *)
Lemma apply_snapshot_lookup {F} metas S : NoDup (td_table_id <$> S) -> (forall d, d ∈ S -> metas !! td_table_id d = None) ->
  exists res, apply_region_meta_snapshot (E:=F) metas S = Ok res /\
    forall t, res !! t = match snap_map S !! t with Some d => Some (meta_inner_of_data d) | None => metas !! t end.
Proof.
  revert metas. induction S as [|d S IH]; intros metas Hnd Hno; cbn [apply_region_meta_snapshot]; [by exists metas|].
  cbn in Hnd. apply NoDup_cons in Hnd as [Hd Hnd]. rewrite (Hno d) by (by left).
  destruct (IH (<[td_table_id d := meta_inner_of_data d]> metas) Hnd) as (res & -> & Hres).
  { intros d' Hd'. rewrite lookup_insert_ne; [apply Hno; by right|]. intros Heq. apply Hd. rewrite Heq. apply list_elem_of_fmap. by exists d'. }
  exists res. split; [done|]. intros t. rewrite Hres. unfold snap_map. cbn. destruct (decide (td_table_id d = t)) as [<-|Hne].
  - rewrite lookup_insert_eq. change (list_to_map _ !! td_table_id d) with (snap_map S !! td_table_id d).
    assert (snap_map S !! td_table_id d = None) as ->; [|by rewrite lookup_insert_eq]. apply not_elem_of_list_to_map. rewrite <- list_fmap_compose. done.
  - by rewrite !lookup_insert_ne.
Qed.
Lemma apply_snapshot_ok {F} S : NoDup (td_table_id <$> S) -> apply_region_meta_snapshot (E:=F) ∅ S = Ok (snap_metas S).
Proof.
  intros Hnd. destruct (apply_snapshot_lookup (F:=F) ∅ S Hnd) as (res & -> & Hres); [done|]. f_equal. apply map_eq. intros t. rewrite Hres. unfold snap_metas.
  rewrite lookup_fmap. by destruct (snap_map S !! t).
Qed.

Lemma recover_meta_spec m r l ctx S : region_state m r l ctx S ->
  match recover_region_meta_from_meta m r (meta_topic r) with
  | Returns (Ok (metas, safe)) => metas = snap_metas S /\ safe = if min_safe_offset S =? OFFSET_MAX then None else Some (min_safe_offset S)
  | Returns (Err _) => True
  | Returns Panic | Blocks => False
  end.
Proof.
  intros [Hr _ Hm _ HS]. unfold recover_region_meta_from_meta, open_cause, open_wait, next_message. pose proof (mq_watermark_law m (meta_topic r)) as [Hnp Hw].
  destruct (mq_high_watermark m _) as [n| |]; cbn [rcontext wbind]; [|done|done]. specialize (Hw n eq_refl). destruct (n =? 0) eqn:Hn.
  - destruct Hm as [[_ ->]|(st & before & Hlog)]; [done|]. exfalso. rewrite Hlog in Hw. cbn in Hw. pose proof (mq_bounds m (meta_topic r)) as Hb.
    rewrite Hlog in Hb. cbn in Hb. rewrite length_app in *. cbn in *. lia.
  - destruct Hm as [[Hlog _]|(st & before & Hlog)]; [rewrite Hlog in Hw; cbn in Hw; lia|].
    pose proof (mq_consume_law m (meta_topic r) (At (n - 1))) as [Hcp Hc]. destruct (mq_consume m _ _) as [it| |]; cbn [rcontext wbind]; [|done|done].
    rewrite (Hc it eq_refl). pose proof (mq_poll_law m (meta_topic r) (At (n - 1)) (n - 1) (or_introl eq_refl)) as Hp. rewrite Hlog in Hw, Hp. cbn in Hw, Hp.
    rewrite length_app in Hw, Hp. cbn in Hw, Hp. destruct (mq_poll m _) as [msg o hw|e|]; cbn [rcontext open_cause wbind]; [|done|lia].
    destruct Hp as (-> & -> & Hle & Hmsg). replace (Z.to_nat (n - 1 - st)) with (length before) in Hmsg by lia. rewrite list_lookup_middle in Hmsg by done. injection Hmsg as <-.
    unfold open_check. rewrite (proj2 (Z.eqb_eq _ n)) by lia. cbn [ensure wbind snap_message to_message mg_key mg_value open_some].
    rewrite mq_decode_key_ok by done. cbn [rcontext wbind]. rewrite Z.eqb_refl. cbn [ensure wbind]. destruct (mq_value_roundtrip S) as (b & _ & -> & Hdec).
    rewrite Hdec. cbn [rcontext wbind]. rewrite apply_snapshot_ok by apply HS. cbn [rcontext wbind]. done.
Qed.

Lemma apply_delta_ok {F} metas t s o : uint 64 (s + 1) -> 0 <= o + 1 <= OFFSET_MAX ->
  apply_region_meta_delta (F:=F) metas t s o = Ok (<[t := delta_of (table_of metas t) s o]> metas).
Proof. intros Hs Ho. unfold apply_region_meta_delta. rewrite u64_op_ok by done. cbn [rbind]. by rewrite offset_op_ok. Qed.
Lemma recover_loop_spec m r l ctx S fuel b start metas : region_state m r l ctx S -> replay_from l S <= b < lg_end l ->
  start = At b \/ start = Earliest /\ b = lg_start l -> (Z.to_nat (lg_end l - b) <= fuel)%nat ->
  (forall t, replayed l (replay_from l S) b t (snap_data S t) (metas !! t) (snap_metas S !! t)) ->
  match recover_loop fuel m r (lg_end l) (MkConsume (log_topic r) start) metas with
  | Returns (Ok metas') => forall t, replayed l (replay_from l S) (lg_end l) t (snap_data S t) (metas' !! t) (snap_metas S !! t)
  | Returns (Err _) => True
  | Returns Panic | Blocks => False
  end.
Proof.
  intros Hrs. revert b start metas. induction fuel as [|fuel IH]; intros b start metas Hb Hstart Hfuel Hrep; [lia|]. cbn [recover_loop].
  unfold open_wait, next_message. pose proof Hrs as [Hr Hl _ Hok HS]. pose proof (poll_log m (log_topic r) r l start b Hl Hstart) as Hp.
  destruct (mq_poll m _) as [msg o hw|e|]; cbn [rcontext open_cause wbind]; [|done|lia]. destruct Hp as (-> & -> & [t s v] & He & ->).
  unfold open_check. rewrite Z.eqb_refl. cbn [ensure wbind message_of to_message mg_key open_some en_table en_seq].
  destruct (log_is_entry _ _ _ _ _ _ Hl He) as [Hent Hdec]. cbn [en_table en_seq] in Hdec. rewrite Hdec. cbn [rcontext wbind ck_region_id ck_table_id ck_sequence_num].
  rewrite Z.eqb_refl. cbn [ensure wbind]. pose proof (log_is_bounds _ _ _ _ Hl) as [H0 Hmax].
  pose proof (so_from _ _ _ HS) as Hfrom. pose proof (to_seq _ _ _ (table_of_ok l ctx t Hok) b s) as Hseq. specialize (Hseq ltac:(by exists v)).
  rewrite apply_delta_ok by (unfold uint, OFFSET_MAX in *; lia). cbn [wbind]. rewrite offset_op_ok by lia. cbn [wbind].
  pose proof (replayed_step l (replay_from l S) b S metas t s v ltac:(lia) He Hrep) as Hrep'. destruct (b + 1 =? lg_end l) eqn:Hend.
  - apply Z.eqb_eq in Hend. rewrite Hend in Hrep'. done.
  - apply (IH (b + 1) (At (b + 1))); [lia|by left|lia|done].
Qed.
Lemma recover_log_spec m r l ctx S : region_state m r l ctx S ->
  match recover_region_meta_from_log m r (if min_safe_offset S =? OFFSET_MAX then None else Some (min_safe_offset S)) (log_topic r) (snap_metas S) with
  | Returns (Ok metas) => forall t, replayed l (replay_from l S) (lg_end l) t (snap_data S t) (metas !! t) (snap_metas S !! t)
  | Returns (Err _) => True
  | Returns Panic => False
  | Blocks => lg_entries l = [] /\ lg_end l <> 0
  end.
Proof.
  intros Hrs. pose proof Hrs as [Hr Hl _ Hok HS]. unfold recover_region_meta_from_log, open_cause. pose proof (mq_watermark_law m (log_topic r)) as [Hnp Hw].
  rewrite (log_is_end _ _ _ _ Hl) in Hw. destruct (mq_high_watermark m _) as [n| |]; cbn [rcontext wbind]; [|done|done]. specialize (Hw n eq_refl). subst n.
  pose proof (so_from _ _ _ HS) as Hfrom. pose proof (log_is_bounds _ _ _ _ Hl) as [H0 Hmax].
  assert (forall b, b <= replay_from l S -> forall t, replayed l (replay_from l S) b t (snap_data S t) (snap_metas S !! t) (snap_metas S !! t)) as Hinit.
  { intros b Hb t. split; [done|]. intros o s Ho ? _. lia. }
  destruct (lg_end l =? 0) eqn:Hz; [intros t; apply Hinit; lia|]. set (start := match _ with Some offset => At offset | None => Earliest end).
  pose proof (mq_consume_law m (log_topic r) start) as [Hcp Hc]. destruct (mq_consume m _ _) as [it| |]; cbn [rcontext wbind]; [|done|done]. rewrite (Hc it eq_refl).
  assert (start = At (replay_from l S) \/ start = Earliest /\ replay_from l S = lg_start l) as Hstart by (unfold start, replay_from; destruct (min_safe_offset S =? OFFSET_MAX); naive_solver).
  destruct (decide (replay_from l S < lg_end l)) as [Hlt|Hge].
  - pose proof (recover_loop_spec m r l ctx S (Z.to_nat (lg_end l)) (replay_from l S) start (snap_metas S) Hrs) as Hloop.
    specialize (Hloop ltac:(lia) Hstart ltac:(lia) ltac:(by apply Hinit)). by destruct (recover_loop _ _ _ _ _ _) as [[| |]|].
  - assert (lg_entries l = []) as Hnil.
    { destruct (min_safe_spec S (so_safe _ _ _ HS)) as [[Hm _]|(Hm & (d & Hd & Ho) & _)].
      - unfold replay_from in Hge. rewrite Hm, Z.eqb_refl in Hge. apply nil_length_inv. unfold lg_end in Hge. lia.
      - exfalso. unfold replay_from in Hge. rewrite (proj2 (Z.eqb_neq _ _)) in Hge by lia. pose proof (ts_safe _ _ _ _ _ (so_table _ _ _ HS (td_table_id d))) as Hs.
        assert (snap_map S !! td_table_id d = Some d) as Hsd.
        { apply elem_of_list_to_map; [rewrite <- list_fmap_compose; apply HS|]. apply list_elem_of_fmap. by exists d. }
        unfold snap_data in Hs. rewrite Hsd in Hs. cbn in Hs. rewrite Ho in Hs. destruct Hs as [_ ?%has_range]. lia. }
    destruct (Z.to_nat (lg_end l)) as [|fuel] eqn:Hfuel; [lia|]. cbn [recover_loop]. unfold open_wait, next_message.
    pose proof (poll_log m (log_topic r) r l start (replay_from l S) Hl) as Hp. destruct (mq_poll m _) as [msg o hw|e|]; cbn [rcontext open_cause wbind]; [|done|].
    + destruct Hp as (_ & _ & e & He & _); [naive_solver|]. apply entry_at_range in He. lia.
    + split; [done|lia].
Qed.

Lemma region_open_spec m r l ctx S acked del m' w : region_state m r l ctx S -> kept acked del r l ctx -> region_open m name r = (m', w) ->
  (forall topic, mq_log m' topic = mq_log m topic) /\
  match w with
  | Returns (Ok rg) => exists ctx', region_state m' r l ctx' S /\ open_as rg r l ctx' /\ kept acked del r l ctx'
  | Returns (Err _) => True
  | Returns Panic => False
  | Blocks => lg_entries l = [] /\ lg_end l <> 0
  end.
Proof.
  intros Hrs Hk. unfold region_open. destruct (mq_create_topic m (log_topic r)) as [m1 r1] eqn:H1. apply mq_create_law in H1 as [Hnp1 Hlog1].
  destruct r1 as [[]| |]; [|by intros [= <- <-]|done]. destruct (mq_create_topic m1 (meta_topic r)) as [m2 r2] eqn:H2. apply mq_create_law in H2 as [Hnp2 Hlog2].
  intros [= <- <-]. assert (forall topic, mq_log m2 topic = mq_log m topic) as Hlog by (intros; by rewrite Hlog2, Hlog1). split; [done|].
  destruct r2 as [[]| |]; cbn [rcontext open_cause wbind]; [|done|done].
  assert (region_state m2 r l ctx S) as Hrs2 by (eapply region_state_frame; [|done]; auto).
  pose proof (recover_meta_spec m2 r l ctx S Hrs2) as Hmeta. destruct (recover_region_meta_from_meta m2 r _) as [[[metas safe]| |]|]; cbn [wbind]; [|done..].
  destruct Hmeta as [-> ->]. pose proof (recover_log_spec m2 r l ctx S Hrs2) as Hrl. destruct (recover_region_meta_from_log _ _ _ _ _) as [[metas| |]|]; cbn [wbind]; [|done..].
  destruct Hrs2 as [? ? ? Hok HS]. destruct (recovered_region l ctx S metas Hok HS Hrl) as (Hok' & HS' & Hacked). exists metas. split_and!; [done|by split_and!|].
  intros t s p Hin. by apply Hacked, Hk.
Qed.

(** *** Reading *)
Definition iter_at (r : Z) (t : option Z) (stop b : Z) : MqLogIterator := MkMqIter r t (Some stop) (b =? stop) (MkConsume (log_topic r) (At b)).
Lemma next_log_entry_spec m r l ctx S t stop b : region_state m r l ctx S -> lg_start l <= b < stop -> stop <= lg_end l ->
  match mq_next_log_entry m (iter_at r t stop b) with
  | Returns (Ok (e', it')) => it' = iter_at r t stop (b + 1) /\ exists e p, entry_at l b = Some e /\ en_value e = 0 :: p /\ uint 64 (en_seq e) /\
      e' = Some (MkLogEntry (en_table e) (en_seq e) p)
  | Returns (Err _) => True
  | Returns Panic | Blocks => False
  end.
Proof.
  intros [Hr Hl _ _ _] Hb Hstop. unfold mq_next_log_entry, iter_at, next_message. cbn [mi_is_terminated mi_terminate_offset mi_iter mi_region_id mi_table_id].
  rewrite (proj2 (Z.eqb_neq _ _)) by lia. cbn [andb]. pose proof (poll_log m (log_topic r) r l (At b) b Hl (or_introl eq_refl)) as Hp.
  destruct (mq_poll m _) as [msg o hw|e|]; cbn [rcontext wbind]; [|done|lia]. destruct Hp as (-> & -> & e & He & ->).
  pose proof (log_is_bounds _ _ _ _ Hl) as [H0 H1]. rewrite (proj2 (Z.leb_le _ _)) by lia. cbn [ensure rbind]. rewrite offset_op_ok by lia. cbn [rbind wbind].
  destruct (log_is_entry _ _ _ _ _ _ Hl He) as [(_ & ? & Hu & p & Hp) Hdec]. cbn [message_of to_message mg_key mg_value unwrap wbind]. rewrite Hdec. cbn [rcontext wbind ck_region_id ck_table_id ck_sequence_num].
  rewrite Z.eqb_refl. cbn [ensure wbind]. rewrite Hp, decode_value_ok. cbn [rcontext wbind]. split; [by destruct (b + 1 =? stop)|]. by exists e, p.
Qed.
Lemma next_log_entry_end m r t stop : mq_next_log_entry m (iter_at r t stop stop) = Returns (Ok (None, iter_at r t stop stop)).
Proof. unfold mq_next_log_entry, iter_at. cbn. by rewrite Z.eqb_refl. Qed.

Definition reader_at (r t stop b : Z) (done : bool) : ReadTableIterator := MkReadTable (Some (iter_at r (Some t) stop b)) t 0 u64_max done.
Lemma read_table_loop_spec m r l ctx S t stop fuel b rt : region_state m r l ctx S -> lg_start l <= b <= stop -> stop <= lg_end l -> (Z.to_nat (stop - b) < fuel)%nat ->
  rt_table_id rt = t /\ rt_start rt = 0 /\ rt_end rt = u64_max ->
  match read_table_loop fuel m (iter_at r (Some t) stop b) rt with
  | Returns (Ok (Some e, rt')) => exists o v, b <= o < stop /\ entry_at l o = Some (MkEntry t (le_sequence e) v) /\ v = 0 :: le_payload e /\ le_table_id e = t /\
      rt' = reader_at r t stop (o + 1) false /\ forall o', b <= o' < o -> ~ of_table l t o'
  | Returns (Ok (None, _)) => forall o', b <= o' < stop -> ~ of_table l t o'
  | Returns (Err _) => True
  | Returns Panic | Blocks => False
  end.
Proof.
  intros Hrs. revert b. induction fuel as [|fuel IH]; intros b Hb Hstop Hfuel Hrt; [lia|]. cbn [read_table_loop]. destruct (decide (b = stop)) as [->|Hne].
  - rewrite next_log_entry_end. cbn. intros o' ?. lia.
  - pose proof (next_log_entry_spec m r l ctx S (Some t) stop b Hrs ltac:(lia) Hstop) as Hn. destruct (mq_next_log_entry m _) as [[[e' it']| |]|]; cbn [ns_wrap rcontext wbind]; [|done..].
    destruct Hn as (-> & [te se ve] & p & He & Hv & Hu & ->). cbn in Hv, Hu. subst ve. cbn [le_table_id le_sequence en_table en_seq].
    destruct Hrt as (Hr1 & Hr2 & Hr3). rewrite Hr1, Hr2, Hr3.
    pose proof Hrs as [_ Hl _ Hok _]. pose proof (to_seq _ _ _ (table_of_ok l ctx te Hok) b se ltac:(by exists (0 :: p))).
    pose proof (log_is_bounds _ _ _ _ Hl) as [H0 H1]. unfold uint in Hu. unfold OFFSET_MAX in H1. destruct (te =? t) eqn:Hte.
    + apply Z.eqb_eq in Hte as ->. assert (se < u64_max) by (unfold u64_max; lia). rewrite (proj2 (Z.leb_le 0 se)), (proj2 (Z.leb_le se u64_max)) by lia. cbn [andb].
      exists b, (0 :: p). split_and!; [lia|lia|done|done|done| |intros; lia]. by rewrite (proj2 (Z.eqb_neq se u64_max)) by lia.
    + cbn [andb]. specialize (IH (b + 1) ltac:(lia) Hstop ltac:(lia) ltac:(done)). destruct (read_table_loop _ _ _ _) as [[[[e'|] rt']| |]|]; try done.
      * destruct IH as (o & v & ? & ? & ? & ? & ? & Hf). exists o, v. split_and!; try done; [lia|lia|]. intros o' Ho' [s' Hs']%of_table_has.
        destruct (decide (o' = b)) as [->|]; [destruct (has_fun l b t s' te se Hs' ltac:(by exists (0 :: p))); lia|]. eapply (Hf o'); [lia|by eapply has_of_table].
      * intros o' Ho' [s' Hs']%of_table_has. destruct (decide (o' = b)) as [->|]; [destruct (has_fun l b t s' te se Hs' ltac:(by exists (0 :: p))); lia|].
        eapply (IH o'); [lia|by eapply has_of_table].
Qed.
Lemma read_table_all_spec m r l ctx S t stop n fuel b : region_state m r l ctx S -> lg_start l <= b <= stop -> stop <= lg_end l ->
  (Z.to_nat (stop - b) < n)%nat -> (Z.to_nat (stop - b) < fuel)%nat ->
  match read_table_all n fuel m (reader_at r t stop b false) with
  | Returns (Ok es) => (forall o s p, b <= o < stop -> entry_at l o = Some (MkEntry t s (0 :: p)) -> MkLogEntry t s p ∈ es) /\
      forall e, e ∈ es -> le_table_id e = t /\ exists o, entry_at l o = Some (MkEntry t (le_sequence e) (0 :: le_payload e))
  | Returns (Err _) => True
  | Returns Panic | Blocks => False
  end.
Proof.
  intros Hrs. revert b. induction n as [|n IH]; intros b Hb Hstop Hn Hfuel; [lia|]. cbn [read_table_all]. unfold read_table_next. cbn [rt_is_terminated reader_at rt_iter].
  pose proof (read_table_loop_spec m r l ctx S t stop fuel b (reader_at r t stop b false) Hrs Hb Hstop Hfuel ltac:(done)) as Hloop.
  unfold reader_at in Hloop at 1. destruct (read_table_loop _ _ _ _) as [[[[e|] rt]| |]|]; cbn [wbind]; [| |done..].
  - destruct Hloop as (o & v & Ho & He & -> & Ht & -> & Hf). specialize (IH (o + 1) ltac:(lia) Hstop ltac:(lia) ltac:(lia)).
    destruct (read_table_all _ _ _ _) as [[es| |]|]; cbn [wbind]; [|done..]. destruct IH as [IH1 IH2]. split.
    + intros o' s p Ho' He'. destruct (Z.lt_trichotomy o' o) as [?|[->|?]].
      * destruct (Hf o'); [lia|]. eapply has_of_table. by exists (0 :: p).
      * rewrite He in He'. injection He' as <- <-. apply elem_of_cons. left. destruct e; cbn in *; by subst.
      * apply elem_of_cons. right. eapply IH1; [|done]. lia.
    + intros e' [->|Hin]%elem_of_cons; [split; [done|]; by exists o|by apply IH2].
  - split; [|by intros e ?%elem_of_nil]. intros o s p Ho He. destruct (Hloop o Ho). eapply has_of_table. by exists (0 :: p).
Qed.

(** What was written and not to be deleted is read, and nothing else than what was written. *)
Definition tried_ok (tried : list (Z * Z * bytes)) (r : Z) (l : log) : Prop :=
  forall o t s p, entry_at l o = Some (MkEntry t s (0 :: p)) -> (r, t, p) ∈ tried.
Definition read_keeps (acked : list ack) (del : Z -> Z -> Z) (tried : list (Z * Z * bytes)) (r t : Z) (es : list LogEntry) : Prop :=
  (forall s p, MkAck r t s p ∈ acked -> del r t <= s -> MkLogEntry t s p ∈ es) /\
  (forall e, e ∈ es -> le_table_id e = t /\ (r, t, le_payload e) ∈ tried).
Lemma read_region_spec m r l ctx S rg acked del tried t fuel : region_state m r l ctx S -> open_as rg r l ctx -> kept acked del r l ctx -> tried_ok tried r l ->
  (length (mq_log m (log_topic r)).2 < fuel)%nat ->
  match scan_table m rg t with
  | Ok it => match (match it with Some it => read_table_new (E:=E) it (MkReadRequest (MkLocation r t) RbMin RbMax) | None => Ok read_table_new_empty end) with
             | Ok rt => match read_table_all fuel fuel m rt with
                        | Returns (Ok es) => read_keeps acked del tried r t es
                        | Returns (Err _) => True
                        | Returns Panic | Blocks => False
                        end
             | _ => False
             end
  | Err _ => True
  | Panic => False
  end.
Proof.
  intros Hrs (Hid & Hctx & Hlt & _) Hk Htr Hfuel. pose proof Hrs as [_ Hl _ Hok _]. unfold scan_table, get_table_meta_data. rewrite Hctx.
  assert (exists fuel', fuel = Datatypes.S fuel') as [fuel' ->] by (destruct fuel; [lia|by eexists]).
  destruct (ctx !! t) as [x|] eqn:Hx; cbn [rbind]; cycle 1.
  { split; [|by intros e ?%elem_of_nil]. intros s p Hin Hd. destruct (Hk t s p Hin) as [_ Ha]. unfold table_of in Ha. rewrite Hx in Ha. by destruct (Ha Hd) as (_ & o & ? & _). }
  pose proof (ro_table _ _ Hok _ _ Hx) as Ht. assert (table_of ctx t = x) as Htx by (unfold table_of; by rewrite Hx).
  rewrite (get_meta_data_ok l) by done. cbn [rbind data_of td_safe_delete_offset td_current_high_watermark]. destruct (safe_of x) as [o|] eqn:Hs; cycle 1.
  { split; [|by intros e ?%elem_of_nil]. intros s p Hin Hd. destruct (Hk t s p Hin) as [Hn Ha]. rewrite Htx in *. destruct (Ha Hd) as [Hla _].
    pose proof (safe_of_none l t x Ht Hs). lia. }
  unfold range_scan. rewrite Hid, Hlt. pose proof (mq_consume_law m (log_topic r) (At o)) as [Hcp Hc]. destruct (mq_consume m _ _) as [it| |]; cbn [rcontext rbind]; [|done|done].
  rewrite (Hc it eq_refl). destruct (safe_of_some l t x o Ht Hs) as (Hlatest & [Ho _] & Hohw). pose proof (to_hw _ _ _ Ht) as Hhw. pose proof (has_range _ _ _ _ Ho).
  assert (read_table_new (E:=E) (MkMqIter r (Some t) (Some (ti_current_high_watermark x)) false (MkConsume (log_topic r) (At o))) (MkReadRequest (MkLocation r t) RbMin RbMax) =
    Ok (reader_at r t (ti_current_high_watermark x) o false)) as ->.
  { unfold reader_at, iter_at. by rewrite (proj2 (Z.eqb_neq o _)) by lia. }
  pose proof (log_is_end _ _ _ _ Hl) as Hend. destruct Hl as [Hlog Hf]. rewrite Hlog in *. cbn in Hend, Hfuel.
  pose proof (read_table_all_spec m r l ctx S t (ti_current_high_watermark x) (Datatypes.S fuel') (Datatypes.S fuel') o Hrs ltac:(lia) ltac:(lia) ltac:(lia) ltac:(lia)) as Hread.
  destruct (read_table_all _ _ _ _) as [[es| |]|]; [|done..]. destruct Hread as [H1 H2]. split.
  - intros s p Hin Hd. destruct (Hk t s p Hin) as [Hn Ha]. rewrite Htx in *. destruct (Ha Hd) as [Hla (o' & Hm & He)].
    destruct (to_mapping _ _ _ Ht s ltac:(lia)) as (o1 & Hm1 & _ & Hlt1). rewrite Hm in Hm1. injection Hm1 as <-. apply (H1 o'); [|done].
    split; [|done]. eapply mapping_from_safe; [done|done| |done]. lia.
  - intros e Hin. destruct (H2 e Hin) as [? (o' & He)]. split; [done|]. by eapply Htr.
Qed.

(** ** The namespace *)
Record Wal := MkWal { wal_mq : M; wal_ns : NamespaceInner; wal_acked : list ack; wal_del : Z -> Z -> Z; wal_tried : list (Z * Z * bytes) }.
(** One region: in the queue, and in memory if it is open. *)
Definition region_kept (w : Wal) (r : Z) : Prop := exists l ctx S, region_state (wal_mq w) r l ctx S /\
  kept (wal_acked w) (wal_del w) r l ctx /\ tried_ok (wal_tried w) r l /\ forall rg, ni_regions (wal_ns w) !! r = Some rg -> open_as rg r l ctx.
Record wal_ok (w : Wal) : Prop := {
  wo_name : ni_namespace (wal_ns w) = name;
  wo_regions : forall r, uint 64 r -> region_kept w r;
  wo_open : forall r rg, ni_regions (wal_ns w) !! r = Some rg -> uint 64 r;
  wo_sorted : forall i j r t s p s' p', (i < j)%nat -> wal_acked w !! i = Some (MkAck r t s p) -> wal_acked w !! j = Some (MkAck r t s' p') -> s < s'
}.

(** What a step may do to the regions other than [r]: nothing. *)
Record only_region (w w' : Wal) (r : Z) : Prop := {
  or_name : ni_namespace (wal_ns w') = ni_namespace (wal_ns w);
  or_frame : frame (wal_mq w) (wal_mq w') r;
  or_regions : forall r', r' <> r -> ni_regions (wal_ns w') !! r' = ni_regions (wal_ns w) !! r';
  or_acked : forall r' t s p, r' <> r -> MkAck r' t s p ∈ wal_acked w' -> MkAck r' t s p ∈ wal_acked w;
  or_del : forall r' t, r' <> r -> wal_del w' r' t = wal_del w r' t;
  or_tried : wal_tried w ⊆ wal_tried w'
}.
Lemma region_kept_other w w' r r' : only_region w w' r -> r' <> r -> uint 64 r -> uint 64 r' -> region_kept w r' -> region_kept w' r'.
Proof.
  intros [_ Hf Hreg Ha Hd Ht] Hne Hr Hr' (l & ctx & S & Hrs & Hk & Htr & Hopen). exists l, ctx, S. split_and!.
  - eapply region_state_frame; [|done]. intros topic [->| ->]; apply Hf.
    + intros ?%log_topic_inj; unfold uint in *; lia.
    + apply log_meta_topic.
    + apply not_eq_sym, log_meta_topic.
    + intros ?%meta_topic_inj; unfold uint in *; lia.
  - intros t s p Hin. rewrite Hd by done. apply Hk. by eapply Ha.
  - intros o t s p He. apply Ht. by eapply Htr.
  - intros rg. rewrite Hreg by done. apply Hopen.
Qed.
Lemma wal_ok_region w w' r : wal_ok w -> uint 64 r -> only_region w w' r -> region_kept w' r ->
  (forall i j r t s p s' p', (i < j)%nat -> wal_acked w' !! i = Some (MkAck r t s p) -> wal_acked w' !! j = Some (MkAck r t s' p') -> s < s') -> wal_ok w'.
Proof.
  intros [Hn Hreg Hopen _] Hr Ho Hkept Hs. split; [by rewrite (or_name _ _ _ Ho)| | |done].
  - intros r' Hr'. destruct (decide (r' = r)) as [->|Hne]; [done|]. eapply region_kept_other; [done|done|done|done|by apply Hreg].
  - intros r' rg Hrg. destruct (decide (r' = r)) as [->|Hne]; [done|]. rewrite (or_regions _ _ _ Ho) in Hrg by done. by eapply Hopen.
Qed.

(** Getting a region leaves the logs alone. *)
Lemma get_or_open_spec w r m' ns' g : wal_ok w -> uint 64 r -> get_or_open_region (wal_mq w) (wal_ns w) r = (m', ns', g) ->
  (forall topic, mq_log m' topic = mq_log (wal_mq w) topic) /\ ni_namespace ns' = name /\
  (forall r', r' <> r -> ni_regions ns' !! r' = ni_regions (wal_ns w) !! r') /\
  match g with
  | Returns (Ok rg) => ni_regions ns' !! r = Some rg /\ exists l ctx S, region_state m' r l ctx S /\ open_as rg r l ctx /\
      kept (wal_acked w) (wal_del w) r l ctx /\ tried_ok (wal_tried w) r l
  | Returns (Err _) => ns' = wal_ns w
  | Returns Panic => False
  | Blocks => ns' = wal_ns w /\ exists start, mq_log (wal_mq w) (log_topic r) = (start, []) /\ start <> 0
  end.
Proof.
  intros Hw Hr. destruct (wo_regions _ Hw r Hr) as (l & ctx & S & Hrs & Hk & Htr & Hopen). pose proof (wo_name _ Hw) as Hname. unfold get_or_open_region.
  destruct (ni_regions (wal_ns w) !! r) as [rg|] eqn:Hrg.
  { intros [= <- <- <-]. split_and!; [done|done|done|done|]. exists l, ctx, S. split_and!; [done|by apply Hopen|done|done]. }
  rewrite Hname. destruct (region_open (wal_mq w) name r) as [m1 g1] eqn:Ho. pose proof (region_open_spec _ _ _ _ _ _ _ _ _ Hrs Hk Ho) as [Hlog Hspec].
  destruct g1 as [[rg| |]|]; [|by intros [= <- <- <-]|done|].
  - intros [= <- <- <-]. destruct Hspec as (ctx' & Hrs' & Hopen' & Hk'). split_and!; [done|done| |by apply lookup_insert_eq|].
    + intros r' ?. cbn. by rewrite lookup_insert_ne.
    + by exists l, ctx', S.
  - intros [= <- <- <-]. destruct Hspec as [Hnil Hend]. split_and!; [done..|]. exists (lg_start l). destruct (rs_log _ _ _ _ _ Hrs) as [-> _]. rewrite Hnil. split; [done|].
    unfold lg_end in Hend. rewrite Hnil in Hend. cbn in Hend. lia.
Qed.
(** If nothing but that happens, the namespace is as before. *)
Lemma get_or_open_ok w r m' ns' g : wal_ok w -> uint 64 r -> get_or_open_region (wal_mq w) (wal_ns w) r = (m', ns', g) ->
  wal_ok (MkWal m' ns' (wal_acked w) (wal_del w) (wal_tried w)).
Proof.
  intros Hw Hr Hg. destruct (get_or_open_spec w r m' ns' g Hw Hr Hg) as (Hlog & Hn & Hreg & Hspec). destruct (wo_regions _ Hw r Hr) as (l & ctx & S & Hrs & Hk & Htr & Hopen).
  eapply (wal_ok_region w); [done|exact Hr| | |apply Hw].
  - split; cbn; [by rewrite Hn, (wo_name _ Hw)|by intros topic _ _|done|done|done|done].
  - assert (ns' = wal_ns w -> region_kept (MkWal m' ns' (wal_acked w) (wal_del w) (wal_tried w)) r) as Hsame.
    { intros ->. exists l, ctx, S. split_and!; [eapply region_state_frame; [|exact Hrs]; intros; apply Hlog|done|done|done]. }
    destruct g as [[rg|e|]|]; [|by apply Hsame|done|by destruct Hspec; apply Hsame]. destruct Hspec as (Hrg & l1 & ctx1 & S1 & ? & ? & ? & ?).
    exists l1, ctx1, S1. split_and!; [done|done|done|]. cbn. rewrite Hrg. by intros rg' [= <-].
Qed.

(** *** Steps *)
Definition returned {F} (g : wait (res F Z)) : option Z := match g with Returns r => ok_of r | Blocks => None end.
Inductive wstep : Wal -> Wal -> Prop :=
| ws_write m ns acked del tried r t ps m' ns' g : uint 64 r -> uint 64 t ->
    ns_write m ns (encoded_batch r t ps) = (m', ns', g) ->
    wstep (MkWal m ns acked del tried) (MkWal m' ns' (acked ++ acks_of r t ps (returned g)) del (tried ++ ((fun p => (r, t, p)) <$> ps)))
| ws_mark m ns acked del tried r t s m' ns' g : uint 64 r ->
    mark_delete_entries_up_to m ns (MkLocation r t) s = (m', ns', g) ->
    wstep (MkWal m ns acked del tried) (MkWal m' ns' acked (del_to del r t (s + 1)) tried)
| ws_read m ns acked del tried request m' ns' g : uint 64 (wl_region_id (rq_location request)) -> ns_read m ns request = (m', ns', g) ->
    wstep (MkWal m ns acked del tried) (MkWal m' ns' acked del tried)
| ws_scan m ns acked del tried r m' ns' g : uint 64 r -> ns_scan m ns r = (m', ns', g) ->
    wstep (MkWal m ns acked del tried) (MkWal m' ns' acked del tried)
| ws_sequence m ns acked del tried location m' ns' g : uint 64 (wl_region_id location) -> ns_sequence_num m ns location = (m', ns', g) ->
    wstep (MkWal m ns acked del tried) (MkWal m' ns' acked del tried)
| ws_clean m ns acked del tried m' ns' g : ns_clean_logs m ns = (m', ns', g) ->
    wstep (MkWal m ns acked del tried) (MkWal m' ns' acked del tried)
| ws_close_region m ns acked del tried r : wstep (MkWal m ns acked del tried) (MkWal m (ns_close_region ns r) acked del tried)
(** closed, or restarted *)
| ws_close m ns acked del tried : wstep (MkWal m ns acked del tried) (MkWal m (ns_close ns) acked del tried)
(** the queue's availability changes *)
| ws_queue m ns acked del tried m' : (forall topic, mq_log m' topic = mq_log m topic) ->
    wstep (MkWal m ns acked del tried) (MkWal m' ns acked del tried).

Lemma acks_sorted acked r t ps n : (forall i j r t s p s' p', (i < j)%nat -> acked !! i = Some (MkAck r t s p) -> acked !! j = Some (MkAck r t s' p') -> s < s') ->
  (forall s p, MkAck r t s p ∈ acked -> s < n) ->
  forall i j r' t' s p s' p', (i < j)%nat -> (acked ++ new_acks r t n ps) !! i = Some (MkAck r' t' s p) -> (acked ++ new_acks r t n ps) !! j = Some (MkAck r' t' s' p') -> s < s'.
Proof.
  intros Hs Hn i j r' t' s p s' p' Hij Hi Hj. assert (forall k a, new_acks r t n ps !! k = Some a -> ak_region a = r /\ ak_table a = t /\ ak_seq a = n + Z.of_nat k) as Hnew.
  { clear. revert n. induction ps as [|p ps IH]; intros n k a; cbn; [done|]. destruct k as [|k]; cbn; [intros [= <-]; cbn; lia|]. intros (? & ? & ?)%IH. split_and!; [done|done|lia]. }
  apply lookup_app_Some in Hi as [Hi|[Hli Hi]]; apply lookup_app_Some in Hj as [Hj|[Hlj Hj]].
  - by eapply (Hs i j).
  - apply Hnew in Hj as (? & ? & ?). cbn in *. subst. apply list_elem_of_lookup_2, Hn in Hi. lia.
  - apply lookup_lt_Some in Hj. lia.
  - apply Hnew in Hi as (? & ? & ?), Hj as (? & ? & ?). cbn in *. lia.
Qed.

Lemma wal_ok_tried w tried : wal_ok w -> wal_tried w ⊆ tried -> wal_ok (MkWal (wal_mq w) (wal_ns w) (wal_acked w) (wal_del w) tried).
Proof.
  intros [Hn Hreg Hopen Hs] Hsub. split; [done| |done|done]. intros r Hr. destruct (Hreg r Hr) as (l & ctx & S & ? & ? & Htr & ?). exists l, ctx, S. split_and!; [done|done| |done].
  intros o t s p He. by eapply Hsub, Htr.
Qed.
Lemma with_region_only w m' ns' r rg rg' acked' del' tried' : ni_namespace ns' = name -> wal_ok w ->
  (forall r', r' <> r -> ni_regions ns' !! r' = ni_regions (wal_ns w) !! r') -> frame (wal_mq w) m' r ->
  (forall r' t s p, r' <> r -> MkAck r' t s p ∈ acked' -> MkAck r' t s p ∈ wal_acked w) -> (forall r' t, r' <> r -> del' r' t = wal_del w r' t) ->
  wal_tried w ⊆ tried' -> ni_regions ns' !! r = Some rg -> only_region w (MkWal m' (with_region ns' r rg') acked' del' tried') r.
Proof.
  intros Hn Hw Hreg Hf Ha Hd Ht _. split; cbn; [by rewrite (wo_name _ Hw)|done| |done|done|done].
  intros r' Hne. rewrite lookup_insert_ne by done. by apply Hreg.
Qed.
Lemma write_step_ok w r t ps m' ns' g : wal_ok w -> uint 64 r -> uint 64 t -> ns_write (wal_mq w) (wal_ns w) (encoded_batch r t ps) = (m', ns', g) ->
  wal_ok (MkWal m' ns' (wal_acked w ++ acks_of r t ps (returned g)) (wal_del w) (wal_tried w ++ ((fun p => (r, t, p)) <$> ps))).
Proof.
  intros Hw Hr Ht. unfold ns_write. cbn [lb_location encoded_batch wl_region_id]. destruct (get_or_open_region _ _ r) as [[m1 ns1] g1] eqn:Hg.
  pose proof (get_or_open_ok _ _ _ _ _ Hw Hr Hg) as Hsame. apply (wal_ok_tried _ (wal_tried w ++ ((fun p => (r, t, p)) <$> ps))) in Hsame; [|cbn; set_solver].
  destruct (get_or_open_spec _ _ _ _ _ Hw Hr Hg) as (Hlog & Hn & Hreg & Hspec).
  destruct g1 as [[rg|e|]|]; [|by intros [= <- <- <-]; cbn; rewrite app_nil_r|done|by intros [= <- <- <-]; cbn; rewrite app_nil_r].
  destruct Hspec as (Hrg & l & ctx & S & Hrs & Hopen & Hk & Htr). change (MkLogBatch _ _) with (encoded_batch r t ps). destruct (region_write m1 rg _) as [[m2 rg2] wres] eqn:Hwr.
  intros [= <- <- <-]. destruct (region_write_spec m1 r l ctx S rg t ps (wal_acked w) (wal_del w) m2 rg2 wres Hrs Hopen Hk Ht Hwr) as (l' & ctx' & Hrs' & Hopen' & Hf & Hk' & Hlast & Hent).
  replace (returned (Returns (rcontext NsWrite wres))) with (ok_of wres) by (by destruct wres).
  eapply (wal_ok_region w _ r); [done|done| | |].
  - eapply with_region_only; [done|done|done| | |done|set_solver|done].
    + intros topic ? ?. by rewrite Hf, Hlog.
    + intros r' t' s p Hne [?|Hin]%elem_of_app; [done|]. unfold acks_of in Hin. destruct (ok_of wres); [|by apply elem_of_nil in Hin]. by apply elem_new_acks in Hin as (-> & _).
  - exists l', ctx', S. split_and!; [done|done| |].
    + intros o t' s p He. apply elem_of_app. destruct (Hent _ _ He) as [He'|(p' & Hp' & Ht' & [= ->])]; [left; by eapply Htr|right]. cbn in Ht'. subst t'. apply list_elem_of_fmap. by exists p'.
    + cbn. rewrite lookup_insert_eq. by intros rg' [= <-].
  - cbn. destruct (ok_of wres) as [last|] eqn:Hres; cbn; [|rewrite app_nil_r; apply Hw]. apply acks_sorted; [apply Hw|]. rewrite (Hlast last eq_refl).
    intros s p Hin. destruct (Hk t s p Hin) as [Hlt _]. lia.
Qed.
Lemma mark_step_ok w r t s m' ns' g : wal_ok w -> uint 64 r -> mark_delete_entries_up_to (wal_mq w) (wal_ns w) (MkLocation r t) s = (m', ns', g) ->
  wal_ok (MkWal m' ns' (wal_acked w) (del_to (wal_del w) r t (s + 1)) (wal_tried w)).
Proof.
  intros Hw Hr. assert (forall w, wal_ok w -> wal_ok (MkWal (wal_mq w) (wal_ns w) (wal_acked w) (del_to (wal_del w) r t (s + 1)) (wal_tried w))) as Hdel.
  { intros w0 [Hn Hreg Hopen Hs]. split; [done| |done|done]. intros r' Hr'. destruct (Hreg r' Hr') as (l & ctx & S & ? & Hk & ? & ?). exists l, ctx, S. split_and!; [done| |done|done].
    eapply kept_del; [|exact Hk]. intros. apply del_to_le. }
  unfold mark_delete_entries_up_to. destruct (u64_op (s + 1)) as [n| |] eqn:Hu; [|by intros [= <- <- <-]; apply (Hdel w)..].
  assert (n = s + 1) as -> by (unfold u64_op in Hu; destruct (uintb _ _); congruence). unfold ns_mark_delete_to. cbn [wl_region_id wl_table_id].
  destruct (get_or_open_region _ _ r) as [[m1 ns1] g1] eqn:Hg. pose proof (Hdel _ (get_or_open_ok _ _ _ _ _ Hw Hr Hg)) as Hsame.
  destruct (get_or_open_spec _ _ _ _ _ Hw Hr Hg) as (Hlog & Hn & Hreg & Hspec). destruct g1 as [[rg|e|]|]; [|by intros [= <- <- <-]|done|by intros [= <- <- <-]].
  destruct Hspec as (Hrg & l & ctx & S & Hrs & Hopen & Hk & Htr). destruct (region_mark_delete_to m1 rg t (s + 1)) as [[m2 rg2] res] eqn:Hm. intros [= <- <- <-].
  destruct (region_mark_spec m1 r l ctx S rg t (s + 1) _ _ m2 rg2 res Hrs Hopen Hk Hm) as (ctx' & S' & Hrs' & Hopen' & Hf & Hk' & _).
  eapply (wal_ok_region w _ r); [done|done| | |apply Hw].
  - eapply with_region_only; [done|done|done| |done| |done|done].
    + intros topic ? ?. by rewrite Hf, Hlog.
    + intros r' t' Hne. unfold del_to. rewrite decide_False; [done|]. by intros [-> _].
  - exists l, ctx', S'. split_and!; [done|done|done|]. cbn. rewrite lookup_insert_eq. by intros rg' [= <-].
Qed.
(** Cleaning: no assertion fails and the cleaner finds its state consistent. *)
Lemma clean_step_ok regions w m' ns' g : wal_ok w -> ns_clean_regions (wal_mq w) (wal_ns w) regions = (m', ns', g) ->
  wal_ok (MkWal m' ns' (wal_acked w) (wal_del w) (wal_tried w)) /\ g <> Panic /\ g <> Err (NsCleanLogs (RgCleanLogs CleanNoCause)).
Proof.
  revert w. induction regions as [|r regions IH]; intros w Hw; cbn; [by intros [= <- <- <-]; destruct w|].
  destruct (ni_regions (wal_ns w) !! r) as [rg|] eqn:Hrg; [|by apply IH]. destruct (wo_regions _ Hw r (wo_open _ Hw _ _ Hrg)) as (l & ctx & S & Hrs & Hk & Htr & Hopen).
  destruct (clean_logs (wal_mq w) rg) as [[m1 rg1] res] eqn:Hc.
  destruct (clean_logs_spec _ r l ctx S rg _ _ m1 rg1 res Hrs (Hopen rg Hrg) Hk Hc) as (l' & S' & Hrs' & Hopen' & Hf & Hk' & Hnp & Hnc & Hsub).
  assert (wal_ok (MkWal m1 (with_region (wal_ns w) r rg1) (wal_acked w) (wal_del w) (wal_tried w))) as Hw1.
  { eapply (wal_ok_region w _ r); [done|by eapply wo_open| | |apply Hw].
    - eapply with_region_only; [apply Hw|done|done|done|done|done|done|done].
    - exists l', ctx, S'. split_and!; [done|done| |]. { intros o t s p He. by eapply Htr, Hsub. }
      cbn. rewrite lookup_insert_eq. by intros rg' [= <-]. }
  destruct res as [[]|e|]; [by apply (IH _ Hw1)|intros [= <- <- <-]|done]. split_and!; [done|done|]. by intros [= ->].
Qed.

Lemma wstep_ok w w' : wal_ok w -> wstep w w' -> wal_ok w'.
Proof.
  intros Hw Hs. destruct Hs as [m ns acked del tried r t ps m' ns' g Hr Ht Hs|m ns acked del tried r t s m' ns' g Hr Hs|m ns acked del tried request m' ns' g Hr Hs|
    m ns acked del tried r m' ns' g Hr Hs|m ns acked del tried location m' ns' g Hr Hs|m ns acked del tried m' ns' g Hs|m ns acked del tried r|m ns acked del tried|m ns acked del tried m' Hs].
  - by apply (write_step_ok _ _ _ _ _ _ _ Hw Hr Ht Hs).
  - by apply (mark_step_ok _ _ _ _ _ _ _ Hw Hr Hs).
  - unfold ns_read in Hs. destruct (get_or_open_region _ _ _) as [[m1 ns1] g1] eqn:Hg. injection Hs as <- <- <-. by apply (get_or_open_ok _ _ _ _ _ Hw Hr Hg).
  - unfold ns_scan in Hs. destruct (get_or_open_region _ _ _) as [[m1 ns1] g1] eqn:Hg. injection Hs as <- <- <-. by apply (get_or_open_ok _ _ _ _ _ Hw Hr Hg).
  - unfold ns_sequence_num in Hs. destruct (get_or_open_region _ _ _) as [[m1 ns1] g1] eqn:Hg. injection Hs as <- <- <-. by apply (get_or_open_ok _ _ _ _ _ Hw Hr Hg).
  - by apply (clean_step_ok _ _ _ _ _ Hw Hs).
  - destruct Hw as [Hn Hreg Hopen Hsort]. split; [done| | |done].
    + intros r' Hr'. destruct (Hreg r' Hr') as (l & ctx & S & ? & ? & ? & Ho). exists l, ctx, S. split_and!; [done..|]. cbn. intros rg [_ ?]%lookup_delete_Some. by apply Ho.
    + cbn. intros r' rg [_ ?]%lookup_delete_Some. by eapply Hopen.
  - destruct Hw as [Hn Hreg Hopen Hsort]. split; [done| |done|done].
    intros r' Hr'. destruct (Hreg r' Hr') as (l & ctx & S & ? & ? & ? & Ho). by exists l, ctx, S.
  - destruct Hw as [Hn Hreg Hopen Hsort]. split; [done| |done|done]. intros r' Hr'. destruct (Hreg r' Hr') as (l & ctx & S & Hrs & ? & ? & Ho). exists l, ctx, S.
    split_and!; [|done..]. eapply region_state_frame; [|exact Hrs]. intros. apply Hs.
Qed.

Lemma wal_reachable_ok w w' : wal_ok w -> rtc wstep w w' -> wal_ok w'.
Proof. intros Hw. induction 1 as [|w1 w2 w3 H12 _ IH]; [done|]. by eapply IH, wstep_ok. Qed.
(** Empty topics. *)
Definition wal_new (m : M) : Wal := MkWal m (MkNamespace name ∅) [] (fun _ _ => 0) [].
Lemma wal_new_ok m : (forall topic, mq_log m topic = (0, [])) -> wal_ok (wal_new m).
Proof.
  intros Hm. split; [done| |done|done]. intros r Hr. exists (MkLog 0 []), ∅, []. assert (forall t o, ~ of_table (MkLog 0 []) t o) as Hno.
  { intros t o ?%holds_range. unfold lg_end in *. cbn in *. lia. }
  assert (region_ok (MkLog 0 []) ∅) as Hok by (split; [unfold lg_end, OFFSET_MAX; cbn; lia|done|by intros t o _ ?%Hno|by left]).
  split_and!; [|by intros t s p ?%elem_of_nil|by intros o t s p ?%entry_at_range; unfold lg_end in *; cbn in *; lia|done].
  split; [done|split; [by rewrite Hm|constructor]|left; by rewrite Hm|done|]. pose proof (snapshot_taken (MkLog 0 []) ∅ Hok) as Hs. unfold snapshot_of in Hs. by rewrite map_to_list_empty in Hs.
Qed.

(** Reading the whole log of a table. *)
Definition read_all (m : M) (ns : NamespaceInner) (r t : Z) (fuel : nat) : wait (res (NsError (E:=E)) (list LogEntry)) :=
  let '(m', _, g) := ns_read m ns (MkReadRequest (MkLocation r t) RbMin RbMax) in
  let! rt := g in read_table_all fuel fuel m' rt.

(** C5. In any run of writes, marks, reads, scans, cleanings, closings and restarts
    from empty topics, with the message queue failing at any call and failed calls
    taking effect or not, a read of a table's log gives every entry that was
    acknowledged and not marked as deleted, with its sequence and payload, and only
    payloads of that table that some write tried. It may fail with an error, does not
    unwind, and waits for ever only if the region's topic has been deleted up to its
    end. *)
Theorem mq_wal_reads_acked m0 w r t fuel : (forall topic, mq_log m0 topic = (0, [])) -> rtc wstep (wal_new m0) w -> uint 64 r ->
  (length (mq_log (wal_mq w) (format_wal_data_topic_name name r)).2 < fuel)%nat ->
  match read_all (wal_mq w) (wal_ns w) r t fuel with
  | Returns (Ok es) => read_keeps (wal_acked w) (wal_del w) (wal_tried w) r t es
  | Returns (Err _) => True
  | Returns Panic => False
  | Blocks => exists start, mq_log (wal_mq w) (format_wal_data_topic_name name r) = (start, []) /\ start <> 0
  end.
Proof.
  intros Hm Hreach Hr Hfuel. pose proof (wal_reachable_ok _ _ (wal_new_ok m0 Hm) Hreach) as Hw. unfold read_all, ns_read. cbn [rq_location wl_region_id wl_table_id].
  destruct (get_or_open_region _ _ r) as [[m' ns'] g] eqn:Hg. destruct (get_or_open_spec _ _ _ _ _ Hw Hr Hg) as (Hlog & _ & _ & Hspec).
  destruct g as [[rg|e|]|]; cbn [wbind ns_wrap rcontext]; [|done|done|naive_solver]. destruct Hspec as (_ & l & ctx & S & Hrs & Hopen & Hk & Htr).
  pose proof (read_region_spec m' r l ctx S rg _ _ _ t fuel Hrs Hopen Hk Htr ltac:(by rewrite Hlog)) as Hread.
  destruct (scan_table m' rg t) as [it|e|]; cbn [wbind ns_wrap rcontext]; [|done|done]. destruct (match it with Some it => _ | None => _ end) as [rt| |]; cbn [wbind]; [|done|done].
  by destruct (read_table_all _ _ _ _) as [[| |]|].
Qed.
(** The sequences acknowledged for a table increase, also over restarts. *)
Theorem mq_sequences_increase m0 w i j r t s p s' p' : (forall topic, mq_log m0 topic = (0, [])) -> rtc wstep (wal_new m0) w ->
  (i < j)%nat -> wal_acked w !! i = Some (MkAck r t s p) -> wal_acked w !! j = Some (MkAck r t s' p') -> s < s'.
Proof. intros Hm Hreach. apply (wal_reachable_ok _ _ (wal_new_ok m0 Hm) Hreach). Qed.
(** Cleaning never finds the safe offset moved backwards and its assertions hold. *)
Theorem mq_cleaner_consistent m0 w m' ns' g : (forall topic, mq_log m0 topic = (0, [])) -> rtc wstep (wal_new m0) w ->
  ns_clean_logs (wal_mq w) (wal_ns w) = (m', ns', g) -> g <> Panic /\ g <> Err (NsCleanLogs (RgCleanLogs CleanNoCause)).
Proof.
  intros Hm Hreach Hc. pose proof (wal_reachable_ok _ _ (wal_new_ok m0 Hm) Hreach) as Hw. by apply (clean_step_ok _ _ _ _ _ Hw Hc).
Qed.
End wal.

(** ** A message queue in memory *)
Abbreviation mq_mem := (gmap string (Z * list Message)).
Definition fits (t : Z * list Message) : bool := (0 <=? t.1) && (t.1 + Z.of_nat (length t.2) <=? OFFSET_MAX).
Definition mem_topic (m : mq_mem) (topic : string) : Z * list Message :=
  match m !! topic with Some t => if fits t then t else (0, []) | None => (0, []) end.
Definition mem_end (m : mq_mem) (topic : string) : Z := (mem_topic m topic).1 + Z.of_nat (length (mem_topic m topic).2).
Definition mem_poll (m : mq_mem) (topic : string) (o : Z) : Poll unit :=
  if o <? (mem_topic m topic).1 then PollFailed tt else
  match (mem_topic m topic).2 !! Z.to_nat (o - (mem_topic m topic).1) with
  | Some msg => Polled msg o (mem_end m topic)
  | None => Pending
  end.
#[export] Instance mq_mem_ops : MessageQueue mq_mem unit := {
  mq_create_topic m topic := (m, Ok tt);
  mq_high_watermark m topic := Ok (mem_end m topic);
  mq_produce m topic msgs :=
    let t := ((mem_topic m topic).1, (mem_topic m topic).2 ++ msgs) in
    if fits t then (<[topic := t]> m, Ok (seqZ (mem_end m topic) (Z.of_nat (length msgs)))) else (m, Err tt);
  mq_consume m topic start := Ok (MkConsume topic start);
  mq_poll m it :=
    match ci_at it with
    | At o => mem_poll m (ci_topic it) o
    | Earliest => mem_poll m (ci_topic it) (mem_topic m (ci_topic it)).1
    | Latest => Pending
    end;
  mq_delete_to m topic o :=
    let c := Z.to_nat (Z.min o (mem_end m topic) - (mem_topic m topic).1) in
    (<[topic := ((mem_topic m topic).1 + Z.of_nat c, drop c (mem_topic m topic).2)]> m, Ok tt)
}.
Lemma mem_topic_fits m topic : fits (mem_topic m topic) = true.
Proof. unfold mem_topic. destruct (m !! topic) as [t|]; [|done]. by destruct (fits t) eqn:Hf. Qed.
Lemma mem_topic_insert m topic t topic' : fits t = true -> mem_topic (<[topic := t]> m) topic' = if decide (topic = topic') then t else mem_topic m topic'.
Proof. intros Hf. unfold mem_topic. case_decide as Hd; [subst; by rewrite lookup_insert_eq, Hf|by rewrite lookup_insert_ne]. Qed.
#[export] Instance mq_mem_laws : MessageQueueLaws mq_mem unit.
Proof.
  refine {| mq_log := mem_topic |}; cbn.
  - intros m t. pose proof (mem_topic_fits m t) as [?%Z.leb_le ?%Z.leb_le]%andb_true_iff. done.
  - by intros m t m' r [= <- <-].
  - intros m t. split; [done|]. by intros n [= <-].
  - intros m t msgs m' r. destruct (fits _) eqn:Hf; intros [= <- <-].
    + split_and!; [done|intros; by rewrite mem_topic_insert, decide_False|right; by rewrite mem_topic_insert, decide_True|].
      intros offsets [= <-]. by rewrite mem_topic_insert, decide_True.
    + split_and!; [done|done|by left|done].
  - intros m t s. split; [done|]. by intros it [= <-].
  - intros m t s o Hs. assert (match mem_poll m t o with
      | Polled msg o' hw => o' = o /\ hw = mem_end m t /\ (mem_topic m t).1 <= o /\ (mem_topic m t).2 !! Z.to_nat (o - (mem_topic m t).1) = Some msg
      | PollFailed _ => True | Pending => mem_end m t <= o end) as Hp.
    { unfold mem_poll. destruct (o <? _) eqn:Hlt; [done|]. destruct (_ !! _) as [msg|] eqn:Hl; [split_and!; [done|done|lia|done]|].
      apply lookup_ge_None in Hl. unfold mem_end. lia. }
    destruct Hs as [->|[-> ->]]; exact Hp.
  - intros m t o m' r [= <- <-]. pose proof (mem_topic_fits m t) as [H1%Z.leb_le H2%Z.leb_le]%andb_true_iff. fold (mem_end m t).
    assert (fits ((mem_topic m t).1 + Z.of_nat (Z.to_nat (Z.min o (mem_end m t) - (mem_topic m t).1)),
      drop (Z.to_nat (Z.min o (mem_end m t) - (mem_topic m t).1)) (mem_topic m t).2) = true) as Hf.
    { unfold fits, mem_end in *. cbn. rewrite length_drop. apply andb_true_iff. split; apply Z.leb_le; lia. }
    split_and!; [done|intros; by rewrite mem_topic_insert, decide_False|right; by rewrite mem_topic_insert, decide_True|intros _; by rewrite mem_topic_insert, decide_True].
Defined.

Definition meta_numbers (d : TableMetaDataPb) : bytes :=
  [tp_table_id d; tp_next_sequence_num d; tp_latest_marked_deleted d; tp_current_high_watermark d;
   match tp_safe_delete_offset d with Some _ => 1 | None => 0 end; match tp_safe_delete_offset d with Some (PbOffset o) => o | None => 0 end].
Fixpoint meta_of_numbers (b : bytes) : option (list TableMetaDataPb) :=
  match b with
  | [] => Some []
  | t :: n :: l :: h :: f :: o :: b =>
      match meta_of_numbers b with
      | Some ds => Some (MkTableMetaPb t n l h (if f =? 1 then Some (PbOffset o) else None) :: ds)
      | None => None
      end
  | _ => None
  end.
#[export] Instance snapshot_pb_mem : SnapshotPb.
Proof.
  refine {| snapshot_pb_encode := fun S => concat (meta_numbers <$> S); snapshot_pb_decode := meta_of_numbers |}.
  intros S. induction S as [|[t n l h [[o]|]] S IH]; cbn in *; [done|by rewrite IH..].
Defined.

(** ** Runs *)
Ltac wal_step tac := eapply rtc_l; [tac; lazymatch goal with |- uint _ _ => unfold uint; lia | |- _ => vm_compute; reflexivity end|].
Lemma demo_wal_run : exists w, rtc wstep (wal_new (M:=mq_mem) "ns" ∅) w /\ (length (mq_log (wal_mq w) (format_wal_data_topic_name "ns" 1)).2 < 10)%nat /\
  wal_acked w = [MkAck 1 7 1 [10]; MkAck 1 7 2 [11]; MkAck 1 8 1 [12]] /\ wal_del w 1 7 = 2 /\ (ns_clean_logs (wal_mq w) (wal_ns w)).2 = Ok tt /\
  read_all (wal_mq w) (wal_ns w) 1 7 10 = Returns (Ok [MkLogEntry 7 2 [11]]).
Proof.
  eexists. split.
  - wal_step ltac:(eapply (ws_write _ _ _ _ _ 1 7 [[10]; [11]])). wal_step ltac:(eapply (ws_write _ _ _ _ _ 1 8 [[12]])).
    wal_step ltac:(eapply (ws_mark _ _ _ _ _ 1 7 1)). wal_step ltac:(eapply ws_clean). wal_step ltac:(eapply ws_close). wal_step ltac:(eapply (ws_scan _ _ _ _ _ 1)). apply rtc_refl.
  - split_and!; [vm_compute; lia|vm_compute; reflexivity..].
Defined.
Lemma mem_empty topic : mq_log (∅ : mq_mem) topic = (0, []).
Proof. reflexivity. Qed.
Lemma mq_wal_reads_acked_witness : exists w, rtc wstep (wal_new (M:=mq_mem) "ns" ∅) w /\ wal_acked w = [MkAck 1 7 1 [10]; MkAck 1 7 2 [11]; MkAck 1 8 1 [12]] /\
  read_keeps (wal_acked w) (wal_del w) (wal_tried w) 1 7 [MkLogEntry 7 2 [11]].
Proof.
  destruct demo_wal_run as (w & Hrun & Hlen & Hacked & _ & _ & Hread). exists w. split; [exact Hrun|]. split; [exact Hacked|].
  pose proof (mq_wal_reads_acked (M:=mq_mem) "ns" ∅ w 1 7 10 mem_empty Hrun ltac:(unfold uint; lia) Hlen) as H. by rewrite Hread in H.
Defined.
Lemma mq_sequences_increase_witness : exists w, rtc wstep (wal_new (M:=mq_mem) "ns" ∅) w /\ wal_acked w !! 0%nat = Some (MkAck 1 7 1 [10]) /\
  wal_acked w !! 1%nat = Some (MkAck 1 7 2 [11]) /\ 1 < 2.
Proof.
  destruct demo_wal_run as (w & Hrun & _ & Hacked & _). exists w. split; [exact Hrun|]. rewrite Hacked. split; [done|]. split; [done|].
  apply (mq_sequences_increase (M:=mq_mem) "ns" ∅ w 0 1 1 7 1 [10] 2 [11] mem_empty Hrun); [lia|by rewrite Hacked..].
Defined.
Lemma mq_cleaner_consistent_witness : exists w m' ns' g, rtc wstep (wal_new (M:=mq_mem) "ns" ∅) w /\ ns_clean_logs (wal_mq w) (wal_ns w) = (m', ns', g) /\ g <> Panic.
Proof.
  destruct demo_wal_run as (w & Hrun & _). destruct (ns_clean_logs (wal_mq w) (wal_ns w)) as [[m' ns'] g] eqn:Hc.
  exists w, m', ns', g. split; [exact Hrun|]. split; [exact Hc|]. by apply (mq_cleaner_consistent (M:=mq_mem) "ns" ∅ w m' ns' g mem_empty Hrun Hc).
Defined.

