(* ===== verification/Partition.v ===== *)
(** * Partitioned tables

    [table_engine/src/partition]: the rule that says in which partition a row is
    ([rule/key.rs], [rule/factory.rs]), the filters it takes out of a query
    ([rule/df_adapter]), the description of a partitioned table and its protobuf form
    ([mod.rs]); and [partition_table_engine/src/partition.rs], which splits writes and
    sends reads to the tables of the partitions.

    The expressions of DataFusion are a data type: the forms that the code
    distinguishes, and any other with the columns that occur in it.  What an expression
    means is the class [DfEval].  The hash (murmur3) and the remote engine are
    parameters.  A [HashMap] that is iterated is a [gmap] in the order of
    [map_to_list]; no theorem depends on that order. *)

From Stdlib Require Import ZArith Lia String Ascii.
From stdpp Require Import base tactics option list numbers gmap sets strings pretty.
From S2P Require Import Prelude Strings Bytes Datum Schema.

#[local] Open Scope Z_scope.

(** ** Descriptions of partitions ([partition/mod.rs]) *)
Definition PARTITION_TABLE_PREFIX : string := "__".
Inductive PartitionError :=
| BuildPartitionRule
| LocateWritePartition
| LocateReadPartition
| Internal
| EncodePartitionInfoToPb
| DecodePartitionInfoToPb (buf : bytes)
| EmptyEncodedPartitionInfo
| InvalidPartitionInfoEncodingVersion (version : Z)
| EmptyPartitionInfo.
Record PartitionDefinition := MkPartitionDefinition { pd_name : string; pd_origin_name : option string }.
Record HashPartitionInfo := MkHashInfo {
  hi_version : Z; hi_definitions : list PartitionDefinition; hi_expr : bytes; hi_linear : bool
}.
Record KeyPartitionInfo := MkKeyInfo {
  ki_version : Z; ki_definitions : list PartitionDefinition; ki_partition_key : list string; ki_linear : bool
}.
Inductive PartitionInfo := PiHash (v : HashPartitionInfo) | PiKey (v : KeyPartitionInfo).
Definition get_definitions (i : PartitionInfo) : list PartitionDefinition :=
  match i with PiHash v => hi_definitions v | PiKey v => ki_definitions v end.

(** The messages of [ceresdbproto]. *)
Inductive OriginName := Origin (name : string).
Record PartitionDefinitionPb := MkPartitionDefinitionPb { pp_name : string; pp_origin_name : option OriginName }.
Record HashPartitionInfoPb := MkHashInfoPb {
  hp_version : Z; hp_definitions : list PartitionDefinitionPb; hp_expr : bytes; hp_linear : bool
}.
Record KeyPartitionInfoPb := MkKeyInfoPb {
  kp_version : Z; kp_definitions : list PartitionDefinitionPb; kp_partition_key : list string; kp_linear : bool
}.
Inductive InfoPb := InfoHash (v : HashPartitionInfoPb) | InfoKey (v : KeyPartitionInfoPb).
Record PartitionInfoPb := MkPartitionInfoPb { pi_info : option InfoPb }.

Definition definition_to_pb (d : PartitionDefinition) : PartitionDefinitionPb :=
  MkPartitionDefinitionPb (pd_name d) (Origin <$> pd_origin_name d).
Definition definition_of_pb (d : PartitionDefinitionPb) : PartitionDefinition :=
  MkPartitionDefinition (pp_name d) (match pp_origin_name d with Some (Origin name) => Some name | None => None end).
Definition hash_info_of_pb (v : HashPartitionInfoPb) : HashPartitionInfo :=
  MkHashInfo (hp_version v) (definition_of_pb <$> hp_definitions v) (hp_expr v) (hp_linear v).
Definition hash_info_to_pb (v : HashPartitionInfo) : HashPartitionInfoPb :=
  MkHashInfoPb (hi_version v) (definition_to_pb <$> hi_definitions v) (hi_expr v) (hi_linear v).
Definition key_info_of_pb (v : KeyPartitionInfoPb) : KeyPartitionInfo :=
  MkKeyInfo (kp_version v) (definition_of_pb <$> kp_definitions v) (kp_partition_key v) (kp_linear v).
Definition key_info_to_pb (v : KeyPartitionInfo) : KeyPartitionInfoPb :=
  MkKeyInfoPb (ki_version v) (definition_to_pb <$> ki_definitions v) (ki_partition_key v) (ki_linear v).
Definition partition_info_to_pb (i : PartitionInfo) : PartitionInfoPb :=
  match i with
  | PiHash v => MkPartitionInfoPb (Some (InfoHash (hash_info_to_pb v)))
  | PiKey v => MkPartitionInfoPb (Some (InfoKey (key_info_to_pb v)))
  end.
Definition partition_info_of_pb (p : PartitionInfoPb) : res PartitionError PartitionInfo :=
  match pi_info p with
  | Some (InfoHash v) => Ok (PiHash (hash_info_of_pb v))
  | Some (InfoKey v) => Ok (PiKey (key_info_of_pb v))
  | None => Err EmptyPartitionInfo
  end.

Definition format_sub_partition_table_name (table_name partition_name : string) : string :=
  PARTITION_TABLE_PREFIX +:+ table_name +:+ "_" +:+ partition_name.
Definition is_sub_partition_table (table_name : string) : bool := String.prefix PARTITION_TABLE_PREFIX table_name.

(** ** Expressions of DataFusion, and its scalar values *)
Inductive ScalarValue :=
| SBoolean (v : option bool)
| SFloat32 (v : option Z)
| SFloat64 (v : option Z)
| SInt8 (v : option Z)
| SInt16 (v : option Z)
| SInt32 (v : option Z)
| SInt64 (v : option Z)
| SUInt8 (v : option Z)
| SUInt16 (v : option Z)
| SUInt32 (v : option Z)
| SUInt64 (v : option Z)
| SUtf8 (v : option bytes)
| SLargeUtf8 (v : option bytes)
| SBinary (v : option bytes)
| SFixedSizeBinary (v : option bytes)
| SLargeBinary (v : option bytes)
| STimestampMillisecond (v : option Z)
| SDate32 (v : option Z)
| STime64Nanosecond (v : option Z)
| SDictionary (v : ScalarValue)
(** Lists, structs, other times, intervals, decimals and null. *)
| SOther (id : Z).
(** [Datum::from_scalar_value]. *)
Fixpoint from_scalar_value (val : ScalarValue) : option Datum.t :=
  match val with
  | SBoolean v => Datum.Boolean <$> v
  | SFloat32 v => Datum.Float <$> v
  | SFloat64 v => Datum.Double <$> v
  | SInt8 v => Datum.Int8 <$> v
  | SInt16 v => Datum.Int16 <$> v
  | SInt32 v => Datum.Int32 <$> v
  | SInt64 v => Datum.Int64 <$> v
  | SUInt8 v => Datum.UInt8 <$> v
  | SUInt16 v => Datum.UInt16 <$> v
  | SUInt32 v => Datum.UInt32 <$> v
  | SUInt64 v => Datum.UInt64 <$> v
  | SUtf8 v | SLargeUtf8 v => Datum.String <$> v
  | SBinary v | SFixedSizeBinary v | SLargeBinary v => Datum.Varbinary <$> v
  | STimestampMillisecond v => Datum.Timestamp <$> v
  | SDate32 v => Datum.Date <$> v
  | STime64Nanosecond v => Datum.Time <$> v
  | SDictionary literal => from_scalar_value literal
  | SOther _ => None
  end.
Inductive Operator := OpEq | OpOther (id : Z).
Inductive Expr :=
| EColumn (name : string)
| ELiteral (v : ScalarValue)
| EBinary (l : Expr) (op : Operator) (r : Expr)
| EInList (expr : Expr) (entries : list Expr) (negated : bool)
| EOther (id : Z) (columns : list string).
(** [Expr::to_columns], the names of its columns ([df_operator/src/visitor.rs]). *)
Fixpoint find_columns_by_expr (e : Expr) : list string :=
  match e with
  | EColumn name => [name]
  | ELiteral _ => []
  | EBinary l _ r => find_columns_by_expr l ++ find_columns_by_expr r
  | EInList expr entries _ => find_columns_by_expr expr ++ flat_map find_columns_by_expr entries
  | EOther _ columns => columns
  end.

(** ** Filters ([rule/filter.rs], [rule/df_adapter/extractor.rs]) *)
Inductive PartitionCondition :=
| PcEq (d : Datum.t) | PcIn (ds : list Datum.t) | PcLt (d : Datum.t) | PcLtEq (d : Datum.t) | PcGt (d : Datum.t) | PcGtEq (d : Datum.t).
Record PartitionFilter := MkFilter { pf_column : string; pf_condition : PartitionCondition }.

(** The datums of the entries of a list that are literals and have one. *)
Definition literal_datums (entries : list Expr) : list Datum.t :=
  omap (fun entry => match entry with ELiteral val => from_scalar_value val | _ => None end) entries.
(** The conversion of one filter. *)
Definition to_partition_filter (filter : Expr) : option PartitionFilter :=
  match filter with
  | EBinary (EColumn col) OpEq (ELiteral val) | EBinary (ELiteral val) OpEq (EColumn col) =>
      (fun datum => MkFilter col (PcEq datum)) <$> from_scalar_value val
  | EInList (EColumn col) entries false =>
      match literal_datums entries with
      | [] => None
      | datums => Some (MkFilter col (PcIn datums))
      end
  | _ => None
  end.
(** [KeyExtractor::extract]. *)
Definition extract_one (columns : list string) (filter : Expr) : option PartitionFilter :=
  let columns_in_filter : gset string := list_to_set (find_columns_by_expr filter) in
  if existsb (fun col => bool_decide (col ∈ columns_in_filter)) columns then
    if bool_decide (size columns_in_filter = 1%nat) then to_partition_filter filter else None
  else None.
Definition extract (filters : list Expr) (columns : list string) : list PartitionFilter := omap (extract_one columns) filters.

(** ** The rule ([rule/key.rs]) *)
Definition DEFAULT_PARTITION_VERSION : Z := 0.
Record ColumnWithType := MkColumnWithType { ct_column : string; ct_datum_type : DatumKind.t }.
Record KeyRule := MkKeyRule { kr_typed_key_columns : list ColumnWithType; kr_partition_num : Z }.

(** [multi_cartesian_product] of [itertools]: none of no lists. *)
Fixpoint products {A} (ls : list (list A)) : list (list A) :=
  match ls with
  | [] => [[]]
  | l :: ls => x ← l; (fun xs => x :: xs) <$> products ls
  end.
Definition multi_cartesian_product {A} (ls : list (list A)) : list (list A) :=
  match ls with [] => [] | _ => products ls end.

(** Each key column with its index, the last of a name. *)
Definition column_name_to_idxs (columns : list ColumnWithType) : gmap string nat :=
  foldl (fun m ic => <[ct_column ic.2 := ic.1]> m) ∅ (enumerate columns).
(** The indexes of the filters of each column. *)
Fixpoint group_filters (idxs : gmap string nat) (filters : list (nat * PartitionFilter)) (by_columns : list (list nat))
    : res PartitionError (list (list nat)) :=
  match filters with
  | [] => Ok by_columns
  | (filter_idx, filter) :: filters =>
      match idxs !! pf_column filter with
      | None => Err Internal
      | Some col_idx =>
          let? fs := unwrap (by_columns !! col_idx) in
          group_filters idxs filters (<[col_idx := fs ++ [filter_idx]]> by_columns)
      end
  end.
Definition get_candidate_partition_keys_groups (rule : KeyRule) (filters : list PartitionFilter) : res PartitionError (list (list nat)) :=
  let columns := kr_typed_key_columns rule in
  let? filter_by_columns := group_filters (column_name_to_idxs columns) (enumerate filters) (replicate (length columns) []) in
  if existsb (fun fs => bool_decide (fs = [])) filter_by_columns then Ok []
  else Ok (multi_cartesian_product filter_by_columns).

Fixpoint datums_by_columns (group : list nat) (filters : list PartitionFilter) : res PartitionError (list (list Datum.t)) :=
  match group with
  | [] => Ok []
  | filter_idx :: group =>
      let? filter := unwrap (filters !! filter_idx) in
      match pf_condition filter with
      | PcEq datum => let? rest := datums_by_columns group filters in Ok ([datum] :: rest)
      | PcIn datums => let? rest := datums_by_columns group filters in Ok (datums :: rest)
      | _ => Err Internal
      end
  end.
Definition expand_partition_keys_group (group : list nat) (filters : list PartitionFilter) : res PartitionError (list (list Datum.t)) :=
  let? datum_by_columns := datums_by_columns group filters in
  Ok (multi_cartesian_product datum_by_columns).

Section rule.
Context (hash64 : bytes -> Z).

Definition compute_partition {E} (partition_keys : list Datum.t) (partition_num : Z) : res E Z :=
  if partition_num =? 0 then Panic else Ok (hash64 (concat (Datum.to_bytes <$> partition_keys)) mod partition_num).
Fixpoint compute_partitions {E} (keys : list (list Datum.t)) (partition_num : Z) : res E (gset Z) :=
  match keys with
  | [] => Ok ∅
  | partition_keys :: keys =>
      let? partition := compute_partition partition_keys partition_num in
      let? partitions := compute_partitions keys partition_num in
      Ok ({[ partition ]} ∪ partitions)
  end.
Definition compute_partition_for_keys_group (rule : KeyRule) (group : list nat) (filters : list PartitionFilter) : res PartitionError (gset Z) :=
  let? expanded_group := expand_partition_keys_group group filters in
  compute_partitions expanded_group (kr_partition_num rule).

Fixpoint partition_keys_of {E} (r : row) (target_column_idxs : list nat) : res E (list Datum.t) :=
  match target_column_idxs with
  | [] => Ok []
  | col_idx :: idxs => let? d := unwrap (r !! col_idx) in let? ds := partition_keys_of r idxs in Ok (d :: ds)
  end.
Definition compute_partition_for_inserted_row {E} (rule : KeyRule) (r : row) (target_column_idxs : list nat) : res E Z :=
  let? partition_keys := partition_keys_of r target_column_idxs in
  compute_partition partition_keys (kr_partition_num rule).

Fixpoint compute_rows {E} (rule : KeyRule) (typed_idxs : list nat) (rows : list row) : res E (list Z) :=
  match rows with
  | [] => Ok []
  | r :: rows =>
      let? p := compute_partition_for_inserted_row rule r typed_idxs in
      let? ps := compute_rows rule typed_idxs rows in
      Ok (p :: ps)
  end.
Definition locate_partitions_for_write (rule : KeyRule) (row_group : RowGroup) : res PartitionError (list Z) :=
  match mapM (fun c => index_of (rg_schema row_group) (ct_column c)) (kr_typed_key_columns rule) with
  | None => Err LocateWritePartition
  | Some typed_idxs => compute_rows rule typed_idxs (rg_rows row_group)
  end.

(** The intersection over the rest of the groups; [None] if a filter is invalid. *)
Fixpoint intersect_groups (rule : KeyRule) (groups : list (list nat)) (filters : list PartitionFilter) (target : gset Z)
    : res PartitionError (option (gset Z)) :=
  match groups with
  | [] => Ok (Some target)
  | group :: groups =>
      match compute_partition_for_keys_group rule group filters with
      | Ok partitions => intersect_groups rule groups filters (target ∩ partitions)
      | Err _ => Ok None
      | Panic => Panic
      end
  end.
Definition locate_partitions_for_read (rule : KeyRule) (filters : list PartitionFilter) : res PartitionError (list Z) :=
  let all_partitions := seqZ 0 (kr_partition_num rule) in
  match filters with
  | [] => Ok all_partitions
  | _ =>
      match get_candidate_partition_keys_groups rule filters with
      | Panic => Panic
      | Err _ | Ok [] => Ok all_partitions
      | Ok (first_group :: rest_groups) =>
          let? target_partitions := compute_partition_for_keys_group rule first_group filters in
          let? target := intersect_groups rule rest_groups filters target_partitions in
          Ok (match target with Some target => elements target | None => all_partitions end)
      end
  end.
End rule.

(** ** Rules of tables ([rule/factory.rs], [rule/df_adapter/mod.rs]) *)
Definition create_key_rule (key_info : KeyPartitionInfo) (schema : Schema) : res PartitionError KeyRule :=
  let? _ := ensure (ki_version key_info =? DEFAULT_PARTITION_VERSION) BuildPartitionRule in
  match mapM (fun col => (fun c => MkColumnWithType col (ColumnSchema.data_type c)) <$> column_with_name schema col) (ki_partition_key key_info) with
  | None => Err BuildPartitionRule
  | Some typed_key_columns => Ok (MkKeyRule typed_key_columns (Z.of_nat (length (ki_definitions key_info))))
  end.
Definition factory_create (partition_info : PartitionInfo) (schema : Schema) : res PartitionError KeyRule :=
  match partition_info with
  | PiKey key_info => create_key_rule key_info schema
  | PiHash _ => Err BuildPartitionRule
  end.
(** The extractor of the one supported strategy is [extract]. *)
Definition create_extractor (partition_info : PartitionInfo) : res PartitionError unit :=
  match partition_info with PiKey _ => Ok tt | PiHash _ => Err BuildPartitionRule end.
Definition adapter_new (partition_info : PartitionInfo) (schema : Schema) : res PartitionError KeyRule :=
  let? _ := create_extractor partition_info in factory_create partition_info schema.
Definition rule_columns (rule : KeyRule) : list string := ct_column <$> kr_typed_key_columns rule.
Definition adapter_locate_partitions_for_read (hash64 : bytes -> Z) (rule : KeyRule) (filters : list Expr) : res PartitionError (list Z) :=
  locate_partitions_for_read hash64 rule (extract filters (rule_columns rule)).

(** ** Partitioned tables ([partition_table_engine/src/partition.rs]) *)
(** Of [TableData], what is used. *)
Record TableIdentifier := MkIdent { id_catalog : string; id_schema : string; id_table : string }.
Record PartitionTable := MkPartitionTable {
  pt_catalog_name : string;
  pt_schema_name : string;
  pt_table_name : string;
  pt_table_schema : Schema;
  pt_partition_info : PartitionInfo
}.
Inductive PtError (E : Type) :=
| CreatePartitionRule (source : PartitionError)
| LocatePartitions (source : PartitionError)
| PtWrite (table : string) (source : RowError)
| PtWriteBatch (source : E)
| PtScan (source : E).
Arguments CreatePartitionRule {E}.
Arguments LocatePartitions {E}.
Arguments PtWrite {E}.
Arguments PtWriteBatch {E}.
Arguments PtScan {E}.

Definition get_sub_table_ident {E} (t : PartitionTable) (id : Z) : res E TableIdentifier :=
  let? d := unwrap (get_definitions (pt_partition_info t) !! Z.to_nat id) in
  Ok (MkIdent (pt_catalog_name t) (pt_schema_name t) (format_sub_partition_table_name (pt_table_name t) (pd_name d))).

Definition push_row (split_rows : gmap Z (list row)) (pr : Z * row) : gmap Z (list row) :=
  <[pr.1 := default [] (split_rows !! pr.1) ++ [pr.2]]> split_rows.
Definition split_rows (partitions : list Z) (rows : list row) : gmap Z (list row) := foldl push_row ∅ (zip partitions rows).

(** The remote engine: what it is asked to write, each batch with the tables it was for
    and its result, and reads. *)
Class RemoteEngine (U E S : Type) := {
  re_write_batch : U -> list (TableIdentifier * RowGroup) -> U * res E (list (list TableIdentifier * res E Z));
  re_read : U -> TableIdentifier -> list Expr -> U * res E S
}.

Section table.
Context {U E S : Type} {RE : RemoteEngine U E S} (hash64 : bytes -> Z).

Fixpoint make_requests (t : PartitionTable) (schema : Schema) (split : list (Z * list row)) : res (PtError E) (list (TableIdentifier * RowGroup)) :=
  match split with
  | [] => Ok []
  | (partition, rows) :: split =>
      let? sub_table_ident := get_sub_table_ident t partition in
      let? b := rcontext (PtWrite (id_table sub_table_ident)) (with_rows schema rows) in
      let? requests := make_requests t schema split in
      Ok ((sub_table_ident, row_group_build b) :: requests)
  end.
Definition write_requests (t : PartitionTable) (row_group : RowGroup) : res (PtError E) (list (TableIdentifier * RowGroup)) :=
  let? rule := rcontext CreatePartitionRule (adapter_new (pt_partition_info t) (pt_table_schema t)) in
  let? partitions := rcontext LocatePartitions (locate_partitions_for_write hash64 rule row_group) in
  make_requests t (rg_schema row_group) (map_to_list (split_rows partitions (rg_rows row_group))).
Fixpoint sum_results (total_rows : Z) (results : list (list TableIdentifier * res E Z)) : res (PtError E) Z :=
  match results with
  | [] => Ok total_rows
  | (_, result) :: results =>
      let? written_rows := rcontext PtWriteBatch result in
      let? total_rows := u64_op (total_rows + written_rows) in
      sum_results total_rows results
  end.
Definition pt_write (u : U) (t : PartitionTable) (row_group : RowGroup) : U * res (PtError E) Z :=
  match write_requests t row_group with
  | Ok request_batch =>
      let '(u, r) := re_write_batch u request_batch in
      (u, let? batch_results := rcontext PtWriteBatch r in sum_results 0 batch_results)
  | Err e => (u, Err e)
  | Panic => (u, Panic)
  end.

Fixpoint sub_tables (t : PartitionTable) (partitions : list Z) : res (PtError E) (list TableIdentifier) :=
  match partitions with
  | [] => Ok []
  | p :: ps => let? ident := get_sub_table_ident t p in let? idents := sub_tables t ps in Ok (ident :: idents)
  end.
Definition read_idents (t : PartitionTable) (exprs : list Expr) : res (PtError E) (list TableIdentifier) :=
  let? rule := rcontext CreatePartitionRule (adapter_new (pt_partition_info t) (pt_table_schema t)) in
  let? partitions := rcontext LocatePartitions (adapter_locate_partitions_for_read hash64 rule exprs) in
  sub_tables t partitions.
(** The reads are sent together; here they complete in the order they were made. *)
Fixpoint read_streams (u : U) (idents : list TableIdentifier) (exprs : list Expr) : U * res (PtError E) (list S) :=
  match idents with
  | [] => (u, Ok [])
  | ident :: idents =>
      let '(u, stream) := re_read u ident exprs in
      match stream with
      | Ok stream => let '(u, streams) := read_streams u idents exprs in (u, let? streams := streams in Ok (stream :: streams))
      | Err e => (u, Err (PtScan e))
      | Panic => (u, Panic)
      end
  end.
Definition partitioned_read (u : U) (t : PartitionTable) (exprs : list Expr) : U * res (PtError E) (list S) :=
  match read_idents t exprs with
  | Ok idents => read_streams u idents exprs
  | Err e => (u, Err e)
  | Panic => (u, Panic)
  end.
End table.

(** ** What expressions mean *)
Definition row_env (s : Schema) (r : row) (name : string) : option Datum.t := i ← index_of s name; r !! i.
(** That a filter is true of a row.  Equality of a column with a literal of its type,
    floats apart, is that of the datums; it is not true of null; [IN] is the
    disjunction of the equalities. *)
Class DfEval := {
  holds : Expr -> (string -> option Datum.t) -> Prop;
  holds_eq : forall env c v x d, env c = Some x -> from_scalar_value v = Some d -> Datum.kind x = Datum.kind d ->
    DatumKind.is_key_kind (Datum.kind d) = true ->
    holds (EBinary (EColumn c) OpEq (ELiteral v)) env -> x = d;
  holds_comm : forall env c v, holds (EBinary (ELiteral v) OpEq (EColumn c)) env -> holds (EBinary (EColumn c) OpEq (ELiteral v)) env;
  holds_not_null : forall env c e x, env c = Some x -> holds (EBinary (EColumn c) OpEq e) env -> Datum.is_null x = false;
  holds_in : forall env c es, holds (EInList (EColumn c) es false) env -> exists e, e ∈ es /\ holds (EBinary (EColumn c) OpEq e) env
}.
(** A literal of the column's type, and filters on the columns [keys] whose literals
    are of the column's type. *)
Definition literal_typed (s : Schema) (c : string) (e : Expr) : Prop :=
  exists v d col, e = ELiteral v /\ from_scalar_value v = Some d /\ column_with_name s c = Some col /\ Datum.kind d = ColumnSchema.data_type col.
Definition filter_typed (s : Schema) (keys : list string) (e : Expr) : Prop :=
  match e with
  | EBinary (EColumn c) OpEq (ELiteral v) | EBinary (ELiteral v) OpEq (EColumn c) =>
      c ∈ keys -> from_scalar_value v = None \/ literal_typed s c (ELiteral v)
  | EInList (EColumn c) es false => c ∈ keys -> Forall (literal_typed s c) es
  | _ => True
  end.

(** ** Products *)
Lemma elem_of_products {A} (ls : list (list A)) xs : xs ∈ products ls <-> Forall2 (∈) xs ls.
Proof.
  revert xs. induction ls as [|l ls IH]; intros xs; cbn.
  - rewrite list_elem_of_singleton. split; [intros ->; constructor|]. by inversion 1.
  - rewrite list_elem_of_bind. split.
    + intros (x & Hx & Hl). apply list_elem_of_fmap in Hx as (xs' & -> & ?%IH). by constructor.
    + inversion 1 as [|x ? xs' ? Hx Hxs]; subst. exists x. split; [apply list_elem_of_fmap; exists xs'; by rewrite IH|done].
Qed.
Lemma elem_of_product {A} (ls : list (list A)) xs : ls <> [] -> xs ∈ multi_cartesian_product ls <-> Forall2 (∈) xs ls.
Proof. intros Hl. destruct ls; [done|apply elem_of_products]. Qed.

(** ** The filters of a row *)
Definition matches (x : Datum.t) (c : PartitionCondition) : Prop :=
  match c with PcEq d => x = d | PcIn ds => x ∈ ds | _ => False end.
Section reads.
Context {EV : DfEval} (s : Schema) (r : row) (keys : list string).
Hypothesis r_ok : row_ok s r.
Hypothesis keys_ok : Forall (fun c => exists col, column_with_name s c = Some col /\ DatumKind.is_key_kind (ColumnSchema.data_type col) = true) keys.

Lemma key_value c : c ∈ keys -> exists i x col, index_of s c = Some i /\ r !! i = Some x /\ row_env s r c = Some x /\
  column_with_name s c = Some col /\ datum_fits x col /\ DatumKind.is_key_kind (ColumnSchema.data_type col) = true.
Proof.
  intros Hc. rewrite Forall_forall in keys_ok. destruct (keys_ok c Hc) as (col & Hcol & Hk). unfold column_with_name in Hcol.
  destruct (index_of s c) as [i|] eqn:Hi; [|done]. cbn in Hcol. destruct (Forall2_lookup_r _ _ _ _ _ r_ok Hcol) as (x & Hx & Hfit).
  exists i, x, col. unfold row_env, column_with_name. rewrite Hi. cbn. by rewrite Hx, Hcol.
Qed.
Lemma literal_equal c v d x : c ∈ keys -> row_env s r c = Some x -> from_scalar_value v = Some d -> literal_typed s c (ELiteral v) ->
  holds (EBinary (EColumn c) OpEq (ELiteral v)) (row_env s r) -> x = d.
Proof.
  intros Hc Hx Hv (v' & d' & col & [= <-] & Hd' & Hcol & Hk) Hh. rewrite Hv in Hd'. injection Hd' as <-.
  destruct (key_value c Hc) as (i & x' & col' & _ & _ & Hx' & Hcol' & Hfit & Hkey). rewrite Hx in Hx'. injection Hx' as <-. rewrite Hcol in Hcol'. injection Hcol' as <-.
  pose proof (holds_not_null _ _ _ _ Hx Hh) as Hnn. unfold datum_fits in Hfit. rewrite Hnn in Hfit.
  apply (holds_eq (row_env s r) c v x d Hx Hv); [congruence|by rewrite Hk|done].
Qed.
Lemma literal_in es c x e : Forall (literal_typed s c) es -> c ∈ keys -> row_env s r c = Some x -> e ∈ es ->
  holds (EBinary (EColumn c) OpEq e) (row_env s r) -> x ∈ literal_datums es.
Proof.
  intros Hty Hc Hx He Hh. rewrite Forall_forall in Hty. pose proof (Hty e He) as (v & d & col & -> & Hv & Hrest).
  assert (x = d) as -> by (apply (literal_equal c v d x Hc Hx Hv); [by apply Hty|done]).
  apply list_elem_of_omap. by exists (ELiteral v).
Qed.
Lemma to_filter_matches e f : filter_typed s keys e -> holds e (row_env s r) -> to_partition_filter e = Some f -> pf_column f ∈ keys ->
  exists x, row_env s r (pf_column f) = Some x /\ matches x (pf_condition f).
Proof.
  intros Hty Hh Hf Hk. destruct (key_value _ Hk) as (_ & x & _ & _ & _ & Hx & _). exists x. split; [done|].
  assert (forall c v, (c ∈ keys -> from_scalar_value v = None \/ literal_typed s c (ELiteral v)) -> holds (EBinary (EColumn c) OpEq (ELiteral v)) (row_env s r) ->
    (fun datum => MkFilter c (PcEq datum)) <$> from_scalar_value v = Some f -> matches x (pf_condition f)) as Heq.
  { intros c v Ht Hcv Hfv. destruct (from_scalar_value v) as [d|] eqn:Hv; [|done]. injection Hfv as <-. cbn in *. destruct (Ht Hk) as [?|Hlit]; [done|].
    by apply (literal_equal c v d x). }
  destruct e as [| |[c|v| | |] [|] [c'|v'| | |]|[c| | | |] es [|]|]; cbn in Hf; try discriminate Hf.
  - by apply (Heq c v').
  - apply (Heq c' v); [done|by apply holds_comm|done].
  - cbn in Hty. destruct (literal_datums es) as [|d ds] eqn:Hds; [done|]. injection Hf as <-. cbn in *. rewrite <- Hds.
    destruct (holds_in _ _ _ Hh) as (e & He & Hce). by apply (literal_in es c x e); [apply Hty|..].
Qed.
(** A filter is on its one column. *)
Lemma to_filter_column e f : to_partition_filter e = Some f -> pf_column f ∈ find_columns_by_expr e.
Proof.
  destruct e as [| |[c|v| | |] [|] [c'|v'| | |]|[c| | | |] es [|]|]; cbn; try done.
  - destruct (from_scalar_value v'); [|done]. intros [= <-]. by left.
  - destruct (from_scalar_value v); [|done]. intros [= <-]. by left.
  - destruct (literal_datums es); [done|]. intros [= <-]. by left.
Qed.
Lemma extract_one_column e f : extract_one keys e = Some f -> pf_column f ∈ keys.
Proof.
  unfold extract_one. destruct (existsb _ _) eqn:Hex; [|done]. case_bool_decide as Hs; [|done]. intros Hf%to_filter_column.
  apply existsb_exists in Hex as (c & Hc%list_elem_of_In & Hin%bool_decide_eq_true). apply size_1_elem_of in Hs as (c' & Hset).
  assert (pf_column f = c) as ->; [|done]. assert (pf_column f ∈ ({[c']} : gset string)) as ?%elem_of_singleton by (rewrite <- Hset; by apply elem_of_list_to_set).
  rewrite Hset in Hin. apply elem_of_singleton in Hin. congruence.
Qed.
Lemma extract_matches exprs f : Forall (filter_typed s keys) exprs -> Forall (fun e => holds e (row_env s r)) exprs -> f ∈ extract exprs keys ->
  pf_column f ∈ keys /\ exists x, row_env s r (pf_column f) = Some x /\ matches x (pf_condition f).
Proof.
  rewrite !Forall_forall. intros Hty Hh (e & He & Hf)%list_elem_of_omap. pose proof (extract_one_column _ _ Hf) as Hk. split; [done|].
  unfold extract_one in Hf. destruct (existsb _ _); [|done]. case_bool_decide; [|done]. by apply (to_filter_matches e f); [apply Hty|apply Hh|..].
Qed.
End reads.

(** ** Groups of filters *)
Lemma column_idxs_app cols c : column_name_to_idxs (cols ++ [c]) = <[ct_column c := length cols]> (column_name_to_idxs cols).
Proof. unfold column_name_to_idxs. by rewrite enumerate_app, foldl_app. Qed.
Lemma column_idxs_spec cols name :
  match column_name_to_idxs cols !! name with
  | Some i => exists c, cols !! i = Some c /\ ct_column c = name
  | None => name ∉ (ct_column <$> cols)
  end.
Proof.
  induction cols as [|c cols IH] using rev_ind; [apply not_elem_of_nil|]. rewrite column_idxs_app, fmap_app.
  destruct (decide (ct_column c = name)) as [<-|Hne].
  - rewrite lookup_insert_eq. exists c. by rewrite lookup_app_r, Nat.sub_diag by lia.
  - rewrite lookup_insert_ne by done. destruct (_ !! name) as [i|].
    + destruct IH as (d & Hd & Hn). exists d. split; [|done]. by apply lookup_app_l_Some.
    + set_solver.
Qed.

(** Each group of filters is of the filters of its column. *)
Definition groups_ok (cols : list ColumnWithType) (filters : list PartitionFilter) (by_columns : list (list nat)) : Prop :=
  Forall2 (fun c fs => Forall (fun k => exists f, filters !! k = Some f /\ pf_column f = ct_column c) fs) cols by_columns.
Lemma group_filters_ok cols filters todo by_columns : groups_ok cols filters by_columns ->
  Forall (fun kf => filters !! kf.1 = Some kf.2 /\ pf_column kf.2 ∈ (ct_column <$> cols)) todo ->
  exists by_columns', group_filters (column_name_to_idxs cols) todo by_columns = Ok by_columns' /\ groups_ok cols filters by_columns'.
Proof.
  revert by_columns. induction todo as [|[k f] todo IH]; intros by_columns Hok Htodo; cbn; [by exists by_columns|].
  apply Forall_cons in Htodo as [[Hk Hc] Htodo]. cbn in *. pose proof (column_idxs_spec cols (pf_column f)) as Hspec.
  destruct (column_name_to_idxs cols !! _) as [i|]; [|done]. destruct Hspec as (c & Hi & Hname).
  destruct (Forall2_lookup_l _ _ _ _ _ Hok Hi) as (fs & Hfs & Hall). rewrite Hfs. cbn. apply IH; [|done].
  rewrite <- (list_insert_id cols i c Hi). apply Forall2_insert; [done|]. apply Forall_app. split; [done|]. apply Forall_singleton. by exists f.
Qed.
Lemma candidate_groups_ok rule filters : Forall (fun f => pf_column f ∈ rule_columns rule) filters ->
  exists groups, get_candidate_partition_keys_groups rule filters = Ok groups /\
    Forall (Forall2 (fun c k => exists f, filters !! k = Some f /\ pf_column f = ct_column c) (kr_typed_key_columns rule)) groups.
Proof.
  intros Hf. unfold get_candidate_partition_keys_groups. cbn zeta. set (cols := kr_typed_key_columns rule) in *.
  destruct (group_filters_ok cols filters (enumerate filters) (replicate (length cols) [])) as (by_columns & -> & Hok).
  - clear. unfold groups_ok. induction cols; cbn; constructor; [constructor|done].
  - rewrite Forall_forall in Hf. apply Forall_forall. intros [k f] Hk. assert (filters !! k = Some f) as Hl.
    { apply list_elem_of_lookup in Hk as (j & Hj). unfold enumerate in Hj. apply lookup_zip_Some in Hj as [[-> _]%lookup_seq ?]. done. }
    split; [done|]. by apply Hf, list_elem_of_lookup_2 with k.
  - cbn. destruct (existsb _ _); [eexists; split; [done|constructor]|]. eexists. split; [done|]. apply Forall_forall. intros g Hg.
    destruct by_columns as [|l ls]; [by apply not_elem_of_nil in Hg|]. apply elem_of_product in Hg; [|done].
    apply Forall2_same_length_lookup. split; [by rewrite (Forall2_length _ _ _ Hg), (Forall2_length _ _ _ Hok)|].
    intros i c k Hc Hk. destruct (Forall2_lookup_l _ _ _ _ _ Hok Hc) as (fs & Hfs & Hall). destruct (Forall2_lookup_l _ _ _ _ _ Hg Hk) as (fs' & Hfs' & Hin).
    rewrite Hfs in Hfs'. injection Hfs' as <-. rewrite Forall_forall in Hall. by apply Hall.
Qed.

Lemma locate_read_filters hash64 rule filters : filters <> [] ->
  locate_partitions_for_read hash64 rule filters =
    match get_candidate_partition_keys_groups rule filters with
    | Panic => Panic
    | Err _ | Ok [] => Ok (seqZ 0 (kr_partition_num rule))
    | Ok (first_group :: rest_groups) =>
        let? target_partitions := compute_partition_for_keys_group hash64 rule first_group filters in
        let? target := intersect_groups hash64 rule rest_groups filters target_partitions in
        Ok (match target with Some target => elements target | None => seqZ 0 (kr_partition_num rule) end)
    end.
Proof. by destruct filters. Qed.

(** ** A row is in the partitions of the filters that match it *)
Section located.
Context (hash64 : bytes -> Z) (rule : KeyRule) (filters : list PartitionFilter) (keys : list Datum.t) (env : string -> option Datum.t).
Hypothesis keys_are : Forall2 (fun c x => env (ct_column c) = Some x) (kr_typed_key_columns rule) keys.
Hypothesis filters_match : forall f, f ∈ filters -> pf_column f ∈ rule_columns rule /\ exists x, env (pf_column f) = Some x /\ matches x (pf_condition f).

Lemma group_expands group : Forall2 (fun c k => exists f, filters !! k = Some f /\ pf_column f = ct_column c) (kr_typed_key_columns rule) group ->
  exists ls, datums_by_columns group filters = Ok ls /\ Forall2 (∈) keys ls.
Proof.
  revert keys_are. generalize (kr_typed_key_columns rule) as cols. intros cols Hkeys. revert group.
  induction Hkeys as [|c x cols xs Hx _ IH]; intros group Hg; inversion Hg as [|? k ? group' Hk Hrest]; subst; cbn; [by exists []|].
  destruct Hk as (f & Hk & Hc). rewrite Hk. cbn. destruct (filters_match f) as (_ & x' & Hx' & Hm); [by eapply list_elem_of_lookup_2|].
  rewrite Hc, Hx in Hx'. injection Hx' as <-. destruct (IH group' Hrest) as (ls & -> & Hls).
  destruct (pf_condition f) as [d|ds| | | |]; cbn in *; try done.
  - exists ([d] :: ls). split; [done|]. constructor; [subst; by left|done].
  - exists (ds :: ls). split; [done|]. by constructor.
Qed.
Lemma compute_partitions_ok (kss : list (list Datum.t)) n : n <> 0 -> exists ps, compute_partitions (E:=PartitionError) hash64 kss n = Ok ps /\
  forall ks, ks ∈ kss -> hash64 (concat (Datum.to_bytes <$> ks)) mod n ∈ ps.
Proof.
  intros Hn. induction kss as [|ks kss IH]; cbn; [exists ∅; split; [done|]; by intros ? ?%not_elem_of_nil|].
  unfold compute_partition at 1. rewrite (proj2 (Z.eqb_neq _ _) Hn). cbn. destruct IH as (ps & -> & Hps). cbn. eexists. split; [done|].
  intros ks' [->|Hin]%elem_of_cons; [set_solver|]. apply Hps in Hin. set_solver.
Qed.
Definition partition_of_keys : Z := hash64 (concat (Datum.to_bytes <$> keys)) mod kr_partition_num rule.
Lemma group_located group : 0 < kr_partition_num rule -> keys <> [] ->
  Forall2 (fun c k => exists f, filters !! k = Some f /\ pf_column f = ct_column c) (kr_typed_key_columns rule) group ->
  exists ps, compute_partition_for_keys_group hash64 rule group filters = Ok ps /\ partition_of_keys ∈ ps.
Proof.
  intros Hn Hne Hg. unfold compute_partition_for_keys_group, expand_partition_keys_group. destruct (group_expands group Hg) as (ls & -> & Hls). cbn [rbind].
  destruct (compute_partitions_ok (multi_cartesian_product ls) (kr_partition_num rule)) as (ps & -> & Hps); [lia|]. exists ps. split; [done|].
  apply Hps, elem_of_product; [|done]. intros ->. by inversion Hls; subst.
Qed.
Lemma intersect_located groups target : 0 < kr_partition_num rule -> keys <> [] -> partition_of_keys ∈ target ->
  Forall (Forall2 (fun c k => exists f, filters !! k = Some f /\ pf_column f = ct_column c) (kr_typed_key_columns rule)) groups ->
  exists ps, intersect_groups hash64 rule groups filters target = Ok (Some ps) /\ partition_of_keys ∈ ps.
Proof.
  intros Hn Hne Ht Hg. revert target Ht. induction Hg as [|group groups Hg _ IH]; intros target Ht; cbn; [by exists target|].
  destruct (group_located group Hn Hne Hg) as (ps & -> & Hps). apply IH. set_solver.
Qed.
Lemma read_located : 0 < kr_partition_num rule -> exists ps, locate_partitions_for_read hash64 rule filters = Ok ps /\ partition_of_keys ∈ ps.
Proof.
  intros Hn. assert (partition_of_keys ∈ seqZ 0 (kr_partition_num rule)) as Hall.
  { apply elem_of_seqZ. unfold partition_of_keys. pose proof (Z.mod_pos_bound (hash64 (concat (Datum.to_bytes <$> keys))) (kr_partition_num rule) Hn). lia. }
  destruct (decide (filters = [])) as [->|Hf]; [by eexists|]. rewrite (locate_read_filters _ _ _ Hf).
  destruct (candidate_groups_ok rule filters) as (groups & -> & Hg); [apply Forall_forall; intros; by apply filters_match|].
  destruct groups as [|first rest]; [by eexists|]. apply Forall_cons in Hg as [Hfirst Hrest].
  assert (keys <> []) as Hne.
  { intros ->. inversion keys_are as [Hcols|]. assert (exists f, f ∈ filters) as (f & Hin) by (destruct filters as [|f fs]; [done|exists f; by left]). destruct (filters_match f Hin) as [Hc _]. unfold rule_columns in Hc.
    rewrite <- Hcols in Hc. by apply not_elem_of_nil in Hc. }
  destruct (group_located first Hn Hne Hfirst) as (ps & -> & Hps). cbn [rbind].
  destruct (intersect_located rest ps Hn Hne Hps Hrest) as (ps' & -> & Hps'). cbn [rbind]. eexists. split; [done|]. by apply elem_of_elements.
Qed.
End located.

(** Partitions that are located are partitions of the table. *)
Section range.
Context (hash64 : bytes -> Z) (rule : KeyRule).
Hypothesis some : 0 < kr_partition_num rule.
Definition in_range (p : Z) : Prop := 0 <= p < kr_partition_num rule.

Lemma compute_partitions_range kss ps : compute_partitions (E:=PartitionError) hash64 kss (kr_partition_num rule) = Ok ps -> set_Forall in_range ps.
Proof.
  revert ps. induction kss as [|ks kss IH]; cbn; intros ps; [intros [= <-]; apply set_Forall_empty|]. unfold compute_partition. rewrite (proj2 (Z.eqb_neq _ _)) by lia. cbn.
  destruct (compute_partitions _ _ _) as [ps'| |]; cbn; try done. intros [= <-]. apply set_Forall_union; [|by apply IH].
  apply set_Forall_singleton. unfold in_range. apply Z.mod_pos_bound. lia.
Qed.
Lemma group_range group filters ps : compute_partition_for_keys_group hash64 rule group filters = Ok ps -> set_Forall in_range ps.
Proof. unfold compute_partition_for_keys_group. destruct (expand_partition_keys_group _ _); cbn; try done. apply compute_partitions_range. Qed.
Lemma intersect_range groups filters target ps : set_Forall in_range target -> intersect_groups hash64 rule groups filters target = Ok (Some ps) -> set_Forall in_range ps.
Proof.
  revert target. induction groups as [|group groups IH]; cbn; intros target Ht; [by intros [= <-]|].
  destruct (compute_partition_for_keys_group _ _ _ _) as [ps'| |]; try done. apply IH. intros p [? _]%elem_of_intersection. by apply Ht.
Qed.
Lemma read_range filters ps : locate_partitions_for_read hash64 rule filters = Ok ps -> Forall in_range ps.
Proof.
  assert (Forall in_range (seqZ 0 (kr_partition_num rule))) as Hall by (apply Forall_forall; intros p ?%elem_of_seqZ; unfold in_range; lia).
  destruct (decide (filters = [])) as [->|Hf]; [by intros [= <-]|]. rewrite locate_read_filters by done.
  destruct (get_candidate_partition_keys_groups rule filters) as [[|first rest]| |]; try done; try by intros [= <-].
  destruct (compute_partition_for_keys_group _ _ _ _) as [ps1| |] eqn:H1; cbn; try done. apply group_range in H1.
  destruct (intersect_groups _ _ _ _ _) as [[ps2|]| |] eqn:H2; cbn; try done; intros [= <-]; [|done].
  apply (intersect_range _ _ _ _ H1) in H2. apply Forall_forall. intros p ?%elem_of_elements. by apply H2.
Qed.
End range.

(** ** Splitting a write *)
Lemma compute_rows_spec {E} hash64 rule idxs rows ps : compute_rows (E:=E) hash64 rule idxs rows = Ok ps ->
  Forall2 (fun r p => exists keys, partition_keys_of (E:=E) r idxs = Ok keys /\ kr_partition_num rule <> 0 /\ p = partition_of_keys hash64 rule keys) rows ps.
Proof.
  revert ps. induction rows as [|r rows IH]; cbn; intros ps; [by intros [= <-]|]. unfold compute_partition_for_inserted_row, compute_partition.
  destruct (partition_keys_of r idxs) as [keys| |] eqn:Hk; cbn; try done. destruct (Z.eqb_spec (kr_partition_num rule) 0); cbn; [done|].
  destruct (compute_rows _ _ _ _) as [ps'| |]; cbn; try done. intros [= <-]. constructor; [by exists keys|by apply IH].
Qed.
Definition rows_of_partition (p : Z) (prs : list (Z * row)) : list row := (filter (fun pr => pr.1 = p) prs).*2.
Lemma split_rows_lookup prs p : foldl push_row ∅ prs !! p = match rows_of_partition p prs with [] => None | rows => Some rows end.
Proof.
  induction prs as [|[q r] prs IH] using rev_ind; [done|]. rewrite foldl_app. cbn [foldl]. unfold push_row at 1. cbn [fst snd]. unfold rows_of_partition in *. rewrite filter_app, fmap_app.
  destruct (decide (q = p)) as [->|Hne].
  - rewrite lookup_insert_eq, IH. rewrite filter_cons_True by done. by destruct ((filter _ prs).*2).
  - rewrite lookup_insert_ne, IH by done. rewrite filter_cons_False by done. by rewrite app_nil_r.
Qed.
Lemma split_rows_elem ps rows p rs : (p, rs) ∈ map_to_list (split_rows ps rows) -> rs = rows_of_partition p (zip ps rows).
Proof. rewrite elem_of_map_to_list. unfold split_rows. rewrite split_rows_lookup. destruct (rows_of_partition _ _); [done|]. by intros [= <-]. Qed.
Lemma split_rows_dom ps rows p : length ps = length rows -> p ∈ (map_to_list (split_rows ps rows)).*1 <-> p ∈ ps.
Proof.
  intros Hl. rewrite list_elem_of_fmap. setoid_rewrite elem_of_map_to_list'. unfold split_rows. setoid_rewrite split_rows_lookup.
  assert (p ∈ ps <-> rows_of_partition p (zip ps rows) <> []) as ->.
  { unfold rows_of_partition. split.
    - intros [k Hk]%list_elem_of_lookup. destruct (lookup_lt_is_Some_2 rows k) as [r Hr]; [rewrite <- Hl; by eapply lookup_lt_Some|].
      intros Hnil%fmap_nil_inv. assert ((p, r) ∈ filter (fun pr => pr.1 = p) (zip ps rows)) as Hin; [|rewrite Hnil in Hin; by apply not_elem_of_nil in Hin].
      apply list_elem_of_filter. split; [done|]. apply list_elem_of_lookup. exists k. by apply lookup_zip_Some.
    - intros Hne. destruct (filter _ _) as [|[q r] l] eqn:Hf; [done|]. assert ((q, r) ∈ filter (fun pr => pr.1 = p) (zip ps rows)) as Hin by (rewrite Hf; by left).
      apply list_elem_of_filter in Hin as [Hq Hin]. cbn in Hq. subst q. by apply elem_of_zip_l in Hin. }
  split.
  - intros ([q rs] & -> & Hq). cbn in *. by destruct (rows_of_partition _ _).
  - intros Hne. exists (p, rows_of_partition p (zip ps rows)). cbn. by destruct (rows_of_partition _ _).
Qed.
Lemma with_rows_rows schema rows b : with_rows schema rows = Ok b -> rgb_rows b = rows.
Proof. unfold with_rows. destruct (rfold _ _ _); cbn; try done. by intros [= <-]. Qed.
Lemma make_requests_spec {E} t schema split reqs : make_requests (E:=E) t schema split = Ok reqs ->
  Forall2 (fun pr req => get_sub_table_ident (E:=PtError E) t pr.1 = Ok req.1 /\ rg_rows req.2 = pr.2) split reqs.
Proof.
  revert reqs. induction split as [|[p rows] split IH]; cbn; intros reqs; [by intros [= <-]|].
  destruct (get_sub_table_ident t p) as [ident| |] eqn:Hi; cbn; try done. destruct (with_rows schema rows) as [b| |] eqn:Hb; cbn; try done.
  destruct (make_requests _ _ _) as [reqs'| |]; cbn; try done. intros [= <-]. constructor; [|by apply IH]. split; [done|]. by apply (with_rows_rows schema).
Qed.
(** A write is split by the partitions of its rows: a request for each partition that
    occurs, with its rows in their order. *)
Lemma write_requests_spec {E} hash64 t g reqs : write_requests (E:=E) hash64 t g = Ok reqs ->
  exists rule ps parts, adapter_new (pt_partition_info t) (pt_table_schema t) = Ok rule /\ locate_partitions_for_write hash64 rule g = Ok ps /\
    length ps = length (rg_rows g) /\ NoDup parts /\ (forall p, p ∈ parts <-> p ∈ ps) /\
    Forall2 (fun p req => get_sub_table_ident (E:=PtError E) t p = Ok req.1 /\ rg_rows req.2 = rows_of_partition p (zip ps (rg_rows g))) parts reqs.
Proof.
  unfold write_requests. destruct (adapter_new _ _) as [rule| |] eqn:Hr; cbn; try done. destruct (locate_partitions_for_write _ _ _) as [ps| |] eqn:Hps; cbn; try done.
  intros Hreq%make_requests_spec. assert (length ps = length (rg_rows g)) as Hl.
  { unfold locate_partitions_for_write in Hps. destruct (mapM _ _); [|done]. apply compute_rows_spec, Forall2_length in Hps. done. }
  exists rule, ps, (map_to_list (split_rows ps (rg_rows g))).*1. split_and!; [done..|apply NoDup_fst_map_to_list|intros p; by apply split_rows_dom|].
  apply Forall2_fmap_l. apply Forall2_same_length_lookup. split; [by apply Forall2_length in Hreq|].
  intros i [p rs] req Hp Hrq. destruct (Forall2_lookup_lr _ _ _ _ _ _ Hreq Hp Hrq) as [Hid Hrows]. cbn in *. split; [done|]. rewrite Hrows.
  by apply split_rows_elem, list_elem_of_lookup_2 with i.
Qed.

(** ** Reading what was written *)
Definition partition_key (t : PartitionTable) : list string := match pt_partition_info t with PiKey v => ki_partition_key v | PiHash _ => [] end.
Lemma adapter_new_spec info s rule : adapter_new info s = Ok rule ->
  kr_partition_num rule = Z.of_nat (length (get_definitions info)) /\ exists v, info = PiKey v /\ rule_columns rule = ki_partition_key v /\
  Forall (fun c => exists col, column_with_name s c = Some col) (ki_partition_key v).
Proof.
  unfold adapter_new. destruct info as [v|v]; cbn; [done|]. unfold create_key_rule. destruct (_ =? _); cbn; [|done].
  destruct (mapM _ _) as [cols|] eqn:Hm; [|done]. intros [= <-]. cbn. split; [done|]. exists v. split; [done|]. unfold rule_columns. cbn.
  apply mapM_Some in Hm. induction Hm as [|c ct cs cts Hc _ [Heq IH]]; [done|]. destruct (column_with_name s c) as [col|] eqn:Hcol; [|done].
  injection Hc as <-. cbn. rewrite Heq. split; [done|]. constructor; [by exists col|done].
Qed.
Lemma partition_keys_env {E} s r cols idxs keys : mapM (fun c => index_of s (ct_column c)) cols = Some idxs -> partition_keys_of (E:=E) r idxs = Ok keys ->
  Forall2 (fun c x => row_env s r (ct_column c) = Some x) cols keys.
Proof.
  rewrite mapM_Some. intros Hm. revert keys. induction Hm as [|c i cols idxs Hc _ IH]; intros keys; cbn; [by intros [= <-]|].
  destruct (r !! i) as [x|] eqn:Hx; cbn; [|done]. destruct (partition_keys_of r idxs) as [xs| |]; cbn; try done. intros [= <-].
  constructor; [unfold row_env; rewrite Hc; by cbn|by apply IH].
Qed.
Lemma sub_tables_ok {E} t ps : Forall (fun p => 0 <= p < Z.of_nat (length (get_definitions (pt_partition_info t)))) ps ->
  exists idents, sub_tables (E:=E) t ps = Ok idents /\ forall p ident, p ∈ ps -> get_sub_table_ident (E:=PtError E) t p = Ok ident -> ident ∈ idents.
Proof.
  induction 1 as [|p ps Hp _ (idents & Hids & IH)]; cbn; [exists []; split; [done|]; by intros ? ? ?%not_elem_of_nil|].
  destruct (get_sub_table_ident t p) as [ident| |] eqn:Hi; cycle 1.
  1, 2: unfold get_sub_table_ident in Hi; destruct (lookup_lt_is_Some_2 (get_definitions (pt_partition_info t)) (Z.to_nat p)) as [d Hd]; [lia|]; by rewrite Hd in Hi.
  cbn. rewrite Hids. cbn. eexists. split; [done|]. intros q ident' [->|Hq]%elem_of_cons Hid; [rewrite Hi in Hid; injection Hid as <-; by left|right; by eapply IH].
Qed.
Lemma row_partition hash64 (t : PartitionTable) g rule ps r : adapter_new (pt_partition_info t) (pt_table_schema t) = Ok rule ->
  locate_partitions_for_write hash64 rule g = Ok ps -> r ∈ rg_rows g -> exists keys, 0 < kr_partition_num rule /\ (partition_of_keys hash64 rule keys, r) ∈ zip ps (rg_rows g) /\
  Forall2 (fun c x => row_env (rg_schema g) r (ct_column c) = Some x) (kr_typed_key_columns rule) keys.
Proof.
  intros (Hn & _)%adapter_new_spec Hps Hr. unfold locate_partitions_for_write in Hps. destruct (mapM _ _) as [idxs|] eqn:Hm; [|done].
  apply compute_rows_spec in Hps. apply list_elem_of_lookup in Hr as [k Hk]. destruct (Forall2_lookup_l _ _ _ _ _ Hps Hk) as (p & Hp & keys & Hkeys & H0 & ->).
  exists keys. split_and!; [lia| |by eapply partition_keys_env]. apply list_elem_of_lookup. exists k. by apply lookup_zip_Some.
Qed.

(** ** Partitions that SQL makes ([query_frontend/src/partition.rs]) *)
Definition MAX_PARTITION_NUM : Z := 1024.
Definition make_partition_definitions (partition_num : Z) : list PartitionDefinition :=
  (fun p => MkPartitionDefinition (pretty (Z.to_N p)) None) <$> seqZ 0 partition_num.
(** A key partition as parsed. *)
Record KeyPartition := MkKeyPartition { kn_linear : bool; kn_partition_num : Z; kn_partition_key : list string }.
Definition parse_key_partition (stmt : KeyPartition) : KeyPartitionInfo :=
  MkKeyInfo DEFAULT_PARTITION_VERSION (make_partition_definitions (kn_partition_num stmt)) (kn_partition_key stmt) (kn_linear stmt).

(** Their tables have different names. *)
Lemma made_sub_tables_apart {E} t stmt p q ident : pt_partition_info t = PiKey (parse_key_partition stmt) -> 0 <= p -> 0 <= q ->
  get_sub_table_ident (E:=E) t p = Ok ident -> get_sub_table_ident (E:=E) t q = Ok ident -> p = q.
Proof.
  intros Ht Hp0 Hq0. unfold get_sub_table_ident. rewrite Ht. cbn. unfold make_partition_definitions. rewrite !list_lookup_fmap.
  destruct (seqZ _ _ !! Z.to_nat p) as [p'|] eqn:Hp; cbn; [|done]. destruct (seqZ _ _ !! Z.to_nat q) as [q'|] eqn:Hq; cbn; [|done].
  apply lookup_seqZ in Hp as [-> _], Hq as [-> _]. intros [= <-] [= Heq]. unfold format_sub_partition_table_name in Heq.
  apply (inj (String.app _)), (inj (String.app _)), (inj (String.app _)), (inj pretty) in Heq. lia.
Qed.
(** A table made with [PARTITIONS 0] takes no write. *)
Lemma no_partitions_panic {E} hash64 t stmt g rule : pt_partition_info t = PiKey (parse_key_partition stmt) -> kn_partition_num stmt = 0 ->
  adapter_new (pt_partition_info t) (pt_table_schema t) = Ok rule -> rg_rows g <> [] ->
  mapM (fun c => index_of (rg_schema g) (ct_column c)) (kr_typed_key_columns rule) = None \/ write_requests (E:=E) hash64 t g = Panic.
Proof.
  intros Ht Hn Hrule Hne. destruct (mapM _ _) as [idxs|] eqn:Hm; [right|by left]. unfold write_requests. rewrite Hrule. cbn [rcontext rbind].
  unfold locate_partitions_for_write. rewrite Hm. pose proof (adapter_new_spec _ _ _ Hrule) as [Hnum _]. rewrite Ht in Hnum. cbn in Hnum. rewrite Hn in Hnum. cbn in Hnum.
  destruct (rg_rows g) as [|r rows]; [done|]. cbn. unfold compute_partition_for_inserted_row, compute_partition. rewrite Hnum.
  destruct (partition_keys_of r idxs) as [keys|e|] eqn:Hk; cbn; [done| |done]. exfalso. clear -Hk. revert e Hk. induction idxs as [|i idxs IH]; cbn; intros e; [done|].
  destruct (r !! i); cbn; [|done]. destruct (partition_keys_of r idxs) as [|e'|]; cbn; [done|intros _; by apply (IH e')|done].
Qed.
(** The description of a table survives protobuf. *)
Lemma partition_info_roundtrip i : partition_info_of_pb (partition_info_to_pb i) = Ok i.
Proof.
  assert (forall ds : list PartitionDefinition, definition_of_pb <$> (definition_to_pb <$> ds) = ds) as Hds.
  { intros ds. induction ds as [|[n [o|]] ds IH]; cbn; [done|by rewrite IH..]. }
  destruct i as [[]|[]]; cbn; unfold hash_info_of_pb, key_info_of_pb; cbn; by rewrite Hds.
Qed.

(** ** Runs *)
Definition value_of (e : Expr) (env : string -> option Datum.t) : option Datum.t :=
  match e with EColumn c => env c | ELiteral v => from_scalar_value v | _ => None end.
Definition equal_in (env : string -> option Datum.t) (a b : Expr) : Prop :=
  exists x, value_of a env = Some x /\ value_of b env = Some x /\ Datum.is_null x = false.
#[export] Instance df_eval : DfEval.
Proof.
  refine {| holds := fun e env => match e with
    | EBinary a OpEq b => equal_in env a b
    | EInList a es false => Exists (equal_in env a) es
    | _ => False end |}.
  - intros env c v x d Hx Hd _ _ (y & Hy & Hz & _). cbn in *. congruence.
  - intros env c v (y & ? & ? & ?). by exists y.
  - intros env c e x Hx (y & Hy & _ & Hn). cbn in *. congruence.
  - intros env c es (e & He & ?)%Exists_exists. by exists e.
Defined.
Definition demo_table : PartitionTable :=
  MkPartitionTable "ceresdb" "public" "t" the_demo (PiKey (parse_key_partition (MkKeyPartition false 4 ["host"]))).
Definition demo_sum (b : bytes) : Z := foldr Z.add 0 b.
Definition demo_row (host : bytes) : row := [Datum.String host; Datum.Timestamp 5; Datum.Double 0].
Definition demo_group : RowGroup := MkRowGroup the_demo [demo_row [97]; demo_row [98]; demo_row [101]] 5 5.
Definition host (b : bytes) : Expr := ELiteral (SUtf8 (Some b)).
Definition sub_table (name : string) : TableIdentifier := MkIdent "ceresdb" "public" name.
Definition demo_requests : list (TableIdentifier * RowGroup) :=
  match write_requests (E:=unit) demo_sum demo_table demo_group with Ok reqs => reqs | _ => [] end.
Lemma demo_routes : write_requests (E:=unit) demo_sum demo_table demo_group = Ok demo_requests /\
  demo_requests.*1 = [sub_table "__t_2"; sub_table "__t_1"] /\ (rg_rows <$> demo_requests.*2) = [[demo_row [98]]; [demo_row [97]; demo_row [101]]] /\
  read_idents (E:=unit) demo_sum demo_table [EInList (EColumn "host") [host [98]; host [99]] false] = Ok [sub_table "__t_3"; sub_table "__t_2"].
Proof. split_and!; vm_compute; reflexivity. Qed.

