(* ===== verification/PartitionSql.v ===== *)
(** * The partition clause of [CREATE TABLE]

    [query_frontend/src/parser.rs], [maybe_parse_and_check_partition] and below, and
    [query_frontend/src/partition.rs].  The parser of sqlparser is the class
    [SqlParser]: its state, its tokens and the parts of its grammar that are called. *)

From Stdlib Require Import ZArith Lia String Ascii.
From stdpp Require Import base tactics option list numbers gmap strings pretty.
From S2P Require Import Prelude Strings Bytes Datum Schema Partition.

#[local] Open Scope Z_scope.

(** ** Column definitions *)
Definition TAG : string := "TAG".
Definition DICTIONARY : string := "DICTIONARY".
Inductive DataType :=
| DtInt | DtTinyInt | DtSmallInt | DtBigInt
| DtUnsignedInt | DtUnsignedTinyInt | DtUnsignedSmallInt | DtUnsignedBigInt
| DtString | DtOther (id : Z).
#[global] Instance data_type_eq_dec : EqDecision DataType.
Proof. solve_decision. Defined.
(** Tokens of a [DialectSpecific] option: words, and others. *)
Inductive SqlToken := Word (value : string) | OtherToken (id : Z).
Inductive ColumnOption := DialectSpecific (tokens : list SqlToken) | OtherOption (id : Z).
(** An identifier and how it is quoted. *)
Record Ident := MkSqlIdent { si_value : string; si_quote_style : option ascii }.
#[global] Instance ident_eq_dec : EqDecision Ident.
Proof. solve_decision. Defined.
Record ColumnDef := MkColumnDef { cd_name : Ident; cd_data_type : DataType; cd_options : list ColumnOption }.
(** [is_custom_column]. *)
Definition is_custom_column (name : string) (opt : ColumnOption) : bool :=
  match opt with DialectSpecific [Word value] => bool_decide (value = name) | _ => false end.
Definition is_tag_column (opt : ColumnOption) : bool := is_custom_column TAG opt.
Definition is_dictionary_column (opt : ColumnOption) : bool := is_custom_column DICTIONARY opt.

Inductive SqlExpr := SqlIdentifier (id : Ident) | SqlNested (e : SqlExpr) | SqlOther (id : Z).
Inductive SqlNumber := Number (v : string) | OtherValue (id : Z).
Record HashPartition := MkHashPartition { hn_linear : bool; hn_partition_num : Z; hn_expr : SqlExpr }.
Inductive SqlPartition := PHash (p : HashPartition) | PKey (p : KeyPartition).

(** ** The parser underneath *)
Inductive ParserError := SqlparserError (id : Z) | NoPartitionKey | NonExistentColumn | KeyMustBeTag
| InvalidPartitionNum | ExpectPartitionNumber | TooManyPartitions | ExpectTagColumn | OnlyColumnInHash | ExpectNestedExpr.
Class SqlParser (S : Type) := {
  (** the text of the next token *)
  peek_token : S -> string;
  next_token : S -> S;
  parse_keyword : S -> string -> option S;
  parse_column_list : S -> res ParserError (list Ident * S);
  parse_expr : S -> res ParserError (SqlExpr * S);
  parse_number_value : S -> res ParserError (SqlNumber * S)
}.

(** [str::to_uppercase] of ASCII text. *)
Definition upper (c : ascii) : ascii :=
  let n := nat_of_ascii c in if (97 <=? n)%nat && (n <=? 122)%nat then ascii_of_nat (n - 32) else c.
Definition to_uppercase (s : string) : string := string_of_list_ascii (upper <$> list_ascii_of_string s).

Section parser.
Context {S : Type} {SP : SqlParser S} (parse_u64 : string -> option Z).

Definition consume_token (s : S) (expected : string) : S * bool :=
  if bool_decide (to_uppercase (peek_token s) = to_uppercase expected) then (next_token s, true) else (s, false).
Fixpoint consume_tokens (s : S) (expected_tokens : list string) : S * bool :=
  match expected_tokens with
  | [] => (s, true)
  | expected :: rest =>
      let '(s, found) := consume_token s expected in
      if found then consume_tokens s rest else (s, false)
  end.
(** [HASH] or [LINEAR HASH], [KEY] or [LINEAR KEY]: whether it is linear. *)
Definition parse_linear (s : S) (strategy : string) : S * option bool :=
  let '(s, found) := consume_token s strategy in
  if found then (s, Some false) else
  let '(s, found) := consume_tokens s ["LINEAR"; strategy] in
  (s, if found then Some true else None).

Definition parse_partition_num (s : S) : res ParserError (Z * S) :=
  let? (partition_num, s) :=
    match parse_keyword s "PARTITIONS" with
    | Some s =>
        let? (value, s) := parse_number_value s in
        match value with
        | Number v => match parse_u64 v with Some n => Ok (n, s) | None => Err InvalidPartitionNum end
        | OtherValue _ => Err ExpectPartitionNumber
        end
    | None => Ok (1, s)
    end in
  if MAX_PARTITION_NUM <? partition_num then Err TooManyPartitions else Ok (partition_num, s).

Definition is_integer (t : DataType) : bool := match t with DtString | DtOther _ => false | _ => true end.
Definition check_column_expr_validity_in_hash (column : Ident) (columns : list ColumnDef) : bool :=
  existsb (fun col => bool_decide (cd_name col = column) && (is_integer (cd_data_type col) && existsb is_tag_column (cd_options col))) columns.
Definition parse_and_check_expr_in_hash (s : S) (columns : list ColumnDef) : res ParserError (SqlExpr * S) :=
  let? (expr, s) := parse_expr s in
  match expr with
  | SqlNested (SqlIdentifier id) =>
      if check_column_expr_validity_in_hash id columns then Ok (SqlIdentifier id, s) else Err ExpectTagColumn
  | SqlNested _ => Err OnlyColumnInHash
  | _ => Err ExpectNestedExpr
  end.
Definition maybe_parse_and_check_hash_partition (s : S) (columns : list ColumnDef) : res ParserError (option HashPartition * S) :=
  match parse_linear s "HASH" with
  | (s, None) => Ok (None, s)
  | (s, Some linear) =>
      let? (expr, s) := parse_and_check_expr_in_hash s columns in
      let? (partition_num, s) := parse_partition_num s in
      Ok (Some (MkHashPartition linear partition_num expr), s)
  end.
(** The loop over the columns of the key. *)
Fixpoint check_key_columns (key_columns : list Ident) (columns : list ColumnDef) : res ParserError unit :=
  match key_columns with
  | [] => Ok tt
  | key_col :: key_columns =>
      match List.find (fun c => bool_decide (si_value (cd_name c) = si_value key_col)) columns with
      | None => Err NonExistentColumn
      | Some col_def =>
          if existsb is_tag_column (cd_options col_def) then check_key_columns key_columns columns else Err KeyMustBeTag
      end
  end.
Definition maybe_parse_and_check_key_partition (s : S) (columns : list ColumnDef) : res ParserError (option KeyPartition * S) :=
  match parse_linear s "KEY" with
  | (s, None) => Ok (None, s)
  | (s, Some linear) =>
      let? (key_columns, s) := parse_column_list s in
      let? _ := ensure (negb (bool_decide (key_columns = []))) NoPartitionKey in
      let? _ := check_key_columns key_columns columns in
      let? (partition_num, s) := parse_partition_num s in
      Ok (Some (MkKeyPartition linear partition_num (si_value <$> key_columns)), s)
  end.
Definition parse_and_check_partition_strategy (s : S) (columns : list ColumnDef) : res ParserError (option SqlPartition * S) :=
  let? (key, s) := maybe_parse_and_check_key_partition s columns in
  match key with
  | Some key => Ok (Some (PKey key), s)
  | None =>
      let? (hash, s) := maybe_parse_and_check_hash_partition s columns in
      Ok (PHash <$> hash, s)
  end.
Definition maybe_parse_and_check_partition (s : S) (columns : list ColumnDef) : res ParserError (option SqlPartition * S) :=
  match parse_keyword s "PARTITION" with
  | None => Ok (None, s)
  | Some s =>
      match parse_keyword s "BY" with
      | None => Err (SqlparserError 0)
      | Some s => parse_and_check_partition_strategy s columns
      end
  end.

(** ** From the statement to the description ([query_frontend/src/partition.rs])
    [Expr::to_bytes] of DataFusion may fail. *)
Inductive PlannerError := ParsePartitionWithCause | UnsupportedPartition.
Context (expr_to_bytes : Expr -> option bytes).
Definition parse_hash (stmt : HashPartition) : res PlannerError HashPartitionInfo :=
  let definitions := make_partition_definitions (hn_partition_num stmt) in
  match hn_expr stmt with
  | SqlIdentifier id =>
      match expr_to_bytes (EColumn (si_value id)) with
      | None => Err ParsePartitionWithCause
      | Some expr => Ok (MkHashInfo DEFAULT_PARTITION_VERSION definitions expr (hn_linear stmt))
      end
  | _ => Err UnsupportedPartition
  end.
Definition partition_parse (stmt : SqlPartition) : res PlannerError PartitionInfo :=
  match stmt with
  | PHash stmt => let? v := parse_hash stmt in Ok (PiHash v)
  | PKey stmt => Ok (PiKey (parse_key_partition stmt))
  end.

(** ** What is accepted *)
Lemma parse_partition_num_max s n s' : parse_partition_num s = Ok (n, s') -> n <= MAX_PARTITION_NUM.
Proof.
  unfold parse_partition_num. destruct (match parse_keyword s "PARTITIONS" with Some _ => _ | None => _ end) as [[m s1]| |]; cbn; try done.
  destruct (Z.ltb_spec MAX_PARTITION_NUM m); [done|]. by intros [= <- _].
Qed.
Lemma check_key_columns_ok keys columns : check_key_columns keys columns = Ok tt ->
  Forall (fun k => exists c, c ∈ columns /\ si_value (cd_name c) = k /\ existsb is_tag_column (cd_options c) = true) (si_value <$> keys).
Proof.
  induction keys as [|k keys IH]; cbn; [constructor|]. destruct (List.find _ _) as [c|] eqn:Hf; [|done]. destruct (existsb _ _) eqn:Ht; [|done].
  intros Hk. apply find_some in Hf as [Hc%list_elem_of_In Hn%bool_decide_eq_true]. constructor; [by exists c|by apply IH].
Qed.
(** A partition key has columns, each a tag of the table, and at most the maximum of
    partitions. *)
Lemma key_partition_checked s columns k s' : maybe_parse_and_check_partition s columns = Ok (Some (PKey k), s') ->
  kn_partition_key k <> [] /\ kn_partition_num k <= MAX_PARTITION_NUM /\
  Forall (fun c => exists d, d ∈ columns /\ si_value (cd_name d) = c /\ existsb is_tag_column (cd_options d) = true) (kn_partition_key k).
Proof.
  unfold maybe_parse_and_check_partition. destruct (parse_keyword s _) as [s1|]; [|done]. destruct (parse_keyword s1 _) as [s2|]; [|done].
  unfold parse_and_check_partition_strategy, maybe_parse_and_check_key_partition. destruct (parse_linear s2 "KEY") as [s3 [linear|]]; cbn [rbind].
  - destruct (parse_column_list s3) as [[keys s4]| |]; cbn [rbind]; try done. case_bool_decide as Hne; cbn; [done|].
    destruct (check_key_columns keys columns) as [[]| |] eqn:Hk; cbn; try done. destruct (parse_partition_num s4) as [[n s5]| |] eqn:Hp; cbn; try done.
    intros [= <- _]. split_and!; [by destruct keys|by eapply parse_partition_num_max|by apply check_key_columns_ok].
  - destruct (maybe_parse_and_check_hash_partition s3 columns) as [[[h|] s4]| |]; cbn; done.
Qed.
End parser.

(** ** Runs
    Tokens as a list of texts. *)
#[export] Instance token_list : SqlParser (list string) := {
  peek_token s := default "EOF" (head s);
  next_token s := tail s;
  parse_keyword s k := match s with t :: s => if bool_decide (to_uppercase t = k) then Some s else None | [] => None end;
  parse_column_list s := match s with "(" :: c :: ")" :: s => Ok ([MkSqlIdent c None], s) | _ => Err (SqlparserError 1) end;
  parse_expr s := match s with "(" :: c :: ")" :: s => Ok (SqlNested (SqlIdentifier (MkSqlIdent c None)), s) | _ => Err (SqlparserError 2) end;
  parse_number_value s := match s with n :: s => Ok (Number n, s) | [] => Err (SqlparserError 3) end
}.
Definition demo_columns_sql : list ColumnDef := [MkColumnDef (MkSqlIdent "c" None) DtInt [DialectSpecific [Word TAG]]].
Definition demo_u64 (v : string) : option Z := if bool_decide (v = "4") then Some 4 else if bool_decide (v = "0") then Some 0 else None.
(** [LINEAR HASH] is taken for [HASH]: the attempt to read [LINEAR KEY] has consumed the
    word. *)
Lemma linear_hash_is_hash : maybe_parse_and_check_partition demo_u64 ["PARTITION"; "BY"; "LINEAR"; "HASH"; "("; "c"; ")"; "PARTITIONS"; "4"] demo_columns_sql =
  Ok (Some (PHash (MkHashPartition false 4 (SqlIdentifier (MkSqlIdent "c" None)))), []).
Proof. vm_compute. reflexivity. Qed.
(** [PARTITIONS 0] is accepted. *)
Lemma no_partitions_accepted : maybe_parse_and_check_partition demo_u64 ["PARTITION"; "BY"; "LINEAR"; "KEY"; "("; "c"; ")"; "PARTITIONS"; "0"] demo_columns_sql =
  Ok (Some (PKey (MkKeyPartition true 0 ["c"])), []).
Proof. vm_compute. reflexivity. Qed.
